(* ===== verification/_CoqProject ===== *)
-Q . S2P
Prelude.v
Json.v
DomainSync.v
Crypto.v
BlobCrypt.v
Utf8.v
PlannerUtil.v
Ids.v
Call.v
CallSession.v
CallManager.v
GroupCall.v
Permissions.v
Poll.v
Calendar.v
Repeat.v
PlannerState.v
PlannerJson.v
Series.v
SeriesRules.v
SeriesShift.v
SeriesEdit.v
SeriesDays.v
Schedule.v
NotesMerge.v
Order.v
DayPlan.v
FreeTime.v
DayLayout.v
TaskLists.v
Reminders.v
Coalesce.v
Host.v
PlannerSync.v
PlannerQueue.v
NotesText.v
CloudModel.v
CloudSort.v
CloudFiles.v
CloudJson.v
CloudOps.v
CloudSync.v
CloudPieces.v
CloudBench.v
CloudQueue.v
CloudBlobs.v
CloudDrive.v
DriveRuns.v
NotesFolders.v
ExportZip.v
ZipFormat.v
PackArchive.v
SessionThreads.v
QueueWatchdog.v
StoreCrypt.v
HistoryOps.v
RowStore.v
RowFiles.v
HistorySync.v
HistoryWalk.v
HistoryBench.v
HistoryInv.v
HistoryQueue.v
HistoryRead.v
