(* ===== verification/Prelude.v ===== *)
(** * Parvane portable core: verification library (root file)

    The program. Parvane is a messenger; its own portable core is the C++
    library [src/desktop/parvane-core] (headers in [include/parvane], code in
    [src] and [src/sections]; file names below are relative to it). The core
    knows no user interface: hosts call its operations, pass callbacks for what
    it needs (sending, media engines, storage), and show its results. Its parts
    are calls (signals, sessions, the managers of personal and group calls),
    messages (rights, rules of the chat window, polls, encrypted blobs, packs),
    sections of the client (planner, cloud, notes) with the synchronisation
    layer they share, and the threads of a session. The rest of the repository
    is the desktop client that embeds the core (a fork of Telegram Desktop),
    servers and other clients in other languages.

    ** Files

    - [Prelude] (this file): bytes, machine integers, results of code that
      throws, the order of [std::string], [std::map] as a sorted association
      list, actions (state changes with the calls they make), automation.
      [Json]: the values of the JSON library. [Order]: comparisons and
      [std::stable_sort].
    - [Utf8] ([src/sections/unicode_lite.h]), [PlannerUtil]
      ([planner_util.h]), [NotesText] ([notes_text.h]): the three text layers of
      the sections, each with its own decoder as the code has it.
    - [DomainSync] ([domain_sync.cpp]): codecs, records and deadlines of the
      synchronisers. [Crypto] ([crypto.cpp]), [BlobCrypt] ([blobcrypt.cpp]).
    - [Ids] ([ids.h]), [Call] ([call.h]), [CallSession] ([call_session.cpp]),
      [CallManager] ([call_manager.cpp]), [GroupCall]
      ([group_call_manager.cpp]): a signal is built and read by [Call]; a
      session is a state machine over events; the managers route signals to
      sessions and translate the calls of a session into their own.
    - [Permissions] ([group.h], [chat_rules.h]), [Poll] ([poll.h]).
    - The planner. [Calendar], [Repeat] (the calendar and the repeats of
      [planner_model.cpp]), [Schedule] ([planner_schedule.cpp]: a week written
      as text becomes weekly series of [Repeat]). [PlannerState]: the state,
      its tasks and events and patches of them; the class [Entry] with its laws
      [EntryLaws] is what tasks and events share, the [template] of the code,
      and series are proved against it. [PlannerJson]: the JSON forms of
      [planner_types.h]. [Series] (the operations on series of
      [planner_model.cpp]), with [SeriesRules] (dividing, ending, detaching) and
      [SeriesShift] (moving) about them; [SeriesEdit] ([planner_series.cpp])
      and [SeriesDays] about its searches. [DayPlan] (the index and the
      functions of a day, free time and slots), with [FreeTime] about time;
      [DayLayout] (the columns of a day); [TaskLists] (lists, the order of
      tasks, checks of input, [planner_groups.cpp]); [Reminders]
      ([planner_reminders.cpp], which asks [DayPlan] for each day).
    - The planner's synchroniser ([planner_sync.cpp]). [Coalesce]: joining the
      edits of a batch. [Host] ([domain_sync.h]): what a synchroniser asks for,
      the classes [DomainTransport] and [RecordStore], the monad of code that
      changes its state, calls the host and throws, and [Sound], the scheme by
      which a property of pieces of code becomes one of whole programs.
      [PlannerSync]: the class with all its operations. [PlannerQueue]: the
      theorems about it for any host, and a host of its own to run it with.
    - [CloudModel], [CloudSort], [CloudFiles], [CloudJson] ([cloud_model.cpp]):
      the tree of nodes, its order, the names of files, the JSON form of nodes.
    - The cloud's synchroniser ([cloud_sync.cpp]), over [Host] as the planner's.
      [CloudOps]: entries of the personal journal and the operations that the
      screen builds. [CloudSync]: the class of that name, all operations.
      [CloudPieces]: the calls of its host and the scheme by which a property of
      its pieces is one of all methods; [CloudQueue] and [CloudBlobs] use it for
      the queues and for the blobs of erased files. [CloudDrive]: the class that
      the screen asks, with [CloudSync] as a part of its state; [DriveRuns]
      lifts what holds of the part to runs of the screen and the host together.
      [CloudBench] is a host to run all of this with.
    - [NotesFolders]
      ([notes_folders.cpp] over the cloud's nodes, and
      [notes_canvas_history.cpp]), [NotesMerge] ([notes_merge.cpp]).
    - [ExportZip] ([export_zip.cpp]: the writer), [ZipFormat] (a reader of the
      format and the theorems about the writer), [PackArchive]
      ([pack_archive.cpp]).
    - [SessionThreads] ([l2_ticker.cpp]), [QueueWatchdog]
      ([queue_watchdog.cpp]).
    - [StoreCrypt] ([storecrypt.cpp]): the encrypted files of the device, over
      files whose writes may fail.
    - The journal of the account's history ([history_sync.cpp]). [HistoryOps]:
      its pure functions. [RowStore]: the class [FileRowStore] over the files of
      [StoreCrypt]; [RowFiles]: what a store opened again finds. [HistorySync]:
      the class of that name, all operations and the worker, in the monad of
      [Host], with any store of rows and beside other threads. [HistoryWalk]:
      the calls of its host and its sections under locks, and the scheme by which
      a property of these is one of all operations; [HistoryInv] (cursor, window,
      waiting mutations), [HistoryQueue] (own operations) and [HistoryRead]
      (unread messages, parts of a segment, termination) use it. [HistoryBench]
      is a host to run it with.

    ** How state and operations correspond to the code

    A struct is a [Record], an enumeration an [Inductive], a [std::string] a
    list of bytes, a [std::map] an association list in key order, a pointer to
    an element of a vector its place. Integers are [Z], wrapped ([u32], [u64],
    [i64]) where the code can leave their width. Code that throws gives a
    [result] or, in [ExportZip], is a state with an error; an operation that
    calls out is an action with the list of its calls. A synchroniser runs in
    the monad of [Host]: what it did before an exception stays done. What a
    mutex protects is
    one step of a transition system ([CallManager], [GroupCall],
    [SessionThreads], [QueueWatchdog]), and theorems are about all sequences of
    steps. A definition has the name of the code's function; a loop or a lambda
    that needed a name of its own is next to its function.

    Parameters stand for code outside of the core: Ed25519, SHA-256 and
    AES-256-GCM of OpenSSL, the text form of JSON, the clock, random bytes and
    the host's callbacks. Where a theorem needs a law of such code (an AEAD
    opens what it sealed, a JSON parser reads what was printed), the law is a
    hypothesis or the field of a class, and an instance of the theorem uses a
    concrete function that has it.

    ** What the theorems show

    - Calls: no media before the peer's signature was accepted; a session that
      ended stays so; invariants of both managers over every run; a busy line
      is not disturbed; who declines is not called again; signals keep their
      order and are read as they were written.
    - Blobs and archives: sealing and opening are inverse, also for a range;
      what opens was sealed so; a finished ZIP archive reads back as what was
      added, is finished whenever the limits allow it, and a refused entry
      leaves it as it was; the estimate of its size is exact, but for the reserve
      the writer keeps; a pack reads back, and any bytes as a pack are safe;
      the table of CRC-32 computes the division.
    - Text: decoding and encoding, strict decoding, percent encoding and string
      literals are inverse where they should be; the orders of names are total
      orders; names on disk are safe.
    - Planner: the calendar agrees with the Gregorian one defined
      independently; the stepping walk over a repeat visits exactly the days of
      the rule; instances, marks and next open instances follow; a written
      schedule is read back, and what is read is well formed and makes valid
      series. Dividing, ending, moving and changing series does to their days
      what it says, with the conditions under which it does and the cases in
      which it does not; the index of a period agrees with the functions of a
      day; free slots are the complement of what is timed; the columns of a day
      are as few as possible; groups stay consistent; no reminder of a window is
      missed; entries are read back from JSON.
    - The queue: joined edits have the effect of the edits, where a record that
      was deleted and edited again is whole; in any run of calls since the last
      reset, whatever fails, an operation leaves the queue at its front and only
      when the server has it; while the device's records work, the queue on it is
      the queue in memory; every call ends. The first of these also of the queues
      of the cloud, for every method the screen asks and unless a container is
      given up.
    - The cloud: of the blobs of erased files only those that an upload of this
      device gave are erased on the server; a text that was edited from an old
      version is not written; restored and moved files get names of their own;
      the journal's entries and the nodes are read as they were written.
    - Cloud and notes: paths, subtrees and moves against the relation of
      parents; sorting is a stable sort by an order; free names are found;
      folders and groups of notes lose nothing; the merge of notes is a
      three-way merge on a longest common subsequence; undo and redo move on a
      line of documents.
    - Encrypted files: what is read from a file of lines is what the writes did
      to a list by what they answered; a whole file reads back; both where no
      bytes are lost unseen; what writes changes no file behind the fence, and what
      seals none without the key that is required.
    - History: the index of a chat is true after any operations; a store opened
      again has the rows, marks and documents; an own operation leaves the queue
      only when the server has its records, and the queue survives the end of
      the program when its last writing was done; neither cursor nor seen head goes back; memory is bounded; a
      segment is the whole of its parts; unread messages are counted; every
      operation ends, whatever others answer.
    - Threads: the clocked sender keeps the order of records and sends each in
      time; the watchdog reports exactly the tasks that are late.
    - Rights and polls: more rights allow more; tallies, votes and deadlines.

    ** Fuel

    A loop of the code that is not structural takes fuel. Loops over a text get
    its length, and each turn consumes a byte ([decode_loop_fuel],
    [lower_loop_encode], [decodeUriFrom_strict]); loops over a tree get one more
    than there are nodes, and each turn finds a new one ([climb_path],
    [climbNames_spec], [breadth_spread], [passes_known]); the search for a free
    name gets one more than the names taken ([freeName_free]); the merge gets
    the sum of the lengths ([mergeLoop_spec]); the walk over a repeat gets a
    bound from the period and is proved to need no more ([walk_is_naive]); an
    operation of the planner's queue gets four turns, as it is tried again three
    times ([sendLoop_ends]), a batch of edits one for each edit
    ([flows_prepareChunks]), the journal the fifty pages of the code; the loop
    that sends a queue of the cloud gets [turns], a parameter, and as many as
    operations and coming changes of the grants are enough ([sending_ends]); the
    journal of history gets a turn for each record it asks for and each batch of
    a checkpoint, and [turns] for the depth of recording, of which two are enough
    ([history_ends]); the days
    of reminders get one for each day of the window ([collectDays_keys]), the
    search for a first day the number of days the code has; a number below 2^63
    has less than 64 digits ([base36_spec]).

    ** Not modelled, and why

    Doubles ([jsRound], [formatNumber], nutrition, geometry of canvases) have no
    faithful counterpart that would say more than the code; ranks of tasks are
    kept exactly, in units of 2^-1074. The store of rows that the journal of
    history uses is given (the code also runs without one, and does nothing
    then). Sums of minutes ([int] in the planner)
    are not wrapped: a day would need more than a million entries. Key backup,
    bundles and linking are sequences of OpenSSL calls; the sessions of protocol
    v2 call an engine written in another language; gateway transport, local
    files and map tiles are input and output. Files of texts and tables for
    screens carry no logic. [folderStats] of the cloud walks an
    [unordered_map], whose order is not specified. In [SessionThreads] and
    [QueueWatchdog] waiting on condition variables and the joins of threads are
    the order of the steps. The synchronisers leave out the lines of the log, but
    not the calls made for them, and take the hooks not to call the object
    again; arguments of a call are evaluated from left to right. The user interface, the servers and the clients in
    other languages are outside of the core.

    ** Plan

    Next: link edits
    and the graph of notes ([notes_link_edit.cpp], [notes_graph.cpp]); search of
    the palette; then quick entry, the largest of the recognisers. *)

From Stdlib Require Export ZArith Lia.
From Stdlib Require Export Strings.Byte.
From stdpp Require Export base tactics list gmap strings numbers.

#[export] Set Default Goal Selector "!".

(** ** Bytes *)

(** [std::string] of the sources is a sequence of bytes. *)
Abbreviation bytes := (list byte).

#[export] Instance byte_eq_dec : EqDecision byte := Byte.byte_eq_dec.
#[export] Program Instance byte_countable : Countable byte :=
  inj_countable Byte.to_N Byte.of_N _.
Next Obligation. intros b. apply Byte.of_to_N. Qed.
#[export] Instance byte_inhabited : Inhabited byte := populate x00.

(** The unsigned value of a byte ([static_cast<unsigned char>(c)]). *)
Definition b2z (b : byte) : Z := Z.of_N (Byte.to_N b).

(** Truncation of an integer to a byte ([static_cast<char>(v)]). *)
Definition z2b (z : Z) : byte :=
  match Byte.of_N (Z.to_N (z `mod` 256)) with
  | Some b => b
  | None => x00
  end.

(** A source literal, as the bytes the compiler stores (UTF-8). *)
Definition str (s : string) : bytes := String.list_byte_of_string s.

Declare Scope parvane_scope.
Delimit Scope parvane_scope with pv.
Notation "# s" := (str s%string) (at level 1, format "# s") : parvane_scope.
#[export] Set Warnings "-notation-overridden".

(** ** Machine integers *)

(** Unsigned and signed wrap-around at the widths the sources use. *)
Definition wrap (w z : Z) : Z := z `mod` 2 ^ w.
Definition u16 : Z -> Z := wrap 16.
Definition u32 : Z -> Z := wrap 32.
Definition u64 : Z -> Z := wrap 64.
Definition signed (w z : Z) : Z := (z + 2 ^ (w - 1)) `mod` 2 ^ w - 2 ^ (w - 1).
Definition i64 : Z -> Z := signed 64.

(** ** Results *)

(** Code that throws is a value of this type; [E] is what is thrown. *)
Inductive result (E A : Type) : Type :=
| Ok (a : A)
| Err (e : E).
Arguments Ok {E A} a.
Arguments Err {E A} e.

Definition rbind {E A B} (m : result E A) (k : A -> result E B) : result E B :=
  match m with Ok a => k a | Err e => Err e end.
Notation "'let!' x ':=' m 'in' k" := (rbind m (fun x => k))
  (at level 10, x pattern, m at level 100, k at level 200) : parvane_scope.

Lemma rbind_ok {E A B} (m : result E A) (k : A -> result E B) (b : B) : rbind m k = Ok b -> exists a, m = Ok a /\ k a = Ok b.
Proof. destruct m as [a|e]; [by eexists|done]. Qed.

(** What the code may throw: an exception of the JSON library, a
    [std::invalid_argument] and the like. *)
Inductive exn : Type :=
| TypeError       (** [nlohmann::json::type_error] *)
| InvalidArgument (** [std::invalid_argument] *)
| OutOfRange      (** [std::out_of_range] *)
| Undefined       (** no exception: the behaviour is undefined *).

#[export] Instance exn_eq_dec : EqDecision exn.
Proof. solve_decision. Defined.
#[export] Instance result_eq_dec `{EqDecision E, EqDecision A} : EqDecision (result E A).
Proof. solve_decision. Defined.

Open Scope parvane_scope.

(** ** Hint databases of the library *)
Create HintDb parvane.
Create Rewrite HintDb pvbytes.
Create Rewrite HintDb parvanej.

(** ** Lemmas on bytes *)

Lemma b2z_range (b : byte) : (0 <= b2z b < 256)%Z.
Proof. unfold b2z. pose proof (Byte.to_N_bounded b). lia. Qed.

Lemma z2b_b2z (b : byte) : z2b (b2z b) = b.
Proof.
  unfold z2b. pose proof (b2z_range b). rewrite Z.mod_small by lia.
  unfold b2z. by rewrite N2Z.id, Byte.of_to_N.
Qed.

Lemma b2z_z2b (z : Z) : b2z (z2b z) = (z `mod` 256)%Z.
Proof.
  unfold z2b. pose proof (Z.mod_pos_bound z 256 ltac:(lia)).
  destruct (Byte.of_N (Z.to_N (z `mod` 256))) as [b|] eqn:E.
  - unfold b2z. apply Byte.to_of_N in E. rewrite E. lia.
  - apply Byte.of_N_None_iff in E. lia.
Qed.

Lemma b2z_inj (a b : byte) : b2z a = b2z b -> a = b.
Proof. intros H. by rewrite <- (z2b_b2z a), H, z2b_b2z. Qed.
#[export] Instance b2z_inj_inst : Inj (=) (=) b2z := b2z_inj.

Lemma z2b_eq (z : Z) (b : byte) : (z `mod` 256)%Z = b2z b -> z2b z = b.
Proof. intros H. apply b2z_inj. by rewrite b2z_z2b. Qed.

Lemma b2z_z2b_small (z : Z) : (0 <= z < 256)%Z -> b2z (z2b z) = z.
Proof. intros H. rewrite b2z_z2b. apply Z.mod_small. lia. Qed.

#[export] Hint Rewrite z2b_b2z b2z_z2b : pvbytes.
#[export] Hint Resolve b2z_range z2b_eq : parvane.

(** A property of all bytes can be checked by evaluation. *)
Definition all_bytes : bytes := (fun n => z2b (Z.of_nat n)) <$> seq 0 256.

Lemma all_bytes_elem (b : byte) : b ∈ all_bytes.
Proof.
  apply list_elem_of_fmap. exists (Z.to_nat (b2z b)).
  pose proof (b2z_range b). split.
  - by rewrite Z2Nat.id, z2b_b2z by lia.
  - apply elem_of_seq. lia.
Qed.

Lemma byte_forallb (P : byte -> bool) : forallb P all_bytes = true -> forall b, P b = true.
Proof. intros H b. rewrite forallb_forall in H. apply H, list_elem_of_In, all_bytes_elem. Qed.

(** The same for an initial segment of the integers. *)
Fixpoint zall (n : nat) (lo : Z) (P : Z -> bool) : bool :=
  match n with
  | O => true
  | S n' => P lo && zall n' (lo + 1)%Z P
  end.

Lemma zall_spec (n : nat) (lo : Z) (P : Z -> bool) :
  zall n lo P = true -> forall z, (lo <= z < lo + Z.of_nat n)%Z -> P z = true.
Proof.
  revert lo. induction n as [|n IH]; intros lo; cbn [zall]; [lia|].
  rewrite andb_true_iff. intros [H1 H2] z Hz.
  destruct (decide (z = lo)) as [->|]; [done|]. apply (IH (lo + 1)%Z); [done|lia].
Qed.

Lemma z_forallb (n : nat) (P : Z -> bool) :
  zall n 0 P = true -> forall z, (0 <= z < Z.of_nat n)%Z -> P z = true.
Proof. intros H z Hz. apply (zall_spec n 0); [done|lia]. Qed.

(** A larger segment, in rows of [m], so that the bounds stay small. *)
Lemma z_forallb2 (n m : nat) (P : Z -> bool) : 0 < m ->
  zall n 0 (fun r => zall m (r * Z.of_nat m) P) = true ->
  forall z, (0 <= z < Z.of_nat n * Z.of_nat m)%Z -> P z = true.
Proof.
  intros Hm H z Hz.
  pose proof (Z.div_mod z (Z.of_nat m) ltac:(lia)) as E.
  pose proof (Z.mod_pos_bound z (Z.of_nat m) ltac:(lia)) as B.
  assert (0 <= z `div` Z.of_nat m < Z.of_nat n)%Z as R.
  { split; [apply Z.div_pos; lia|]. apply Z.div_lt_upper_bound; lia. }
  pose proof (z_forallb n _ H _ R) as H'. cbn beta in H'.
  eapply zall_spec; [exact H'|]. lia.
Qed.

(** ** Bit operations as arithmetic *)

Lemma testbit_small (v k n : Z) :
  (0 <= v < 2 ^ k)%Z -> (0 <= k <= n)%Z -> Z.testbit v n = false.
Proof.
  intros Hv Hk. destruct (decide (v = 0)%Z) as [->|]; [apply Z.bits_0|].
  apply Z.bits_above_log2; [lia|]. apply Z.log2_lt_pow2; [lia|].
  eapply Z.lt_le_trans; [apply Hv|]. apply Z.pow_le_mono_r; lia.
Qed.

Lemma land_shiftl_small (x v k : Z) :
  (0 <= k)%Z -> (0 <= v < 2 ^ k)%Z -> Z.land (Z.shiftl x k) v = 0%Z.
Proof.
  intros Hk Hv. apply Z.bits_inj'. intros n Hn. rewrite Z.land_spec, Z.bits_0.
  destruct (decide (n < k)%Z).
  - by rewrite Z.shiftl_spec_low.
  - rewrite (testbit_small v k n) by lia. apply andb_false_r.
Qed.

Lemma lor_shiftl_add (x v k : Z) :
  (0 <= k)%Z -> (0 <= v < 2 ^ k)%Z -> Z.lor (Z.shiftl x k) v = (x * 2 ^ k + v)%Z.
Proof.
  intros Hk Hv. rewrite <- Z.shiftl_mul_pow2 by done.
  rewrite Z.add_nocarry_lxor by (by apply land_shiftl_small).
  symmetry. apply Z.lxor_lor. by apply land_shiftl_small.
Qed.

Lemma land_ones_mod (x k : Z) : (0 <= k)%Z -> Z.land x (2 ^ k - 1) = (x `mod` 2 ^ k)%Z.
Proof. intros. rewrite <- Z.land_ones by done. by rewrite Z.ones_equiv, Z.sub_1_r. Qed.

Lemma shiftr_div (x k : Z) : (0 <= k)%Z -> Z.shiftr x k = (x `div` 2 ^ k)%Z.
Proof. intros. by rewrite Z.shiftr_div_pow2. Qed.

(** Lists taken three at a time. *)
Lemma list_ind3 {A} (P : list A -> Prop) :
  P [] -> (forall a, P [a]) -> (forall a b, P [a; b]) ->
  (forall a b c l, P l -> P (a :: b :: c :: l)) -> forall l, P l.
Proof.
  intros H0 H1 H2 H3. fix IH 1. intros [|a [|b [|c l]]]; [exact H0|apply H1|apply H2|apply H3, IH].
Qed.

(** ** The order of [std::string] *)

(** [operator<] on [std::string]: lexicographic on unsigned bytes. *)
Fixpoint blt (a b : bytes) : bool :=
  match a, b with
  | [], [] => false
  | [], _ :: _ => true
  | _ :: _, [] => false
  | x :: a', y :: b' =>
      if (b2z x <? b2z y)%Z then true
      else if (b2z y <? b2z x)%Z then false
      else blt a' b'
  end.

Definition ble (a b : bytes) : bool := negb (blt b a).

Lemma blt_irrefl (a : bytes) : blt a a = false.
Proof. induction a as [|x a IH]; cbn; [done|]. by rewrite Z.ltb_irrefl. Qed.

Lemma blt_trans (a b c : bytes) : blt a b = true -> blt b c = true -> blt a c = true.
Proof.
  revert b c. induction a as [|x a IH]; intros [|y b] [|z c]; cbn; try done.
  repeat case_match; rewrite ?Z.ltb_lt, ?Z.ltb_ge in *; try done; try lia. apply IH.
Qed.

Lemma blt_total (a b : bytes) : blt a b = false -> blt b a = false -> a = b.
Proof.
  revert b. induction a as [|x a IH]; intros [|y b]; cbn; try done.
  repeat case_match; rewrite ?Z.ltb_lt, ?Z.ltb_ge in *; try done; try lia.
  intros H1 H2. f_equal; [apply b2z_inj; lia|by apply IH].
Qed.

Lemma blt_asym (a b : bytes) : blt a b = true -> blt b a = false.
Proof.
  intros H. destruct (blt b a) eqn:E; [|done].
  by rewrite <- (blt_irrefl a), (blt_trans a b a).
Qed.

Lemma blt_ne (a b : bytes) : blt a b = true -> a <> b.
Proof. intros H ->. by rewrite blt_irrefl in H. Qed.

#[export] Hint Resolve blt_irrefl blt_trans blt_asym blt_ne : parvane.

Lemma Forall_elem {A} (P : A -> Prop) (l : list A) : Forall P l <-> forall x, x ∈ l -> P x.
Proof. rewrite List.Forall_forall. by setoid_rewrite list_elem_of_In. Qed.

(** ** Actions: code that changes a state and calls out

    An action takes the state and gives the new state with the list of calls
    it made to its surroundings (callbacks, engines), in order. *)
Definition act (S W : Type) : Type := S -> S * list W.

Section Actions.
Context {S W : Type}.
Definition skip : act S W := fun s => (s, []).
Definition modify (f : S -> S) : act S W := fun s => (f s, []).
Definition emit (w : W) : act S W := fun s => (s, [w]).
Definition reads (k : S -> act S W) : act S W := fun s => k s s.
Definition andThen (a b : act S W) : act S W :=
  fun s => let '(s1, w1) := a s in let '(s2, w2) := b s1 in (s2, w1 ++ w2).
Definition guarded (c : bool) (a : act S W) : act S W := if c then a else skip.
(** [for (const auto &x : l) body(x)] *)
Fixpoint forEach {A} (l : list A) (body : A -> act S W) : act S W :=
  match l with
  | [] => skip
  | x :: l' => andThen (body x) (forEach l' body)
  end.

(** What every action of a loop keeps, the loop keeps. *)
Lemma andThen_post (P Q : S -> Prop) (a b : act S W) (s : S) :
  P (a s).1 -> (forall s', P s' -> Q (b s').1) -> Q (andThen a b s).1.
Proof.
  unfold andThen. destruct (a s) as [s1 w1]. intros H1 H2.
  specialize (H2 s1 H1). by destruct (b s1).
Qed.

Lemma andThen_state (P : S -> Prop) (a b : act S W) (s : S) :
  P (a s).1 -> (forall s', P s' -> P (b s').1) -> P (andThen a b s).1.
Proof. apply andThen_post. Qed.

Lemma forEach_state {A} (P : S -> Prop) (l : list A) (body : A -> act S W) :
  (forall x s, x ∈ l -> P s -> P (body x s).1) ->
  forall s, P s -> P (forEach l body s).1.
Proof.
  induction l as [|x l IH]; intros H s Hs; cbn [forEach]; [done|].
  apply andThen_state; [apply H; [left|done]|]. intros s' Hs'.
  apply IH; [|done]. intros y s2 Hy. apply H. by right.
Qed.

(** Where the calls of a loop come from. *)
Lemma forEach_calls {A} (w : W) (l : list A) (body : A -> act S W) :
  forall s, w ∈ (forEach l body s).2 -> exists x s', x ∈ l /\ w ∈ (body x s').2.
Proof.
  induction l as [|x l IH]; intros s; cbn [forEach].
  - cbn. by rewrite elem_of_nil.
  - unfold andThen. destruct (body x s) as [s1 w1] eqn:E1.
    destruct (forEach l body s1) as [s2 w2] eqn:E2. cbn. rewrite elem_of_app. intros [H|H].
    + exists x, s. split; [left|by rewrite E1].
    + destruct (IH s1) as (y & s' & Hy & Hw); [by rewrite E2|]. exists y, s'. split; [by right|done].
Qed.

Lemma forEach_calls_in {A} (P : S -> Prop) (w : W) (l : list A) (body : A -> act S W) (x : A) :
  (forall y s, P s -> P (body y s).1) -> x ∈ l -> (forall s, P s -> w ∈ (body x s).2) ->
  forall s, P s -> w ∈ (forEach l body s).2.
Proof.
  intros HP Hx Hw. induction l as [|y l IH]; [by apply elem_of_nil in Hx|].
  intros s Hs. cbn [forEach]. unfold andThen. specialize (HP y s Hs).
  destruct (body y s) as [s1 w1] eqn:E1. destruct (forEach l body s1) as [s2 w2] eqn:E2.
  cbn in *. rewrite elem_of_app. apply elem_of_cons in Hx as [<-|Hx].
  - left. specialize (Hw s Hs). by rewrite E1 in Hw.
  - right. specialize (IH Hx s1 HP). by rewrite E2 in IH.
Qed.

Lemma andThen_calls (w : W) (a b : act S W) (s : S) :
  w ∈ (andThen a b s).2 -> w ∈ (a s).2 \/ exists s', w ∈ (b s').2.
Proof.
  unfold andThen. destruct (a s) as [s1 w1]. destruct (b s1) as [s2 w2] eqn:E. cbn.
  rewrite elem_of_app. intros [H|H]; [by left|]. right. exists s1. by rewrite E.
Qed.

Lemma andThen_eq (a b : act S W) (s : S) :
  andThen a b s = ((b (a s).1).1, (a s).2 ++ (b (a s).1).2).
Proof. unfold andThen. destruct (a s) as [s1 w1]. cbn. by destruct (b s1). Qed.
End Actions.
Arguments act S W : clear implicits.
Notation "a ;> b" := (andThen a b) (at level 90, b at level 90, right associativity) : parvane_scope.

(** ** [std::map] with string keys

    An association list in key order: the order of iteration of the sources. *)
Section OrderedMap.
Context {A : Type}.
Fixpoint mset (k : bytes) (v : A) (m : list (bytes * A)) : list (bytes * A) :=
  match m with
  | [] => [(k, v)]
  | (k', v') :: m' =>
      if bool_decide (k = k') then (k, v) :: m'
      else if blt k k' then (k, v) :: (k', v') :: m'
      else (k', v') :: mset k v m'
  end.
Fixpoint mget (k : bytes) (m : list (bytes * A)) : option A :=
  match m with
  | [] => None
  | (k', v') :: m' => if bool_decide (k = k') then Some v' else mget k m'
  end.
Fixpoint mdel (k : bytes) (m : list (bytes * A)) : list (bytes * A) :=
  match m with
  | [] => []
  | (k', v') :: m' => if bool_decide (k = k') then m' else (k', v') :: mdel k m'
  end.

Lemma mget_mset (k k' : bytes) (v : A) m :
  mget k (mset k' v m) = if bool_decide (k = k') then Some v else mget k m.
Proof.
  induction m as [|[k1 v1] m IH]; cbn; [done|].
  repeat case_bool_decide; subst; cbn; repeat case_bool_decide; subst; try done;
    repeat case_match; cbn; repeat case_bool_decide; subst; try done; try congruence.
Qed.
Lemma mget_mset_eq (k : bytes) (v : A) m : mget k (mset k v m) = Some v.
Proof. rewrite mget_mset. by rewrite bool_decide_true. Qed.
Lemma mget_mset_ne (k k' : bytes) (v : A) m : k <> k' -> mget k (mset k' v m) = mget k m.
Proof. intros. rewrite mget_mset. by rewrite bool_decide_false. Qed.

Lemma mget_Some_elem (k : bytes) (v : A) m : mget k m = Some v -> (k, v) ∈ m.
Proof.
  induction m as [|[k1 v1] m IH]; cbn; [done|]. case_bool_decide; subst.
  - intros [= ->]. left.
  - intros H1. right. by apply IH.
Qed.
Lemma mset_elem (k : bytes) (v : A) m p : p ∈ mset k v m -> p = (k, v) \/ p ∈ m.
Proof.
  induction m as [|[k1 v1] m IH]; cbn.
  - rewrite list_elem_of_singleton. by left.
  - case_bool_decide; subst; [|destruct (blt k k1)]; rewrite !elem_of_cons; tauto.
Qed.
Lemma mdel_elem (k : bytes) m p : p ∈ mdel k m -> p ∈ m.
Proof.
  induction m as [|[k1 v1] m IH]; cbn; [done|].
  case_bool_decide; subst; rewrite !elem_of_cons; tauto.
Qed.
Lemma mset_length (k : bytes) (v : A) m : length (mset k v m) <= S (length m).
Proof.
  induction m as [|[k1 v1] m IH]; cbn; [lia|].
  case_bool_decide; [cbn; lia|]. destruct (blt k k1); cbn; lia.
Qed.

(** Keys in strictly increasing order: what the container guarantees. *)
Fixpoint msorted (m : list (bytes * A)) : Prop :=
  match m with
  | [] => True
  | (k, _) :: m' => Forall (fun kv => blt k kv.1 = true) m' /\ msorted m'
  end.

Lemma mset_sorted (k : bytes) (v : A) m : msorted m -> msorted (mset k v m).
Proof.
  induction m as [|[k1 v1] m IH]; cbn; [done|]. intros [Hall Hs].
  case_bool_decide as E; [by subst|]. destruct (blt k k1) eqn:Hlt; cbn.
  - split; [|done]. constructor; [done|].
    eapply List.Forall_impl; [|exact Hall]. cbn. intros kv. by apply blt_trans.
  - split; [|by apply IH]. apply Forall_elem. intros p Hp.
    apply mset_elem in Hp as [->|Hp].
    + cbn. destruct (blt k1 k) eqn:E1; [done|]. destruct E. by apply blt_total.
    + rewrite Forall_elem in Hall. by apply Hall.
Qed.
Lemma mdel_sorted (k : bytes) m : msorted m -> msorted (mdel k m).
Proof.
  induction m as [|[k1 v1] m IH]; cbn; [done|]. intros [Hall Hs].
  case_bool_decide; [done|]. cbn. split; [|by apply IH].
  rewrite Forall_elem in *. intros p Hp. by apply Hall, (mdel_elem k).
Qed.
Lemma mget_None_lt (k : bytes) m :
  Forall (fun kv => blt k kv.1 = true) m -> mget k m = None.
Proof.
  induction 1 as [|[k1 v1] m H1 H2 IH]; cbn; [done|]. cbn in H1.
  rewrite bool_decide_false; [done|]. by apply blt_ne.
Qed.
Lemma mget_mdel (k k' : bytes) m : msorted m ->
  mget k (mdel k' m) = if bool_decide (k = k') then None else mget k m.
Proof.
  induction m as [|[k1 v1] m IH]; cbn [mdel mget msorted]; [by case_bool_decide|].
  intros [Hall Hs]. destruct (decide (k' = k1)) as [->|E].
  - rewrite (bool_decide_true (k1 = k1)) by done.
    case_bool_decide; subst; [by apply mget_None_lt|done].
  - rewrite (bool_decide_false (k' = k1)) by done. cbn [mget].
    destruct (decide (k = k1)) as [->|E2].
    + rewrite !(bool_decide_true (k1 = k1)) by done. by rewrite bool_decide_false by auto.
    + rewrite !(bool_decide_false (k = k1)) by done. by apply IH.
Qed.
End OrderedMap.
#[export] Hint Rewrite @mget_mset_eq : parvanej.

(** Evaluates the constant powers of two of the goal and the hypotheses. *)
Ltac zconst k := lazymatch isZcst k with true => idtac end.
Ltac zpow := repeat match goal with
  | |- context [(2 ^ ?k)%Z] => zconst k; let r := eval vm_compute in (2 ^ k)%Z in change (2 ^ k)%Z with r
  | H : context [(2 ^ ?k)%Z] |- _ => zconst k; let r := eval vm_compute in (2 ^ k)%Z in change (2 ^ k)%Z with r in H
  | |- context [(2 ^ (?a - ?b))%Z] => zconst a; zconst b; let r := eval vm_compute in (2 ^ (a - b))%Z in
      change (2 ^ (a - b))%Z with r
  end.

(** Goals about division and remainder by constants. *)
Ltac zdiv := zpow; Z.to_euclidean_division_equations; lia.
