(* ===== verification/Json.v ===== *)
(** * Json: the value type of the JSON library and the accessors the sources use

    A value is what [nlohmann::json] stores (the sources bind it as [json]);
    [binary] and [discarded] values do not occur in the modelled code. Objects
    are [std::map]: association lists kept in key order. A double is a
    [spec_float], the plain data type of the Standard Library. *)

From Stdlib Require Export Floats.SpecFloat.
From S2P Require Import Prelude.

Inductive json : Type :=
| JNull
| JBool (b : bool)
| JInt (z : Z)        (** [number_integer], an [int64_t] *)
| JUnsigned (z : Z)   (** [number_unsigned], a [uint64_t] *)
| JFloat (f : spec_float)
| JStr (s : bytes)
| JArr (l : list json)
| JObj (m : list (bytes * json)).

(** [operator[]] on the map of an object: assignment to a key. *)
Fixpoint obj_set (k : bytes) (v : json) (m : list (bytes * json)) : list (bytes * json) :=
  match m with
  | [] => [(k, v)]
  | (k', v') :: m' =>
      if bool_decide (k = k') then (k, v) :: m'
      else if blt k k' then (k, v) :: (k', v') :: m'
      else (k', v') :: obj_set k v m'
  end.

Fixpoint obj_get (k : bytes) (m : list (bytes * json)) : option json :=
  match m with
  | [] => None
  | (k', v') :: m' => if bool_decide (k = k') then Some v' else obj_get k m'
  end.

(** The initializer list [json{{"k", v}, ...}]. *)
Definition jobj (fields : list (bytes * json)) : json :=
  JObj (foldl (fun m kv => obj_set kv.1 kv.2 m) [] fields).

Definition jset (k : bytes) (v : json) (j : json) : json :=
  match j with JObj m => JObj (obj_set k v m) | _ => j end.

(** [j.find(k)]; a non-object has no keys. *)
Definition jfind (k : bytes) (j : json) : option json :=
  match j with JObj m => obj_get k m | _ => None end.

Definition is_object (j : json) : bool := match j with JObj _ => true | _ => false end.
Definition is_array (j : json) : bool := match j with JArr _ => true | _ => false end.
Definition is_string (j : json) : bool := match j with JStr _ => true | _ => false end.
Definition is_boolean (j : json) : bool := match j with JBool _ => true | _ => false end.
Definition is_number_integer (j : json) : bool :=
  match j with JInt _ | JUnsigned _ => true | _ => false end.
Definition is_number_unsigned (j : json) : bool :=
  match j with JUnsigned _ => true | _ => false end.

(** [j.value(k, d)] for a string and for a flag: throws on a non-object and on
    a value of another type. *)
Definition value_str (j : json) (k d : bytes) : result exn bytes :=
  match j with
  | JObj m => match obj_get k m with
              | Some (JStr s) => Ok s
              | Some _ => Err TypeError
              | None => Ok d
              end
  | _ => Err TypeError
  end.

Definition value_bool (j : json) (k : bytes) (d : bool) : result exn bool :=
  match j with
  | JObj m => match obj_get k m with
              | Some (JBool b) => Ok b
              | Some _ => Err TypeError
              | None => Ok d
              end
  | _ => Err TypeError
  end.

(** Keys strictly increasing: what a [std::map] guarantees. *)
Fixpoint obj_sorted (m : list (bytes * json)) : Prop :=
  match m with
  | [] => True
  | (k, _) :: m' => Forall (fun kv => blt k kv.1 = true) m' /\ obj_sorted m'
  end.

(** What printing and parsing a value gives: the parser stores integers that
    are not negative as unsigned. *)
Fixpoint reparse (j : json) : json :=
  match j with
  | JInt z => if (0 <=? z)%Z then JUnsigned z else JInt z
  | JArr l => JArr (map reparse l)
  | JObj m => JObj (map (fun kv => (kv.1, reparse kv.2)) m)
  | _ => j
  end.

(** ** Lemmas *)

Lemma obj_get_reparse (k : bytes) (m : list (bytes * json)) :
  obj_get k (map (fun kv => (kv.1, reparse kv.2)) m) = reparse <$> obj_get k m.
Proof. induction m as [|[k1 v1] m IH]; cbn; [done|]. by case_bool_decide. Qed.

Lemma jfind_reparse (k : bytes) (j : json) : jfind k (reparse j) = reparse <$> jfind k j.
Proof. destruct j; cbn; try done; [by case_match|apply obj_get_reparse]. Qed.


Lemma obj_get_set (k k' : bytes) (v : json) (m : list (bytes * json)) :
  obj_get k (obj_set k' v m) = if bool_decide (k = k') then Some v else obj_get k m.
Proof.
  induction m as [|[k1 v1] m IH]; cbn; [done|].
  repeat case_bool_decide; subst; cbn; repeat case_bool_decide; subst; try done;
    repeat case_match; cbn; repeat case_bool_decide; subst; try done; try congruence.
Qed.

Lemma obj_get_set_eq (k : bytes) (v : json) m : obj_get k (obj_set k v m) = Some v.
Proof. rewrite obj_get_set. by rewrite bool_decide_true. Qed.

Lemma obj_get_set_ne (k k' : bytes) (v : json) m :
  k <> k' -> obj_get k (obj_set k' v m) = obj_get k m.
Proof. intros. rewrite obj_get_set. by rewrite bool_decide_false. Qed.

Lemma obj_set_Forall (P : bytes * json -> Prop) (k : bytes) (v : json) m :
  P (k, v) -> Forall P m -> Forall P (obj_set k v m).
Proof.
  intros Hk. induction 1 as [|[k1 v1] m H1 H2 IH]; cbn; [by constructor|].
  repeat case_match; by repeat constructor.
Qed.

Lemma obj_set_sorted (k : bytes) (v : json) m : obj_sorted m -> obj_sorted (obj_set k v m).
Proof.
  induction m as [|[k1 v1] m IH]; cbn; [done|]. intros [Hall Hs].
  case_bool_decide as E; [by subst|]. destruct (blt k k1) eqn:Hlt; cbn.
  - split; [|done]. constructor; [done|].
    eapply List.Forall_impl; [|exact Hall]. cbn. eauto with parvane.
  - split; [|by apply IH]. apply obj_set_Forall; [|done]. cbn.
    destruct (blt k1 k) eqn:E1; [done|]. destruct E. by apply blt_total.
Qed.

#[export] Hint Rewrite obj_get_set_eq : parvanej.
