(* ===== verification/DomainSync.v ===== *)
(** * DomainSync: the shared layer of the section synchronisers

    Models [src/sections/domain_sync.cpp] and its header: base64 and hex codecs
    used between the engine (JSON) and the bus (bytes), the deadline timer and
    the record store of a device. *)

From S2P Require Import Prelude Json.

(** ** Base64 and hexadecimal *)

Module Base64.

Definition kAlphabet : bytes :=
  #"ABCDEFGHIJKLMNOPQRSTUVWXYZabcdefghijklmnopqrstuvwxyz0123456789+/".

(** [kAlphabet[i]] for an index already masked to six bits. *)
Definition alpha (i : Z) : byte := nth (Z.to_nat i) kAlphabet x00.

Definition b64Value (ch : byte) : Z :=
  let c := b2z ch in
  if ((65 <=? c) && (c <=? 90))%Z then (c - 65)%Z
  else if ((97 <=? c) && (c <=? 122))%Z then (c - 97 + 26)%Z
  else if ((48 <=? c) && (c <=? 57))%Z then (c - 48 + 52)%Z
  else if ((c =? 43) || (c =? 45))%Z then 62%Z
  else if ((c =? 47) || (c =? 95))%Z then 63%Z
  else (-1)%Z.

Definition hexValue (ch : byte) : Z :=
  let c := b2z ch in
  if ((48 <=? c) && (c <=? 57))%Z then (c - 48)%Z
  else if ((97 <=? c) && (c <=? 102))%Z then (c - 97 + 10)%Z
  else if ((65 <=? c) && (c <=? 70))%Z then (c - 65 + 10)%Z
  else (-1)%Z.

(** The loop consumes three bytes per turn; what is left is the tail. *)
Fixpoint toBase64 (bs : bytes) : bytes :=
  match bs with
  | a :: b :: c :: rest =>
      let v := Z.lor (Z.lor (Z.shiftl (b2z a) 16) (Z.shiftl (b2z b) 8)) (b2z c) in
      alpha (Z.land (Z.shiftr v 18) 63) :: alpha (Z.land (Z.shiftr v 12) 63)
        :: alpha (Z.land (Z.shiftr v 6) 63) :: alpha (Z.land v 63) :: toBase64 rest
  | [a] =>
      let v := Z.shiftl (b2z a) 16 in
      [alpha (Z.land (Z.shiftr v 18) 63); alpha (Z.land (Z.shiftr v 12) 63)] ++ #"=="
  | [a; b] =>
      let v := Z.lor (Z.shiftl (b2z a) 16) (Z.shiftl (b2z b) 8) in
      [alpha (Z.land (Z.shiftr v 18) 63); alpha (Z.land (Z.shiftr v 12) 63);
       alpha (Z.land (Z.shiftr v 6) 63)] ++ #"="
  | [] => []
  end.

(** The decoding loop: [acc] is an [unsigned] (32 bits, wraps), [bits] the
    number of undelivered bits in it. *)
Fixpoint decode (b64 : bytes) (acc bits : Z) : result exn bytes :=
  match b64 with
  | [] => Ok []
  | c :: rest =>
      if bool_decide (c = "=")%byte then Ok []
      else if bool_decide (c = x0a) || bool_decide (c = x0d) || bool_decide (c = x20)
      then decode rest acc bits
      else
        let v := b64Value c in
        if (v <? 0)%Z then Err InvalidArgument
        else
          let acc' := Z.lor (u32 (Z.shiftl acc 6)) v in
          let bits' := (bits + 6)%Z in
          if (8 <=? bits')%Z then
            let bits'' := (bits' - 8)%Z in
            let! out := decode rest acc' bits'' in
            Ok (z2b (Z.land (Z.shiftr acc' bits'') 255) :: out)
          else decode rest acc' bits'
  end.

Definition fromBase64 (b64 : bytes) : result exn bytes := decode b64 0 0.

Fixpoint hexPairs (hex : bytes) : bytes :=
  match hex with
  | h :: l :: rest =>
      let hi := hexValue h in
      let lo := hexValue l in
      z2b (if (hi <? 0)%Z || (lo <? 0)%Z then 0 else hi * 16 + lo) :: hexPairs rest
  | _ => []
  end.

Definition hexToB64 (hex : bytes) : bytes := toBase64 (hexPairs hex).

Definition digits : bytes := #"0123456789abcdef".
Definition hexDigit (i : Z) : byte := nth (Z.to_nat i) digits x00.

Definition toHex (bs : bytes) : bytes :=
  b ← bs; [hexDigit (Z.shiftr (b2z b) 4); hexDigit (Z.land (b2z b) 15)].

Definition b64ToHex (b64 : bytes) : result exn bytes :=
  let! bs := fromBase64 b64 in Ok (toHex bs).

(** *** Lemmas *)

Lemma b64Value_alpha (i : Z) : (0 <= i < 64)%Z -> b64Value (alpha i) = i.
Proof.
  intros H. apply Z.eqb_eq. revert i H.
  apply (z_forallb 64 (fun i => Z.eqb (b64Value (alpha i)) i)). by vm_compute.
Qed.

Lemma alpha_plain (i : Z) : (0 <= i < 64)%Z ->
  bool_decide (alpha i = "="%byte) = false /\
  bool_decide (alpha i = x0a) || bool_decide (alpha i = x0d) || bool_decide (alpha i = x20) = false.
Proof.
  intros H.
  cut (negb (bool_decide (alpha i = "="%byte)) &&
       negb (bool_decide (alpha i = x0a) || bool_decide (alpha i = x0d)
             || bool_decide (alpha i = x20)) = true).
  { rewrite andb_true_iff, !negb_true_iff. tauto. }
  revert i H. apply (z_forallb 64 (fun i => negb (bool_decide (alpha i = "="%byte)) &&
       negb (bool_decide (alpha i = x0a) || bool_decide (alpha i = x0d)
             || bool_decide (alpha i = x20)))). by vm_compute.
Qed.

(** One symbol of the alphabet in the decoding loop. *)
Lemma decode_alpha (i acc bits : Z) (rest : bytes) :
  (0 <= i < 64)%Z ->
  decode (alpha i :: rest) acc bits =
    (let acc' := ((acc * 64) `mod` 2 ^ 32 + i)%Z in
     if (8 <=? bits + 6)%Z then
       let! out := decode rest acc' (bits - 2) in
       Ok (z2b ((acc' `div` 2 ^ (bits - 2)) `mod` 256) :: out)
     else decode rest acc' (bits + 6)).
Proof.
  intros Hi. cbn [decode].
  destruct (alpha_plain i Hi) as [-> ->].
  rewrite b64Value_alpha by done.
  destruct (Z.ltb_spec i 0); [lia|].
  assert (Z.lor (u32 (Z.shiftl acc 6)) i = ((acc * 64) `mod` 2 ^ 32 + i)%Z) as ->.
  { unfold u32, wrap. rewrite Z.shiftl_mul_pow2 by lia. change (2 ^ 6)%Z with 64%Z.
    change (2 ^ 32)%Z with (2 ^ 26 * 64)%Z.
    rewrite !Z.mul_mod_distr_r by lia.
    pose proof (lor_shiftl_add (acc `mod` 2 ^ 26) i 6 ltac:(lia) Hi) as L.
    rewrite Z.shiftl_mul_pow2 in L by lia. exact L. }
  cbv zeta. destruct (Z.leb_spec 8 (bits + 6)); [|done].
  replace (bits + 6 - 8)%Z with (bits - 2)%Z by lia.
  rewrite shiftr_div by lia. change 255%Z with (2 ^ 8 - 1)%Z.
  by rewrite land_ones_mod by lia.
Qed.


(** A quiet step and the three delivering steps of a group. *)
Lemma decode_quiet (i acc : Z) (rest : bytes) : (0 <= i < 64)%Z ->
  decode (alpha i :: rest) acc 0 = decode rest ((acc * 64) `mod` 2 ^ 32 + i) 6.
Proof. intros H. by rewrite decode_alpha. Qed.

Lemma decode_deliver (i acc bits : Z) (b : byte) (rest : bytes) :
  (0 <= i < 64)%Z -> (2 <= bits)%Z ->
  ((((acc * 64) `mod` 2 ^ 32 + i) `div` 2 ^ (bits - 2)) `mod` 256)%Z = b2z b ->
  decode (alpha i :: rest) acc bits
    = (let! out := decode rest ((acc * 64) `mod` 2 ^ 32 + i) (bits - 2) in Ok (b :: out)).
Proof.
  intros Hi Hb E. rewrite decode_alpha by done. cbv zeta.
  destruct (Z.leb_spec 8 (bits + 6)); [|lia].
  rewrite E, z2b_b2z. done.
Qed.

(** The first byte of a group comes back whatever the accumulator holds above. *)
Lemma decode_group1 (a : byte) (i2 acc : Z) (rest : bytes) : (0 <= i2 < 16)%Z ->
  exists acc', (acc' `mod` 16 = i2)%Z /\ decode (alpha (b2z a `div` 4) :: alpha (b2z a `mod` 4 * 16 + i2) :: rest) acc 0
    = (let! out := decode rest acc' 4 in Ok (a :: out)).
Proof.
  intros Hi2. pose proof (b2z_range a). rewrite decode_quiet by zdiv.
  eexists. split; cycle 1; [apply decode_deliver; change (2 ^ (6 - 2))%Z with 16%Z|];
    zpow; try lia; zdiv.
Qed.

(** The second byte, when its high half is in the accumulator. *)
Lemma decode_group2 (b : byte) (i3 acc : Z) (rest : bytes) :
  (acc `mod` 16 = b2z b `div` 16)%Z -> (0 <= i3 < 4)%Z ->
  exists acc', (acc' `mod` 4 = i3)%Z /\ decode (alpha (b2z b `mod` 16 * 4 + i3) :: rest) acc 4
    = (let! out := decode rest acc' 2 in Ok (b :: out)).
Proof.
  intros Ha Hi. pose proof (b2z_range b).
  eexists. split; cycle 1; [apply decode_deliver; change (2 ^ (4 - 2))%Z with 4%Z|];
    zpow; try lia; zdiv.
Qed.

(** The third one. *)
Lemma decode_group3 (c : byte) (acc : Z) (rest : bytes) :
  (acc `mod` 4 = b2z c `div` 64)%Z ->
  exists acc', decode (alpha (b2z c `mod` 64) :: rest) acc 2
    = (let! out := decode rest acc' 0 in Ok (c :: out)).
Proof.
  intros Ha. pose proof (b2z_range c).
  eexists. apply decode_deliver; change (2 ^ (2 - 2))%Z with 1%Z;
    zpow; try lia; zdiv.
Qed.

(** The symbols of the encoder as quotients and remainders. *)
Lemma pack_high (a v : Z) : (0 <= a < 256)%Z -> (0 <= v < 2 ^ 16)%Z ->
  Z.lor (Z.shiftl a 16) v = (a * 65536 + v)%Z.
Proof. intros. by apply lor_shiftl_add. Qed.

Lemma pack2 (a b : byte) :
  Z.lor (Z.shiftl (b2z a) 16) (Z.shiftl (b2z b) 8) = (b2z a * 65536 + b2z b * 256)%Z.
Proof.
  pose proof (b2z_range a); pose proof (b2z_range b).
  rewrite (Z.shiftl_mul_pow2 (b2z b)) by lia. rewrite pack_high; zpow; lia.
Qed.

Lemma pack3 (a b c : byte) :
  Z.lor (Z.lor (Z.shiftl (b2z a) 16) (Z.shiftl (b2z b) 8)) (b2z c)
  = (b2z a * 65536 + b2z b * 256 + b2z c)%Z.
Proof.
  pose proof (b2z_range a); pose proof (b2z_range b); pose proof (b2z_range c).
  rewrite pack2.
  replace (b2z a * 65536 + b2z b * 256)%Z with (Z.shiftl (b2z a * 256 + b2z b) 8)
    by (rewrite Z.shiftl_mul_pow2 by lia; zpow; lia).
  rewrite lor_shiftl_add, ?Z.shiftl_mul_pow2; zpow; lia.
Qed.

Lemma sextet (v k x : Z) : (0 <= k)%Z -> ((v `div` 2 ^ k) `mod` 64 = x)%Z ->
  alpha (Z.land (Z.shiftr v k) 63) = alpha x.
Proof. intros Hk <-. by rewrite shiftr_div, (land_ones_mod _ 6). Qed.

Lemma toBase64_1 (a : byte) :
  toBase64 [a] = alpha (b2z a `div` 4) :: alpha (b2z a `mod` 4 * 16 + 0) :: #"==".
Proof.
  pose proof (b2z_range a). cbn [toBase64 app]. rewrite Z.shiftl_mul_pow2 by lia.
  f_equal; [|f_equal]; apply sextet; [lia| |lia|]; zdiv.
Qed.

Lemma toBase64_2 (a b : byte) :
  toBase64 [a; b] = alpha (b2z a `div` 4) :: alpha (b2z a `mod` 4 * 16 + b2z b `div` 16)
    :: alpha (b2z b `mod` 16 * 4 + 0) :: #"=".
Proof.
  pose proof (b2z_range a); pose proof (b2z_range b). cbn [toBase64 app]. rewrite pack2.
  f_equal; [|f_equal; [|f_equal]]; apply sextet; try lia; zdiv.
Qed.

Lemma toBase64_3 (a b c : byte) (rest : bytes) :
  toBase64 (a :: b :: c :: rest) = alpha (b2z a `div` 4)
    :: alpha (b2z a `mod` 4 * 16 + b2z b `div` 16)
    :: alpha (b2z b `mod` 16 * 4 + b2z c `div` 64) :: alpha (b2z c `mod` 64)
    :: toBase64 rest.
Proof.
  pose proof (b2z_range a); pose proof (b2z_range b); pose proof (b2z_range c).
  cbn [toBase64]. rewrite pack3.
  f_equal; [|f_equal; [|f_equal; [|f_equal]]].
  1-3: apply sextet; [lia|]; zdiv.
  rewrite (land_ones_mod _ 6) by lia. f_equal. zdiv.
Qed.

Lemma decode_toBase64 (bs : bytes) : forall acc, decode (toBase64 bs) acc 0 = Ok bs.
Proof.
  induction bs as [|a|a b|a b c l IH] using list_ind3; intros acc.
  - done.
  - rewrite toBase64_1. destruct (decode_group1 a 0 acc (#"==")) as (acc1 & _ & ->); done.
  - rewrite toBase64_2. pose proof (b2z_range b).
    edestruct (decode_group1 a (b2z b `div` 16) acc) as (acc1 & H1 & ->); [zdiv|].
    edestruct (decode_group2 b 0 acc1) as (acc2 & _ & ->); done.
  - rewrite toBase64_3. pose proof (b2z_range b). pose proof (b2z_range c).
    edestruct (decode_group1 a (b2z b `div` 16) acc) as (acc1 & H1 & ->); [zdiv|].
    edestruct (decode_group2 b (b2z c `div` 64) acc1) as (acc2 & H2 & ->); [done|zdiv|].
    edestruct (decode_group3 c acc2) as (acc3 & ->); [done|].
    by rewrite IH.
Qed.

Lemma hexDigit_value (i : Z) : (0 <= i < 16)%Z -> hexValue (hexDigit i) = i.
Proof.
  intros H. apply Z.eqb_eq. revert i H.
  apply (z_forallb 16 (fun i => Z.eqb (hexValue (hexDigit i)) i)). by vm_compute.
Qed.

Lemma hexPairs_toHex (bs : bytes) : hexPairs (toHex bs) = bs.
Proof.
  induction bs as [|b bs IH]; [done|]. pose proof (b2z_range b).
  unfold toHex. cbn [mbind list_bind app]. cbn [hexPairs].
  rewrite (shiftr_div _ 4), (land_ones_mod _ 4) by lia.
  rewrite !hexDigit_value by (zdiv).
  destruct (Z.ltb_spec (b2z b `div` 2 ^ 4) 0); [zdiv|].
  destruct (Z.ltb_spec (b2z b `mod` 2 ^ 4) 0); [zdiv|]. cbn [orb].
  f_equal; [|exact IH]. apply z2b_eq. zdiv.
Qed.

(** *** Properties *)

(** Property (base64): every byte string survives encoding and decoding. *)
Theorem fromBase64_toBase64 (bs : bytes) : fromBase64 (toBase64 bs) = Ok bs.
Proof. apply decode_toBase64. Qed.

(** Property (hex): the two hex converters are inverse on the hex form of any bytes. *)
Theorem hex_base64_roundtrip (bs : bytes) :
  hexToB64 (toHex bs) = toBase64 bs /\ b64ToHex (hexToB64 (toHex bs)) = Ok (toHex bs).
Proof.
  unfold b64ToHex, hexToB64. rewrite hexPairs_toHex. split; [done|].
  unfold fromBase64. by rewrite decode_toBase64.
Qed.

End Base64.

(** ** Requests of the engine, records and timers *)

Module Sync.
Import Base64.

(** A request the engine asks the host to perform. *)
Record OutRequest := mkOutRequest {
  anon : bool;
  method : bytes;
  body : bytes;
  dest : bytes }.

(** [OutRequest::fromJson]: throws when [r] is not an object, when a field has
    another type and when the body is not base64. *)
Definition outRequest_fromJson (r : json) : result exn OutRequest :=
  if negb (is_object r) then Err InvalidArgument
  else
    let! chan := value_str r (#"chan") (#"id") in
    let! m := value_str r (#"method") [] in
    let! b64 := value_str r (#"body") [] in
    let! b := fromBase64 b64 in
    Ok {| anon := bool_decide (chan = #"anon"); method := m; body := b;
          dest := match jfind (#"dest") r with Some (JStr s) => s | _ => [] end |}.

(** The record store in memory: one JSON object. *)
Record MemoryRecords := mkRecords { all_ : json }.

Definition memoryRecords (saved : json) : MemoryRecords :=
  {| all_ := if is_object saved then saved else JObj [] |}.
Definition load (s : MemoryRecords) (key : bytes) : option json := jfind key (all_ s).
Definition save (s : MemoryRecords) (key : bytes) (v : json) : MemoryRecords :=
  {| all_ := jset key v (all_ s) |}.
Definition remove (s : MemoryRecords) (key : bytes) : MemoryRecords :=
  {| all_ := match all_ s with
             | JObj m => JObj (filter (fun kv => kv.1 <> key) m)
             | j => j
             end |}.

(** [Deadline]: a timer on an explicit clock. *)
Record Deadline := mkDeadline { at_ : option Z }.
Definition dset (d : Deadline) (when : Z) : Deadline := {| at_ := Some when |}.
Definition dclear (d : Deadline) : Deadline := {| at_ := None |}.
Definition armed (d : Deadline) : bool := match at_ d with Some _ => true | None => false end.
Definition fire (d : Deadline) (now : Z) : bool * Deadline :=
  match at_ d with
  | Some t => if (now <? t)%Z then (false, d) else (true, {| at_ := None |})
  | None => (false, d)
  end.

(** [earliest]: the nearest armed deadline; null pointers are skipped. *)
Definition earliest (ds : list (option Deadline)) : option Z :=
  foldl (fun best d =>
    match d with
    | Some (mkDeadline (Some t)) =>
        match best with
        | Some b => if (t <? b)%Z then Some t else best
        | None => Some t
        end
    | _ => best
    end) None ds.

Definition pollDelay (fastMs slowMs : Z) (isFast : bool) : Z :=
  if isFast then fastMs else slowMs.

(** *** Properties *)

Definition times (ds : list (option Deadline)) : list Z :=
  omap (fun d => d ≫= at_) ds.

Lemma foldr_min_init (l : list Z) (t b : Z) :
  foldr Z.min (Z.min t b) l = Z.min t (foldr Z.min b l).
Proof. induction l as [|x l IH]; cbn [foldr]; lia. Qed.

Lemma earliest_fold (ds : list (option Deadline)) (best : option Z) :
  foldl (fun best d =>
    match d with
    | Some (mkDeadline (Some t)) =>
        match best with
        | Some b => if (t <? b)%Z then Some t else best
        | None => Some t
        end
    | _ => best
    end) best ds
  = match best with
    | Some b => Some (foldr Z.min b (times ds))
    | None => match times ds with [] => None | t :: ts => Some (foldr Z.min t ts) end
    end.
Proof.
  revert best. induction ds as [|[[[t|]]|] ds IH]; intros best; cbn.
  - by destruct best.
  - rewrite IH. destruct best as [b|]; [|done].
    destruct (Z.ltb_spec t b); f_equal; change (omap _ ds) with (times ds);
      rewrite <- foldr_min_init; f_equal; lia.
  - apply IH.
  - apply IH.
Qed.

Lemma foldr_min_spec (l : list Z) (b : Z) :
  (foldr Z.min b l = b \/ In (foldr Z.min b l) l) /\
  (foldr Z.min b l <= b)%Z /\ Forall (fun x => foldr Z.min b l <= x)%Z l.
Proof.
  induction l as [|x l (H1 & H2 & H3)]; cbn [foldr]; [by repeat split; auto; lia|].
  split; [|split].
  - destruct (Z.min_spec x (foldr Z.min b l)) as [[_ ->]|[_ ->]]; [by right; left|].
    destruct H1; [by left|by right; right].
  - lia.
  - constructor; [lia|]. eapply List.Forall_impl; [|exact H3]. cbn. lia.
Qed.

(** Property (wake-up): [earliest] is the minimum of the armed deadlines, so a
    caller who wakes at it misses none, and there is none only when no timer
    is armed. *)
Theorem earliest_is_minimum (ds : list (option Deadline)) :
  match earliest ds with
  | Some t => In t (times ds) /\ Forall (fun x => t <= x)%Z (times ds)
  | None => times ds = []
  end.
Proof.
  unfold earliest. rewrite earliest_fold. destruct (times ds) as [|t ts]; [done|].
  destruct (foldr_min_spec ts t) as (H1 & H2 & H3). split.
  - destruct H1 as [->|]; [by left|by right].
  - by constructor.
Qed.

(** A record reads back as the last value saved under its key, other records
    are untouched, and a removed record is gone. *)
Lemma load_save (j : json) (k k' : bytes) (v : json) :
  load (save (memoryRecords j) k v) k'
  = if bool_decide (k' = k) then Some v else load (memoryRecords j) k'.
Proof.
  unfold load, save, memoryRecords. destruct j; cbn; try apply obj_get_set;
    (by case_bool_decide).
Qed.

Lemma load_remove (s : MemoryRecords) (k : bytes) : load (remove s k) k = None.
Proof.
  unfold load, remove. destruct (all_ s) as [| | | | | | |m]; try done.
  cbn [all_ jfind]. induction m as [|[k1 v1] m IH]; [done|].
  rewrite filter_cons. case_decide as E; [|done]. cbn in *.
  by rewrite bool_decide_false by congruence.
Qed.

End Sync.
