(* ===== verification/Crypto.v ===== *)
(** * Crypto: base64, signatures and the safety emoji

    Models [src/crypto.cpp]. Ed25519 and SHA-256 belong to OpenSSL and are
    parameters: [ed25519_sign] and [ed25519_verify] on raw bytes, [sha256]. The
    accumulator of [b64decode] is an [int] that is never masked; its overflow
    is modelled as wrapping. *)

From S2P Require Import Prelude DomainSync.

Module Crypto.

Definition kB64 : bytes := #"ABCDEFGHIJKLMNOPQRSTUVWXYZabcdefghijklmnopqrstuvwxyz0123456789+/".
Definition symbol (i : Z) : byte := nth (Z.to_nat i) kB64 x00.

Definition b64val (ch : byte) : Z :=
  let c := b2z ch in
  if ((65 <=? c) && (c <=? 90))%Z then (c - 65)%Z
  else if ((97 <=? c) && (c <=? 122))%Z then (c - 97 + 26)%Z
  else if ((48 <=? c) && (c <=? 57))%Z then (c - 48 + 52)%Z
  else if (c =? 43)%Z then 62%Z
  else if (c =? 47)%Z then 63%Z
  else (-1)%Z.

Fixpoint b64encode (raw : bytes) : bytes :=
  match raw with
  | a :: b :: c :: rest =>
      let n := Z.lor (Z.lor (Z.shiftl (b2z a) 16) (Z.shiftl (b2z b) 8)) (b2z c) in
      symbol (Z.land (Z.shiftr n 18) 63) :: symbol (Z.land (Z.shiftr n 12) 63)
        :: symbol (Z.land (Z.shiftr n 6) 63) :: symbol (Z.land n 63) :: b64encode rest
  | [a] =>
      let n := Z.shiftl (b2z a) 16 in
      [symbol (Z.land (Z.shiftr n 18) 63); symbol (Z.land (Z.shiftr n 12) 63)] ++ #"=="
  | [a; b] =>
      let n := Z.lor (Z.shiftl (b2z a) 16) (Z.shiftl (b2z b) 8) in
      [symbol (Z.land (Z.shiftr n 18) 63); symbol (Z.land (Z.shiftr n 12) 63);
       symbol (Z.land (Z.shiftr n 6) 63)] ++ #"="
  | [] => []
  end.

Definition isSkipped (c : byte) : bool :=
  bool_decide (c = "="%byte) || bool_decide (c = x0a) || bool_decide (c = x0d) || bool_decide (c = x20).

Fixpoint b64decode_loop (b64 : bytes) (buf bits : Z) : option bytes :=
  match b64 with
  | [] => Some []
  | c :: rest =>
      if isSkipped c then b64decode_loop rest buf bits
      else
        let v := b64val c in
        if (v <? 0)%Z then None
        else
          let buf' := signed 32 (Z.lor (Z.shiftl buf 6) v) in
          let bits' := (bits + 6)%Z in
          if (8 <=? bits')%Z then
            (cons (z2b (Z.land (Z.shiftr buf' (bits' - 8)) 0xFF))) <$> b64decode_loop rest buf' (bits' - 8)
          else b64decode_loop rest buf' bits'
  end.

Definition b64decode (b64 : bytes) : option bytes := b64decode_loop b64 0 0.

Section Primitives.
Context (ed25519_sign : bytes -> bytes -> option bytes)
        (ed25519_verify : bytes -> bytes -> bytes -> bool).

(** [SigningKey::sign]; [""] when the seed is bad or signing fails. *)
Definition sign (seedB64 data : bytes) : bytes :=
  match b64decode seedB64 with
  | Some seed => if (length seed =? 32) then
                   match ed25519_sign seed data with Some s => b64encode s | None => [] end
                 else []
  | None => []
  end.

Definition verify (publicB64 data sigB64 : bytes) : bool :=
  match b64decode publicB64, b64decode sigB64 with
  | Some pub, Some sig => if (length pub =? 32) then ed25519_verify pub sig data else false
  | _, _ => false
  end.

End Primitives.

Definition kEmoji : list bytes :=
  [ #"🐱"; #"🐶"; #"🦊"; #"🐻"; #"🐼"; #"🐨"; #"🦁"; #"🐯";
    #"🐸"; #"🐵"; #"🦉"; #"🦄"; #"🐝"; #"🦋"; #"🌺"; #"🌈";
    #"🍎"; #"🍊"; #"🍋"; #"🍉"; #"🍇"; #"🍓"; #"🥝"; #"🍑";
    #"🎸"; #"🎹"; #"🎺"; #"🥁"; #"🎨"; #"🎲"; #"🚀"; #"⚓" ].

Definition sasEmoji (sha256 : bytes -> option bytes) (fpA fpB : bytes) : bytes :=
  let '(a, b) := if blt fpB fpA then (fpB, fpA) else (fpA, fpB) in
  match sha256 (a ++ #"|" ++ b) with
  | Some h => if 4 <=? length h then
                concat ((fun i => nth (Z.to_nat (b2z (nth i h x00) `mod` 32)) kEmoji []) <$> seq 0 4)
              else []
  | None => []
  end.

(** *** Lemmas *)

Lemma b64encode_toBase64 (raw : bytes) : b64encode raw = Base64.toBase64 raw.
Proof. reflexivity. Qed.

(** A symbol of the alphabet: no padding, the same value for both decoders. *)
Lemma symbol_plain (i : Z) : (0 <= i < 64)%Z ->
  isSkipped (Base64.alpha i) = false /\ b64val (Base64.alpha i) = i.
Proof.
  intros H. cut (negb (isSkipped (Base64.alpha i)) && (b64val (Base64.alpha i) =? i)%Z = true).
  { rewrite andb_true_iff, negb_true_iff, Z.eqb_eq. tauto. }
  revert i H. apply (z_forallb 64 (fun i => negb (isSkipped (Base64.alpha i)) && (b64val (Base64.alpha i) =? i)%Z)).
  by vm_compute.
Qed.

Lemma signed_cong (w z : Z) : (0 < w)%Z -> (signed w z `mod` 2 ^ w = z `mod` 2 ^ w)%Z.
Proof.
  intros Hw. unfold signed. by rewrite Zminus_mod_idemp_l, Z.add_simpl_r.
Qed.

(** The two decoders agree, symbol by symbol, on accumulators that are equal
    modulo [2^32]. *)
Lemma agree_byte (x y bits : Z) : (0 <= bits <= 24)%Z -> (x `mod` 2 ^ 32 = y `mod` 2 ^ 32)%Z ->
  ((x `div` 2 ^ bits) `mod` 256 = (y `div` 2 ^ bits) `mod` 256)%Z.
Proof.
  intros Hb H.
  assert (forall z, (z `div` 2 ^ bits) `mod` 256 = ((z `mod` 2 ^ 32) `div` 2 ^ bits) `mod` 256)%Z as E;
    [|by rewrite (E x), (E y), H].
  intros z. change 256%Z with (2 ^ 8)%Z.
  apply Z.bits_inj'. intros n Hn. rewrite <- !Z.shiftr_div_pow2 by lia.
  destruct (decide (n < 8)%Z).
  - rewrite !Z.mod_pow2_bits_low by lia. rewrite !Z.shiftr_spec by lia.
    rewrite Z.mod_pow2_bits_low by lia. done.
  - by rewrite !Z.mod_pow2_bits_high by lia.
Qed.

Lemma agree_step (buf acc i : Z) : (0 <= i < 64)%Z -> (buf `mod` 2 ^ 32 = acc `mod` 2 ^ 32)%Z ->
  (signed 32 (Z.lor (Z.shiftl buf 6) i) `mod` 2 ^ 32 = ((acc * 64) `mod` 2 ^ 32 + i) `mod` 2 ^ 32)%Z.
Proof.
  intros Hi H. rewrite signed_cong by lia. rewrite lor_shiftl_add by (zpow; lia).
  change (2 ^ 6)%Z with 64%Z. rewrite Zplus_mod_idemp_l.
  rewrite (Z.add_mod (buf * 64)), (Z.add_mod (acc * 64)) by (zpow; lia). do 2 f_equal.
  rewrite (Z.mul_mod buf), (Z.mul_mod acc) by (zpow; lia). by rewrite H.
Qed.

Lemma loop_agree (s : list Z) (pad : bytes) : Forall (fun i => 0 <= i < 64)%Z s ->
  Forall (fun c => c = "="%byte) pad ->
  forall buf acc bits out, (0 <= bits <= 7)%Z -> (buf `mod` 2 ^ 32 = acc `mod` 2 ^ 32)%Z ->
  Base64.decode ((Base64.alpha <$> s) ++ pad) acc bits = Ok out ->
  b64decode_loop ((Base64.alpha <$> s) ++ pad) buf bits = Some out.
Proof.
  intros Hs Hpad. induction Hs as [|i s Hi Hs IH]; intros buf acc bits out Hb Ha.
  - cbn [fmap list_fmap app]. intros H. assert (out = []) as ->.
    { destruct pad as [|c pad]; cbn in H; [by simplify_eq|].
      inversion Hpad; subst. rewrite bool_decide_eq_true_2 in H by done. by simplify_eq. }
    clear H. induction Hpad as [|c pad -> Hpad IH]; [done|]. exact IH.
  - cbn [fmap list_fmap app]. rewrite Base64.decode_alpha by done. cbv zeta.
    destruct (symbol_plain i Hi) as [E1 E2]. cbn [b64decode_loop]. rewrite E1, E2.
    destruct (Z.ltb_spec i 0); [lia|]. pose proof (agree_step buf acc i Hi Ha) as Hn.
    destruct (Z.leb_spec 8 (bits + 6)).
    + replace (bits + 6 - 8)%Z with (bits - 2)%Z by lia.
      destruct (Base64.decode _ _ (bits - 2)) as [o|] eqn:E; [|done]. cbn [rbind]. intros [= <-].
      erewrite IH; [|lia|exact Hn|exact E]. cbn. f_equal. f_equal.
      rewrite shiftr_div by lia. change 255%Z with (2 ^ 8 - 1)%Z. rewrite land_ones_mod by lia.
      f_equal. apply agree_byte; [lia|done].
    + apply IH; [lia|done].
Qed.

(** What the encoder writes: symbols, then padding. *)
Lemma toBase64_symbols (raw : bytes) : exists s pad, Base64.toBase64 raw = (Base64.alpha <$> s) ++ pad /\
  Forall (fun i => 0 <= i < 64)%Z s /\ Forall (fun c => c = "="%byte) pad.
Proof.
  induction raw as [|a|a b|a b c l (s & pad & E & H1 & H2)] using list_ind3.
  - by exists [], [].
  - rewrite Base64.toBase64_1. eexists [_; _], _. split; [done|]. pose proof (b2z_range a).
    split; [repeat constructor; zdiv|by repeat constructor].
  - rewrite Base64.toBase64_2. eexists [_; _; _], _. split; [done|]. pose proof (b2z_range a).
    pose proof (b2z_range b). split; [repeat constructor; zdiv|by repeat constructor].
  - rewrite Base64.toBase64_3, E. eexists (_ :: _ :: _ :: _ :: s), pad. split; [done|].
    pose proof (b2z_range a). pose proof (b2z_range b). pose proof (b2z_range c).
    split; [|done]. repeat (constructor; [zdiv|]). done.
Qed.

Lemma b64decode_b64encode (raw : bytes) : b64decode (b64encode raw) = Some raw.
Proof.
  rewrite b64encode_toBase64. destruct (toBase64_symbols raw) as (s & pad & E & H1 & H2).
  pose proof (Base64.decode_toBase64 raw 0) as H. rewrite E in *.
  unfold b64decode. by apply (loop_agree s pad H1 H2 0 0 0).
Qed.

(** *** Properties *)

(** Property (keys and signatures as text): both base64 codecs of the core
    write the same text, and each reads back what either wrote; so the
    signature of a key verifies wherever Ed25519 accepts it. *)
Theorem b64_interchange (raw : bytes) :
  b64encode raw = Base64.toBase64 raw /\ b64decode (b64encode raw) = Some raw /\
  Base64.fromBase64 (b64encode raw) = Ok raw /\ b64decode (Base64.toBase64 raw) = Some raw.
Proof.
  split_and!; [apply b64encode_toBase64|apply b64decode_b64encode| |apply b64decode_b64encode].
  rewrite b64encode_toBase64. apply Base64.decode_toBase64.
Qed.

(** Property (signatures verify): what [sign] makes with a good seed is accepted
    by [verify] under the matching public key, given that Ed25519 accepts its
    own signatures. *)
Theorem sign_verifies (ed25519_sign : bytes -> bytes -> option bytes)
    (ed25519_verify : bytes -> bytes -> bytes -> bool) (seed pub data : bytes) :
  (forall d s, ed25519_sign seed d = Some s -> ed25519_verify pub s d = true) ->
  length seed = 32 -> length pub = 32 ->
  sign ed25519_sign (b64encode seed) data = [] \/
  verify ed25519_verify (b64encode pub) data (sign ed25519_sign (b64encode seed) data) = true.
Proof.
  intros H Hs Hp. unfold sign, verify. rewrite !b64decode_b64encode, Hs. cbn [Nat.eqb].
  destruct (ed25519_sign seed data) as [s|] eqn:E; [|by left]. right.
  rewrite b64decode_b64encode, Hp. cbn [Nat.eqb]. by apply H.
Qed.

(** Property (both ends see the same emoji): the safety emoji do not depend on
    which side computes them. *)
Theorem sasEmoji_sym (sha256 : bytes -> option bytes) (fpA fpB : bytes) :
  sasEmoji sha256 fpA fpB = sasEmoji sha256 fpB fpA.
Proof.
  unfold sasEmoji. destruct (blt fpB fpA) eqn:E1, (blt fpA fpB) eqn:E2; try done.
  - by rewrite (blt_asym _ _ E1) in E2.
  - by rewrite (blt_total _ _ E1 E2).
Qed.

Lemma sign_verifies_witness :
  let sg := fun seed d : bytes => Some (seed ++ d) in
  let vf := fun pub s d : bytes => bool_decide (s = pub ++ d) in
  let key := replicate 32 x61 in
  verify vf (b64encode key) #"data" (sign sg (b64encode key) #"data") = true.
Proof.
  destruct (sign_verifies (fun seed d => Some (seed ++ d)) (fun pub s d => bool_decide (s = pub ++ d))
    (replicate 32 x61) (replicate 32 x61) #"data") as [H|H].
  - intros d s [= <-]. apply bool_decide_eq_true_2. reflexivity.
  - reflexivity.
  - reflexivity.
  - exfalso. revert H. vm_compute. discriminate.
  - exact H.
Defined.

End Crypto.
