(* ===== verification/BlobCrypt.v ===== *)
(** * BlobCrypt: encrypted blobs in authenticated chunks

    Models [src/blobcrypt.cpp] and [include/parvane/blobcrypt.h]. AES-256-GCM
    belongs to OpenSSL: the class [Aead] is what the code relies on. Sizes are
    integers ([size_t] values of strings in memory, far below the width). *)

From S2P Require Import Prelude DomainSync Crypto.

Module Blob.
Import Crypto.

Definition kDefaultChunkSize : Z := 256 * 1024.
Definition kMinChunkSize : Z := 1024.
Definition kMaxChunkSize : Z := 8 * 1024 * 1024.
Definition kHeaderLen : Z := 8.
Definition kTagLen : Z := 16.
Definition kMagic : bytes := #"PVB2".

Definition size (s : bytes) : Z := Z.of_nat (length s).
Definition substr (s : bytes) (off len : Z) : bytes := take (Z.to_nat len) (drop (Z.to_nat off) s).

Definition putU32 (v : Z) : bytes :=
  [z2b (Z.land (Z.shiftr v 24) 0xff); z2b (Z.land (Z.shiftr v 16) 0xff);
   z2b (Z.land (Z.shiftr v 8) 0xff); z2b (Z.land v 0xff)].

Definition getU32 (p : bytes) : Z :=
  match p with
  | a :: b :: c :: d :: _ =>
      Z.lor (Z.lor (Z.lor (Z.shiftl (b2z a) 24) (Z.shiftl (b2z b) 16)) (Z.shiftl (b2z c) 8)) (b2z d)
  | _ => 0%Z
  end.

Definition aadFor (chunkSize index total : Z) : bytes :=
  kMagic ++ putU32 chunkSize ++ putU32 index ++ putU32 total.

Definition xorAt (i : nat) (v : Z) (n : bytes) : bytes :=
  alter (fun b => z2b (Z.lxor (b2z b) v)) i n.

Definition nonceFor (nonce : bytes) (index : Z) : bytes :=
  xorAt 11 (Z.land index 0xff) (xorAt 10 (Z.land (Z.shiftr index 8) 0xff)
    (xorAt 9 (Z.land (Z.shiftr index 16) 0xff) (xorAt 8 (Z.land (Z.shiftr index 24) 0xff) nonce))).

(** The header: the chunk size, or [None] for legacy v1 or a bad header. *)
Definition parseHeader (ciphertext : bytes) : option Z :=
  if (size ciphertext <? kHeaderLen)%Z || negb (bool_decide (take 4 ciphertext = kMagic)) then None
  else let chunkSize := getU32 (drop 4 ciphertext) in
       if (chunkSize <? kMinChunkSize)%Z || (kMaxChunkSize <? chunkSize)%Z then None
       else Some chunkSize.

Definition chunkCount (cipherLen h : Z) : Z :=
  if (cipherLen <? kHeaderLen + kTagLen)%Z then 0%Z
  else let body := (cipherLen - kHeaderLen)%Z in
       let full := (h + kTagLen)%Z in
       ((body + full - 1) `div` full)%Z.

Definition plaintextSize (cipherLen h : Z) : Z :=
  let n := chunkCount cipherLen h in
  if (n =? 0)%Z then 0%Z else (cipherLen - kHeaderLen - n * kTagLen)%Z.

Definition maxCipherSize (plainBytes : Z) : Z :=
  if (plainBytes =? 0)%Z then 0%Z
  else (plainBytes + kHeaderLen + kTagLen * (plainBytes `div` kMinChunkSize + 1))%Z.

(** ** The cipher *)

(** One session of AES-256-GCM: [seal key nonce aad plain] gives the data and
    the tag, [open key nonce aad data tag] the plain text when the tag fits.
    [None] is a failure reported by the library. *)
Class Aead := {
  seal : bytes -> bytes -> bytes -> bytes -> option (bytes * bytes);
  open : bytes -> bytes -> bytes -> bytes -> bytes -> option bytes
}.

(** What the documentation of the mode promises: lengths, and that opening
    what was sealed under the same key, nonce and data gives it back. *)
Class AeadLaws `{Aead} := {
  seal_length k n a p c t : seal k n a p = Some (c, t) -> length c = length p /\ length t = 16;
  open_seal k n a p c t : seal k n a p = Some (c, t) -> open k n a c t = Some p
}.

(** The mode is deterministic and the tag is a function of key, nonce, data and
    ciphertext: only what sealing makes opens. *)
Class AeadTidy `{Aead} := {
  seal_open k n a p c t : length t = 16 -> open k n a c t = Some p -> seal k n a p = Some (c, t)
}.

Section Cipher.
Context `{Aead}.

Definition gcmSeal (key nonce aad plain : bytes) : option bytes :=
  match seal key nonce aad plain with Some (ct, tag) => Some (ct ++ tag) | None => None end.

Definition gcmOpen (key nonce aad ct : bytes) : option bytes :=
  if (size ct <? kTagLen)%Z then None
  else let dataLen := Z.to_nat (size ct - kTagLen) in
       open key nonce aad (take dataLen ct) (drop dataLen ct).

Definition decryptV1 (ciphertext key nonce : bytes) : option bytes := gcmOpen key nonce [] ciphertext.

Definition keyNonceOk (key nonce : bytes) : bool := (length key =? 32) && (length nonce =? 12).

(** The piece of the plain text in chunk [i]. *)
Definition piece (plaintext : bytes) (chunkSize i : Z) : bytes :=
  let off := (i * chunkSize)%Z in
  let len := if (off <? size plaintext)%Z then Z.min chunkSize (size plaintext - off) else 0%Z in
  substr plaintext off len.

(** [for (i = ...; i < n; ++i)], [k] turns from [i]. *)
Fixpoint sealLoop (plaintext key nonce : bytes) (chunkSize n : Z) (k : nat) (i : Z) : option bytes :=
  match k with
  | O => Some []
  | S k' =>
      match gcmSeal key (nonceFor nonce (u32 i)) (aadFor chunkSize (u32 i) (u32 n)) (piece plaintext chunkSize i) with
      | Some c => (app c) <$> sealLoop plaintext key nonce chunkSize n k' (i + 1)
      | None => None
      end
  end.

(** An empty result is an error. *)
Definition encryptWithKey (plaintext key nonce : bytes) (chunkSize : Z) : bytes :=
  if negb (length key =? 32) || negb (length nonce =? 12)
     || (chunkSize <? kMinChunkSize)%Z || (kMaxChunkSize <? chunkSize)%Z then []
  else
    let n := match plaintext with
             | [] => 1%Z
             | _ => ((size plaintext + chunkSize - 1) `div` chunkSize)%Z
             end in
    if (0xffffffff <? n)%Z then []
    else match sealLoop plaintext key nonce chunkSize n (Z.to_nat n) 0 with
         | Some body => kMagic ++ putU32 chunkSize ++ body
         | None => []
         end.

Record Encrypted := mkEncrypted { ciphertext : bytes; keyB64 : bytes; nonceB64 : bytes }.

(** [encrypt]: [random] is what [RAND_bytes] gave for the key and the nonce. *)
Definition encrypt (random : option (bytes * bytes)) (plaintext : bytes) : Encrypted :=
  match random with
  | None => mkEncrypted [] [] []
  | Some (k, n) =>
      let c := encryptWithKey plaintext k n kDefaultChunkSize in
      if length c =? 0 then mkEncrypted [] [] [] else mkEncrypted c (b64encode k) (b64encode n)
  end.

(** The loop of [decryptChunks]; every turn takes at least one byte, so as many
    turns as there are bytes are enough. *)
Fixpoint openLoop (key nonce : bytes) (h total : Z) (fuel : nat) (chunks : bytes) (index : Z) : option bytes :=
  match chunks, fuel with
  | [], _ => Some []
  | _ :: _, O => None
  | _ :: _, S fuel' =>
      if (total <=? index)%Z then None
      else
        let full := (h + kTagLen)%Z in
        let len := Z.min full (size chunks) in
        if (index + 1 <? total)%Z && negb (len =? full)%Z then None
        else match gcmOpen key (nonceFor nonce (u32 index)) (aadFor h (u32 index) (u32 total))
                     (take (Z.to_nat len) chunks) with
             | Some p => (app p) <$> openLoop key nonce h total fuel' (drop (Z.to_nat len) chunks) (index + 1)
             | None => None
             end
  end.

Definition decryptChunks (chunks keyB64 nonceB64 : bytes) (h firstChunk totalChunks : Z) : option bytes :=
  match b64decode keyB64, b64decode nonceB64 with
  | Some key, Some nonce =>
      if negb (keyNonceOk key nonce) || (totalChunks =? 0)%Z || (0xffffffff <? totalChunks)%Z then None
      else openLoop key nonce h totalChunks (length chunks) chunks firstChunk
  | _, _ => None
  end.

Definition decrypt (ciphertext keyB64 nonceB64 : bytes) : option bytes :=
  match b64decode keyB64, b64decode nonceB64 with
  | Some key, Some nonce =>
      if negb (keyNonceOk key nonce) then None
      else match parseHeader ciphertext with
           | Some h =>
               let n := chunkCount (size ciphertext) h in
               if (n =? 0)%Z then None
               else decryptChunks (drop (Z.to_nat kHeaderLen) ciphertext) keyB64 nonceB64 h 0 n
           | None => decryptV1 ciphertext key nonce
           end
  | _, _ => None
  end.

(** ** The photo of a private group *)

Record GroupPhotoKeys := mkGroupPhotoKeys { capability : bytes; photoKey : bytes; photoNonce : bytes }.

Definition groupPhotoLabel (sha256 : bytes -> option bytes) (label secret : bytes) : bytes :=
  match sha256 (#"parvane/group-avatar/v1/" ++ label ++ secret) with
  | Some out => if length out =? 32 then out else []
  | None => []
  end.

Definition deriveGroupPhotoKeys (sha256 : bytes -> option bytes) (secret32 : bytes) : option GroupPhotoKeys :=
  if negb (length secret32 =? 32) then None
  else let k := mkGroupPhotoKeys (groupPhotoLabel sha256 #"cap" secret32)
                  (groupPhotoLabel sha256 #"key" secret32)
                  (take 12 (groupPhotoLabel sha256 #"nonce" secret32)) in
       if negb (length (capability k) =? 32) || negb (length (photoKey k) =? 32)
          || negb (length (photoNonce k) =? 12) then None
       else Some k.

Definition sealGroupPhoto (sha256 : bytes -> option bytes) (plain secret32 : bytes) : bytes :=
  match deriveGroupPhotoKeys sha256 secret32 with
  | Some k => if length plain =? 0 then [] else encryptWithKey plain (photoKey k) (photoNonce k) kDefaultChunkSize
  | None => []
  end.

Definition openGroupPhoto (sha256 : bytes -> option bytes) (cipher secret32 : bytes) : option bytes :=
  match deriveGroupPhotoKeys sha256 secret32 with
  | Some k => decrypt cipher (b64encode (photoKey k)) (b64encode (photoNonce k))
  | None => None
  end.

(** ** Lemmas *)

Lemma getU32_putU32 (v : Z) (rest : bytes) : (0 <= v < 2 ^ 32)%Z -> getU32 (putU32 v ++ rest) = v.
Proof.
  intros Hv. unfold putU32. cbn [app getU32].
  rewrite !b2z_z2b, !shiftr_div, !(land_ones_mod _ 8) by lia. zpow.
  rewrite !Z.mod_mod by lia.
  assert (0 <= v `div` 16777216 < 256)%Z by zdiv.
  pose proof (Z.mod_pos_bound (v `div` 65536) 256 ltac:(lia)).
  pose proof (Z.mod_pos_bound (v `div` 256) 256 ltac:(lia)).
  pose proof (Z.mod_pos_bound v 256 ltac:(lia)).
  rewrite (Z.mod_small (v `div` 16777216)) by lia.
  rewrite (Z.shiftl_mul_pow2 ((v `div` 65536) `mod` 256)) by lia.
  rewrite (lor_shiftl_add (v `div` 16777216) _ 24) by (zpow; lia).
  replace (v `div` 16777216 * 2 ^ 24 + (v `div` 65536) `mod` 256 * 2 ^ 16)%Z
    with (Z.shiftl (v `div` 65536) 16) by (rewrite Z.shiftl_mul_pow2 by lia; zdiv).
  rewrite (Z.shiftl_mul_pow2 ((v `div` 256) `mod` 256)) by lia.
  rewrite (lor_shiftl_add (v `div` 65536) _ 16) by (zpow; lia).
  replace (v `div` 65536 * 2 ^ 16 + (v `div` 256) `mod` 256 * 2 ^ 8)%Z
    with (Z.shiftl (v `div` 256) 8) by (rewrite Z.shiftl_mul_pow2 by lia; zdiv).
  rewrite lor_shiftl_add by (zpow; lia). zdiv.
Qed.

Lemma take_app_split {A} (n m : nat) (l : list A) : take (n + m) l = take n l ++ take m (drop n l).
Proof.
  revert l. induction n as [|n IH]; intros [|x l]; cbn; try done; [by destruct m|by rewrite IH].
Qed.

Lemma piece_slice (p : bytes) (cs i : Z) : (0 < cs)%Z -> (0 <= i)%Z ->
  piece p cs i = take (Z.to_nat cs) (drop (Z.to_nat (i * cs)) p).
Proof.
  intros Hc Hi. unfold piece, substr, size.
  assert (0 <= i * cs)%Z by nia.
  destruct (Z.ltb_spec (i * cs) (Z.of_nat (length p))).
  - destruct (decide (cs <= Z.of_nat (length p) - i * cs)%Z).
    + by rewrite Z.min_l by lia.
    + rewrite Z.min_r by lia. rewrite !take_ge; [done| |]; rewrite length_drop; lia.
  - rewrite (drop_ge p) by lia. by destruct (Z.to_nat cs).
Qed.

(** The pieces of [k] chunks from chunk [i] on. *)
Fixpoint pieces (p : bytes) (cs : Z) (k : nat) (i : Z) : list bytes :=
  match k with
  | O => []
  | S k' => piece p cs i :: pieces p cs k' (i + 1)
  end.

Lemma pieces_length p cs k i : length (pieces p cs k i) = k.
Proof. revert i. induction k as [|k IH]; intros i; cbn; [done|by rewrite IH]. Qed.

Lemma pieces_app p cs k l i : pieces p cs (k + l) i = pieces p cs k i ++ pieces p cs l (i + Z.of_nat k).
Proof.
  revert i. induction k as [|k IH]; intros i; cbn; [by rewrite Z.add_0_r|].
  rewrite IH. do 3 f_equal. lia.
Qed.

Lemma concat_pieces p cs k i : (0 < cs)%Z -> (0 <= i)%Z ->
  concat (pieces p cs k i) = substr p (i * cs) (Z.of_nat k * cs).
Proof.
  intros Hc. unfold substr. revert i. induction k as [|k IH]; intros i Hi; [done|].
  cbn [pieces concat]. rewrite IH, piece_slice by lia.
  replace (Z.to_nat (Z.of_nat (S k) * cs)) with (Z.to_nat cs + Z.to_nat (Z.of_nat k * cs)) by nia.
  rewrite take_app_split, drop_drop. do 3 f_equal. nia.
Qed.

Lemma pieces_lookup p cs k i j q : pieces p cs k i !! j = Some q ->
  j < k /\ q = piece p cs (i + Z.of_nat j).
Proof.
  revert i j. induction k as [|k IH]; intros i [|j]; cbn; try done.
  - intros [= <-]. rewrite Z.add_0_r. split; [lia|done].
  - intros Hq. apply IH in Hq as [H1 ->]. split; [lia|]. f_equal. lia.
Qed.

(** *** Sealing and opening a list of pieces *)

Section Pieces.
Context (key nonce : bytes) (cs n : Z).

Fixpoint sealPieces (qs : list bytes) (i : Z) : option bytes :=
  match qs with
  | [] => Some []
  | q :: qs' =>
      match gcmSeal key (nonceFor nonce (u32 i)) (aadFor cs (u32 i) (u32 n)) q with
      | Some c => (app c) <$> sealPieces qs' (i + 1)
      | None => None
      end
  end.

Lemma sealLoop_pieces p k i : sealLoop p key nonce cs n k i = sealPieces (pieces p cs k i) i.
Proof.
  revert i. induction k as [|k IH]; intros i; cbn; [done|]. by rewrite IH.
Qed.

Lemma sealPieces_app qs1 qs2 i c : sealPieces (qs1 ++ qs2) i = Some c <->
  exists c1 c2, c = c1 ++ c2 /\ sealPieces qs1 i = Some c1 /\
    sealPieces qs2 (i + Z.of_nat (length qs1)) = Some c2.
Proof.
  revert i c. induction qs1 as [|q qs1 IH]; intros i c; cbn [sealPieces app length].
  - rewrite Z.add_0_r. split; [intros H1; by exists [], c|intros (c1 & c2 & -> & [= <-] & H2); done].
  - destruct (gcmSeal _ _ _ q) as [s|]; [|split; [done|by intros (? & ? & ? & ? & ?)]].
    replace (i + Z.of_nat (S (length qs1)))%Z with (i + 1 + Z.of_nat (length qs1))%Z by lia.
    split.
    + intros Hc. destruct (sealPieces (qs1 ++ qs2) (i + 1)) as [c'|] eqn:E; [|done]. cbn in Hc. simplify_eq.
      apply IH in E as (c1 & c2 & -> & H1 & H2). exists (s ++ c1), c2. rewrite H1, H2.
      split; [by rewrite app_assoc|done].
    + intros (c1 & c2 & -> & H1 & H2). destruct (sealPieces qs1 (i + 1)) as [c1'|] eqn:E; [|done].
      cbn in H1. simplify_eq.
      assert (sealPieces (qs1 ++ qs2) (i + 1) = Some (c1' ++ c2)) as ->; [|cbn; by rewrite app_assoc].
      apply IH. by exists c1', c2.
Qed.

Context `{!AeadLaws}.

Lemma gcmSeal_spec k nc aad p s : gcmSeal k nc aad p = Some s ->
  length s = length p + 16 /\ gcmOpen k nc aad s = Some p.
Proof.
  unfold gcmSeal, gcmOpen. destruct (seal k nc aad p) as [[c t]|] eqn:E; [|done]. intros [= <-].
  destruct (seal_length _ _ _ _ _ _ E) as [H1 H2]. rewrite length_app. split; [lia|].
  unfold size, kTagLen. rewrite length_app, H2.
  destruct (Z.ltb_spec (Z.of_nat (length c + 16)) 16); [lia|].
  replace (Z.to_nat (Z.of_nat (length c + 16) - 16)) with (length c) by lia.
  rewrite take_app_length, drop_app_length. by eapply open_seal.
Qed.

Lemma sealPieces_length qs i c : sealPieces qs i = Some c ->
  length c = length (concat qs) + 16 * length qs.
Proof.
  revert i c. induction qs as [|q qs IH]; intros i c; cbn [sealPieces concat length]; [by intros [= <-]|].
  destruct (gcmSeal _ _ _ q) as [s|] eqn:E; [|done].
  destruct (sealPieces qs (i + 1)) as [c'|] eqn:E2; [|done]. intros [= <-].
  apply gcmSeal_spec in E as [E _]. apply IH in E2. rewrite !length_app. lia.
Qed.

(** Pieces as the format has them: all but the last of the file are full. *)
Definition shaped (qs : list bytes) (i : Z) : Prop :=
  forall j q, qs !! j = Some q ->
    (size q <= cs)%Z /\ ((i + Z.of_nat j + 1 < n)%Z -> size q = cs).

Lemma shaped_cons q qs i : shaped (q :: qs) i ->
  (size q <= cs)%Z /\ ((i + 1 < n)%Z -> size q = cs) /\ shaped qs (i + 1).
Proof.
  intros Hs. destruct (Hs 0 q eq_refl) as [H1 H2]. split; [done|]. split; [intros; apply H2; lia|].
  intros j x Hx. destruct (Hs (S j) x Hx) as [H3 H4]. split; [done|]. intros; apply H4; lia.
Qed.

Lemma openLoop_sealed qs : forall i c fuel, (0 < cs)%Z -> (0 <= i)%Z ->
  (i + Z.of_nat (length qs) <= n)%Z -> shaped qs i -> sealPieces qs i = Some c -> length c <= fuel ->
  openLoop key nonce cs n fuel c i = Some (concat qs).
Proof.
  induction qs as [|q qs IH]; intros i c fuel Hcs Hi Hn Hsh Hc Hf; cbn [sealPieces] in Hc.
  { simplify_eq. by destruct fuel. }
  destruct (gcmSeal key _ _ q) as [s|] eqn:Es; [|done].
  destruct (sealPieces qs (i + 1)) as [c'|] eqn:Ec; [|done]. cbn in Hc. simplify_eq.
  apply shaped_cons in Hsh as (Hq & Hfull & Hsh). apply gcmSeal_spec in Es as [Hl Ho].
  rewrite length_app in Hf. cbn [length] in Hn.
  assert (exists b t, s ++ c' = b :: t) as (b & t & Eb).
  { destruct s as [|b s]; [cbn in Hl; lia|]. by exists b, (s ++ c'). }
  destruct fuel as [|fuel]; [lia|].
  assert (Z.min (cs + kTagLen) (size (s ++ c')) = Z.of_nat (length s)) as Hmin.
  { unfold size, kTagLen in *. rewrite length_app.
    destruct (decide (i + 1 < n)%Z) as [Hlt|].
    - specialize (Hfull Hlt). lia.
    - destruct qs; [|cbn in Hn; lia]. cbn in Ec. simplify_eq. cbn. lia. }
  rewrite Eb in *. cbn [openLoop]. destruct (Z.leb_spec n i); [lia|]. rewrite Hmin.
  replace ((i + 1 <? n)%Z && negb (Z.of_nat (length s) =? cs + kTagLen)%Z) with false.
  2: { destruct (Z.ltb_spec (i + 1) n); [|done]. unfold size, kTagLen in *. specialize (Hfull ltac:(lia)). lia. }
  rewrite Nat2Z.id, <- Eb, take_app_length, drop_app_length, Ho.
  by rewrite (IH (i + 1)%Z c' fuel) by (done || lia).
Qed.
End Pieces.

(** *** What [encryptWithKey] writes *)

(** The number of chunks of a plain text. *)
Definition chunksOf (p : bytes) (cs : Z) : Z :=
  match p with [] => 1%Z | _ => ((size p + cs - 1) `div` cs)%Z end.

Lemma chunksOf_bounds p cs : (0 < cs)%Z ->
  (1 <= chunksOf p cs)%Z /\ (size p <= chunksOf p cs * cs)%Z /\ ((chunksOf p cs - 1) * cs <= size p)%Z /\
  (p <> [] -> ((chunksOf p cs - 1) * cs < size p)%Z).
Proof.
  intros Hc. unfold chunksOf, size. destruct p as [|b p]; [cbn; split_and!; try lia; done|].
  pose proof (Z.div_mod (Z.of_nat (length (b :: p)) + cs - 1) cs ltac:(lia)) as E.
  pose proof (Z.mod_pos_bound (Z.of_nat (length (b :: p)) + cs - 1) cs Hc) as B.
  cbn [length] in *. set (q := (_ `div` cs)%Z) in *. split_and!; intros; try nia.
Qed.

Lemma pieces_shaped p cs k i : (0 < cs)%Z -> (0 <= i)%Z -> (i + Z.of_nat k <= chunksOf p cs)%Z ->
  shaped cs (chunksOf p cs) (pieces p cs k i) i.
Proof.
  intros Hc Hi Hk j q Hq. apply pieces_lookup in Hq as [Hj ->].
  destruct (chunksOf_bounds p cs Hc) as (_ & _ & Hlow & _).
  rewrite piece_slice by lia. unfold size in *. rewrite length_take, length_drop.
  split; [lia|]. intros Hlt. assert ((i + Z.of_nat j + 1) * cs <= Z.of_nat (length p))%Z by nia. nia.
Qed.

Lemma concat_pieces_all p cs : (0 < cs)%Z ->
  concat (pieces p cs (Z.to_nat (chunksOf p cs)) 0) = p.
Proof.
  intros Hc. destruct (chunksOf_bounds p cs Hc) as (H1 & H2 & _).
  rewrite concat_pieces by lia. unfold substr, size in *. apply take_ge. nia.
Qed.

Lemma encryptWithKey_inv p key nonce cs c : encryptWithKey p key nonce cs = c -> c <> [] ->
  length key = 32 /\ length nonce = 12 /\ (kMinChunkSize <= cs <= kMaxChunkSize)%Z /\
  (chunksOf p cs <= 0xffffffff)%Z /\
  exists body, sealPieces key nonce cs (chunksOf p cs) (pieces p cs (Z.to_nat (chunksOf p cs)) 0) 0 = Some body /\
    c = kMagic ++ putU32 cs ++ body.
Proof.
  unfold encryptWithKey. fold (chunksOf p cs). intros <-.
  destruct (Nat.eqb_spec (length key) 32); [|done]. destruct (Nat.eqb_spec (length nonce) 12); [|done].
  destruct (Z.ltb_spec cs kMinChunkSize); [done|]. destruct (Z.ltb_spec kMaxChunkSize cs); [done|].
  cbn [negb orb]. destruct (Z.ltb_spec 0xffffffff (chunksOf p cs)); [done|].
  rewrite sealLoop_pieces. destruct (sealPieces _ _ _ _ _ _) as [body|]; [|done].
  intros _. split_and!; try done. by exists body.
Qed.

Lemma header_length cs body : size (kMagic ++ putU32 cs ++ body) = (8 + size body)%Z.
Proof.
  unfold size. rewrite !length_app. change (length kMagic) with 4. change (length (putU32 cs)) with 4. lia.
Qed.

Lemma parseHeader_written cs body : (kMinChunkSize <= cs <= kMaxChunkSize)%Z ->
  parseHeader (kMagic ++ putU32 cs ++ body) = Some cs.
Proof.
  intros Hc. unfold kMinChunkSize, kMaxChunkSize in Hc. unfold parseHeader.
  destruct (Z.ltb_spec (size (kMagic ++ putU32 cs ++ body)) kHeaderLen) as [Hlt|].
  { rewrite header_length in Hlt. unfold size, kHeaderLen in Hlt. lia. }
  change (take 4 (kMagic ++ putU32 cs ++ body)) with kMagic. rewrite bool_decide_eq_true_2 by done.
  cbn [negb orb]. change (drop 4 (kMagic ++ putU32 cs ++ body)) with (putU32 cs ++ body).
  rewrite getU32_putU32 by lia. unfold kMinChunkSize, kMaxChunkSize.
  destruct (Z.ltb_spec cs 1024); [lia|]. by destruct (Z.ltb_spec (8 * 1024 * 1024) cs); [lia|].
Qed.

Lemma chunkCount_written p cs : (0 < cs)%Z ->
  chunkCount (8 + size p + 16 * chunksOf p cs) cs = chunksOf p cs.
Proof.
  intros Hc. destruct (chunksOf_bounds p cs Hc) as (H1 & H2 & H3 & H4).
  unfold chunkCount, kHeaderLen, kTagLen. unfold size in *.
  destruct (Z.ltb_spec (8 + Z.of_nat (length p) + 16 * chunksOf p cs) (8 + 16)); [lia|].
  symmetry. apply (Z.div_unique_pos _ _ _ (Z.of_nat (length p) - (chunksOf p cs - 1) * cs + 15)%Z); [nia|ring].
Qed.

Context `{!AeadLaws}.

Lemma encrypt_length p key nonce cs c : encryptWithKey p key nonce cs = c -> c <> [] ->
  size c = (8 + size p + 16 * chunksOf p cs)%Z.
Proof.
  intros Hc Hne. destruct (encryptWithKey_inv _ _ _ _ _ Hc Hne) as (_ & _ & Hcs & _ & body & Hb & ->).
  unfold kMinChunkSize in Hcs. rewrite header_length. pose proof (sealPieces_length _ _ _ _ _ _ _ Hb) as Hl. clear Hb. rename Hl into Hb.
  rewrite concat_pieces_all, pieces_length in Hb by lia.
  destruct (chunksOf_bounds p cs ltac:(lia)) as (H1 & _). unfold size. lia.
Qed.

Lemma keyNonce_decoded key nonce : length key = 32 -> length nonce = 12 -> keyNonceOk key nonce = true.
Proof. intros H1 H2. unfold keyNonceOk. by rewrite H1, H2. Qed.

Lemma decrypt_written p key nonce cs : encryptWithKey p key nonce cs <> [] ->
  decrypt (encryptWithKey p key nonce cs) (b64encode key) (b64encode nonce) = Some p.
Proof.
  intros Hne. destruct (encryptWithKey_inv p key nonce cs _ eq_refl Hne) as (Hk & Hn & Hcs & Hmax & body & Hb & E).
  pose proof (encrypt_length p key nonce cs _ eq_refl Hne) as Hsz.
  assert (0 < cs)%Z as Hcp by (unfold kMinChunkSize in Hcs; lia).
  destruct (chunksOf_bounds p cs Hcp) as (H1 & _).
  unfold decrypt. rewrite !b64decode_b64encode, keyNonce_decoded by done. cbn [negb].
  rewrite Hsz. rewrite E, parseHeader_written by done. cbv zeta.
  rewrite chunkCount_written by done. destruct (Z.eqb_spec (chunksOf p cs) 0); [lia|].
  change (drop (Z.to_nat kHeaderLen) (kMagic ++ putU32 cs ++ body)) with body.
  unfold decryptChunks. rewrite !b64decode_b64encode, keyNonce_decoded by done. cbn [negb orb].
  destruct (Z.eqb_spec (chunksOf p cs) 0); [lia|]. destruct (Z.ltb_spec 0xffffffff (chunksOf p cs)); [lia|].
  cbn [orb]. rewrite (openLoop_sealed _ _ _ _ (pieces p cs (Z.to_nat (chunksOf p cs)) 0));
    [by rewrite concat_pieces_all|done|lia|rewrite pieces_length; lia| |done|done].
  apply pieces_shaped; lia.
Qed.

Lemma sealPieces_total key nonce cs n qs i : (forall k nc a p, seal k nc a p <> None) ->
  exists c, sealPieces key nonce cs n qs i = Some c.
Proof.
  intros Ht. revert i. induction qs as [|q qs IH]; intros i; cbn [sealPieces]; [by eexists|].
  unfold gcmSeal. destruct (seal _ _ _ q) as [[c t]|] eqn:E; [|by apply Ht in E].
  destruct (IH (i + 1)%Z) as [c' ->]. by eexists.
Qed.

Lemma encryptWithKey_total p key nonce cs : (forall k nc a q, seal k nc a q <> None) ->
  length key = 32 -> length nonce = 12 -> (kMinChunkSize <= cs <= kMaxChunkSize)%Z ->
  (chunksOf p cs <= 0xffffffff)%Z -> encryptWithKey p key nonce cs <> [].
Proof.
  intros Ht Hk Hn Hc Hm. unfold encryptWithKey. fold (chunksOf p cs). rewrite Hk, Hn. cbn [Nat.eqb negb orb].
  destruct (Z.ltb_spec cs kMinChunkSize); [lia|]. destruct (Z.ltb_spec kMaxChunkSize cs); [lia|].
  cbn [orb]. destruct (Z.ltb_spec 0xffffffff (chunksOf p cs)); [lia|]. rewrite sealLoop_pieces.
  destruct (sealPieces_total key nonce cs (chunksOf p cs) (pieces p cs (Z.to_nat (chunksOf p cs)) 0) 0 Ht)
    as [c ->]. done.
Qed.

Lemma openLoop_form `{!AeadTidy} key nonce cs n fuel : forall chunks i out, (0 < cs)%Z -> (0 <= i)%Z ->
  openLoop key nonce cs n fuel chunks i = Some out ->
  exists qs, sealPieces key nonce cs n qs i = Some chunks /\ out = concat qs /\
    shaped cs n qs i /\ (i + Z.of_nat (length qs) <= Z.max n i)%Z.
Proof.
  induction fuel as [|fuel IH]; intros [|b t] i out Hc Hi; cbn [openLoop]; try done.
  1-2: intros [= <-]; exists []; (split; [done|]); split; [done|]; split; [by intros []|cbn; lia].
  destruct (Z.leb_spec n i); [done|].
  destruct ((i + 1 <? n)%Z && negb _) eqn:Efull; [done|]. set (s := b :: t) in *.
  set (len := Z.min (cs + kTagLen) (size s)) in *.
  assert (0 < len <= size s)%Z as Hlen.
  { unfold len, kTagLen, size, s in *. cbn [length]. lia. }
  destruct (gcmOpen _ _ _ (take (Z.to_nat len) s)) as [q|] eqn:Eo; [|done].
  destruct (openLoop _ _ _ _ _ _ (i + 1)) as [o|] eqn:Er; [|done]. cbn. intros [= <-].
  destruct (IH _ (i + 1)%Z _ Hc ltac:(lia) Er) as (qs & Hs & -> & Hsh & Hn).
  assert (gcmSeal key (nonceFor nonce (u32 i)) (aadFor cs (u32 i) (u32 n)) q = Some (take (Z.to_nat len) s)
    /\ size q = (len - 16)%Z) as [Hq Hqs].
  { unfold gcmOpen in Eo. unfold size in *. rewrite length_take in Eo.
    replace (Z.to_nat len `min` length s) with (Z.to_nat len) in Eo by lia.
    destruct (Z.ltb_spec (Z.of_nat (Z.to_nat len)) kTagLen); [done|]. unfold kTagLen in *.
    assert (length (drop (Z.to_nat (Z.of_nat (Z.to_nat len) - 16)) (take (Z.to_nat len) s)) = 16) as Ht.
    { rewrite length_drop, length_take. lia. }
    apply seal_open in Eo; [|done]. unfold gcmSeal. rewrite Eo, take_drop. split; [done|].
    destruct (seal_length _ _ _ _ _ _ Eo) as [Hl _]. rewrite length_take, length_take in Hl. lia. }
  exists (q :: qs). split; [|split; [done|split]].
  - cbn [sealPieces]. rewrite Hq, Hs. cbn. f_equal. apply take_drop.
  - intros [|j] x; cbn [lookup list_lookup].
    + intros [= <-]. rewrite Hqs. unfold len, kTagLen in *. split; [lia|]. intros Hlt.
      destruct (Z.ltb_spec (i + 1) n); [|lia]. cbn [andb] in Efull.
      apply negb_false_iff, Z.eqb_eq in Efull. lia.
    + intros Hx. destruct (Hsh j x Hx) as [H1' H2']. split; [done|]. intros. apply H2'. lia.
  - cbn [length]. lia.
Qed.

(** *** Properties *)

(** Claim C25 (a blob survives): with a key and a nonce of the right lengths and
    a chunk size in the allowed range, any plain text of at most 2^32 - 1
    chunks is encrypted, and decrypting gives it back; the sizes the reader
    computes from the ciphertext's length alone are the true ones. *)
Theorem blob_roundtrip p key nonce cs :
  (forall k nc a q, seal k nc a q <> None) -> length key = 32 -> length nonce = 12 ->
  (kMinChunkSize <= cs <= kMaxChunkSize)%Z -> (chunksOf p cs <= 0xffffffff)%Z ->
  let c := encryptWithKey p key nonce cs in
  decrypt c (b64encode key) (b64encode nonce) = Some p /\
  parseHeader c = Some cs /\ chunkCount (size c) cs = chunksOf p cs /\ plaintextSize (size c) cs = size p.
Proof.
  intros Ht Hk Hn Hc Hm c. pose proof (encryptWithKey_total p key nonce cs Ht Hk Hn Hc Hm) as Hne.
  split; [by apply decrypt_written|].
  assert (0 < cs)%Z as Hcp by (unfold kMinChunkSize in Hc; lia).
  destruct (chunksOf_bounds p cs Hcp) as (Hn1 & _).
  assert (chunkCount (size c) cs = chunksOf p cs) as Hcount.
  { unfold c. by rewrite (encrypt_length p key nonce cs _ eq_refl Hne), chunkCount_written. }
  split; [|split; [done|]].
  - destruct (encryptWithKey_inv p key nonce cs _ eq_refl Hne) as (_ & _ & _ & _ & body & _ & E).
    unfold c. rewrite E. by apply parseHeader_written.
  - unfold plaintextSize. rewrite Hcount. unfold c. rewrite (encrypt_length p key nonce cs _ eq_refl Hne).
    destruct (Z.eqb_spec (chunksOf p cs) 0); [lia|]. unfold kHeaderLen, kTagLen. lia.
Qed.

(** Property (any range can be read): the bytes of chunks [i] to [i + k] alone
    decrypt to the plain text of those chunks. *)
Theorem range_roundtrip p key nonce cs i k :
  encryptWithKey p key nonce cs <> [] -> (0 <= i)%Z -> (0 <= k)%Z -> (i + k <= chunksOf p cs)%Z ->
  decryptChunks (substr (encryptWithKey p key nonce cs) (8 + i * (cs + 16)) (k * (cs + 16)))
    (b64encode key) (b64encode nonce) cs i (chunksOf p cs)
  = Some (substr p (i * cs) (k * cs)).
Proof.
  intros Hne Hi Hk Hik.
  destruct (encryptWithKey_inv p key nonce cs _ eq_refl Hne) as (Hl & Hl2 & Hcs & Hmax & body & Hb & ->).
  assert (0 < cs)%Z as Hcp by (unfold kMinChunkSize in Hcs; lia).
  destruct (chunksOf_bounds p cs Hcp) as (H1 & _). set (n := chunksOf p cs) in *.
  replace (Z.to_nat n) with (Z.to_nat i + (Z.to_nat k + Z.to_nat (n - i - k))) in Hb by lia.
  rewrite !pieces_app in Hb. apply sealPieces_app in Hb as (c1 & c23 & -> & Hc1 & Hc23).
  apply sealPieces_app in Hc23 as (c2 & c3 & -> & Hc2 & Hc3).
  rewrite pieces_length in Hc2, Hc3. rewrite pieces_length in Hc3.
  assert (forall (k' : nat) i' c', (0 <= i')%Z -> (i' + Z.of_nat k' < n)%Z ->
    sealPieces key nonce cs n (pieces p cs k' i') i' = Some c' -> length c' = k' * Z.to_nat (cs + 16)) as Hfull.
  { intros k' i' c' Hi' Hlt Hs. apply sealPieces_length in Hs as ->; [|done].
    rewrite pieces_length. destruct (chunksOf_bounds p cs Hcp) as (_ & _ & Hlow & _). fold n in Hlow.
    rewrite concat_pieces by done. unfold substr, size in *. rewrite length_take, length_drop.
    assert ((i' + Z.of_nat k') * cs <= Z.of_nat (length p))%Z by nia. nia. }
  assert (substr (kMagic ++ putU32 cs ++ c1 ++ c2 ++ c3) (8 + i * (cs + 16)) (k * (cs + 16)) = c2) as ->.
  { unfold substr. destruct (decide (k = 0)%Z) as [->|Hk0]; [injection Hc2 as <-; by rewrite Z.mul_0_l|].
    apply Hfull in Hc1 as Hlen1; [|lia|lia].
    replace (Z.to_nat (8 + i * (cs + 16))) with (8 + length c1) by nia.
    rewrite <- drop_drop. change (drop 8 (kMagic ++ putU32 cs ++ c1 ++ c2 ++ c3)) with (c1 ++ c2 ++ c3).
    rewrite drop_app_length. destruct (decide (i + k < n)%Z) as [Hlt|].
    - apply Hfull in Hc2 as Hlen2; [|lia|lia].
      replace (Z.to_nat (k * (cs + 16))) with (length c2) by nia. apply take_app_length.
    - replace (n - i - k)%Z with 0%Z in Hc3 by lia. injection Hc3 as <-.
      rewrite app_nil_r. apply take_ge. pose proof (sealPieces_length _ _ _ _ _ _ _ Hc2) as ->.
      rewrite pieces_length, concat_pieces by lia. unfold substr. rewrite length_take. nia. }
  unfold decryptChunks. rewrite !b64decode_b64encode, keyNonce_decoded by done. cbn [negb orb].
  destruct (Z.eqb_spec n 0); [lia|]. destruct (Z.ltb_spec 0xffffffff n); [lia|]. cbn [orb].
  replace (0 + Z.of_nat (Z.to_nat i))%Z with i in Hc2 by lia.
  rewrite (openLoop_sealed _ _ _ _ (pieces p cs (Z.to_nat k) i));
    [|done|lia|rewrite pieces_length; lia|apply pieces_shaped; fold n; lia|done|done].
  rewrite concat_pieces by lia. by rewrite Z2Nat.id by lia.
Qed.

(** Property (the download limit is enough): the ciphertext of a plain text
    that is not empty fits in [maxCipherSize] of its size, and the limit grows
    with the size. *)
Theorem maxCipherSize_enough p key nonce cs limit :
  p <> [] -> encryptWithKey p key nonce cs <> [] -> (size p <= limit)%Z ->
  (size (encryptWithKey p key nonce cs) <= maxCipherSize limit)%Z.
Proof.
  intros Hp Hne Hlim. rewrite (encrypt_length p key nonce cs _ eq_refl Hne).
  destruct (encryptWithKey_inv p key nonce cs _ eq_refl Hne) as (_ & _ & Hcs & _).
  unfold kMinChunkSize in Hcs. destruct (chunksOf_bounds p cs ltac:(lia)) as (_ & _ & _ & H3).
  specialize (H3 Hp). assert (0 < size p)%Z by (unfold size; destruct p; [done|cbn; lia]).
  unfold maxCipherSize, kHeaderLen, kTagLen, kMinChunkSize.
  destruct (Z.eqb_spec limit 0); [lia|].
  assert (chunksOf p cs <= limit `div` 1024 + 1)%Z; [|lia].
  assert (chunksOf p cs - 1 <= limit `div` 1024)%Z; [|lia].
  apply Z.div_le_lower_bound; nia.
Qed.

(** Claim C22 (only what was sealed opens): whatever decrypts under a v2 header
    is, chunk for chunk, what the cipher makes of the plain pieces, each bound
    to its index and to the number of chunks; so a cut, swapped or extended
    blob is accepted only if it was made as such with the key. *)
Theorem decrypt_form `{!AeadTidy} c key nonce cs p :
  length key = 32 -> length nonce = 12 -> parseHeader c = Some cs ->
  decrypt c (b64encode key) (b64encode nonce) = Some p ->
  exists qs, p = concat qs /\ Z.of_nat (length qs) = chunkCount (size c) cs /\
    shaped cs (chunkCount (size c) cs) qs 0 /\
    sealPieces key nonce cs (chunkCount (size c) cs) qs 0 = Some (drop 8 c).
Proof.
  intros Hk Hn Hh. unfold decrypt. rewrite !b64decode_b64encode, keyNonce_decoded by done. cbn [negb].
  rewrite Hh. cbv zeta. set (n := chunkCount (size c) cs).
  destruct (Z.eqb_spec n 0); [done|]. unfold decryptChunks.
  rewrite !b64decode_b64encode, keyNonce_decoded by done. cbn [negb orb].
  destruct (Z.eqb_spec n 0); [done|]. destruct (Z.ltb_spec 0xffffffff n); [done|]. cbn [orb].
  intros Ho. assert (0 < cs)%Z as Hcp.
  { unfold parseHeader in Hh. destruct (_ || _); [done|]. destruct (Z.ltb_spec (getU32 (drop 4 c)) kMinChunkSize); [done|].
    cbn [orb] in Hh. destruct (_ <? _)%Z; [done|]. unfold kMinChunkSize in *. simplify_eq. lia. }
  apply openLoop_form in Ho as (qs & Hs & -> & Hsh & Hl); [|done|lia].
  assert (0 <= n)%Z as Hn0.
  { unfold n, chunkCount, kHeaderLen, kTagLen. destruct (Z.ltb_spec (size c) (8 + 16)); [done|].
    apply Z.div_pos; lia. }
  exists qs. split; [done|]. split; [|done].
  destruct (decide (Z.of_nat (length qs) < n)%Z) as [Hlt|]; [exfalso|lia].
  change (Z.to_nat kHeaderLen) with 8 in Hs.
  assert (forall qs i, shaped cs n qs i -> (i + Z.of_nat (length qs) < n)%Z ->
    Z.of_nat (length (concat qs)) = (Z.of_nat (length qs) * cs)%Z) as Hfull.
  { clear. induction qs as [|q qs IH]; intros i Hsh Hlt; [done|]. cbn [concat length] in *.
    apply shaped_cons in Hsh as (_ & Hq & Hsh). specialize (IH (i + 1)%Z Hsh ltac:(lia)).
    specialize (Hq ltac:(lia)). unfold size in Hq. rewrite length_app. nia. }
  pose proof (Hfull qs 0%Z Hsh ltac:(lia)) as Hc. pose proof (sealPieces_length _ _ _ _ _ _ _ Hs) as Hd.
  rewrite length_drop in Hd. unfold n, chunkCount, kHeaderLen, kTagLen, size in *.
  destruct (Z.ltb_spec (Z.of_nat (length c)) (8 + 16)); [lia|].
  revert Hlt. apply Z.le_ngt. apply Z.lt_succ_r, Z.div_lt_upper_bound; [lia|]. nia.
Qed.

(** Property (the photo of a private group): whoever has the 32-byte secret
    opens the sealed photo; the keys differ from the capability the server sees
    by their labels only. *)
Theorem groupPhoto_roundtrip (sha256 : bytes -> option bytes) plain secret :
  (forall k nc a q, seal k nc a q <> None) ->
  (forall x, exists h, sha256 x = Some h /\ length h = 32) ->
  length secret = 32 -> plain <> [] -> (chunksOf plain kDefaultChunkSize <= 0xffffffff)%Z ->
  openGroupPhoto sha256 (sealGroupPhoto sha256 plain secret) secret = Some plain.
Proof.
  intros Ht Hsha Hs Hp Hm. unfold openGroupPhoto, sealGroupPhoto.
  assert (forall l, length (groupPhotoLabel sha256 l secret) = 32) as Hlab.
  { intros l. unfold groupPhotoLabel. destruct (Hsha (#"parvane/group-avatar/v1/" ++ l ++ secret)) as (h & -> & E).
    by rewrite E. }
  unfold deriveGroupPhotoKeys. cbn [capability photoKey photoNonce].
  rewrite Hs, length_take, !Hlab. cbn [Nat.eqb negb Nat.min orb photoKey photoNonce].
  destruct plain as [|b plain]; [done|]. cbn [length Nat.eqb].
  apply decrypt_written, encryptWithKey_total; try done.
  by rewrite length_take, Hlab.
Qed.

End Cipher.

(** *** The properties at concrete inputs *)

(** A cipher without secrecy whose tag is bound to the additional data. *)
Definition toyTag (a : bytes) : bytes := take 16 (a ++ replicate 16 x00).
#[export] Instance toyAead : Aead :=
  {| seal := fun _ _ a p => Some (p, toyTag a);
     open := fun _ _ a c t => if decide (t = toyTag a) then Some c else None |}.

Lemma toyTag_length a : length (toyTag a) = 16.
Proof. unfold toyTag. rewrite length_take, length_app, length_replicate. lia. Qed.

#[export] Instance toyLaws : AeadLaws.
Proof.
  split; intros k n a p c t [= <- <-].
  - split; [reflexivity|apply toyTag_length].
  - cbn. by rewrite decide_True.
Qed.
#[export] Instance toyTidy : AeadTidy.
Proof. constructor. intros k n a p c t _. cbn. case_decide; [|done]. intros [= ->]. by subst. Qed.

Definition toyKey : bytes := replicate 32 x6b.
Definition toyNonce : bytes := replicate 12 x6e.
Definition toyText : bytes := replicate 1500 x70.

Lemma blob_roundtrip_witness :
  decrypt (encryptWithKey toyText toyKey toyNonce 1024) (b64encode toyKey) (b64encode toyNonce) = Some toyText.
Proof.
  apply (blob_roundtrip toyText toyKey toyNonce 1024);
    [discriminate|reflexivity|reflexivity|unfold kMinChunkSize, kMaxChunkSize; lia|vm_compute; discriminate].
Defined.

Lemma range_roundtrip_witness :
  decryptChunks (substr (encryptWithKey toyText toyKey toyNonce 1024) (8 + 1 * (1024 + 16)) (1 * (1024 + 16)))
    (b64encode toyKey) (b64encode toyNonce) 1024 1 (chunksOf toyText 1024)
  = Some (substr toyText (1 * 1024) (1 * 1024)).
Proof.
  apply (range_roundtrip toyText toyKey toyNonce 1024 1 1);
    [|lia|lia|vm_compute; discriminate].
  intros H. apply (f_equal (fun l : bytes => length l =? 0)) in H. vm_compute in H. discriminate H.
Defined.

Lemma maxCipherSize_enough_witness :
  (size (encryptWithKey toyText toyKey toyNonce 1024) <= maxCipherSize 2000)%Z.
Proof.
  apply (maxCipherSize_enough toyText toyKey toyNonce 1024 2000).
  - intros H. apply (f_equal (fun l : bytes => length l =? 0)) in H. vm_compute in H. discriminate H.
  - intros H. apply (f_equal (fun l : bytes => length l =? 0)) in H. vm_compute in H. discriminate H.
  - vm_compute. discriminate.
Defined.

Lemma decrypt_form_witness : exists qs, toyText = concat qs /\ length qs = 2.
Proof.
  destruct (decrypt_form (encryptWithKey toyText toyKey toyNonce 1024) toyKey toyNonce 1024 toyText)
    as (qs & H1 & H2 & _).
  - reflexivity.
  - reflexivity.
  - vm_compute. reflexivity.
  - vm_compute. reflexivity.
  - exists qs. split; [exact H1|]. apply Nat2Z.inj. rewrite H2. vm_compute. reflexivity.
Defined.

Lemma groupPhoto_roundtrip_witness :
  openGroupPhoto (fun _ => Some (replicate 32 x00))
    (sealGroupPhoto (fun _ => Some (replicate 32 x00)) #"photo" toyKey) toyKey = Some #"photo".
Proof.
  apply groupPhoto_roundtrip;
    [discriminate|intros x; exists (replicate 32 x00); split; reflexivity|reflexivity|discriminate
    |vm_compute; discriminate].
Defined.

End Blob.
