(* ===== verification/Utf8.v ===== *)
(** * Utf8: code points, case folding and text helpers without ICU

    Module [Unicode] models [src/sections/unicode_lite.h] (with the strict
    decoder of [src/sections/cloud_model.cpp]). A [char32_t] is an integer, a
    [std::u32string] a list of them. *)

From S2P Require Import Prelude.

Abbreviation u32string := (list Z).

Module Unicode.

(** The lead byte: length of the sequence, its payload and the least code
    point the sequence may encode. *)
Definition lead (b0 : Z) : option (nat * Z * Z) :=
  if ((0xC2 <=? b0) && (b0 <=? 0xDF))%Z then Some (2, Z.land b0 0x1F, 0x80%Z)
  else if ((0xE0 <=? b0) && (b0 <=? 0xEF))%Z then Some (3, Z.land b0 0x0F, 0x800%Z)
  else if ((0xF0 <=? b0) && (b0 <=? 0xF4))%Z then Some (4, Z.land b0 0x07, 0x10000%Z)
  else None.

(** The continuation bytes: [None] when one is missing or is not 10xxxxxx. *)
Fixpoint conts (k : nat) (s : bytes) (cp : Z) : option Z :=
  match k, s with
  | O, _ => Some cp
  | S k', b :: s' =>
      if (Z.land (b2z b) 0xC0 =? 0x80)%Z
      then conts k' s' (Z.lor (Z.shiftl cp 6) (Z.land (b2z b) 0x3F))
      else None
  | S _, [] => None
  end.

Definition outside (cp min : Z) : bool :=
  ((cp <? min) || (0x10FFFF <? cp) || ((0xD800 <=? cp) && (cp <=? 0xDFFF)))%Z.

(** One turn of the loop of [decode]: the code point and the bytes consumed. *)
Definition decode1 (b : byte) (rest : bytes) : Z * nat :=
  let b0 := b2z b in
  if (b0 <? 0x80)%Z then (b0, 1)
  else match lead b0 with
       | None => (0xFFFD%Z, 1)
       | Some (len, cp0, min) =>
           match conts (len - 1) rest cp0 with
           | Some cp => if outside cp min then (0xFFFD%Z, 1) else (cp, len)
           | None => (0xFFFD%Z, 1)
           end
       end.

Fixpoint decode_loop (fuel : nat) (s : bytes) : u32string :=
  match fuel, s with
  | S n, b :: rest =>
      let '(cp, len) := decode1 b rest in cp :: decode_loop n (drop len s)
  | _, _ => []
  end.

Definition decode (s : bytes) : u32string := decode_loop (length s) s.

(** [append]: the UTF-8 bytes of one code point. *)
Definition enc1 (cp : Z) : bytes :=
  if (cp <? 0x80)%Z then [z2b cp]
  else if (cp <? 0x800)%Z then
    [z2b (Z.lor 0xC0 (Z.shiftr cp 6)); z2b (Z.lor 0x80 (Z.land cp 0x3F))]
  else if (cp <? 0x10000)%Z then
    [z2b (Z.lor 0xE0 (Z.shiftr cp 12)); z2b (Z.lor 0x80 (Z.land (Z.shiftr cp 6) 0x3F));
     z2b (Z.lor 0x80 (Z.land cp 0x3F))]
  else
    [z2b (Z.lor 0xF0 (Z.shiftr cp 18)); z2b (Z.lor 0x80 (Z.land (Z.shiftr cp 12) 0x3F));
     z2b (Z.lor 0x80 (Z.land (Z.shiftr cp 6) 0x3F)); z2b (Z.lor 0x80 (Z.land cp 0x3F))].

Definition append (out : bytes) (cp : Z) : bytes := out ++ enc1 cp.

Definition encode (s : u32string) : bytes := foldl append [] s.

Definition length_cp (s : bytes) : nat := length (decode s).

(** [strictUtf8]: the decoder of the text preview, which rejects bad input. *)
Fixpoint strict_loop (fuel : nat) (s : bytes) : option u32string :=
  match fuel, s with
  | S n, b :: rest =>
      let b0 := b2z b in
      if (b0 <? 0x80)%Z then (cons b0) <$> strict_loop n rest
      else match lead b0 with
           | None => None
           | Some (len, cp0, min) =>
               match conts (len - 1) rest cp0 with
               | Some cp => if outside cp min then None
                            else (cons cp) <$> strict_loop n (drop (len - 1) rest)
               | None => None
               end
           end
  | _, _ => Some []
  end.

Definition strictUtf8 (s : bytes) : option u32string := strict_loop (length s) s.

(** *** Letter case *)

(** Pairs upper to lower: [(lo, hi, delta, step)]. *)
Definition kCaseRanges : list (Z * Z * Z * Z) := (
  [ (0x0041, 0x005A, 32, 1);   (0x00C0, 0x00D6, 32, 1);   (0x00D8, 0x00DE, 32, 1);
    (0x0100, 0x012E, 1, 2);    (0x0132, 0x0136, 1, 2);    (0x0139, 0x0147, 1, 2);
    (0x014A, 0x0176, 1, 2);    (0x0179, 0x017D, 1, 2);    (0x01CD, 0x01DB, 1, 2);
    (0x01DE, 0x01EE, 1, 2);    (0x01F8, 0x021E, 1, 2);    (0x0222, 0x0232, 1, 2);
    (0x0386, 0x0386, 38, 1);   (0x0388, 0x038A, 37, 1);   (0x038C, 0x038C, 64, 1);
    (0x038E, 0x038F, 63, 1);   (0x0391, 0x03A1, 32, 1);   (0x03A3, 0x03AB, 32, 1);
    (0x03D8, 0x03EE, 1, 2);    (0x0400, 0x040F, 80, 1);   (0x0410, 0x042F, 32, 1);
    (0x0460, 0x0480, 1, 2);    (0x048A, 0x04BE, 1, 2);    (0x04C0, 0x04C0, 15, 1);
    (0x04C1, 0x04CD, 1, 2);    (0x04D0, 0x052E, 1, 2);    (0x0531, 0x0556, 48, 1);
    (0x1E00, 0x1E94, 1, 2);    (0x1EA0, 0x1EFE, 1, 2);    (0x2160, 0x216F, 16, 1);
    (0x24B6, 0x24CF, 26, 1);   (0xFF21, 0xFF3A, 32, 1) ])%Z.

Definition in_case_range (cp : Z) (r : Z * Z * Z * Z) : bool :=
  let '(lo, hi, _, step) := r in
  (if (lo <=? cp) && (cp <=? hi) then (cp - lo) `mod` step =? 0 else false)%Z.

Fixpoint lower_in (rs : list (Z * Z * Z * Z)) (cp : Z) : Z :=
  match rs with
  | [] => cp
  | r :: rs' => if in_case_range cp r then (cp + r.1.2)%Z else lower_in rs' cp
  end.

Definition lower (cp : Z) : Z :=
  if (cp <? 0x80)%Z then (if ((65 <=? cp) && (cp <=? 90))%Z then (cp + 32)%Z else cp)
  else if (cp =? 0x0178)%Z then 0x00FF%Z
  else if (cp =? 0x1E9E)%Z then 0x00DF%Z
  else lower_in kCaseRanges cp.

(** [base] is computed in [char32_t]; the guard [cp >= delta] keeps it from
    wrapping. *)
Fixpoint upper_in (rs : list (Z * Z * Z * Z)) (cp : Z) : Z :=
  match rs with
  | [] => cp
  | r :: rs' =>
      let base := (cp - r.1.2)%Z in
      if (r.1.2 <=? cp)%Z && in_case_range base r then base else upper_in rs' cp
  end.

Definition upper (cp : Z) : Z :=
  if (cp <? 0x80)%Z then (if ((97 <=? cp) && (cp <=? 122))%Z then (cp - 32)%Z else cp)
  else if (cp =? 0x00FF)%Z then 0x0178%Z
  else if (cp =? 0x00B5)%Z then 0x039C%Z
  else if (cp =? 0x03C2)%Z then 0x03A3%Z
  else upper_in kCaseRanges cp.

Definition toLower (s : bytes) : bytes := foldl (fun out cp => append out (lower cp)) [] (decode s).

Definition toUpper (s : bytes) : bytes :=
  foldl (fun out cp => if (cp =? 0x00DF)%Z then out ++ #"SS" else append out (upper cp))
    [] (decode s).

(** *** Letters, digits, spaces *)

Definition kRanges : list (Z * Z) := (
  [ (0x30, 0x39); (0x41, 0x5A); (0x61, 0x7A); (0xAA, 0xAA); (0xB2, 0xB3); (0xB5, 0xB5); (0xB9, 0xBA);
    (0xBC, 0xBE); (0xC0, 0xD6); (0xD8, 0xF6); (0xF8, 0x2C1); (0x2C6, 0x2D1); (0x2E0, 0x2E4);
    (0x370, 0x374); (0x376, 0x37D); (0x37F, 0x37F); (0x386, 0x386); (0x388, 0x3F5); (0x3F7, 0x481);
    (0x48A, 0x52F); (0x531, 0x556); (0x560, 0x588); (0x5D0, 0x5EA); (0x620, 0x64A); (0x660, 0x669);
    (0x66E, 0x6D3); (0x6F0, 0x6FC); (0x900, 0xDFF); (0xE01, 0xE30); (0x10A0, 0x10FF); (0x1100, 0x11FF);
    (0x1E00, 0x1FBC); (0x2070, 0x2070); (0x2074, 0x2079); (0x2080, 0x2089); (0x2150, 0x2189);
    (0x2460, 0x249B); (0x24EA, 0x24FF); (0x2776, 0x2793); (0x3005, 0x3007); (0x3021, 0x3029);
    (0x3031, 0x3035); (0x3038, 0x303C); (0x3041, 0x3096); (0x309D, 0x309F); (0x30A1, 0x30FA);
    (0x30FC, 0x30FF); (0x3105, 0x312F); (0x3131, 0x318E); (0x3400, 0x4DBF); (0x4E00, 0x9FFF);
    (0xA000, 0xA48C); (0xAC00, 0xD7A3); (0xF900, 0xFAFF); (0xFF10, 0xFF19); (0xFF21, 0xFF3A);
    (0xFF41, 0xFF5A); (0xFF66, 0xFFDC); (0x20000, 0x3134F) ])%Z.

Fixpoint in_ranges (rs : list (Z * Z)) (c : Z) : bool :=
  match rs with
  | [] => false
  | (lo, hi) :: rs' =>
      if (c <? lo)%Z then false else if (c <=? hi)%Z then true else in_ranges rs' c
  end.

Definition isLetterOrNumber (c : Z) : bool := in_ranges kRanges c.

Definition isJsSpace (c : Z) : bool :=
  (((0x09 <=? c) && (c <=? 0x0D)) || (c =? 0x20) || (c =? 0xA0) || (c =? 0x1680)
   || ((0x2000 <=? c) && (c <=? 0x200A)) || (c =? 0x2028) || (c =? 0x2029)
   || (c =? 0x202F) || (c =? 0x205F) || (c =? 0x3000) || (c =? 0xFEFF))%Z.

(** [while (a < b && p(s[a])) ++a]: the list without its longest prefix of [p]. *)
Fixpoint drop_while {A} (p : A -> bool) (s : list A) : list A :=
  match s with
  | x :: s' => if p x then drop_while p s' else s
  | [] => []
  end.
(** The same from the other end. *)
Definition drop_while_end {A} (p : A -> bool) (s : list A) : list A :=
  reverse (drop_while p (reverse s)).

Definition trim32 (s : u32string) : u32string :=
  drop_while_end isJsSpace (drop_while isJsSpace s).

Definition trim (s : bytes) : bytes := encode (trim32 (decode s)).


(** *** Lemmas *)

(** Unicode scalar values. *)
Definition scalar (cp : Z) : bool := negb (outside cp 0).

Lemma scalar_spec (cp : Z) :
  scalar cp = true <-> (0 <= cp < 0xD800 \/ 0xDFFF < cp <= 0x10FFFF)%Z.
Proof. unfold scalar, outside. lia. Qed.

Lemma cont_byte (x : Z) : (0 <= x < 64)%Z ->
  (Z.lor 0x80 x = 128 + x /\ Z.land (128 + x) 0xC0 = 0x80 /\ Z.land (128 + x) 0x3F = x)%Z.
Proof.
  intros H.
  assert ((Z.lor 0x80 x =? 128 + x) && (Z.land (128 + x) 0xC0 =? 0x80)
          && (Z.land (128 + x) 0x3F =? x) = true)%Z as E; [|lia].
  revert x H. apply (z_forallb 64 (fun x => (Z.lor 0x80 x =? 128 + x)
    && (Z.land (128 + x) 0xC0 =? 0x80) && (Z.land (128 + x) 0x3F =? x))%Z).
  by vm_compute.
Qed.

Lemma lead2_byte (x : Z) : (2 <= x < 32)%Z ->
  Z.lor 0xC0 x = (192 + x)%Z /\ lead (192 + x) = Some (2, x, 0x80%Z).
Proof.
  intros H.
  assert (implb (2 <=? x) ((Z.lor 0xC0 x =? 192 + x)
    && bool_decide (lead (192 + x) = Some (2%nat, x, 0x80))) = true)%Z as E.
  { assert (0 <= x < Z.of_nat 32)%Z as H' by lia. clear H. revert x H'.
    apply (z_forallb 32 (fun x => implb (2 <=? x) ((Z.lor 0xC0 x =? 192 + x)
      && bool_decide (lead (192 + x) = Some (2%nat, x, 0x80))))%Z). by vm_compute. }
  destruct (Z.leb_spec 2 x); [|lia]. cbn [implb] in E.
  rewrite andb_true_iff, bool_decide_eq_true in E. split; [lia|tauto].
Qed.

Lemma lead3_byte (x : Z) : (0 <= x < 16)%Z ->
  Z.lor 0xE0 x = (224 + x)%Z /\ lead (224 + x) = Some (3, x, 0x800%Z).
Proof.
  intros H.
  assert ((Z.lor 0xE0 x =? 224 + x) && bool_decide (lead (224 + x) = Some (3%nat, x, 0x800))
    = true)%Z as E.
  { revert x H. apply (z_forallb 16 (fun x => (Z.lor 0xE0 x =? 224 + x)
      && bool_decide (lead (224 + x) = Some (3%nat, x, 0x800)))%Z). by vm_compute. }
  rewrite andb_true_iff, bool_decide_eq_true in E. split; [lia|tauto].
Qed.

Lemma lead4_byte (x : Z) : (0 <= x < 5)%Z ->
  Z.lor 0xF0 x = (240 + x)%Z /\ lead (240 + x) = Some (4, x, 0x10000%Z).
Proof.
  intros H.
  assert ((Z.lor 0xF0 x =? 240 + x) && bool_decide (lead (240 + x) = Some (4%nat, x, 0x10000))
    = true)%Z as E.
  { revert x H. apply (z_forallb 5 (fun x => (Z.lor 0xF0 x =? 240 + x)
      && bool_decide (lead (240 + x) = Some (4%nat, x, 0x10000)))%Z). by vm_compute. }
  rewrite andb_true_iff, bool_decide_eq_true in E. split; [lia|tauto].
Qed.

Lemma cont_or (x : Z) : (0 <= x < 64)%Z -> Z.lor 0x80 x = (128 + x)%Z.
Proof. apply cont_byte. Qed.
Lemma lead2_or (x : Z) : (2 <= x < 32)%Z -> Z.lor 0xC0 x = (192 + x)%Z.
Proof. apply lead2_byte. Qed.
Lemma lead3_or (x : Z) : (0 <= x < 16)%Z -> Z.lor 0xE0 x = (224 + x)%Z.
Proof. apply lead3_byte. Qed.
Lemma lead4_or (x : Z) : (0 <= x < 5)%Z -> Z.lor 0xF0 x = (240 + x)%Z.
Proof. apply lead4_byte. Qed.
Lemma lead2_lead (x : Z) : (2 <= x < 32)%Z -> lead (192 + x) = Some (2, x, 0x80%Z).
Proof. apply lead2_byte. Qed.
Lemma lead3_lead (x : Z) : (0 <= x < 16)%Z -> lead (224 + x) = Some (3, x, 0x800%Z).
Proof. apply lead3_byte. Qed.
Lemma lead4_lead (x : Z) : (0 <= x < 5)%Z -> lead (240 + x) = Some (4, x, 0x10000%Z).
Proof. apply lead4_byte. Qed.

Lemma conts_cons (k : nat) (x : Z) (s : bytes) (cp : Z) : (0 <= x < 64)%Z ->
  conts (S k) (z2b (128 + x) :: s) cp = conts k s (cp * 64 + x).
Proof.
  intros H. destruct (cont_byte x H) as (_ & E1 & E2). cbn [conts].
  rewrite b2z_z2b_small by lia. rewrite E1, E2.
  rewrite lor_shiftl_add by (zpow; lia). by zpow.
Qed.

(** The bytes of a code point, as arithmetic. *)
Lemma enc1_cases (cp : Z) : (0 <= cp <= 0x10FFFF)%Z -> enc1 cp =
  if (cp <? 0x80)%Z then [z2b cp]
  else if (cp <? 0x800)%Z then [z2b (192 + cp `div` 64); z2b (128 + cp `mod` 64)]
  else if (cp <? 0x10000)%Z then
    [z2b (224 + cp `div` 4096); z2b (128 + (cp `div` 64) `mod` 64); z2b (128 + cp `mod` 64)]
  else
    [z2b (240 + cp `div` 262144); z2b (128 + (cp `div` 4096) `mod` 64);
     z2b (128 + (cp `div` 64) `mod` 64); z2b (128 + cp `mod` 64)].
Proof.
  intros H. unfold enc1.
  rewrite !shiftr_div by lia. rewrite !(land_ones_mod _ 6) by lia. zpow.
  rewrite !cont_or by zdiv.
  destruct (Z.ltb_spec cp 0x80); [done|].
  destruct (Z.ltb_spec cp 0x800).
  { by rewrite lead2_or by zdiv. }
  destruct (Z.ltb_spec cp 0x10000).
  { by rewrite lead3_or by zdiv. }
  by rewrite lead4_or by zdiv.
Qed.

Lemma outside_false (cp min : Z) : scalar cp = true -> (min <= cp)%Z -> outside cp min = false.
Proof. intros ? ?. apply scalar_spec in H. unfold outside. lia. Qed.

(** The decoder reads back the bytes of a scalar value, whatever follows. *)
Lemma decode1_enc1 (cp : Z) (rest : bytes) : scalar cp = true ->
  exists b tail, enc1 cp ++ rest = b :: tail /\ length (enc1 cp) <> 0 /\
    decode1 b tail = (cp, length (enc1 cp)).
Proof.
  intros Hs. pose proof (proj1 (scalar_spec cp) Hs) as Hr. rewrite enc1_cases by lia.
  destruct (Z.ltb_spec cp 0x80) as [|H1].
  { eexists _, _. split; [done|]. split; [done|]. unfold decode1.
    rewrite b2z_z2b_small by lia. by destruct (Z.ltb_spec cp 0x80); [|lia]. }
  assert (forall b x, (192 <= x < 256)%Z -> b = z2b x -> (b2z b <? 0x80)%Z = false) as Hlead.
  { intros b x Hx ->. rewrite b2z_z2b_small by lia. lia. }
  destruct (Z.ltb_spec cp 0x800) as [|H2].
  { eexists _, _. split; [done|]. split; [done|]. unfold decode1.
    erewrite Hlead; [|shelve|done]. rewrite b2z_z2b_small by zdiv.
    rewrite lead2_lead by zdiv. cbn [Nat.sub app].
    rewrite conts_cons by zdiv. cbn [conts].
    replace (cp `div` 64 * 64 + cp `mod` 64)%Z with cp by zdiv.
    by rewrite outside_false by (done || lia). Unshelve. zdiv. }
  destruct (Z.ltb_spec cp 0x10000) as [|H3].
  { eexists _, _. split; [done|]. split; [done|]. unfold decode1.
    erewrite Hlead; [|shelve|done]. rewrite b2z_z2b_small by zdiv.
    rewrite lead3_lead by zdiv. cbn [Nat.sub app].
    rewrite !conts_cons by zdiv. cbn [conts].
    replace ((cp `div` 4096 * 64 + (cp `div` 64) `mod` 64) * 64 + cp `mod` 64)%Z with cp by zdiv.
    by rewrite outside_false by (done || lia). Unshelve. zdiv. }
  eexists _, _. split; [done|]. split; [done|]. unfold decode1.
  erewrite Hlead; [|shelve|done]. rewrite b2z_z2b_small by zdiv.
  rewrite lead4_lead by zdiv. cbn [Nat.sub app].
  rewrite !conts_cons by zdiv. cbn [conts].
  replace (((cp `div` 262144 * 64 + (cp `div` 4096) `mod` 64) * 64
            + (cp `div` 64) `mod` 64) * 64 + cp `mod` 64)%Z with cp by zdiv.
  by rewrite outside_false by (done || lia). Unshelve. zdiv.
Qed.

Lemma foldl_append (s : u32string) (out : bytes) :
  foldl append out s = out ++ (cp ← s; enc1 cp).
Proof.
  revert out. induction s as [|cp s IH]; intros out; cbn; [by rewrite app_nil_r|].
  rewrite IH. unfold append. by rewrite <- app_assoc.
Qed.

Lemma encode_cons (cp : Z) (s : u32string) : encode (cp :: s) = enc1 cp ++ encode s.
Proof. unfold encode. by rewrite !foldl_append. Qed.

Lemma encode_app (s t : u32string) : encode (s ++ t) = encode s ++ encode t.
Proof. induction s as [|cp s IH]; [done|]. rewrite <- app_comm_cons, !encode_cons, IH. by rewrite app_assoc. Qed.

Lemma decode1_len (b : byte) (rest : bytes) : 1 <= (decode1 b rest).2.
Proof.
  unfold decode1. repeat case_match; cbn; try lia.
  unfold lead in *. repeat case_match; simplify_eq; lia.
Qed.

(** Enough fuel gives the result: the loop consumes at least one byte a turn. *)
Lemma decode_loop_fuel (n : nat) : forall s, length s <= n -> decode_loop n s = decode s.
Proof.
  assert (forall m n s, length s <= m -> length s <= n -> decode_loop m s = decode_loop n s) as E.
  { induction m as [|m IH]; intros [|n'] [|b rest]; cbn; try done; try lia.
    intros H1 H2. pose proof (decode1_len b rest) as HL.
    destruct (decode1 b rest) as [cp len]. cbn in HL. f_equal.
    apply IH; destruct len as [|len]; try lia; cbn; rewrite length_drop; lia. }
  intros s H. by apply E.
Qed.

Lemma decode_cons (b : byte) (rest : bytes) :
  decode (b :: rest) = (decode1 b rest).1 :: decode (drop ((decode1 b rest).2 - 1) rest).
Proof.
  unfold decode at 1. cbn [length decode_loop]. pose proof (decode1_len b rest) as HL.
  destruct (decode1 b rest) as [cp len]. cbn [fst snd] in *. f_equal.
  destruct len as [|len]; [lia|]. cbn [drop]. rewrite Nat.sub_succ, Nat.sub_0_r.
  apply decode_loop_fuel. rewrite length_drop. lia.
Qed.

Lemma decode_enc1 (cp : Z) (rest : bytes) : scalar cp = true ->
  decode (enc1 cp ++ rest) = cp :: decode rest.
Proof.
  intros H. destruct (decode1_enc1 cp rest H) as (b & tail & E & Hn & Hd).
  rewrite E, decode_cons, Hd. cbn [fst snd]. f_equal. f_equal.
  destruct (enc1 cp) as [|b' t] eqn:Ec; [done|]. cbn in *. simplify_eq.
  rewrite Nat.sub_0_r. apply drop_app_length.
Qed.

Lemma decode_encode_app (cps : u32string) (rest : bytes) :
  Forall (fun cp => scalar cp = true) cps -> decode (encode cps ++ rest) = cps ++ decode rest.
Proof.
  induction 1 as [|cp s H1 H2 IH]; [done|].
  rewrite encode_cons, <- app_assoc, decode_enc1 by done. by rewrite IH.
Qed.

Lemma decode_scalar1 (b : byte) (rest : bytes) : scalar (decode1 b rest).1 = true.
Proof.
  apply scalar_spec. unfold decode1. pose proof (b2z_range b).
  destruct (Z.ltb_spec (b2z b) 0x80); cbn [fst]; [lia|].
  destruct (lead (b2z b)) as [[[len cp0] min]|] eqn:E; [|cbn; lia].
  destruct (conts (len - 1) rest cp0) as [cp|]; [|cbn; lia].
  destruct (outside cp min) eqn:Eo; cbn [fst]; [lia|].
  assert (0 <= min)%Z by (unfold lead in E; repeat case_match; simplify_eq; lia).
  unfold outside in Eo. lia.
Qed.

Lemma decode_scalar (s : bytes) : Forall (fun cp => scalar cp = true) (decode s).
Proof.
  unfold decode. generalize (length s) as n. intros n. revert s.
  induction n as [|n IH]; intros [|b rest]; cbn; try by constructor.
  pose proof (decode_scalar1 b rest). destruct (decode1 b rest) as [cp len].
  by constructor; [|apply IH].
Qed.

Lemma decode_length (s : bytes) : length (decode s) <= length s.
Proof.
  unfold decode. assert (forall n s, length (decode_loop n s) <= n) as E; [|apply E].
  induction n as [|n IH]; intros [|b rest]; cbn; try lia.
  destruct (decode1 b rest) as [cp len]. cbn. specialize (IH (drop len (b :: rest))). lia.
Qed.

(** *** Properties *)

Lemma decode_encode (cps : u32string) :
  Forall (fun cp => scalar cp = true) cps -> decode (encode cps) = cps.
Proof.
  intros H. rewrite <- (app_nil_r (encode cps)), decode_encode_app by done. apply app_nil_r.
Qed.

(** Property (UTF-8): decoding gives scalar values only, never more of them
    than bytes, and decoding what was encoded gives the text back. *)
Theorem utf8_roundtrip (s : bytes) (cps : u32string) :
  Forall (fun cp => scalar cp = true) (decode s) /\ length (decode s) <= length s /\
  (Forall (fun cp => scalar cp = true) cps -> decode (encode cps) = cps) /\
  decode (encode (decode s)) = decode s.
Proof.
  split; [apply decode_scalar|]. split; [apply decode_length|].
  split; [apply decode_encode|apply decode_encode, decode_scalar].
Qed.


(** *** Strict decoding *)

Lemma conts_inv (k : nat) (s : bytes) (cp r : Z) : conts (S k) s cp = Some r ->
  exists x s', (0 <= x < 64)%Z /\ s = z2b (128 + x) :: s' /\ conts k s' (cp * 64 + x) = Some r.
Proof.
  destruct s as [|b s]; [done|]. intros H. exists (Z.land (b2z b) 0x3F), s.
  assert (implb (Z.land (b2z b) 0xC0 =? 0x80)
    ((0 <=? Z.land (b2z b) 0x3F) && (Z.land (b2z b) 0x3F <? 64)
     && (b2z b =? 128 + Z.land (b2z b) 0x3F)) = true)%Z as E.
  { revert b H. intros b _. revert b. apply byte_forallb. by vm_compute. }
  destruct (Z.eqb_spec (Z.land (b2z b) 0xC0) 0x80) as [E1|E1].
  - cbn [implb] in E. assert (b = z2b (128 + Z.land (b2z b) 0x3F)) as Eb.
    { apply b2z_inj. rewrite b2z_z2b_small by lia. lia. }
    split; [lia|]. split; [by rewrite <- Eb|]. revert H.
    rewrite Eb at 1. rewrite conts_cons by lia. done.
  - cbn [conts] in H. destruct (Z.eqb_spec (Z.land (b2z b) 0xC0) 0x80); done.
Qed.

Lemma lead_inv (b0 cp0 min : Z) (len : nat) : (0 <= b0 < 256)%Z -> lead b0 = Some (len, cp0, min) ->
  (len = 2 /\ min = 0x80%Z /\ (2 <= cp0 < 32)%Z /\ b0 = (192 + cp0)%Z) \/
  (len = 3 /\ min = 0x800%Z /\ (0 <= cp0 < 16)%Z /\ b0 = (224 + cp0)%Z) \/
  (len = 4 /\ min = 0x10000%Z /\ (0 <= cp0 < 5)%Z /\ b0 = (240 + cp0)%Z).
Proof.
  intros Hb. unfold lead.
  destruct ((0xC2 <=? b0) && (b0 <=? 0xDF))%Z eqn:E1.
  { intros H. simplify_eq. left.
    pose proof (lead2_lead (b0 - 192) ltac:(lia)) as L. unfold lead in L.
    replace (192 + (b0 - 192))%Z with b0 in L by lia. rewrite E1 in L. simplify_eq. lia. }
  destruct ((0xE0 <=? b0) && (b0 <=? 0xEF))%Z eqn:E2.
  { intros H. simplify_eq. right; left.
    pose proof (lead3_lead (b0 - 224) ltac:(lia)) as L. unfold lead in L.
    replace (224 + (b0 - 224))%Z with b0 in L by lia. rewrite E1, E2 in L. simplify_eq. lia. }
  destruct ((0xF0 <=? b0) && (b0 <=? 0xF4))%Z eqn:E3; [|done].
  intros H. simplify_eq. right; right.
  pose proof (lead4_lead (b0 - 240) ltac:(lia)) as L. unfold lead in L.
  replace (240 + (b0 - 240))%Z with b0 in L by lia. rewrite E1, E2, E3 in L. simplify_eq. lia.
Qed.

(** A sequence the checks accept is the encoding of its code point. *)
Lemma sequence_enc1 (b : byte) (rest : bytes) (len : nat) (cp0 min cp : Z) :
  lead (b2z b) = Some (len, cp0, min) -> conts (len - 1) rest cp0 = Some cp ->
  outside cp min = false -> enc1 cp ++ drop (len - 1) rest = b :: rest /\ scalar cp = true.
Proof.
  intros Hl Hc Ho. pose proof (b2z_range b) as Hb.
  assert (forall x, b2z b = x -> (0 <= x < 256)%Z -> z2b x = b) as Eb.
  { intros x <- _. apply z2b_b2z. }
  assert (0 <= min)%Z as Hmin by (unfold lead in Hl; repeat case_match; simplify_eq; lia).
  assert (scalar cp = true) as Hs by (unfold outside in Ho; apply scalar_spec; lia).
  assert (min <= cp <= 0x10FFFF)%Z as Hcp by (unfold outside in Ho; lia).
  split; [|done]. rewrite enc1_cases by lia.
  destruct (lead_inv _ _ _ _ Hb Hl) as [(-> & -> & Hx & E)|[(-> & -> & Hx & E)|(-> & -> & Hx & E)]];
    cbn [Nat.sub] in Hc.
  - apply conts_inv in Hc as (x1 & s1 & H1 & -> & Hc). cbn [conts] in Hc. simplify_eq.
    destruct (Z.ltb_spec (cp0 * 64 + x1) 0x80); [lia|].
    destruct (Z.ltb_spec (cp0 * 64 + x1) 0x800); [|lia]. cbn [app Nat.sub drop].
    f_equal; [apply Eb; zdiv|]. f_equal. f_equal. zdiv.
  - apply conts_inv in Hc as (x1 & s1 & H1 & -> & Hc).
    apply conts_inv in Hc as (x2 & s2 & H2 & -> & Hc). cbn [conts] in Hc. simplify_eq.
    destruct (Z.ltb_spec ((cp0 * 64 + x1) * 64 + x2) 0x80); [lia|].
    destruct (Z.ltb_spec ((cp0 * 64 + x1) * 64 + x2) 0x800); [lia|].
    destruct (Z.ltb_spec ((cp0 * 64 + x1) * 64 + x2) 0x10000); [|lia]. cbn [app Nat.sub drop].
    f_equal; [apply Eb; zdiv|]. f_equal; [f_equal; zdiv|]. f_equal. f_equal. zdiv.
  - apply conts_inv in Hc as (x1 & s1 & H1 & -> & Hc).
    apply conts_inv in Hc as (x2 & s2 & H2 & -> & Hc).
    apply conts_inv in Hc as (x3 & s3 & H3 & -> & Hc). cbn [conts] in Hc. simplify_eq.
    destruct (Z.ltb_spec (((cp0 * 64 + x1) * 64 + x2) * 64 + x3) 0x80); [lia|].
    destruct (Z.ltb_spec (((cp0 * 64 + x1) * 64 + x2) * 64 + x3) 0x800); [lia|].
    destruct (Z.ltb_spec (((cp0 * 64 + x1) * 64 + x2) * 64 + x3) 0x10000); [lia|].
    cbn [app Nat.sub drop].
    f_equal; [apply Eb; zdiv|]. f_equal; [f_equal; zdiv|]. f_equal; [f_equal; zdiv|].
    f_equal. f_equal. zdiv.
Qed.

Lemma strict_loop_sound (n : nat) : forall s cps, length s <= n ->
  strict_loop n s = Some cps -> encode cps = s /\ Forall (fun cp => scalar cp = true) cps.
Proof.
  induction n as [|n IH]; intros [|b rest] cps; cbn [strict_loop length]; intros Hn H;
    simplify_eq; try by split; [|constructor]. 1: lia.
  destruct (Z.ltb_spec (b2z b) 0x80).
  - destruct (strict_loop n rest) as [l|] eqn:E; [|done]. cbn in H. simplify_eq.
    apply IH in E as [<- HF]; [|lia]. rewrite encode_cons. pose proof (b2z_range b). split.
    + unfold enc1. destruct (Z.ltb_spec (b2z b) 0x80); [|lia]. cbn. by rewrite z2b_b2z.
    + constructor; [|done]. apply scalar_spec. lia.
  - destruct (lead (b2z b)) as [[[len cp0] min]|] eqn:El; [|done].
    destruct (conts (len - 1) rest cp0) as [cp|] eqn:Ec; [|done].
    destruct (outside cp min) eqn:Eo; [done|].
    destruct (strict_loop n (drop (len - 1) rest)) as [l|] eqn:E; [|done]. cbn in H. simplify_eq.
    destruct (sequence_enc1 b rest len cp0 min cp El Ec Eo) as [Eq Hs].
    apply IH in E as [E' HF]; [|rewrite length_drop; lia].
    rewrite encode_cons. split; [|by constructor]. by rewrite E'.
Qed.

Lemma strict_loop_enc1 (n : nat) (cp : Z) (rest : bytes) : scalar cp = true ->
  strict_loop (S n) (enc1 cp ++ rest) = (cons cp) <$> strict_loop n rest.
Proof.
  intros Hs. destruct (decode1_enc1 cp rest Hs) as (b & tail & E & Hn & Hd).
  assert (drop (length (enc1 cp) - 1) tail = rest) as Hdrop.
  { destruct (enc1 cp) as [|b' t]; [done|]. cbn in *. simplify_eq. rewrite Nat.sub_0_r.
    apply drop_app_length. }
  rewrite E. cbn [strict_loop]. revert Hd. unfold decode1.
  destruct (Z.ltb_spec (b2z b) 0x80).
  { intros Hd. injection Hd as H1 H2. rewrite <- H2 in Hdrop.
    rewrite drop_0 in Hdrop. by rewrite Hdrop, H1. }
  pose proof (b2z_range b) as Hb. pose proof (proj1 (scalar_spec cp) Hs) as Hr.
  assert (forall l, (0xFFFD%Z, 1) = (cp, l) -> l = 1 -> length (enc1 cp) <> 1) as Hbad.
  { intros l Hq _. simplify_eq. done. }
  destruct (lead (b2z b)) as [[[len cp0] min]|] eqn:El.
  2: { intros Hd. exfalso. eapply Hbad; [exact Hd| |]; injection Hd; congruence. }
  destruct (conts (len - 1) tail cp0) as [cp'|].
  2: { intros Hd. exfalso. eapply Hbad; [exact Hd| |]; injection Hd; congruence. }
  destruct (outside cp' min).
  { intros Hd. exfalso. eapply Hbad; [exact Hd| |]; injection Hd; congruence. }
  intros Hd. injection Hd as -> ->. by rewrite Hdrop.
Qed.

Lemma enc1_length (cp : Z) : 1 <= length (enc1 cp).
Proof. unfold enc1. repeat case_match; cbn; lia. Qed.

Lemma strict_loop_encode (cps : u32string) (n : nat) :
  Forall (fun cp => scalar cp = true) cps -> length (encode cps) <= n ->
  strict_loop n (encode cps) = Some cps.
Proof.
  intros H. revert n. induction H as [|cp l H1 H2 IH]; intros n Hn; [by destruct n|].
  rewrite encode_cons in *. rewrite length_app in Hn. pose proof (enc1_length cp).
  destruct n as [|n]; [lia|]. rewrite strict_loop_enc1 by done. by rewrite IH by lia.
Qed.

(** Property (strict UTF-8): the strict decoder accepts exactly the encodings
    of sequences of scalar values, and inverts the encoder on them. *)
Theorem strictUtf8_iff (s : bytes) (cps : u32string) :
  strictUtf8 s = Some cps <-> s = encode cps /\ Forall (fun cp => scalar cp = true) cps.
Proof.
  split.
  - intros H. apply strict_loop_sound in H as [<- H]; done.
  - intros [-> H]. unfold strictUtf8. by apply strict_loop_encode.
Qed.

(** *** Case folding *)

Lemma lower_in_above (cp : Z) : (0xFF3A < cp)%Z -> lower_in kCaseRanges cp = cp.
Proof.
  intros H. assert (Forall (fun r => (r.1.1.2 <= 0xFF3A)%Z) kCaseRanges) as HF.
  { apply List.Forall_forall. intros r Hr.
    assert (forallb (fun r => r.1.1.2 <=? 0xFF3A)%Z kCaseRanges = true) as E by by vm_compute.
    rewrite forallb_forall in E. specialize (E r Hr). lia. }
  induction HF as [|[[[lo hi] d] st] l H1 H2 IH]; cbn [lower_in]; [done|].
  unfold in_case_range. cbn in H1. by replace (cp <=? hi)%Z with false by lia;
    rewrite andb_false_r.
Qed.

Lemma lower_small (cp : Z) : (0 <= cp < 0x10000)%Z ->
  lower (lower cp) = lower cp /\ (scalar cp = true -> scalar (lower cp) = true).
Proof.
  intros H. assert ((lower (lower cp) =? lower cp)%Z && implb (scalar cp) (scalar (lower cp)) = true) as E.
  { revert cp H. apply (z_forallb2 256 256
      (fun cp => (lower (lower cp) =? lower cp)%Z && implb (scalar cp) (scalar (lower cp)))); [lia|].
    by vm_compute. }
  apply andb_true_iff in E as [E1 E2]. split; [lia|]. intros Hs. by rewrite Hs in E2.
Qed.

Lemma lower_above (cp : Z) : (0x10000 <= cp)%Z -> lower cp = cp.
Proof.
  intros H. unfold lower. destruct (Z.ltb_spec cp 0x80); [lia|].
  destruct (Z.eqb_spec cp 0x0178); [lia|]. destruct (Z.eqb_spec cp 0x1E9E); [lia|].
  apply lower_in_above. lia.
Qed.

Lemma lower_idem (cp : Z) : (0 <= cp)%Z -> lower (lower cp) = lower cp.
Proof.
  intros H. destruct (decide (cp < 0x10000)%Z); [by apply lower_small|].
  rewrite (lower_above cp) by lia. apply lower_above. lia.
Qed.

Lemma lower_scalar (cp : Z) : scalar cp = true -> scalar (lower cp) = true.
Proof.
  intros H. pose proof (proj1 (scalar_spec cp) H).
  destruct (decide (cp < 0x10000)%Z); [apply lower_small; [lia|done]|].
  by rewrite lower_above by lia.
Qed.

Lemma toLower_encode (s : bytes) : toLower s = encode (lower <$> decode s).
Proof.
  unfold toLower, encode. generalize (@nil byte). induction (decode s) as [|cp l IH]; cbn; [done|].
  intros out. apply IH.
Qed.

Lemma lower_decode_scalar (s : bytes) : Forall (fun cp => scalar cp = true) (lower <$> decode s).
Proof.
  apply Forall_fmap. eapply List.Forall_impl; [|apply decode_scalar]. apply lower_scalar.
Qed.

Lemma decode_toLower (s : bytes) : decode (toLower s) = lower <$> decode s.
Proof. rewrite toLower_encode. apply decode_encode, lower_decode_scalar. Qed.

(** Property (case folding): folding a text to lower case is idempotent, it
    acts code point by code point, and it keeps the text valid. *)
Theorem toLower_idempotent (s : bytes) :
  toLower (toLower s) = toLower s /\ decode (toLower s) = lower <$> decode s /\
  strictUtf8 (toLower s) = Some (lower <$> decode s).
Proof.
  split; [|split; [apply decode_toLower|]].
  - rewrite (toLower_encode (toLower s)), decode_toLower, toLower_encode. f_equal.
    rewrite <- list_fmap_compose. apply list_fmap_ext. intros i cp Hcp. cbn.
    apply lower_idem. apply list_elem_of_lookup_2 in Hcp.
    pose proof (decode_scalar s) as HF. rewrite List.Forall_forall in HF.
    apply list_elem_of_In in Hcp. specialize (HF cp Hcp). apply scalar_spec in HF. lia.
  - rewrite toLower_encode. apply strict_loop_encode; [|lia]. apply lower_decode_scalar.
Qed.
(** *** Bytes of a code point, ends of a text *)

(** A code point is one low byte, or a lead and one to three continuations. *)
Lemma enc1_bytes (c : Z) : scalar c = true ->
  ((0 <= c < 0x80)%Z /\ enc1 c = [z2b c]) \/
  ((0x80 <= c)%Z /\ exists h cs, enc1 c = h :: cs /\ (192 <= b2z h < 0xF5)%Z /\
     Forall (fun b => (128 <= b2z b < 192)%Z) cs /\ 1 <= length cs <= 3).
Proof.
  intros H%scalar_spec. rewrite enc1_cases by lia.
  assert (C : forall x, (128 <= b2z (z2b (128 + x `mod` 64)) < 192)%Z) by (intros x; rewrite b2z_z2b_small by zdiv; zdiv).
  destruct (Z.ltb_spec c 0x80); [left; split; [lia|reflexivity]|right; split; [lia|]].
  destruct (Z.ltb_spec c 0x800); [|destruct (Z.ltb_spec c 0x10000)].
  all: eexists _, _; split; [reflexivity|]; split; [rewrite b2z_z2b_small by zdiv; zdiv|].
  all: split; [repeat (constructor; [apply C|]); constructor|cbn; lia].
Qed.

Lemma dwe_app {A} (p : A -> bool) (s t : list A) : Forall (fun a => p a = true) t ->
  drop_while_end p (s ++ t) = drop_while_end p s.
Proof.
  intros H. unfold drop_while_end. rewrite reverse_app. f_equal.
  apply Forall_reverse in H. induction H as [|a l Ha _ IH]; [reflexivity|]. cbn [app drop_while]. rewrite Ha. exact IH.
Qed.

Lemma dwe_stop {A} (p : A -> bool) (s : list A) (a : A) : p a = false -> drop_while_end p (s ++ [a]) = s ++ [a].
Proof.
  intros H. unfold drop_while_end. rewrite reverse_snoc. cbn [drop_while]. rewrite H.
  rewrite reverse_cons, reverse_involutive. reflexivity.
Qed.

Lemma dwe_keep {A} (p : A -> bool) (s t : list A) (a : A) : p a = false ->
  exists u, drop_while_end p (s ++ a :: t) = s ++ a :: u.
Proof.
  intros H. induction t as [|b t IH] using rev_ind.
  - exists []. apply dwe_stop. exact H.
  - destruct (p b) eqn:E.
    + destruct IH as [u IH]. exists u. change (s ++ a :: t ++ [b]) with (s ++ (a :: t) ++ [b]). rewrite app_assoc, dwe_app; [exact IH|].
      constructor; [exact E|constructor].
    + exists (t ++ [b]). change (s ++ a :: t ++ [b]) with (s ++ (a :: t) ++ [b]). rewrite app_assoc. apply dwe_stop. exact E.
Qed.

(** What [drop_while] and its mirror leave does not begin or end with [p]. *)
Lemma dw_head {A} (p : A -> bool) (s : list A) : match drop_while p s with a :: _ => p a = false | [] => True end.
Proof. induction s as [|a s IH]; [exact I|]. cbn [drop_while]. destruct (p a) eqn:E; [exact IH|exact E]. Qed.

Lemma dwe_spec {A} (p : A -> bool) (s : list A) : exists t, s = drop_while_end p s ++ t /\ Forall (fun a => p a = true) t /\
  (drop_while_end p s = [] \/ exists u a, drop_while_end p s = u ++ [a] /\ p a = false).
Proof.
  induction s as [|a s (t & E & F & L)] using rev_ind; [exists []; repeat split; [constructor|left; reflexivity]|].
  destruct (p a) eqn:Pa.
  - exists (t ++ [a]). rewrite dwe_app by (constructor; [exact Pa|constructor]). rewrite app_assoc, <- E.
    split; [reflexivity|]. split; [apply Forall_app; split; [exact F|constructor; [exact Pa|constructor]]|exact L].
  - exists []. rewrite dwe_stop, app_nil_r by exact Pa. split; [reflexivity|]. split; [constructor|right; eauto].
Qed.

End Unicode.
