(* ===== verification/PlannerUtil.v ===== *)
(** * PlannerUtil: text helpers of the planner

    Module [Util] models [src/sections/planner_util.h]: UTF-8 by code points
    with the lenient [decodeAt], trimming, lower case, day and time keys,
    numbers, [split], [pad2], [floorDiv]. *)

From S2P Require Import Prelude Utf8.

(** ** [std::to_string] of an integer *)
Module Decimal.

Definition digit (d : Z) : byte := z2b (48 + d).

Fixpoint dec (fuel : nat) (n : Z) : bytes :=
  match fuel with
  | O => [digit n]
  | S f => if (n <? 10)%Z then [digit n] else dec f (n `div` 10) ++ [digit (n `mod` 10)]
  end.

(** [log2 n] steps are more than the number of decimal digits. *)
Definition dec_nonneg (n : Z) : bytes := dec (Z.to_nat (Z.log2 n)) n.

Definition to_string (n : Z) : bytes :=
  if (n <? 0)%Z then #"-" ++ dec_nonneg (- n) else dec_nonneg n.

(** The value of a string of digits. *)
Definition value (s : bytes) : Z := foldl (fun a b => a * 10 + (b2z b - 48))%Z 0%Z s.

Definition isDigit (b : byte) : bool := (48 <=? b2z b)%Z && (b2z b <=? 57)%Z.

Lemma digit_value (d : Z) : (0 <= d < 10)%Z -> b2z (digit d) = (48 + d)%Z.
Proof. intros H. apply b2z_z2b_small. lia. Qed.

Lemma digit_isDigit (d : Z) : (0 <= d < 10)%Z -> isDigit (digit d) = true.
Proof. intros H. unfold isDigit. rewrite digit_value by done. lia. Qed.

Lemma isDigit_inv (b : byte) : isDigit b = true ->
  exists d, (0 <= d < 10)%Z /\ b = digit d.
Proof.
  intros H. exists (b2z b - 48)%Z. unfold isDigit in H. split; [lia|].
  unfold digit. replace (48 + (b2z b - 48))%Z with (b2z b) by lia. by rewrite z2b_b2z.
Qed.

Lemma value_snoc (s : bytes) (b : byte) : value (s ++ [b]) = (value s * 10 + (b2z b - 48))%Z.
Proof. unfold value. by rewrite foldl_app. Qed.

Lemma dec_spec (fuel : nat) : forall n, (0 <= n < 2 ^ Z.of_nat (S fuel))%Z ->
  value (dec fuel n) = n /\ forallb isDigit (dec fuel n) = true /\
  1 <= length (dec fuel n) /\
  (forall k, 1 <= k -> (n < 10 ^ Z.of_nat k)%Z -> length (dec fuel n) <= k) /\
  (forall k, (10 ^ Z.of_nat k <= n)%Z -> S k <= length (dec fuel n)).
Proof.
  induction fuel as [|f IH]; intros n Hn.
  - cbn in Hn. cbn [dec length forallb]. rewrite digit_isDigit by lia.
    unfold value. cbn [foldl]. rewrite digit_value by lia. split_and!; try lia.
    intros [|k]; [lia|]. intros Hk. exfalso.
    assert (10 ^ Z.of_nat 1 <= 10 ^ Z.of_nat (S k))%Z by (apply Z.pow_le_mono_r; lia). lia.
  - cbn [dec]. destruct (Z.ltb_spec n 10).
    + cbn [length forallb]. rewrite digit_isDigit by lia. unfold value. cbn [foldl].
      rewrite digit_value by lia. split_and!; try lia.
      intros [|k]; [lia|]. intros Hk. exfalso.
      assert (10 ^ Z.of_nat 1 <= 10 ^ Z.of_nat (S k))%Z by (apply Z.pow_le_mono_r; lia). lia.
    + assert (0 <= n `div` 10 < 2 ^ Z.of_nat (S f))%Z as Hd.
      { rewrite (Nat2Z.inj_succ (S f)), Z.pow_succ_r in Hn by lia.
        split; [apply Z.div_pos; lia|]. apply Z.div_lt_upper_bound; lia. }
      destruct (IH _ Hd) as (Hv & Hf & Hl & Hu & Hg).
      pose proof (Z.mod_pos_bound n 10 ltac:(lia)).
      rewrite value_snoc, Hv, digit_value, forallb_app, Hf, length_app by done. cbn [forallb length].
      rewrite digit_isDigit by done. split_and!; [|done|lia| |].
      * pose proof (Z.div_mod n 10). lia.
      * intros [|[|k]] Hk Hlt; [lia|lia|]. rewrite Nat2Z.inj_succ, Z.pow_succ_r in Hlt by lia.
        assert (n `div` 10 < 10 ^ Z.of_nat (S k))%Z as Hq by (apply Z.div_lt_upper_bound; lia).
        specialize (Hu (S k) ltac:(lia) Hq). lia.
      * intros [|k] Hge; [lia|]. rewrite Nat2Z.inj_succ, Z.pow_succ_r in Hge by lia.
        assert (10 ^ Z.of_nat k <= n `div` 10)%Z as Hq by (apply Z.div_le_lower_bound; lia).
        specialize (Hg k Hq). lia.
Qed.

Lemma dec_nonneg_spec (n : Z) : (0 <= n)%Z ->
  value (dec_nonneg n) = n /\ forallb isDigit (dec_nonneg n) = true /\
  1 <= length (dec_nonneg n) /\
  (forall k, 1 <= k -> (n < 10 ^ Z.of_nat k)%Z -> length (dec_nonneg n) <= k) /\
  (forall k, (10 ^ Z.of_nat k <= n)%Z -> S k <= length (dec_nonneg n)).
Proof.
  intros H. apply dec_spec. rewrite Nat2Z.inj_succ, Z2Nat.id by apply Z.log2_nonneg.
  split; [done|]. destruct (decide (n = 0)%Z) as [->|]; [done|].
  apply (Z.log2_spec n). lia.
Qed.

Lemma dec_nonneg_small (n : Z) : (0 <= n < 10)%Z -> dec_nonneg n = [digit n].
Proof.
  intros H. unfold dec_nonneg. destruct (Z.to_nat (Z.log2 n)); cbn [dec]; [done|].
  by destruct (Z.ltb_spec n 10); [|lia].
Qed.

Lemma to_string_nonneg (n : Z) : (0 <= n)%Z -> to_string n = dec_nonneg n.
Proof. intros H. unfold to_string. by destruct (Z.ltb_spec n 0); [lia|]. Qed.

Lemma to_string_inj_nonneg (a b : Z) : (0 <= a)%Z -> (0 <= b)%Z ->
  to_string a = to_string b -> a = b.
Proof.
  intros Ha Hb. rewrite !to_string_nonneg by done. intros H.
  destruct (dec_nonneg_spec a Ha) as [<- _]. destruct (dec_nonneg_spec b Hb) as [<- _].
  by rewrite H.
Qed.

End Decimal.

Module Util.
Import Decimal.

(** The code point at the head of a text and its length in bytes; a byte that
    starts no sequence stands for itself (U+FFFD, one byte). *)
Definition lead_at (c : Z) : option (nat * Z) :=
  if (Z.land c 0xE0 =? 0xC0)%Z then Some (1, Z.land c 0x1F)
  else if (Z.land c 0xF0 =? 0xE0)%Z then Some (2, Z.land c 0x0F)
  else if (Z.land c 0xF8 =? 0xF0)%Z then Some (3, Z.land c 0x07)
  else None.

Definition decodeAt (b : byte) (rest : bytes) : Z * nat :=
  let c := b2z b in
  if (c <? 0x80)%Z then (c, 1)
  else match lead_at c with
       | None => (0xFFFD%Z, 1)
       | Some (extra, cp0) =>
           match Unicode.conts extra rest cp0 with
           | Some cp => (cp, S extra)
           | None => (0xFFFD%Z, 1)
           end
       end.

Definition appendUtf8 (out : bytes) (cp : Z) : bytes :=
  out ++ (if (cp <? 0x80)%Z then [z2b cp]
  else if (cp <? 0x800)%Z then
    [z2b (Z.lor 0xC0 (Z.shiftr cp 6)); z2b (Z.lor 0x80 (Z.land cp 0x3F))]
  else if (cp <? 0x10000)%Z then
    [z2b (Z.lor 0xE0 (Z.shiftr cp 12)); z2b (Z.lor 0x80 (Z.land (Z.shiftr cp 6) 0x3F));
     z2b (Z.lor 0x80 (Z.land cp 0x3F))]
  else
    [z2b (Z.lor 0xF0 (Z.shiftr cp 18)); z2b (Z.lor 0x80 (Z.land (Z.shiftr cp 12) 0x3F));
     z2b (Z.lor 0x80 (Z.land (Z.shiftr cp 6) 0x3F)); z2b (Z.lor 0x80 (Z.land cp 0x3F))]).

Definition isSpace (c : Z) : bool :=
  ((c =? 0x09) || (c =? 0x0A) || (c =? 0x0B) || (c =? 0x0C) || (c =? 0x0D) || (c =? 0x20)
   || (c =? 0xA0) || (c =? 0x1680) || (c =? 0x2028) || (c =? 0x2029) || (c =? 0x202F)
   || (c =? 0x205F) || (c =? 0x3000) || (c =? 0xFEFF)
   || ((0x2000 <=? c) && (c <=? 0x200A)))%Z.

(** [trim]: the loop over leading spaces gives the text from [begin]; the
    second loop remembers the end of the last code point that is no space. *)
Fixpoint skipSpace (fuel : nat) (s : bytes) : bytes :=
  match fuel, s with
  | S n, b :: rest =>
      let '(cp, len) := decodeAt b rest in
      if isSpace cp then skipSpace n (drop len s) else s
  | _, _ => s
  end.

Fixpoint lastEnd (fuel : nat) (s : bytes) (i e : nat) : nat :=
  match fuel, s with
  | S n, b :: rest =>
      let '(cp, len) := decodeAt b rest in
      lastEnd n (drop len s) (i + len) (if isSpace cp then e else i + len)
  | _, _ => e
  end.

Definition trim (s : bytes) : bytes :=
  let t := skipSpace (length s) s in take (lastEnd (length t) t 0 0) t.

Definition lowerCp (cp : Z) : Z :=
  (if (0x41 <=? cp) && (cp <=? 0x5A) then cp + 0x20
   else if (0x410 <=? cp) && (cp <=? 0x42F) then cp + 0x20
   else if (0x400 <=? cp) && (cp <=? 0x40F) then cp + 0x50
   else cp)%Z.

Fixpoint lower_loop (fuel : nat) (s out : bytes) : bytes :=
  match fuel, s with
  | S n, b :: rest =>
      let '(cp, len) := decodeAt b rest in
      if (cp =? 0xFFFD)%Z && (len =? 1) then lower_loop n rest (out ++ [b])
      else lower_loop n (drop len s) (appendUtf8 out (lowerCp cp))
  | _, _ => out
  end.

Definition lower (s : bytes) : bytes := lower_loop (length s) s [].

Fixpoint takeCodepoints (s : bytes) (count : nat) : bytes :=
  match count, s with
  | S n, b :: rest =>
      let '(_, len) := decodeAt b rest in take len s ++ takeCodepoints (drop len s) n
  | _, _ => []
  end.

Fixpoint utf16_loop (fuel : nat) (s : bytes) : nat :=
  match fuel, s with
  | S n, b :: rest =>
      let '(cp, len) := decodeAt b rest in
      (if (0x10000 <=? cp)%Z then 2 else 1) + utf16_loop n (drop len s)
  | _, _ => 0
  end.

Definition utf16Length (s : bytes) : nat := utf16_loop (length s) s.

(** [s[i]] for an index in range. *)
Definition at_ (s : bytes) (i : nat) : byte := nth i s x00.

Definition isDayKey (s : bytes) : bool :=
  if negb (length s =? 10) then false
  else forallb (fun i => if (i =? 4) || (i =? 7) then bool_decide (at_ s i = "-"%byte)
                         else isDigit (at_ s i)) (seq 0 10).

Definition isTimeKey (s : bytes) : bool :=
  if negb (length s =? 5) || negb (bool_decide (at_ s 2 = ":"%byte)) then false
  else if negb (isDigit (at_ s 0)) || negb (isDigit (at_ s 1)) || negb (isDigit (at_ s 3))
          || negb (isDigit (at_ s 4)) then false
  else if ((50 <? b2z (at_ s 0)) || ((b2z (at_ s 0) =? 50) && (51 <? b2z (at_ s 1))))%Z then false
  else (b2z (at_ s 3) <=? 53)%Z.

(** [numberOf] gives a double: [None] is NaN, and a string of digits is read
    exactly here, where [strtod] rounds above 2^53 (see [Calendar.num]). *)
Definition numberOf (part : bytes) : option Z :=
  let t := trim part in
  if (length t =? 0) then Some 0%Z
  else if forallb isDigit t then Some (value t) else None.

(** [split]: [std::string::find] from the start of each piece. *)
Fixpoint split (s : bytes) (sep : byte) : list bytes :=
  match s with
  | [] => [[]]
  | b :: s' =>
      if bool_decide (b = sep) then [] :: split s' sep
      else match split s' sep with
           | p :: ps => (b :: p) :: ps
           | [] => [[b]]
           end
  end.

Definition pad2 (v : Z) : bytes :=
  let text := to_string v in
  if (length text <? 2) then #"0" ++ text else text.

(** C++ division truncates towards zero. *)
Definition floorDiv (a b : Z) : Z :=
  let q := Z.quot a b in
  if negb (Z.rem a b =? 0)%Z && negb (Bool.eqb (a <? 0)%Z (b <? 0)%Z) then (q - 1)%Z else q.

(** *** Lemmas *)

Lemma floorDiv_div (a b : Z) : b <> 0%Z -> floorDiv a b = (a `div` b)%Z.
Proof.
  intros Hb. unfold floorDiv.
  pose proof (Z.quot_rem a b Hb). pose proof (Z.div_mod a b Hb).
  destruct (Z.eqb_spec (Z.rem a b) 0); destruct (Z.ltb_spec a 0); destruct (Z.ltb_spec b 0);
    cbn [negb andb Bool.eqb]; Z.to_euclidean_division_equations; nia.
Qed.
#[export] Hint Rewrite floorDiv_div using done : parvanej.

Lemma appendUtf8_append (out : bytes) (cp : Z) : appendUtf8 out cp = Unicode.append out cp.
Proof. done. Qed.

Lemma isSpace_isJsSpace (c : Z) : isSpace c = Unicode.isJsSpace c.
Proof. unfold isSpace, Unicode.isJsSpace. lia. Qed.

Lemma split_nonempty (s : bytes) (sep : byte) : split s sep <> [].
Proof. destruct s as [|b s]; cbn; [done|]. repeat case_match; done. Qed.

Lemma split_app (a s : bytes) (sep : byte) : Forall (fun b => b <> sep) a ->
  split (a ++ sep :: s) sep = a :: split s sep.
Proof.
  induction 1 as [|b a H1 H2 IH]; cbn [split app].
  - by rewrite bool_decide_eq_true_2.
  - by rewrite bool_decide_eq_false_2, IH.
Qed.

Lemma split_none (a : bytes) (sep : byte) : Forall (fun b => b <> sep) a -> split a sep = [a].
Proof.
  induction 1 as [|b a H1 H2 IH]; cbn [split]; [done|].
  by rewrite bool_decide_eq_false_2, IH.
Qed.

Lemma decodeAt_ascii (b : byte) (rest : bytes) : (b2z b < 0x80)%Z -> decodeAt b rest = (b2z b, 1).
Proof. intros H. unfold decodeAt. by destruct (Z.ltb_spec (b2z b) 0x80); [|lia]. Qed.

(** Text without spaces at either end is not changed by [trim]: digits. *)
Lemma lastEnd_digits (s : bytes) : forallb isDigit s = true -> forall n i e, length s <= n ->
  s <> [] -> lastEnd n s i e = i + length s.
Proof.
  induction s as [|b s IH]; [done|]. cbn [forallb]. rewrite andb_true_iff. intros [Hb Hs] n i e Hn _.
  cbn [length] in *. destruct n as [|n]; [lia|]. cbn [lastEnd].
  unfold isDigit in Hb. rewrite decodeAt_ascii by lia.
  replace (isSpace (b2z b)) with false by (unfold isSpace; lia). cbn [drop].
  destruct s as [|c s]; [destruct n; cbn; lia|]. rewrite IH; [lia|done|lia|done].
Qed.

Lemma trim_digits (s : bytes) : forallb isDigit s = true -> trim s = s.
Proof.
  intros H. unfold trim. assert (skipSpace (length s) s = s) as ->.
  { destruct s as [|b s]; [done|]. cbn [length skipSpace]. cbn [forallb] in H.
    apply andb_true_iff in H as [H _]. unfold isDigit in H. rewrite decodeAt_ascii by lia.
    by replace (isSpace (b2z b)) with false by (unfold isSpace; lia). }
  destruct s as [|b s]; [done|]. rewrite lastEnd_digits by done. apply take_ge. done.
Qed.

Lemma numberOf_digits (s : bytes) : forallb isDigit s = true -> 1 <= length s ->
  numberOf s = Some (value s).
Proof.
  intros H1 H2. unfold numberOf. rewrite trim_digits by done.
  destruct (Nat.eqb_spec (length s) 0); [lia|]. by rewrite H1.
Qed.

(** The lenient decoder agrees with the one of [Unicode] wherever the latter
    accepts the sequence. *)
Lemma lead_lead_at (b : byte) : match Unicode.lead (b2z b) with
  | Some (len, cp0, _) => lead_at (b2z b) = Some (len - 1, cp0) /\ 2 <= len
  | None => True
  end.
Proof.
  assert (match Unicode.lead (b2z b) with
    | Some (len, cp0, _) => bool_decide (lead_at (b2z b) = Some (len - 1, cp0)) && (2 <=? len)
    | None => true end = true) as H.
  { revert b. apply byte_forallb. by vm_compute. }
  destruct (Unicode.lead (b2z b)) as [[[len cp0] min]|]; [|done].
  apply andb_true_iff in H as [H1 H2]. apply bool_decide_eq_true in H1.
  apply Nat.leb_le in H2. done.
Qed.

Lemma decodeAt_decode1 (b : byte) (rest : bytes) :
  Unicode.decode1 b rest <> (0xFFFD%Z, 1) -> decodeAt b rest = Unicode.decode1 b rest.
Proof.
  unfold decodeAt, Unicode.decode1. destruct (b2z b <? 0x80)%Z; [done|].
  pose proof (lead_lead_at b) as H.
  destruct (Unicode.lead (b2z b)) as [[[len cp0] min]|]; [|done]. destruct H as [-> H].
  destruct (Unicode.conts (len - 1) rest cp0) as [cp|]; [|done].
  destruct (Unicode.outside cp min); [done|]. intros _. f_equal. lia.
Qed.

Lemma enc1_length_fffd (cp : Z) : Unicode.scalar cp = true ->
  (cp, length (Unicode.enc1 cp)) <> (0xFFFD%Z, 1).
Proof. intros _ H. injection H as -> H. done. Qed.

Lemma lowerCp_enc1 (cp : Z) : Unicode.scalar cp = true ->
  length (Unicode.enc1 (lowerCp cp)) = length (Unicode.enc1 cp).
Proof.
  intros H. apply Unicode.scalar_spec in H. unfold lowerCp.
  destruct ((0x41 <=? cp) && (cp <=? 0x5A))%Z eqn:E1; [|destruct ((0x410 <=? cp) && (cp <=? 0x42F))%Z eqn:E2;
    [|destruct ((0x400 <=? cp) && (cp <=? 0x40F))%Z eqn:E3; [|done]]].
  all: unfold Unicode.enc1; repeat match goal with
    | |- context [Z.ltb ?a ?b] => destruct (Z.ltb_spec a b); try lia end; done.
Qed.

Lemma lower_loop_encode (cps : u32string) : forall n out,
  Forall (fun cp => Unicode.scalar cp = true) cps -> length (Unicode.encode cps) <= n ->
  lower_loop n (Unicode.encode cps) out = out ++ Unicode.encode (lowerCp <$> cps).
Proof.
  induction cps as [|cp cps IH]; intros n out HF Hn.
  - destruct n; cbn; by rewrite app_nil_r.
  - inversion HF as [|? ? H1 H2]; subst. cbn [fmap list_fmap]. rewrite !Unicode.encode_cons in *.
    destruct (Unicode.decode1_enc1 cp (Unicode.encode cps) H1) as (b & tail & E & Hl & Hd).
    rewrite length_app in Hn. destruct n as [|n]; [lia|].
    assert (drop (length (Unicode.enc1 cp)) (b :: tail) = Unicode.encode cps) as Hdrop.
    { rewrite <- E. apply drop_app_length. }
    rewrite E. cbn [lower_loop]. rewrite decodeAt_decode1 by (rewrite Hd; by apply enc1_length_fffd).
    rewrite Hd, Hdrop.
    destruct ((cp =? 0xFFFD)%Z && (length (Unicode.enc1 cp) =? 1)) eqn:E1.
    { apply andb_true_iff in E1 as [Ea Eb]. apply Z.eqb_eq in Ea as ->. done. }
    rewrite IH by (done || lia). rewrite appendUtf8_append. unfold Unicode.append.
    by rewrite <- app_assoc.
Qed.

Lemma pad2_small (v : Z) : (0 <= v < 100)%Z -> pad2 v = [digit (v `div` 10); digit (v `mod` 10)].
Proof.
  intros H. apply (bool_decide_eq_true (pad2 v = [digit (v `div` 10); digit (v `mod` 10)])).
  revert v H. apply (z_forallb 100 (fun v => bool_decide (pad2 v = [digit (v `div` 10); digit (v `mod` 10)]))).
  by vm_compute.
Qed.

Lemma two_digits (d1 d0 : Z) : (0 <= d1 < 10)%Z -> (0 <= d0 < 10)%Z ->
  [digit d1; digit d0] = pad2 (d1 * 10 + d0).
Proof. intros H1 H0. rewrite pad2_small by lia. f_equal; [f_equal; zdiv|]. f_equal. f_equal. zdiv. Qed.

(** *** Properties *)

(** Property (lower case keeps positions): on well-formed UTF-8 [lower] acts
    code point by code point and keeps the length in bytes, so that positions
    found in the folded text are positions of the text itself. *)
Theorem lower_keeps_positions (s : bytes) (cps : u32string) :
  Unicode.strictUtf8 s = Some cps ->
  lower s = Unicode.encode (lowerCp <$> cps) /\ length (lower s) = length s.
Proof.
  intros H. apply Unicode.strict_loop_sound in H as [<- HF]; [|done].
  assert (lower (Unicode.encode cps) = Unicode.encode (lowerCp <$> cps)) as ->.
  { unfold lower. by rewrite lower_loop_encode. }
  split; [done|]. induction HF as [|cp l H1 H2 IH]; [done|].
  cbn [fmap list_fmap]. rewrite !Unicode.encode_cons, !length_app, IH. by rewrite lowerCp_enc1.
Qed.

Lemma lower_keeps_positions_witness :
  lower #"ПЛАН Q3" = #"план q3" /\ length (lower #"ПЛАН Q3") = length #"ПЛАН Q3".
Proof.
  destruct (lower_keeps_positions #"ПЛАН Q3" (Unicode.decode #"ПЛАН Q3")) as [_ H].
  - by vm_compute.
  - split; [by vm_compute|exact H].
Defined.

(** An overlong sequence is accepted by [decodeAt], so that there the length is
    not kept, against the comment of [lower]. *)
Lemma lower_overlong : length (lower [xc1; x81]) = 1.
Proof. by vm_compute. Qed.

(** Property (time keys): [isTimeKey] accepts exactly the texts HH:MM of an
    hour below 24 and a minute below 60. *)
Theorem isTimeKey_iff (s : bytes) :
  isTimeKey s = true <->
  exists h m, (0 <= h < 24)%Z /\ (0 <= m < 60)%Z /\ s = pad2 h ++ #":" ++ pad2 m.
Proof.
  split.
  - unfold isTimeKey. intros H. destruct (Nat.eqb_spec (length s) 5) as [Hl|]; [|done].
    destruct s as [|a [|b [|c [|d [|e [|]]]]]]; cbn in Hl; try lia. cbn [at_ nth] in H.
    destruct (decide (c = ":"%byte)) as [->|]; [|by rewrite bool_decide_eq_false_2 in H].
    rewrite bool_decide_eq_true_2 in H by done. cbn [negb orb] in H.
    destruct (isDigit a) eqn:Ea, (isDigit b) eqn:Eb, (isDigit d) eqn:Ed, (isDigit e) eqn:Ee;
      cbn [negb orb] in H; try discriminate H.
    apply isDigit_inv in Ea as (d1 & R1 & ->). apply isDigit_inv in Eb as (d2 & R2 & ->).
    apply isDigit_inv in Ed as (d3 & R3 & ->). apply isDigit_inv in Ee as (d4 & R4 & ->).
    rewrite !digit_value in H by done.
    exists (d1 * 10 + d2)%Z, (d3 * 10 + d4)%Z. rewrite <- !two_digits by done.
    destruct (50 <? 48 + d1)%Z eqn:E1; cbn [orb] in H; [discriminate H|].
    destruct ((48 + d1 =? 50) && (51 <? 48 + d2))%Z eqn:E2; [discriminate H|].
    split; [lia|]. split; [lia|done].
  - intros (h & m & Hh & Hm & ->). rewrite !pad2_small by lia.
    pose proof (Z.div_mod h 10 ltac:(lia)). pose proof (Z.mod_pos_bound h 10 ltac:(lia)).
    pose proof (Z.div_mod m 10 ltac:(lia)). pose proof (Z.mod_pos_bound m 10 ltac:(lia)).
    assert (0 <= h `div` 10 < 10 /\ 0 <= m `div` 10 < 10)%Z as [] by lia.
    change (isTimeKey ([?x; ?y] ++ #":" ++ [?z; ?w])) with (isTimeKey [x; y; ":"%byte; z; w]).
    unfold isTimeKey. cbn [length at_ nth Nat.eqb negb orb].
    rewrite bool_decide_eq_true_2 by done. rewrite !digit_isDigit by lia.
    cbn [negb orb]. rewrite !digit_value by lia.
    replace ((50 <? 48 + h `div` 10) || ((48 + h `div` 10 =? 50) && (51 <? 48 + h `mod` 10)))%Z
      with false by lia. apply Z.leb_le. lia.
Qed.
End Util.
