(* ===== verification/Ids.v ===== *)
(** * Ids: time-ordered identifiers

    Module [Ids] models [include/parvane/ids.h]: [newUuidV7], as a function of
    the clock (milliseconds) and of what the generator of random bytes gave. *)

From S2P Require Import Prelude DomainSync.

Module Ids.
Import Base64.

(** [%02x] of one byte. *)
Definition hex2 (b : byte) : bytes :=
  [hexDigit (Z.shiftr (b2z b) 4); hexDigit (Z.land (b2z b) 15)].
Fixpoint hexes (l : bytes) : bytes :=
  match l with [] => [] | b :: l' => hex2 b ++ hexes l' end.

(** One octet of a 64-bit value: [(v >> k) & 0xFF]. *)
Definition octet (v k : Z) : byte := z2b (Z.land (Z.shiftr v k) 0xFF).

(** The two random words; [None] when [RAND_bytes] fails. *)
Definition randomWords (ms : Z) (rand : option (Z * Z)) : Z * Z :=
  match rand with
  | Some rs => rs
  | None => let r := u64 (ms * 0x9E3779B97F4A7C15) in (r, Z.shiftr r 13)
  end.

Definition newUuidV7 (ms : Z) (rand : option (Z * Z)) : bytes :=
  let '(r, r2) := randomWords ms rand in
  let randA := Z.land r2 0x0FFF in
  let b6 := z2b (Z.lor 0x70 (Z.land (Z.shiftr randA 8) 0x0F)) in
  let b7 := z2b (Z.land randA 0xFF) in
  let b8 := z2b (Z.lor 0x80 (Z.land (Z.shiftr r 56) 0x3F)) in
  hexes [octet ms 40; octet ms 32; octet ms 24; octet ms 16] ++ #"-"
  ++ hexes [octet ms 8; octet ms 0] ++ #"-" ++ hexes [b6; b7] ++ #"-"
  ++ hexes [b8; octet r 48] ++ #"-"
  ++ hexes [octet r 40; octet r 32; octet r 24; octet r 16; octet r 8; octet r 0].

(** *** Lemmas *)

(** The big-endian octets of a number. *)
Fixpoint be (n : nat) (v : Z) : bytes :=
  match n with
  | O => []
  | S m => octet v (8 * Z.of_nat m) :: be m v
  end.

Lemma octet_z (v k : Z) : (0 <= k)%Z -> b2z (octet v k) = ((v `div` 2 ^ k) `mod` 256)%Z.
Proof.
  intros Hk. unfold octet. rewrite b2z_z2b, shiftr_div, (land_ones_mod _ 8) by lia.
  zpow. apply Z.mod_small, Z.mod_pos_bound. lia.
Qed.

Lemma be_length (n : nat) (v : Z) : length (be n v) = n.
Proof. induction n as [|n IH]; cbn; [done|by rewrite IH]. Qed.

Lemma div_mod_pow (v : Z) (m : nat) : (0 <= v)%Z ->
  (v `mod` 256 ^ Z.of_nat (S m)
   = (v `div` 256 ^ Z.of_nat m) `mod` 256 * 256 ^ Z.of_nat m + v `mod` 256 ^ Z.of_nat m)%Z.
Proof.
  intros Hv. rewrite Nat2Z.inj_succ, Z.pow_succ_r by lia.
  rewrite (Z.mul_comm 256), Z.rem_mul_r by (assert (0 < 256 ^ Z.of_nat m)%Z by (apply Z.pow_pos_nonneg; lia); lia).
  lia.
Qed.

Lemma be_lt (n : nat) (a b : Z) : (0 <= a)%Z -> (0 <= b)%Z ->
  (a `mod` 256 ^ Z.of_nat n < b `mod` 256 ^ Z.of_nat n)%Z -> blt (be n a) (be n b) = true.
Proof.
  intros Ha Hb. induction n as [|m IH]; [rewrite !Z.mod_1_r; lia|]. intros H.
  rewrite !div_mod_pow in H by done. cbn [be blt].
  assert (2 ^ (8 * Z.of_nat m) = 256 ^ Z.of_nat m)%Z as E by (rewrite Z.pow_mul_r; [done|lia|lia]).
  rewrite !octet_z, !E by lia.
  assert (0 < 256 ^ Z.of_nat m)%Z as Hp by (apply Z.pow_pos_nonneg; lia).
  pose proof (Z.mod_pos_bound a (256 ^ Z.of_nat m) Hp).
  pose proof (Z.mod_pos_bound b (256 ^ Z.of_nat m) Hp).
  destruct (Z.ltb_spec ((a `div` 256 ^ Z.of_nat m) `mod` 256) ((b `div` 256 ^ Z.of_nat m) `mod` 256)); [done|].
  destruct (Z.ltb_spec ((b `div` 256 ^ Z.of_nat m) `mod` 256) ((a `div` 256 ^ Z.of_nat m) `mod` 256)); [nia|].
  apply IH. nia.
Qed.

Lemma blt_app_lt (a b x y : bytes) : length a = length b -> blt a b = true ->
  blt (a ++ x) (b ++ y) = true.
Proof.
  revert b. induction a as [|c a IH]; intros [|d b]; cbn; try done; try lia.
  intros Hl. repeat case_match; try done. apply IH. lia.
Qed.

Lemma blt_app_eq (a x y : bytes) : blt (a ++ x) (a ++ y) = blt x y.
Proof. induction a as [|c a IH]; cbn; [done|]. by rewrite Z.ltb_irrefl. Qed.

(** Two hexadecimal digits are ordered as their bytes. *)
Lemma hex2_lt (a b : byte) : (b2z a < b2z b)%Z -> blt (hex2 a) (hex2 b) = true.
Proof.
  intros H.
  assert (implb (b2z a <? b2z b)%Z (blt (hex2 a) (hex2 b)) = true) as E.
  { clear H. revert b. apply byte_forallb. revert a.
    apply (byte_forallb (fun a => forallb (fun b => implb (b2z a <? b2z b)%Z (blt (hex2 a) (hex2 b))) all_bytes)).
    by vm_compute. }
  by rewrite (proj2 (Z.ltb_lt _ _) H) in E.
Qed.

Lemma hexes_lt (a b : bytes) : length a = length b -> blt a b = true -> blt (hexes a) (hexes b) = true.
Proof.
  revert b. induction a as [|c a IH]; intros [|d b]; try done.
  intros Hl. cbn [blt hexes].
  destruct (Z.ltb_spec (b2z c) (b2z d)) as [E|E1].
  { intros _. apply blt_app_lt; [done|by apply hex2_lt]. }
  destruct (Z.ltb_spec (b2z d) (b2z c)) as [|E2]; [done|]. intros H.
  assert (c = d) as -> by (apply b2z_inj; lia). rewrite blt_app_eq. apply IH; [|done].
  cbn in Hl. lia.
Qed.

Lemma hexes_length (a : bytes) : length (hexes a) = 2 * length a.
Proof. induction a as [|c a IH]; [done|]. cbn in *. lia. Qed.

(** *** Properties *)

(** Property (identifiers in time order): an identifier made in a later
    millisecond is greater as a string, whatever the random parts; this is
    what the incremental synchronisation by [id > last_seen_id] relies on. *)
Theorem newUuidV7_ordered (ms ms' : Z) (rand rand' : option (Z * Z)) :
  (0 <= ms < ms')%Z -> (ms' < 2 ^ 48)%Z ->
  blt (newUuidV7 ms rand) (newUuidV7 ms' rand') = true.
Proof.
  intros H1 H2. unfold newUuidV7.
  destruct (randomWords ms rand) as [r r2]. destruct (randomWords ms' rand') as [q q2].
  assert (blt (be 6 ms) (be 6 ms') = true) as Hbe.
  { apply be_lt; [lia|lia|]. cbn in H2. change (256 ^ Z.of_nat 6)%Z with 281474976710656%Z.
    rewrite !Z.mod_small by lia. lia. }
  cbn [be Z.of_nat Z.mul] in Hbe.
  set (hi := [octet ms 40; octet ms 32; octet ms 24; octet ms 16]).
  set (hi' := [octet ms' 40; octet ms' 32; octet ms' 24; octet ms' 16]).
  change (blt (hi ++ [octet ms 8; octet ms 0]) (hi' ++ [octet ms' 8; octet ms' 0]) = true) in Hbe.
  destruct (blt hi hi') eqn:Ehi.
  { apply blt_app_lt; [by rewrite !hexes_length|]. by apply hexes_lt. }
  assert (hi = hi') as <-.
  { apply blt_total; [done|]. destruct (blt hi' hi) eqn:E; [|done].
    pose proof (blt_app_lt hi' hi [octet ms' 8; octet ms' 0] [octet ms 8; octet ms 0] eq_refl E) as E2.
    by rewrite (blt_asym _ _ Hbe) in E2. }
  rewrite blt_app_eq in Hbe. rewrite !blt_app_eq.
  apply blt_app_lt; [done|]. by apply hexes_lt.
Qed.

Lemma newUuidV7_ordered_witness :
  blt (newUuidV7 1760000000000 None) (newUuidV7 1760000000001 (Some (0, 0)%Z)) = true.
Proof. apply newUuidV7_ordered; [lia|]. cbn. lia. Defined.

(** Property (shape of identifiers): 36 characters, hyphens at their places,
    version digit 7 and the RFC variant. *)
Theorem newUuidV7_shape (ms : Z) (rand : option (Z * Z)) :
  length (newUuidV7 ms rand) = 36 /\
  (newUuidV7 ms rand !! 8, newUuidV7 ms rand !! 13, newUuidV7 ms rand !! 18, newUuidV7 ms rand !! 23)
    = (Some "-"%byte, Some "-"%byte, Some "-"%byte, Some "-"%byte) /\
  newUuidV7 ms rand !! 14 = Some "7"%byte /\
  (exists d, (8 <= d < 12)%Z /\ newUuidV7 ms rand !! 19 = Some (hexDigit d)).
Proof.
  unfold newUuidV7. destruct (randomWords ms rand) as [r r2].
  split; [done|]. split; [done|]. cbn [hexes hex2 app lookup list_lookup str].
  split.
  - cbn. f_equal.
    assert (0 <= Z.land (Z.shiftr (Z.land r2 0xFFF) 8) 0x0F < 16)%Z as H.
    { rewrite (land_ones_mod _ 4) by lia. apply Z.mod_pos_bound. lia. }
    revert H. generalize (Z.land (Z.shiftr (Z.land r2 0xFFF) 8) 0x0F). intros x Hx.
    apply (bool_decide_eq_true (hexDigit (Z.shiftr (b2z (z2b (Z.lor 0x70 x))) 4) = "7"%byte)).
    revert x Hx. apply (z_forallb 16 (fun x => bool_decide (hexDigit (Z.shiftr (b2z (z2b (Z.lor 0x70 x))) 4) = "7"%byte))).
    by vm_compute.
  - exists (Z.shiftr (b2z (z2b (Z.lor 0x80 (Z.land (Z.shiftr r 56) 0x3F)))) 4). split; [|done].
    assert (0 <= Z.land (Z.shiftr r 56) 0x3F < 64)%Z as H.
    { rewrite (land_ones_mod _ 6) by lia. apply Z.mod_pos_bound. lia. }
    revert H. generalize (Z.land (Z.shiftr r 56) 0x3F). intros x Hx.
    assert ((8 <=? Z.shiftr (b2z (z2b (Z.lor 0x80 x))) 4) && (Z.shiftr (b2z (z2b (Z.lor 0x80 x))) 4 <? 12)
      = true)%Z as E; [|lia].
    revert x Hx. apply (z_forallb 64 (fun x => (8 <=? Z.shiftr (b2z (z2b (Z.lor 0x80 x))) 4)
      && (Z.shiftr (b2z (z2b (Z.lor 0x80 x))) 4 <? 12))%Z). by vm_compute.
Qed.
End Ids.
