(* ===== verification/Call.v ===== *)
(** * Call: the signals of a call

    Module [Signals] models [include/parvane/call.h]: the builders of outgoing
    signals, ICE candidates in the three formats in use, and the reading of an
    incoming signal. The text form of JSON ([dump], [parse]) belongs to the
    JSON library: candidates are modelled as the value that is dumped and the
    value that was parsed. *)

From S2P Require Import Prelude Json.

Module Signals.

Definition newline : bytes := [x0a].

(** The bytes under the signature of an invite or an answer. *)
Definition callSignedData (callId sdp : bytes) : bytes := callId ++ newline ++ sdp.

Definition inviteSignal (callId media sdp sig : bytes) : json :=
  let j := jobj [(#"type", JStr #"invite"); (#"call_id", JStr callId); (#"media", JStr media);
                 (#"sdp", JStr sdp)] in
  if (length sig =? 0) then j else jset #"sig" (JStr sig) j.

Definition answerSignal (callId sdp sig : bytes) : json :=
  let j := jobj [(#"type", JStr #"answer"); (#"call_id", JStr callId); (#"sdp", JStr sdp)] in
  if (length sig =? 0) then j else jset #"sig" (JStr sig) j.

Definition rejectSignal (callId : bytes) (reason : option bytes) : json :=
  let j := jobj [(#"type", JStr #"reject"); (#"call_id", JStr callId)] in
  jset #"reason" (match reason with Some r => JStr r | None => JNull end) j.

Definition iceSignal (callId candidate : bytes) : json :=
  jobj [(#"type", JStr #"ice"); (#"call_id", JStr callId); (#"candidate", JStr candidate)].

Definition hangupSignal (callId : bytes) : json :=
  jobj [(#"type", JStr #"hangup"); (#"call_id", JStr callId)].

Definition groupInviteSignal (groupCallId : bytes) (participants : list bytes)
    (media group title : bytes) : json :=
  let out := jobj [(#"type", JStr #"group_invite"); (#"group_call_id", JStr groupCallId);
                   (#"participants", JArr (JStr <$> participants)); (#"media", JStr media)] in
  let out := if (length group =? 0) then out else jset #"group" (JStr group) out in
  if (length title =? 0) then out else jset #"title" (JStr title) out.

Definition mediaStateSignal (callId : bytes) (audioMuted videoMuted : bool) : json :=
  jobj [(#"type", JStr #"media"); (#"call_id", JStr callId);
        (#"audio_muted", JBool audioMuted); (#"video_muted", JBool videoMuted)].

(** ** ICE candidates *)

Record IceCandidate := mkIceCandidate {
  sdp : bytes;
  mid : bytes;
  mlineIndex : Z  (** an [int] *)
}.

(** [iceCandidateJson], before [dump]. *)
Definition iceCandidateJson (c : IceCandidate) : json :=
  jobj [(#"candidate", JStr (sdp c)); (#"sdp_mid", JStr (mid c));
        (#"sdp_mline_index", JInt (mlineIndex c));
        (#"sdpMid", JStr (mid c)); (#"sdpMLineIndex", JInt (mlineIndex c));
        (#"sdp", JStr (sdp c)); (#"mid", JStr (mid c)); (#"idx", JInt (mlineIndex c))].

Fixpoint firstString (j : json) (keys : list bytes) : bytes :=
  match keys with
  | [] => []
  | k :: ks => match jfind k j with Some (JStr s) => s | _ => firstString j ks end
  end.

(** [get<int>()] narrows the stored 64-bit number. *)
Fixpoint firstInt (j : json) (keys : list bytes) : Z :=
  match keys with
  | [] => 0%Z
  | k :: ks => match jfind k j with
               | Some (JInt z) | Some (JUnsigned z) => signed 32 z
               | _ => firstInt j ks
               end
  end.

(** [parseIceCandidate], after [json::parse] ([None]: the text is no JSON). *)
Definition parseIceCandidate (parsed : option json) : option IceCandidate :=
  match parsed with
  | Some j =>
      if is_object j then
        let s := firstString j [ #"candidate"; #"sdp"] in
        if (length s =? 0) then None
        else Some {| sdp := s; mid := firstString j [ #"sdp_mid"; #"sdpMid"; #"mid"];
                     mlineIndex := firstInt j [ #"sdp_mline_index"; #"sdpMLineIndex"; #"idx"] |}
      else None
  | None => None
  end.

(** ** Incoming signals *)

Record CallSignalIn := mkCallSignalIn {
  type : bytes;
  call_id : bytes;
  media : bytes;
  sig_sdp : bytes;
  sig : bytes;
  candidate : bytes;
  reason : option bytes;
  group_call_id : bytes;
  participants : list bytes;
  group : bytes;
  title : bytes;
  audio_muted : bool;
  video_muted : bool;
  authenticated : bool
}.

Definition strings_of (l : list json) : list bytes :=
  omap (fun p => match p with JStr s => Some s | _ => None end) l.

Definition fromJson (j : json) : result exn CallSignalIn :=
  let! type := value_str j #"type" [] in
  let! call_id := value_str j #"call_id" [] in
  let! media := value_str j #"media" [] in
  let! sdp := value_str j #"sdp" [] in
  let! sig := value_str j #"sig" [] in
  let! candidate := value_str j #"candidate" [] in
  let! group_call_id := value_str j #"group_call_id" [] in
  let participants := match jfind #"participants" j with Some (JArr l) => strings_of l | _ => [] end in
  let reason := match jfind #"reason" j with Some (JStr s) => Some s | _ => None end in
  let! group := value_str j #"group" [] in
  let! title := value_str j #"title" [] in
  let! audio_muted := value_bool j #"audio_muted" false in
  let! video_muted := value_bool j #"video_muted" false in
  Ok {| type := type; call_id := call_id; media := media; sig_sdp := sdp; sig := sig;
        candidate := candidate; reason := reason; group_call_id := group_call_id;
        participants := participants; group := group; title := title;
        audio_muted := audio_muted; video_muted := video_muted; authenticated := false |}.

Definition signedData (s : CallSignalIn) : bytes := callSignedData (call_id s) (sig_sdp s).

(** The members of the structure as the constructor leaves them. *)
Definition emptySignal : CallSignalIn :=
  {| type := []; call_id := []; media := []; sig_sdp := []; sig := []; candidate := [];
     reason := None; group_call_id := []; participants := []; group := []; title := [];
     audio_muted := false; video_muted := false; authenticated := false |}.

(** ** Lemmas *)

Lemma strings_of_strs (l : list bytes) : strings_of (JStr <$> l) = l.
Proof. induction l as [|s l IH]; cbn; [done|by f_equal]. Qed.

(** A field written only when it is not empty reads back as written. *)
Lemma value_str_obj_set (m : list (bytes * json)) (k k' d v : bytes) :
  value_str (JObj (obj_set k' (JStr v) m)) k d
  = if bool_decide (k = k') then Ok v else value_str (JObj m) k d.
Proof. unfold value_str. rewrite obj_get_set. by case_bool_decide. Qed.

Lemma signed_small (w z : Z) : (0 < w)%Z -> (- 2 ^ (w - 1) <= z < 2 ^ (w - 1))%Z -> signed w z = z.
Proof.
  intros Hw H. unfold signed.
  assert (2 ^ w = 2 * 2 ^ (w - 1))%Z as -> by (rewrite <- Z.pow_succ_r by lia; f_equal; lia).
  rewrite Z.mod_small; lia.
Qed.

(** What a JSON number becomes when it was printed and parsed: the parser
    stores integers without a sign as unsigned. *)
Definition renumber (z : Z) : json := if (0 <=? z)%Z then JUnsigned z else JInt z.

Lemma firstInt_renumber (j : json) (k : bytes) (ks : list bytes) (z : Z) :
  jfind k j = Some (renumber z) -> (- 2 ^ 31 <= z < 2 ^ 31)%Z -> firstInt j (k :: ks) = z.
Proof.
  unfold renumber. intros H Hz. cbn [firstInt].
  destruct (0 <=? z)%Z; rewrite H; by apply signed_small.
Qed.

Lemma firstInt_skip (j : json) (k : bytes) (ks : list bytes) :
  jfind k j = None -> firstInt j (k :: ks) = firstInt j ks.
Proof. intros H. cbn [firstInt]. by rewrite H. Qed.

(** ** Properties *)

(** Property (signals read back): the reader of incoming signals recovers the
    fields of every signal the builders make, and never marks one as
    authenticated. *)
Theorem signals_roundtrip :
  (forall id m sd sg, fromJson (inviteSignal id m sd sg) = Ok
    {| type := #"invite"; call_id := id; media := m; sig_sdp := sd; sig := sg; candidate := [];
       reason := None; group_call_id := []; participants := []; group := []; title := [];
       audio_muted := false; video_muted := false; authenticated := false |}) /\
  (forall id sd sg, fromJson (answerSignal id sd sg) = Ok
    {| type := #"answer"; call_id := id; media := []; sig_sdp := sd; sig := sg; candidate := [];
       reason := None; group_call_id := []; participants := []; group := []; title := [];
       audio_muted := false; video_muted := false; authenticated := false |}) /\
  (forall id r, fromJson (rejectSignal id r) = Ok
    {| type := #"reject"; call_id := id; media := []; sig_sdp := []; sig := []; candidate := [];
       reason := r; group_call_id := []; participants := []; group := []; title := [];
       audio_muted := false; video_muted := false; authenticated := false |}) /\
  (forall id c, fromJson (iceSignal id c) = Ok
    {| type := #"ice"; call_id := id; media := []; sig_sdp := []; sig := []; candidate := c;
       reason := None; group_call_id := []; participants := []; group := []; title := [];
       audio_muted := false; video_muted := false; authenticated := false |}) /\
  (forall id, fromJson (hangupSignal id) = Ok
    {| type := #"hangup"; call_id := id; media := []; sig_sdp := []; sig := []; candidate := [];
       reason := None; group_call_id := []; participants := []; group := []; title := [];
       audio_muted := false; video_muted := false; authenticated := false |}) /\
  (forall g ps m gr t, fromJson (groupInviteSignal g ps m gr t) = Ok
    {| type := #"group_invite"; call_id := []; media := m; sig_sdp := []; sig := []; candidate := [];
       reason := None; group_call_id := g; participants := ps; group := gr; title := t;
       audio_muted := false; video_muted := false; authenticated := false |}) /\
  (forall id a v, fromJson (mediaStateSignal id a v) = Ok
    {| type := #"media"; call_id := id; media := []; sig_sdp := []; sig := []; candidate := [];
       reason := None; group_call_id := []; participants := []; group := []; title := [];
       audio_muted := a; video_muted := v; authenticated := false |}).
Proof.
  split_and!.
  - intros id m sd sg. destruct sg; by vm_compute.
  - intros id sd sg. destruct sg; by vm_compute.
  - intros id r. destruct r; by vm_compute.
  - by vm_compute.
  - by vm_compute.
  - intros g ps m gr t. unfold groupInviteSignal.
    transitivity (let! s := fromJson (groupInviteSignal g [] m gr t) in
      Ok {| type := type s; call_id := call_id s; media := media s; sig_sdp := sig_sdp s; sig := sig s;
        candidate := candidate s; reason := reason s; group_call_id := group_call_id s;
        participants := strings_of (JStr <$> ps); group := group s; title := title s;
        audio_muted := audio_muted s; video_muted := video_muted s;
        authenticated := authenticated s |}).
    + generalize (JStr <$> ps). intros l. by destruct gr, t; vm_compute.
    + rewrite strings_of_strs. by destruct gr, t; vm_compute.
  - by vm_compute.
Qed.

(** Property (candidates of every client): the reader understands what this
    client sends, after the JSON library printed and parsed it, and the two
    older formats; each gives the candidate back. *)
Theorem iceCandidate_formats (c : IceCandidate) :
  sdp c <> [] -> (- 2 ^ 31 <= mlineIndex c < 2 ^ 31)%Z ->
  let num := renumber (mlineIndex c) in
  parseIceCandidate (Some (jobj [(#"candidate", JStr (sdp c)); (#"sdp_mid", JStr (mid c));
    (#"sdp_mline_index", num); (#"sdpMid", JStr (mid c)); (#"sdpMLineIndex", num);
    (#"sdp", JStr (sdp c)); (#"mid", JStr (mid c)); (#"idx", num)])) = Some c /\
  parseIceCandidate (Some (iceCandidateJson c)) = Some c /\
  parseIceCandidate (Some (jobj [(#"candidate", JStr (sdp c)); (#"sdpMid", JStr (mid c));
    (#"sdpMLineIndex", num)])) = Some c /\
  parseIceCandidate (Some (jobj [(#"sdp", JStr (sdp c)); (#"mid", JStr (mid c)); (#"idx", num)]))
    = Some c.
Proof.
  intros Hs Hz num. destruct c as [[|b s] m z]; [done|]. cbn [sdp mid mlineIndex] in *.
  split_and!; unfold parseIceCandidate.
  1: replace (firstInt _ _) with z by (symmetry; by apply firstInt_renumber).
  2: replace (firstInt _ _) with z by (symmetry; by apply (signed_small 32)).
  3: replace (firstInt _ _) with z by (symmetry; rewrite firstInt_skip by done; by apply firstInt_renumber).
  4: replace (firstInt _ _) with z by (symmetry; rewrite !firstInt_skip by done; by apply firstInt_renumber).
  all: by vm_compute.
Qed.

Lemma iceCandidate_formats_witness :
  parseIceCandidate (Some (iceCandidateJson (mkIceCandidate #"candidate:1" #"0" 1)))
  = Some (mkIceCandidate #"candidate:1" #"0" 1).
Proof.
  destruct (iceCandidate_formats (mkIceCandidate #"candidate:1" #"0" 1)) as (_ & H & _);
    [done|by vm_compute|exact H].
Defined.

End Signals.
