(* ===== verification/CallSession.v ===== *)
(** * CallSession: the state machine of one call

    Module [Session] models [src/call_session.cpp] over
    [include/parvane/call_session.h]: each public operation and each callback
    the media engine makes is an action on the session, whose calls out (the
    signals sent, the notifications, the requests to the engine) are listed in
    order. The callbacks the host gives are the record [Callbacks], passed to
    each action, because what they answer may change between two events.
    Signature verification ([crypto::verify]) is a parameter. *)

From S2P Require Import Prelude Json Call.

Module Session.
Import Signals.

Inductive CallState := Idle | Outgoing | Incoming | Connecting | Active | Ended.
Inductive PeerAuth := Unknown | Verified | Unverified | Failed.

#[export] Instance CallState_eq_dec : EqDecision CallState.
Proof. solve_decision. Defined.
#[export] Instance PeerAuth_eq_dec : EqDecision PeerAuth.
Proof. solve_decision. Defined.

(** What a session calls: the host's callbacks and the media engine. *)
Inductive call :=
| SendSignal (signal : json)
| OnState (s : CallState)
| SetWantVideo (on : bool)
| CreateOffer
| AcceptOffer (remoteSdp : bytes)
| SetRemoteAnswer (sdp : bytes)
| AddRemoteIce (candidate : bytes)
| Close
| SetMuted (muted : bool).

(** The callbacks set by the host; an optional one is [false] or [None]. *)
Record Callbacks := mkCallbacks {
  cb_sendSignal : bool;
  cb_peerPubkey : option bytes;          (** what [peerPubkey()] answers *)
  cb_peerPubkeys : option (list bytes);  (** what [peerPubkeys()] answers *)
  cb_onState : bool;
  cb_sign : option (bytes -> bytes)
}.

Record CallSession := mkCallSession {
  self_ : bytes;
  peer_ : bytes;
  key_ : option (bytes -> bytes);  (** [key_->sign]; [None]: no key *)
  media_engine_ : bool;            (** the engine exists *)
  state_ : CallState;
  peerAuth_ : PeerAuth;
  callId_ : bytes;
  media_ : bytes;
  remoteOffer_ : bytes
}.

Definition newCallSession (self peer : bytes) (key : option (bytes -> bytes)) (media : bool) : CallSession :=
  {| self_ := self; peer_ := peer; key_ := key; media_engine_ := media; state_ := Idle;
     peerAuth_ := Unknown; callId_ := []; media_ := #"audio"; remoteOffer_ := [] |}.

Definition with_state (s : CallState) (x : CallSession) : CallSession :=
  {| self_ := self_ x; peer_ := peer_ x; key_ := key_ x; media_engine_ := media_engine_ x;
     state_ := s; peerAuth_ := peerAuth_ x; callId_ := callId_ x; media_ := media_ x;
     remoteOffer_ := remoteOffer_ x |}.
Definition with_auth (a : PeerAuth) (x : CallSession) : CallSession :=
  {| self_ := self_ x; peer_ := peer_ x; key_ := key_ x; media_engine_ := media_engine_ x;
     state_ := state_ x; peerAuth_ := a; callId_ := callId_ x; media_ := media_ x;
     remoteOffer_ := remoteOffer_ x |}.
Definition with_call (id media : bytes) (x : CallSession) : CallSession :=
  {| self_ := self_ x; peer_ := peer_ x; key_ := key_ x; media_engine_ := media_engine_ x;
     state_ := state_ x; peerAuth_ := peerAuth_ x; callId_ := id; media_ := media;
     remoteOffer_ := remoteOffer_ x |}.
Definition with_offer (sdp : bytes) (x : CallSession) : CallSession :=
  {| self_ := self_ x; peer_ := peer_ x; key_ := key_ x; media_engine_ := media_engine_ x;
     state_ := state_ x; peerAuth_ := peerAuth_ x; callId_ := callId_ x; media_ := media_ x;
     remoteOffer_ := sdp |}.

Abbreviation action := (act CallSession call).

Section Verify.
Context (verify : bytes -> bytes -> bytes -> bool).

Definition setState (cb : Callbacks) (s : CallState) : action :=
  reads (fun x => if decide (state_ x = s) then skip
                  else modify (with_state s) ;> guarded (cb_onState cb) (emit (OnState s))).

Definition send (cb : Callbacks) (j : json) : action :=
  guarded (cb_sendSignal cb) (emit (SendSignal j)).

Definition engine (c : call) : action := reads (fun x => guarded (media_engine_ x) (emit c)).

Definition orAudio (m : bytes) : bytes := if (length m =? 0) then #"audio" else m.

(** Engine callbacks wired by [wireMedia]. *)
Definition onLocalIce (cb : Callbacks) (candidate : bytes) : action :=
  reads (fun x => if decide (state_ x = Ended) then skip
                  else send cb (iceSignal (callId_ x) candidate)).

Definition onConnectionChange (cb : Callbacks) (connected : bool) : action :=
  reads (fun x => if decide (state_ x = Ended) then skip
                  else setState cb (if connected then Active else Ended)).

Definition signSdp (cb : Callbacks) (x : CallSession) (sdp : bytes) : bytes :=
  let data := callSignedData (callId_ x) sdp in
  let own := match cb_sign cb with Some f => f data | None => [] end in
  if negb (length own =? 0) then own
  else match key_ x with Some f => f data | None => [] end.

(** The keys the peer may have signed with. *)
Definition pubs (cb : Callbacks) : list bytes :=
  (match cb_peerPubkey cb with
   | Some pub => if (length pub =? 0) then [] else [pub]
   | None => []
   end)
  ++ (match cb_peerPubkeys cb with
      | Some ks => List.filter (fun k => negb (length k =? 0)) ks
      | None => []
      end).

Definition sdpVerified (cb : Callbacks) (id sdp sig : bytes) : bool :=
  if (length (pubs cb) =? 0) then false
  else if (length sig =? 0) then false
  else existsb (fun pub => verify pub (callSignedData id sdp) sig) (pubs cb).

(** [authenticateSdp] passes its answer to what follows. *)
Definition authenticateSdp (cb : Callbacks) (sdp sig : bytes) (k : bool -> action) : action :=
  reads (fun x => let ok := sdpVerified cb (callId_ x) sdp sig in
                  modify (with_auth (if ok then Verified else Failed)) ;> k ok).

(** [start]: [uuid] is what [newUuidV7()] gave. *)
Definition start (uuid media : bytes) : action :=
  reads (fun x =>
    if decide (state_ x = Idle) then
      modify (with_call uuid (orAudio media)) ;>
      engine (SetWantVideo (bool_decide (orAudio media = #"video"))) ;>
      engine CreateOffer
    else skip).

(** The callback given to [createOffer]. *)
Definition onOffer (cb : Callbacks) (sdp : bytes) : action :=
  reads (fun x =>
    if decide (state_ x = Ended) then skip
    else send cb (inviteSignal (callId_ x) (media_ x) sdp (signSdp cb x sdp)) ;>
         setState cb Outgoing).

Definition onInvite (cb : Callbacks) (s : CallSignalIn) : action :=
  modify (with_call (call_id s) (orAudio (media s))) ;>
  modify (with_offer (sig_sdp s)) ;>
  if authenticated s then modify (with_auth Verified) ;> setState cb Incoming
  else authenticateSdp cb (sig_sdp s) (sig s) (fun ok =>
    if ok then setState cb Incoming
    else send cb (rejectSignal (call_id s) (Some #"auth_failed")) ;> setState cb Ended).

Definition onAnswer (cb : Callbacks) (s : CallSignalIn) : action :=
  reads (fun x =>
    if decide (state_ x = Outgoing) then
      let applied := setState cb Connecting ;> engine (SetRemoteAnswer (sig_sdp s)) in
      if authenticated s then modify (with_auth Verified) ;> applied
      else authenticateSdp cb (sig_sdp s) (sig s) (fun ok =>
        if ok then applied
        else send cb (hangupSignal (callId_ x)) ;> engine Close ;> setState cb Ended)
    else skip).

Definition onSignal (cb : Callbacks) (s : CallSignalIn) : action :=
  reads (fun x =>
    if decide (state_ x = Ended) then skip
    else if bool_decide (type s = #"invite") then onInvite cb s
    else if bool_decide (type s = #"answer") then onAnswer cb s
    else if bool_decide (type s = #"ice") then
      guarded (negb (length (candidate s) =? 0)) (engine (AddRemoteIce (candidate s)))
    else if bool_decide (type s = #"reject") || bool_decide (type s = #"hangup") then
      engine Close ;> setState cb Ended
    else skip).

Definition accept : action :=
  reads (fun x =>
    if decide (state_ x = Incoming) then
      guarded (media_engine_ x)
        (engine (SetWantVideo (bool_decide (media_ x = #"video"))) ;>
         engine (AcceptOffer (remoteOffer_ x)))
    else skip).

(** The callback given to [acceptOffer]. *)
Definition onAnswerReady (cb : Callbacks) (answerSdp : bytes) : action :=
  reads (fun x =>
    if decide (state_ x = Ended) then skip
    else send cb (answerSignal (callId_ x) answerSdp (signSdp cb x answerSdp)) ;>
         setState cb Connecting).

Definition hangup (cb : Callbacks) : action :=
  reads (fun x =>
    if decide (state_ x = Ended) then skip
    else (if decide (state_ x = Incoming)
          then send cb (rejectSignal (callId_ x) (Some #"declined"))
          else send cb (hangupSignal (callId_ x))) ;>
         engine Close ;> setState cb Ended).

Definition dismiss (cb : Callbacks) : action :=
  reads (fun x =>
    if decide (state_ x = Ended) then skip else engine Close ;> setState cb Ended).

Definition setMuted (muted : bool) : action := engine (SetMuted muted).

(** ** Events: what happens to a session, one operation or callback at a time *)

Inductive event :=
| EStart (uuid media : bytes)
| ESignal (s : CallSignalIn)
| EAccept
| EHangup
| EDismiss
| EMuted (muted : bool)
| EOffer (sdp : bytes)
| EAnswerReady (sdp : bytes)
| ELocalIce (candidate : bytes)
| EConnection (connected : bool).

Definition step (cb : Callbacks) (e : event) : action :=
  match e with
  | EStart uuid media => start uuid media
  | ESignal s => onSignal cb s
  | EAccept => accept
  | EHangup => hangup cb
  | EDismiss => dismiss cb
  | EMuted m => setMuted m
  | EOffer sdp => onOffer cb sdp
  | EAnswerReady sdp => onAnswerReady cb sdp
  | ELocalIce c => onLocalIce cb c
  | EConnection b => onConnectionChange cb b
  end.

(** What an engine may report, given the requests it has received: an offer
    or an answer only when asked for one, a connection only once it was given
    the description of the other side. *)
Definition allowed (tr : list call) (e : event) : Prop :=
  match e with
  | EOffer _ => CreateOffer ∈ tr
  | EAnswerReady _ => exists sdp, AcceptOffer sdp ∈ tr
  | EConnection true => exists sdp, AcceptOffer sdp ∈ tr \/ SetRemoteAnswer sdp ∈ tr
  | _ => True
  end.

(** Reachable sessions, with the events so far and the calls made. *)
Inductive reach (x0 : CallSession) : list (Callbacks * event) -> CallSession -> list call -> Prop :=
| reach_init : reach x0 [] x0 []
| reach_step h x tr cb e : reach x0 h x tr -> allowed tr e ->
    reach x0 (h ++ [(cb, e)]) (step cb e x).1 (tr ++ (step cb e x).2).

(** A description received in a signal that the v2 engine had checked, or
    whose signature over the call's identifier verifies with a key of the peer. *)
Definition authentic (h : list (Callbacks * event)) (id sdp : bytes) : Prop :=
  exists cb s, (cb, ESignal s) ∈ h /\ sig_sdp s = sdp /\
    (authenticated s = true \/
     exists pub, pub ∈ pubs cb /\ pub <> [] /\ verify pub (callSignedData id sdp) (sig s) = true).

(** *** Lemmas *)

Ltac run_action :=
  unfold step, start, onSignal, onInvite, onAnswer, accept, hangup, dismiss, setMuted, onOffer,
    onAnswerReady, onLocalIce, onConnectionChange, authenticateSdp, engine, send, setState,
    reads, andThen, modify, guarded, emit, skip in *.
Ltac run_cases := run_action; repeat (case_match; cbn in *; simplify_eq); cbn in *; simplify_eq.

Lemma authentic_mono (h l : list (Callbacks * event)) (id sdp : bytes) :
  authentic h id sdp -> authentic (h ++ l) id sdp.
Proof.
  intros (cb & s & H1 & H2). exists cb, s. split; [|done]. apply elem_of_app. by left.
Qed.

Lemma pubs_nonempty (cb : Callbacks) (pub : bytes) : pub ∈ pubs cb -> pub <> [].
Proof.
  unfold pubs. rewrite elem_of_app. intros [H|H].
  - destruct (cb_peerPubkey cb) as [[|b p]|]; cbn in H; [|set_solver|]; by apply elem_of_nil in H.
  - destruct (cb_peerPubkeys cb) as [ks|]; [|by apply elem_of_nil in H].
    apply list_elem_of_In, List.filter_In in H as [_ H]. by destruct pub.
Qed.

Lemma sdpVerified_authentic (h : list (Callbacks * event)) (cb : Callbacks) (s : CallSignalIn) (id : bytes) :
  sdpVerified cb id (sig_sdp s) (sig s) = true -> authentic (h ++ [(cb, ESignal s)]) id (sig_sdp s).
Proof.
  unfold sdpVerified. intros H. exists cb, s. split; [apply elem_of_app; right; by left|].
  split; [done|]. right. repeat case_match; try done.
  apply existsb_exists in H as (pub & Hin & Hv). apply list_elem_of_In in Hin.
  exists pub. split; [done|]. split; [by eapply pubs_nonempty|done].
Qed.

Lemma authenticated_authentic (h : list (Callbacks * event)) (cb : Callbacks) (s : CallSignalIn) (id : bytes) :
  authenticated s = true -> authentic (h ++ [(cb, ESignal s)]) id (sig_sdp s).
Proof.
  intros H. exists cb, s. split; [apply elem_of_app; right; by left|]. split; [done|by left].
Qed.

(** The part of the invariant that one session keeps at every event. *)
Record inv (h : list (Callbacks * event)) (x : CallSession) (tr : list call) : Prop := {
  inv_incoming : state_ x = Incoming -> authentic h (callId_ x) (remoteOffer_ x);
  inv_applied : forall sdp, AcceptOffer sdp ∈ tr \/ SetRemoteAnswer sdp ∈ tr ->
    (exists id, authentic h id sdp) /\ (state_ x = Ended \/ peerAuth_ x = Verified);
  inv_auth : state_ x = Incoming \/ state_ x = Connecting \/ state_ x = Active -> peerAuth_ x = Verified
}.

(** *** One event *)

Lemma step_ended (cb : Callbacks) (e : event) (x : CallSession) : state_ x = Ended ->
  (step cb e x).1 = x /\ Forall (fun c => exists m, c = SetMuted m) (step cb e x).2.
Proof.
  intros H. destruct e; run_action; rewrite ?H; cbn; try (by split; [|constructor]).
  destruct (media_engine_ x); cbn; (split; [done|]); repeat constructor. by eexists.
Qed.

(** Every event keeps whose session it is. *)
Lemma step_peer (cb : Callbacks) (e : event) (x : CallSession) :
  peer_ (step cb e x).1 = peer_ x /\ self_ (step cb e x).1 = self_ x.
Proof. destruct e; run_cases; done. Qed.

(** A signal checked by the v2 engine never fails the check of signatures. *)
Lemma step_checked (cb : Callbacks) (e : event) (x : CallSession) :
  (forall s, e = ESignal s -> authenticated s = true) ->
  peerAuth_ (step cb e x).1 = peerAuth_ x \/ peerAuth_ (step cb e x).1 = Verified.
Proof.
  intros H. destruct e as [| s | | | | | | | |]; try (run_cases; by auto).
  specialize (H s eq_refl). run_action. rewrite H.
  repeat (case_match; cbn in *; simplify_eq); cbn; by auto.
Qed.

(** Only an invite makes a session ring. *)
Lemma step_incoming (cb : Callbacks) (e : event) (x : CallSession) :
  state_ (step cb e x).1 = Incoming -> state_ x = Incoming \/ peerAuth_ (step cb e x).1 = Verified.
Proof. destruct e; run_cases; by auto. Qed.

(** A checked invite to a session that did nothing yet. *)
Lemma onSignal_invite (cb : Callbacks) (s : CallSignalIn) (x : CallSession) :
  state_ x = Idle -> type s = #"invite" -> authenticated s = true -> cb_onState cb = true ->
  onSignal cb s x =
  (with_state Incoming (with_auth Verified (with_offer (sig_sdp s)
     (with_call (call_id s) (orAudio (media s)) x))), [OnState Incoming]).
Proof.
  intros Hx Ht Ha Hc. unfold onSignal, reads. rewrite decide_False by congruence.
  rewrite bool_decide_eq_true_2 by done. unfold onInvite. rewrite Ha. unfold setState, reads, andThen, modify.
  cbn. rewrite decide_False by congruence. by rewrite Hc.
Qed.

(** A request that hands a description of the other side to the engine. *)
Definition applies (c : call) : option bytes :=
  match c with AcceptOffer sdp | SetRemoteAnswer sdp => Some sdp | _ => None end.

(** What an event owes the invariant, with its calls [w] taken one by one. *)
Lemma inv_intro h h' x x' tr w : inv h x tr -> state_ x <> Ended ->
  (forall id sdp, authentic h id sdp -> authentic h' id sdp) ->
  (state_ x' = Incoming -> authentic h' (callId_ x') (remoteOffer_ x')) ->
  (state_ x' = Ended \/ peerAuth_ x' = Verified \/ peerAuth_ x' = peerAuth_ x) ->
  (state_ x' = Incoming \/ state_ x' = Connecting \/ state_ x' = Active -> peerAuth_ x' = Verified) ->
  Forall (fun c => match applies c with
    | Some sdp => (exists id, authentic h' id sdp) /\ peerAuth_ x' = Verified | None => True end) w ->
  inv h' x' (tr ++ w).
Proof.
  intros [H1 H2 H3] He Hm Hi Ha Hs Hw. split; [done| |done].
  intros sdp Hin. rewrite !elem_of_app in Hin. rewrite Forall_elem in Hw.
  assert ((AcceptOffer sdp ∈ tr \/ SetRemoteAnswer sdp ∈ tr) \/
          (AcceptOffer sdp ∈ w \/ SetRemoteAnswer sdp ∈ w)) as [Ho|Hn] by tauto.
  - destruct (H2 sdp Ho) as [[id Hid] Hv]. split; [by eauto|]. destruct Hv as [Hv|Hv]; [done|].
    rewrite Hv in Ha. tauto.
  - destruct Hn as [Hn|Hn]; destruct (Hw _ Hn) as [Hid Hv]; by eauto.
Qed.

Ltac inv_cases H1 H3 :=
  first
    [ discriminate | congruence
    | by apply authentic_mono, H1
    | by apply sdpVerified_authentic
    | by apply authenticated_authentic
    | by left | by right; left | by right; right
    | intros [?|[?|?]]; simplify_eq; by auto
    | done ].

(** What the engine is told is bound to the identifier of the call. *)
Lemma step_applies h x tr cb e : inv h x tr -> state_ x <> Ended ->
  Forall (fun c => match applies c with
    | Some sdp => authentic (h ++ [(cb, e)]) (callId_ x) sdp /\ peerAuth_ (step cb e x).1 = Verified
    | None => True end) (step cb e x).2.
Proof.
  intros [H1 H2 H3] He. destruct e; run_cases; repeat constructor; cbn; auto.
  all: inv_cases H1 H3.
Qed.

Lemma inv_step_live h x tr cb e : state_ x <> Ended -> inv h x tr -> allowed tr e ->
  inv (h ++ [(cb, e)]) (step cb e x).1 (tr ++ (step cb e x).2).
Proof.
  intros He Hinv Ha. pose proof Hinv as [H1 H2 H3].
  apply (inv_intro h _ x); [done|done|intros; by apply authentic_mono|..].
  - destruct e; run_cases; intros; inv_cases H1 H3.
  - destruct e; run_cases; intros; inv_cases H1 H3.
  - assert (forall sdp, AcceptOffer sdp ∈ tr \/ SetRemoteAnswer sdp ∈ tr -> peerAuth_ x = Verified) as Hv.
    { intros sdp Hin. by destruct (H2 sdp Hin) as [_ [?|?]]. }
    destruct e; run_cases; intros Hs; try done;
      try (destruct Ha as [? Ha]); try (by eauto); try (by apply H3; auto); try (destruct Hs as [|[|]]; congruence).
  - eapply List.Forall_impl; [|by apply (step_applies h x tr cb e)]. intros c; cbn beta; intros Hc.
    destruct (applies c); [|done]. destruct Hc as [Hc Hv]. by eauto.
Qed.

Lemma inv_step h x tr cb e : inv h x tr -> allowed tr e ->
  inv (h ++ [(cb, e)]) (step cb e x).1 (tr ++ (step cb e x).2).
Proof.
  intros Hinv Ha. destruct (decide (state_ x = Ended)) as [He|He]; [|by apply inv_step_live].
  destruct (step_ended cb e x He) as [-> Hw]. destruct Hinv as [H1 H2 H3].
  split; [rewrite He; done| |rewrite He; by intros [?|[?|?]]].
  intros sdp Hin. rewrite Forall_elem in Hw. rewrite !elem_of_app in Hin. split; [|by left].
  assert (AcceptOffer sdp ∈ tr \/ SetRemoteAnswer sdp ∈ tr) as Ho.
  { destruct Hin as [[?|Hn]|[?|Hn]]; auto; by apply Hw in Hn as [? ?]. }
  destruct (H2 sdp Ho) as [[id Hid] _]. exists id. by apply authentic_mono.
Qed.

Lemma reach_inv x0 h x tr : state_ x0 = Idle -> reach x0 h x tr -> inv h x tr.
Proof.
  intros H0. induction 1 as [|h x tr cb e Hr IH Ha]; [|by apply inv_step].
  split; [congruence| |intros [?|[?|?]]; congruence].
  intros sdp [H|H]; by apply elem_of_nil in H.
Qed.

(** *** Properties *)

(** Remote candidates come from signals of the peer, as they are. *)
Lemma step_candidate (cb : Callbacks) (e : event) (x : CallSession) (c : bytes) : AddRemoteIce c ∈ (step cb e x).2 ->
  state_ x <> Ended /\ exists s, e = ESignal s /\ type s = #"ice" /\ candidate s = c /\ c <> [].
Proof.
  destruct e; run_action; repeat (case_match; cbn in *; simplify_eq); cbn in *; rewrite ?elem_of_cons, ?elem_of_app, ?elem_of_nil in *; try set_solver.
  intros [[= ->]|[]]. split; [done|]. eexists. split; [done|]. split; [|split; [done|by intros E; rewrite E in *]].
  match goal with H : bool_decide (type _ = _) = true |- _ => by apply bool_decide_eq_true_1 in H end.
Qed.

(** Claim C1 (media_authenticated): in every run of a new session in which the
    engine reports only what it was asked for, whatever description (offer or
    answer) of the other side is handed to the engine came in a signal that the
    v2 engine marked as checked, or whose signature over this call's identifier
    and that description verifies with a key of the peer; and the call rings,
    connects or is active only with the peer verified. Candidates carry no
    signature: one is handed on only from a signal of its kind and not after the
    end of the call. *)
Theorem media_authenticated self peer key media h x tr :
  reach (newCallSession self peer key media) h x tr ->
  (state_ x = Incoming \/ state_ x = Connecting \/ state_ x = Active -> peerAuth_ x = Verified) /\
  (forall cb e sdp, AcceptOffer sdp ∈ (step cb e x).2 \/ SetRemoteAnswer sdp ∈ (step cb e x).2 ->
     authentic (h ++ [(cb, e)]) (callId_ x) sdp /\ peerAuth_ (step cb e x).1 = Verified) /\
  (forall cb e c, AddRemoteIce c ∈ (step cb e x).2 ->
     state_ x <> Ended /\ exists s, e = ESignal s /\ type s = #"ice" /\ candidate s = c /\ c <> []).
Proof.
  intros Hr. apply reach_inv in Hr as Hinv; [|done]. split; [apply Hinv|]. split; [|intros cb e c; apply step_candidate].
  intros cb e sdp Hin. destruct (decide (state_ x = Ended)) as [He|He].
  - destruct (step_ended cb e x He) as [_ Hw]. rewrite Forall_elem in Hw.
    destruct Hin as [Hin|Hin]; by apply Hw in Hin as [? ?].
  - pose proof (step_applies h x tr cb e Hinv He) as Hw. rewrite Forall_elem in Hw.
    destruct Hin as [Hin|Hin]; by apply Hw in Hin.
Qed.

(** Property (over is over): once a session has ended, no event changes it and
    nothing more is sent or reported. *)
Theorem ended_is_final (cb : Callbacks) (e : event) (x : CallSession) :
  state_ x = Ended ->
  (step cb e x).1 = x /\
  forall c, c ∈ (step cb e x).2 -> exists m, c = SetMuted m /\ e = EMuted m.
Proof.
  intros H. destruct (step_ended cb e x H) as [E _]. split; [done|]. clear E.
  intros c Hc. destruct e; revert Hc; run_action; rewrite ?H; cbn; try by rewrite elem_of_nil.
  destruct (media_engine_ x); cbn; [|by rewrite elem_of_nil].
  rewrite list_elem_of_singleton. eauto.
Qed.

(** The state the host has been told of, starting from [s]. *)
Definition told (s : CallState) (tr : list call) : CallState :=
  foldl (fun s c => match c with OnState s' => s' | _ => s end) s tr.

(** Every notification announces a change. *)
Fixpoint changes (s : CallState) (tr : list call) : Prop :=
  match tr with
  | [] => True
  | OnState s' :: tr' => s' <> s /\ changes s' tr'
  | _ :: tr' => changes s tr'
  end.

(** Property (the host sees the state): a host that takes notifications is
    told of every change of the state, of nothing else, and in the end knows
    the state the session is in. *)
Theorem host_sees_state (cb : Callbacks) (e : event) (x : CallSession) :
  cb_onState cb = true ->
  told (state_ x) (step cb e x).2 = state_ (step cb e x).1 /\ changes (state_ x) (step cb e x).2.
Proof.
  intros H. destruct e; run_action; repeat (rewrite ?H; case_match; cbn in *; simplify_eq);
    cbn in *; rewrite ?H in *; try done; auto.
Qed.

(** Property (ending a call): hanging up ends every call that is not over,
    releases the engine, and tells the peer once: a refusal while the call
    rings here, a hang-up otherwise; closing it because another device took
    the decision tells the peer nothing. *)
Theorem ending_a_call (cb : Callbacks) (x : CallSession) :
  state_ x <> Ended -> media_engine_ x = true -> cb_sendSignal cb = true -> cb_onState cb = true ->
  hangup cb x = (with_state Ended x,
    [SendSignal (if decide (state_ x = Incoming) then rejectSignal (callId_ x) (Some #"declined")
                 else hangupSignal (callId_ x)); Close; OnState Ended]) /\
  dismiss cb x = (with_state Ended x, [Close; OnState Ended]).
Proof.
  intros H1 H2 H3 H4. run_action. rewrite H3, H4.
  destruct (decide (state_ x = Ended)) as [|E]; [done|].
  destruct (decide (state_ x = Incoming)); cbn; rewrite H2; cbn;
    destruct (decide (state_ x = Ended)); done.
Qed.

End Verify.

(** *** The properties at concrete inputs *)

(** Signatures that are the signed bytes under the key's name. *)
Definition toyVerify (pub data sig : bytes) : bool := bool_decide (sig = pub ++ data).
Definition toyCallbacks : Callbacks := mkCallbacks true (Some #"K") None true None.
Definition toyInvite : CallSignalIn :=
  mkCallSignalIn #"invite" #"c1" #"audio" #"SDP" (#"K" ++ callSignedData #"c1" #"SDP") [] None [] []
    [] [] false false false.
Definition toyCall : list (Callbacks * event) :=
  [(toyCallbacks, ESignal toyInvite); (toyCallbacks, EAccept);
   (toyCallbacks, EAnswerReady #"ANS"); (toyCallbacks, EConnection true)].

Lemma media_authenticated_witness : exists x tr,
  reach toyVerify (newCallSession #"b" #"a" None true) toyCall x tr /\
  state_ x = Active /\ peerAuth_ x = Verified.
Proof.
  assert (exists x tr, reach toyVerify (newCallSession #"b" #"a" None true) toyCall x tr /\
    state_ x = Active) as (x & tr & Hr & Hs).
  { pose proof (reach_init toyVerify (newCallSession #"b" #"a" None true)) as R.
    apply (reach_step _ _ _ _ _ toyCallbacks (ESignal toyInvite)) in R; [|exact I].
    apply (reach_step _ _ _ _ _ toyCallbacks EAccept) in R; [|exact I].
    apply (reach_step _ _ _ _ _ toyCallbacks (EAnswerReady #"ANS")) in R;
      [|exists #"SDP"; right; right; left].
    apply (reach_step _ _ _ _ _ toyCallbacks (EConnection true)) in R;
      [|exists #"SDP"; left; right; right; left].
    eexists _, _. split; [exact R|reflexivity]. }
  exists x, tr. split; [exact Hr|].
  split; [exact Hs|]. apply (proj1 (media_authenticated _ _ _ _ _ _ _ _ Hr)). auto.
Defined.

Lemma ended_is_final_witness :
  (step toyVerify toyCallbacks (ESignal toyInvite)
     (with_state Ended (newCallSession #"b" #"a" None true))).1
  = with_state Ended (newCallSession #"b" #"a" None true).
Proof. apply ended_is_final. reflexivity. Defined.

Lemma host_sees_state_witness :
  told Idle (step toyVerify toyCallbacks (ESignal toyInvite) (newCallSession #"b" #"a" None true)).2
  = Incoming.
Proof.
  apply (host_sees_state toyVerify toyCallbacks (ESignal toyInvite)
           (newCallSession #"b" #"a" None true)). reflexivity.
Defined.

Lemma ending_a_call_witness :
  hangup toyCallbacks (with_state Incoming (newCallSession #"b" #"a" None true))
  = (with_state Ended (newCallSession #"b" #"a" None true),
     [SendSignal (rejectSignal [] (Some #"declined")); Close; OnState Ended]).
Proof.
  apply (ending_a_call toyCallbacks (with_state Incoming (newCallSession #"b" #"a" None true)));
    [discriminate|reflexivity|reflexivity|reflexivity].
Defined.

End Session.
