(* ===== verification/CallManager.v ===== *)
(** * CallManager: one personal call at a time

    Module [Manager] models [src/call_manager.cpp]: the manager keeps at most
    one session (of [CallSession]), routes the signals of the bus to it and
    sends the session's signals to the peer. Callbacks of a session go to the
    host through the manager, so a session's calls are translated one by one. *)

From S2P Require Import Prelude Json Call CallSession.

Module Manager.
Import Signals Session.

(** The calls the manager makes. *)
Inductive mcall :=
| SendV2 (peer : bytes) (signal : json)
| OnIncoming (peer media : bytes)
| NotifyState (s : CallState)
| OnMediaState (peer : bytes) (audioMuted videoMuted : bool)
| Engine (c : call).

(** The host's callbacks; [makeBackend] tells whether the factory gave an engine. *)
Record MCallbacks := mkMCallbacks {
  m_onIncoming : bool;
  m_onState : bool;
  m_peerPubkey : option (bytes -> bytes);
  m_peerPubkeys : option (bytes -> list bytes);
  m_sign : option (bytes -> bytes);
  m_sendV2 : bool;
  m_onMediaState : bool;
  m_makeBackend : bool
}.

Record CallManager := mkCallManager {
  self_ : bytes;
  key_ : option (bytes -> bytes);
  session_ : option CallSession;
  peer_ : bytes
}.

Definition newCallManager (self : bytes) (key : option (bytes -> bytes)) : CallManager :=
  {| self_ := self; key_ := key; session_ := None; peer_ := [] |}.

Definition with_session (s : option CallSession) (p : bytes) (m : CallManager) : CallManager :=
  {| self_ := self_ m; key_ := key_ m; session_ := s; peer_ := p |}.

Abbreviation maction := (act CallManager mcall).

Section Verify.
Context (verify : bytes -> bytes -> bytes -> bool).

Definition sendTo (cb : MCallbacks) (peer : bytes) (signal : json) : maction :=
  guarded (m_sendV2 cb) (emit (SendV2 peer signal)).

(** The callbacks [newSession] gives to the session: they ask for [peer_]. *)
Definition sessionCallbacks (cb : MCallbacks) (peer : bytes) : Callbacks :=
  {| cb_sendSignal := true;
     cb_peerPubkey := Some (match m_peerPubkey cb with Some f => f peer | None => [] end);
     cb_peerPubkeys := Some (match m_peerPubkeys cb with Some f => f peer | None => [] end);
     cb_onState := true;
     cb_sign := m_sign cb |}.

(** A call of the session, as the manager's callbacks pass it on. *)
Definition passOn (cb : MCallbacks) (peer : bytes) (c : call) : list mcall :=
  match c with
  | SendSignal j => if m_sendV2 cb then [SendV2 peer j] else []
  | OnState s => if m_onState cb then [NotifyState s] else []
  | _ => [Engine c]
  end.

(** Runs an action on the session, if there is one. *)
Definition onSession (cb : MCallbacks) (a : Callbacks -> act CallSession call) : maction :=
  fun m => match session_ m with
           | None => (m, [])
           | Some s => let '(s', w) := a (sessionCallbacks cb (peer_ m)) s in
                       (with_session (Some s') (peer_ m) m, w ≫= passOn cb (peer_ m))
           end.

Definition newSession (cb : MCallbacks) (peer : bytes) : maction :=
  modify (fun m => with_session (Some (newCallSession (self_ m) peer (key_ m) (m_makeBackend cb))) peer m).

Definition state (m : CallManager) : CallState :=
  match session_ m with Some s => state_ s | None => Idle end.
Definition peerAuth (m : CallManager) : PeerAuth :=
  match session_ m with Some s => peerAuth_ s | None => Unknown end.
Definition callId (m : CallManager) : bytes :=
  match session_ m with Some s => callId_ s | None => [] end.

Definition placeCall (cb : MCallbacks) (uuid peer media : bytes) : maction :=
  newSession cb peer ;> onSession cb (fun _ => start uuid media).

(** The signal is of the current call: same peer, same identifier. *)
Definition ofCurrent (m : CallManager) (from id : bytes) : bool :=
  match session_ m with
  | Some s => bool_decide (from = peer_ m) && bool_decide (id = callId_ s)
  | None => false
  end.

Definition busy (m : CallManager) : bool :=
  match session_ m with
  | Some s => negb (bool_decide (state_ s = Ended)) && negb (bool_decide (state_ s = Idle))
  | None => false
  end.

Definition handleSignal (cb : MCallbacks) (from : bytes) (s : CallSignalIn) : maction :=
  reads (fun m =>
    if bool_decide (type s = #"invite") then
      if ofCurrent m from (call_id s) then skip
      else if busy m then sendTo cb from (rejectSignal (call_id s) (Some #"busy"))
      else newSession cb from ;> onSession cb (fun scb => onSignal verify scb s) ;>
           reads (fun m' => if bool_decide (state m' = Incoming) && m_onIncoming cb
                            then emit (OnIncoming from (orAudio (media s))) else skip)
    else if ofCurrent m from (call_id s) then
      if bool_decide (type s = #"media")
      then guarded (m_onMediaState cb) (emit (OnMediaState from (audio_muted s) (video_muted s)))
      else onSession cb (fun scb => onSignal verify scb s)
    else skip).

(** [dismissIncoming] also tells whether it was that call. *)
Definition isIncoming (m : CallManager) (id : bytes) : bool :=
  match session_ m with
  | Some s => bool_decide (callId_ s = id) && bool_decide (state_ s = Incoming)
  | None => false
  end.
Definition dismissIncoming (cb : MCallbacks) (id : bytes) : maction :=
  reads (fun m => if isIncoming m id then onSession cb dismiss else skip).

Definition set_authenticated (s : CallSignalIn) : CallSignalIn :=
  {| type := type s; call_id := call_id s; media := media s; sig_sdp := sig_sdp s; sig := sig s;
     candidate := candidate s; reason := reason s; group_call_id := group_call_id s;
     participants := participants s; group := group s; title := title s;
     audio_muted := audio_muted s; video_muted := video_muted s; authenticated := true |}.

(** [handleV2Signal] throws what the reader of the signal throws. *)
Definition handleV2Signal (cb : MCallbacks) (from : bytes) (signal : json) (m : CallManager) :
    result exn (CallManager * list mcall) :=
  let! s := fromJson signal in
  Ok ((if bool_decide (from = self_ m) then
         guarded (bool_decide (type s = #"reject")) (dismissIncoming cb (call_id s))
       else handleSignal cb from (set_authenticated s)) m).

Definition accept (cb : MCallbacks) : maction := onSession cb (fun _ => Session.accept).
Definition hangup (cb : MCallbacks) : maction := onSession cb Session.hangup.
Definition setMuted (cb : MCallbacks) (muted : bool) : maction :=
  onSession cb (fun _ => Session.setMuted muted).

Definition sendMediaState (cb : MCallbacks) (audioMuted videoMuted : bool) : maction :=
  reads (fun m => match session_ m with
                  | Some s => guarded (negb (length (peer_ m) =? 0))
                                (sendTo cb (peer_ m) (mediaStateSignal (callId_ s) audioMuted videoMuted))
                  | None => skip
                  end).

(** A callback of the engine of the current session. *)
Definition engineEvent (cb : MCallbacks) (e : event) : maction :=
  onSession cb (fun scb => step verify scb e).

(** *** Lemmas *)

(** Every operation leaves [self_] and [key_] alone, and keeps the session of
    the peer the manager talks to. *)
Definition wf (m : CallManager) : Prop :=
  match session_ m with
  | Some s => Session.peer_ s = peer_ m /\ Session.self_ s = self_ m
  | None => peer_ m = []
  end.

Lemma onSession_wf (cb : MCallbacks) (a : Callbacks -> act CallSession call) (m : CallManager) :
  (forall scb x, Session.peer_ (a scb x).1 = Session.peer_ x /\
                 Session.self_ (a scb x).1 = Session.self_ x) ->
  wf m -> wf (onSession cb a m).1.
Proof.
  intros Ha. unfold wf, onSession. destruct (session_ m) as [s|] eqn:E; cbn; [|by rewrite E].
  specialize (Ha (sessionCallbacks cb (peer_ m)) s). destruct (a _ s) as [s' w]. cbn in *.
  by destruct Ha as [-> ->].
Qed.

Lemma newSession_wf (cb : MCallbacks) (peer : bytes) (m : CallManager) : wf (newSession cb peer m).1.
Proof. done. Qed.

(** ** Operations as events *)

Inductive mevent :=
| MPlaceCall (uuid peer media : bytes)
| MV2Signal (from : bytes) (signal : json)
| MAccept
| MHangup
| MDismiss (id : bytes)
| MMuted (muted : bool)
| MMediaState (audioMuted videoMuted : bool)
| MEngine (e : event).

Definition isCallback (e : event) : bool :=
  match e with EOffer _ | EAnswerReady _ | ELocalIce _ | EConnection _ => true | _ => false end.

(** A signal that cannot be read throws before it changes anything. *)
Definition mstep (cb : MCallbacks) (ev : mevent) (m : CallManager) : CallManager * list mcall :=
  match ev with
  | MPlaceCall uuid peer media => placeCall cb uuid peer media m
  | MV2Signal from signal => match handleV2Signal cb from signal m with Ok r => r | Err _ => (m, []) end
  | MAccept => accept cb m
  | MHangup => hangup cb m
  | MDismiss id => dismissIncoming cb id m
  | MMuted b => setMuted cb b m
  | MMediaState a v => sendMediaState cb a v m
  | MEngine e => if isCallback e then engineEvent cb e m else (m, [])
  end.

Inductive mreach (m0 : CallManager) : CallManager -> Prop :=
| mreach_init : mreach m0 m0
| mreach_step m cb ev : mreach m0 m -> mreach m0 (mstep cb ev m).1.

Record minv (m : CallManager) : Prop := {
  minv_wf : wf m;
  minv_auth : peerAuth m <> Failed;
  minv_incoming : state m = Incoming -> peerAuth m = Verified
}.

Lemma onSession_step (cb : MCallbacks) (e : event) (m : CallManager) :
  (forall s, e = ESignal s -> authenticated s = true) -> minv m ->
  minv (onSession cb (fun scb => step verify scb e) m).1.
Proof.
  intros He [Hwf Ha Hi]. destruct (session_ m) as [s|] eqn:E.
  2: { unfold onSession. rewrite E. by split. }
  pose proof (step_checked verify (sessionCallbacks cb (peer_ m)) e s He) as Hc.
  pose proof (step_incoming verify (sessionCallbacks cb (peer_ m)) e s) as Hs.
  split.
  - apply onSession_wf; [|done]. intros. apply step_peer.
  - unfold peerAuth, onSession in *. rewrite E in *.
    destruct (step verify _ e s) as [s' w]. cbn in *. destruct Hc as [-> | ->]; [done|discriminate].
  - unfold peerAuth, state, onSession in *. rewrite E in *.
    destruct (step verify _ e s) as [s' w]. cbn in *. intros H. destruct (Hs H) as [H1|]; [|done].
    destruct Hc as [-> | ->]; [by apply Hi|done].
Qed.

Lemma minv_newSession (cb : MCallbacks) (peer : bytes) (m : CallManager) : minv (newSession cb peer m).1.
Proof. by split. Qed.

Lemma minv_handleSignal (cb : MCallbacks) (from : bytes) (s : CallSignalIn) (m : CallManager) :
  authenticated s = true -> minv m -> minv (handleSignal cb from s m).1.
Proof.
  intros Hs Hm. unfold handleSignal, reads.
  assert (forall m, minv m -> minv (onSession cb (fun scb => onSignal verify scb s) m).1) as Hon.
  { intros m' Hm'. apply (onSession_step cb (ESignal s)); [|done]. intros ? [= <-]. done. }
  repeat case_match; try done.
  - unfold sendTo, guarded. by case_match.
  - apply andThen_state; [apply minv_newSession|]. intros m1 Hm1.
    apply andThen_state; [by apply Hon|]. intros m2 Hm2. by case_match.
  - unfold guarded. by case_match.
  - by apply Hon.
Qed.

Lemma minv_step (cb : MCallbacks) (ev : mevent) (m : CallManager) : minv m -> minv (mstep cb ev m).1.
Proof.
  intros Hm. destruct ev as [uuid peer media|from signal| | |id|b|a v|e]; cbn [mstep].
  - unfold placeCall. apply andThen_state; [apply minv_newSession|]. intros m1 Hm1.
    by apply (onSession_step cb (EStart uuid media)).
  - unfold handleV2Signal. destruct (fromJson signal) as [s|]; cbn; [|done].
    case_match; [|by apply minv_handleSignal].
    unfold guarded. case_match; [|done]. unfold dismissIncoming, reads. case_match; [|done].
    by apply (onSession_step cb EDismiss).
  - by apply (onSession_step cb EAccept).
  - by apply (onSession_step cb EHangup).
  - unfold dismissIncoming, reads. case_match; [|done]. by apply (onSession_step cb EDismiss).
  - by apply (onSession_step cb (EMuted b)).
  - unfold sendMediaState, reads. case_match; [|done]. unfold guarded. case_match; [|done].
    unfold sendTo, guarded. by case_match.
  - case_match; [|done]. apply onSession_step; [|done]. by intros s ->.
Qed.

Lemma mreach_inv (m0 m : CallManager) : minv m0 -> mreach m0 m -> minv m.
Proof. intros H0. induction 1; [done|]. by apply minv_step. Qed.

(** *** Properties *)

(** Property (the manager's invariant): whatever happens, the manager's peer is
    the session's peer; since signals enter only checked by the v2 engine, the
    authentication of the peer never fails, and a call rings only with its
    initiator verified. *)
Theorem manager_invariant (self : bytes) (key : option (bytes -> bytes)) (m : CallManager) :
  mreach (newCallManager self key) m ->
  wf m /\ peerAuth m <> Failed /\ (state m = Incoming -> peerAuth m = Verified).
Proof. intros H. apply mreach_inv in H; [|by split]. by destruct H. Qed.

(** Property (a call in progress is not disturbed): while a call is in
    progress, a signal that is not of it changes nothing; the only answer is a
    refusal as busy, to the sender of an invite. *)
Theorem busy_undisturbed (cb : MCallbacks) (from : bytes) (s : CallSignalIn) (m : CallManager) :
  busy m = true -> ofCurrent m from (call_id s) = false ->
  handleSignal cb from s m =
  (m, if bool_decide (type s = #"invite") && m_sendV2 cb
      then [SendV2 from (rejectSignal (call_id s) (Some #"busy"))] else []).
Proof.
  intros Hb Hc. unfold handleSignal, reads. rewrite Hb, Hc. case_bool_decide; [|done].
  unfold sendTo. by destruct (m_sendV2 cb).
Qed.

(** Property (an invite rings once): to a manager that is not in a call, a
    checked invite makes a session with its sender that rings; the same invite
    once more, by any path, changes nothing. *)
Theorem invite_rings_once (cb : MCallbacks) (from : bytes) (s : CallSignalIn) (m : CallManager) :
  busy m = false -> ofCurrent m from (call_id s) = false ->
  type s = #"invite" -> authenticated s = true ->
  let r := handleSignal cb from s m in
  state r.1 = Incoming /\ peerAuth r.1 = Verified /\ peer_ r.1 = from /\ callId r.1 = call_id s /\
  r.2 = (if m_onState cb then [NotifyState Incoming] else []) ++
        (if m_onIncoming cb then [OnIncoming from (orAudio (media s))] else []) /\
  handleSignal cb from s r.1 = (r.1, []).
Proof.
  intros Hb Hc Ht Ha. cbv zeta.
  assert (handleSignal cb from s m =
    (with_session (Some (with_state Incoming (with_auth Verified (with_offer (sig_sdp s)
       (with_call (call_id s) (orAudio (media s))
          (newCallSession (self_ m) from (key_ m) (m_makeBackend cb))))))) from m,
     (if m_onState cb then [NotifyState Incoming] else []) ++
     (if m_onIncoming cb then [OnIncoming from (orAudio (media s))] else []))) as ->.
  { unfold handleSignal, reads at 1. rewrite Hb, Hc, bool_decide_eq_true_2 by done.
    rewrite !andThen_eq. unfold newSession, onSession, modify. cbn [fst snd session_ peer_ with_session].
    rewrite onSignal_invite by done. cbn. by destruct (m_onState cb), (m_onIncoming cb). }
  cbn. split_and!; try done. unfold handleSignal, reads. rewrite Ht, bool_decide_eq_true_2 by done.
  unfold ofCurrent. cbn. by rewrite !bool_decide_eq_true_2 by done.
Qed.

(** Property (another own device decided): a refusal sent by the user's own
    other device closes the call that rings under its identifier without a
    word to the peer; other signals of the user's own devices change nothing. *)
Theorem own_device_decides (cb : MCallbacks) (signal : json) (s : CallSignalIn) (m : CallManager) :
  fromJson signal = Ok s ->
  exists m' w, handleV2Signal cb (self_ m) signal m = Ok (m', w) /\
    (forall p j, SendV2 p j ∉ w) /\
    (if bool_decide (type s = #"reject") && isIncoming m (call_id s)
     then state m' = Ended /\ callId m' = call_id s else m' = m /\ w = []).
Proof.
  intros Hj. unfold handleV2Signal. rewrite Hj. cbn [rbind]. rewrite bool_decide_eq_true_2 by done.
  case_bool_decide; cbn [guarded andb].
  2: { eexists _, _. split; [done|]. split; [|done]. intros p j. apply not_elem_of_nil. }
  unfold dismissIncoming, reads. destruct (isIncoming m (call_id s)) eqn:E.
  2: { eexists _, _. split; [done|]. split; [|done]. intros p j. apply not_elem_of_nil. }
  unfold isIncoming in E. destruct (session_ m) as [x|] eqn:Es; [|done].
  apply andb_true_iff in E as [E1 E2]. apply bool_decide_eq_true in E1, E2.
  unfold onSession. rewrite Es.
  assert (dismiss (sessionCallbacks cb (peer_ m)) x = (with_state Ended x,
    (if media_engine_ x then [Close] else []) ++ [OnState Ended])) as ->.
  { unfold dismiss, Session.engine, Session.setState, reads, modify, andThen, guarded, emit, skip.
    rewrite decide_False by congruence. destruct (media_engine_ x); rewrite decide_False by congruence; done. }
  eexists _, _. split; [done|]. split; [|done].
  intros p j. destruct (media_engine_ x), (m_onState cb) eqn:Ho; cbn; rewrite ?Ho; cbn;
    rewrite ?elem_of_cons, ?elem_of_nil; naive_solver.
Qed.

End Verify.

(** *** The properties at concrete inputs *)

Definition toyHost : MCallbacks := mkMCallbacks true true None None None true true true.
Definition toyInvite : CallSignalIn :=
  mkCallSignalIn #"invite" #"c1" #"video" #"SDP" [] [] None [] [] [] [] false false true.
(** A manager that an invite made ring. *)
Definition toyRinging : CallManager :=
  (handleSignal (fun _ _ _ => false) toyHost #"ann" toyInvite (newCallManager #"bob" None)).1.

Lemma manager_invariant_witness :
  peerAuth (mstep (fun _ _ _ => false) toyHost
    (MV2Signal #"ann" (inviteSignal #"c1" #"video" #"SDP" [])) (newCallManager #"bob" None)).1 <> Failed.
Proof.
  apply (manager_invariant (fun _ _ _ => false) #"bob" None). apply mreach_step, mreach_init.
Defined.

Lemma busy_undisturbed_witness :
  handleSignal (fun _ _ _ => false) toyHost #"eve" toyInvite toyRinging
  = (toyRinging, [SendV2 #"eve" (rejectSignal #"c1" (Some #"busy"))]).
Proof. apply busy_undisturbed; vm_compute; reflexivity. Defined.

Lemma invite_rings_once_witness :
  state toyRinging = Incoming /\
  handleSignal (fun _ _ _ => false) toyHost #"ann" toyInvite toyRinging = (toyRinging, []).
Proof.
  destruct (invite_rings_once (fun _ _ _ => false) toyHost #"ann" toyInvite (newCallManager #"bob" None))
    as (H1 & _ & _ & _ & _ & H2); [reflexivity|reflexivity|reflexivity|reflexivity|].
  split; [exact H1|exact H2].
Defined.

Lemma own_device_decides_witness : exists m' w,
  handleV2Signal (fun _ _ _ => false) toyHost #"bob" (rejectSignal #"c1" (Some #"declined")) toyRinging
    = Ok (m', w) /\ state m' = Ended.
Proof.
  destruct (own_device_decides (fun _ _ _ => false) toyHost (rejectSignal #"c1" (Some #"declined"))
    (mkCallSignalIn #"reject" #"c1" [] [] [] [] (Some #"declined") [] [] [] [] false false false) toyRinging)
    as (m' & w & H1 & _ & H2); [vm_compute; reflexivity|].
  exists m', w. split; [exact H1|]. apply H2.
Defined.

End Manager.
