(* ===== verification/GroupCall.v ===== *)
(** * GroupCall: a group call as a mesh of sessions

    Module [Group] models [src/group_call_manager.cpp]: a session of
    [CallSession] for every other participant, an invitation that waits for the
    user with the signals buffered meanwhile, the calls that have gone silent
    here, and the outgoing queues of [asyncSend]. One action is one public
    operation, one callback of an engine or one turn of an outgoing thread; the
    locks of the sources make these atomic. The monotonic clock is read once
    per operation ([now], in nanoseconds); [newUuid] gives the identifiers that
    [newUuidV7] draws, one after the other. *)

From S2P Require Import Prelude Json PlannerUtil Call CallSession CallManager.

Module Group.
Import Signals Session.

(** 45 s of the monotonic clock, and how many silent calls are kept. *)
Definition kSilenceFor : Z := 45 * 10 ^ 9.
Definition kSilenceLimit : nat := 64.
Definition kMaxParticipants : nat := 64.

Inductive gcall :=
| SendV2 (peer : bytes) (signal : json) (groupCallId : bytes)
| OnPeerState (peer : bytes) (s : CallState)
| OnMediaState (peer : bytes) (audioMuted videoMuted : bool)
| OnInvite (from groupCallId : bytes) (participants : list bytes) (media group title : bytes)
| OnInviteClosed (groupCallId : bytes)
| OnPeerDeclined (peer reason : bytes)
| Engine (peer : bytes) (c : call).

Record GCallbacks := mkGCallbacks {
  g_onPeerState : bool;
  g_peerPubkey : option (bytes -> bytes);
  g_peerPubkeys : option (bytes -> list bytes);
  g_sign : option (bytes -> bytes);
  g_sendV2 : bool;
  g_onMediaState : bool;
  g_onInvite : bool;
  g_onInviteClosed : bool;
  g_onPeerDeclined : bool;
  g_isBusy : option bool;
  g_asyncSend : bool;
  g_makeBackend : bool
}.

Record PendingInvite := mkPendingInvite {
  p_from : bytes;
  p_gcid : bytes;
  p_participants : list bytes;
  p_media : bytes;
  p_group : bytes;
  p_title : bytes;
  p_buffered : list (bytes * CallSignalIn)
}.

Record GroupCallManager := mkGroupCallManager {
  self_ : bytes;
  key_ : option (bytes -> bytes);
  sendGcid_ : bytes;
  gcid_ : bytes;
  media_ : bytes;
  peers_ : list (bytes * CallSession);
  members_ : gset bytes;
  pending_ : option PendingInvite;
  silenced_ : list (bytes * (Z * bool));
  outStop_ : bool;
  outboxes_ : list (bytes * list (json * bytes));
  uuids : nat  (** identifiers drawn so far *)
}.

Definition newGroupCallManager (self : bytes) (key : option (bytes -> bytes)) : GroupCallManager :=
  mkGroupCallManager self key [] [] #"audio" [] ∅ None [] false [] 0.

Definition with_call (gcid media : bytes) (members : gset bytes) (g : GroupCallManager) : GroupCallManager :=
  mkGroupCallManager (self_ g) (key_ g) gcid gcid media (peers_ g) members (pending_ g)
    (silenced_ g) (outStop_ g) (outboxes_ g) (uuids g).
Definition with_peers (ps : list (bytes * CallSession)) (g : GroupCallManager) : GroupCallManager :=
  mkGroupCallManager (self_ g) (key_ g) (sendGcid_ g) (gcid_ g) (media_ g) ps (members_ g)
    (pending_ g) (silenced_ g) (outStop_ g) (outboxes_ g) (uuids g).
Definition with_pending (p : option PendingInvite) (g : GroupCallManager) : GroupCallManager :=
  mkGroupCallManager (self_ g) (key_ g) (sendGcid_ g) (gcid_ g) (media_ g) (peers_ g) (members_ g)
    p (silenced_ g) (outStop_ g) (outboxes_ g) (uuids g).
Definition with_silenced (s : list (bytes * (Z * bool))) (g : GroupCallManager) : GroupCallManager :=
  mkGroupCallManager (self_ g) (key_ g) (sendGcid_ g) (gcid_ g) (media_ g) (peers_ g) (members_ g)
    (pending_ g) s (outStop_ g) (outboxes_ g) (uuids g).
Definition with_outboxes (stop : bool) (o : list (bytes * list (json * bytes))) (g : GroupCallManager) :
    GroupCallManager :=
  mkGroupCallManager (self_ g) (key_ g) (sendGcid_ g) (gcid_ g) (media_ g) (peers_ g) (members_ g)
    (pending_ g) (silenced_ g) stop o (uuids g).
Definition next_uuid (g : GroupCallManager) : GroupCallManager :=
  mkGroupCallManager (self_ g) (key_ g) (sendGcid_ g) (gcid_ g) (media_ g) (peers_ g) (members_ g)
    (pending_ g) (silenced_ g) (outStop_ g) (outboxes_ g) (S (uuids g)).

Abbreviation gaction := (act GroupCallManager gcall).

Section Group.
Context (verify : bytes -> bytes -> bytes -> bool) (newUuid : nat -> bytes).

(** ** Sending *)

Definition isGroupInvite (signal : json) : bool :=
  match jfind #"type" signal with Some (JStr t) => bool_decide (t = #"group_invite") | _ => false end.

(** The call a signal belongs to: the current one when none is named. *)
Definition effectiveGcid (g : GroupCallManager) (signal : json) (groupCallId : bytes) : bytes :=
  if (length groupCallId =? 0) && negb (isGroupInvite signal) then sendGcid_ g else groupCallId.

Definition sendTo (cb : GCallbacks) (peer : bytes) (signal : json) (groupCallId : bytes) : gaction :=
  reads (fun g =>
    if negb (g_sendV2 cb) then skip
    else
      let gcid := effectiveGcid g signal groupCallId in
      if negb (g_asyncSend cb) then emit (SendV2 peer signal gcid)
      else if outStop_ g then skip
      else modify (fun g =>
        let queue := match mget peer (outboxes_ g) with Some q => q | None => [] end in
        with_outboxes false (mset peer (queue ++ [(signal, gcid)]) (outboxes_ g)) g)).

(** One turn of the thread of [runOutbox]. *)
Definition runOutbox (peer : bytes) : gaction :=
  reads (fun g =>
    if outStop_ g then skip
    else match mget peer (outboxes_ g) with
         | Some (next :: q) =>
             modify (fun g => with_outboxes false (mset peer q (outboxes_ g)) g) ;>
             emit (SendV2 peer next.1 next.2)
         | _ => skip
         end).

Definition declineCall (cb : GCallbacks) (gcid : bytes) (participants : list bytes) (reason : bytes) : gaction :=
  forEach participants (fun peer =>
    reads (fun g => if decide (peer = self_ g) then skip
                    else sendTo cb peer (rejectSignal gcid (Some reason)) gcid)).

(** ** Silent calls *)

(** Erases from the beginning of the map while it is full. *)
Fixpoint shrink (fuel : nat) (m : list (bytes * (Z * bool))) : list (bytes * (Z * bool)) :=
  match fuel with
  | O => m
  | S n => if kSilenceLimit <=? length m then shrink n (tail m) else m
  end.

Definition silence (now : Z) (gcid : bytes) (quiet : bool) : gaction :=
  modify (fun g =>
    let alive := List.filter (fun e => negb (e.2.1 <? now)%Z) (silenced_ g) in
    let room := shrink (length alive) alive in
    with_silenced (mset gcid ((now + kSilenceFor)%Z, quiet) room) g).

(** [isSilenced] erases an entry that has run out, and tells [k] the answer. *)
Definition isSilenced (now : Z) (gcid : bytes) (k : bool -> gaction) : gaction :=
  reads (fun g =>
    match mget gcid (silenced_ g) with
    | None => k false
    | Some (till, _) =>
        if (till <? now)%Z then modify (with_silenced (mdel gcid (silenced_ g))) ;> k false
        else k true
    end).

(** ** Sessions of the mesh *)

Definition sessionCallbacks (cb : GCallbacks) (peer : bytes) : Callbacks :=
  {| cb_sendSignal := true;
     cb_peerPubkey := Some (match g_peerPubkey cb with Some f => f peer | None => [] end);
     cb_peerPubkeys := Some (match g_peerPubkeys cb with Some f => f peer | None => [] end);
     cb_onState := true;
     cb_sign := g_sign cb |}.

Definition passOn (cb : GCallbacks) (peer : bytes) (c : call) : gaction :=
  match c with
  | SendSignal j => sendTo cb peer j []
  | OnState s => guarded (g_onPeerState cb) (emit (OnPeerState peer s))
  | _ => emit (Engine peer c)
  end.

(** Runs an action on the session with [peer], if there is one. *)
Definition onPeer (cb : GCallbacks) (peer : bytes) (a : Callbacks -> act CallSession call) : gaction :=
  reads (fun g =>
    match mget peer (peers_ g) with
    | None => skip
    | Some s => let r := a (sessionCallbacks cb peer) s in
                modify (with_peers (mset peer r.1 (peers_ g))) ;> forEach r.2 (passOn cb peer)
    end).

Definition ensureSession (cb : GCallbacks) (peer : bytes) : gaction :=
  reads (fun g =>
    match mget peer (peers_ g) with
    | Some _ => skip
    | None => modify (with_peers (mset peer
                (newCallSession (self_ g) peer (key_ g) (g_makeBackend cb)) (peers_ g)))
    end).

(** [s->start(media)] with the next identifier. *)
Definition startPeer (cb : GCallbacks) (peer media : bytes) : gaction :=
  reads (fun g => onPeer cb peer (fun _ => start (newUuid (uuids g)) media)) ;> modify next_uuid.

(** One turn of the loop of [joinMesh]: the smaller address makes the offer. *)
Definition meet (cb : GCallbacks) (peer : bytes) : gaction :=
  reads (fun g =>
    if decide (peer = self_ g) then skip
    else ensureSession cb peer ;> guarded (blt (self_ g) peer) (startPeer cb peer (media_ g))).

Definition joinMesh (cb : GCallbacks) (gcid : bytes) (participants : list bytes) (media : bytes) : gaction :=
  modify (with_call gcid (orAudio media) (list_to_set participants)) ;>
  forEach participants (meet cb).

Definition startCall (cb : GCallbacks) (groupCallId : bytes) (participants : list bytes)
    (media group title : bytes) : gaction :=
  forEach participants (fun peer =>
    reads (fun g =>
      if decide (peer = self_ g) then skip
      else sendTo cb peer (groupInviteSignal groupCallId participants (orAudio media) group title) [])) ;>
  joinMesh cb groupCallId participants media.

Definition handleMeshSignalLocked (cb : GCallbacks) (from : bytes) (s : CallSignalIn) : gaction :=
  reads (fun g =>
    let isInvite := bool_decide (type s = #"invite") in
    let deliver := onPeer cb from (fun scb => onSignal verify scb s) ;>
      reads (fun g' => match mget from (peers_ g') with
        | Some x => if isInvite && bool_decide (state_ x = Incoming)
                    then onPeer cb from (fun _ => accept) else skip
        | None => skip
        end) in
    if negb (length (group_call_id s) =? 0) && negb (bool_decide (group_call_id s = gcid_ g)) then skip
    else match mget from (peers_ g) with
         | Some x => if negb isInvite && negb (length (callId_ x) =? 0)
                        && negb (bool_decide (call_id s = callId_ x)) then skip
                     else deliver
         | None => if isInvite then
                     if length (gcid_ g) =? 0 then skip
                     else if negb (bool_decide (from ∈ members_ g)) then skip
                     else ensureSession cb from ;> deliver
                   else skip
         end).

(** ** Invitations *)

Definition onGroupInvite (cb : GCallbacks) (now : Z) (from : bytes) (s : CallSignalIn) : gaction :=
  reads (fun g =>
    let gcid := group_call_id s in
    let ps := if kMaxParticipants <? length (participants s) then take kMaxParticipants (participants s)
              else participants s in
    let busyElsewhere := match g_isBusy cb with Some b => b | None => false end in
    if negb (length (gcid_ g) =? 0) && bool_decide (gcid_ g = gcid) then skip
    else if match pending_ g with Some p => bool_decide (p_gcid p = gcid) | None => false end then skip
    else if busyElsewhere || negb (length (gcid_ g) =? 0)
            || match pending_ g with Some _ => true | None => false end then
      isSilenced now gcid (fun silent =>
        (if silent then skip else declineCall cb gcid [from] #"busy") ;> silence now gcid false)
    else isSilenced now gcid (fun silent =>
      if silent then skip
      else modify (with_pending (Some (mkPendingInvite from gcid ps (orAudio (media s))
                                         (group s) (title s) []))) ;>
           guarded (g_onInvite cb)
             (emit (OnInvite from gcid ps (orAudio (media s)) (group s) (title s))))).

(** The buffer of the waiting invitation after a signal of a participant. *)
Definition buffer (p : PendingInvite) (from : bytes) (s : CallSignalIn) : PendingInvite :=
  let buf := p_buffered p in
  mkPendingInvite (p_from p) (p_gcid p) (p_participants p) (p_media p) (p_group p) (p_title p)
    (if bool_decide (type s = #"hangup") then
       List.filter (fun b => negb (bool_decide (b.1 = from) && bool_decide (call_id b.2 = call_id s))) buf
     else if bool_decide (type s = #"reject") && bool_decide (call_id s = p_gcid p) then
       List.filter (fun b => negb (bool_decide (b.1 = from))) buf
     else buf ++ [(from, s)]).

(** A signal that is not buffered: a refusal of the call, or one of a pair. *)
Definition routed (cb : GCallbacks) (from : bytes) (s : CallSignalIn) : gaction :=
  reads (fun g =>
    if bool_decide (type s = #"reject") && negb (length (gcid_ g) =? 0)
       && bool_decide (call_id s = gcid_ g) then
      let declinedReason := match reason s with Some r => r | None => #"declined" end in
      onPeer cb from dismiss ;> modify (fun g => with_peers (mdel from (peers_ g)) g) ;>
      guarded (negb (length declinedReason =? 0) && g_onPeerDeclined cb)
        (emit (OnPeerDeclined from declinedReason))
    else handleMeshSignalLocked cb from s).

Definition awaits (g : GroupCallManager) (from : bytes) : option PendingInvite :=
  match pending_ g with
  | Some p => if bool_decide (from ∈ p_participants p) then Some p else None
  | None => None
  end.

Definition handleMesh (cb : GCallbacks) (now : Z) (from : bytes) (s : CallSignalIn) : gaction :=
  reads (fun g =>
    match awaits g from with
    | Some p => modify (with_pending (Some (buffer p from s)))
    | None =>
        if negb (length (group_call_id s) =? 0) && negb (bool_decide (group_call_id s = gcid_ g))
        then isSilenced now (group_call_id s) (fun silent => if silent then skip else routed cb from s)
        else routed cb from s
    end).

Definition handleSignal (cb : GCallbacks) (now : Z) (from : bytes) (s : CallSignalIn) : gaction :=
  if bool_decide (type s = #"media") then
    guarded (g_onMediaState cb) (emit (OnMediaState from (audio_muted s) (video_muted s)))
  else if bool_decide (type s = #"group_invite") then onGroupInvite cb now from s
  else handleMesh cb now from s.

(** A refusal by the user's own other device silences the call here. *)
Definition ownDevice (cb : GCallbacks) (now : Z) (s : CallSignalIn) : gaction :=
  if bool_decide (type s = #"reject") then
    silence now (call_id s) true ;>
    reads (fun g => match pending_ g with
      | Some p => if bool_decide (p_gcid p = call_id s) then
                    modify (with_pending None) ;>
                    guarded (negb (length (p_gcid p) =? 0) && g_onInviteClosed cb)
                      (emit (OnInviteClosed (p_gcid p)))
                  else skip
      | None => skip
      end)
  else skip.

Definition handleV2Signal (cb : GCallbacks) (now : Z) (from : bytes) (signal : json) (g : GroupCallManager) :
    result exn (GroupCallManager * list gcall) :=
  let! s := fromJson signal in
  Ok ((if bool_decide (from = self_ g) then ownDevice cb now s
       else handleSignal cb now from (Manager.set_authenticated s)) g).

Definition acceptInvite (cb : GCallbacks) (now : Z) : gaction :=
  reads (fun g =>
    match pending_ g with
    | None => skip
    | Some p =>
        modify (with_pending None) ;> silence now (p_gcid p) true ;>
        joinMesh cb (p_gcid p) (p_participants p) (p_media p) ;>
        forEach (p_buffered p) (fun b => handleMeshSignalLocked cb b.1 b.2)
    end).

Definition declineInvite (cb : GCallbacks) (now : Z) (why : bytes) : gaction :=
  reads (fun g =>
    match pending_ g with
    | None => skip
    | Some p =>
        modify (with_pending None) ;>
        forEach (p_buffered p) (fun b =>
          guarded (bool_decide (type b.2 = #"invite"))
            (sendTo cb b.1 (rejectSignal (call_id b.2) (Some why)) (p_gcid p))) ;>
        declineCall cb (p_gcid p) (p_participants p) why ;>
        silence now (p_gcid p) false ;>
        guarded (g_onInviteClosed cb) (emit (OnInviteClosed (p_gcid p)))
    end).

Definition expireInvite (cb : GCallbacks) (now : Z) (groupCallId : bytes) : gaction :=
  reads (fun g =>
    match pending_ g with
    | Some p => if bool_decide (p_gcid p = groupCallId) then declineInvite cb now #"declined" else skip
    | None => skip
    end).

Definition pendingInviteId (g : GroupCallManager) : bytes :=
  match pending_ g with Some p => p_gcid p | None => [] end.

Definition leave (cb : GCallbacks) : gaction :=
  reads (fun g => forEach (peers_ g) (fun kv => onPeer cb kv.1 hangup)) ;>
  modify (fun g => with_call [] (media_ g) ∅ (with_peers [] g)).

Definition connectedCount (g : GroupCallManager) : nat :=
  length (List.filter (fun kv : bytes * CallSession => bool_decide (state_ kv.2 = Active)) (peers_ g)).

Definition sendMediaState (cb : GCallbacks) (audioMuted videoMuted : bool) : gaction :=
  reads (fun g => forEach (peers_ g) (fun kv =>
    sendTo cb kv.1 (mediaStateSignal (callId_ kv.2) audioMuted videoMuted) [])).

(** The destructor: sessions first, then the outgoing threads stop. *)
Definition destroy : gaction :=
  modify (with_peers []) ;> modify (fun g => with_outboxes true (outboxes_ g) g).

(** ** Lemmas *)

(** A property of managers that the outgoing queues and the identifiers do not matter to. *)
Definition quiet_prop (P : GroupCallManager -> Prop) : Prop :=
  (forall stop o g, P g -> P (with_outboxes stop o g)) /\ (forall g, P g -> P (next_uuid g)).

Lemma sendTo_keeps P cb peer signal gcid g : quiet_prop P -> P g -> P (sendTo cb peer signal gcid g).1.
Proof.
  intros [H _] Hg. unfold sendTo, reads. repeat case_match; cbn; try done; by apply H.
Qed.

Lemma passOn_keeps P cb peer c g : quiet_prop P -> P g -> P (passOn cb peer c g).1.
Proof.
  intros H Hg. unfold passOn, guarded. destruct c; try done; [by apply sendTo_keeps|].
  by case_match.
Qed.

Lemma declineCall_keeps P cb gcid ps why g : quiet_prop P -> P g -> P (declineCall cb gcid ps why g).1.
Proof.
  intros H Hg. unfold declineCall. apply forEach_state; [|done]. intros p g1 _ Hg1. unfold reads.
  case_match; [done|by apply sendTo_keeps].
Qed.

Lemma onPeer_keeps P cb peer a g : quiet_prop P -> P g ->
  (forall s, mget peer (peers_ g) = Some s ->
     P (with_peers (mset peer (a (sessionCallbacks cb peer) s).1 (peers_ g)) g)) ->
  P (onPeer cb peer a g).1.
Proof.
  intros H Hg Ha. unfold onPeer, reads. destruct (mget peer (peers_ g)) as [s|] eqn:E; [|done].
  apply andThen_state; [by apply Ha|]. intros g' Hg'. apply forEach_state; [|done].
  intros c g2 _ Hg2. by apply passOn_keeps.
Qed.

Lemma isSilenced_keeps (P : GroupCallManager -> Prop) now gcid k g : P g ->
  P (with_silenced (mdel gcid (silenced_ g)) g) -> (forall b g', P g' -> P (k b g').1) ->
  P (isSilenced now gcid k g).1.
Proof.
  intros Hg Hs Hk. unfold isSilenced, reads. repeat case_match; try by apply Hk.
  apply andThen_state; [done|]. intros g' Hg'. by apply Hk.
Qed.

(** *** The invariant of the mesh *)

Definition peer_ok (self p : bytes) (x : CallSession) : Prop :=
  p <> self /\ Session.peer_ x = p /\ peerAuth_ x <> Failed.

Definition pending_ok (self : bytes) (p : PendingInvite) : Prop :=
  length (p_participants p) <= kMaxParticipants /\
  Forall (fun b => b.1 ∈ p_participants p /\ b.1 <> self /\ authenticated b.2 = true) (p_buffered p).

Record ginv (self : bytes) (g : GroupCallManager) : Prop := {
  gi_self : self_ g = self;
  gi_sorted : msorted (peers_ g);
  gi_peers : Forall (fun kv => peer_ok self kv.1 kv.2) (peers_ g);
  gi_pending : match pending_ g with Some p => pending_ok self p | None => True end;
  gi_silenced : length (silenced_ g) <= kSilenceLimit
}.

Lemma ginv_quiet self : quiet_prop (ginv self).
Proof. split; intros; by destruct H. Qed.

Lemma shrink_length n m : length m <= n + kSilenceLimit -> length (shrink (S n) m) < kSilenceLimit.
Proof.
  revert m. induction n as [|n IH]; intros m Hm; cbn [shrink].
  - destruct (Nat.leb_spec kSilenceLimit (length m)); [|lia].
    destruct m as [|e m]; cbn [tail length] in *; unfold kSilenceLimit in *; lia.
  - destruct (Nat.leb_spec kSilenceLimit (length m)); [|lia]. apply IH.
    destruct m as [|e m]; cbn [tail length] in *; unfold kSilenceLimit in *; lia.
Qed.

Lemma shrink_bound m : length (shrink (length m) m) < kSilenceLimit.
Proof.
  destruct m as [|e m]; [cbn; unfold kSilenceLimit; lia|]. apply (shrink_length (length m)).
  cbn [length]. unfold kSilenceLimit. lia.
Qed.

Lemma silence_ginv self now gcid q g : ginv self g -> ginv self (silence now gcid q g).1.
Proof.
  intros []. split; try done. cbn [silence modify fst silenced_ with_silenced].
  etrans; [apply mset_length|]. apply shrink_bound.
Qed.

Lemma mdel_length {A} k (m : list (bytes * A)) : length (mdel k m) <= length m.
Proof. induction m as [|[k1 v1] m IH]; cbn; [lia|]. case_bool_decide; cbn; lia. Qed.

Lemma isSilenced_ginv self now gcid k g : ginv self g ->
  (forall b g', ginv self g' -> ginv self (k b g').1) -> ginv self (isSilenced now gcid k g).1.
Proof.
  intros Hg Hk. apply isSilenced_keeps; [done| |done]. destruct Hg. split; try done. cbn.
  etrans; [apply mdel_length|done].
Qed.
Lemma ginv_call self g gcid m ms : ginv self g -> ginv self (with_call gcid m ms g).
Proof. by intros []. Qed.
Lemma ginv_pending self g p : ginv self g -> match p with Some p => pending_ok self p | None => True end ->
  ginv self (with_pending p g).
Proof. by intros [] ?. Qed.
Lemma ginv_mset self g p x : ginv self g -> peer_ok self p x ->
  ginv self (with_peers (mset p x (peers_ g)) g).
Proof.
  intros [] Hx. split; cbn; [done|by apply mset_sorted| |done|done].
  rewrite Forall_elem in *. intros kv [-> |Hkv]%mset_elem; auto.
Qed.
Lemma ginv_mdel self g p : ginv self g -> ginv self (with_peers (mdel p (peers_ g)) g).
Proof.
  intros []. split; cbn; [done|by apply mdel_sorted| |done|done].
  rewrite Forall_elem in *. intros kv Hkv%mdel_elem. auto.
Qed.
Lemma ginv_peer self g p x : ginv self g -> mget p (peers_ g) = Some x -> peer_ok self p x.
Proof. intros [] H%mget_Some_elem. rewrite Forall_elem in gi_peers0. by apply (gi_peers0 (p, x)). Qed.

Lemma onPeer_step self cb peer e g :
  (forall s, e = ESignal s -> authenticated s = true) -> ginv self g ->
  ginv self (onPeer cb peer (fun scb => step verify scb e) g).1.
Proof.
  intros He Hg. apply onPeer_keeps; [apply ginv_quiet|done|]. intros s Hs.
  destruct (ginv_peer self g peer s Hg Hs) as (H1 & H2 & H3). apply ginv_mset; [done|].
  split; [done|]. split; [by rewrite (proj1 (step_peer _ _ _ _))|].
  by destruct (step_checked verify (sessionCallbacks cb peer) e s He) as [-> | ->].
Qed.

Lemma ensureSession_ginv self cb peer g : peer <> self -> ginv self g -> ginv self (ensureSession cb peer g).1.
Proof.
  intros Hp Hg. unfold ensureSession, reads. case_match; [done|]. by apply ginv_mset.
Qed.

Lemma joinMesh_ginv self cb gcid ps media g : ginv self g -> ginv self (joinMesh cb gcid ps media g).1.
Proof.
  intros Hg. unfold joinMesh. apply andThen_state; [by apply ginv_call|]. intros g1 Hg1.
  apply forEach_state; [|done]. intros p g2 _ Hg2. unfold meet, reads. case_match; [done|].
  apply andThen_state; [apply ensureSession_ginv; [destruct Hg2; congruence|done]|].
  intros g3 Hg3. unfold guarded. case_match; [|done]. unfold startPeer.
  apply andThen_state; [by apply (onPeer_step self cb p (EStart _ _))|].
  intros g4 Hg4. by apply ginv_quiet.
Qed.

Lemma meshSignal_ginv self cb from s g : authenticated s = true -> from <> self -> ginv self g ->
  ginv self (handleMeshSignalLocked cb from s g).1.
Proof.
  intros Hs Hf Hg. unfold handleMeshSignalLocked.
  assert (forall g, ginv self g -> ginv self
    ((onPeer cb from (fun scb => onSignal verify scb s) ;> reads (fun g' =>
        match mget from (peers_ g') with
        | Some x => if bool_decide (type s = #"invite") && bool_decide (state_ x = Incoming)
                    then onPeer cb from (fun _ => accept) else skip
        | None => skip end)) g).1) as Hd.
  { intros g1 Hg1. apply andThen_state.
    - apply (onPeer_step self cb from (ESignal s)); [by intros ? [= <-]|done].
    - intros g2 Hg2. unfold reads. repeat case_match; try done.
      by apply (onPeer_step self cb from EAccept). }
  unfold reads at 1. repeat case_match; try done; try by apply Hd.
  apply andThen_state; [by apply ensureSession_ginv|]. intros g' Hg'. by apply Hd.
Qed.

Lemma buffer_ok self p from s : pending_ok self p -> from ∈ p_participants p -> from <> self ->
  authenticated s = true -> pending_ok self (buffer p from s).
Proof.
  intros [H1 H2] Hf Hs Ha. split; [done|]. cbn. repeat case_match.
  - rewrite Forall_elem in *. intros b Hb. apply list_elem_of_In, List.filter_In in Hb as [Hb _].
    apply H2. by apply list_elem_of_In.
  - rewrite Forall_elem in *. intros b Hb. apply list_elem_of_In, List.filter_In in Hb as [Hb _].
    apply H2. by apply list_elem_of_In.
  - apply Forall_app. split; [done|]. by repeat constructor.
Qed.

Lemma onGroupInvite_ginv self cb now from s g : ginv self g -> ginv self (onGroupInvite cb now from s g).1.
Proof.
  intros Hg. unfold onGroupInvite, reads at 1. cbv zeta.
  repeat case_match; try done; apply isSilenced_ginv;
    try done; intros [] g' Hg'; try exact Hg'.
  all: try (apply andThen_state; [first [exact Hg'|apply declineCall_keeps; [apply ginv_quiet|done]]|];
            intros g2 Hg2; by apply silence_ginv).
  all: (apply andThen_state; [apply ginv_pending; [done|]|intros g2 Hg2; unfold guarded; by case_match]).
  all: split; [cbn|by constructor].
  all: rewrite ?length_take; first [unfold kMaxParticipants; lia
    | match goal with H : Nat.ltb _ _ = false |- _ => apply Nat.ltb_ge in H; exact H end].
Qed.

Lemma ginv_pending_of self g p : ginv self g -> pending_ g = Some p -> pending_ok self p.
Proof. intros [] H. by rewrite H in gi_pending0. Qed.

Lemma handleMesh_ginv self cb now from s g : authenticated s = true -> from <> self -> ginv self g ->
  ginv self (handleMesh cb now from s g).1.
Proof.
  intros Ha Hf Hg.
  assert (forall g, ginv self g -> ginv self (routed cb from s g).1) as Hr.
  { intros g1 Hg1. unfold routed, reads. case_match; [|by apply meshSignal_ginv].
    apply andThen_state; [by apply (onPeer_step self cb from EDismiss)|]. intros g2 Hg2.
    apply andThen_state; [by apply ginv_mdel|]. intros g3 Hg3. unfold guarded. by case_match. }
  unfold handleMesh, reads at 1. destruct (awaits g from) as [p|] eqn:Ep.
  - unfold awaits in Ep. destruct (pending_ g) eqn:E; [|done]. case_bool_decide; [|done].
    simplify_eq. apply ginv_pending; [done|]. apply buffer_ok; [|done..].
    by apply (ginv_pending_of self g).
  - case_match; [|by apply Hr]. apply isSilenced_ginv; [done|].
    intros [] g2 Hg2; [done|by apply Hr].
Qed.

Lemma acceptInvite_ginv self cb now g : ginv self g -> ginv self (acceptInvite cb now g).1.
Proof.
  intros Hg. unfold acceptInvite, reads. destruct (pending_ g) as [p|] eqn:Ep; [|done].
  destruct (ginv_pending_of self g p Hg Ep) as [Hlen Hbuf].
  apply andThen_state; [by apply ginv_pending|]. intros g1 Hg1.
  apply andThen_state; [by apply silence_ginv|]. intros g2 Hg2.
  apply andThen_state; [by apply joinMesh_ginv|]. intros g3 Hg3.
  apply forEach_state; [|done]. intros b g4 Hb Hg4. rewrite Forall_elem in Hbuf.
  destruct (Hbuf b Hb) as (H1 & H2 & H3). by apply meshSignal_ginv.
Qed.

Lemma declineInvite_ginv self cb now why g : ginv self g -> ginv self (declineInvite cb now why g).1.
Proof.
  intros Hg. unfold declineInvite, reads. destruct (pending_ g) as [p|]; [|done].
  apply andThen_state; [by apply ginv_pending|]. intros g1 Hg1.
  apply andThen_state; [apply forEach_state; [|done]|].
  { intros b g2 _ Hg2. unfold guarded. case_match; [|done]. by apply sendTo_keeps; [apply ginv_quiet|]. }
  intros g2 Hg2. apply andThen_state; [by apply declineCall_keeps; [apply ginv_quiet|]|]. intros g3 Hg3.
  apply andThen_state; [by apply silence_ginv|]. intros g4 Hg4.
  unfold guarded. by case_match.
Qed.

(** ** Operations as events *)

Inductive gevent :=
| GV2Signal (from : bytes) (signal : json)
| GStartCall (groupCallId : bytes) (participants : list bytes) (media group title : bytes)
| GAccept
| GDecline (why : bytes)
| GExpire (groupCallId : bytes)
| GLeave
| GMediaState (audioMuted videoMuted : bool)
| GOutbox (peer : bytes)
| GEngine (peer : bytes) (e : event).

(** A signal that cannot be read throws before it changes anything. *)
Definition gstep (cb : GCallbacks) (now : Z) (ev : gevent) (g : GroupCallManager) :
    GroupCallManager * list gcall :=
  match ev with
  | GV2Signal from signal =>
      match handleV2Signal cb now from signal g with Ok r => r | Err _ => (g, []) end
  | GStartCall id ps media group title => startCall cb id ps media group title g
  | GAccept => acceptInvite cb now g
  | GDecline why => declineInvite cb now why g
  | GExpire id => expireInvite cb now id g
  | GLeave => leave cb g
  | GMediaState a v => sendMediaState cb a v g
  | GOutbox peer => runOutbox peer g
  | GEngine peer e =>
      if Manager.isCallback e then onPeer cb peer (fun scb => step verify scb e) g else (g, [])
  end.

Inductive greach (g0 : GroupCallManager) : GroupCallManager -> Prop :=
| greach_init : greach g0 g0
| greach_step g cb now ev : greach g0 g -> greach g0 (gstep cb now ev g).1.

Lemma ownDevice_ginv self cb now s g : ginv self g -> ginv self (ownDevice cb now s g).1.
Proof.
  intros Hg. unfold ownDevice. case_match; [|done].
  apply andThen_state; [by apply silence_ginv|].
  intros g1 Hg1. unfold reads. repeat case_match; try done.
  apply andThen_state; [by apply ginv_pending|]. intros g2 Hg2. unfold guarded. by case_match.
Qed.

Lemma startCall_ginv self cb id ps media group title g :
  ginv self g -> ginv self (startCall cb id ps media group title g).1.
Proof.
  intros Hg. unfold startCall. apply andThen_state; [|intros; by apply joinMesh_ginv].
  apply forEach_state; [|done]. intros p g1 _ Hg1. unfold reads.
  case_match; [done|]. by apply sendTo_keeps; [apply ginv_quiet|].
Qed.

Lemma leave_ginv self cb g : ginv self g -> ginv self (leave cb g).1.
Proof.
  intros Hg. unfold leave. apply andThen_state.
  - unfold reads. apply forEach_state; [|done]. intros kv g1 _ Hg1.
    by apply (onPeer_step self cb kv.1 EHangup).
  - intros g1 []. by split.
Qed.

Lemma gstep_ginv self cb now ev g : ginv self g -> ginv self (gstep cb now ev g).1.
Proof.
  intros Hg. destruct ev as [from signal|id ps media group title| |why|id| |a v|peer|peer e]; cbn [gstep].
  - unfold handleV2Signal. destruct (fromJson signal) as [s|]; cbn; [|done].
    case_bool_decide as E; [by apply ownDevice_ginv|].
    assert (from <> self) by (destruct Hg; congruence).
    unfold handleSignal. repeat case_match; [unfold guarded; by case_match|by apply onGroupInvite_ginv|].
    by apply handleMesh_ginv.
  - by apply startCall_ginv.
  - by apply acceptInvite_ginv.
  - by apply declineInvite_ginv.
  - unfold expireInvite, reads. repeat case_match; try done. by apply declineInvite_ginv.
  - by apply leave_ginv.
  - unfold sendMediaState, reads. apply forEach_state; [|done]. intros kv g1 _ Hg1.
    by apply sendTo_keeps; [apply ginv_quiet|].
  - unfold runOutbox, reads. repeat case_match; try done.
    apply andThen_state; [by apply ginv_quiet|]. done.
  - case_match; [|done]. apply onPeer_step; [|done]. by intros s ->.
Qed.

Lemma greach_ginv self key g : greach (newGroupCallManager self key) g -> ginv self g.
Proof. induction 1; [|by apply gstep_ginv]. split; try done. cbn. lia. Qed.

(** *** Who makes the offers *)

Lemma start_calls uuid media x : state_ x = Idle -> media_engine_ x = true ->
  start uuid media x = (Session.with_call uuid (orAudio media) x,
    [SetWantVideo (bool_decide (orAudio media = #"video")); CreateOffer]).
Proof.
  intros H1 H2. unfold start, engine, reads, andThen, modify, guarded, emit.
  rewrite decide_True by done. cbn. rewrite H2. cbn. by rewrite H2.
Qed.

(** Sessions that wait to be started. *)
Definition waiting (self : bytes) (g : GroupCallManager) : Prop :=
  self_ g = self /\ Forall (fun kv => state_ kv.2 = Idle /\ media_engine_ kv.2 = true) (peers_ g).

Lemma waiting_get self g p x : waiting self g -> mget p (peers_ g) = Some x ->
  state_ x = Idle /\ media_engine_ x = true.
Proof. intros [_ H] Hx%mget_Some_elem. rewrite Forall_elem in H. by apply (H (p, x)). Qed.

Lemma waiting_mset self g p x : waiting self g -> state_ x = Idle -> media_engine_ x = true ->
  waiting self (with_peers (mset p x (peers_ g)) g).
Proof.
  intros [H1 H2] Hs He. split; [done|]. cbn. rewrite Forall_elem in *.
  intros kv [->|Hkv]%mset_elem; auto.
Qed.

Lemma startPeer_calls cb p media g x : mget p (peers_ g) = Some x ->
  state_ x = Idle -> media_engine_ x = true ->
  startPeer cb p media g =
  (next_uuid (with_peers (mset p (Session.with_call (newUuid (uuids g)) (orAudio media) x) (peers_ g)) g),
   [Engine p (SetWantVideo (bool_decide (orAudio media = #"video"))); Engine p CreateOffer]).
Proof.
  intros Hx Hs He. unfold startPeer, reads. rewrite andThen_eq.
  unfold onPeer, reads. rewrite Hx, start_calls by done. done.
Qed.

Lemma meet_spec self cb p g : g_makeBackend cb = true -> waiting self g ->
  waiting self (meet cb p g).1 /\
  (p <> self -> blt self p = true -> Engine p CreateOffer ∈ (meet cb p g).2).
Proof.
  intros Hb Hw. unfold meet, reads. case_decide as Ep.
  { split; [done|]. destruct Hw. congruence. }
  set (g1 := (ensureSession cb p g).1).
  assert (waiting self g1 /\ (exists x, mget p (peers_ g1) = Some x) /\ (ensureSession cb p g).2 = [])
    as (Hw1 & [x Hx] & Hn).
  { unfold g1, ensureSession, reads. destruct (mget p (peers_ g)) as [x|] eqn:E.
    - split; [done|]. by eauto.
    - split; [by apply waiting_mset|]. split; [|done]. eexists. cbn. apply mget_mset_eq. }
  rewrite andThen_eq, Hn. fold g1. cbn [fst snd app].
  unfold guarded. replace (self_ g) with self by (symmetry; apply Hw).
  destruct (blt self p) eqn:Eb; [|by split].
  destruct (waiting_get self g1 p x Hw1 Hx) as [Hs He].
  rewrite (startPeer_calls cb p _ g1 x Hx Hs He). cbn [fst snd].
  split; [|intros _ _; right; left].
  apply (waiting_mset self g1 p (Session.with_call (newUuid (uuids g1)) (orAudio (media_ g)) x)) in Hw1;
    [|done|done]. destruct Hw1. by split.
Qed.

(** Calls that are no request for an offer. *)
Lemma sendTo_no_engine cb p j gcid g q c : Engine q c ∉ (sendTo cb p j gcid g).2.
Proof.
  unfold sendTo, reads, emit, modify, skip. repeat case_match; cbn;
    rewrite ?elem_of_cons, ?elem_of_nil; naive_solver.
Qed.

Lemma passOn_engine cb p c g q c' : Engine q c' ∈ (passOn cb p c g).2 -> q = p /\ c' = c.
Proof.
  unfold passOn. destruct c; cbn; rewrite ?elem_of_cons, ?elem_of_nil; try naive_solver.
  - intros H. by apply sendTo_no_engine in H.
  - unfold guarded. case_match; cbn; rewrite ?elem_of_cons, ?elem_of_nil; naive_solver.
Qed.

Lemma onPeer_engine cb p a g q c : Engine q c ∈ (onPeer cb p a g).2 ->
  q = p /\ exists x, mget p (peers_ g) = Some x /\ c ∈ (a (sessionCallbacks cb p) x).2.
Proof.
  unfold onPeer, reads. destruct (mget p (peers_ g)) as [x|]; [|cbn; by rewrite elem_of_nil].
  rewrite andThen_eq. cbn [modify fst snd app]. intros H.
  apply forEach_calls in H as (c' & g' & Hc & H). apply passOn_engine in H as [-> ->]. by eauto.
Qed.

Lemma meet_engine cb p g q : Engine q CreateOffer ∈ (meet cb p g).2 ->
  q = p /\ p <> self_ g /\ blt (self_ g) p = true.
Proof.
  unfold meet, reads. case_decide; [cbn; by rewrite elem_of_nil|].
  intros Hin. apply andThen_calls in Hin as [Hin|[g' Hin]].
  - exfalso. revert Hin. unfold ensureSession, reads. case_match; cbn; by rewrite elem_of_nil.
  - unfold guarded in Hin. destruct (blt (self_ g) p); [|by apply elem_of_nil in Hin].
    apply andThen_calls in Hin as [Hin|[g2 Hin]]; [|by apply elem_of_nil in Hin].
    by apply onPeer_engine in Hin as [-> _].
Qed.


Lemma onPeer_self cb p a g : self_ (onPeer cb p a g).1 = self_ g.
Proof. apply (onPeer_keeps (fun g' => self_ g' = self_ g)); [by split|done|done]. Qed.

Lemma meet_self cb p g : self_ (meet cb p g).1 = self_ g.
Proof.
  unfold meet, reads. case_decide; [done|].
  apply (andThen_state (fun g' => self_ g' = self_ g)).
  - unfold ensureSession, reads. by case_match.
  - intros g' Hg'. unfold guarded. case_match; [|done]. unfold startPeer.
    apply (andThen_state (fun g' => self_ g' = self_ g)); [|done].
    unfold reads. by rewrite onPeer_self.
Qed.

Lemma joinMesh_offers cb gcid ps media g q :
  g_makeBackend cb = true -> peers_ g = [] -> q <> self_ g ->
  Engine q CreateOffer ∈ (joinMesh cb gcid ps media g).2 <-> q ∈ ps /\ blt (self_ g) q = true.
Proof.
  intros Hb Hp Hq. unfold joinMesh. rewrite andThen_eq. cbn [modify fst snd app]. split.
  - intros H. set (P := fun g' => self_ g' = self_ g).
    assert (forall l g1, P g1 -> Engine q CreateOffer ∈ (forEach l (meet cb) g1).2 ->
      q ∈ l /\ blt (self_ g) q = true) as Hl; [|by eapply Hl; [|exact H]].
    induction l as [|p l IH]; intros g1 Hg1; cbn [forEach]; [cbn; by rewrite elem_of_nil|].
    rewrite andThen_eq. cbn [snd]. rewrite elem_of_app. intros [Hm|Hm].
    + apply meet_engine in Hm as (-> & _ & Hlt). rewrite Hg1 in Hlt. split; [left|done].
    + apply IH in Hm; [|unfold P; by rewrite meet_self]. destruct Hm. split; [by right|done].
  - intros [Hin Hlt]. apply (forEach_calls_in (waiting (self_ g)) _ ps (meet cb) q).
    + intros p g1 Hg1. by apply (meet_spec (self_ g) cb p g1).
    + done.
    + intros g1 Hg1. by apply (meet_spec (self_ g) cb q g1).
    + split; [done|]. cbn. by rewrite Hp.
Qed.

Lemma step_no_offer cb e x : (forall uuid media, e <> EStart uuid media) ->
  CreateOffer ∉ (step verify cb e x).2.
Proof.
  intros H. destruct e; try (exfalso; by eapply H); unfold step, onSignal, onInvite, onAnswer,
    authenticateSdp, accept, hangup, dismiss, setMuted, onOffer, onAnswerReady, onLocalIce,
    onConnectionChange, engine, send, setState, reads, andThen, modify, guarded, emit, skip;
    repeat (case_match; cbn in *; simplify_eq); intros Hin;
    repeat (apply elem_of_cons in Hin as [Hin|Hin]; [discriminate|]); by apply elem_of_nil in Hin.
Qed.

Lemma meshSignal_no_offer cb from s g q : Engine q CreateOffer ∉ (handleMeshSignalLocked cb from s g).2.
Proof.
  assert (forall g', Engine q CreateOffer ∉ ((onPeer cb from (fun scb => onSignal verify scb s) ;>
    reads (fun g' => match mget from (peers_ g') with
        | Some x => if bool_decide (type s = #"invite") && bool_decide (state_ x = Incoming)
                    then onPeer cb from (fun _ => accept) else skip
        | None => skip end)) g').2) as Hd.
  { intros g1 Hin. apply andThen_calls in Hin as [Hin|[g2 Hin]].
    - apply onPeer_engine in Hin as (_ & x & _ & Hin). by apply (step_no_offer _ (ESignal s)) in Hin.
    - unfold reads in Hin. repeat case_match; try by apply elem_of_nil in Hin.
      apply onPeer_engine in Hin as (_ & x & _ & Hin). by apply (step_no_offer (sessionCallbacks cb from) EAccept) in Hin. }
  unfold handleMeshSignalLocked, reads at 1. repeat case_match; try apply not_elem_of_nil; try apply Hd.
  intros Hin. apply andThen_calls in Hin as [Hin|[g2 Hin]]; [|by apply Hd in Hin].
  revert Hin. unfold ensureSession, reads. case_match; cbn; by rewrite elem_of_nil.
Qed.

Lemma startCall_offers cb id ps media group title g q :
  g_makeBackend cb = true -> peers_ g = [] -> q <> self_ g ->
  Engine q CreateOffer ∈ (startCall cb id ps media group title g).2 <-> q ∈ ps /\ blt (self_ g) q = true.
Proof.
  intros Hb Hp Hq. unfold startCall. rewrite andThen_eq. cbn [snd]. rewrite elem_of_app.
  set (body := fun peer => reads _).
  assert (self_ (forEach ps body g).1 = self_ g /\ peers_ (forEach ps body g).1 = []) as [E1 E2].
  { apply (forEach_state (fun g' => self_ g' = self_ g /\ peers_ g' = [])); [|by split].
    intros p g' _ Hg'. unfold body, reads. case_decide; [done|].
    by apply (sendTo_keeps (fun g' => self_ g' = self_ g /\ peers_ g' = [])). }
  rewrite joinMesh_offers by congruence. rewrite E1. split; [|by right].
  intros [H|H]; [|done]. exfalso. apply forEach_calls in H as (p & g' & _ & H). unfold body, reads in H.
  case_decide; [by apply elem_of_nil in H|]. by apply sendTo_no_engine in H.
Qed.

Lemma acceptInvite_offers cb now p g q :
  g_makeBackend cb = true -> peers_ g = [] -> pending_ g = Some p -> q <> self_ g ->
  Engine q CreateOffer ∈ (acceptInvite cb now g).2 <-> q ∈ p_participants p /\ blt (self_ g) q = true.
Proof.
  intros Hb Hp Hpe Hq. unfold acceptInvite, reads. rewrite Hpe.
  rewrite !andThen_eq. cbn [fst snd]. rewrite !elem_of_app.
  match goal with |- context [forEach _ _ ?st] => set (g3 := st) end.
  rewrite joinMesh_offers by done. cbn. rewrite !elem_of_nil. split; [|by auto].
  intros [[]|[[]|[H|H]]]; [done|]. exfalso.
  apply forEach_calls in H as (b & g' & _ & H). by apply meshSignal_no_offer in H.
Qed.

(** Entering a call: starting it or accepting the invitation to it. *)
Inductive enters (ps : list bytes) (g : GroupCallManager) : list gcall -> Prop :=
| enters_start cb id media group title : peers_ g = [] -> g_makeBackend cb = true ->
    enters ps g (startCall cb id ps media group title g).2
| enters_accept cb now p : peers_ g = [] -> g_makeBackend cb = true -> pending_ g = Some p ->
    p_participants p = ps -> enters ps g (acceptInvite cb now g).2.

Lemma enters_offers ps g w q : enters ps g w -> q <> self_ g ->
  Engine q CreateOffer ∈ w <-> q ∈ ps /\ blt (self_ g) q = true.
Proof.
  intros [cb id media group title Hp Hb|cb now p Hp Hb Hpe <-] Hq;
    [by apply startCall_offers|by apply acceptInvite_offers].
Qed.

(** *** Silent calls *)

Lemma silence_get now gcid q g :
  mget gcid (silenced_ (silence now gcid q g).1) = Some ((now + kSilenceFor)%Z, q).
Proof. unfold silence, modify. cbn. apply mget_mset_eq. Qed.

Lemma isSilenced_true now gcid till q k g : mget gcid (silenced_ g) = Some (till, q) ->
  (now <= till)%Z -> isSilenced now gcid k g = k true g.
Proof. intros H Hn. unfold isSilenced, reads. rewrite H. by destruct (Z.ltb_spec till now); [lia|]. Qed.

Lemma invite_silenced cb now from s g till q :
  mget (group_call_id s) (silenced_ g) = Some (till, q) -> (now <= till)%Z ->
  gcid_ g = [] -> pending_ g = None -> g_isBusy cb <> Some true ->
  onGroupInvite cb now from s g = (g, []).
Proof.
  intros Hs Hn Hg Hp Hb. unfold onGroupInvite, reads. rewrite Hg, Hp. cbn [length Nat.eqb negb andb orb].
  replace (match g_isBusy cb with Some b => b | None => false end) with false
    by (by destruct (g_isBusy cb) as [[]|]). cbn [orb].
  by rewrite (isSilenced_true now _ till q).
Qed.

(** *** Properties *)

(** Claim C5 (the mesh invariant): whatever signals arrive and whatever the user
    does, a manager has no session with itself; each session is filed under its
    peer and its peer's authentication has not failed; the waiting invitation
    keeps at most 64 participants and only checked signals of participants;
    at most 64 silent calls are remembered. *)
Theorem mesh_invariant self key g :
  greach (newGroupCallManager self key) g ->
  mget self (peers_ g) = None /\
  (forall p x, mget p (peers_ g) = Some x -> Session.peer_ x = p /\ peerAuth_ x <> Failed) /\
  (forall p, pending_ g = Some p -> length (p_participants p) <= kMaxParticipants /\
     Forall (fun b => b.1 ∈ p_participants p /\ authenticated b.2 = true) (p_buffered p)) /\
  length (silenced_ g) <= kSilenceLimit.
Proof.
  intros H. apply greach_ginv in H. split_and!; [| | |by destruct H].
  - destruct (mget self (peers_ g)) as [x|] eqn:E; [|done].
    by destruct (ginv_peer self g self x H E) as [? _].
  - intros p x Hx. by destruct (ginv_peer self g p x H Hx) as (_ & ? & ?).
  - intros p Hp. destruct (ginv_pending_of self g p H Hp) as [H1 H2]. split; [done|].
    eapply List.Forall_impl; [|exact H2]. cbn. tauto.
Qed.

(** Property (no glare): when two different participants enter a call, each as
    the initiator or by accepting the invitation, exactly one of the two makes
    the offer to the other. *)
Theorem mesh_no_glare ps g1 w1 g2 w2 :
  enters ps g1 w1 -> enters ps g2 w2 -> self_ g1 <> self_ g2 ->
  self_ g1 ∈ ps -> self_ g2 ∈ ps ->
  (Engine (self_ g2) CreateOffer ∈ w1 <-> Engine (self_ g1) CreateOffer ∉ w2).
Proof.
  intros H1 H2 Hne Hin1 Hin2. rewrite (enters_offers ps g1 w1), (enters_offers ps g2 w2) by (done || congruence).
  split.
  - intros [_ Hlt] [_ Hlt2]. by rewrite (blt_asym _ _ Hlt) in Hlt2.
  - intros Hn. split; [done|]. destruct (blt (self_ g1) (self_ g2)) eqn:E; [done|].
    destruct (blt (self_ g2) (self_ g1)) eqn:E2; [tauto|]. destruct Hne. by apply blt_total.
Qed.

(** Property (a declined call stays silent): for 45 seconds after the user
    declined an invitation, the same invitation from anyone neither rings nor
    is answered nor changes anything, while the user is in no call. *)
Theorem declined_stays_silent cb now why g p cb' now' from s :
  pending_ g = Some p -> gcid_ g = [] -> group_call_id s = p_gcid p -> type s = #"group_invite" ->
  (now' <= now + kSilenceFor)%Z -> g_isBusy cb' <> Some true ->
  let g' := (declineInvite cb now why g).1 in
  handleSignal cb' now' from s g' = (g', []).
Proof.
  intros Hp Hg Hs Ht Hn Hb. cbv zeta.
  assert (mget (p_gcid p) (silenced_ (declineInvite cb now why g).1) = Some ((now + kSilenceFor)%Z, false) /\
          gcid_ (declineInvite cb now why g).1 = [] /\ pending_ (declineInvite cb now why g).1 = None)
    as (H1 & H2 & H3).
  { unfold declineInvite, reads. rewrite Hp.
    set (P := fun g' => gcid_ g' = [] /\ pending_ g' = None).
    set (Q := fun g' => mget (p_gcid p) (silenced_ g') = Some ((now + kSilenceFor)%Z, false) /\ P g').
    assert (quiet_prop P) as HP by (by split). match goal with |- context [andThen ?a ?b g] => change (Q (andThen a b g).1) end.
    apply (andThen_post P); [by split|]. intros g1 Hg1.
    apply (andThen_post P).
    { apply forEach_state; [|done]. intros b g2 _ Hg2. unfold guarded. case_match; [|done].
      by apply sendTo_keeps. }
    intros g2 Hg2. apply (andThen_post P); [by apply declineCall_keeps|]. intros g3 Hg3.
    apply (andThen_post Q); [split; [apply silence_get|done]|]. intros g4 Hg4.
    unfold guarded. by case_match. }
  unfold handleSignal. rewrite Ht. cbn [bool_decide]. rewrite bool_decide_eq_false_2 by done.
  rewrite bool_decide_eq_true_2 by done. apply (invite_silenced _ _ _ _ _ (now + kSilenceFor) false);
    [by rewrite Hs|done..].
Qed.

(** Property (busy is said once): in another group call, an invitation changes
    nothing but the memory of silent calls; its sender, and nobody else, is
    told "busy", once in 45 seconds. *)
Theorem busy_said_once cb now now' from s g :
  gcid_ g <> [] -> gcid_ g <> group_call_id s -> pending_ g = None ->
  mget (group_call_id s) (silenced_ g) = None -> from <> self_ g -> g_sendV2 cb = true ->
  g_asyncSend cb = false -> group_call_id s <> [] -> (now' <= now + kSilenceFor)%Z ->
  let r := onGroupInvite cb now from s g in
  r.2 = [SendV2 from (rejectSignal (group_call_id s) (Some #"busy")) (group_call_id s)] /\
  r.1 = with_silenced (silenced_ r.1) g /\
  (onGroupInvite cb now' from s r.1).2 = [] /\ peers_ (onGroupInvite cb now' from s r.1).1 = peers_ g.
Proof.
  intros Hg Hne Hp Hs Hf Hv Ha Hid Hn. cbv zeta.
  assert (onGroupInvite cb now from s g =
    ((silence now (group_call_id s) false g).1,
     [SendV2 from (rejectSignal (group_call_id s) (Some #"busy")) (group_call_id s)])) as ->.
  { unfold onGroupInvite, reads at 1. cbv zeta. rewrite Hp.
    rewrite (bool_decide_eq_false_2 (gcid_ g = _)) by done.
    destruct (gcid_ g) as [|b0 l0] eqn:Eg; [done|].
    cbn [length Nat.eqb negb andb]. rewrite orb_true_r. cbn [orb].
    unfold isSilenced, reads. rewrite Hs, andThen_eq.
    assert (declineCall cb (group_call_id s) [from] #"busy" g =
      (g, [SendV2 from (rejectSignal (group_call_id s) (Some #"busy")) (group_call_id s)])) as ->; [|done].
    unfold declineCall. cbn [forEach]. rewrite andThen_eq. unfold reads at 1 2 3. rewrite decide_False by done.
    unfold sendTo, reads. rewrite Hv, Ha. destruct (group_call_id s); [done|]. done. }
  cbn [fst snd]. split; [done|]. split; [done|].
  set (g1 := (silence now (group_call_id s) false g).1).
  assert (onGroupInvite cb now' from s g1 = ((silence now' (group_call_id s) false g1).1, [])) as ->; [|done].
  unfold onGroupInvite, reads at 1. cbv zeta. change (pending_ g1) with (pending_ g). rewrite Hp.
  change (gcid_ g1) with (gcid_ g). rewrite (bool_decide_eq_false_2 (gcid_ g = _)) by done.
  destruct (gcid_ g) as [|b0 l0] eqn:Eg; [done|].
  cbn [length Nat.eqb negb andb]. rewrite orb_true_r. cbn [orb].
  rewrite (isSilenced_true now' _ (now + kSilenceFor) false); [done|apply silence_get|done].
Qed.

(** Property (strangers have no access): in a call, a pairwise signal of an
    address that is no participant and has no session is dropped. *)
Theorem stranger_ignored cb now from s g :
  awaits g from = None -> mget from (peers_ g) = None -> from ∉ members_ g ->
  type s <> #"media" -> type s <> #"group_invite" -> type s <> #"reject" ->
  peers_ (handleSignal cb now from s g).1 = peers_ g /\ (handleSignal cb now from s g).2 = [].
Proof.
  intros Hw Hm Hn T1 T2 T3. unfold handleSignal. rewrite !bool_decide_eq_false_2 by done.
  assert (forall g', mget from (peers_ g') = None -> from ∉ members_ g' -> routed cb from s g' = (g', [])) as Hr.
  { intros g' H1 H2. unfold routed, reads at 1. rewrite (bool_decide_eq_false_2 (type s = #"reject")) by done.
    cbn [andb]. unfold handleMeshSignalLocked, reads at 1. rewrite H1.
    repeat case_match; try done. rewrite bool_decide_eq_false_2 in *; by done. }
  assert (exists g', handleMesh cb now from s g = (g', []) /\ peers_ g' = peers_ g) as (g' & -> & E); [|done].
  unfold handleMesh, reads at 1. rewrite Hw. case_match; [|rewrite Hr; by eauto].
  unfold isSilenced, reads. repeat case_match; try (rewrite Hr by done); try by eauto.
  rewrite !andThen_eq. cbn [modify fst snd]. rewrite Hr by done. by eexists.
Qed.

(** *** The outgoing queues *)

(** What enters and leaves the queues: requests to send and turns of threads. *)
Inductive sendop :=
| Ask (peer : bytes) (signal : json) (groupCallId : bytes)
| Turn (peer : bytes).

Definition runOps (cb : GCallbacks) (ops : list sendop) : gaction :=
  forEach ops (fun o => match o with
    | Ask peer signal id => sendTo cb peer signal id
    | Turn peer => runOutbox peer end).

Definition queued (p : bytes) (g : GroupCallManager) : list (json * bytes) :=
  match mget p (outboxes_ g) with Some q => q | None => [] end.
Definition sent (p : bytes) (w : list gcall) : list (json * bytes) :=
  omap (fun c => match c with
    | SendV2 q j id => if bool_decide (q = p) then Some (j, id) else None | _ => None end) w.
Definition asked (p : bytes) (g : GroupCallManager) (ops : list sendop) : list (json * bytes) :=
  omap (fun o => match o with
    | Ask q j id => if bool_decide (q = p) then Some (j, effectiveGcid g j id) else None
    | Turn _ => None end) ops.

Lemma sent_app p w1 w2 : sent p (w1 ++ w2) = sent p w1 ++ sent p w2.
Proof. apply omap_app. Qed.

Lemma sendTo_queued cb q j id g p : g_sendV2 cb = true -> g_asyncSend cb = true -> outStop_ g = false ->
  let r := sendTo cb q j id g in
  sent p r.2 = [] /\ outStop_ r.1 = false /\ sendGcid_ r.1 = sendGcid_ g /\
  queued p r.1 = queued p g ++ (if bool_decide (q = p) then [(j, effectiveGcid g j id)] else []).
Proof.
  intros H1 H2 H3. unfold sendTo, reads. rewrite H1, H2, H3. cbn. split_and!; try done.
  unfold queued. cbn. destruct (decide (q = p)) as [->|E].
  - rewrite mget_mset_eq, bool_decide_eq_true_2 by done. by destruct (mget p (outboxes_ g)).
  - rewrite mget_mset_ne, bool_decide_eq_false_2 by auto. by rewrite app_nil_r.
Qed.

Lemma runOutbox_queued q g p : outStop_ g = false ->
  let r := runOutbox q g in
  sent p r.2 ++ queued p r.1 = queued p g /\ outStop_ r.1 = false /\ sendGcid_ r.1 = sendGcid_ g.
Proof.
  intros H. unfold runOutbox, reads. rewrite H.
  destruct (mget q (outboxes_ g)) as [[|[j id] rest]|] eqn:E; try done.
  rewrite andThen_eq. cbn [modify emit fst snd app]. split_and!; try done.
  unfold queued, sent. cbn [omap list_omap outboxes_ with_outboxes].
  destruct (decide (q = p)) as [->|En].
  - rewrite mget_mset_eq, bool_decide_eq_true_2, E by done. done.
  - rewrite mget_mset_ne, bool_decide_eq_false_2 by auto. done.
Qed.

(** Property (signals keep their order): with queued sending, what has been
    sent to a participant followed by what waits for it is what was waiting
    and then asked for, in order: nothing is lost, doubled or overtaken. *)
Theorem outbox_fifo cb ops g p :
  g_sendV2 cb = true -> g_asyncSend cb = true -> outStop_ g = false ->
  sent p (runOps cb ops g).2 ++ queued p (runOps cb ops g).1 = queued p g ++ asked p g ops.
Proof.
  intros H1 H2. revert g. induction ops as [|o ops IH]; intros g H3; [by rewrite app_nil_r|].
  unfold runOps. cbn [forEach]. fold (runOps cb ops). rewrite andThen_eq. cbn [fst snd].
  rewrite sent_app.
  match goal with |- context [runOps cb ops ?st] => set (g1 := st) end.
  assert (forall g1, sendGcid_ g1 = sendGcid_ g -> asked p g1 ops = asked p g ops) as Hasked.
  { intros g2 E. unfold asked, effectiveGcid. by rewrite E. }
  destruct o as [q j id|q].
  - destruct (sendTo_queued cb q j id g p H1 H2 H3) as (E1 & E2 & E3 & E4).
    unfold g1. rewrite E1. cbn [app]. rewrite IH, E4, Hasked by done.
    unfold asked. cbn [omap list_omap]. case_bool_decide; by rewrite <- app_assoc.
  - destruct (runOutbox_queued q g p H3) as (E1 & E2 & E3).
    unfold g1. rewrite <- app_assoc, IH, Hasked by done. rewrite app_assoc, E1. done.
Qed.

End Group.

(** *** The properties at concrete inputs *)

Definition toyHost : GCallbacks :=
  mkGCallbacks true None None None true true true true true (Some false) false true.
Definition toyIds (n : nat) : bytes := PlannerUtil.Decimal.to_string (Z.of_nat n).
Definition noKeys (_ _ _ : bytes) : bool := false.
Definition toyTeam : list bytes := [ #"ann"; #"bob"; #"cat" ].
Definition toyInvite : CallSignalIn :=
  mkCallSignalIn #"group_invite" [] #"audio" [] [] [] None #"g1" toyTeam [] [] false false true.
(** Bob, whom Ann's invitation reached. *)
Definition toyBob : GroupCallManager :=
  (handleSignal noKeys toyHost 0 #"ann" toyInvite (newGroupCallManager #"bob" None)).1.
(** Bob, in the call. *)
Definition toyJoined : GroupCallManager := (acceptInvite noKeys toyIds toyHost 1 toyBob).1.

(** Bob started a call himself. *)
Definition toyStarted : GroupCallManager :=
  (gstep noKeys toyIds toyHost 0 (GStartCall #"g" toyTeam [] [] []) (newGroupCallManager #"bob" None)).1.

Lemma mesh_invariant_witness :
  mget #"bob" (peers_ toyStarted) = None /\ map fst (peers_ toyStarted) = [ #"ann"; #"cat" ].
Proof.
  assert (greach noKeys toyIds (newGroupCallManager #"bob" None) toyStarted) as H.
  { apply greach_step, greach_init. }
  split; [exact (proj1 (mesh_invariant noKeys toyIds _ _ _ H))|vm_compute; reflexivity].
Defined.

Lemma mesh_no_glare_witness :
  Engine #"bob" CreateOffer ∈
    (startCall toyIds toyHost #"g1" toyTeam #"audio" [] [] (newGroupCallManager #"ann" None)).2 /\
  Engine #"ann" CreateOffer ∉ (acceptInvite noKeys toyIds toyHost 1 toyBob).2.
Proof.
  assert (Engine #"bob" CreateOffer ∈
    (startCall toyIds toyHost #"g1" toyTeam #"audio" [] [] (newGroupCallManager #"ann" None)).2) as H.
  { apply list_elem_of_In. vm_compute. tauto. }
  split; [exact H|]. revert H.
  apply (mesh_no_glare noKeys toyIds toyTeam (newGroupCallManager #"ann" None) _ toyBob).
  - apply enters_start; reflexivity.
  - eapply enters_accept; vm_compute; reflexivity.
  - discriminate.
  - left.
  - right; left.
Defined.

Lemma declined_stays_silent_witness :
  handleSignal noKeys toyHost 44 #"cat" toyInvite (declineInvite toyHost 1 #"declined" toyBob).1
  = ((declineInvite toyHost 1 #"declined" toyBob).1, []).
Proof.
  apply (declined_stays_silent noKeys toyHost 1 #"declined" toyBob
    (mkPendingInvite #"ann" #"g1" toyTeam #"audio" [] [] []));
    [vm_compute; reflexivity|reflexivity|reflexivity|reflexivity|vm_compute; discriminate|discriminate].
Defined.

Definition toyOther : CallSignalIn :=
  mkCallSignalIn #"group_invite" [] #"audio" [] [] [] None #"g2" toyTeam [] [] false false true.

Lemma busy_said_once_witness :
  (onGroupInvite toyHost 2 #"eve" toyOther toyJoined).2
  = [SendV2 #"eve" (rejectSignal #"g2" (Some #"busy")) #"g2"].
Proof.
  apply (busy_said_once toyHost 2 3 #"eve" toyOther toyJoined);
    first [discriminate | reflexivity | vm_compute; discriminate | vm_compute; reflexivity].
Defined.

Lemma stranger_ignored_witness :
  (handleSignal noKeys toyHost 2 #"eve"
    (mkCallSignalIn #"invite" #"c" [] #"SDP" [] [] None #"g1" [] [] [] false false true) toyJoined).2 = [].
Proof.
  apply (stranger_ignored noKeys toyHost 2 #"eve");
    first [discriminate | vm_compute; reflexivity | idtac].
Defined.

Definition toyQueued : GCallbacks :=
  mkGCallbacks true None None None true true true true true (Some false) true true.

Lemma outbox_fifo_witness :
  sent #"bob" (runOps toyQueued [Ask #"bob" (JBool true) #"g"; Turn #"bob"; Ask #"bob" (JBool false) #"g"]
                 (newGroupCallManager #"ann" None)).2
  ++ queued #"bob" (runOps toyQueued [Ask #"bob" (JBool true) #"g"; Turn #"bob"; Ask #"bob" (JBool false) #"g"]
                 (newGroupCallManager #"ann" None)).1
  = [(JBool true, #"g"); (JBool false, #"g")].
Proof.
  exact (outbox_fifo toyQueued [Ask #"bob" (JBool true) #"g"; Turn #"bob"; Ask #"bob" (JBool false) #"g"]
    (newGroupCallManager #"ann" None) #"bob" eq_refl eq_refl eq_refl).
Defined.

End Group.
