(* ===== verification/Permissions.v ===== *)
(** * Permissions: groups, rights and the rules of the chat window

    Module [Rights] models [include/parvane/group.h] (the records of a group on
    the wire and the content rules for members) and
    [include/parvane/chat_rules.h]. *)

From S2P Require Import Prelude Json BlobCrypt.

Module Rights.

Record DefaultPermissions := mkDefaultPermissions {
  send_messages : bool;
  send_media : bool;
  send_stickers_gifs : bool;
  send_polls : bool;
  embed_links : bool;
  invite_users : bool;
  pin_messages : bool;
  change_info : bool
}.

Definition defaultPermissions : DefaultPermissions :=
  mkDefaultPermissions true true true true true true false false.

Definition permissionsFromJson (j : json) : result exn DefaultPermissions :=
  if negb (is_object j) then Ok defaultPermissions
  else
    let! send_messages := value_bool j #"send_messages" true in
    let! send_media := value_bool j #"send_media" true in
    let! send_stickers_gifs := value_bool j #"send_stickers_gifs" true in
    let! send_polls := value_bool j #"send_polls" true in
    let! embed_links := value_bool j #"embed_links" true in
    let! invite_users := value_bool j #"invite_users" true in
    let! pin_messages := value_bool j #"pin_messages" false in
    let! change_info := value_bool j #"change_info" false in
    Ok (mkDefaultPermissions send_messages send_media send_stickers_gifs send_polls embed_links
          invite_users pin_messages change_info).

Definition permissionsToJson (p : DefaultPermissions) : json :=
  jobj [(#"send_messages", JBool (send_messages p)); (#"send_media", JBool (send_media p));
        (#"send_stickers_gifs", JBool (send_stickers_gifs p)); (#"send_polls", JBool (send_polls p));
        (#"embed_links", JBool (embed_links p)); (#"invite_users", JBool (invite_users p));
        (#"pin_messages", JBool (pin_messages p)); (#"change_info", JBool (change_info p))].

Record AdminRights := mkAdminRights {
  a_change_info : bool;
  a_delete_messages : bool;
  a_ban_users : bool;
  a_invite_users : bool;
  a_pin_messages : bool;
  a_add_admins : bool
}.

Definition fullRights : AdminRights := mkAdminRights true true true true true true.
Definition noRights : AdminRights := mkAdminRights false false false false false false.

Definition rightsFromJson (j : json) : result exn AdminRights :=
  if negb (is_object j) then Ok fullRights
  else
    let! change_info := value_bool j #"change_info" true in
    let! delete_messages := value_bool j #"delete_messages" true in
    let! ban_users := value_bool j #"ban_users" true in
    let! invite_users := value_bool j #"invite_users" true in
    let! pin_messages := value_bool j #"pin_messages" true in
    let! add_admins := value_bool j #"add_admins" true in
    Ok (mkAdminRights change_info delete_messages ban_users invite_users pin_messages add_admins).

Definition rightsToJson (r : AdminRights) : json :=
  jobj [(#"change_info", JBool (a_change_info r)); (#"delete_messages", JBool (a_delete_messages r));
        (#"ban_users", JBool (a_ban_users r)); (#"invite_users", JBool (a_invite_users r));
        (#"pin_messages", JBool (a_pin_messages r)); (#"add_admins", JBool (a_add_admins r))].

Record GroupMember := mkGroupMember {
  address : bytes;
  role : bytes;
  admin_rights : option AdminRights;
  promoted_by : bytes
}.

(** The string under a key, when it is there and is one. *)
Definition stringAt (j : json) (k : bytes) : bytes :=
  match jfind k j with Some (JStr s) => s | _ => [] end.

Definition memberFromJson (j : json) : result exn GroupMember :=
  let! address := value_str j #"address" [] in
  let! role := value_str j #"role" [] in
  let! rights := match jfind #"admin_rights" j with
                 | Some v => if is_object v then let! r := rightsFromJson v in Ok (Some r) else Ok None
                 | None => Ok None
                 end in
  Ok (mkGroupMember address role rights (stringAt j #"promoted_by")).

Definition effectiveRights (m : GroupMember) : AdminRights :=
  match admin_rights m with Some r => r | None => fullRights end.

Record GroupInfo := mkGroupInfo {
  group_id : bytes;
  name : bytes;
  kind : bytes;
  created_by : bytes;
  members : list GroupMember;
  avatar : bytes;
  avatar_key : bytes;
  about : bytes;
  default_permissions : DefaultPermissions;
  version : Z;           (** a [uint64_t] *)
  pending_requests : Z   (** an [int]; -1: not told *)
}.

Fixpoint collect {A} (f : json -> result exn A) (l : list json) : result exn (list A) :=
  match l with
  | [] => Ok []
  | j :: l' => let! x := f j in let! xs := collect f l' in Ok (x :: xs)
  end.

Definition versionOf (v : option json) : Z :=
  match v with
  | Some (JUnsigned z) => z
  | Some (JInt z) => if (0 <? z)%Z then z else 0%Z
  | _ => 0%Z
  end.

Definition groupFromJson (j : json) : result exn GroupInfo :=
  let! group_id := value_str j #"group_id" [] in
  let! name := value_str j #"name" [] in
  let! kind := value_str j #"kind" #"group" in
  let! created_by := value_str j #"created_by" [] in
  let! members := match jfind #"members" j with
                  | Some (JArr l) => collect memberFromJson l
                  | _ => Ok []
                  end in
  let! perms := match jfind #"default_permissions" j with
                | Some v => if is_object v then permissionsFromJson v else Ok defaultPermissions
                | None => Ok defaultPermissions
                end in
  let pending := match jfind #"pending_requests" j with
                 | Some (JInt z) | Some (JUnsigned z) => signed 32 z
                 | _ => (-1)%Z
                 end in
  Ok (mkGroupInfo group_id name kind created_by members (stringAt j #"avatar") (stringAt j #"avatar_key")
        (stringAt j #"about") perms (versionOf (jfind #"version" j)) pending).

(** ** Content rules for members without a role *)

Definition isMediaKind (kind : bytes) : bool :=
  bool_decide (kind = #"photo") || bool_decide (kind = #"video") || bool_decide (kind = #"file")
  || bool_decide (kind = #"voice") || bool_decide (kind = #"video_note") || bool_decide (kind = #"audio").

Definition isKindAllowed (p : DefaultPermissions) (kind : bytes) (hasLink : bool) : bool :=
  if negb (send_messages p) then false
  else if negb (send_media p) && isMediaKind kind then false
  else if negb (send_stickers_gifs p) && (bool_decide (kind = #"sticker") || bool_decide (kind = #"gif")) then false
  else if negb (send_polls p) && bool_decide (kind = #"poll") then false
  else if negb (embed_links p) && bool_decide (kind = #"text") && hasLink then false
  else true.

Definition isLinkEntity (t : bytes) : bool :=
  bool_decide (t = #"MessageEntityUrl") || bool_decide (t = #"MessageEntityTextUrl")
  || bool_decide (t = #"url") || bool_decide (t = #"text_url").

Fixpoint entitiesHaveLink (l : list json) : result exn bool :=
  match l with
  | [] => Ok false
  | e :: l' =>
      let! t := if is_object e then value_str e #"type" [] else Ok [] in
      if isLinkEntity t then Ok true else entitiesHaveLink l'
  end.

Definition contentHasLink (content : json) : result exn bool :=
  if negb (is_object content) then Ok false
  else if match jfind #"webpage" content with Some (JObj (_ :: _)) => true | _ => false end then Ok true
  else match jfind #"entities" content with
       | Some (JArr l) => entitiesHaveLink l
       | _ => Ok false
       end.

Definition isContentAllowedForMember (p : DefaultPermissions) (content : json) : result exn bool :=
  let! kind := if is_object content then value_str content #"kind" #"text" else Ok #"text" in
  let! hasLink := contentHasLink content in
  Ok (isKindAllowed p kind hasLink).

(** ** Rules of the chat window *)

Definition kMaxImageBytes : Z := Z.shiftl 64 20.
Definition kMaxPackArchiveBytes : Z := Z.shiftl 64 20.
Definition kMaxFileBytes : Z := Z.shiftl 2 30.

Definition plainLimitForKind (kind : bytes) : Z :=
  if bool_decide (kind = #"photo") || bool_decide (kind = #"sticker") || bool_decide (kind = #"avatar")
     || bool_decide (kind = #"preview") then kMaxImageBytes
  else if bool_decide (kind = #"pack") then kMaxPackArchiveBytes
  else kMaxFileBytes.

Definition chatBlobCipherCap (kind : bytes) (declaredPlainBytes : Z) : Z :=
  let limit := plainLimitForKind kind in
  let limit := if (0 <? declaredPlainBytes)%Z && (declaredPlainBytes <? limit)%Z then declaredPlainBytes
               else limit in
  Blob.maxCipherSize limit.

Inductive StickerSetOpen := InstallFromRef | ShowLocal | Unavailable.

Definition stickerSetOpenAction (hasPackRef localSetLoaded : bool) : StickerSetOpen :=
  if hasPackRef then InstallFromRef else if localSetLoaded then ShowLocal else Unavailable.

Definition canForwardToGroup (ownRole : bytes) (channel : bool) (perms : DefaultPermissions) (content : json) :
    result exn bool :=
  if bool_decide (ownRole = #"owner") || bool_decide (ownRole = #"admin") then Ok true
  else if bool_decide (ownRole = #"banned") then Ok false
  else if channel then Ok false else isContentAllowedForMember perms content.

(** ** Lemmas *)

(** [q] grants whatever [p] grants. *)
Definition grants (p q : DefaultPermissions) : Prop :=
  (send_messages p = true -> send_messages q = true) /\
  (send_media p = true -> send_media q = true) /\
  (send_stickers_gifs p = true -> send_stickers_gifs q = true) /\
  (send_polls p = true -> send_polls q = true) /\
  (embed_links p = true -> embed_links q = true).

Lemma isKindAllowed_grants p q kind hasLink : grants p q ->
  isKindAllowed p kind hasLink = true -> isKindAllowed q kind hasLink = true.
Proof.
  intros (H1 & H2 & H3 & H4 & H5). unfold isKindAllowed.
  destruct (send_messages p), (send_media p), (send_stickers_gifs p), (send_polls p), (embed_links p);
    cbn [negb andb]; try discriminate; rewrite ?H1, ?H2, ?H3, ?H4, ?H5 by done; cbn [negb andb]; try done.
  all: destruct (isMediaKind kind); try discriminate; rewrite ?andb_false_r; try done.
  all: destruct (bool_decide (kind = #"sticker") || bool_decide (kind = #"gif")); try discriminate;
       rewrite ?andb_false_r; try done.
  all: destruct (bool_decide (kind = #"poll")); try discriminate; rewrite ?andb_false_r; try done.
  all: destruct (bool_decide (kind = #"text")), hasLink; try discriminate; rewrite ?andb_false_r; done.
Qed.

Lemma chunked_limit_pos (n : Z) : (0 < n)%Z -> (n < Blob.maxCipherSize n)%Z.
Proof.
  intros H. unfold Blob.maxCipherSize, Blob.kHeaderLen, Blob.kTagLen, Blob.kMinChunkSize.
  destruct (Z.eqb_spec n 0); [lia|]. pose proof (Z.div_pos n 1024). lia.
Qed.

Lemma maxCipherSize_mono (a b : Z) : (0 < a <= b)%Z -> (Blob.maxCipherSize a <= Blob.maxCipherSize b)%Z.
Proof.
  intros H. unfold Blob.maxCipherSize, Blob.kHeaderLen, Blob.kTagLen, Blob.kMinChunkSize.
  destruct (Z.eqb_spec a 0); [lia|]. destruct (Z.eqb_spec b 0); [lia|].
  pose proof (Z.div_le_mono a b 1024). lia.
Qed.

Lemma plainLimit_pos (kind : bytes) : (0 < plainLimitForKind kind <= kMaxFileBytes)%Z.
Proof. unfold plainLimitForKind. repeat case_match; vm_compute; split; congruence. Qed.

(** ** Properties *)

(** Property (rights survive the wire): every set of default permissions and of
    admin rights reads back as written, and an admin without a set on the wire
    has the full one. *)
Theorem rights_roundtrip (p : DefaultPermissions) (r : AdminRights) (a who : bytes) :
  permissionsFromJson (permissionsToJson p) = Ok p /\ rightsFromJson (rightsToJson r) = Ok r /\
  (let! m := memberFromJson (jobj [(#"address", JStr a); (#"role", JStr #"admin");
     (#"admin_rights", rightsToJson r); (#"promoted_by", JStr who)]) in Ok (effectiveRights m)) = Ok r /\
  (let! m := memberFromJson (jobj [(#"address", JStr a); (#"role", JStr #"admin")]) in
   Ok (effectiveRights m)) = Ok fullRights.
Proof. destruct p, r. split_and!; by vm_compute. Qed.

(** Property (more rights never forbid more): what a member may post, or may
    forward under any role, stays allowed when permissions are only added. *)
Theorem permissions_monotone p q role channel content :
  grants p q -> canForwardToGroup role channel p content = Ok true ->
  canForwardToGroup role channel q content = Ok true.
Proof.
  intros Hg. unfold canForwardToGroup, isContentAllowedForMember.
  destruct (_ || _); [done|]. destruct (bool_decide _); [done|]. destruct channel; [done|].
  destruct (if is_object content then _ else _) as [k|]; [|done]. cbn [rbind].
  destruct (contentHasLink content) as [l|]; [|done]. cbn [rbind]. intros H.
  f_equal. injection H as H. by apply (isKindAllowed_grants p).
Qed.

Lemma permissions_monotone_witness :
  canForwardToGroup #"member" false
    (mkDefaultPermissions true true true false true false false false)
    (jobj [(#"kind", JStr #"photo")]) = Ok true.
Proof.
  apply (permissions_monotone (mkDefaultPermissions true true false false false false false false)).
  - split_and!; intros; reflexivity || discriminate.
  - vm_compute. reflexivity.
Defined.

(** Property (forwarding is closed by default): owners and admins forward
    anything; a role that is not known is treated as a member's; nobody without
    a role publishes in a channel, and an excluded user forwards nothing. *)
Theorem forward_closed_by_default role perms content channel :
  (role = #"owner" \/ role = #"admin" -> canForwardToGroup role channel perms content = Ok true) /\
  (role <> #"owner" -> role <> #"admin" -> canForwardToGroup role true perms content = Ok false) /\
  canForwardToGroup #"banned" channel perms content = Ok false /\
  (role <> #"owner" -> role <> #"admin" -> role <> #"banned" ->
   canForwardToGroup role channel perms content = canForwardToGroup #"member" channel perms content).
Proof.
  unfold canForwardToGroup. split_and!.
  - intros [->| ->]; by vm_compute.
  - intros H1 H2. rewrite !bool_decide_eq_false_2 by done. cbn [orb]. by case_match.
  - done.
  - intros H1 H2 H3. rewrite (bool_decide_eq_false_2 (role = #"owner")), (bool_decide_eq_false_2 (role = #"admin")),
      (bool_decide_eq_false_2 (role = #"banned")) by done. done.
Qed.

Lemma forward_closed_by_default_witness :
  canForwardToGroup #"guest" true defaultPermissions JNull = Ok false.
Proof.
  destruct (forward_closed_by_default #"guest" defaultPermissions JNull true) as (_ & H & _).
  apply H; discriminate.
Defined.

(** Property (the download cap): the cap for an attachment is never zero, never
    above the cap of its kind, and admits the ciphertext of the declared size. *)
Theorem chatBlobCipherCap_bounds kind declared :
  (0 < chatBlobCipherCap kind declared <= Blob.maxCipherSize (plainLimitForKind kind))%Z /\
  ((0 < declared <= plainLimitForKind kind)%Z -> chatBlobCipherCap kind declared = Blob.maxCipherSize declared).
Proof.
  pose proof (plainLimit_pos kind) as Hl. unfold chatBlobCipherCap.
  destruct (Z.ltb_spec 0 declared), (Z.ltb_spec declared (plainLimitForKind kind)); cbn [andb].
  - split; [|done]. split; [pose proof (chunked_limit_pos declared); lia|]. apply maxCipherSize_mono. lia.
  - split; [split; [pose proof (chunked_limit_pos (plainLimitForKind kind)); lia|lia]|].
    intros ?. f_equal. lia.
  - split; [split; [pose proof (chunked_limit_pos (plainLimitForKind kind)); lia|lia]|lia].
  - split; [split; [pose proof (chunked_limit_pos (plainLimitForKind kind)); lia|lia]|lia].
Qed.

Lemma chatBlobCipherCap_bounds_witness : chatBlobCipherCap #"photo" 5000 = Blob.maxCipherSize 5000.
Proof. apply (chatBlobCipherCap_bounds #"photo" 5000). vm_compute. split; [reflexivity|discriminate]. Defined.

End Rights.
