(* ===== verification/Poll.v ===== *)
(** * Poll: votes, deadlines and anonymous tallies

    Module [Poll] models [include/parvane/poll.h]. Times are [int64_t]
    milliseconds; sums wrap. A fractional [close_ms] is truncated, as the JSON
    library does; outside the range of [int64_t] that is undefined. *)

From S2P Require Import Prelude Json PlannerUtil.

Module Poll.

(** ** The two sets of names *)

Definition copy (a b : bytes) (c : json) : json :=
  match jfind a c, jfind b c with
  | Some v, None => jset b v c
  | None, Some v => jset a v c
  | _, _ => c
  end.

Definition normalize (c : json) : json :=
  if negb (is_object c) then c
  else copy #"is_quiz" #"quiz" (copy #"is_multiple" #"multiple"
         (copy #"is_public" #"public" (copy #"options" #"answers" c))).

(** ** The rules of a vote *)

Definition kCloseGraceMs : Z := 60 * 1000.

Record VoteRules := mkVoteRules { closed : bool; closeAtMs : Z; quiz : bool; noRevote : bool }.
Definition noRules : VoteRules := mkVoteRules false 0 false false.

Definition isSpaceC (c : byte) : bool := ((b2z c =? 32) || ((9 <=? b2z c) && (b2z c <=? 13)))%Z.

Fixpoint leadingDigits (s : bytes) : bytes :=
  match s with
  | c :: s' => if Decimal.isDigit c then c :: leadingDigits s' else []
  | [] => []
  end.

(** [strtoll(s, nullptr, 10)]: spaces, a sign, digits; saturates. *)
Definition strtoll (s : bytes) : Z :=
  let s := Utf8.Unicode.drop_while isSpaceC s in
  let '(neg, s) := match s with
                   | c :: s' => if bool_decide (c = "-"%byte) then (true, s')
                                else if bool_decide (c = "+"%byte) then (false, s') else (false, s)
                   | [] => (false, [])
                   end in
  let v := Decimal.value (leadingDigits s) in
  Z.max (- 2 ^ 63) (Z.min (2 ^ 63 - 1) (if neg then - v else v)).

(** Truncation of a double to [int64_t]. *)
Definition truncate (f : spec_float) : result exn Z :=
  match f with
  | S754_zero _ => Ok 0%Z
  | S754_finite sg m e =>
      let a := Z.shiftl (Z.pos m) e in
      let v := if sg then (- a)%Z else a in
      if ((- 2 ^ 63 <=? v) && (v <? 2 ^ 63))%Z then Ok v else Err Undefined
  | _ => Err Undefined
  end.

Definition closeMs (v : option json) : result exn Z :=
  match v with
  | Some (JInt z) => Ok z
  | Some (JUnsigned z) => Ok (i64 z)
  | Some (JFloat f) => truncate f
  | Some (JStr s) => Ok (strtoll s)
  | _ => Ok 0%Z
  end.

Definition rulesOf (content : json) : result exn VoteRules :=
  if negb (is_object content) then Ok noRules
  else
    let c := normalize content in
    let! at_ := closeMs (jfind #"close_ms" c) in
    let! quiz := value_bool c #"quiz" false in
    let! noRevote := value_bool c #"no_revote" false in
    Ok (mkVoteRules false at_ quiz noRevote).

Definition acceptsVote (r : VoteRules) (alreadyVoted : bool) (atMs : Z) : bool :=
  if closed r then false
  else if (0 <? closeAtMs r)%Z && (i64 (closeAtMs r + kCloseGraceMs) <? atMs)%Z then false
  else if (quiz r || noRevote r) && alreadyVoted then false
  else true.

Definition isClosedAt (r : VoteRules) (nowMs : Z) : bool :=
  closed r || ((0 <? closeAtMs r)%Z && (closeAtMs r <=? nowMs)%Z).

(** ** Anonymous polls of a group *)

Definition kMaxTally : Z := 10000000.

Definition isAnonymousGroup (isGroup publicVoters : bool) (author : bytes) : bool :=
  isGroup && negb publicVoters && negb (length author =? 0).

Record Tally := mkTally { counts : list Z; voters : Z }.

Definition isTallyContent (c : json) : result exn bool :=
  if negb (is_object c) then Ok false
  else let! kind := value_str c #"kind" [] in
       if bool_decide (kind = #"poll_vote") then value_bool c #"tally" false else Ok false.

Definition clamp (v : json) : Z :=
  match v with
  | JInt z | JUnsigned z =>
      let n := i64 z in if (n <? 0)%Z then 0%Z else if (kMaxTally <? n)%Z then kMaxTally else n
  | _ => 0%Z
  end.

(** [counts] of the content, cut or padded to [answers] entries. *)
Fixpoint fillCounts (n : nat) (l : list json) : list Z :=
  match n, l with
  | O, _ => []
  | S n', v :: l' => clamp v :: fillCounts n' l'
  | S n', [] => 0%Z :: fillCounts n' []
  end.

Definition readTally (c : json) (answers : Z) : Tally :=
  mkTally (fillCounts (Z.to_nat answers) (match jfind #"counts" c with Some (JArr l) => l | _ => [] end))
          (match jfind #"voters" c with Some v => clamp v | None => 0%Z end).

Definition tallyContent (pollUuid : bytes) (t : Tally) : json :=
  jobj [(#"kind", JStr #"poll_vote"); (#"poll", JStr pollUuid); (#"options", JArr []);
        (#"tally", JBool true); (#"counts", JArr (JInt <$> counts t)); (#"voters", JInt (voters t))].

Record VoteCtx := mkVoteCtx {
  anonGroup : bool;
  inPollChat : bool;
  self : bytes;
  author : bytes;
  voter : bytes;
  to : bytes;
  voterIsMember : bool
}.
Record VoteRoute := mkVoteRoute { count : bool; publish : bool }.

Definition iAmAuthor (x : VoteCtx) : bool :=
  negb (length (author x) =? 0) && bool_decide (author x = self x).

Definition routeVote (x : VoteCtx) : VoteRoute :=
  if inPollChat x then
    if anonGroup x && negb (iAmAuthor x) && negb (bool_decide (voter x = self x)) then mkVoteRoute false false
    else mkVoteRoute true (anonGroup x && iAmAuthor x)
  else if negb (anonGroup x) then mkVoteRoute false false
  else if bool_decide (voter x = self x) && bool_decide (to x = author x) then mkVoteRoute true false
  else if iAmAuthor x && bool_decide (to x = self x) && voterIsMember x then mkVoteRoute true true
  else mkVoteRoute false false.

(** ** Lemmas *)

(** The value under either name. *)
Definition either (a b : bytes) (c : json) : option json :=
  match jfind a c with Some v => Some v | None => jfind b c end.

Lemma copy_object (a b : bytes) (c : json) : is_object c = true -> is_object (copy a b c) = true.
Proof. intros H. unfold copy. destruct c; try done. cbn. by repeat case_match. Qed.

Lemma copy_other (a b k : bytes) (c : json) : k <> a -> k <> b -> jfind k (copy a b c) = jfind k c.
Proof.
  intros Ha Hb. unfold copy. destruct (jfind a c) eqn:Ea, (jfind b c) eqn:Eb; try done;
    destruct c; try done; cbn [jset jfind]; by apply obj_get_set_ne.
Qed.

Lemma copy_pair (a b : bytes) (c : json) : a <> b -> is_object c = true ->
  jfind a (copy a b c) = either a b c /\ jfind b (copy a b c) = either b a c.
Proof.
  intros Hab Hc. destruct c as [| | | | | | |m]; try done. unfold either, copy. cbn [jfind].
  destruct (obj_get a m) as [va|] eqn:Ea, (obj_get b m) as [vb|] eqn:Eb; cbn [jset jfind];
    rewrite ?obj_get_set_eq, ?obj_get_set_ne by auto; by rewrite ?Ea, ?Eb.
Qed.

Lemma either_other (a b a' b' : bytes) (c : json) : a <> a' -> a <> b' -> b <> a' -> b <> b' ->
  either a b (copy a' b' c) = either a b c.
Proof. intros. unfold either. by rewrite !copy_other. Qed.

Definition pairs : list (bytes * bytes) :=
  [(#"options", #"answers"); (#"is_public", #"public"); (#"is_multiple", #"multiple"); (#"is_quiz", #"quiz")].

Lemma normalize_pair (a b : bytes) (c : json) : (a, b) ∈ pairs -> is_object c = true ->
  jfind a (normalize c) = either a b c /\ jfind b (normalize c) = either b a c.
Proof.
  intros Hin Hc. unfold normalize. rewrite Hc. cbn [negb].
  unfold pairs in Hin. rewrite !elem_of_cons, elem_of_nil in Hin.
  destruct Hin as [E|[E|[E|[E|[]]]]]; injection E as -> ->.
  - rewrite !(copy_other #"is_quiz"), !(copy_other #"is_multiple"), !(copy_other #"is_public") by done.
    by apply copy_pair.
  - rewrite !(copy_other #"is_quiz"), !(copy_other #"is_multiple") by done.
    destruct (copy_pair #"is_public" #"public" (copy #"options" #"answers" c)) as [-> ->];
      [done|by repeat apply copy_object|]. by rewrite !either_other by done.
  - rewrite !(copy_other #"is_quiz") by done.
    destruct (copy_pair #"is_multiple" #"multiple" (copy #"is_public" #"public" (copy #"options" #"answers" c)))
      as [-> ->]; [done|by repeat apply copy_object|]. by rewrite !either_other by done.
  - destruct (copy_pair #"is_quiz" #"quiz" (copy #"is_multiple" #"multiple"
      (copy #"is_public" #"public" (copy #"options" #"answers" c)))) as [-> ->];
      [done|by repeat apply copy_object|]. by rewrite !either_other by done.
Qed.

Lemma normalize_other (k : bytes) (c : json) : (forall a b, (a, b) ∈ pairs -> k <> a /\ k <> b) ->
  jfind k (normalize c) = jfind k c.
Proof.
  intros Hk. unfold normalize. destruct (is_object c); cbn [negb]; [|done].
  assert (forall a b, (a, b) ∈ pairs -> forall c, jfind k (copy a b c) = jfind k c) as E.
  { intros a b Hin c'. destruct (Hk a b Hin). by apply copy_other. }
  by rewrite !E by (unfold pairs; rewrite !elem_of_cons; tauto).
Qed.

Lemma fillCounts_spec (n : nat) (l : list json) :
  length (fillCounts n l) = n /\ Forall (fun z => 0 <= z <= kMaxTally)%Z (fillCounts n l).
Proof.
  assert (forall v, 0 <= clamp v <= kMaxTally)%Z as Hc.
  { intros v. unfold clamp, kMaxTally. destruct v; try lia;
      destruct (Z.ltb_spec (i64 z) 0); try lia; destruct (Z.ltb_spec 10000000 (i64 z)); lia. }
  revert l. induction n as [|n IH]; intros [|v l]; cbn [fillCounts length]; try by split.
  - destruct (IH []) as [-> H]. split; [done|]. constructor; [unfold kMaxTally; lia|done].
  - destruct (IH l) as [-> H]. split; [done|]. by constructor.
Qed.

Lemma clamp_reparse (z : Z) : (0 <= z <= kMaxTally)%Z -> clamp (reparse (JInt z)) = z.
Proof.
  intros H. unfold kMaxTally in H. cbn [reparse]. destruct (Z.leb_spec 0 z); [|lia]. cbn [clamp].
  unfold i64, signed. rewrite Z.mod_small by (zpow; lia). replace (z + 2 ^ (64 - 1) - 2 ^ (64 - 1))%Z with z by lia.
  unfold kMaxTally. destruct (Z.ltb_spec z 0); [lia|]. by destruct (Z.ltb_spec 10000000 z); [lia|].
Qed.

(** ** Properties *)

(** Property (both dialects read alike): after [normalize] each pair of names
    holds what was under either; a name that was present and every other field
    stay as they were; and doing it again changes nothing that is read. *)
Theorem normalize_pairs (c : json) : is_object c = true ->
  (forall a b, (a, b) ∈ pairs ->
     jfind a (normalize c) = either a b c /\ jfind b (normalize c) = either b a c) /\
  (forall k, jfind k c <> None -> jfind k (normalize c) = jfind k c) /\
  (forall k, jfind k (normalize (normalize c)) = jfind k (normalize c)).
Proof.
  intros Hc. assert (is_object (normalize c) = true) as Hn.
  { unfold normalize. rewrite Hc. cbn [negb]. by repeat apply copy_object. }
  assert (forall k, (exists a b, (a, b) ∈ pairs /\ (k = a \/ k = b)) \/ forall a b, (a, b) ∈ pairs -> k <> a /\ k <> b)
    as Hdec.
  { intros k. destruct (decide (k ∈ pairs.*1 ++ pairs.*2)) as [Hk|Hk].
    - left. rewrite elem_of_app, !list_elem_of_fmap in Hk. destruct Hk as [([a b] & -> & H)|([a b] & -> & H)]; eauto.
    - right. rewrite elem_of_app, !list_elem_of_fmap in Hk. intros a b H.
      split; intros ->; apply Hk; [left|right]; by exists (a, b). }
  split; [intros; by apply normalize_pair|]. split.
  - intros k Hk. destruct (Hdec k) as [(a & b & Hin & [->| ->])|Ho]; [| |by apply normalize_other].
    + rewrite (proj1 (normalize_pair _ _ _ Hin Hc)). unfold either. by case_match.
    + rewrite (proj2 (normalize_pair _ _ _ Hin Hc)). unfold either. by case_match.
  - intros k. destruct (Hdec k) as [(a & b & Hin & Hk)|Ho]; [|by apply normalize_other].
    destruct (normalize_pair _ _ _ Hin Hc) as [Ea Eb]. destruct (normalize_pair _ _ _ Hin Hn) as [Fa Fb].
    destruct Hk as [->| ->]; [rewrite Fa|rewrite Fb]; unfold either in *; rewrite Ea, Eb;
      by repeat case_match.
Qed.

Lemma normalize_pairs_witness :
  jfind #"answers" (normalize (jobj [(#"options", JArr [])])) = Some (JArr []).
Proof.
  destruct (normalize_pairs (jobj [(#"options", JArr [])]) eq_refl) as (H & _).
  destruct (H #"options" #"answers") as [_ E]; [left|]. rewrite E. reflexivity.
Defined.

(** Property (when a vote counts): short of the end of the [int64_t] range, a
    vote is accepted exactly when the poll is open, the vote was cast no later
    than a minute after the deadline, and it is no second vote where the first
    is final; so a poll shown as closed accepts nothing cast a minute later. *)
Theorem acceptsVote_iff (r : VoteRules) (voted : bool) (t : Z) :
  (closeAtMs r < 2 ^ 63 - kCloseGraceMs)%Z ->
  (acceptsVote r voted t = true <->
     closed r = false /\ ((closeAtMs r <= 0)%Z \/ (t <= closeAtMs r + kCloseGraceMs)%Z) /\
     (quiz r || noRevote r = true -> voted = false)) /\
  (isClosedAt r (t - kCloseGraceMs - 1) = true -> acceptsVote r voted t = false).
Proof.
  intros Hr. unfold kCloseGraceMs in *. unfold acceptsVote, isClosedAt, kCloseGraceMs.
  assert ((0 < closeAtMs r)%Z -> i64 (closeAtMs r + 60 * 1000) = (closeAtMs r + 60 * 1000)%Z) as E.
  { intros Hp. unfold i64, signed. rewrite Z.mod_small by (zpow; lia). lia. }
  destruct (closed r); [split; [split; [done|intros []; done]|done]|].
  destruct (Z.ltb_spec 0 (closeAtMs r)) as [Hp|Hp]; cbn [andb orb].
  - rewrite E by done. destruct (Z.ltb_spec (closeAtMs r + 60 * 1000) t).
    + split; [split; [done|intros (_ & [|] & _); lia]|done].
    + split.
      * destruct (quiz r || noRevote r), voted; cbn [andb]; split; try done; auto.
        intros (_ & _ & Hv). by specialize (Hv eq_refl).
      * destruct (Z.leb_spec (closeAtMs r) (t - 60 * 1000 - 1)); [lia|done].
  - split; [|done]. destruct (quiz r || noRevote r), voted; cbn [andb]; split; try done; auto.
    intros (_ & _ & Hv). by specialize (Hv eq_refl).
Qed.

Lemma acceptsVote_iff_witness :
  acceptsVote (mkVoteRules false 1000000 true false) false 1060000 = true.
Proof.
  apply (acceptsVote_iff (mkVoteRules false 1000000 true false) false 1060000).
  - vm_compute. reflexivity.
  - split; [reflexivity|]. split; [right; vm_compute; discriminate|reflexivity].
Defined.

(** A deadline at the end of the range, which a poll's content may name, makes
    the sum with the grace period overflow: every vote is late. *)
Lemma close_ms_overflow :
  acceptsVote (mkVoteRules false (2 ^ 63 - 1) false false) false 0 = false.
Proof. by vm_compute. Qed.

(** Property (tallies are bounded and survive the wire): a tally read for
    [answers] options has exactly that many counters, all of them and the
    number of voters between 0 and the ceiling; a tally within these bounds,
    printed and parsed, reads back as it was. *)
Theorem readTally_roundtrip (c : json) (answers : Z) (id : bytes) (t : Tally) :
  (length (counts (readTally c answers)) = Z.to_nat answers /\
   Forall (fun z => 0 <= z <= kMaxTally)%Z (counts (readTally c answers)) /\
   (0 <= voters (readTally c answers) <= kMaxTally)%Z) /\
  (Forall (fun z => 0 <= z <= kMaxTally)%Z (counts t) -> (0 <= voters t <= kMaxTally)%Z ->
   isTallyContent (reparse (tallyContent id t)) = Ok true /\
   readTally (reparse (tallyContent id t)) (Z.of_nat (length (counts t))) = t).
Proof.
  split.
  - split; [apply fillCounts_spec|]. split; [apply fillCounts_spec|].
    pose proof (fillCounts_spec 1 [match jfind #"voters" c with Some v => v | None => JNull end]) as [_ H].
    cbn [fillCounts] in H. inversion H as [|? ? H1 _]. cbn [readTally voters].
    by destruct (jfind #"voters" c).
  - intros Hc Hv. split; [by vm_compute|]. unfold readTally.
    rewrite !jfind_reparse.
    change (jfind #"counts" (tallyContent id t)) with (Some (JArr (JInt <$> counts t))).
    change (jfind #"voters" (tallyContent id t)) with (Some (JInt (voters t))).
    cbn [fmap option_fmap option_map]. rewrite clamp_reparse by done. rewrite Nat2Z.id.
    destruct t as [cs vs]. cbn [counts voters] in *. f_equal. cbn [reparse].
    induction Hc as [|z cs Hz Hcs IH]; [done|]. cbn [length fmap list_fmap map fillCounts].
    rewrite clamp_reparse by done. f_equal. exact IH.
Qed.

Lemma readTally_roundtrip_witness :
  readTally (reparse (tallyContent #"p" (mkTally [3; 0; 5]%Z 8))) 3 = mkTally [3; 0; 5]%Z 8.
Proof.
  apply (readTally_roundtrip JNull 0 #"p" (mkTally [3; 0; 5]%Z 8)).
  - repeat constructor; vm_compute; discriminate.
  - vm_compute. split; discriminate.
Defined.

(** Property (anonymous votes go through the author): in an anonymous group
    poll only the author publishes, and only votes he counts; whoever is not
    the author counts nobody's vote but his own. *)
Theorem anonymous_votes (x : VoteCtx) :
  (publish (routeVote x) = true -> anonGroup x = true /\ iAmAuthor x = true /\ count (routeVote x) = true) /\
  (anonGroup x = true -> iAmAuthor x = false -> count (routeVote x) = true -> voter x = self x) /\
  (inPollChat x = false -> anonGroup x = false -> count (routeVote x) = false).
Proof.
  unfold routeVote. destruct (inPollChat x), (anonGroup x), (iAmAuthor x) eqn:Ea; cbn [andb negb];
    repeat (case_bool_decide; cbn [andb negb]); try destruct (voterIsMember x); cbn; split_and!; intros; by auto.
Qed.

Lemma anonymous_votes_witness :
  #"me" = self (mkVoteCtx true true #"me" #"ann" #"me" [] false).
Proof.
  apply (anonymous_votes (mkVoteCtx true true #"me" #"ann" #"me" [] false)); reflexivity.
Defined.

End Poll.
