(* ===== verification/Calendar.v ===== *)
(** * Calendar: days, months and grids of the planner

    Module [Calendar] models the calendar part of
    [src/sections/planner_model.cpp]: the civil date of a day number and back,
    day keys, weeks, month and year grids, times of day, moving by months.
    [long long] values are integers here: day keys hold years of four digits,
    so that nothing in this file comes near 2^63. *)

From S2P Require Import Prelude PlannerUtil.
Import Decimal Util.

#[local] Open Scope Z_scope.

Module Calendar.

(** ** Dates without a time zone *)

Definition daysFromCivil (y m d : Z) : Z :=
  let y := if m <=? 2 then y - 1 else y in
  let era := Z.quot (if 0 <=? y then y else y - 399) 400 in
  let yoe := y - era * 400 in
  let doy := Z.quot (153 * (m + (if 2 <? m then -3 else 9)) + 2) 5 + d - 1 in
  let doe := yoe * 365 + Z.quot yoe 4 - Z.quot yoe 100 + doy in
  era * 146097 + doe - 719468.

Record Parts := { year : Z; month : Z; date : Z }.

Definition civilFromDays (z : Z) : Parts :=
  let z := z + 719468 in
  let era := Z.quot (if 0 <=? z then z else z - 146096) 146097 in
  let doe := z - era * 146097 in
  let yoe := Z.quot (doe - Z.quot doe 1460 + Z.quot doe 36524 - Z.quot doe 146096) 365 in
  let y := yoe + era * 400 in
  let doy := doe - (365 * yoe + Z.quot yoe 4 - Z.quot yoe 100) in
  let mp := Z.quot (5 * doy + 2) 153 in
  let d := doy - Z.quot (153 * mp + 2) 5 + 1 in
  let m := mp + (if mp <? 10 then 3 else -9) in
  {| year := if m <=? 2 then y + 1 else y; month := m; date := d |}.

(** As [Date.UTC]: months and dates carry over, years 0..99 are 1900..1999. *)
Definition epochOf (year month date : Z) : Z :=
  let year := if (0 <=? year) && (year <=? 99) then year + 1900 else year in
  let m0 := month - 1 in
  let year := year + floorDiv m0 12 in
  let m0 := m0 - floorDiv m0 12 * 12 in
  daysFromCivil year (m0 + 1) 1 + (date - 1).

(** [numberOf] of one piece as an integer: [strtod] is exact below 2^53, and
    rounding does not cross 10^15. *)
Definition num (chunks : list bytes) (i : nat) : Z :=
  match chunks !! i with
  | None => 0
  | Some part => match numberOf part with
                 | Some v => if Z.abs v <? 10 ^ 15 then v else 0
                 | None => 0
                 end
  end.

Definition parts (day : bytes) : Parts :=
  let chunks := split day "-" in
  {| year := num chunks 0; month := signed 32 (num chunks 1); date := signed 32 (num chunks 2) |}.

Definition epochDays (day : bytes) : Z :=
  let p := parts day in epochOf (year p) (month p) (date p).

Definition toDayKey (year month date : Z) : bytes :=
  to_string year ++ #"-" ++ pad2 month ++ #"-" ++ pad2 date.

Definition keyOfEpoch (epoch : Z) : bytes :=
  let p := civilFromDays epoch in
  to_string (year p) ++ #"-" ++ pad2 (month p) ++ #"-" ++ pad2 (date p).

Definition weekIndexOfEpoch (epoch : Z) : Z := floorDiv (epoch + 3) 7.
Definition mondayOfWeek (week : Z) : Z := week * 7 - 3.
Definition weekdayOfEpoch (epoch : Z) : Z := Z.rem (Z.rem (epoch + 4) 7 + 7) 7.
Definition daysInMonth (year month : Z) : Z := date (civilFromDays (epochOf year (month + 1) 0)).
Definition mondayBased (weekday : Z) : Z := Z.rem (weekday + 6) 7.
Definition bitOf (n : Z) : Z := u32 (Z.shiftl 1 (Z.rem (Z.rem n 32 + 32) 32)).

Definition addDays (day : bytes) (delta : Z) : bytes := keyOfEpoch (epochDays day + delta).
Definition weekdayOf (day : bytes) : Z := weekdayOfEpoch (epochDays day).

(** ** Times of day *)

(** [NaN] and values beyond 10^9 give 0. *)
Definition toMinutes (time : bytes) : Z :=
  let chunks := split time ":" in
  match numberOf (nth 0 chunks []), (c ← chunks !! 1%nat; numberOf c) with
  | Some hours, Some minutes =>
      let total := hours * 60 + minutes in if Z.abs total <? 10 ^ 9 then total else 0
  | _, _ => 0
  end.

Definition toTime (minutes : Z) : bytes :=
  pad2 (floorDiv minutes 60) ++ #":" ++ pad2 (Z.rem minutes 60).

Definition kDefaultEventMinutes : Z := 60.
Definition kMinutesInDay : Z := 1440.

Definition getDefaultEventEnd (start : bytes) : bytes :=
  toTime (Z.min (toMinutes start + kDefaultEventMinutes) (kMinutesInDay - 1)).

(** ** Grids *)

(** [for (int i = lo; i < lo + n; ++i)] *)
Definition upTo (lo : Z) (n : nat) : list Z := (fun i => lo + Z.of_nat i) <$> seq 0 n.

Definition getMonthKeys (year month : Z) : list bytes :=
  toDayKey year month <$> upTo 1 (Z.to_nat (daysInMonth year month)).

Definition getMonthOffset (year month : Z) : Z :=
  mondayBased (weekdayOfEpoch (epochOf year month 1)).

Definition getWeekKeys (day : bytes) : list bytes :=
  let monday := addDays day (- mondayBased (weekdayOf day)) in
  addDays monday <$> upTo 0 7.

Definition getYearKeys (year : Z) : list bytes := mjoin (getMonthKeys year <$> upTo 1 12).

Definition getMonthGridKeys (year month : Z) : list bytes :=
  let days := getMonthKeys year month in
  let offset := getMonthOffset year month in
  let first := addDays (nth 0 days []) (- offset) in
  let count := (offset + Z.of_nat (length days) + 6) `div` 7 * 7 in
  addDays first <$> upTo 0 (Z.to_nat count).

(** ** Moving by months *)

Definition moveToMonth (day : bytes) (months toDate : Z) : bytes :=
  let d := parts day in
  let index := year d * 12 + month d - 1 + months in
  let y := floorDiv index 12 in
  let m := index - y * 12 + 1 in
  let clamped := Z.min toDate (daysInMonth y m) in
  to_string y ++ #"-" ++ pad2 m ++ #"-" ++ pad2 clamped.

Definition shiftPeriod (view day : bytes) (delta : Z) : bytes :=
  if bool_decide (view = #"day") then addDays day delta
  else if bool_decide (view = #"week") || bool_decide (view = #"agenda") then addDays day (delta * 7)
  else
    let d := parts day in
    let '(y, m) :=
      if bool_decide (view = #"year") then (year d + delta, month d)
      else (year d + floorDiv (month d - 1 + delta) 12,
            Z.rem (Z.rem (month d - 1 + delta) 12 + 12) 12 + 1) in
    let dt := Z.min (date d) (daysInMonth y m) in
    to_string y ++ #"-" ++ pad2 m ++ #"-" ++ pad2 dt.

(** ** The Gregorian calendar, independently *)

Definition leap (y : Z) : bool :=
  (y `mod` 4 =? 0) && negb (y `mod` 100 =? 0) || (y `mod` 400 =? 0).

Definition monthLength (y m : Z) : Z :=
  if m =? 2 then (if leap y then 29 else 28)
  else if (m =? 4) || (m =? 6) || (m =? 9) || (m =? 11) then 30 else 31.

Definition validDate (p : Parts) : Prop :=
  1 <= month p <= 12 /\ 1 <= date p <= monthLength (year p) (month p).

Definition daysOf (p : Parts) : Z := daysFromCivil (year p) (month p) (date p).

(** Days before the March year [y], and before the [i]-th month since year 0. *)
Definition yearStart (y : Z) : Z := 365 * y + y `div` 4 - y `div` 100 + y `div` 400.
Definition monthStart (i : Z) : Z := daysFromCivil (i `div` 12) (i `mod` 12 + 1) 1.
Definition monthLen (i : Z) : Z := monthLength (i `div` 12) (i `mod` 12 + 1).

Lemma daysFromCivil_eq (y m d : Z) : 1 <= m <= 12 ->
  daysFromCivil y m d =
    yearStart (if m <=? 2 then y - 1 else y)
    + (153 * (if m <=? 2 then m + 9 else m - 3) + 2) `div` 5 + d - 1 - 719468.
Proof.
  intros Hm. unfold daysFromCivil, yearStart.
  set (y' := if m <=? 2 then y - 1 else y).
  assert (Z.quot (if 0 <=? y' then y' else y' - 399) 400 = y' `div` 400) as ->.
  { destruct (Z.leb_spec 0 y'); Z.to_euclidean_division_equations; lia. }
  assert (153 * (m + (if 2 <? m then -3 else 9)) + 2 = 153 * (if m <=? 2 then m + 9 else m - 3) + 2) as ->.
  { destruct (Z.leb_spec m 2), (Z.ltb_spec 2 m); lia. }
  set (q := 153 * _ + 2). assert (0 <= q) by (subst q; destruct (Z.leb_spec m 2); lia).
  rewrite !Z.quot_div_nonneg by (Z.to_euclidean_division_equations; lia).
  assert ((y' - y' `div` 400 * 400) `div` 4 = y' `div` 4 - y' `div` 400 * 100) as ->
    by (Z.to_euclidean_division_equations; lia).
  assert ((y' - y' `div` 400 * 400) `div` 100 = y' `div` 100 - y' `div` 400 * 4) as ->
    by (Z.to_euclidean_division_equations; lia).
  lia.
Qed.

Lemma yearStart_succ (y : Z) : yearStart (y + 1) = yearStart y + (if leap (y + 1) then 366 else 365).
Proof.
  unfold yearStart, leap.
  destruct (Z.eqb_spec ((y + 1) `mod` 4) 0), (Z.eqb_spec ((y + 1) `mod` 100) 0),
    (Z.eqb_spec ((y + 1) `mod` 400) 0); cbn [andb orb negb];
    Z.to_euclidean_division_equations; lia.
Qed.

Lemma monthLength_bounds (y m : Z) : 28 <= monthLength y m <= 31.
Proof. unfold monthLength. repeat case_match; lia. Qed.

(** Evaluates sums of constants. *)
Ltac zadd := repeat match goal with |- context [?a + ?b] =>
  zconst a; zconst b; let c := eval vm_compute in (a + b) in change (a + b) with c end.

Lemma monthStart_succ (i : Z) : monthStart (i + 1) = monthStart i + monthLen i.
Proof.
  unfold monthStart, monthLen. pose proof (Z.mod_pos_bound i 12 ltac:(lia)) as Hb.
  pose proof (Z.div_mod i 12 ltac:(lia)) as E.
  set (y := i `div` 12) in *. set (r := i `mod` 12) in *. clearbody y r. subst i.
  destruct (decide (r = 11)) as [->|].
  - replace (12 * y + 11 + 1) with ((y + 1) * 12) by lia. rewrite Z.div_mul, Z.mod_mul by lia.
    rewrite !daysFromCivil_eq by lia. zadd. cbn. replace (y + 1 - 1) with y by lia. zdiv.
  - replace (12 * y + r + 1) with (y * 12 + (r + 1)) by lia.
    rewrite Z.div_add_l, (Z.add_comm (y * 12)), Z.mod_add, Z.div_small, Z.mod_small, Z.add_0_r by lia.
    rewrite !daysFromCivil_eq by lia.
    pose proof (yearStart_succ (y - 1)) as Y. replace (y - 1 + 1) with y in Y by lia.
    assert (r ∈ [0; 1; 2; 3; 4; 5; 6; 7; 8; 9; 10]) as Hr by (rewrite !elem_of_cons; lia).
    repeat (apply elem_of_cons in Hr as [->|Hr]; [zadd; cbn; try destruct (leap y); zdiv|]).
    by apply elem_of_nil in Hr.
Qed.

Lemma monthStart_le (i j : Z) : i <= j -> monthStart i + 28 * (j - i) <= monthStart j.
Proof.
  intros H. replace j with (i + Z.of_nat (Z.to_nat (j - i))) by lia.
  induction (Z.to_nat (j - i)) as [|n IH]; [rewrite Z.add_0_r; lia|].
  rewrite Nat2Z.inj_succ. replace (i + Z.succ (Z.of_nat n)) with (i + Z.of_nat n + 1) by lia.
  rewrite monthStart_succ. pose proof (monthLength_bounds ((i + Z.of_nat n) `div` 12) ((i + Z.of_nat n) `mod` 12 + 1)).
  unfold monthLen. lia.
Qed.

Lemma monthStart_lt (i j : Z) : i < j -> monthStart i + monthLen i <= monthStart j.
Proof. intros H. rewrite <- monthStart_succ. pose proof (monthStart_le (i + 1) j). lia. Qed.

(** The number of a month: [year * 12 + month - 1]. *)
Definition monthIndex (p : Parts) : Z := year p * 12 + month p - 1.

Lemma monthIndex_div (y m : Z) : 1 <= m <= 12 ->
  (y * 12 + m - 1) `div` 12 = y /\ (y * 12 + m - 1) `mod` 12 + 1 = m.
Proof. intros H. Z.to_euclidean_division_equations. lia. Qed.

Lemma daysFromCivil_date (y m d : Z) : 1 <= m <= 12 -> daysFromCivil y m d = daysFromCivil y m 1 + (d - 1).
Proof. intros H. rewrite !daysFromCivil_eq by done. lia. Qed.

Lemma daysOf_monthStart (p : Parts) : 1 <= month p <= 12 ->
  daysOf p = monthStart (monthIndex p) + date p - 1.
Proof.
  intros H. unfold daysOf, monthStart, monthIndex.
  destruct (monthIndex_div (year p) (month p) H) as [-> ->].
  rewrite (daysFromCivil_date _ _ (date p)) by done. lia.
Qed.

Lemma validDate_monthLen (p : Parts) : validDate p -> 1 <= date p <= monthLen (monthIndex p).
Proof.
  intros [Hm Hd]. unfold monthLen, monthIndex. by destruct (monthIndex_div (year p) (month p) Hm) as [-> ->].
Qed.

(** Dates in calendar order are day numbers in order. *)
Lemma daysOf_lt (p q : Parts) : validDate p -> validDate q ->
  monthIndex p < monthIndex q \/ (monthIndex p = monthIndex q /\ date p < date q) -> daysOf p < daysOf q.
Proof.
  intros Hp Hq H. rewrite !daysOf_monthStart by (apply Hp || apply Hq).
  pose proof (validDate_monthLen p Hp). pose proof (validDate_monthLen q Hq).
  destruct H as [H|[-> H]]; [|lia]. pose proof (monthStart_lt _ _ H). lia.
Qed.

Lemma parts_eq (p q : Parts) : validDate p -> validDate q -> monthIndex p = monthIndex q -> date p = date q -> p = q.
Proof.
  intros [Hp _] [Hq _] H1 H2. unfold monthIndex in H1. destruct p as [y m d], q as [y' m' d']. cbn in *.
  assert (y = y' /\ m = m') as [-> ->] by (Z.to_euclidean_division_equations; lia). by subst.
Qed.

Lemma daysOf_inj (p q : Parts) : validDate p -> validDate q -> daysOf p = daysOf q -> p = q.
Proof.
  intros Hp Hq E. apply parts_eq; [done..| |].
  - destruct (Z.lt_trichotomy (monthIndex p) (monthIndex q)) as [H|[H|H]]; [|done|].
    + pose proof (daysOf_lt p q Hp Hq ltac:(by left)). lia.
    + pose proof (daysOf_lt q p Hq Hp ltac:(by left)). lia.
  - assert (monthIndex p = monthIndex q) as H.
    { destruct (Z.lt_trichotomy (monthIndex p) (monthIndex q)) as [H|[H|H]]; [|done|].
      + pose proof (daysOf_lt p q Hp Hq ltac:(by left)). lia.
      + pose proof (daysOf_lt q p Hq Hp ltac:(by left)). lia. }
    destruct (Z.lt_trichotomy (date p) (date q)) as [D|[D|D]]; [|done|].
    + pose proof (daysOf_lt p q Hp Hq ltac:(by right)). lia.
    + pose proof (daysOf_lt q p Hq Hp ltac:(by right)). lia.
Qed.

(** *** From a day number to a date *)

Definition eraYear (doe : Z) : Z := (doe - doe `div` 1460 + doe `div` 36524 - doe `div` 146096) `div` 365.
Definition eraStart (y : Z) : Z := if y =? 400 then 146097 else 365 * y + y `div` 4 - y `div` 100.

Lemma eraYear_mono (a b : Z) : 0 <= a <= b -> b < 146097 -> eraYear a <= eraYear b.
Proof.
  intros H1 H2. apply Z.div_le_mono; [lia|].
  assert (forall x y, 0 <= x <= y -> x - x `div` 1460 <= y - y `div` 1460) as HA
    by (intros; Z.to_euclidean_division_equations; lia).
  pose proof (Z.div_le_mono a b 36524 ltac:(lia) ltac:(lia)).
  destruct (decide (b = 146096)) as [->|].
  - destruct (decide (a = 146096)) as [->|]; [lia|]. rewrite (Z.div_small a 146096) by lia.
    specialize (HA a 146095 ltac:(lia)). change (146095 `div` 1460) with 100 in HA.
    change (146096 `div` 1460) with 100. change (146096 `div` 146096) with 1. lia.
  - rewrite !(Z.div_small _ 146096) by lia. specialize (HA a b ltac:(lia)). lia.
Qed.

Lemma eraYear_ends (y : Z) : 0 <= y < 400 ->
  (eraYear (eraStart y) = y /\ eraYear (eraStart (y + 1) - 1) = y)
  /\ 0 <= eraStart y < eraStart (y + 1) /\ eraStart (y + 1) <= 146097.
Proof.
  intros H. assert ((eraYear (eraStart y) =? y) && (eraYear (eraStart (y + 1) - 1) =? y)
    && ((0 <=? eraStart y) && (eraStart y <? eraStart (y + 1)) && (eraStart (y + 1) <=? 146097)) = true) as E.
  2: { rewrite !andb_true_iff, !Z.eqb_eq, !Z.leb_le, Z.ltb_lt in E. tauto. }
  revert y H. apply (z_forallb 400 (fun y => (eraYear (eraStart y) =? y) && (eraYear (eraStart (y + 1) - 1) =? y)
    && ((0 <=? eraStart y) && (eraStart y <? eraStart (y + 1)) && (eraStart (y + 1) <=? 146097)))).
  vm_compute. reflexivity.
Qed.

Lemma eraYear_exists (n : nat) : (n <= 400)%nat -> forall doe, 0 <= doe < eraStart (Z.of_nat n) ->
  exists y, 0 <= y < 400 /\ eraStart y <= doe < eraStart (y + 1).
Proof.
  induction n as [|n IH]; intros Hn doe Hd; [change (eraStart (Z.of_nat 0)) with 0 in Hd; lia|].
  destruct (decide (doe < eraStart (Z.of_nat n))).
  - apply IH; lia.
  - exists (Z.of_nat n). replace (Z.of_nat n + 1) with (Z.of_nat (S n)) by lia. lia.
Qed.

Lemma eraYear_spec (doe : Z) : 0 <= doe < 146097 ->
  0 <= eraYear doe < 400 /\ eraStart (eraYear doe) <= doe < eraStart (eraYear doe + 1).
Proof.
  intros H. destruct (eraYear_exists 400 ltac:(lia) doe H) as (y & Hy & Hd).
  destruct (eraYear_ends y Hy) as ([E1 E2] & E3 & E4).
  pose proof (eraYear_mono (eraStart y) doe). pose proof (eraYear_mono doe (eraStart (y + 1) - 1)).
  assert (eraYear doe = y) as -> by lia. lia.
Qed.

Lemma marchMonth (doy : Z) : 0 <= doy < 366 ->
  let mp := (5 * doy + 2) `div` 153 in let d := doy - (153 * mp + 2) `div` 5 + 1 in
  0 <= mp <= 11 /\ 1 <= d /\ (mp = 11 /\ (d <= 28 \/ doy = 365 /\ d = 29)
    \/ mp < 11 /\ d <= monthLength 0 (if mp <? 10 then mp + 3 else mp - 9)).
Proof.
  intros H. cbn zeta.
  set (ok := fun doy => let mp := (5 * doy + 2) `div` 153 in let d := doy - (153 * mp + 2) `div` 5 + 1 in
    (0 <=? mp) && (mp <=? 11) && (1 <=? d) && ((mp =? 11) && ((d <=? 28) || (doy =? 365) && (d =? 29))
    || (mp <? 11) && (d <=? monthLength 0 (if mp <? 10 then mp + 3 else mp - 9)))).
  assert (ok doy = true) as E.
  { revert doy H. apply (z_forallb 366 ok). vm_compute. reflexivity. }
  unfold ok in E. cbn zeta in E. lia.
Qed.

Lemma civil_spec (z : Z) : validDate (civilFromDays z) /\ daysOf (civilFromDays z) = z.
Proof.
  unfold civilFromDays. set (n := z + 719468).
  assert (Z.quot (if 0 <=? n then n else n - 146096) 146097 = n `div` 146097) as ->.
  { destruct (Z.leb_spec 0 n); Z.to_euclidean_division_equations; lia. }
  set (era := n `div` 146097). set (doe := n - era * 146097).
  assert (0 <= doe < 146097) as Hdoe by (subst doe era; Z.to_euclidean_division_equations; lia).
  assert (Z.quot (doe - Z.quot doe 1460 + Z.quot doe 36524 - Z.quot doe 146096) 365 = eraYear doe) as ->.
  { unfold eraYear. rewrite !Z.quot_div_nonneg by (Z.to_euclidean_division_equations; lia). done. }
  destruct (eraYear_spec doe Hdoe) as [Hy Hs]. set (yoe := eraYear doe) in *.
  rewrite !(Z.quot_div_nonneg yoe) by lia.
  set (doy := doe - (365 * yoe + yoe `div` 4 - yoe `div` 100)).
  assert (yearStart (yoe + era * 400) = era * 146097 + (365 * yoe + yoe `div` 4 - yoe `div` 100)) as HS.
  { unfold yearStart. Z.to_euclidean_division_equations. lia. }
  assert (0 <= doy < if leap (yoe + era * 400 + 1) then 366 else 365) as Hdoy.
  { pose proof (yearStart_succ (yoe + era * 400)) as Hsucc.
    replace (yoe + era * 400 + 1) with (yoe + 1 + era * 400) in * by lia.
    set (lp := leap _) in *. assert (era * 146097 + eraStart (yoe + 1) = yearStart (yoe + 1 + era * 400)) as H2.
    { unfold eraStart, yearStart. destruct (Z.eqb_spec (yoe + 1) 400); Z.to_euclidean_division_equations; lia. }
    unfold eraStart in Hs, H2. destruct (Z.eqb_spec yoe 400); [lia|]. destruct lp; lia. }
  assert (z = yearStart (yoe + era * 400) + doy - 719468) as Hz by (subst doy doe n; lia).
  clearbody doy. clear Hs.
  pose proof (marchMonth doy ltac:(destruct (leap _); lia)) as Hm. cbn zeta in Hm.
  rewrite !Z.quot_div_nonneg by (Z.to_euclidean_division_equations; lia).
  set (mp := (5 * doy + 2) `div` 153) in *. clearbody mp.
  set (y := yoe + era * 400) in *.
  replace (mp + (if mp <? 10 then 3 else -9)) with (if mp <? 10 then mp + 3 else mp - 9) in *
    by (destruct (mp <? 10); lia).
  set (d := doy - (153 * mp + 2) `div` 5 + 1) in *.
  split.
  - split; cbn [year month date]; [destruct (Z.ltb_spec mp 10); lia|].
    destruct Hm as (Hm1 & Hd1 & Hm2). split; [done|].
    destruct (Z.ltb_spec mp 10).
    + destruct Hm2 as [?|[_ Hm2]]; [lia|]. etrans; [exact Hm2|].
      unfold monthLength. destruct (Z.eqb_spec (mp + 3) 2); [lia|]. lia.
    + destruct (Z.leb_spec (mp - 9) 2); [|lia]. unfold monthLength in *.
      destruct (Z.eqb_spec (mp - 9) 2).
      * destruct Hm2 as [(_ & H2)|?]; [|lia]. destruct (leap (y + 1)); lia.
      * destruct Hm2 as [?|[_ Hm2]]; [lia|]. exact Hm2.
  - unfold daysOf. cbn [year month date]. rewrite daysFromCivil_eq by (destruct (Z.ltb_spec mp 10); lia).
    destruct (Z.ltb_spec mp 10).
    + destruct (Z.leb_spec (mp + 3) 2); [lia|]. replace (mp + 3 - 3) with mp by lia.
      subst d. lia.
    + destruct (Z.leb_spec (mp - 9) 2); [|lia]. replace (mp - 9 + 9) with mp by lia.
      replace (y + 1 - 1) with y by lia. subst d. lia.
Qed.

Lemma civil_daysOf (p : Parts) : validDate p -> civilFromDays (daysOf p) = p.
Proof. intros H. destruct (civil_spec (daysOf p)) as [H1 H2]. by apply daysOf_inj. Qed.

Lemma daysOf_lt_iff (p q : Parts) : validDate p -> validDate q ->
  daysOf p < daysOf q <-> monthIndex p < monthIndex q \/ (monthIndex p = monthIndex q /\ date p < date q).
Proof.
  intros Hp Hq. split; [|by apply daysOf_lt]. intros H.
  destruct (Z.lt_trichotomy (monthIndex p) (monthIndex q)) as [E|[E|E]]; [by left| |].
  - destruct (Z.lt_trichotomy (date p) (date q)) as [D|[D|D]]; [by right| |].
    + by rewrite (parts_eq p q) in H by done; lia.
    + pose proof (daysOf_lt q p Hq Hp ltac:(by right)). lia.
  - pose proof (daysOf_lt q p Hq Hp ltac:(by left)). lia.
Qed.

(** Outside the years 0..99, which [Date.UTC] moves, [epochOf] carries months
    and dates over. *)
Definition plainYear (y : Z) : Prop := y < 0 \/ 99 < y.

Lemma epochOf_monthStart (y m d : Z) : plainYear y -> epochOf y m d = monthStart (y * 12 + m - 1) + d - 1.
Proof.
  intros H. unfold epochOf, monthStart. replace ((0 <=? y) && (y <=? 99)) with false by (unfold plainYear in H; lia).
  rewrite floorDiv_div by done. replace (y * 12 + m - 1) with (y * 12 + (m - 1)) by lia.
  rewrite Z.div_add_l, (Z.add_comm (y * 12)), Z.mod_add by lia.
  replace (m - 1 - (m - 1) `div` 12 * 12) with ((m - 1) `mod` 12) by (rewrite Z.mod_eq; lia). lia.
Qed.

Lemma daysInMonth_monthLen (y m : Z) : plainYear y -> daysInMonth y m = monthLen (y * 12 + m - 1).
Proof.
  intros H. unfold daysInMonth. rewrite epochOf_monthStart by done.
  set (i := y * 12 + m - 1). replace (y * 12 + (m + 1) - 1) with (i + 1) by lia. rewrite monthStart_succ.
  pose proof (Z.mod_pos_bound i 12 ltac:(lia)).
  pose proof (monthLength_bounds (i `div` 12) (i `mod` 12 + 1)) as Hb.
  set (p := {| year := i `div` 12; month := i `mod` 12 + 1; date := monthLen i |}).
  assert (validDate p) as Hp.
  { split; cbn; [lia|]. unfold monthLen in *. lia. }
  assert (monthIndex p = i) as Hi by (unfold monthIndex; cbn; pose proof (Z.div_mod i 12); lia).
  replace (monthStart i + monthLen i + 0 - 1) with (daysOf p); [by rewrite civil_daysOf|].
  rewrite daysOf_monthStart by apply Hp. rewrite Hi. cbn. lia.
Qed.

Lemma daysInMonth_monthLength (y m : Z) : plainYear y -> 1 <= m <= 12 -> daysInMonth y m = monthLength y m.
Proof.
  intros H Hm. rewrite daysInMonth_monthLen by done. unfold monthLen.
  by destruct (monthIndex_div y m Hm) as [-> ->].
Qed.

(** *** Keys *)

Definition keyOf (p : Parts) : bytes := toDayKey (year p) (month p) (date p).

(** A date whose year is written with four digits. *)
Definition keyDate (p : Parts) : Prop := validDate p /\ 1000 <= year p <= 9999.

Lemma keyDate_ranges (p : Parts) : keyDate p -> 1 <= month p <= 12 /\ 1 <= date p <= 31 /\ 1000 <= year p <= 9999.
Proof. intros [[H1 H2] H3]. pose proof (monthLength_bounds (year p) (month p)). lia. Qed.

Lemma to_string_four (y : Z) : 1000 <= y <= 9999 ->
  to_string y = [digit (y `div` 1000); digit (y `div` 100 `mod` 10); digit (y `div` 10 `mod` 10); digit (y `mod` 10)].
Proof.
  intros H. rewrite to_string_nonneg by lia. unfold dec_nonneg.
  assert (9 <= Z.log2 y) as Hl by (apply Z.log2_le_pow2; zpow; lia).
  replace (Z.to_nat (Z.log2 y)) with (S (S (S (Z.to_nat (Z.log2 y - 3))))) by lia. cbn [dec].
  destruct (Z.ltb_spec y 10); [lia|].
  destruct (Z.ltb_spec (y `div` 10) 10); [Z.to_euclidean_division_equations; lia|].
  destruct (Z.ltb_spec (y `div` 10 `div` 10) 10); [Z.to_euclidean_division_equations; lia|].
  assert (dec (Z.to_nat (Z.log2 y - 3)) (y `div` 10 `div` 10 `div` 10) = [digit (y `div` 1000)]) as ->.
  { replace (y `div` 10 `div` 10 `div` 10) with (y `div` 1000) by (Z.to_euclidean_division_equations; lia).
    assert (y `div` 1000 < 10) by (apply Z.div_lt_upper_bound; lia).
    destruct (Z.to_nat _); cbn [dec]; [done|]. by destruct (Z.ltb_spec (y `div` 1000) 10); [|lia]. }
  cbn. by rewrite Z.div_div by lia.
Qed.

Lemma keyOf_eq (p : Parts) : keyDate p -> keyOf p =
  [digit (year p `div` 1000); digit (year p `div` 100 `mod` 10); digit (year p `div` 10 `mod` 10);
   digit (year p `mod` 10); "-"%byte; digit (month p `div` 10); digit (month p `mod` 10); "-"%byte;
   digit (date p `div` 10); digit (date p `mod` 10)].
Proof.
  intros H. apply keyDate_ranges in H as (H1 & H2 & H3).
  unfold keyOf, toDayKey. rewrite to_string_four, !pad2_small by lia. done.
Qed.

Lemma digit_not_dash (d : Z) : 0 <= d < 10 -> digit d <> "-"%byte.
Proof. intros H E. apply (f_equal b2z) in E. rewrite digit_value in E by done. cbn in E. lia. Qed.

Lemma value_digits2 (a b : Z) : 0 <= a < 10 -> 0 <= b < 10 -> value [digit a; digit b] = a * 10 + b.
Proof. intros Ha Hb. unfold value. cbn [foldl]. rewrite !digit_value by done. lia. Qed.

(** The three numbers a key is made of. *)
Lemma key_pieces (p : Parts) : keyDate p -> exists Y M D, split (keyOf p) "-" = [Y; M; D] /\
  Forall (fun s => (1 <= length s)%nat /\ forallb isDigit s = true) [Y; M; D] /\
  value Y = year p /\ value M = month p /\ value D = date p.
Proof.
  intros H. pose proof (keyDate_ranges p H) as (H1 & H2 & H3).
  rewrite keyOf_eq by done.
  set (a := year p) in *. set (m := month p) in *. set (d := date p) in *.
  assert (0 <= a `div` 1000 < 10 /\ 0 <= a `div` 100 `mod` 10 < 10 /\ 0 <= a `div` 10 `mod` 10 < 10 /\ 0 <= a `mod` 10 < 10
    /\ 0 <= m `div` 10 < 10 /\ 0 <= m `mod` 10 < 10 /\ 0 <= d `div` 10 < 10 /\ 0 <= d `mod` 10 < 10) as R.
  { Z.to_euclidean_division_equations; lia. }
  destruct R as (R1 & R2 & R3 & R4 & R5 & R6 & R7 & R8).
  set (Y := [digit (a `div` 1000); digit (a `div` 100 `mod` 10); digit (a `div` 10 `mod` 10); digit (a `mod` 10)]).
  set (M := [digit (m `div` 10); digit (m `mod` 10)]). set (D := [digit (d `div` 10); digit (d `mod` 10)]).
  change (split _ _) with (split (Y ++ "-"%byte :: (M ++ "-"%byte :: D)) "-").
  assert (Forall (fun b => b <> "-"%byte) Y /\ Forall (fun b => b <> "-"%byte) M /\ Forall (fun b => b <> "-"%byte) D)
    as (FY & FM & FD).
  { subst Y M D. split_and!; repeat (constructor; [by apply digit_not_dash|]); constructor. }
  rewrite !split_app, split_none by done. exists Y, M, D. split_and!; [done| | | |].
  - repeat constructor; try done; unfold Y, M, D; cbn [forallb length]; rewrite ?digit_isDigit by done; done || lia.
  - unfold value, Y. cbn [foldl]. rewrite !digit_value by done. Z.to_euclidean_division_equations. lia.
  - unfold M. rewrite value_digits2 by done. pose proof (Z.div_mod m 10). lia.
  - unfold D. rewrite value_digits2 by done. pose proof (Z.div_mod d 10). lia.
Qed.

Lemma parts_keyOf (p : Parts) : keyDate p -> parts (keyOf p) = p.
Proof.
  intros H. pose proof (keyDate_ranges p H) as (H1 & H2 & H3).
  unfold parts. destruct (key_pieces p H) as (Y & M & D & -> & F & VY & VM & VD).
  repeat (apply list.Forall_cons in F as [[? ?] F]).
  unfold num. cbn [lookup list_lookup]. rewrite !numberOf_digits by (done || lia).
  rewrite VY, VM, VD. zpow.
  destruct (Z.ltb_spec (Z.abs (year p)) (10 ^ 15)); [|exfalso; cbn in *; lia].
  destruct (Z.ltb_spec (Z.abs (month p)) (10 ^ 15)); [|exfalso; cbn in *; lia].
  destruct (Z.ltb_spec (Z.abs (date p)) (10 ^ 15)); [|exfalso; cbn in *; lia].
  unfold signed. zpow. rewrite !Z.mod_small by lia. destruct p; cbn. f_equal; lia.
Qed.

(** *** The order of keys is the order of days *)

Lemma foldl_digits_lt (a b : bytes) : length a = length b -> forallb isDigit a = true -> forallb isDigit b = true ->
  forall u v, u < v -> foldl (fun x c => x * 10 + (b2z c - 48)) u a < foldl (fun x c => x * 10 + (b2z c - 48)) v b.
Proof.
  revert b. induction a as [|x a IH]; intros [|y b]; cbn [length foldl forallb]; [done..|].
  rewrite !andb_true_iff. intros E [Hx Ha] [Hy Hb] u v H. unfold isDigit in Hx, Hy. apply IH; [lia|done|done|lia].
Qed.

Lemma blt_digits (a b x y : bytes) : length a = length b -> forallb isDigit a = true -> forallb isDigit b = true ->
  blt (a ++ x) (b ++ y) = (value a <? value b) || (value a =? value b) && blt x y.
Proof.
  unfold value. generalize 0 as u. revert b. induction a as [|c a IH]; intros [|d b] u; cbn [length foldl forallb app]; [|done..|].
  { intros _ _ _. by rewrite Z.ltb_irrefl, Z.eqb_refl. }
  rewrite !andb_true_iff. intros E [Hc Ha] [Hd Hb]. cbn [blt].
  destruct (Z.ltb_spec (b2z c) (b2z d)); [|destruct (Z.ltb_spec (b2z d) (b2z c))].
  - pose proof (foldl_digits_lt a b ltac:(lia) Ha Hb (u * 10 + (b2z c - 48)) (u * 10 + (b2z d - 48)) ltac:(lia)) as H1.
    apply Z.ltb_lt in H1. by rewrite H1.
  - pose proof (foldl_digits_lt b a ltac:(lia) Hb Ha (u * 10 + (b2z d - 48)) (u * 10 + (b2z c - 48)) ltac:(lia)).
    destruct (Z.ltb_spec (foldl (fun x c => x * 10 + (b2z c - 48)) (u * 10 + (b2z c - 48)) a)
      (foldl (fun x c => x * 10 + (b2z c - 48)) (u * 10 + (b2z d - 48)) b)); [lia|].
    destruct (Z.eqb_spec (foldl (fun x c => x * 10 + (b2z c - 48)) (u * 10 + (b2z c - 48)) a)
      (foldl (fun x c => x * 10 + (b2z c - 48)) (u * 10 + (b2z d - 48)) b)); [lia|done].
  - replace (b2z d) with (b2z c) by lia. apply IH; [lia|done|done].
Qed.

Lemma two_spec (v : Z) : 0 <= v < 100 ->
  value (pad2 v) = v /\ forallb isDigit (pad2 v) = true /\ length (pad2 v) = 2%nat.
Proof.
  intros H. rewrite pad2_small by done. cbn [forallb length].
  rewrite !digit_isDigit by (Z.to_euclidean_division_equations; lia).
  rewrite value_digits2 by (Z.to_euclidean_division_equations; lia). pose proof (Z.div_mod v 10). lia.
Qed.

Lemma four_spec (y : Z) : 1000 <= y <= 9999 ->
  value (to_string y) = y /\ forallb isDigit (to_string y) = true /\ length (to_string y) = 4%nat.
Proof.
  intros H. rewrite to_string_four by done. cbn [forallb length].
  rewrite !digit_isDigit by (Z.to_euclidean_division_equations; lia).
  unfold value. cbn [foldl]. rewrite !digit_value by (Z.to_euclidean_division_equations; lia).
  split; [|done]. Z.to_euclidean_division_equations. lia.
Qed.

Lemma blt_keyOf (p q : Parts) : keyDate p -> keyDate q -> blt (keyOf p) (keyOf q) = (daysOf p <? daysOf q).
Proof.
  intros Hp Hq. pose proof (keyDate_ranges p Hp) as (P1 & P2 & P3). pose proof (keyDate_ranges q Hq) as (Q1 & Q2 & Q3).
  unfold keyOf, toDayKey. destruct (four_spec (year p) P3) as (E1 & E2 & E3), (four_spec (year q) Q3) as (F1 & F2 & F3).
  destruct (two_spec (month p) ltac:(lia)) as (G1 & G2 & G3), (two_spec (month q) ltac:(lia)) as (H1 & H2 & H3).
  destruct (two_spec (date p) ltac:(lia)) as (I1 & I2 & I3), (two_spec (date q) ltac:(lia)) as (J1 & J2 & J3).
  rewrite blt_digits, E1, F1 by congruence. cbn [app str String.list_byte_of_string blt].
  change (blt (#"-" ++ ?a) (#"-" ++ ?b)) with (blt a b). rewrite blt_digits, G1, H1 by congruence.
  change (blt (#"-" ++ ?a) (#"-" ++ ?b)) with (blt a b).
  rewrite <- (app_nil_r (pad2 (date p))), <- (app_nil_r (pad2 (date q))), blt_digits, I1, J1 by congruence.
  cbn [blt]. apply eq_bool_prop_intro. rewrite Is_true_true, Is_true_true, Z.ltb_lt.
  rewrite daysOf_lt_iff by (apply Hp || apply Hq). unfold monthIndex. lia.
Qed.

Lemma isDayKey_keyOf (p : Parts) : keyDate p -> isDayKey (keyOf p) = true.
Proof.
  intros H. rewrite keyOf_eq by done. apply keyDate_ranges in H as (H1 & H2 & H3).
  unfold isDayKey. cbn. rewrite !bool_decide_eq_true_2 by done.
  rewrite !digit_isDigit by (Z.to_euclidean_division_equations; lia). done.
Qed.

Lemma epochDays_keyOf (p : Parts) : keyDate p -> epochDays (keyOf p) = daysOf p.
Proof.
  intros H. unfold epochDays. rewrite parts_keyOf by done.
  rewrite epochOf_monthStart by (right; pose proof (keyDate_ranges p H); lia).
  rewrite daysOf_monthStart by apply H. done.
Qed.

Lemma keyOfEpoch_eq (e : Z) : keyOfEpoch e = keyOf (civilFromDays e).
Proof. done. Qed.

(** The days whose key has a year of four digits. *)
Definition firstKeyDay : Z := daysFromCivil 1000 1 1.
Definition lastKeyDay : Z := daysFromCivil 9999 12 31.
Definition keyDay (e : Z) : Prop := firstKeyDay <= e <= lastKeyDay.

Lemma keyDay_iff (e : Z) : keyDay e <-> keyDate (civilFromDays e).
Proof.
  destruct (civil_spec e) as [Hv He]. unfold keyDay, keyDate.
  set (a := {| year := 1000; month := 1; date := 1 |}). set (b := {| year := 9999; month := 12; date := 31 |}).
  assert (validDate a /\ validDate b) as [Ha Hb] by (split; split; vm_compute; split; discriminate).
  change firstKeyDay with (daysOf a). change lastKeyDay with (daysOf b).
  rewrite <- He at 1 2. rewrite <- !Z.nlt_ge. rewrite !daysOf_lt_iff by done. clear He.
  pose proof (monthLength_bounds (year (civilFromDays e)) (month (civilFromDays e))).
  pose proof Hv as [H1 H2]. unfold monthIndex. subst a b. cbn [year month date].
  split; [intros; split; [done|lia]|intros [_ Hy]; lia].
Qed.

Lemma epochDays_keyOfEpoch (e : Z) : keyDay e -> epochDays (keyOfEpoch e) = e.
Proof. intros H. rewrite keyOfEpoch_eq, epochDays_keyOf; [apply civil_spec|by apply keyDay_iff]. Qed.

Lemma blt_keyOfEpoch (a b : Z) : keyDay a -> keyDay b -> blt (keyOfEpoch a) (keyOfEpoch b) = (a <? b).
Proof.
  intros Ha Hb. rewrite !keyOfEpoch_eq, blt_keyOf by (by apply keyDay_iff).
  by rewrite !(fun e => proj2 (civil_spec e)).
Qed.

Lemma isDayKey_keyOfEpoch (e : Z) : keyDay e -> isDayKey (keyOfEpoch e) = true.
Proof. intros H. rewrite keyOfEpoch_eq. by apply isDayKey_keyOf, keyDay_iff. Qed.

Lemma keyOf_epoch (p : Parts) : keyDate p -> keyOfEpoch (daysOf p) = keyOf p /\ keyDay (daysOf p).
Proof. intros H. rewrite keyOfEpoch_eq, keyDay_iff, civil_daysOf by apply H. done. Qed.

(** *** Weeks *)

Lemma weekdayOfEpoch_mod (e : Z) : weekdayOfEpoch e = (e + 4) `mod` 7.
Proof. unfold weekdayOfEpoch. Z.to_euclidean_division_equations. lia. Qed.

Lemma mondayBased_mod (w : Z) : 0 <= w <= 6 -> mondayBased w = (w + 6) `mod` 7.
Proof. intros H. unfold mondayBased. by rewrite Z.rem_mod_nonneg by lia. Qed.

(** The position of a day in its week, from Monday. *)
Lemma mondayBased_epoch (e : Z) : mondayBased (weekdayOfEpoch e) = (e + 3) `mod` 7.
Proof. rewrite weekdayOfEpoch_mod, mondayBased_mod by zdiv. zdiv. Qed.

Lemma week_split (e : Z) : e = mondayOfWeek (weekIndexOfEpoch e) + mondayBased (weekdayOfEpoch e).
Proof.
  rewrite mondayBased_epoch. unfold mondayOfWeek, weekIndexOfEpoch. rewrite floorDiv_div by done.
  pose proof (Z.div_mod (e + 3) 7). lia.
Qed.

Lemma epochOf_first (y m : Z) : plainYear y -> epochOf y m 1 = monthStart (y * 12 + m - 1).
Proof. intros H. rewrite epochOf_monthStart by done. lia. Qed.

Lemma upTo_length (lo : Z) (n : nat) : length (upTo lo n) = n.
Proof. unfold upTo. by rewrite length_fmap, length_seq. Qed.

Lemma upTo_elem (lo : Z) (n : nat) (x : Z) : x ∈ upTo lo n <-> lo <= x < lo + Z.of_nat n.
Proof.
  unfold upTo. rewrite list_elem_of_fmap. setoid_rewrite elem_of_seq. split.
  - intros (i & -> & H). lia.
  - intros H. exists (Z.to_nat (x - lo)). lia.
Qed.

Lemma upTo_shift (lo k : Z) (n : nat) : upTo (lo + k) n = (fun x => x + k) <$> upTo lo n.
Proof. unfold upTo. rewrite <- list_fmap_compose. apply list_fmap_ext. intros i x _. cbn. lia. Qed.

Lemma upTo_app (lo : Z) (n m : nat) : upTo lo (n + m) = upTo lo n ++ upTo (lo + Z.of_nat n) m.
Proof.
  unfold upTo. rewrite seq_app, fmap_app. f_equal.
  replace (seq (0 + n) m) with (Nat.add n <$> seq 0 m) by (rewrite fmap_add_seq; f_equal; lia).
  rewrite <- list_fmap_compose.
  apply list_fmap_ext. intros i x _. cbn. lia.
Qed.

(** The keys of a month are the keys of its days. *)
Lemma getMonthKeys_days (y m : Z) : 1000 <= y <= 9999 -> 1 <= m <= 12 ->
  getMonthKeys y m = keyOfEpoch <$> upTo (epochOf y m 1) (Z.to_nat (monthLength y m)).
Proof.
  intros Hy Hm. assert (plainYear y) as Hp by (right; lia).
  unfold getMonthKeys. rewrite daysInMonth_monthLength by done.
  replace (epochOf y m 1) with (1 + (epochOf y m 1 - 1)) by lia. rewrite upTo_shift, <- list_fmap_compose.
  apply list_fmap_ext. intros i x Hx%list_elem_of_lookup_2%upTo_elem. cbn.
  pose proof (monthLength_bounds y m).
  set (p := {| year := y; month := m; date := x |}).
  assert (keyDate p) as Hk by (split; [split; cbn; lia|done]).
  destruct (keyOf_epoch p Hk) as [E _].
  rewrite daysOf_monthStart in E by done. rewrite epochOf_first by done.
  replace (x + (monthStart (y * 12 + m - 1) - 1)) with (monthStart (monthIndex p) + date p - 1);
    [done|unfold monthIndex; cbn; lia].
Qed.

Lemma keyDay_month (y m x : Z) : 1000 <= y <= 9999 -> 1 <= m <= 12 ->
  epochOf y m 1 <= x < epochOf y m 1 + monthLength y m -> keyDay x.
Proof.
  intros Hy Hm H. rewrite epochOf_first in H by (right; lia).
  set (p := {| year := y; month := m; date := x - monthStart (y * 12 + m - 1) + 1 |}).
  assert (keyDate p) as Hk by (split; [split; cbn; lia|done]).
  replace x with (daysOf p); [by apply keyOf_epoch|].
  rewrite daysOf_monthStart by done. unfold monthIndex. cbn. lia.
Qed.

Lemma addDays_keyOfEpoch (e k : Z) : keyDay e -> addDays (keyOfEpoch e) k = keyOfEpoch (e + k).
Proof. intros H. unfold addDays. by rewrite epochDays_keyOfEpoch. Qed.

Lemma keyDay_before (y m o : Z) : 1001 <= y <= 9998 -> 1 <= m <= 12 -> 0 <= o < 7 ->
  keyDay (epochOf y m 1 + - o).
Proof.
  intros Hy Hm Ho. pose proof (monthLength_bounds y m).
  assert (keyDay (epochOf y m 1)) as [K1 K2] by (apply (keyDay_month y m); lia).
  split; [|lia].
  assert (monthStart (1001 * 12) <= epochOf y m 1) as Hms.
  { rewrite epochOf_first by (right; lia). pose proof (monthStart_le (1001 * 12) (y * 12 + m - 1)). lia. }
  assert (firstKeyDay = monthStart (1000 * 12)) as -> by done.
  pose proof (monthStart_le (1000 * 12) (1001 * 12)). lia.
Qed.

Definition gridWeeks (y m : Z) : Z := (getMonthOffset y m + monthLength y m + 6) `div` 7.

Lemma getMonthOffset_range (y m : Z) :
  getMonthOffset y m = (epochOf y m 1 + 3) `mod` 7 /\ 0 <= getMonthOffset y m < 7.
Proof. unfold getMonthOffset. rewrite mondayBased_epoch. split; [done|zdiv]. Qed.

Lemma getMonthGridKeys_days (y m : Z) : 1001 <= y <= 9998 -> 1 <= m <= 12 ->
  getMonthGridKeys y m =
    keyOfEpoch <$> upTo (epochOf y m 1 - getMonthOffset y m) (7 * Z.to_nat (gridWeeks y m)).
Proof.
  intros Hy Hm. pose proof (monthLength_bounds y m) as Hl.
  destruct (getMonthOffset_range y m) as [_ Hr].
  unfold getMonthGridKeys, gridWeeks. rewrite getMonthKeys_days by lia.
  set (n := monthLength y m) in *. set (o := getMonthOffset y m) in *. set (e := epochOf y m 1) in *.
  rewrite length_fmap, upTo_length.
  assert (nth 0 (keyOfEpoch <$> upTo e (Z.to_nat n)) [] = keyOfEpoch e) as ->.
  { replace (Z.to_nat n) with (S (Z.to_nat (n - 1))) by lia. cbn. f_equal. lia. }
  assert (keyDay e) as Hk by (apply (keyDay_month y m); subst e n; lia).
  rewrite addDays_keyOfEpoch by done. rewrite Z2Nat.id by lia.
  set (w := (o + n + 6) `div` 7). assert (0 <= w) by (subst w; zdiv).
  replace (Z.to_nat (w * 7)) with (7 * Z.to_nat w)%nat by lia.
  replace (e - o) with (0 + (e + - o)) by lia.
  rewrite upTo_shift, <- list_fmap_compose. apply list_fmap_ext. intros i x _. cbn.
  rewrite addDays_keyOfEpoch by (by apply keyDay_before). f_equal. lia.
Qed.

(** *** Times *)

Lemma toTime_eq (m : Z) : 0 <= m < 1440 -> toTime m =
  [digit (m `div` 60 `div` 10); digit (m `div` 60 `mod` 10); ":"%byte;
   digit (Z.rem m 60 `div` 10); digit (Z.rem m 60 `mod` 10)].
Proof.
  intros H. unfold toTime. rewrite floorDiv_div by done.
  rewrite !pad2_small by zdiv. done.
Qed.

Lemma digit_not_colon (d : Z) : 0 <= d < 10 -> digit d <> ":"%byte.
Proof. intros H E. apply (f_equal b2z) in E. rewrite digit_value in E by done. cbn in E. lia. Qed.

Lemma toMinutes_digits (a b c d : Z) : 0 <= a < 10 -> 0 <= b < 10 -> 0 <= c < 10 -> 0 <= d < 10 ->
  toMinutes [digit a; digit b; ":"%byte; digit c; digit d] = (a * 10 + b) * 60 + (c * 10 + d).
Proof.
  intros Ha Hb Hc Hd. unfold toMinutes.
  set (X := [digit a; digit b]). set (Y := [digit c; digit d]).
  change (split _ _) with (split (X ++ ":"%byte :: Y) ":").
  assert (Forall (fun b => b <> ":"%byte) X /\ Forall (fun b => b <> ":"%byte) Y) as [HX HY].
  { subst X Y. split; repeat (constructor; [by apply digit_not_colon|]); constructor. }
  rewrite split_app, split_none by done. cbn [nth lookup list_lookup mbind option_bind].
  rewrite !numberOf_digits by (cbn; rewrite ?digit_isDigit by done; done || (cbn; lia)).
  unfold X, Y. rewrite !value_digits2 by done. zpow.
  destruct (Z.ltb_spec (Z.abs ((a * 10 + b) * 60 + (c * 10 + d))) (10 ^ 9)); [lia|exfalso; cbn in *; lia].
Qed.

Lemma isTimeKey_digits (s : bytes) : isTimeKey s = true -> exists a b c d,
  s = [digit a; digit b; ":"%byte; digit c; digit d] /\
  0 <= a < 10 /\ 0 <= b < 10 /\ 0 <= c < 6 /\ 0 <= d < 10 /\ a * 10 + b < 24.
Proof.
  unfold isTimeKey. intros H. destruct s as [|x0 [|x1 [|x2 [|x3 [|x4 [|x5 s]]]]]]; try done.
  cbn [length Nat.eqb negb orb at_ nth] in H.
  destruct (bool_decide_reflect (x2 = ":"%byte)) as [->|]; [|done]. cbn [negb orb] in H.
  destruct (isDigit x0) eqn:E0; [|done]. destruct (isDigit x1) eqn:E1; [|done].
  destruct (isDigit x3) eqn:E3; [|done]. destruct (isDigit x4) eqn:E4; [|done]. cbn [negb orb] in H.
  apply isDigit_inv in E0 as (a & Ha & ->), E1 as (b & Hb & ->), E3 as (c & Hc & ->), E4 as (d & Hd & ->).
  rewrite !digit_value in H by done. exists a, b, c, d. split; [done|].
  destruct ((50 <? 48 + a) || (48 + a =? 50) && (51 <? 48 + b)) eqn:E; [done|]. lia.
Qed.

(** ** Theorems *)

(** Property (calendar_keys): for every day number whose year has four digits,
    the date is a date of the Gregorian calendar and its day number is that
    number; its key is a day key that reads back as the same day, and keys
    compare as strings exactly as days compare. *)
Theorem calendar_keys (e e' : Z) : keyDay e -> keyDay e' ->
  validDate (civilFromDays e) /\ daysOf (civilFromDays e) = e /\
  isDayKey (keyOfEpoch e) = true /\ epochDays (keyOfEpoch e) = e /\
  blt (keyOfEpoch e) (keyOfEpoch e') = (e <? e').
Proof.
  intros H H'. destruct (civil_spec e). split_and!; [done..| | |].
  - by apply isDayKey_keyOfEpoch.
  - by apply epochDays_keyOfEpoch.
  - by apply blt_keyOfEpoch.
Qed.

Lemma calendar_keys_witness :
  epochDays #"2026-02-28" + 1 = epochDays #"2026-03-01" /\
  validDate (civilFromDays 20512) /\ daysOf (civilFromDays 20512) = 20512 /\
  isDayKey (keyOfEpoch 20512) = true /\ epochDays (keyOfEpoch 20512) = 20512 /\
  blt (keyOfEpoch 20512) (keyOfEpoch 20513) = (20512 <? 20513).
Proof.
  split; [reflexivity|]. apply calendar_keys; split; vm_compute; discriminate.
Defined.

(** Property (month_grid): the grid of a month is whole weeks of consecutive
    days, from a Monday, and holds the keys of the month's days in order after
    fewer than seven days of the previous month. *)
Theorem month_grid (y m : Z) : 1001 <= y <= 9998 -> 1 <= m <= 12 ->
  exists offset weeks : nat, (offset < 7)%nat /\
    getMonthGridKeys y m = keyOfEpoch <$> upTo (epochOf y m 1 - Z.of_nat offset) (7 * weeks) /\
    weekdayOfEpoch (epochOf y m 1 - Z.of_nat offset) = 1 /\
    getMonthKeys y m `prefix_of` drop offset (getMonthGridKeys y m) /\
    (7 * weeks < offset + length (getMonthKeys y m) + 7)%nat /\
    length (getMonthKeys y m) = Z.to_nat (monthLength y m).
Proof.
  intros Hy Hm. pose proof (monthLength_bounds y m) as Hl.
  destruct (getMonthOffset_range y m) as [Ho Hr].
  assert (getMonthOffset y m + monthLength y m <= 7 * gridWeeks y m
    < getMonthOffset y m + monthLength y m + 7) as Hw by (unfold gridWeeks; zdiv).
  exists (Z.to_nat (getMonthOffset y m)), (Z.to_nat (gridWeeks y m)).
  rewrite getMonthGridKeys_days, getMonthKeys_days, length_fmap, upTo_length, Z2Nat.id by lia.
  set (n := monthLength y m) in *. set (o := getMonthOffset y m) in *. set (e := epochOf y m 1) in *.
  set (w := gridWeeks y m) in *. split_and!; [lia|done| | |lia|done].
  - rewrite weekdayOfEpoch_mod, Ho. zdiv.
  - replace (7 * Z.to_nat w)%nat with (Z.to_nat o + (Z.to_nat n + (7 * Z.to_nat w - Z.to_nat n - Z.to_nat o)))%nat by lia.
    rewrite upTo_app, fmap_app, drop_app_length' by (by rewrite length_fmap, upTo_length).
    replace (e - o + Z.of_nat (Z.to_nat o)) with e by lia.
    rewrite upTo_app, fmap_app. by apply prefix_app_r.
Qed.

Lemma month_grid_witness : exists offset weeks : nat, (offset < 7)%nat /\
    getMonthGridKeys 2026 2 = keyOfEpoch <$> upTo (epochOf 2026 2 1 - Z.of_nat offset) (7 * weeks) /\
    weekdayOfEpoch (epochOf 2026 2 1 - Z.of_nat offset) = 1 /\
    getMonthKeys 2026 2 `prefix_of` drop offset (getMonthGridKeys 2026 2) /\
    (7 * weeks < offset + length (getMonthKeys 2026 2) + 7)%nat /\
    length (getMonthKeys 2026 2) = Z.to_nat (monthLength 2026 2).
Proof. apply month_grid; lia. Defined.

(** Property (times_roundtrip): every minute of a day is written as a time key
    that reads back as that minute, and every time key is the way its minute is
    written. *)
Theorem times_roundtrip :
  (forall m, 0 <= m < 1440 -> isTimeKey (toTime m) = true /\ toMinutes (toTime m) = m) /\
  (forall s, isTimeKey s = true -> 0 <= toMinutes s < 1440 /\ toTime (toMinutes s) = s).
Proof.
  split.
  - intros m Hm. rewrite toTime_eq by done.
    assert (0 <= m `div` 60 < 24 /\ 0 <= m `rem` 60 < 60 /\ m = m `div` 60 * 60 + m `rem` 60) as (Hh & Hr & E) by zdiv.
    set (h := m `div` 60) in *. set (r := m `rem` 60) in *. clearbody h r. subst m. clear Hm.
    assert (0 <= h `div` 10 < 3 /\ 0 <= h `mod` 10 < 10 /\ 0 <= r `div` 10 < 6 /\ 0 <= r `mod` 10 < 10
      /\ h = h `div` 10 * 10 + h `mod` 10 /\ r = r `div` 10 * 10 + r `mod` 10) as (H1 & H2 & H3 & H4 & E1 & E2) by zdiv.
    rewrite toMinutes_digits by lia. split; [|lia]. unfold isTimeKey. cbn.
    rewrite bool_decide_eq_true_2, !digit_isDigit, !digit_value by (done || lia). cbn.
    replace ((50 <? _) || _) with false by lia. lia.
  - intros s Hs. destruct (isTimeKey_digits s Hs) as (a & b & c & d & -> & H1 & H2 & H3 & H4 & H5).
    rewrite toMinutes_digits by lia. split; [lia|]. rewrite toTime_eq by lia.
    repeat f_equal; zdiv.
Qed.

(** Property (moveToMonth_clamps): moving a date by months lands in the month
    so many months away, on the wanted date or on the last day of a shorter
    month; the result is again a date. *)
Theorem moveToMonth_clamps (p : Parts) (months toDate : Z) : keyDate p -> 1 <= toDate <= 31 ->
  1000 * 12 <= monthIndex p + months < 10000 * 12 ->
  exists q, keyDate q /\ moveToMonth (keyOf p) months toDate = keyOf q /\
    monthIndex q = monthIndex p + months /\ date q = Z.min toDate (monthLength (year q) (month q)).
Proof.
  intros Hp Hd Hi. unfold moveToMonth. rewrite parts_keyOf, floorDiv_div by done. cbn zeta.
  fold (monthIndex p). set (i := monthIndex p + months) in *.
  assert (i - i `div` 12 * 12 + 1 = i `mod` 12 + 1) as -> by (rewrite Z.mod_eq; lia).
  assert (1000 <= i `div` 12 <= 9999 /\ 0 <= i `mod` 12 < 12) as [Hy Hm] by zdiv.
  rewrite daysInMonth_monthLength by (unfold plainYear; lia).
  pose proof (monthLength_bounds (i `div` 12) (i `mod` 12 + 1)).
  exists {| year := i `div` 12; month := i `mod` 12 + 1;
            date := Z.min toDate (monthLength (i `div` 12) (i `mod` 12 + 1)) |}.
  split_and!; [split; [split; cbn; lia|done]|done| |done].
  unfold monthIndex. cbn. rewrite Z.mod_eq by done. lia.
Qed.

Lemma moveToMonth_clamps_witness :
  exists q, keyDate q /\ moveToMonth (keyOf {| year := 2026; month := 1; date := 31 |}) 1 31 = keyOf q /\
    monthIndex q = monthIndex {| year := 2026; month := 1; date := 31 |} + 1 /\
    date q = Z.min 31 (monthLength (year q) (month q)).
Proof. apply moveToMonth_clamps; repeat split; vm_compute; discriminate. Defined.

End Calendar.
