(* ===== verification/Repeat.v ===== *)
(** * Repeat: repeating tasks and events of the planner

    Module [Repeats] models the repeats of [src/sections/planner_model.cpp]:
    the rule compiled once, the question whether a day carries an instance,
    the walk over the instances of a period, the instances of tasks with their
    exclusions and marks, the validation of a rule, and the move of a series. *)

From stdpp Require Import sorting.
From S2P Require Import Prelude PlannerUtil Calendar.
Import Util Calendar.

#[local] Open Scope Z_scope.

Module Repeats.

(** ** Data ([planner_types.h]) *)

Record Step := { text : bytes; isDone : bool }.

Record Repeat := {
  kind : bytes;
  interval : Z;
  weekdays : option (list Z);
  monthDay : option Z;
  startDay : bytes;
  endDay : option bytes;
  count : option Z
}.

Record Occurrence := {
  oDay : bytes;
  excluded : option bool;
  done_ : option bool;
  doneSteps : option (list Z)
}.

Record Origin := { seriesId : bytes; originDay : bytes }.
Record Source := { chat : bytes; opId : bytes }.

(** [rank] is a finite double, an integer multiple of 2^-1074: the multiple. *)
Record Task := {
  id : bytes;
  name : bytes;
  description : bytes;
  steps : list Step;
  status : bytes;
  project : bytes;
  rank : Z;
  tDay : option bytes;
  tStart : option bytes;
  due : option bytes;
  minutes : option Z;
  repeat_ : option Repeat;
  occurrences : option (list Occurrence);
  origin : option Origin;
  source : option Source;
  remind : option Z;
  instanceDay : option bytes
}.

Definition kRepeatHorizonDays : Z := 366.
Definition kMaxRepeatInterval : Z := 99.
Definition kMaxRepeatCount : Z := 999.

Definition truthy (v : option bytes) : bool :=
  match v with Some (_ :: _) => true | _ => false end.

Definition isEmpty (s : bytes) : bool := (length s =? 0)%nat.

(** ** The rule, compiled once *)

Record CompiledRepeat := {
  cKind : bytes;
  cInterval : Z;
  isValid : bool;
  cStart : option Z;
  cEnd : option Z;
  cCount : option Z;
  positions : list Z;
  weekdayMask : Z;
  startWeek : Z;
  skippedInFirstWeek : Z;
  startYear : Z;
  startMonth : Z;
  startDate : Z;
  cMonthDay : Z
}.

(** First occurrences, in order. *)
Definition uniqueOf (l : list Z) : list Z :=
  foldl (fun u w => if bool_decide (w ∈ u) then u else u ++ [w]) [] l.

(** [std::sort] of integers. *)
Definition sortZ (l : list Z) : list Z := merge_sort Z.le l.

Definition compileRepeat (repeat : Repeat) : CompiledRepeat :=
  let start := if isEmpty (startDay repeat) then None else Some (epochDays (startDay repeat)) in
  let unique := uniqueOf (default [] (weekdays repeat)) in
  let positions := sortZ (mondayBased <$> unique) in
  let startPosition := match start with Some s => mondayBased (weekdayOfEpoch s) | None => 0 end in
  let startParts := if isEmpty (startDay repeat) then {| year := 0; month := 0; date := 0 |}
                    else parts (startDay repeat) in
  {| cKind := kind repeat;
     cInterval := interval repeat;
     isValid := 1 <=? interval repeat;
     cStart := start;
     cEnd := if truthy (endDay repeat) then Some (epochDays (default [] (endDay repeat))) else None;
     cCount := match count repeat with Some c => if c =? 0 then None else Some c | None => None end;
     positions := positions;
     weekdayMask := foldl (fun mask p => Z.lor mask (bitOf (Z.rem (p + 1) 7))) 0 positions;
     startWeek := match start with Some s => weekIndexOfEpoch s | None => 0 end;
     skippedInFirstWeek :=
       match start with
       | Some _ => Z.of_nat (length (filter (fun p => p < startPosition) positions))
       | None => 0
       end;
     startYear := year startParts;
     startMonth := month startParts;
     startDate := date startParts;
     cMonthDay := match monthDay repeat with
                  | Some d => if d =? 0 then date startParts else d
                  | None => date startParts
                  end |}.

(** [std::find(...) - begin()]: the length when the value is not there. *)
Fixpoint indexIn (x : Z) (l : list Z) : Z :=
  match l with
  | [] => 0
  | y :: l' => if y =? x then 0 else 1 + indexIn x l'
  end.

(** The ordinal of the instance of a day, from 1; [None]: no instance. *)
Definition ordinalOfEpoch (rule : CompiledRepeat) (epoch : Z) : option Z :=
  if negb (isValid rule) then None
  else if match cStart rule with Some s => epoch <? s | None => false end then None
  else if match cEnd rule with Some e => e <? epoch | None => false end then None
  else
    let interval := cInterval rule in
    if bool_decide (cKind rule = #"weekly") then
      let weekday := weekdayOfEpoch epoch in
      if Z.land (weekdayMask rule) (bitOf weekday) =? 0 then None
      else match cStart rule with
      | None => Some 1
      | Some _ =>
          let weeks := weekIndexOfEpoch epoch - startWeek rule in
          if negb (Z.rem weeks interval =? 0) then None
          else
            let index := indexIn (mondayBased weekday) (positions rule) in
            Some (Z.quot weeks interval * Z.of_nat (length (positions rule)) + index + 1
                  - skippedInFirstWeek rule)
      end
    else match cStart rule with
    | None => None
    | Some start =>
        if bool_decide (cKind rule = #"daily") then
          let diff := epoch - start in
          if Z.rem diff interval =? 0 then Some (Z.quot diff interval + 1) else None
        else
          let d := civilFromDays epoch in
          if bool_decide (cKind rule = #"monthly") then
            let months := (year d * 12 + month d) - (startYear rule * 12 + startMonth rule) in
            if negb (Z.rem months interval =? 0) then None
            else
              let wanted := Z.min (cMonthDay rule) (daysInMonth (year d) (month d)) in
              if date d =? wanted then Some (Z.quot months interval + 1) else None
          else
            let years := year d - startYear rule in
            if negb (Z.rem years interval =? 0) || negb (month d =? startMonth rule) then None
            else
              let wanted := Z.min (startDate rule) (daysInMonth (year d) (month d)) in
              if date d =? wanted then Some (Z.quot years interval + 1) else None
    end.

Definition occursOnEpoch (rule : CompiledRepeat) (epoch : Z) : bool :=
  match ordinalOfEpoch rule epoch with
  | None => false
  | Some ordinal => match cCount rule with None => true | Some c => ordinal <=? c end
  end.

Definition occursOn (repeat : Repeat) (day : bytes) : bool :=
  if negb (isDayKey day) then false else occursOnEpoch (compileRepeat repeat) (epochDays day).

(** ** The walk over a period

    [visit] is called on the days of the series in order until it says to
    stop ([true]); [S] is what it accumulates. The loops that the sources write
    [for (;;)] run on fuel here, [fuelOf] is enough for a period. *)
Section Walk.
Context {S : Type} (visit : bytes -> S -> S * bool).

(** [false]: the walk is stopped. *)
Definition emit (rule : CompiledRepeat) (lo hi : Z) (epoch ordinal : Z) (s : S) : S * bool :=
  if match cCount rule with Some c => c <? ordinal | None => false end then (s, false)
  else if hi <? epoch then (s, false)
  else if epoch <? lo then (s, true)
  else let '(s', stop) := visit (keyOfEpoch epoch) s in (s', negb stop).

(** Weekly without a first day: every day of the period. *)
Fixpoint everyDay (rule : CompiledRepeat) (fuel : nat) (hi epoch : Z) (s : S) : S :=
  match fuel with
  | O => s
  | Datatypes.S f =>
      if hi <? epoch then s
      else if negb (Z.land (weekdayMask rule) (bitOf (weekdayOfEpoch epoch)) =? 0) then
        let '(s', stop) := visit (keyOfEpoch epoch) s in
        if stop then s' else everyDay rule f hi (epoch + 1) s'
      else everyDay rule f hi (epoch + 1) s
  end.

Fixpoint weekPositions (rule : CompiledRepeat) (lo hi monday base : Z) (ps : list Z) (index : Z) (s : S)
  : S * bool :=
  match ps with
  | [] => (s, true)
  | p :: ps' =>
      let '(s', go) := emit rule lo hi (monday + p) (base + index) s in
      if go then weekPositions rule lo hi monday base ps' (index + 1) s' else (s', false)
  end.

Fixpoint everyWeek (rule : CompiledRepeat) (fuel : nat) (lo hi week : Z) (s : S) : S :=
  match fuel with
  | O => s
  | Datatypes.S f =>
      let monday := mondayOfWeek week in
      if hi <? monday then s
      else
        let base := Z.quot (week - startWeek rule) (cInterval rule) * Z.of_nat (length (positions rule))
                    + 1 - skippedInFirstWeek rule in
        let '(s', go) := weekPositions rule lo hi monday base (positions rule) 0 s in
        if go then everyWeek rule f lo hi (week + cInterval rule) s' else s'
  end.

Fixpoint dailySteps (rule : CompiledRepeat) (fuel : nat) (lo hi epoch ordinal : Z) (s : S) : S :=
  match fuel with
  | O => s
  | Datatypes.S f =>
      let '(s', go) := emit rule lo hi epoch ordinal s in
      if go then dailySteps rule f lo hi (epoch + cInterval rule) (ordinal + 1) s' else s'
  end.

Definition monthlyEpoch (rule : CompiledRepeat) (step : Z) : Z :=
  let startIndex := startYear rule * 12 + startMonth rule - 1 in
  let index := startIndex + step * cInterval rule in
  let year := floorDiv index 12 in
  let month := index - year * 12 + 1 in
  epochOf year month (Z.min (cMonthDay rule) (daysInMonth year month)).

Definition yearlyEpoch (rule : CompiledRepeat) (step : Z) : Z :=
  let year := startYear rule + step * cInterval rule in
  epochOf year (startMonth rule) (Z.min (startDate rule) (daysInMonth year (startMonth rule))).

Fixpoint stepsFrom (rule : CompiledRepeat) (fuel : nat) (lo hi : Z) (epochAt : Z -> Z) (step : Z) (s : S) : S :=
  match fuel with
  | O => s
  | Datatypes.S f =>
      let '(s', go) := emit rule lo hi (epochAt step) (step + 1) s in
      if go then stepsFrom rule f lo hi epochAt (step + 1) s' else s'
  end.

(** The walk between two day numbers; [rule] is valid. *)
Definition walkDays (rule : CompiledRepeat) (fuel : nat) (from to : Z) (s : S) : S :=
  let lo := match cStart rule with Some st => Z.max from st | None => from end in
  let hi := match cEnd rule with Some e => Z.min to e | None => to end in
  if hi <? lo then s
  else
    let interval := cInterval rule in
    match cStart rule with
    | None => if bool_decide (cKind rule = #"weekly") then everyDay rule fuel hi lo s else s
    | Some start =>
        if bool_decide (cKind rule = #"weekly") then
          let firstWeek := weekIndexOfEpoch lo in
          let skip := - floorDiv (- (firstWeek - startWeek rule)) interval in
          everyWeek rule fuel lo hi (startWeek rule + skip * interval) s
        else if bool_decide (cKind rule = #"daily") then
          let skip := - floorDiv (- (lo - start)) interval in
          dailySteps rule fuel lo hi (start + skip * interval) (skip + 1) s
        else
          let loParts := civilFromDays lo in
          if bool_decide (cKind rule = #"monthly") then
            let startIndex := startYear rule * 12 + startMonth rule - 1 in
            let skip := Z.max 0 (- floorDiv (- (year loParts * 12 + month loParts - 1 - startIndex)) interval) in
            stepsFrom rule fuel lo hi (monthlyEpoch rule) skip s
          else
            let skip := Z.max 0 (- floorDiv (- (year loParts - startYear rule)) interval) in
            stepsFrom rule fuel lo hi (yearlyEpoch rule) skip s
    end.

Definition forEachRepeatDay (fuel : nat) (repeat : Repeat) (fromDay toDay : bytes) (s : S) : S :=
  let rule := compileRepeat repeat in
  if negb (isValid rule) || blt toDay fromDay then s
  else walkDays rule fuel (epochDays fromDay) (epochDays toDay) s.
End Walk.

(** One step moves by a day at least; the first may begin a month early. *)
Definition fuelOf (fromDay toDay : bytes) : nat :=
  Z.to_nat (epochDays toDay - epochDays fromDay) + 400.

Definition expandRepeat (repeat : Repeat) (fromDay toDay : bytes) : list bytes :=
  forEachRepeatDay (fun day days => (days ++ [day], false)) (fuelOf fromDay toDay) repeat fromDay toDay [].

(** ** Instances of a task *)

Definition occurrenceIn (os : list Occurrence) (day : bytes) : option Occurrence :=
  snd <$> list_find (fun o => oDay o = day) os.

Definition occurrenceOf (item : Task) (day : bytes) : option Occurrence :=
  match occurrences item with None => None | Some os => occurrenceIn os day end.

Definition isExcluded (o : option Occurrence) : bool :=
  match o with Some o => default false (excluded o) | None => false end.

Definition instancesOf (item : Task) (fromDay toDay : bytes) : list bytes :=
  match repeat_ item with
  | None => []
  | Some r =>
      forEachRepeatDay (fun day days =>
          (if negb (isExcluded (occurrenceOf item day)) then days ++ [day] else days, false))
        (fuelOf fromDay toDay) r fromDay toDay []
  end.

Definition instanceOn (item : Task) (day : bytes) : bool :=
  match repeat_ item with
  | None => false
  | Some r => occursOn r day && negb (isExcluded (occurrenceOf item day))
  end.

Definition instanceKey (item : Task) : bytes :=
  match instanceDay item with
  | Some (c :: d) => id item ++ #"@" ++ (c :: d)
  | _ => id item
  end.

Definition taskInstance (task : Task) (day : bytes) : Task :=
  let occurrence := occurrenceOf task day in
  let st := if match occurrence with Some o => default false (done_ o) | None => false end then #"done"
            else if bool_decide (status task = #"done") then #"queue" else status task in
  let marks := match occurrence with Some o => default [] (doneSteps o) | None => [] end in
  {| id := id task; name := name task; description := description task;
     steps := imap (fun i s => {| text := text s; isDone := bool_decide (Z.of_nat i ∈ marks) |}) (steps task);
     status := st; project := project task; rank := rank task; tDay := Some day; tStart := tStart task;
     due := None; minutes := minutes task; repeat_ := repeat_ task; occurrences := occurrences task;
     origin := origin task; source := source task; remind := remind task; instanceDay := Some day |}.

Definition isInstanceDone (task : Task) (day : bytes) : bool :=
  match occurrenceOf task day with Some o => default false (done_ o) | None => false end.

Definition nextOpenInstance (task : Task) (today : bytes) : option Task :=
  match repeat_ task with
  | None => None
  | Some r =>
      let last := addDays today (kRepeatHorizonDays - 1) in
      let found := forEachRepeatDay (fun day found =>
          match occurrenceOf task day with
          | Some o => if default false (excluded o) || default false (done_ o) then (found, false)
                      else (Some day, true)
          | None => (Some day, true)
          end) (fuelOf today last) r today last None in
      taskInstance task <$> found
  end.

(** ** Marks of one instance *)

Record OccurrencePatch := { pExcluded : option bool; pDone : option bool; pDoneSteps : option (list Z) }.

(** [std::stable_sort] by day. *)
Fixpoint insertByDay (o : Occurrence) (l : list Occurrence) : list Occurrence :=
  match l with
  | [] => [o]
  | o' :: l' => if blt (oDay o') (oDay o) then o' :: insertByDay o l' else o :: o' :: l'
  end.
Definition sortByDay (l : list Occurrence) : list Occurrence := foldr insertByDay [] l.

Definition orElse {A} (a b : option A) : option A := match a with Some _ => a | None => b end.

Definition patched (o : Occurrence) (day : bytes) (patch : OccurrencePatch) : Occurrence :=
  {| oDay := day; excluded := orElse (pExcluded patch) (excluded o); done_ := orElse (pDone patch) (done_ o);
     doneSteps := orElse (pDoneSteps patch) (doneSteps o) |}.

Definition setOccurrenceIn (os : list Occurrence) (day : bytes) (patch : OccurrencePatch) : list Occurrence :=
  sortByDay
    match list_find (fun o => oDay o = day) os with
    | Some (i, o) => <[i := patched o day patch]> os
    | None => os ++ [patched {| oDay := []; excluded := None; done_ := None; doneSteps := None |} day patch]
    end.

(** ** Validation *)

Definition validateRepeat (repeat : Repeat) : option bytes :=
  if (interval repeat <? 1) || (kMaxRepeatInterval <? interval repeat) then Some #"interval"
  else
    let days := default [] (weekdays repeat) in
    if bool_decide (kind repeat = #"weekly")
       && ((length days =? 0)%nat || negb (forallb (fun d => (0 <=? d) && (d <=? 6)) days)
           || negb (length (uniqueOf days) =? length days)%nat) then Some #"weekdays"
    else if match monthDay repeat with Some d => (d <? 1) || (31 <? d) | None => false end then Some #"monthDay"
    else if (if negb (isEmpty (startDay repeat)) then negb (isDayKey (startDay repeat))
             else negb (bool_decide (kind repeat = #"weekly"))) then Some #"startDay"
    else if truthy (endDay repeat)
            && (negb (isDayKey (default [] (endDay repeat)))
                || (negb (isEmpty (startDay repeat)) && blt (default [] (endDay repeat)) (startDay repeat)))
         then Some #"endDay"
    else if match count repeat with Some c => (c <? 1) || (kMaxRepeatCount <? c) | None => false end
         then Some #"count"
    else None.

(** ** Lemmas: an enumeration is a filter *)

(** [visit] on a list of days, until it stops. *)
Fixpoint visitAll {S} (visit : bytes -> S -> S * bool) (days : list bytes) (s : S) : S * bool :=
  match days with
  | [] => (s, false)
  | d :: ds => let '(s', stop) := visit d s in if stop then (s', true) else visitAll visit ds s'
  end.

(** Days [g i], [g (i+1)], ... with ordinals [i + c], ... as [emit] lets them through. *)
Section Enumeration.
Context (over : Z -> bool) (lo hi c : Z) (g : Z -> Z).

Fixpoint enum (fuel : nat) (i : Z) : list Z :=
  match fuel with
  | O => []
  | Datatypes.S f =>
      if over (i + c) then [] else if hi <? g i then []
      else if g i <? lo then enum f (i + 1) else g i :: enum f (i + 1)
  end.

Context (i0 : Z) (g_mono : forall i j, i0 <= i -> i < j -> g i < g j)
  (over_mono : forall o, over o = true -> over (o + 1) = true).

Lemma g_le (i j : Z) : i0 <= i -> i <= j -> g i + (j - i) <= g j.
Proof using g_mono.
  intros H1 H2. replace j with (i + Z.of_nat (Z.to_nat (j - i))) by lia.
  induction (Z.to_nat (j - i)) as [|n IH]; [rewrite Z.add_0_r; lia|].
  pose proof (g_mono (i + Z.of_nat n) (i + Z.of_nat (Datatypes.S n)) ltac:(lia) ltac:(lia)). lia.
Qed.

Lemma over_le (o o' : Z) : over o = true -> o <= o' -> over o' = true.
Proof using over_mono.
  intros H1 H2. replace o' with (o + Z.of_nat (Z.to_nat (o' - o))) by lia.
  induction (Z.to_nat (o' - o)) as [|n IH]; [by rewrite Z.add_0_r|].
  replace (o + Z.of_nat (Datatypes.S n)) with (o + Z.of_nat n + 1) by lia. by apply over_mono.
Qed.

Lemma enum_elem (fuel : nat) : forall i e, i0 <= i -> hi < g i + Z.of_nat fuel ->
  e ∈ enum fuel i <-> lo <= e <= hi /\ exists j, i <= j /\ e = g j /\ over (j + c) = false.
Proof using g_mono over_mono.
  induction fuel as [|f IH]; intros i e Hi Hf; cbn [enum].
  { rewrite elem_of_nil. split; [done|]. intros (He & j & Hj & -> & _). pose proof (g_le i j Hi Hj). lia. }
  assert (hi < g (i + 1) + Z.of_nat f) as Hf' by (pose proof (g_le i (i + 1) Hi ltac:(lia)); lia).
  destruct (over (i + c)) eqn:Eo.
  { rewrite elem_of_nil. split; [done|]. intros (_ & j & Hj & -> & Ho).
    by rewrite (over_le (i + c)) in Ho by (done || lia). }
  destruct (Z.ltb_spec hi (g i)).
  { rewrite elem_of_nil. split; [done|]. intros (He & j & Hj & -> & _). pose proof (g_le i j Hi Hj). lia. }
  assert ((exists j, i <= j /\ e = g j /\ over (j + c) = false) <->
    e = g i \/ exists j, i + 1 <= j /\ e = g j /\ over (j + c) = false) as Hsplit.
  { split.
    - intros (j & Hj & -> & Ho). destruct (decide (j = i)) as [->|]; [by left|right]. exists j. split_and!; [lia|done..].
    - intros [->|(j & Hj & -> & Ho)]; [exists i|exists j]; (split_and!; [lia|done..]). }
  rewrite Hsplit. specialize (IH (i + 1) e ltac:(lia) Hf').
  destruct (Z.ltb_spec (g i) lo).
  - rewrite IH. split; [intros [H1 H2]; split; [done|by right]|]. intros [H1 [->|H2]]; [lia|done].
  - rewrite elem_of_cons, IH. split.
    + intros [->|[H1 H2]]; [split; [lia|by left]|split; [done|by right]].
    + intros [H1 [H2|H2]]; [by left|by right].
Qed.

Lemma enum_sorted (fuel : nat) : forall i, i0 <= i ->
  StronglySorted Z.lt (enum fuel i) /\ Forall (fun e => g i <= e) (enum fuel i).
Proof using g_mono.
  induction fuel as [|f IH]; intros i Hi; cbn [enum]; [by repeat constructor|].
  destruct (over _); [by repeat constructor|]. destruct (hi <? g i); [by repeat constructor|].
  destruct (IH (i + 1) ltac:(lia)) as [Hs Ha]. pose proof (g_mono i (i + 1) Hi ltac:(lia)).
  assert (Forall (fun e => g i < e) (enum f (i + 1))) as Hlt.
  { eapply List.Forall_impl; [|exact Ha]. intros e; cbn beta; lia. }
  destruct (g i <? lo).
  - split; [done|]. eapply List.Forall_impl; [|exact Hlt]. intros e; cbn beta; lia.
  - split; [by constructor|]. constructor; [lia|]. eapply List.Forall_impl; [|exact Hlt]. intros e; cbn beta; lia.
Qed.
End Enumeration.

Lemma sorted_lt_NoDup (l : list Z) : StronglySorted Z.lt l -> NoDup l.
Proof.
  induction 1 as [|x l Hs IH Hx]; constructor; [|done]. intros Hin.
  rewrite Forall_elem in Hx. specialize (Hx x Hin). lia.
Qed.

Lemma sorted_lt_le (l : list Z) : StronglySorted Z.lt l -> StronglySorted Z.le l.
Proof.
  induction 1 as [|x l Hs IH Hx]; constructor; [done|].
  eapply List.Forall_impl; [|exact Hx]. intros e; cbn beta; lia.
Qed.

(** Strictly increasing lists with the same members are equal. *)
Lemma sorted_lt_eq (l k : list Z) : StronglySorted Z.lt l -> StronglySorted Z.lt k ->
  (forall x, x ∈ l <-> x ∈ k) -> l = k.
Proof.
  intros Hl Hk H. apply (StronglySorted_unique Z.le); [by apply sorted_lt_le..|].
  apply NoDup_Permutation; [by apply sorted_lt_NoDup..|done].
Qed.

Lemma filter_sorted (P : Z -> bool) (l : list Z) : StronglySorted Z.lt l -> StronglySorted Z.lt (filter P l).
Proof.
  induction 1 as [|x l Hs IH Hx]; [constructor|]. rewrite filter_cons. destruct (decide _); [|done].
  constructor; [done|]. apply Forall_elem. intros e He. rewrite Forall_elem in Hx. apply Hx.
  by apply list_elem_of_filter in He as [_ He].
Qed.

Lemma upTo_sorted (lo : Z) (n : nat) : StronglySorted Z.lt (upTo lo n).
Proof.
  revert lo. induction n as [|n IH]; intros lo; [constructor|].
  change (Datatypes.S n) with (1 + n)%nat. rewrite upTo_app. constructor; [apply IH|].
  apply Forall_elem. intros e He%upTo_elem. cbn in He. lia.
Qed.

Definition daysBetween (lo hi : Z) : list Z := upTo lo (Z.to_nat (hi - lo + 1)).

Lemma daysBetween_elem (lo hi e : Z) : e ∈ daysBetween lo hi <-> lo <= e <= hi.
Proof. unfold daysBetween. rewrite upTo_elem. lia. Qed.

Lemma enum_filter (P over : Z -> bool) (lo hi c i0 : Z) (g : Z -> Z) (fuel : nat) :
  (forall i j, i0 <= i -> i < j -> g i < g j) -> (forall o, over o = true -> over (o + 1) = true) ->
  hi < g i0 + Z.of_nat fuel ->
  (forall e, lo <= e <= hi -> P e = true <-> exists j, i0 <= j /\ e = g j /\ over (j + c) = false) ->
  enum over lo hi c g fuel i0 = filter P (daysBetween lo hi).
Proof.
  intros Hg Ho Hf HP. apply sorted_lt_eq.
  - by eapply enum_sorted.
  - apply filter_sorted, upTo_sorted.
  - intros e. rewrite (enum_elem over lo hi c g i0) by done. rewrite list_elem_of_filter, daysBetween_elem.
    rewrite Is_true_true. split; [intros [H1 H2]|intros [H1 H2]]; specialize (HP e); tauto.
Qed.

(** A wider period changes nothing when what it adds is filtered out. *)
Lemma filter_narrow (P : Z -> bool) (lo hi from to : Z) : from <= lo -> hi <= to ->
  (forall e, P e = true -> from <= e <= to -> lo <= e <= hi) ->
  filter P (daysBetween lo hi) = filter P (daysBetween from to).
Proof.
  intros H1 H2 H. apply sorted_lt_eq; [apply filter_sorted, upTo_sorted..|].
  intros e. rewrite !list_elem_of_filter, !daysBetween_elem, Is_true_true. specialize (H e).
  split; intros [H3 H4]; (split; [done|]); [lia|by apply H].
Qed.

(** *** The loops of the sources are enumerations *)

Definition overCount (rule : CompiledRepeat) (o : Z) : bool :=
  match cCount rule with Some c => c <? o | None => false end.

Lemma overCount_mono (rule : CompiledRepeat) (o : Z) : overCount rule o = true -> overCount rule (o + 1) = true.
Proof. unfold overCount. destruct (cCount rule); lia. Qed.

Fixpoint enumStop (over : Z -> bool) (hi c : Z) (g : Z -> Z) (fuel : nat) (i : Z) : bool :=
  match fuel with
  | O => false
  | Datatypes.S f => over (i + c) || (hi <? g i) || enumStop over hi c g f (i + 1)
  end.

Lemma enum_app (over : Z -> bool) (lo hi c : Z) (g : Z -> Z) (a b : nat) : forall i,
  enum over lo hi c g (a + b) i =
  enum over lo hi c g a i ++ if enumStop over hi c g a i then [] else enum over lo hi c g b (i + Z.of_nat a).
Proof.
  induction a as [|a IH]; intros i; cbn [enum enumStop Nat.add app]; [by rewrite Z.add_0_r|].
  destruct (over (i + c)); [done|]. destruct (hi <? g i); [done|]. cbn [orb].
  rewrite IH. replace (i + 1 + Z.of_nat a) with (i + Z.of_nat (Datatypes.S a)) by lia.
  by destruct (g i <? lo).
Qed.

Section WalkLemmas.
Context {S : Type} (visit : bytes -> S -> S * bool) (rule : CompiledRepeat) (lo hi : Z).

Notation enumOf c g := (enum (overCount rule) lo hi c g).
Notation visitDays l s := (visitAll visit (keyOfEpoch <$> l) s).

Lemma visitAll_app (l k : list bytes) (s : S) :
  visitAll visit (l ++ k) s =
  let '(s', stop) := visitAll visit l s in if stop then (s', true) else visitAll visit k s'.
Proof.
  revert s. induction l as [|d l IH]; intros s; cbn [visitAll app]; [done|].
  destruct (visit d s) as [s' [|]]; [done|]. apply IH.
Qed.

Lemma stepsFrom_enum (g : Z -> Z) (fuel : nat) : forall i s,
  stepsFrom visit rule fuel lo hi g i s = (visitDays (enumOf 1 g fuel i) s).1.
Proof.
  induction fuel as [|f IH]; intros i s; cbn [stepsFrom enum]; [done|].
  unfold emit. fold (overCount rule (i + 1)). destruct (overCount rule (i + 1)); [done|].
  destruct (hi <? g i); [done|]. destruct (g i <? lo); [apply IH|].
  cbn [fmap list_fmap visitAll]. destruct (visit (keyOfEpoch (g i)) s) as [s' [|]]; cbn [negb]; [done|apply IH].
Qed.

Lemma dailySteps_enum (start : Z) (fuel : nat) : forall i s,
  dailySteps visit rule fuel lo hi (start + i * cInterval rule) (i + 1) s =
  (visitDays (enumOf 1 (fun j => start + j * cInterval rule) fuel i) s).1.
Proof.
  induction fuel as [|f IH]; intros i s; cbn [dailySteps enum]; [done|].
  replace (start + i * cInterval rule + cInterval rule) with (start + (i + 1) * cInterval rule) by lia.
  unfold emit. fold (overCount rule (i + 1)). destruct (overCount rule (i + 1)); [done|].
  destruct (hi <? _); [done|]. destruct (_ <? lo); [apply IH|].
  cbn [fmap list_fmap visitAll]. destruct (visit _ s) as [s' [|]]; cbn [negb]; [done|apply IH].
Qed.

Lemma everyDay_filter (fuel : nat) : forall epoch s, hi < epoch + Z.of_nat fuel ->
  everyDay visit rule fuel hi epoch s =
  (visitDays (filter (fun e => negb (Z.land (weekdayMask rule) (bitOf (weekdayOfEpoch e)) =? 0))
                (daysBetween epoch hi)) s).1.
Proof.
  induction fuel as [|f IH]; intros epoch s Hf; cbn [everyDay].
  { unfold daysBetween. by rewrite (Z2Nat.nonpos (hi - epoch + 1)) by lia. }
  destruct (Z.ltb_spec hi epoch); [unfold daysBetween; by rewrite (Z2Nat.nonpos (hi - epoch + 1)) by lia|].
  assert (daysBetween epoch hi = epoch :: daysBetween (epoch + 1) hi) as ->.
  { unfold daysBetween. replace (Z.to_nat (hi - epoch + 1)) with (1 + Z.to_nat (hi - (epoch + 1) + 1))%nat by lia.
    rewrite upTo_app. cbn. f_equal. lia. }
  rewrite filter_cons. set (b := negb _). destruct b eqn:E.
  - rewrite decide_True by done. cbn [fmap list_fmap visitAll].
    destruct (visit _ s) as [s' [|]]; [done|]. apply IH. lia.
  - rewrite decide_False by (cbn; congruence). apply IH. lia.
Qed.

Lemma weekPositions_enum (c monday base : Z) (g : Z -> Z) (ps : list Z) : forall i index s,
  base + index = i + c -> (forall t p, ps !! t = Some p -> g (i + Z.of_nat t) = monday + p) ->
  weekPositions visit rule lo hi monday base ps index s =
  let '(s', stop) := visitDays (enumOf c g (length ps) i) s in
  (s', negb (stop || enumStop (overCount rule) hi c g (length ps) i)).
Proof.
  induction ps as [|p ps IH]; intros i index s Hb Hg; cbn [weekPositions enum enumStop length]; [done|].
  pose proof (Hg 0%nat p eq_refl) as Hp. rewrite Z.add_0_r in Hp. rewrite <- Hp.
  assert (forall t q, ps !! t = Some q -> g (i + 1 + Z.of_nat t) = monday + q) as Hg'.
  { intros t q Ht. rewrite <- (Hg (Datatypes.S t) q Ht). f_equal. lia. }
  unfold emit. rewrite Hb. fold (overCount rule (i + c)). destruct (overCount rule (i + c)); [done|].
  destruct (hi <? g i); [done|]. cbn [orb]. destruct (g i <? lo).
  - apply IH; [lia|done].
  - cbn [fmap list_fmap visitAll]. destruct (visit (keyOfEpoch (g i)) s) as [s' [|]]; cbn [negb]; [done|].
    apply IH; [lia|done].
Qed.

(** The [j]-th place of the weekly series, from the first week. *)
Definition weeklyEpoch (j : Z) : Z :=
  let n := Z.of_nat (length (positions rule)) in
  mondayOfWeek (startWeek rule + j `div` n * cInterval rule)
  + nth (Z.to_nat (j `mod` n)) (positions rule) 0.

Lemma weeklyEpoch_at (k : Z) (t : nat) (p : Z) : positions rule !! t = Some p ->
  weeklyEpoch (k * Z.of_nat (length (positions rule)) + Z.of_nat t)
  = mondayOfWeek (startWeek rule + k * cInterval rule) + p.
Proof.
  intros Ht. pose proof (lookup_lt_Some _ _ _ Ht). unfold weeklyEpoch.
  rewrite Z.div_add_l, (Z.add_comm (k * _)), Z.mod_add, Z.div_small, Z.mod_small, Z.add_0_r, Nat2Z.id by lia.
  f_equal. by apply nth_lookup_Some.
Qed.

Lemma everyWeek_enum (fuel : nat) : forall k s, cInterval rule <> 0 -> positions rule <> [] ->
  Forall (fun p => 0 <= p) (positions rule) ->
  everyWeek visit rule fuel lo hi (startWeek rule + k * cInterval rule) s =
  (visitDays (enumOf (1 - skippedInFirstWeek rule) weeklyEpoch (fuel * length (positions rule))
     (k * Z.of_nat (length (positions rule)))) s).1.
Proof.
  intros k s Hi Hn Hp. revert k s. set (n := length (positions rule)).
  assert (0 < n)%nat as Hn0 by (subst n; destruct (positions rule); cbn; [done|lia]).
  induction fuel as [|f IH]; intros k s; cbn [everyWeek Nat.mul]; [done|].
  destruct (Z.ltb_spec hi (mondayOfWeek (startWeek rule + k * cInterval rule))).
  { destruct (positions rule) as [|p ps] eqn:Eps; [done|].
    pose proof (weeklyEpoch_at k 0 p ltac:(by rewrite Eps)) as E0. rewrite Eps in E0. fold n in E0.
    rewrite Z.add_0_r in E0. inversion Hp; subst. destruct n as [|m]; [lia|]. cbn [Nat.add enum].
    destruct (overCount rule _); [done|]. destruct (Z.ltb_spec hi (weeklyEpoch (k * Z.of_nat (Datatypes.S m)))); [done|]. lia. }
  rewrite enum_app. replace (startWeek rule + k * cInterval rule - startWeek rule) with (k * cInterval rule) by lia.
  rewrite Z.quot_mul by done. fold n.
  rewrite (weekPositions_enum (1 - skippedInFirstWeek rule) _ _ weeklyEpoch _ (k * Z.of_nat n)).
  - rewrite fmap_app, visitAll_app. fold n. destruct (visitDays (enumOf _ _ n _) s) as [s' [|]]; [done|]. cbn [orb].
    destruct (enumStop _ _ _ _ _ _); cbn [negb]; [done|].
    replace (k * Z.of_nat n + Z.of_nat n) with ((k + 1) * Z.of_nat n) by lia. rewrite <- IH.
    f_equal. lia.
  - lia.
  - intros t p Ht. by apply weeklyEpoch_at.
Qed.
End WalkLemmas.

(** *** Which days the rule names *)

Lemma rem_multiple (a i : Z) : 0 < i -> Z.rem a i = 0 <-> exists j, a = j * i.
Proof.
  intros Hi. split.
  - intros H. exists (Z.quot a i). pose proof (Z.quot_rem a i ltac:(lia)). lia.
  - intros [j ->]. by rewrite Z.rem_mul by lia.
Qed.

Lemma ceil_spec (x i j : Z) : 0 < i -> - floorDiv (- x) i <= j <-> x <= j * i.
Proof.
  intros Hi. rewrite floorDiv_div by lia. Z.to_euclidean_division_equations. nia.
Qed.

Section Occurs.
Context (rule : CompiledRepeat) (st : Z) (Hvalid : isValid rule = true) (Hst : cStart rule = Some st)
  (Hi : 0 < cInterval rule).

Definition afterEnd (e : Z) : bool := match cEnd rule with Some x => x <? e | None => false end.

Lemma occurs_daily (e : Z) : cKind rule = #"daily" -> st <= e -> afterEnd e = false ->
  occursOnEpoch rule e = true <->
  exists j, e = st + j * cInterval rule /\ overCount rule (j + 1) = false.
Proof using Hi Hst Hvalid.
  intros Hk He Hend. unfold occursOnEpoch, ordinalOfEpoch. rewrite Hvalid, Hst, Hk.
  fold (afterEnd e). rewrite Hend. destruct (Z.ltb_spec e st) as [?|_]; [lia|]. cbn [negb].
  rewrite bool_decide_eq_false_2, bool_decide_eq_true_2 by done.
  destruct (Z.eqb_spec (Z.rem (e - st) (cInterval rule)) 0) as [E|E].
  - apply rem_multiple in E as [j Ej]; [|done]. rewrite Ej, Z.quot_mul by lia.
    unfold overCount. split.
    + intros H. exists j. split; [lia|]. destruct (cCount rule); [lia|done].
    + intros (j' & E' & H). assert (j' = j) as -> by nia. destruct (cCount rule); [lia|done].
  - split; [done|]. intros (j & -> & _). destruct E. rewrite rem_multiple by done. exists j. lia.
Qed.

Lemma occurs_monthly (e : Z) : cKind rule = #"monthly" -> st <= e -> afterEnd e = false ->
  let d := civilFromDays e in
  occursOnEpoch rule e = true <->
  exists j, monthIndex d = startYear rule * 12 + startMonth rule - 1 + j * cInterval rule /\
    date d = Z.min (cMonthDay rule) (daysInMonth (year d) (month d)) /\ overCount rule (j + 1) = false.
Proof using Hi Hst Hvalid.
  intros Hk He Hend d. unfold occursOnEpoch, ordinalOfEpoch. rewrite Hvalid, Hst, Hk.
  fold (afterEnd e). rewrite Hend. destruct (Z.ltb_spec e st) as [?|_]; [lia|]. cbn [negb].
  rewrite bool_decide_eq_false_2, bool_decide_eq_false_2, bool_decide_eq_true_2 by done. fold d.
  set (a := _ - (startYear rule * 12 + _)).
  assert (a = monthIndex d - (startYear rule * 12 + startMonth rule - 1)) as Ea by (unfold a, monthIndex; lia).
  clearbody a. destruct (Z.eqb_spec (Z.rem a (cInterval rule)) 0) as [E|E]; cbn [negb].
  - apply rem_multiple in E as [j Ej]; [|done]. rewrite Ej, Z.quot_mul by lia. unfold overCount.
    destruct (Z.eqb_spec (date d) (Z.min (cMonthDay rule) (daysInMonth (year d) (month d)))).
    + split.
      * intros H. exists j. split_and!; [lia|done|]. destruct (cCount rule); [lia|done].
      * intros (j' & E' & _ & H). assert (j' = j) as -> by nia. destruct (cCount rule); [lia|done].
    + split; [done|]. by intros (j' & _ & E' & _).
  - split; [done|]. intros (j & Hj & _). destruct E. rewrite rem_multiple by done. exists j. lia.
Qed.

Lemma occurs_yearly (e : Z) : cKind rule <> #"weekly" -> cKind rule <> #"daily" -> cKind rule <> #"monthly" ->
  st <= e -> afterEnd e = false ->
  let d := civilFromDays e in
  occursOnEpoch rule e = true <->
  exists j, year d = startYear rule + j * cInterval rule /\ month d = startMonth rule /\
    date d = Z.min (startDate rule) (daysInMonth (year d) (month d)) /\ overCount rule (j + 1) = false.
Proof using Hi Hst Hvalid.
  intros Hk1 Hk2 Hk3 He Hend d. unfold occursOnEpoch, ordinalOfEpoch. rewrite Hvalid, Hst.
  fold (afterEnd e). rewrite Hend. destruct (Z.ltb_spec e st) as [?|_]; [lia|]. cbn [negb].
  rewrite !bool_decide_eq_false_2 by done. fold d.
  destruct (Z.eqb_spec (Z.rem (year d - startYear rule) (cInterval rule)) 0) as [E|E]; cbn [negb orb].
  - apply rem_multiple in E as [j Ej]; [|done]. rewrite Ej, Z.quot_mul by lia. unfold overCount.
    destruct (Z.eqb_spec (month d) (startMonth rule)); cbn [negb].
    + destruct (Z.eqb_spec (date d) (Z.min (startDate rule) (daysInMonth (year d) (month d)))).
      * split.
        -- intros H. exists j. split_and!; [lia|done|done|]. destruct (cCount rule); [lia|done].
        -- intros (j' & E' & _ & _ & H). assert (j' = j) as -> by nia. destruct (cCount rule); [lia|done].
      * split; [done|]. by intros (j' & _ & _ & E' & _).
    + split; [done|]. by intros (j' & _ & E' & _).
  - split; [done|]. intros (j & Hj & _). destruct E. rewrite rem_multiple by done. exists j. lia.
Qed.

(** The weekdays of the rule: its mask is the set of its positions. *)
Hypothesis Hpos : Forall (fun p => 0 <= p <= 6) (positions rule).
Hypothesis Hmask : weekdayMask rule = foldl (fun mask p => Z.lor mask (bitOf (Z.rem (p + 1) 7))) 0 (positions rule).

Lemma bitOf_pow (n : Z) : 0 <= n <= 6 -> bitOf n = 2 ^ n.
Proof.
  intros H. assert (n ∈ [0; 1; 2; 3; 4; 5; 6]) as Hn by (rewrite !elem_of_cons; lia).
  repeat (apply elem_of_cons in Hn as [->|Hn]; [done|]). by apply elem_of_nil in Hn.
Qed.

Lemma mask_bit (ps : list Z) (n : Z) : 0 <= n <= 6 -> Forall (fun p => 0 <= p <= 6) ps -> forall m,
  Z.testbit (foldl (fun mask p => Z.lor mask (bitOf (Z.rem (p + 1) 7))) m ps) n
  = Z.testbit m n || bool_decide (mondayBased n ∈ ps).
Proof.
  intros Hn. induction 1 as [|p ps Hp Hps IH]; intros m; cbn [foldl].
  { rewrite bool_decide_eq_false_2 by apply not_elem_of_nil. by rewrite orb_false_r. }
  rewrite IH, Z.lor_spec, <- orb_assoc. f_equal.
  rewrite bitOf_pow by (pose proof (Z.rem_bound_pos (p + 1) 7); lia).
  rewrite Z.pow2_bits_eqb by (pose proof (Z.rem_bound_pos (p + 1) 7); lia).
  assert (Z.rem (p + 1) 7 = n <-> mondayBased n = p) as E
    by (rewrite mondayBased_mod by done; Z.to_euclidean_division_equations; lia).
  destruct (Z.eqb_spec (Z.rem (p + 1) 7) n) as [E1|E1].
  - cbn [orb]. symmetry. apply bool_decide_eq_true_2. rewrite (proj1 E E1). left.
  - cbn [orb]. apply bool_decide_ext. rewrite elem_of_cons. tauto.
Qed.

Lemma land_bit (m n : Z) : 0 <= n <= 6 -> (Z.land m (bitOf n) =? 0) = negb (Z.testbit m n).
Proof.
  intros Hn. rewrite bitOf_pow by done. destruct (Z.testbit m n) eqn:E; cbn [negb].
  - apply Z.eqb_neq. intros H. apply (f_equal (fun x => Z.testbit x n)) in H.
    rewrite Z.land_spec, E, Z.pow2_bits_true, Z.bits_0 in H by lia. done.
  - apply Z.eqb_eq. apply Z.bits_inj'. intros k Hk. rewrite Z.land_spec, Z.bits_0, Z.pow2_bits_eqb by lia.
    destruct (Z.eqb_spec n k) as [<-|]; [by rewrite E|by rewrite andb_false_r].
Qed.

Lemma weekday_range (e : Z) : 0 <= weekdayOfEpoch e <= 6.
Proof. rewrite weekdayOfEpoch_mod. zdiv. Qed.

Lemma mask_day (e : Z) :
  (Z.land (weekdayMask rule) (bitOf (weekdayOfEpoch e)) =? 0) =
  negb (bool_decide (mondayBased (weekdayOfEpoch e) ∈ positions rule)).
Proof using Hpos Hmask.
  rewrite land_bit by apply weekday_range. rewrite Hmask, mask_bit by (done || apply weekday_range).
  by rewrite Z.bits_0.
Qed.

Lemma indexIn_lookup (l : list Z) (t : nat) (p : Z) : StronglySorted Z.lt l -> l !! t = Some p ->
  indexIn p l = Z.of_nat t.
Proof.
  intros Hs. revert t. induction Hs as [|x l Hs IH Hx]; intros t Ht; [done|]. destruct t as [|t]; cbn [indexIn].
  - injection Ht as ->. by rewrite Z.eqb_refl.
  - cbn in Ht. destruct (Z.eqb_spec x p) as [->|].
    + rewrite Forall_elem in Hx. apply list_elem_of_lookup_2 in Ht. specialize (Hx p Ht). lia.
    + rewrite (IH t Ht). lia.
Qed.

Hypothesis Hsorted : StronglySorted Z.lt (positions rule).

Lemma occurs_weekly (e : Z) : cKind rule = #"weekly" -> st <= e -> afterEnd e = false ->
  occursOnEpoch rule e = true <->
  exists k t p, positions rule !! t = Some p /\ e = mondayOfWeek (startWeek rule + k * cInterval rule) + p /\
    overCount rule (k * Z.of_nat (length (positions rule)) + Z.of_nat t + (1 - skippedInFirstWeek rule)) = false.
Proof using Hi Hst Hvalid Hpos Hmask Hsorted.
  intros Hk He Hend. unfold occursOnEpoch, ordinalOfEpoch. rewrite Hvalid, Hst, Hk.
  fold (afterEnd e). rewrite Hend. destruct (Z.ltb_spec e st) as [?|_]; [lia|]. cbn [negb].
  rewrite bool_decide_eq_true_2, mask_day by done.
  pose proof (week_split e) as Hw. set (w := weekIndexOfEpoch e) in *. set (p := mondayBased _) in *.
  assert (forall k t q, positions rule !! t = Some q -> e = mondayOfWeek (startWeek rule + k * cInterval rule) + q ->
    q = p /\ w - startWeek rule = k * cInterval rule) as Huniq.
  { intros k t q Ht E. apply list_elem_of_lookup_2 in Ht. rewrite Forall_elem in Hpos. specialize (Hpos q Ht).
    assert (0 <= p <= 6) by (subst p; rewrite mondayBased_epoch; zdiv). unfold mondayOfWeek in *. lia. }
  destruct (bool_decide_reflect (p ∈ positions rule)) as [Hp|Hp]; cbn [negb].
  2:{ split; [done|]. intros (k & t & q & Ht & E & _). destruct (Huniq k t q Ht E) as [-> _].
      by apply list_elem_of_lookup_2 in Ht. }
  apply list_elem_of_lookup in Hp as [t Ht]. rewrite (indexIn_lookup _ t) by done.
  destruct (Z.eqb_spec (Z.rem (w - startWeek rule) (cInterval rule)) 0) as [E|E]; cbn [negb].
  - apply rem_multiple in E as [k Ek]; [|done]. rewrite Ek, Z.quot_mul by lia. unfold overCount. split.
    + intros H. exists k, t, p. split_and!; [done|unfold mondayOfWeek in *; lia|]. destruct (cCount rule); [lia|done].
    + intros (k' & t' & q & Ht' & E' & H). destruct (Huniq k' t' q Ht' E') as [-> Ek'].
      assert (k' = k) as -> by nia. assert (t' = t) as ->; [|destruct (cCount rule); [lia|done]].
      pose proof (indexIn_lookup _ _ _ Hsorted Ht). pose proof (indexIn_lookup _ _ _ Hsorted Ht'). lia.
  - split; [done|]. intros (k & t' & q & Ht' & E' & _). destruct (Huniq k t' q Ht' E') as [_ Ek].
    destruct E. rewrite rem_multiple by done. by exists k.
Qed.
End Occurs.

(** *** Months and years of the series *)

Lemma civil_monthStart (i d : Z) : 1 <= d <= monthLen i ->
  civilFromDays (monthStart i + d - 1) = {| year := i `div` 12; month := i `mod` 12 + 1; date := d |}.
Proof.
  intros Hd. set (p := {| year := i `div` 12; month := i `mod` 12 + 1; date := d |}).
  pose proof (Z.mod_pos_bound i 12 ltac:(lia)).
  assert (validDate p) as Hp by (split; cbn; [lia|exact Hd]).
  assert (monthIndex p = i) as Ei by (unfold monthIndex; cbn; pose proof (Z.div_mod i 12); lia).
  replace (monthStart i + d - 1) with (daysOf p); [by apply civil_daysOf|].
  rewrite daysOf_monthStart, Ei by apply Hp. done.
Qed.

Lemma civil_monthIndex_le (a b : Z) : a <= b -> monthIndex (civilFromDays a) <= monthIndex (civilFromDays b).
Proof.
  intros H. destruct (civil_spec a) as [Ha Ea], (civil_spec b) as [Hb Eb].
  destruct (Z.le_gt_cases (monthIndex (civilFromDays a)) (monthIndex (civilFromDays b))); [done|].
  pose proof (daysOf_lt _ _ Hb Ha ltac:(left; lia)). lia.
Qed.

Lemma civil_eq_monthStart (e : Z) :
  e = monthStart (monthIndex (civilFromDays e)) + date (civilFromDays e) - 1.
Proof.
  destruct (civil_spec e) as [Hv He]. rewrite <- He at 1. rewrite daysOf_monthStart by apply Hv. done.
Qed.

Section MonthSeries.
Context (rule : CompiledRepeat) (p : Parts) (Hp : keyDate p) (Hi : 0 < cInterval rule)
  (Hy : startYear rule = year p) (Hm : startMonth rule = month p) (Hd : startDate rule = date p)
  (Hmd : 1 <= cMonthDay rule).

Lemma monthlyEpoch_eq (j : Z) : 0 <= j ->
  let i := monthIndex p + j * cInterval rule in
  monthlyEpoch rule j = monthStart i + Z.min (cMonthDay rule) (monthLen i) - 1.
Proof using Hp Hi Hy Hm.
  intros Hj i. unfold monthlyEpoch. rewrite Hy, Hm, floorDiv_div by done. fold (monthIndex p). fold i.
  pose proof (keyDate_ranges p Hp). assert (12000 <= i) by (unfold i, monthIndex; nia).
  assert (plainYear (i `div` 12)) by (right; zdiv).
  rewrite epochOf_monthStart, daysInMonth_monthLen by done.
  replace (i `div` 12 * 12 + (i - i `div` 12 * 12 + 1) - 1) with i by lia. lia.
Qed.

Lemma yearlyEpoch_eq (j : Z) : 0 <= j ->
  let i := monthIndex p + j * cInterval rule * 12 in
  yearlyEpoch rule j = monthStart i + Z.min (date p) (monthLen i) - 1.
Proof using Hp Hi Hy Hm Hd.
  intros Hj i. unfold yearlyEpoch. rewrite Hy, Hm, Hd.
  pose proof (keyDate_ranges p Hp). assert (plainYear (year p + j * cInterval rule)) by (right; nia).
  rewrite epochOf_monthStart, daysInMonth_monthLen by done.
  replace ((year p + j * cInterval rule) * 12 + month p - 1) with i by (unfold i, monthIndex; lia). lia.
Qed.

(** Clamped dates of growing months grow. *)
Lemma clamped_lt (i i' d : Z) : i < i' -> 1 <= d ->
  monthStart i + Z.min d (monthLen i) - 1 < monthStart i' + Z.min d (monthLen i') - 1.
Proof.
  intros H H1. pose proof (monthStart_lt i i' H).
  pose proof (monthLength_bounds (i' `div` 12) (i' `mod` 12 + 1)). unfold monthLen in *. lia.
Qed.

Lemma monthlyEpoch_mono (i j : Z) : 0 <= i -> i < j -> monthlyEpoch rule i < monthlyEpoch rule j.
Proof using Hp Hi Hy Hm Hmd.
  intros H1 H2. rewrite !monthlyEpoch_eq by lia. apply clamped_lt; [nia|done].
Qed.

Lemma yearlyEpoch_mono (i j : Z) : 0 <= i -> i < j -> yearlyEpoch rule i < yearlyEpoch rule j.
Proof using Hp Hi Hy Hm Hd.
  intros H1 H2. rewrite !yearlyEpoch_eq by lia. apply clamped_lt; [nia|]. pose proof (keyDate_ranges p Hp). lia.
Qed.

Lemma monthStart_civil (e : Z) : e - 30 <= monthStart (monthIndex (civilFromDays e)).
Proof.
  pose proof (civil_eq_monthStart e). destruct (civil_spec e) as [[_ Hv] _].
  pose proof (monthLength_bounds (year (civilFromDays e)) (month (civilFromDays e))). lia.
Qed.

(** The first step of the walk and what it leaves out. *)
Definition monthlySkip (lo : Z) : Z :=
  Z.max 0 (- floorDiv (- (monthIndex (civilFromDays lo) - monthIndex p)) (cInterval rule)).

Definition yearlySkip (lo : Z) : Z :=
  Z.max 0 (- floorDiv (- (year (civilFromDays lo) - year p)) (cInterval rule)).

Lemma monthly_walk (lo e : Z) : daysOf p <= lo -> lo <= e ->
  let d := civilFromDays e in
  forall Q : Z -> Prop,
  (exists j, monthIndex d = startYear rule * 12 + startMonth rule - 1 + j * cInterval rule /\
     date d = Z.min (cMonthDay rule) (daysInMonth (year d) (month d)) /\ Q j) <->
  (exists j, monthlySkip lo <= j /\ e = monthlyEpoch rule j /\ Q j).
Proof using Hp Hi Hy Hm Hmd.
  intros Hlo He d Q. rewrite Hy, Hm. change (year p * 12 + month p - 1) with (monthIndex p).
  pose proof (civil_eq_monthStart e) as Ee. fold d in Ee.
  pose proof (civil_monthIndex_le lo e He) as Hle. fold d in Hle.
  pose proof (civil_monthIndex_le (daysOf p) lo Hlo) as Hle2. rewrite civil_daysOf in Hle2 by apply Hp.
  pose proof (keyDate_ranges p Hp) as Hr. unfold monthlySkip. split.
  - intros (j & Hj & Hdt & HQ). exists j.
    assert (0 <= j) as Hj0 by nia.
    split_and!; [|rewrite monthlyEpoch_eq by done; cbn zeta; rewrite <- Hj|done].
    + apply Z.max_lub; [done|]. apply ceil_spec; lia.
    + destruct (civil_spec e) as [[Hv _] _]. fold d in Hv.
      rewrite daysInMonth_monthLen in Hdt by (right; unfold monthIndex in *; lia).
      fold (monthIndex d) in Hdt. lia.
  - intros (j & Hj & Hj2 & HQ). exists j. rewrite monthlyEpoch_eq in Hj2 by lia. cbn zeta in Hj2.
    set (i := monthIndex p + j * cInterval rule) in *.
    pose proof (monthLength_bounds (i `div` 12) (i `mod` 12 + 1)) as Hb. fold (monthLen i) in Hb.
    assert (d = {| year := i `div` 12; month := i `mod` 12 + 1; date := Z.min (cMonthDay rule) (monthLen i) |}) as Ed.
    { unfold d. rewrite Hj2. apply civil_monthStart. lia. }
    rewrite Ed. cbn [year month date]. assert (12000 <= i) by (unfold i, monthIndex; nia).
    rewrite daysInMonth_monthLen by (right; zdiv). pose proof (Z.div_mod i 12 ltac:(lia)).
    replace (i `div` 12 * 12 + (i `mod` 12 + 1) - 1) with i by lia. split_and!; [|done..].
    unfold monthIndex at 1. cbn. lia.
Qed.

Lemma yearly_walk (lo e : Z) : daysOf p <= lo -> lo <= e ->
  let d := civilFromDays e in
  forall Q : Z -> Prop,
  (exists j, year d = startYear rule + j * cInterval rule /\ month d = startMonth rule /\
     date d = Z.min (startDate rule) (daysInMonth (year d) (month d)) /\ Q j) <->
  (exists j, yearlySkip lo <= j /\ e = yearlyEpoch rule j /\ Q j).
Proof using Hp Hi Hy Hm Hd.
  intros Hlo He d Q. rewrite Hy, Hm, Hd.
  pose proof (civil_eq_monthStart e) as Ee. fold d in Ee.
  pose proof (civil_monthIndex_le lo e He) as Hle. fold d in Hle.
  pose proof (civil_monthIndex_le (daysOf p) lo Hlo) as Hle2. rewrite civil_daysOf in Hle2 by apply Hp.
  pose proof (keyDate_ranges p Hp) as Hr. destruct (civil_spec e) as [[Hv _] _]. fold d in Hv.
  destruct (civil_spec lo) as [[Hvl _] _]. unfold monthIndex in Hle, Hle2. unfold yearlySkip. split.
  - intros (j & Hj & Hmo & Hdt & HQ). exists j.
    assert (0 <= j) as Hj0 by nia.
    split_and!; [|rewrite yearlyEpoch_eq by done; cbn zeta|done].
    + apply Z.max_lub; [done|]. apply ceil_spec; lia.
    + rewrite daysInMonth_monthLen in Hdt by (right; lia).
      replace (monthIndex p + j * cInterval rule * 12) with (monthIndex d) by (unfold monthIndex; lia).
      fold (monthIndex d) in Hdt. lia.
  - intros (j & Hj & Hj2 & HQ). exists j. rewrite yearlyEpoch_eq in Hj2 by lia. cbn zeta in Hj2.
    set (i := monthIndex p + j * cInterval rule * 12) in *.
    pose proof (monthLength_bounds (i `div` 12) (i `mod` 12 + 1)) as Hb. fold (monthLen i) in Hb.
    assert (i `div` 12 = year p + j * cInterval rule /\ i `mod` 12 + 1 = month p) as [E1 E2]
      by (unfold i, monthIndex; Z.to_euclidean_division_equations; lia).
    assert (d = {| year := i `div` 12; month := i `mod` 12 + 1; date := Z.min (date p) (monthLen i) |}) as Ed.
    { unfold d. rewrite Hj2. apply civil_monthStart. lia. }
    rewrite Ed. cbn [year month date]. rewrite daysInMonth_monthLen by (right; rewrite E1; nia).
    replace (i `div` 12 * 12 + (i `mod` 12 + 1) - 1) with i by (pose proof (Z.div_mod i 12); lia). done.
Qed.
End MonthSeries.

Section WeekSeries.
Context (rule : CompiledRepeat) (Hi : 0 < cInterval rule) (Hne : positions rule <> [])
  (Hpos : Forall (fun p => 0 <= p <= 6) (positions rule)) (Hsorted : StronglySorted Z.lt (positions rule)).

Lemma sorted_nth_lt (l : list Z) (a b : nat) : StronglySorted Z.lt l -> (a < b < length l)%nat -> nth a l 0 < nth b l 0.
Proof.
  intros Hs. revert a b. induction Hs as [|x l Hs IH Hx]; intros a b Hab; cbn [length] in Hab; [lia|].
  destruct b as [|b]; [lia|]. destruct a as [|a]; cbn [nth].
  - rewrite Forall_elem in Hx. apply Hx. apply list_elem_of_In, nth_In. lia.
  - apply IH. lia.
Qed.

Lemma positions_length : (0 < length (positions rule))%nat.
Proof using Hi Hne Hpos Hsorted. destruct (positions rule); cbn; [done|lia]. Qed.

Lemma position_range (t : nat) : (t < length (positions rule))%nat -> 0 <= nth t (positions rule) 0 <= 6.
Proof using Hi Hne Hpos Hsorted. intros Ht. rewrite Forall_elem in Hpos. apply Hpos, list_elem_of_In, nth_In, Ht. Qed.

Lemma weeklyEpoch_mono (a b : Z) : a < b -> weeklyEpoch rule a < weeklyEpoch rule b.
Proof using Hi Hne Hpos Hsorted.
  intros H. unfold weeklyEpoch, mondayOfWeek. pose proof positions_length. set (n := Z.of_nat (length (positions rule))).
  pose proof (Z.div_mod a n ltac:(lia)). pose proof (Z.div_mod b n ltac:(lia)).
  pose proof (Z.mod_pos_bound a n ltac:(lia)). pose proof (Z.mod_pos_bound b n ltac:(lia)).
  pose proof (position_range (Z.to_nat (a `mod` n)) ltac:(lia)).
  pose proof (position_range (Z.to_nat (b `mod` n)) ltac:(lia)).
  pose proof (Z.div_le_mono a b n ltac:(lia) ltac:(lia)).
  destruct (decide (a `div` n = b `div` n)) as [E|E].
  - rewrite E. pose proof (sorted_nth_lt (positions rule) (Z.to_nat (a `mod` n)) (Z.to_nat (b `mod` n)) Hsorted ltac:(lia)). lia.
  - nia.
Qed.

Definition weeklySkip (lo : Z) : Z :=
  - floorDiv (- (weekIndexOfEpoch lo - startWeek rule)) (cInterval rule).

Lemma weekIndex_le (a b : Z) : a <= b -> weekIndexOfEpoch a <= weekIndexOfEpoch b.
Proof. intros H. unfold weekIndexOfEpoch. rewrite !floorDiv_div by done. apply Z.div_le_mono; lia. Qed.

Lemma weekIndex_monday (w p : Z) : 0 <= p <= 6 -> weekIndexOfEpoch (mondayOfWeek w + p) = w.
Proof. intros H. unfold weekIndexOfEpoch, mondayOfWeek. rewrite floorDiv_div by done. zdiv. Qed.

Lemma weekly_walk (lo e : Z) (Q : Z -> Prop) : lo <= e ->
  (exists k t p, positions rule !! t = Some p /\ e = mondayOfWeek (startWeek rule + k * cInterval rule) + p /\
     Q (k * Z.of_nat (length (positions rule)) + Z.of_nat t)) <->
  (exists j, weeklySkip lo * Z.of_nat (length (positions rule)) <= j /\ e = weeklyEpoch rule j /\ Q j).
Proof using Hi Hne Hpos Hsorted.
  intros He. pose proof positions_length as Hn. pose proof (weekIndex_le lo e He) as Hw. split.
  - intros (k & t & p & Ht & E & HQ). exists (k * Z.of_nat (length (positions rule)) + Z.of_nat t).
    rewrite (weeklyEpoch_at rule k t p Ht). split_and!; [|done..].
    assert (0 <= p <= 6) as Hp by (rewrite Forall_elem in Hpos; by eapply Hpos, list_elem_of_lookup_2).
    rewrite E, weekIndex_monday in Hw by done.
    assert (weeklySkip lo <= k) by (apply ceil_spec; lia). nia.
  - intros (j & Hj & E & HQ). set (n := Z.of_nat (length (positions rule))) in *.
    pose proof (Z.mod_pos_bound j n ltac:(lia)).
    exists (j `div` n), (Z.to_nat (j `mod` n)), (nth (Z.to_nat (j `mod` n)) (positions rule) 0).
    split_and!.
    + destruct (lookup_lt_is_Some_2 (positions rule) (Z.to_nat (j `mod` n)) ltac:(lia)) as [q Hq].
      by rewrite (nth_lookup_Some _ _ _ _ Hq).
    + exact E.
    + replace (j `div` n * n + Z.of_nat (Z.to_nat (j `mod` n))) with j; [done|].
      pose proof (Z.div_mod j n). lia.
Qed.

Lemma weeklySkip_monday (lo : Z) : lo - 6 <= weeklyEpoch rule (weeklySkip lo * Z.of_nat (length (positions rule))).
Proof using Hi Hne Hpos Hsorted.
  pose proof positions_length as Hn. destruct (positions rule !! 0%nat) as [p|] eqn:E.
  2:{ apply lookup_ge_None in E. lia. }
  pose proof (weeklyEpoch_at rule (weeklySkip lo) 0 p E) as Ew. rewrite Z.add_0_r in Ew. rewrite Ew.
  assert (0 <= p <= 6) as Hp by (rewrite Forall_elem in Hpos; by eapply Hpos, list_elem_of_lookup_2).
  assert (weekIndexOfEpoch lo - startWeek rule <= weeklySkip lo * cInterval rule) by (by apply ceil_spec).
  pose proof (week_split lo). unfold mondayOfWeek in *. pose proof (mondayBased_epoch lo).
  pose proof (Z.mod_pos_bound (lo + 3) 7 ltac:(lia)). lia.
Qed.
End WeekSeries.

(** *** What [compileRepeat] makes of a valid rule *)

Definition realDay (s : bytes) : Prop := exists p, keyDate p /\ s = keyOf p.

(** A rule that passes [validateRepeat] and begins on a date of the calendar. *)
Definition wellFormed (r : Repeat) : Prop :=
  validateRepeat r = None /\ (startDay r = [] \/ realDay (startDay r)).

Lemma validateRepeat_spec (r : Repeat) : validateRepeat r = None ->
  1 <= interval r <= 99 /\
  (kind r = #"weekly" -> default [] (weekdays r) <> [] /\ Forall (fun d => 0 <= d <= 6) (default [] (weekdays r))) /\
  (forall d, monthDay r = Some d -> 1 <= d <= 31) /\
  (startDay r = [] -> kind r = #"weekly") /\
  (forall c, count r = Some c -> 1 <= c).
Proof.
  unfold validateRepeat, kMaxRepeatInterval, kMaxRepeatCount.
  destruct ((interval r <? 1) || (99 <? interval r)) eqn:E1; [done|].
  destruct (bool_decide (kind r = #"weekly") && _) eqn:E2; [done|].
  destruct (match monthDay r with Some d => _ | None => false end) eqn:E3; [done|].
  destruct (if negb (isEmpty (startDay r)) then _ else _) eqn:E4; [done|].
  destruct (truthy _ && _) eqn:E5; [done|].
  destruct (match count r with Some c => _ | None => false end) eqn:E6; [done|].
  intros _. split_and!.
  - lia.
  - lia.
  - intros Hk. rewrite bool_decide_eq_true_2 in E2 by done. cbn [andb] in E2.
    apply orb_false_iff in E2 as [E2 _].
    apply orb_false_iff in E2 as [E2 E8]. split; [intros E0; by rewrite E0 in E2|].
    apply negb_false_iff in E8. rename E8 into E7. apply Forall_elem. intros d Hd. rewrite forallb_forall in E7. apply list_elem_of_In in Hd.
    specialize (E7 d Hd). lia.
  - intros d Hd. rewrite Hd in E3. lia.
  - intros Hs. rewrite Hs in E4. change (isEmpty []) with true in E4. cbn [negb] in E4.
    by apply negb_false_iff, bool_decide_eq_true in E4.
  - intros c Hc. rewrite Hc in E6. lia.
Qed.

Lemma uniqueOf_spec (l : list Z) : NoDup (uniqueOf l) /\ (forall x, x ∈ uniqueOf l <-> x ∈ l).
Proof.
  unfold uniqueOf. assert (forall u, NoDup u ->
    NoDup (foldl (fun u w => if bool_decide (w ∈ u) then u else u ++ [w]) u l) /\
    forall x, x ∈ foldl (fun u w => if bool_decide (w ∈ u) then u else u ++ [w]) u l <-> x ∈ u \/ x ∈ l) as H.
  { induction l as [|w l IH]; intros u Hu; cbn [foldl]; [split; [done|]; set_solver|].
    case_bool_decide as Hw.
    - destruct (IH u Hu) as [H1 H2]. split; [done|]. intros x. rewrite H2. set_solver.
    - destruct (IH (u ++ [w])) as [H1 H2].
      { apply list.NoDup_app. split_and!; [done| |apply NoDup_singleton]. set_solver. }
      split; [done|]. intros x. rewrite H2. set_solver. }
  destruct (H [] (NoDup_nil_2)) as [H1 H2]. split; [done|]. intros x. rewrite H2. set_solver.
Qed.

Lemma mondayBased_inj (a b : Z) : 0 <= a <= 6 -> 0 <= b <= 6 -> mondayBased a = mondayBased b -> a = b.
Proof. intros Ha Hb. rewrite !mondayBased_mod by done. intros. zdiv. Qed.

Lemma NoDup_fmap_on {A B} (f : A -> B) (l : list A) :
  (forall x y, x ∈ l -> y ∈ l -> f x = f y -> x = y) -> NoDup l -> NoDup (f <$> l).
Proof.
  intros Hf. induction 1 as [|x l Hx Hl IH]; [constructor|]. cbn. constructor.
  - rewrite list_elem_of_fmap. intros (y & E & Hy). apply Hx. rewrite (Hf x y); [done|left|by right|done].
  - apply IH. intros a b Ha Hb. apply Hf; by right.
Qed.

Lemma sorted_le_lt (l : list Z) : StronglySorted Z.le l -> NoDup l -> StronglySorted Z.lt l.
Proof.
  induction 1 as [|x l Hs IH Hx]; [constructor|]. intros [Hn Hd]%list.NoDup_cons. constructor; [by apply IH|].
  rewrite Forall_elem in *. intros y Hy. specialize (Hx y Hy).
  assert (x <> y) by (intros ->; done). lia.
Qed.

Lemma positions_spec (r : Repeat) : validateRepeat r = None -> kind r = #"weekly" ->
  let ps := positions (compileRepeat r) in
  ps <> [] /\ Forall (fun p => 0 <= p <= 6) ps /\ StronglySorted Z.lt ps.
Proof.
  intros Hv Hk. destruct (validateRepeat_spec r Hv) as (_ & Hw & _). destruct (Hw Hk) as [Hne Hr].
  cbn. unfold sortZ. set (u := uniqueOf (default [] (weekdays r))).
  destruct (uniqueOf_spec (default [] (weekdays r))) as [Hnd Hin]. fold u in Hnd, Hin.
  pose proof (merge_sort_Permutation Z.le (mondayBased <$> u)) as HP.
  assert (forall d, d ∈ u -> 0 <= d <= 6) as Hu.
  { intros d Hd%Hin. rewrite Forall_elem in Hr. by apply Hr. }
  split_and!.
  - intros E. rewrite E in HP. apply Permutation_nil_l, eq_sym, fmap_nil_inv in HP.
    destruct (default [] (weekdays r)) as [|d l]; [done|]. assert (d ∈ u) by (apply Hin; left).
    rewrite HP in *. set_solver.
  - apply Forall_elem. intros p Hp. rewrite HP in Hp. apply list_elem_of_fmap in Hp as (d & -> & Hd).
    rewrite mondayBased_mod by (by apply Hu). zdiv.
  - apply sorted_le_lt; [apply (StronglySorted_merge_sort Z.le)|]. rewrite HP.
    apply NoDup_fmap_on; [|done]. intros a b Ha Hb. apply mondayBased_inj; by apply Hu.
Qed.


(** *** The walk visits the days of the rule *)

Definition walkLo (rule : CompiledRepeat) (from : Z) : Z :=
  match cStart rule with Some st => Z.max from st | None => from end.
Definition walkHi (rule : CompiledRepeat) (to : Z) : Z :=
  match cEnd rule with Some e => Z.min to e | None => to end.

Lemma occurs_bounds (rule : CompiledRepeat) (from to e : Z) :
  occursOnEpoch rule e = true -> from <= e <= to -> walkLo rule from <= e <= walkHi rule to.
Proof.
  unfold occursOnEpoch, ordinalOfEpoch, walkLo, walkHi. intros H He.
  destruct (negb (isValid rule)); [done|].
  destruct (cStart rule) as [st|]; [destruct (Z.ltb_spec e st); [done|]|];
    destruct (cEnd rule) as [x|]; try (destruct (Z.ltb_spec x e); [done|]); lia.
Qed.

Lemma walk_narrow (rule : CompiledRepeat) (from to : Z) :
  filter (occursOnEpoch rule) (daysBetween (walkLo rule from) (walkHi rule to))
  = filter (occursOnEpoch rule) (daysBetween from to).
Proof.
  apply filter_narrow.
  - unfold walkLo. destruct (cStart rule); lia.
  - unfold walkHi. destruct (cEnd rule); lia.
  - intros e. apply occurs_bounds.
Qed.

Lemma walkHi_afterEnd (rule : CompiledRepeat) (to e : Z) : e <= walkHi rule to -> afterEnd rule e = false.
Proof. unfold walkHi, afterEnd. destruct (cEnd rule); lia. Qed.

Lemma daysBetween_empty (lo hi : Z) : hi < lo -> daysBetween lo hi = [].
Proof. intros H. unfold daysBetween. by rewrite Z2Nat.nonpos by lia. Qed.

Lemma monthStart_11 (i : Z) : monthStart (i + 11) <= monthStart i + 341.
Proof.
  assert (forall n : nat, monthStart (i + Z.of_nat n) <= monthStart i + 31 * Z.of_nat n) as H.
  { induction n as [|n IH]; [rewrite Z.add_0_r; lia|].
    replace (i + Z.of_nat (Datatypes.S n)) with (i + Z.of_nat n + 1) by lia. rewrite monthStart_succ.
    pose proof (monthLength_bounds ((i + Z.of_nat n) `div` 12) ((i + Z.of_nat n) `mod` 12 + 1)). unfold monthLen. lia. }
  exact (H 11%nat).
Qed.

Section WalkDays.
Context {S : Type} (visit : bytes -> S -> S * bool).

(** The days of the rule between two day numbers, visited in order. *)
Definition visitOccurring (rule : CompiledRepeat) (lo hi : Z) (s : S) : S :=
  (visitAll visit (keyOfEpoch <$> filter (occursOnEpoch rule) (daysBetween lo hi)) s).1.

Section Started.
Context (rule : CompiledRepeat) (st from to : Z) (fuel : nat) (s : S)
  (Hvalid : isValid rule = true) (Hst : cStart rule = Some st) (Hi : 0 < cInterval rule)
  (Hfuel : to - from + 380 < Z.of_nat fuel).
Notation lo := (walkLo rule from).
Notation hi := (walkHi rule to).

Lemma lo_start : st <= lo.
Proof using Hst. clear Hfuel. unfold walkLo. rewrite Hst. lia. Qed.
Lemma lo_from : from <= lo.
Proof using Hst. clear Hfuel. unfold walkLo. rewrite Hst. lia. Qed.
Lemma hi_to : hi <= to.
Proof. clear Hfuel. unfold walkHi. destruct (cEnd rule); lia. Qed.

Lemma daily_visits : cKind rule = #"daily" ->
  dailySteps visit rule fuel lo hi (st + (- floorDiv (- (lo - st)) (cInterval rule)) * cInterval rule)
    (- floorDiv (- (lo - st)) (cInterval rule) + 1) s = visitOccurring rule lo hi s.
Proof using Hvalid Hst Hi Hfuel.
  intros Hk. rewrite dailySteps_enum. unfold visitOccurring. do 3 f_equal.
  pose proof lo_start. pose proof lo_from. pose proof hi_to.
  set (skip := - floorDiv _ _). assert (lo - st <= skip * cInterval rule) by (by apply ceil_spec).
  apply enum_filter; [intros; nia|apply overCount_mono|lia|].
  intros e He. rewrite (occurs_daily rule st) by (done || lia || by eapply walkHi_afterEnd, He).
  split; [|intros (j & _ & Hj); by exists j].
  intros (j & -> & Hj). exists j. split_and!; [|done..]. apply ceil_spec; lia.
Qed.

Lemma weekly_visits : cKind rule = #"weekly" -> positions rule <> [] ->
  Forall (fun p => 0 <= p <= 6) (positions rule) -> StronglySorted Z.lt (positions rule) ->
  weekdayMask rule = foldl (fun mask p => Z.lor mask (bitOf (Z.rem (p + 1) 7))) 0 (positions rule) ->
  everyWeek visit rule fuel lo hi (startWeek rule + weeklySkip rule lo * cInterval rule) s
  = visitOccurring rule lo hi s.
Proof using Hvalid Hst Hi Hfuel.
  intros Hk Hne Hpos Hsorted Hmask. rewrite everyWeek_enum; [|lia|done|].
  2:{ eapply List.Forall_impl; [|exact Hpos]. intros p; cbn beta; lia. }
  unfold visitOccurring. do 3 f_equal. pose proof lo_start. pose proof lo_from. pose proof hi_to.
  pose proof (positions_length rule Hi Hne Hpos Hsorted).
  apply enum_filter.
  - intros i j _. by apply weeklyEpoch_mono.
  - apply overCount_mono.
  - pose proof (weeklySkip_monday rule Hi Hne Hpos Hsorted lo). nia.
  - intros e He. rewrite (occurs_weekly rule st) by (done || lia || by eapply walkHi_afterEnd, He).
    apply (weekly_walk rule Hi Hne Hpos Hsorted lo e
      (fun j => overCount rule (j + (1 - skippedInFirstWeek rule)) = false)). lia.
Qed.

Context (p : Parts) (Hp : keyDate p) (Hstp : st = daysOf p)
  (Hy : startYear rule = year p) (Hm : startMonth rule = month p) (Hd : startDate rule = date p)
  (Hmd : 1 <= cMonthDay rule).

Lemma monthly_visits : cKind rule = #"monthly" ->
  stepsFrom visit rule fuel lo hi (monthlyEpoch rule) (monthlySkip rule p lo) s = visitOccurring rule lo hi s.
Proof using Hvalid Hst Hi Hfuel Hp Hstp Hy Hm Hd Hmd.
  intros Hk. rewrite stepsFrom_enum. unfold visitOccurring. do 3 f_equal.
  pose proof lo_start. pose proof lo_from. pose proof hi_to.
  assert (0 <= monthlySkip rule p lo) as Hskip by (unfold monthlySkip; lia).
  apply enum_filter.
  - intros i j Hij. apply (monthlyEpoch_mono rule p); done || lia.
  - apply overCount_mono.
  - rewrite (monthlyEpoch_eq rule p) by done. cbn zeta. pose proof (monthStart_civil lo).
    set (i := monthIndex p + _).
    assert (monthIndex (civilFromDays lo) <= i).
    { assert (monthIndex (civilFromDays lo) - monthIndex p <= monthlySkip rule p lo * cInterval rule)
        by (apply ceil_spec; [done|unfold monthlySkip; lia]). unfold i. lia. }
    pose proof (monthStart_le (monthIndex (civilFromDays lo)) i ltac:(done)).
    pose proof (monthLength_bounds (i `div` 12) (i `mod` 12 + 1)). unfold monthLen. lia.
  - intros e He. rewrite (occurs_monthly rule st) by (done || lia || by eapply walkHi_afterEnd, He).
    apply (monthly_walk rule p Hp Hi Hy Hm Hmd lo e ltac:(lia) ltac:(lia)
      (fun j => overCount rule (j + 1) = false)).
Qed.

Lemma yearly_visits : cKind rule <> #"weekly" -> cKind rule <> #"daily" -> cKind rule <> #"monthly" ->
  stepsFrom visit rule fuel lo hi (yearlyEpoch rule) (yearlySkip rule p lo) s = visitOccurring rule lo hi s.
Proof using Hvalid Hst Hi Hfuel Hp Hstp Hy Hm Hd Hmd.
  intros Hk1 Hk2 Hk3. rewrite stepsFrom_enum. unfold visitOccurring. do 3 f_equal.
  pose proof lo_start. pose proof lo_from. pose proof hi_to. pose proof (keyDate_ranges p Hp) as Hr.
  assert (0 <= yearlySkip rule p lo) as Hskip by (unfold yearlySkip; lia).
  apply enum_filter.
  - intros i j Hij. apply (yearlyEpoch_mono rule p); done || lia.
  - apply overCount_mono.
  - rewrite (yearlyEpoch_eq rule p) by done. cbn zeta.
    set (i := monthIndex p + _).
    assert (year (civilFromDays lo) - year p <= yearlySkip rule p lo * cInterval rule) as Hc
      by (apply ceil_spec; [done|unfold yearlySkip; lia]).
    destruct (civil_spec lo) as [[Hv _] _].
    assert (monthIndex (civilFromDays lo) - 11 <= i) as Hle by (unfold i, monthIndex; lia).
    pose proof (monthStart_civil lo) as Hms. clearbody i.
    assert (monthStart (monthIndex (civilFromDays lo)) <= monthStart i + 341).
    { replace (monthIndex (civilFromDays lo)) with (monthIndex (civilFromDays lo) - 11 + 11) by lia.
      etrans; [apply (monthStart_11 (monthIndex (civilFromDays lo) - 11))|].
      pose proof (monthStart_le _ _ Hle). lia. }
    pose proof (monthLength_bounds (i `div` 12) (i `mod` 12 + 1)). unfold monthLen. lia.
  - intros e He. rewrite (occurs_yearly rule st) by (done || lia || by eapply walkHi_afterEnd, He).
    apply (yearly_walk rule p Hp Hi Hy Hm Hd lo e ltac:(lia) ltac:(lia)
      (fun j => overCount rule (j + 1) = false)).
Qed.
End Started.
End WalkDays.


Lemma compile_started (r : Repeat) (p : Parts) : validateRepeat r = None -> keyDate p -> startDay r = keyOf p ->
  let rule := compileRepeat r in
  isValid rule = true /\ cStart rule = Some (daysOf p) /\ 0 < cInterval rule /\
  startYear rule = year p /\ startMonth rule = month p /\ startDate rule = date p /\ 1 <= cMonthDay rule /\
  startWeek rule = weekIndexOfEpoch (daysOf p).
Proof.
  intros Hv Hp Hs. destruct (validateRepeat_spec r Hv) as (Hi & _ & Hmd & _). pose proof (keyDate_ranges p Hp).
  assert (isEmpty (startDay r) = false) as He by (rewrite Hs, keyOf_eq by done; done).
  cbn. rewrite He, Hs, parts_keyOf, epochDays_keyOf by done. split_and!; try done; try lia.
  destruct (monthDay r) as [d|]; [specialize (Hmd d eq_refl)|lia]. destruct (Z.eqb_spec d 0); lia.
Qed.

(** Weekly without a first day: every such weekday, whatever the count. *)
Lemma occurs_unstarted (r : Repeat) (e : Z) : validateRepeat r = None -> startDay r = [] ->
  let rule := compileRepeat r in afterEnd rule e = false ->
  occursOnEpoch rule e = negb (Z.land (weekdayMask rule) (bitOf (weekdayOfEpoch e)) =? 0).
Proof.
  intros Hv Hs rule Hend. destruct (validateRepeat_spec r Hv) as (Hi & _ & _ & Hk & Hc). specialize (Hk Hs).
  assert (isValid rule = true /\ cStart rule = None /\ cKind rule = #"weekly") as (E1 & E2 & E3).
  { cbn. rewrite Hs. split_and!; [lia|done|done]. }
  unfold occursOnEpoch, ordinalOfEpoch. rewrite E1, E2, E3. fold (afterEnd rule e). rewrite Hend.
  cbn [negb]. rewrite bool_decide_eq_true_2 by done. destruct (_ =? 0); [done|]. cbn [negb].
  cbn [rule compileRepeat cCount]. destruct (count r) as [c|]; [specialize (Hc c eq_refl)|done].
  destruct (Z.eqb_spec c 0); [lia|]. lia.
Qed.

Lemma validateRepeat_isValid (r : Repeat) : validateRepeat r = None -> isValid (compileRepeat r) = true.
Proof. intros Hv. destruct (validateRepeat_spec r Hv) as [? _]. cbn. lia. Qed.

(** The kernel unfolds the names of this development before the arithmetic. *)
#[local] Strategy expand [monthlySkip yearlySkip weeklySkip monthIndex walkLo walkHi visitOccurring walkDays
  forEachRepeatDay fuelOf].
#[local] Strategy 100 [floorDiv civilFromDays daysFromCivil compileRepeat epochDays keyOfEpoch keyOf
  daysBetween occursOnEpoch Z.max Z.min].

Section Visits.
Context {S : Type} (visit : bytes -> S -> S * bool).

(** The walk of [forEachRepeatDay] once the period is known. *)
Lemma walk_unstarted (r : Repeat) (from to : Z) (fuel : nat) (s : S) :
  validateRepeat r = None -> startDay r = [] -> to - from + 380 < Z.of_nat fuel ->
  let rule := compileRepeat r in
  everyDay visit rule fuel (walkHi rule to) (walkLo rule from) s
  = visitOccurring visit rule (walkLo rule from) (walkHi rule to) s.
Proof.
  intros Hv Hs Hf rule.
  assert (walkLo rule from = from) as -> by (unfold walkLo, rule; cbn; by rewrite Hs).
  pose proof (hi_to rule to). rewrite everyDay_filter by lia. unfold visitOccurring. do 3 f_equal.
  apply sorted_lt_eq; [apply filter_sorted, upTo_sorted..|]. intros e.
  rewrite !list_elem_of_filter, daysBetween_elem, !Is_true_true.
  assert (e <= walkHi rule to -> occursOnEpoch rule e
    = negb (Z.land (weekdayMask rule) (bitOf (weekdayOfEpoch e)) =? 0)) as E.
  { intros He. apply occurs_unstarted; [done..|]. by eapply walkHi_afterEnd. }
  split; intros [H1 H2]; (split; [|done]); rewrite E in * by lia; done.
Qed.

Lemma walk_started (r : Repeat) (p : Parts) (from to : Z) (fuel : nat) (s : S) :
  validateRepeat r = None -> keyDate p -> startDay r = keyOf p -> to - from + 380 < Z.of_nat fuel ->
  let rule := compileRepeat r in let lo := walkLo rule from in let hi := walkHi rule to in
  (if bool_decide (cKind rule = #"weekly") then
     everyWeek visit rule fuel lo hi (startWeek rule + weeklySkip rule lo * cInterval rule) s
   else if bool_decide (cKind rule = #"daily") then
     dailySteps visit rule fuel lo hi (daysOf p + (- floorDiv (- (lo - daysOf p)) (cInterval rule)) * cInterval rule)
       (- floorDiv (- (lo - daysOf p)) (cInterval rule) + 1) s
   else if bool_decide (cKind rule = #"monthly") then
     stepsFrom visit rule fuel lo hi (monthlyEpoch rule) (monthlySkip rule p lo) s
   else stepsFrom visit rule fuel lo hi (yearlyEpoch rule) (yearlySkip rule p lo) s)
  = visitOccurring visit rule lo hi s.
Proof.
  intros Hv Hp Hs Hf rule lo hi.
  destruct (compile_started r p Hv Hp Hs) as (E1 & E2 & E3 & E4 & E5 & E6 & E7 & E8).
  fold rule in E1, E2, E3, E4, E5, E6, E7, E8.
  case_bool_decide as Hk1; [|case_bool_decide as Hk2; [|case_bool_decide as Hk3]].
  - destruct (positions_spec r Hv Hk1) as (P1 & P2 & P3). by eapply weekly_visits.
  - by apply daily_visits.
  - by eapply monthly_visits.
  - by eapply yearly_visits.
Qed.

Lemma walk_cases (r : Repeat) (from to : Z) (fuel : nat) (s : S) :
  validateRepeat r = None -> startDay r = [] \/ realDay (startDay r) -> to - from + 380 < Z.of_nat fuel ->
  let rule := compileRepeat r in let lo := walkLo rule from in let hi := walkHi rule to in
  (cStart rule = None /\ cKind rule = #"weekly" /\
   everyDay visit rule fuel hi lo s = visitOccurring visit rule lo hi s) \/
  (exists p, cStart rule = Some (daysOf p) /\ startYear rule = year p /\ startMonth rule = month p /\
   (if bool_decide (cKind rule = #"weekly") then
      everyWeek visit rule fuel lo hi (startWeek rule + weeklySkip rule lo * cInterval rule) s
    else if bool_decide (cKind rule = #"daily") then
      dailySteps visit rule fuel lo hi (daysOf p + (- floorDiv (- (lo - daysOf p)) (cInterval rule)) * cInterval rule)
        (- floorDiv (- (lo - daysOf p)) (cInterval rule) + 1) s
    else if bool_decide (cKind rule = #"monthly") then
      stepsFrom visit rule fuel lo hi (monthlyEpoch rule) (monthlySkip rule p lo) s
    else stepsFrom visit rule fuel lo hi (yearlyEpoch rule) (yearlySkip rule p lo) s)
   = visitOccurring visit rule lo hi s).
Proof.
  intros Hv [Hs|(p & Hp & Hs)] Hf; [left|right; exists p].
  - destruct (validateRepeat_spec r Hv) as (_ & _ & _ & Hk & _). split_and!.
    + cbn. by rewrite Hs.
    + by apply Hk.
    + by apply walk_unstarted.
  - destruct (compile_started r p Hv Hp Hs) as (_ & E2 & _ & E4 & E5 & _). split_and!; [done..|].
    by apply walk_started.
Qed.

Lemma walkDays_days (rule : CompiledRepeat) (from to : Z) (fuel : nat) (s : S) :
  let lo := walkLo rule from in let hi := walkHi rule to in
  (cStart rule = None /\ cKind rule = #"weekly" /\
   everyDay visit rule fuel hi lo s = visitOccurring visit rule lo hi s) \/
  (exists p, cStart rule = Some (daysOf p) /\ startYear rule = year p /\ startMonth rule = month p /\
   (if bool_decide (cKind rule = #"weekly") then
      everyWeek visit rule fuel lo hi (startWeek rule + weeklySkip rule lo * cInterval rule) s
    else if bool_decide (cKind rule = #"daily") then
      dailySteps visit rule fuel lo hi (daysOf p + (- floorDiv (- (lo - daysOf p)) (cInterval rule)) * cInterval rule)
        (- floorDiv (- (lo - daysOf p)) (cInterval rule) + 1) s
    else if bool_decide (cKind rule = #"monthly") then
      stepsFrom visit rule fuel lo hi (monthlyEpoch rule) (monthlySkip rule p lo) s
    else stepsFrom visit rule fuel lo hi (yearlyEpoch rule) (yearlySkip rule p lo) s)
   = visitOccurring visit rule lo hi s) ->
  walkDays visit rule fuel from to s = visitOccurring visit rule lo hi s.
Proof.
  intros lo hi W. unfold walkDays. fold (walkLo rule from) (walkHi rule to). fold lo hi. clearbody lo hi.
  destruct (Z.ltb_spec hi lo); [unfold visitOccurring; by rewrite daysBetween_empty|].
  destruct W as [(E2 & E3 & W)|(p & E2 & E4 & E5 & W)]; rewrite E2.
  - by rewrite E3, bool_decide_eq_true_2.
  - unfold monthlySkip, yearlySkip, weeklySkip, monthIndex in W. rewrite E4, E5. exact W.
Qed.

Lemma forEachRepeatDay_days (r : Repeat) (a b : Parts) (fuel : nat) (s : S) :
  wellFormed r -> keyDate a -> keyDate b -> (fuelOf (keyOf a) (keyOf b) <= fuel)%nat ->
  forEachRepeatDay visit fuel r (keyOf a) (keyOf b) s
  = visitOccurring visit (compileRepeat r) (daysOf a) (daysOf b) s.
Proof.
  intros [Hv Hs] Ha Hb Hf. unfold fuelOf in Hf. rewrite !epochDays_keyOf in Hf by done.
  assert (visitOccurring visit (compileRepeat r) (daysOf a) (daysOf b) s =
    visitOccurring visit (compileRepeat r) (walkLo (compileRepeat r) (daysOf a)) (walkHi (compileRepeat r) (daysOf b)) s)
    as -> by (unfold visitOccurring; by rewrite walk_narrow).
  unfold forEachRepeatDay.  rewrite !epochDays_keyOf, blt_keyOf by done.
  assert (isValid (compileRepeat r) = true) as -> by (apply validateRepeat_isValid, Hv).
  cbn [negb orb]. destruct (Z.ltb_spec (daysOf b) (daysOf a)).
  - unfold visitOccurring. rewrite daysBetween_empty; [done|].
    pose proof (hi_to (compileRepeat r) (daysOf b)).
    assert (daysOf a <= walkLo (compileRepeat r) (daysOf a)) by (unfold walkLo; destruct (cStart _); lia). lia.
  - apply walkDays_days. apply walk_cases; [done..|lia].
Qed.
End Visits.


(** The keys of the days of a period. *)
Definition keysBetween (a b : Parts) : list bytes := keyOfEpoch <$> daysBetween (daysOf a) (daysOf b).

Lemma keysBetween_keyDay (a b : Parts) (e : Z) : keyDate a -> keyDate b -> e ∈ daysBetween (daysOf a) (daysOf b) -> keyDay e.
Proof.
  intros Ha Hb He%daysBetween_elem. destruct (keyOf_epoch a Ha) as [_ [H1 _]], (keyOf_epoch b Hb) as [_ [_ H2]].
  split; lia.
Qed.

Lemma occursOn_key (r : Repeat) (e : Z) : keyDay e -> occursOn r (keyOfEpoch e) = occursOnEpoch (compileRepeat r) e.
Proof. intros He. unfold occursOn. by rewrite isDayKey_keyOfEpoch, epochDays_keyOfEpoch. Qed.

Lemma filter_fmap_on {A B} (f : A -> B) (P : A -> bool) (Q : B -> bool) (l : list A) :
  (forall x, x ∈ l -> Q (f x) = P x) -> f <$> filter P l = filter Q (f <$> l).
Proof.
  induction l as [|x l IH]; intros H; [done|]. rewrite fmap_cons, !filter_cons.
  pose proof (H x ltac:(left)) as Hx. rewrite <- IH by (intros y Hy; apply H; by right).
  destruct (decide (P x)) as [HP|HP], (decide (Q (f x))) as [HQ|HQ]; try done; rewrite Hx in HQ; done.
Qed.

Lemma occurring_keys (r : Repeat) (a b : Parts) : keyDate a -> keyDate b ->
  keyOfEpoch <$> filter (occursOnEpoch (compileRepeat r)) (daysBetween (daysOf a) (daysOf b))
  = filter (occursOn r) (keysBetween a b).
Proof.
  intros Ha Hb. apply filter_fmap_on. intros e He. apply occursOn_key. by eapply (keysBetween_keyDay a b).
Qed.

(** Collecting the days one asks for. *)
Lemma visitAll_collect (Q : bytes -> bool) (l acc : list bytes) :
  visitAll (fun day days => (if Q day then days ++ [day] else days, false)) l acc = (acc ++ filter Q l, false).
Proof.
  revert acc. induction l as [|d l IH]; intros acc; cbn [visitAll]; [by rewrite app_nil_r|].
  rewrite IH, filter_cons. destruct (Q d) eqn:E.
  - rewrite decide_True by done. by rewrite <- app_assoc.
  - by rewrite decide_False by (cbn; congruence).
Qed.

(** Searching for the first day one asks for. *)
Lemma filter_filter_bool {A} (P Q : A -> bool) (l : list A) :
  filter P (filter Q l) = filter (fun x => Q x && P x) l.
Proof.
  induction l as [|x l IH]; [done|]. rewrite !filter_cons.
  destruct (Q x) eqn:EQ.
  - rewrite (decide_True (P := Is_true true)) by done. rewrite filter_cons, IH. cbn [andb]. done.
  - rewrite (decide_False (P := Is_true false)) by (cbn; tauto). cbn [andb].
    by rewrite (decide_False (P := Is_true false)) by (cbn; tauto).
Qed.

(** Collecting the days of a period that [Q] lets through. *)
Lemma collect_days (Q : bytes -> bool) (r : Repeat) (a b : Parts) : wellFormed r -> keyDate a -> keyDate b ->
  forEachRepeatDay (fun day days => (if Q day then days ++ [day] else days, false)) (fuelOf (keyOf a) (keyOf b)) r
    (keyOf a) (keyOf b) [] = filter (fun d => occursOn r d && Q d) (keysBetween a b).
Proof.
  intros Hr Ha Hb. rewrite forEachRepeatDay_days by (done || lia). unfold visitOccurring.
  rewrite occurring_keys, visitAll_collect by done. cbn [fst app]. apply filter_filter_bool.
Qed.

Lemma expandRepeat_days (r : Repeat) (a b : Parts) : wellFormed r -> keyDate a -> keyDate b ->
  expandRepeat r (keyOf a) (keyOf b) = filter (occursOn r) (keysBetween a b).
Proof.
  intros Hr Ha Hb. unfold expandRepeat. rewrite (collect_days (fun _ => true)) by done.
  apply list_filter_iff. intros x. by rewrite andb_true_r.
Qed.

Lemma visitAll_search (Q : bytes -> bool) (visit : bytes -> option bytes -> option bytes * bool) (l : list bytes) :
  (forall d f, visit d f = if Q d then (Some d, true) else (f, false)) ->
  (visitAll visit l None).1 = head (filter Q l).
Proof.
  intros H. induction l as [|d l IH]; cbn [visitAll]; [done|].
  rewrite H, filter_cons. destruct (Q d) eqn:E; [by rewrite decide_True by done|].
  rewrite IH. by rewrite decide_False by (cbn; congruence).
Qed.

(** *** Marks *)

Lemma occurrenceIn_cons (o : Occurrence) (l : list Occurrence) (d : bytes) :
  occurrenceIn (o :: l) d = if bool_decide (oDay o = d) then Some o else occurrenceIn l d.
Proof.
  unfold occurrenceIn. cbn [list_find]. case_bool_decide as E.
  - by rewrite decide_True.
  - rewrite decide_False by done. by destruct (list_find _ l) as [[i x]|].
Qed.

Lemma occurrenceIn_insertByDay (o : Occurrence) (l : list Occurrence) (d : bytes) :
  occurrenceIn (insertByDay o l) d = occurrenceIn (o :: l) d.
Proof.
  induction l as [|o' l IH]; cbn [insertByDay]; [done|].
  destruct (blt (oDay o') (oDay o)) eqn:E; [|done].
  rewrite occurrenceIn_cons, IH, !occurrenceIn_cons. do 2 case_bool_decide; subst; try done.
  apply blt_ne in E. congruence.
Qed.

Lemma occurrenceIn_sortByDay (l : list Occurrence) (d : bytes) : occurrenceIn (sortByDay l) d = occurrenceIn l d.
Proof.
  induction l as [|o l IH]; [done|]. change (sortByDay (o :: l)) with (insertByDay o (sortByDay l)).
  by rewrite occurrenceIn_insertByDay, !occurrenceIn_cons, IH.
Qed.

Definition dayLe (a b : Occurrence) : Prop := blt (oDay b) (oDay a) = false.

Lemma insertByDay_elem (o : Occurrence) (l : list Occurrence) x : x ∈ insertByDay o l <-> x = o \/ x ∈ l.
Proof.
  induction l as [|o' l IH]; cbn [insertByDay]; [by rewrite list_elem_of_singleton, elem_of_nil; tauto|].
  destruct (blt _ _); rewrite !elem_of_cons, ?IH; tauto.
Qed.

Lemma sortByDay_sorted (l : list Occurrence) : StronglySorted dayLe (sortByDay l).
Proof.
  induction l as [|o l IH]; [constructor|]. change (sortByDay (o :: l)) with (insertByDay o (sortByDay l)).
  induction IH as [|o' k Hs IHk Hk]; cbn [insertByDay]; [by repeat constructor|].
  destruct (blt (oDay o') (oDay o)) eqn:E.
  - constructor; [done|]. apply Forall_elem. intros x [->|Hx]%insertByDay_elem; [|by rewrite Forall_elem in Hk; apply Hk].
    by apply blt_asym.
  - constructor; [by constructor|]. constructor; [done|]. rewrite Forall_elem in *. intros x Hx. specialize (Hk x Hx).
    unfold dayLe in *. destruct (blt (oDay x) (oDay o)) eqn:E2; [|done].
    destruct (blt (oDay o) (oDay o')) eqn:E3.
    + by rewrite (blt_trans (oDay x) (oDay o) (oDay o')) in Hk.
    + assert (oDay o' = oDay o) as E4 by (by apply blt_total). by rewrite E4, E2 in Hk.
Qed.

Lemma occurrenceIn_insert (os : list Occurrence) (i : nat) (o o' : Occurrence) (d : bytes) :
  list_find (fun x => oDay x = d) os = Some (i, o) -> oDay o' = d ->
  forall d', occurrenceIn (<[i := o']> os) d' = if bool_decide (d = d') then Some o' else occurrenceIn os d'.
Proof.
  revert i. induction os as [|x os IH]; intros i; cbn [list_find]; [done|].
  destruct (decide (oDay x = d)) as [E|E].
  - intros [= <- <-] Ho d'. cbn [insert list_insert]. rewrite !occurrenceIn_cons, Ho, E. by case_bool_decide.
  - destruct (list_find _ os) as [[j y]|] eqn:Ef; [|done].
    intros Heq Ho d'. cbn in Heq. injection Heq as <- <-.
    cbn [insert list_insert]. rewrite !occurrenceIn_cons, (IH j) by done.
    destruct (bool_decide_reflect (oDay x = d')), (bool_decide_reflect (d = d')); congruence.
Qed.

Lemma occurrenceIn_snoc (os : list Occurrence) (o : Occurrence) (d' : bytes) :
  list_find (fun x => oDay x = oDay o) os = None ->
  occurrenceIn (os ++ [o]) d' = if bool_decide (oDay o = d') then Some o else occurrenceIn os d'.
Proof.
  induction os as [|x os IH]; intros Hf; cbn [app].
  - rewrite occurrenceIn_cons. done.
  - cbn [list_find] in Hf. destruct (decide (oDay x = oDay o)); [done|].
    rewrite !occurrenceIn_cons, IH;
      [destruct (bool_decide_reflect (oDay x = d')), (bool_decide_reflect (oDay o = d')); congruence|].
    by destruct (list_find _ os) as [[? ?]|].
Qed.

(** ** Theorems *)

(** Claim C2 (walk_is_naive): on a valid rule the walk by steps of the rule
    visits exactly the days of the period on which the rule occurs, each once
    and in order, whatever the visitor does and whenever it stops; the fuel of
    [fuelOf] is enough and more fuel changes nothing. *)
Theorem walk_is_naive {S} (visit : bytes -> S -> S * bool) (r : Repeat) (a b : Parts) (fuel : nat) (s : S) :
  wellFormed r -> keyDate a -> keyDate b -> (fuelOf (keyOf a) (keyOf b) <= fuel)%nat ->
  forEachRepeatDay visit fuel r (keyOf a) (keyOf b) s
  = (visitAll visit (filter (occursOn r) (keysBetween a b)) s).1.
Proof.
  intros Hr Ha Hb Hf. rewrite forEachRepeatDay_days by done. unfold visitOccurring. by rewrite occurring_keys.
Qed.

(** Every other month from 31 January, four times. *)
Definition sampleRule : Repeat :=
  {| kind := #"monthly"; interval := 2; weekdays := None; monthDay := None; startDay := #"2026-01-31";
     endDay := None; count := Some 4 |}.
Definition sampleFrom : Parts := {| year := 2026; month := 2; date := 1 |}.
Definition sampleTo : Parts := {| year := 2026; month := 12; date := 31 |}.

Lemma keyDate_check (p : Parts) :
  (1 <=? month p) && (month p <=? 12) && (1 <=? date p) && (date p <=? monthLength (year p) (month p))
  && (1000 <=? year p) && (year p <=? 9999) = true -> keyDate p.
Proof. unfold keyDate, validDate. lia. Qed.

Lemma sampleRule_wellFormed : wellFormed sampleRule.
Proof.
  split; [reflexivity|]. right. exists {| year := 2026; month := 1; date := 31 |}.
  split; [by apply keyDate_check|reflexivity].
Qed.

Lemma walk_is_naive_witness :
  forEachRepeatDay (fun d n => (Datatypes.S n, false)) 1000 sampleRule (keyOf sampleFrom) (keyOf sampleTo) 0%nat
  = (visitAll (fun d n => (Datatypes.S n, false)) (filter (occursOn sampleRule) (keysBetween sampleFrom sampleTo)) 0%nat).1
  /\ expandRepeat sampleRule (keyOf sampleFrom) (keyOf sampleTo) = [ #"2026-03-31"; #"2026-05-31"; #"2026-07-31"].
Proof.
  split; [|vm_compute; reflexivity]. apply walk_is_naive; [apply sampleRule_wellFormed|by apply keyDate_check..|].
  apply Nat.leb_le. vm_compute. reflexivity.
Defined.

(** Property (instances_agree): the days listed for a period are the days of
    the period, in order, that are asked one by one: for a rule by [occursOn],
    for a task by [hasInstanceOn], its excluded days left out. *)
Theorem instances_agree (t : Task) (r : Repeat) (a b : Parts) :
  repeat_ t = Some r -> wellFormed r -> keyDate a -> keyDate b ->
  expandRepeat r (keyOf a) (keyOf b) = filter (occursOn r) (keysBetween a b) /\
  instancesOf t (keyOf a) (keyOf b) = filter (instanceOn t) (keysBetween a b).
Proof.
  intros Ht Hr Ha Hb. split; [by apply expandRepeat_days|].
  unfold instancesOf. rewrite Ht, (collect_days _ r a b) by done.
  apply list_filter_iff. intros x. unfold instanceOn. by rewrite Ht.
Qed.

Definition sampleTask (os : list Occurrence) : Task :=
  {| id := #"t"; name := #"Rent"; description := []; steps := [{| text := #"pay"; isDone := false |}];
     status := #"queue"; project := []; rank := 0; tDay := None; tStart := None; due := None; minutes := None;
     repeat_ := Some sampleRule; occurrences := Some os; origin := None; source := None; remind := None;
     instanceDay := None |}.

Definition sampleMarks : list Occurrence :=
  [{| oDay := #"2026-03-31"; excluded := Some true; done_ := None; doneSteps := None |};
   {| oDay := #"2026-05-31"; excluded := None; done_ := Some true; doneSteps := Some [0] |}].

Lemma instances_agree_witness :
  (expandRepeat sampleRule (keyOf sampleFrom) (keyOf sampleTo)
     = filter (occursOn sampleRule) (keysBetween sampleFrom sampleTo) /\
   instancesOf (sampleTask sampleMarks) (keyOf sampleFrom) (keyOf sampleTo)
     = filter (instanceOn (sampleTask sampleMarks)) (keysBetween sampleFrom sampleTo)) /\
  instancesOf (sampleTask sampleMarks) (keyOf sampleFrom) (keyOf sampleTo) = [ #"2026-05-31"; #"2026-07-31"].
Proof.
  split; [|vm_compute; reflexivity].
  apply instances_agree; [reflexivity|apply sampleRule_wellFormed|by apply keyDate_check..].
Defined.

Definition isOpen (t : Task) (day : bytes) : bool := instanceOn t day && negb (isInstanceDone t day).

(** Property (next_open_first): the next open instance of a series is its
    instance on the first day, within a year from today, that has an instance
    neither excluded nor done; it is found exactly when there is one. *)
Theorem next_open_first (t : Task) (r : Repeat) (a b : Parts) :
  repeat_ t = Some r -> wellFormed r -> keyDate a -> keyDate b -> daysOf b = daysOf a + 365 ->
  nextOpenInstance t (keyOf a) = taskInstance t <$> head (filter (isOpen t) (keysBetween a b)).
Proof.
  intros Ht Hr Ha Hb E. unfold nextOpenInstance. rewrite Ht.
  assert (addDays (keyOf a) (kRepeatHorizonDays - 1) = keyOf b) as ->.
  { unfold addDays. rewrite epochDays_keyOf by done. change (kRepeatHorizonDays - 1) with 365.
    rewrite <- E. by apply keyOf_epoch. }
  rewrite forEachRepeatDay_days by (done || lia). unfold visitOccurring. rewrite occurring_keys by done.
  set (Q := fun day => negb (isExcluded (occurrenceOf t day)) && negb (isInstanceDone t day)).
  rewrite (visitAll_search Q).
  - rewrite filter_filter_bool. do 2 f_equal. apply list_filter_iff. intros x.
    unfold isOpen, instanceOn, Q. rewrite Ht. by rewrite andb_assoc.
  - intros d f. unfold Q, isExcluded, isInstanceDone. destruct (occurrenceOf t d) as [o|]; [|done].
    by destruct (default false (excluded o)), (default false (done_ o)).
Qed.

Lemma next_open_first_witness :
  nextOpenInstance (sampleTask sampleMarks) (keyOf sampleFrom) =
    taskInstance (sampleTask sampleMarks) <$>
    head (filter (isOpen (sampleTask sampleMarks)) (keysBetween sampleFrom {| year := 2027; month := 2; date := 1 |}))
  /\ (tDay <$> nextOpenInstance (sampleTask sampleMarks) (keyOf sampleFrom)) = Some (Some #"2026-07-31").
Proof.
  split; [|vm_compute; reflexivity].
  eapply next_open_first; [reflexivity|apply sampleRule_wellFormed|by apply keyDate_check..|reflexivity].
Defined.

(** Property (mark_one_day): marking the instance of a day changes the mark of
    that day only, keeps what the patch leaves out, and leaves the marks in the
    order of days. *)
Theorem mark_one_day (os : list Occurrence) (day : bytes) (patch : OccurrencePatch) :
  let os' := setOccurrenceIn os day patch in
  let old := default {| oDay := []; excluded := None; done_ := None; doneSteps := None |} (occurrenceIn os day) in
  occurrenceIn os' day = Some (patched old day patch) /\
  (forall d, d <> day -> occurrenceIn os' d = occurrenceIn os d) /\
  StronglySorted dayLe os'.
Proof.
  cbn zeta. unfold setOccurrenceIn. split_and!; [| |apply sortByDay_sorted].
  - rewrite occurrenceIn_sortByDay. unfold occurrenceIn at 2.
    destruct (list_find _ os) as [[i o]|] eqn:E; cbn [fmap option_fmap option_map snd default].
    + rewrite (occurrenceIn_insert _ _ _ _ _ E) by done. by rewrite bool_decide_eq_true_2.
    + rewrite occurrenceIn_snoc by done. by rewrite bool_decide_eq_true_2.
  - intros d Hd. rewrite occurrenceIn_sortByDay. destruct (list_find _ os) as [[i o]|] eqn:E.
    + rewrite (occurrenceIn_insert _ _ _ _ _ E) by done. by rewrite bool_decide_eq_false_2.
    + rewrite occurrenceIn_snoc by done. by rewrite bool_decide_eq_false_2.
Qed.

(** The count of a monthly series whose day of month is before its first day:
    the month of the first day has ordinal 1 and no instance, so a series of
    three has two. *)
Lemma monthly_count_short :
  let r := {| kind := #"monthly"; interval := 1; weekdays := None; monthDay := Some 5; startDay := #"2026-01-10";
              endDay := None; count := Some 3 |} in
  validateRepeat r = None /\
  expandRepeat r #"2026-01-01" #"2026-12-31" = [ #"2026-02-05"; #"2026-03-05"].
Proof. vm_compute. done. Qed.


End Repeats.
