(* ===== verification/PlannerState.v ===== *)
(** * PlannerState: the state of the planner and partial edits of its entries

    Module [Planner] models the data of [include/parvane/sections/planner_types.h]
    that entries are made of (the repeats and tasks are in [Repeat]), the edits
    with three states per field ([PatchField], [RepeatPatch], [ItemPatch]) and
    their application ([applyPatch] of [src/sections/planner_model.cpp]). What
    the templates of the sources ask of their parameter [T] (a task or an
    event) is the class [Entry]; its laws are the class [EntryLaws]. *)

From S2P Require Import Prelude Json PlannerUtil Calendar Repeat.
Import Util Calendar Repeats.

#[local] Open Scope Z_scope.

Module Planner.

(** ** Data *)

Record Event := {
  eId : bytes;
  eName : bytes;
  eDescription : option bytes;
  eStart : bytes;
  eEnd : bytes;
  eDay : option bytes;
  eRepeat : option Repeat;
  eOccurrences : option (list Occurrence);
  eOrigin : option Origin;
  eInstanceDay : option bytes;
  isAllDay : option bool;
  isHoliday : option bool;
  color : option Z;
  eRemind : option Z;
  eProject : option bytes
}.

Record Settings := { dayStart : Z; dayEnd : Z; lunchStart : Z; lunchEnd : Z; margin : Z }.

Definition defaultSettings : Settings :=
  {| dayStart := 9 * 60; dayEnd := 21 * 60; lunchStart := 13 * 60; lunchEnd := 14 * 60; margin := 15 |}.

(** [order] is a double that is only set, to a number of lists. *)
Record TaskList := { lId : bytes; lName : bytes; lOrder : Z; lColor : option Z }.

(** The part of the state that entries, days, groups and reminders use; the
    records of nutrition, health and learned words are left out. *)
Record State := {
  tasks : list Task;
  events : list Event;
  projects : list bytes;
  lists : list TaskList;
  budget : Z;
  settings : Settings;
  reminded : list bytes
}.

Definition setTasks (s : State) (l : list Task) : State :=
  {| tasks := l; events := events s; projects := projects s; lists := lists s; budget := budget s;
     settings := settings s; reminded := reminded s |}.
Definition setEvents (s : State) (l : list Event) : State :=
  {| tasks := tasks s; events := l; projects := projects s; lists := lists s; budget := budget s;
     settings := settings s; reminded := reminded s |}.
Definition setProjects (s : State) (l : list bytes) : State :=
  {| tasks := tasks s; events := events s; projects := l; lists := lists s; budget := budget s;
     settings := settings s; reminded := reminded s |}.
Definition setLists (s : State) (l : list TaskList) : State :=
  {| tasks := tasks s; events := events s; projects := projects s; lists := l; budget := budget s;
     settings := settings s; reminded := reminded s |}.

(** ** Partial edits

    [None]: the field is left alone; [Some None]: it becomes undefined. *)

Definition PatchField (A : Type) : Type := option (option A).

Definition undefinedField {A} : PatchField A := Some None.

Record RepeatPatch := {
  rpKind : PatchField bytes;
  rpInterval : PatchField Z;
  rpWeekdays : PatchField (list Z);
  rpMonthDay : PatchField Z;
  rpStartDay : PatchField bytes;
  rpEndDay : PatchField bytes;
  rpCount : PatchField Z
}.

Definition setTo {A} (a : A) : PatchField A := Some (Some a).

(** All keys of a rule: an empty optional field becomes undefined. *)
Definition patchOf (r : Repeat) : RepeatPatch :=
  {| rpKind := setTo (kind r); rpInterval := setTo (interval r); rpWeekdays := Some (weekdays r);
     rpMonthDay := Some (monthDay r); rpStartDay := setTo (startDay r); rpEndDay := Some (endDay r);
     rpCount := Some (count r) |}.

(** The field of the record, [d] for an undefined value. *)
Definition field {A} (f : PatchField A) (d old : A) : A :=
  match f with None => old | Some v => default d v end.
Definition optField {A} (f : PatchField A) (old : option A) : option A :=
  match f with None => old | Some v => v end.

Definition applyRepeatPatch (base : Repeat) (p : RepeatPatch) : Repeat :=
  {| kind := field (rpKind p) [] (kind base); interval := field (rpInterval p) 0 (interval base);
     weekdays := optField (rpWeekdays p) (weekdays base); monthDay := optField (rpMonthDay p) (monthDay base);
     startDay := field (rpStartDay p) [] (startDay base); endDay := optField (rpEndDay p) (endDay base);
     count := optField (rpCount p) (count base) |}.

(** [Repeat{}]. *)
Definition emptyRepeat : Repeat :=
  {| kind := #"daily"; interval := 1; weekdays := None; monthDay := None; startDay := []; endDay := None;
     count := None |}.

Record ItemPatch := {
  pName : PatchField bytes;
  pDescription : PatchField bytes;
  pStart : PatchField bytes;
  pEnd : PatchField bytes;
  pDay : PatchField bytes;
  pDue : PatchField bytes;
  pStatus : PatchField bytes;
  pProject : PatchField bytes;
  pMinutes : PatchField Z;
  pColor : PatchField Z;
  pRemind : PatchField Z;
  pRank : PatchField Z;
  pAllDay : PatchField bool;
  pHoliday : PatchField bool;
  pSteps : PatchField (list Step);
  pSource : PatchField Source;
  pRepeat : PatchField RepeatPatch
}.

Definition noPatch : ItemPatch :=
  {| pName := None; pDescription := None; pStart := None; pEnd := None; pDay := None; pDue := None;
     pStatus := None; pProject := None; pMinutes := None; pColor := None; pRemind := None; pRank := None;
     pAllDay := None; pHoliday := None; pSteps := None; pSource := None; pRepeat := None |}.

(** [toJson().empty()]. *)
Definition isSet {A} (f : PatchField A) : bool := match f with Some _ => true | None => false end.
Definition emptyPatch (p : ItemPatch) : bool :=
  negb (isSet (pName p) || isSet (pDescription p) || isSet (pStart p) || isSet (pEnd p) || isSet (pDay p)
        || isSet (pDue p) || isSet (pStatus p) || isSet (pProject p) || isSet (pMinutes p) || isSet (pColor p)
        || isSet (pRemind p) || isSet (pRank p) || isSet (pAllDay p) || isSet (pHoliday p) || isSet (pSteps p)
        || isSet (pSource p) || isSet (pRepeat p)).

(** The field [repeat] of an entry: a given rule starts from [Repeat{}]. *)
Definition repeatField (f : PatchField RepeatPatch) (old : option Repeat) : option Repeat :=
  match f with None => old | Some None => None | Some (Some p) => Some (applyRepeatPatch emptyRepeat p) end.

Definition patchTask (t : Task) (p : ItemPatch) : Task :=
  {| id := id t; name := field (pName p) [] (name t);
     description := field (pDescription p) [] (description t);
     steps := field (pSteps p) [] (steps t); status := field (pStatus p) #"queue" (status t);
     project := field (pProject p) [] (project t); rank := field (pRank p) 0 (rank t);
     tDay := optField (pDay p) (tDay t); tStart := optField (pStart p) (tStart t);
     due := optField (pDue p) (due t); minutes := optField (pMinutes p) (minutes t);
     repeat_ := repeatField (pRepeat p) (repeat_ t); occurrences := occurrences t; origin := origin t;
     source := optField (pSource p) (source t); remind := optField (pRemind p) (remind t);
     instanceDay := instanceDay t |}.

Definition patchEvent (e : Event) (p : ItemPatch) : Event :=
  {| eId := eId e; eName := field (pName p) [] (eName e);
     eDescription := optField (pDescription p) (eDescription e);
     eStart := field (pStart p) [] (eStart e); eEnd := field (pEnd p) [] (eEnd e);
     eDay := optField (pDay p) (eDay e); eRepeat := repeatField (pRepeat p) (eRepeat e);
     eOccurrences := eOccurrences e; eOrigin := eOrigin e; eInstanceDay := eInstanceDay e;
     isAllDay := optField (pAllDay p) (isAllDay e); isHoliday := optField (pHoliday p) (isHoliday e);
     color := optField (pColor p) (color e); eRemind := optField (pRemind p) (eRemind e);
     eProject := optField (pProject p) (eProject e) |}.

(** ** What a template of the sources asks of its parameter *)

Inductive SeriesKind := TaskKind | EventKind.
#[export] Instance SeriesKind_eq_dec : EqDecision SeriesKind.
Proof. solve_decision. Defined.

(** [std::variant<Task, Event>]. *)
Inductive SeriesItem := TaskItem (t : Task) | EventItem (e : Event).

(** The members that the templates read and write; [applyPatch] and
    [writeDescription] are overloaded in the sources, [detachable] is the record
    that [detachInstance] copies ([taskInstance] for a task), [renew] what the
    [if constexpr] of [splitIn] does, and [itemsOf] picks the list of the state. *)
Class Entry (T : Type) := {
  itemId : T -> bytes;
  repeatOf : T -> option Repeat;
  occurrencesOf : T -> option (list Occurrence);
  originOf : T -> option Origin;
  instanceDayOf : T -> option bytes;
  dayOf : T -> option bytes;
  textOf : T -> bytes;
  setId : bytes -> T -> T;
  setRepeat : option Repeat -> T -> T;
  setOccurrences : option (list Occurrence) -> T -> T;
  setOrigin : option Origin -> T -> T;
  setInstanceDay : option bytes -> T -> T;
  setDay : option bytes -> T -> T;
  writeDescription : bytes -> T -> T;
  applyPatch : ItemPatch -> T -> T;
  instanceFor : T -> bytes -> T;
  detachable : T -> bytes -> T;
  renew : T -> T;
  itemsOf : State -> list T;
  setItems : State -> list T -> State;
  inject : T -> SeriesItem;
  kindOf : SeriesKind
}.
#[global] Arguments kindOf T {_}.

(** A task with some members replaced. *)
Definition taskWith (t : Task) (i d : bytes) (day : option bytes) (r : option Repeat)
    (os : option (list Occurrence)) (o : option Origin) (inst : option bytes) (st : bytes) : Task :=
  {| id := i; name := name t; description := d; steps := steps t; status := st; project := project t;
     rank := rank t; tDay := day; tStart := tStart t; due := due t; minutes := minutes t; repeat_ := r;
     occurrences := os; origin := o; source := source t; remind := remind t; instanceDay := inst |}.

Definition eventWith (e : Event) (i : bytes) (d : option bytes) (day : option bytes) (r : option Repeat)
    (os : option (list Occurrence)) (o : option Origin) (inst : option bytes) : Event :=
  {| eId := i; eName := eName e; eDescription := d; eStart := eStart e; eEnd := eEnd e; eDay := day;
     eRepeat := r; eOccurrences := os; eOrigin := o; eInstanceDay := inst; isAllDay := isAllDay e;
     isHoliday := isHoliday e; color := color e; eRemind := eRemind e; eProject := eProject e |}.

Definition eventInstance (e : Event) (day : bytes) : Event :=
  eventWith e (eId e) (eDescription e) (Some day) (eRepeat e) (eOccurrences e) (eOrigin e) (Some day).

Definition writeTaskDescription (d : bytes) (t : Task) : Task :=
  taskWith t (id t) d (tDay t) (repeat_ t) (occurrences t) (origin t) (instanceDay t) (status t).

(** An event without a description has none. *)
Definition writeEventDescription (d : bytes) (e : Event) : Event :=
  eventWith e (eId e) (if isEmpty d then None else Some d) (eDay e) (eRepeat e) (eOccurrences e) (eOrigin e)
    (eInstanceDay e).

#[export] Instance task_entry : Entry Task := {|
  itemId := id; repeatOf := repeat_; occurrencesOf := occurrences; originOf := origin;
  instanceDayOf := instanceDay; dayOf := tDay; textOf := description;
  setId := fun i t => taskWith t i (description t) (tDay t) (repeat_ t) (occurrences t) (origin t) (instanceDay t) (status t);
  setRepeat := fun r t => taskWith t (id t) (description t) (tDay t) r (occurrences t) (origin t) (instanceDay t) (status t);
  setOccurrences := fun os t =>
    taskWith t (id t) (description t) (tDay t) (repeat_ t) os (origin t) (instanceDay t) (status t);
  setOrigin := fun o t =>
    taskWith t (id t) (description t) (tDay t) (repeat_ t) (occurrences t) o (instanceDay t) (status t);
  setInstanceDay := fun d t =>
    taskWith t (id t) (description t) (tDay t) (repeat_ t) (occurrences t) (origin t) d (status t);
  setDay := fun d t =>
    taskWith t (id t) (description t) d (repeat_ t) (occurrences t) (origin t) (instanceDay t) (status t);
  writeDescription := writeTaskDescription;
  applyPatch := fun p t => patchTask t p;
  instanceFor := taskInstance;
  detachable := taskInstance;
  renew := fun t =>
    taskWith t (id t) (description t) None (repeat_ t) (occurrences t) (origin t) (instanceDay t) #"queue";
  itemsOf := tasks; setItems := setTasks; inject := TaskItem; kindOf := TaskKind
|}.

#[export] Instance event_entry : Entry Event := {|
  itemId := eId; repeatOf := eRepeat; occurrencesOf := eOccurrences; originOf := eOrigin;
  instanceDayOf := eInstanceDay; dayOf := eDay; textOf := fun e => default [] (eDescription e);
  setId := fun i e => eventWith e i (eDescription e) (eDay e) (eRepeat e) (eOccurrences e) (eOrigin e) (eInstanceDay e);
  setRepeat := fun r e => eventWith e (eId e) (eDescription e) (eDay e) r (eOccurrences e) (eOrigin e) (eInstanceDay e);
  setOccurrences := fun os e => eventWith e (eId e) (eDescription e) (eDay e) (eRepeat e) os (eOrigin e) (eInstanceDay e);
  setOrigin := fun o e => eventWith e (eId e) (eDescription e) (eDay e) (eRepeat e) (eOccurrences e) o (eInstanceDay e);
  setInstanceDay := fun d e => eventWith e (eId e) (eDescription e) (eDay e) (eRepeat e) (eOccurrences e) (eOrigin e) d;
  setDay := fun d e => eventWith e (eId e) (eDescription e) d (eRepeat e) (eOccurrences e) (eOrigin e) (eInstanceDay e);
  writeDescription := writeEventDescription;
  applyPatch := fun p e => patchEvent e p;
  instanceFor := eventInstance;
  detachable := fun e _ => e;
  renew := fun e => e;
  itemsOf := events; setItems := setEvents; inject := EventItem; kindOf := EventKind
|}.

(** ** Instances of an entry *)

Section Instances.
Context `{Entry T}.

Definition getOccurrence (item : T) (day : bytes) : option Occurrence :=
  match occurrencesOf item with None => None | Some os => occurrenceIn os day end.

Definition expandInstances (item : T) (fromDay toDay : bytes) : list bytes :=
  match repeatOf item with
  | None => []
  | Some r =>
      forEachRepeatDay (fun day days =>
          (if negb (isExcluded (getOccurrence item day)) then days ++ [day] else days, false))
        (fuelOf fromDay toDay) r fromDay toDay []
  end.

Definition hasInstanceOn (item : T) (day : bytes) : bool :=
  match repeatOf item with
  | None => false
  | Some r => occursOn r day && negb (isExcluded (getOccurrence item day))
  end.

Definition isRepeating (item : T) : bool := match repeatOf item with Some _ => true | None => false end.

Definition stripSeries (item : T) : T := setInstanceDay None (setOccurrences None (setRepeat None item)).

(** The first entry with an identifier: its place and itself. *)
Definition findIn (items : list T) (i : bytes) : option (nat * T) := list_find (fun x => itemId x = i) items.

(** [*item = x] for the entry at a place. *)
Definition putAt (st : State) (n : nat) (x : T) : State := setItems st (<[n := x]> (itemsOf st)).
End Instances.

(** ** The laws of the interface *)

Record Core := mkCore {
  coreId : bytes;
  coreRepeat : option Repeat;
  coreOccurrences : option (list Occurrence);
  coreOrigin : option Origin;
  coreInstance : option bytes;
  coreDay : option bytes
}.

Definition core `{Entry T} (x : T) : Core :=
  mkCore (itemId x) (repeatOf x) (occurrencesOf x) (originOf x) (instanceDayOf x) (dayOf x).

Class EntryLaws (T : Type) `{Entry T} := {
  core_setId i x : core (setId i x)
    = mkCore i (repeatOf x) (occurrencesOf x) (originOf x) (instanceDayOf x) (dayOf x);
  core_setRepeat r x : core (setRepeat r x)
    = mkCore (itemId x) r (occurrencesOf x) (originOf x) (instanceDayOf x) (dayOf x);
  core_setOccurrences os x : core (setOccurrences os x)
    = mkCore (itemId x) (repeatOf x) os (originOf x) (instanceDayOf x) (dayOf x);
  core_setOrigin o x : core (setOrigin o x)
    = mkCore (itemId x) (repeatOf x) (occurrencesOf x) o (instanceDayOf x) (dayOf x);
  core_setInstanceDay d x : core (setInstanceDay d x)
    = mkCore (itemId x) (repeatOf x) (occurrencesOf x) (originOf x) d (dayOf x);
  core_setDay d x : core (setDay d x)
    = mkCore (itemId x) (repeatOf x) (occurrencesOf x) (originOf x) (instanceDayOf x) d;
  core_writeDescription s x : core (writeDescription s x) = core x;
  core_applyPatch p x : core (applyPatch p x)
    = mkCore (itemId x) (repeatField (pRepeat p) (repeatOf x)) (occurrencesOf x) (originOf x) (instanceDayOf x)
        (optField (pDay p) (dayOf x));
  core_instanceFor d x : core (instanceFor x d)
    = mkCore (itemId x) (repeatOf x) (occurrencesOf x) (originOf x) (Some d) (Some d);
  detachable_id d x : itemId (detachable x d) = itemId x;
  core_renew x : exists d, core (renew x)
    = mkCore (itemId x) (repeatOf x) (occurrencesOf x) (originOf x) (instanceDayOf x) d;
  text_write s x : textOf (writeDescription s x) = s;
  applyPatch_empty p x : emptyPatch p = true -> applyPatch p x = x;
  items_setItems st l : itemsOf (setItems st l) = l;
  setItems_setItems st l k : setItems (setItems st l) k = setItems st k
}.

Lemma emptyPatch_none (p : ItemPatch) : emptyPatch p = true -> p = noPatch.
Proof.
  unfold emptyPatch, isSet. rewrite negb_true_iff, !orb_false_iff. destruct p. cbn. intros E. decompose [and] E. clear E.
  repeat match goal with f : PatchField _ |- _ => destruct f; [done|] end. done.
Qed.

#[export] Instance task_laws : EntryLaws Task.
Proof.
  split; try reflexivity.
  - intros x. by eexists.
  - intros p x E. rewrite (emptyPatch_none p E). by destruct x.
Qed.

#[export] Instance event_laws : EntryLaws Event.
Proof.
  split; try reflexivity.
  - intros x. by eexists.
  - intros s x. cbn. by destruct s.
  - intros p x E. rewrite (emptyPatch_none p E). by destruct x.
Qed.

(** The members of an entry that was just changed. *)
Ltac entry_law y :=
  lazymatch y with
  | setId ?a ?x => constr:(core_setId a x)
  | setRepeat ?a ?x => constr:(core_setRepeat a x)
  | setOccurrences ?a ?x => constr:(core_setOccurrences a x)
  | setOrigin ?a ?x => constr:(core_setOrigin a x)
  | setInstanceDay ?a ?x => constr:(core_setInstanceDay a x)
  | setDay ?a ?x => constr:(core_setDay a x)
  | writeDescription ?a ?x => constr:(core_writeDescription a x)
  | applyPatch ?a ?x => constr:(core_applyPatch a x)
  | instanceFor ?x ?a => constr:(core_instanceFor a x)
  end.

Ltac entry_members := cbn [coreId coreRepeat coreOccurrences coreOrigin coreInstance coreDay core].

Ltac entry :=
  repeat match goal with
  | |- context [itemId ?y] => let L := entry_law y in rewrite (f_equal coreId L : itemId y = _); entry_members
  | |- context [repeatOf ?y] =>
      let L := entry_law y in rewrite (f_equal coreRepeat L : repeatOf y = _); entry_members
  | |- context [occurrencesOf ?y] =>
      let L := entry_law y in rewrite (f_equal coreOccurrences L : occurrencesOf y = _); entry_members
  | |- context [originOf ?y] =>
      let L := entry_law y in rewrite (f_equal coreOrigin L : originOf y = _); entry_members
  | |- context [instanceDayOf ?y] =>
      let L := entry_law y in rewrite (f_equal coreInstance L : instanceDayOf y = _); entry_members
  | |- context [dayOf ?y] => let L := entry_law y in rewrite (f_equal coreDay L : dayOf y = _); entry_members
  end.

(** ** Lemmas *)

Section Lemmas.
Context `{L : EntryLaws T}.

Lemma findIn_spec (l : list T) (i : bytes) (n : nat) (x : T) : findIn l i = Some (n, x) ->
  l !! n = Some x /\ itemId x = i /\ (forall m y, (m < n)%nat -> l !! m = Some y -> itemId y <> i).
Proof. intros E. apply list_find_Some in E as (A & B & C). split_and!; [done..|]. intros m y M Hm. by apply (C m y). Qed.

Lemma findIn_keeps (l : list T) (i : bytes) (n : nat) (x y : T) :
  findIn l i = Some (n, x) -> itemId y = i -> findIn (<[n := y]> l) i = Some (n, y).
Proof.
  intros E Y. apply findIn_spec in E as (A & B & C). pose proof (lookup_lt_Some _ _ _ A) as Hn.
  apply list_find_Some. split_and!; [by apply list_lookup_insert_eq|done|].
  intros m z M Hm. rewrite list_lookup_insert_ne in M by lia. eauto.
Qed.

Lemma itemId_renew (x : T) : itemId (renew x) = itemId x.
Proof. destruct (core_renew x) as [d E]. exact (f_equal coreId E). Qed.

Lemma repeatOf_renew (x : T) : repeatOf (renew x) = repeatOf x.
Proof. destruct (core_renew x) as [d E]. exact (f_equal coreRepeat E). Qed.

(** Instances depend on the rule and the marks only. *)
Lemma hasInstanceOn_core (x y : T) (d : bytes) : repeatOf x = repeatOf y -> occurrencesOf x = occurrencesOf y ->
  hasInstanceOn x d = hasInstanceOn y d.
Proof. intros A B. unfold hasInstanceOn, getOccurrence. by rewrite A, B. Qed.
End Lemmas.

(** The days of an entry in a period. *)
Lemma expandInstances_days `{Entry T} (x : T) (r : Repeat) (a b : Parts) :
  repeatOf x = Some r -> wellFormed r -> keyDate a -> keyDate b ->
  expandInstances x (keyOf a) (keyOf b) = filter (hasInstanceOn x) (keysBetween a b).
Proof.
  intros R W A B. unfold expandInstances. rewrite R, (collect_days _ r a b) by done.
  apply list_filter_iff. intros d. unfold hasInstanceOn. by rewrite R.
Qed.

End Planner.
