(* ===== verification/PlannerJson.v ===== *)
(** * PlannerJson: the JSON form of tasks and events

    Module [PlannerJson] models the [to_json] and [from_json] functions of
    [include/parvane/sections/planner_types.h] for entries and what they are
    made of. A pair of functions is a [codec]; the readers keep the order of the
    sources, since the first field of a wrong type decides what is thrown. The
    theorem: an entry reads back as it was written, from the value itself and
    from the value that printing and parsing gives. *)

From S2P Require Import Prelude Json PlannerUtil Calendar Repeat PlannerState.
Import Util Calendar Repeats Planner.

#[local] Open Scope Z_scope.

Module PlannerJson.

(** ** Conversions of the JSON library *)

Record codec (T : Type) := { enc : T -> json; dec : json -> result exn T }.
Arguments enc {T} c x.
Arguments dec {T} c j.

Definition str : codec bytes :=
  {| enc := JStr; dec := fun j => match j with JStr s => Ok s | _ => Err TypeError end |}.

Definition flag : codec bool :=
  {| enc := JBool; dec := fun j => match j with JBool b => Ok b | _ => Err TypeError end |}.

(** The integer part of a double. *)
Definition truncated (f : spec_float) : option Z :=
  match f with
  | S754_zero _ => Some 0
  | S754_finite sg m e => let a := Z.shiftl (Z.pos m) e in Some (if sg then - a else a)
  | _ => None
  end.

(** [get<int>()]: a stored integer is narrowed, a double is cut, which is
    undefined out of the range of [int]. *)
Definition intOf (j : json) : result exn Z :=
  match j with
  | JInt z | JUnsigned z => Ok (signed 32 z)
  | JBool b => Ok (if b then 1 else 0)
  | JFloat f =>
      match truncated f with
      | Some v => if (- 2 ^ 31 <=? v) && (v <? 2 ^ 31) then Ok v else Err Undefined
      | None => Err Undefined
      end
  | _ => Err TypeError
  end.

Definition int : codec Z := {| enc := JInt; dec := intOf |}.

(** A finite double, in units of 2^-1074. *)
Definition units (f : spec_float) : option Z :=
  match f with
  | S754_zero _ => Some 0
  | S754_finite sg m e => let a := Z.shiftl (Z.pos m) (e + 1074) in Some (if sg then - a else a)
  | _ => None
  end.

Definition doubleOfUnits (z : Z) : spec_float := binary_normalize 53 1024 z (-1074) false.
Definition doubleOfInt (z : Z) : spec_float := binary_normalize 53 1024 z 0 false.

(** [get<double>()]. Infinities and NaN, which no JSON text holds, are left out. *)
Definition unitsOf (j : json) : result exn Z :=
  let read f := match units f with Some z => Ok z | None => Err Undefined end in
  match j with
  | JFloat f => read f
  | JInt z | JUnsigned z => read (doubleOfInt z)
  | JBool b => read (doubleOfInt (if b then 1 else 0))
  | _ => Err TypeError
  end.

Definition double : codec Z := {| enc := fun z => JFloat (doubleOfUnits z); dec := unitsOf |}.

Fixpoint decAll {T} (c : codec T) (l : list json) : result exn (list T) :=
  match l with
  | [] => Ok []
  | j :: l' => let! x := dec c j in let! xs := decAll c l' in Ok (x :: xs)
  end.

Definition vector {T} (c : codec T) : codec (list T) :=
  {| enc := fun l => JArr (enc c <$> l);
     dec := fun j => match j with JArr l => decAll c l | _ => Err TypeError end |}.

(** [j.value(key, d)], and [detail::getOpt]. *)
Definition value {T} (c : codec T) (k : bytes) (d : T) (j : json) : result exn T :=
  match j with
  | JObj m => match obj_get k m with Some v => dec c v | None => Ok d end
  | _ => Err TypeError
  end.

Definition getOpt {T} (c : codec T) (k : bytes) (j : json) : result exn (option T) :=
  match jfind k j with
  | None | Some JNull => Ok None
  | Some v => let! x := dec c v in Ok (Some x)
  end.

(** The object of an initializer list, and of the calls of [detail::putOpt]
    after it: a field without a value is left out. *)
Definition object (fields : list (bytes * option json)) : json :=
  JObj (foldl (fun m kv => match kv.2 with Some v => obj_set kv.1 v m | None => m end) [] fields).

Definition has {T} (c : codec T) (x : T) : option json := Some (enc c x).
Definition putOpt {T} (c : codec T) (x : option T) : option json := enc c <$> x.

(** ** The types of the planner *)

Definition step : codec Step := {|
  enc v := object [(#"text", has str (text v)); (#"isDone", has flag (isDone v))];
  dec j := let! t := value str #"text" [] j in let! d := value flag #"isDone" false j in
           Ok {| text := t; isDone := d |} |}.

Definition repeat : codec Repeat := {|
  enc v := object [(#"kind", has str (kind v)); (#"interval", has int (interval v)); (#"startDay", has str (startDay v));
                   (#"weekdays", putOpt (vector int) (weekdays v)); (#"monthDay", putOpt int (monthDay v));
                   (#"endDay", putOpt str (endDay v)); (#"count", putOpt int (count v))];
  dec j :=
    let! k := value str #"kind" #"daily" j in
    let! i := value int #"interval" 1 j in
    let! s := value str #"startDay" [] j in
    let! ws := getOpt (vector int) #"weekdays" j in
    let! m := getOpt int #"monthDay" j in
    let! e := getOpt str #"endDay" j in
    let! c := getOpt int #"count" j in
    Ok {| kind := k; interval := i; weekdays := ws; monthDay := m; startDay := s; endDay := e; count := c |} |}.

Definition occurrence : codec Occurrence := {|
  enc v := object [(#"day", has str (oDay v)); (#"excluded", putOpt flag (excluded v));
                   (#"done", putOpt flag (done_ v)); (#"doneSteps", putOpt (vector int) (doneSteps v))];
  dec j :=
    let! d := value str #"day" [] j in
    let! e := getOpt flag #"excluded" j in
    let! x := getOpt flag #"done" j in
    let! l := getOpt (vector int) #"doneSteps" j in
    Ok {| oDay := d; excluded := e; done_ := x; doneSteps := l |} |}.

Definition originJson : codec Origin := {|
  enc v := object [(#"seriesId", has str (seriesId v)); (#"day", has str (originDay v))];
  dec j := let! s := value str #"seriesId" [] j in let! d := value str #"day" [] j in
           Ok {| seriesId := s; originDay := d |} |}.

Definition sourceJson : codec Source := {|
  enc v := object [(#"chat", has str (chat v)); (#"opId", has str (opId v))];
  dec j := let! c := value str #"chat" [] j in let! o := value str #"opId" [] j in
           Ok {| chat := c; opId := o |} |}.

Definition task : codec Task := {|
  enc v := object
    [(#"id", has str (id v)); (#"name", has str (name v)); (#"description", has str (description v));
     (#"steps", has (vector step) (steps v)); (#"status", has str (status v)); (#"project", has str (project v));
     (#"rank", has double (rank v)); (#"day", putOpt str (tDay v)); (#"start", putOpt str (tStart v));
     (#"due", putOpt str (due v)); (#"minutes", putOpt int (minutes v)); (#"repeat", putOpt repeat (repeat_ v));
     (#"occurrences", putOpt (vector occurrence) (occurrences v)); (#"origin", putOpt originJson (origin v));
     (#"source", putOpt sourceJson (source v)); (#"remind", putOpt int (remind v));
     (#"instanceDay", putOpt str (instanceDay v))];
  dec j :=
    let! i := value str #"id" [] j in
    let! n := value str #"name" [] j in
    let! d := value str #"description" [] j in
    let! ss := value (vector step) #"steps" [] j in
    let! st := value str #"status" #"queue" j in
    let! p := value str #"project" [] j in
    let! r := value double #"rank" 0 j in
    let! day := getOpt str #"day" j in
    let! start := getOpt str #"start" j in
    let! du := getOpt str #"due" j in
    let! mi := getOpt int #"minutes" j in
    let! re := getOpt repeat #"repeat" j in
    let! os := getOpt (vector occurrence) #"occurrences" j in
    let! o := getOpt originJson #"origin" j in
    let! s := getOpt sourceJson #"source" j in
    let! rm := getOpt int #"remind" j in
    let! inst := getOpt str #"instanceDay" j in
    Ok {| id := i; name := n; description := d; steps := ss; status := st; project := p; rank := r; tDay := day;
          tStart := start; due := du; minutes := mi; repeat_ := re; occurrences := os; origin := o; source := s;
          remind := rm; instanceDay := inst |} |}.

Definition event : codec Event := {|
  enc v := object
    [(#"id", has str (eId v)); (#"name", has str (eName v)); (#"start", has str (eStart v)); (#"end", has str (eEnd v));
     (#"description", putOpt str (eDescription v)); (#"day", putOpt str (eDay v));
     (#"repeat", putOpt repeat (eRepeat v)); (#"occurrences", putOpt (vector occurrence) (eOccurrences v));
     (#"origin", putOpt originJson (eOrigin v)); (#"instanceDay", putOpt str (eInstanceDay v));
     (#"isAllDay", putOpt flag (isAllDay v)); (#"isHoliday", putOpt flag (isHoliday v));
     (#"color", putOpt int (color v)); (#"remind", putOpt int (eRemind v)); (#"project", putOpt str (eProject v))];
  dec j :=
    let! i := value str #"id" [] j in
    let! n := value str #"name" [] j in
    let! s := value str #"start" [] j in
    let! e := value str #"end" [] j in
    let! d := getOpt str #"description" j in
    let! day := getOpt str #"day" j in
    let! re := getOpt repeat #"repeat" j in
    let! os := getOpt (vector occurrence) #"occurrences" j in
    let! o := getOpt originJson #"origin" j in
    let! inst := getOpt str #"instanceDay" j in
    let! al := getOpt flag #"isAllDay" j in
    let! ho := getOpt flag #"isHoliday" j in
    let! co := getOpt int #"color" j in
    let! rm := getOpt int #"remind" j in
    let! p := getOpt str #"project" j in
    Ok {| eId := i; eName := n; eDescription := d; eStart := s; eEnd := e; eDay := day; eRepeat := re;
          eOccurrences := os; eOrigin := o; eInstanceDay := inst; isAllDay := al; isHoliday := ho; color := co;
          eRemind := rm; eProject := p |} |}.

Definition settingsJson : codec Settings := {|
  enc v := object [(#"dayStart", has int (dayStart v)); (#"dayEnd", has int (dayEnd v));
                   (#"lunchStart", has int (lunchStart v)); (#"lunchEnd", has int (lunchEnd v));
                   (#"margin", has int (margin v))];
  dec j :=
    let! a := value int #"dayStart" (dayStart defaultSettings) j in
    let! b := value int #"dayEnd" (dayEnd defaultSettings) j in
    let! c := value int #"lunchStart" (lunchStart defaultSettings) j in
    let! d := value int #"lunchEnd" (lunchEnd defaultSettings) j in
    let! m := value int #"margin" (margin defaultSettings) j in
    Ok {| dayStart := a; dayEnd := b; lunchStart := c; lunchEnd := d; margin := m |} |}.

Definition listJson : codec TaskList := {|
  enc v := object [(#"id", has str (lId v)); (#"name", has str (lName v)); (#"order", has double (lOrder v));
                   (#"color", putOpt int (lColor v))];
  dec j :=
    let! i := value str #"id" [] j in
    let! n := value str #"name" [] j in
    let! o := value double #"order" 0 j in
    let! c := getOpt int #"color" j in
    Ok {| lId := i; lName := n; lOrder := o; lColor := c |} |}.

(** ** Lossless codecs *)

(** What a value is when it is read: as it was made, or printed and parsed. *)
Definition stored (j j' : json) : Prop := j' = j \/ j' = reparse j.

Record lossless {T} (c : codec T) (wf : T -> Prop) : Prop := {
  reads_back : forall x j, wf x -> stored (enc c x) j -> dec c j = Ok x;
  not_null : forall x, enc c x <> JNull
}.

Definition int32 (z : Z) : Prop := - 2 ^ 31 <= z < 2 ^ 31.
Definition isDouble (z : Z) : Prop := units (doubleOfUnits z) = Some z.
Definition onSome {A} (P : A -> Prop) (o : option A) : Prop := match o with Some x => P x | None => True end.

Definition repeatFits (r : Repeat) : Prop :=
  int32 (interval r) /\ onSome (Forall int32) (weekdays r) /\ onSome int32 (monthDay r) /\ onSome int32 (count r).
Definition occurrenceFits (o : Occurrence) : Prop := onSome (Forall int32) (doneSteps o).
Definition taskFits (t : Task) : Prop :=
  isDouble (rank t) /\ onSome int32 (minutes t) /\ onSome repeatFits (repeat_ t) /\
  onSome (Forall occurrenceFits) (occurrences t) /\ onSome int32 (remind t).
Definition eventFits (e : Event) : Prop :=
  onSome repeatFits (eRepeat e) /\ onSome (Forall occurrenceFits) (eOccurrences e) /\
  onSome int32 (color e) /\ onSome int32 (eRemind e).

Lemma signed_int32 (z : Z) : int32 z -> signed 32 z = z.
Proof. unfold int32, signed. intros H. change (2 ^ (32 - 1)) with (2 ^ 31). rewrite Z.mod_small; lia. Qed.

Lemma str_lossless : lossless str (fun _ => True).
Proof. split; [by intros x j _ [->| ->]|done]. Qed.

Lemma flag_lossless : lossless flag (fun _ => True).
Proof. split; [by intros x j _ [->| ->]|done]. Qed.

Lemma int_lossless : lossless int int32.
Proof.
  split; [|done]. intros x j W [->| ->]; cbn; [by rewrite signed_int32|].
  destruct (0 <=? x); cbn; by rewrite signed_int32.
Qed.

Lemma double_lossless : lossless double isDouble.
Proof. split; [|done]. intros x j W [->| ->]; cbn; by rewrite W. Qed.

Lemma vector_lossless {T} (c : codec T) (wf : T -> Prop) : lossless c wf -> lossless (vector c) (Forall wf).
Proof.
  intros [L N]. split; [|done]. intros x j W S.
  assert (exists l, j = JArr l /\ Forall2 (fun a b => stored (enc c a) b) x l) as (l & -> & F).
  { destruct S as [->| ->]; cbn; eexists; (split; [reflexivity|]).
    - clear W. induction x; cbn; constructor; [by left|done].
    - clear W. induction x; cbn; constructor; [by right|done]. }
  cbn. clear S. induction F as [|a b x l S F IH]; [done|]. inversion W; subst. cbn.
  rewrite (L a b), IH by done. done.
Qed.

(** ** Reading an object back *)

Fixpoint assoc (k : bytes) (fields : list (bytes * option json)) : option json :=
  match fields with
  | [] => None
  | (k', v) :: l => if bool_decide (k = k') then v else assoc k l
  end.

Lemma obj_get_fields (k : bytes) (fields : list (bytes * option json)) (m : list (bytes * json)) :
  NoDup (fields.*1) ->
  obj_get k (foldl (fun m kv => match kv.2 with Some v => obj_set kv.1 v m | None => m end) m fields)
  = match assoc k fields with Some v => Some v | None => obj_get k m end.
Proof.
  revert m. induction fields as [|[k' v] l IH]; intros m N; [done|]. cbn [fmap list_fmap fst] in N.
  apply list.NoDup_cons in N as [Nk N]. cbn [foldl fst snd assoc]. rewrite IH by done. case_bool_decide as E.
  - subst k'. assert (assoc k l = None) as ->.
    { clear -Nk. induction l as [|[k' w] l IH]; [done|]. cbn in *. rewrite bool_decide_eq_false_2 by set_solver.
      apply IH. set_solver. }
    destruct v; [by rewrite obj_get_set_eq|done].
  - destruct (assoc k l); [done|]. destruct v; [by rewrite obj_get_set_ne|done].
Qed.

Lemma stored_field (k : bytes) (fields : list (bytes * option json)) (j : json) : NoDup (fields.*1) ->
  stored (object fields) j ->
  exists m, j = JObj m /\ match assoc k fields with
                          | Some v => exists v', obj_get k m = Some v' /\ stored v v'
                          | None => obj_get k m = None
                          end.
Proof.
  intros N S. pose proof (obj_get_fields k fields [] N) as G. destruct S as [->| ->].
  - eexists. split; [reflexivity|]. rewrite G. destruct (assoc k fields); [|done]. eexists. by split; [|left].
  - cbn [reparse object]. eexists. split; [reflexivity|]. rewrite obj_get_reparse, G.
    destruct (assoc k fields); [|done]. eexists. by split; [|right].
Qed.

Lemma value_back {T} (c : codec T) (wf : T -> Prop) (k : bytes) (d x : T) fields (j : json) :
  lossless c wf -> NoDup (fields.*1) -> assoc k fields = has c x -> wf x -> stored (object fields) j ->
  value c k d j = Ok x.
Proof.
  intros L N A W S. destruct (stored_field k fields j N S) as (m & -> & G). rewrite A in G.
  destruct G as (v & G & Sv). cbn [value]. rewrite G. by apply (reads_back _ _ L).
Qed.

Lemma getOpt_back {T} (c : codec T) (wf : T -> Prop) (k : bytes) (x : option T) fields (j : json) :
  lossless c wf -> NoDup (fields.*1) -> assoc k fields = putOpt c x -> onSome wf x -> stored (object fields) j ->
  getOpt c k j = Ok x.
Proof.
  intros L N A W S. destruct (stored_field k fields j N S) as (m & -> & G). rewrite A in G.
  unfold getOpt. cbn [jfind]. destruct x as [x|]; [|by cbn in G; rewrite G].
  destruct G as (v & G & Sv). rewrite G. rewrite (reads_back _ _ L x v W Sv).
  destruct v; try reflexivity. exfalso. destruct Sv as [E|E].
  - by apply (not_null _ _ L x).
  - apply (not_null _ _ L x). destruct (enc c x) eqn:Ex; cbn in E; try done. by destruct (0 <=? _) in E.
Qed.

Lemma onSome_True {A} (o : option A) : onSome (fun _ => True) o.
Proof. by destruct o. Qed.

Lemma Forall_True {A} (l : list A) : Forall (fun _ => True) l.
Proof. induction l; by constructor. Qed.

(** A record reads back field by field, in the order of the reader; [S] says
    what is stored. *)
#[local] Hint Resolve str_lossless flag_lossless int_lossless double_lossless vector_lossless onSome_True
  Forall_True I : codecs.

Ltac field_back S N :=
  match goal with
  | |- context [value ?c ?k ?d ?j] =>
      erewrite (value_back c _ k d _ _ j); [|solve [eauto with codecs]|exact N|reflexivity|solve [cbv beta; eauto with codecs]|exact S]
  | |- context [getOpt ?c ?k ?j] =>
      erewrite (getOpt_back c _ k _ _ j); [|solve [eauto with codecs]|exact N|reflexivity|solve [cbv beta; eauto with codecs]|exact S]
  end; cbn [rbind].

Ltac record_back S :=
  match type of S with
  | stored (object ?fields) _ =>
      let N := fresh "N" in
      assert (N : NoDup (fields.*1)) by (apply (bool_decide_unpack _); vm_compute; exact I);
      repeat field_back S N
  end.

Lemma step_lossless : lossless step (fun _ => True).
Proof. split; [|done]. intros x j _ S. cbn [dec enc step] in *. record_back S. by destruct x. Qed.

Lemma repeat_lossless : lossless repeat repeatFits.
Proof.
  split; [|done]. intros x j (A & B & C & D) S. cbn [dec enc repeat] in *. record_back S. by destruct x.
Qed.

Lemma occurrence_lossless : lossless occurrence occurrenceFits.
Proof. split; [|done]. intros x j W S. red in W. cbn [dec enc occurrence] in *. record_back S. by destruct x. Qed.

Lemma origin_lossless : lossless originJson (fun _ => True).
Proof. split; [|done]. intros x j _ S. cbn [dec enc originJson] in *. record_back S. by destruct x. Qed.

Lemma source_lossless : lossless sourceJson (fun _ => True).
Proof. split; [|done]. intros x j _ S. cbn [dec enc sourceJson] in *. record_back S. by destruct x. Qed.

Lemma settings_lossless : lossless settingsJson
  (fun s => int32 (dayStart s) /\ int32 (dayEnd s) /\ int32 (lunchStart s) /\ int32 (lunchEnd s) /\ int32 (margin s)).
Proof.
  split; [|done]. intros x j (A & B & C & D & E) S. cbn [dec enc settingsJson] in *. record_back S. by destruct x.
Qed.

Lemma list_lossless : lossless listJson (fun l => isDouble (lOrder l) /\ onSome int32 (lColor l)).
Proof. split; [|done]. intros x j (A & B) S. cbn [dec enc listJson] in *. record_back S. by destruct x. Qed.

#[local] Hint Resolve step_lossless repeat_lossless occurrence_lossless origin_lossless source_lossless : codecs.

(** Property (entries_read_back): a task or an event whose numbers fit into
    [int] and, for the rank, are finite doubles, reads back from its JSON form
    as it was: from the value itself, and from the value that printing and
    parsing gives, which stores integers that are not negative as unsigned. *)
Theorem entries_read_back :
  (forall (t : Task) (j : json), taskFits t -> stored (enc task t) j -> dec task j = Ok t) /\
  (forall (e : Event) (j : json), eventFits e -> stored (enc event e) j -> dec event j = Ok e).
Proof.
  split.
  - intros x j (A & B & C & D & E) S. cbn [dec enc task] in *. record_back S. by destruct x.
  - intros x j (A & B & C & D) S. cbn [dec enc event] in *. record_back S. by destruct x.
Qed.

Definition jsonRule : Repeat :=
  {| kind := #"weekly"; interval := 2; weekdays := Some [1; 4]; monthDay := None; startDay := #"2026-01-05";
     endDay := Some #"2026-05-31"; count := Some 12 |}.
Definition jsonTask : Task :=
  {| id := #"t"; name := #"Sport"; description := #"gym"; steps := [{| text := #"run"; isDone := true |}];
     status := #"queue"; project := []; rank := 5 * 2 ^ 1073; tDay := None; tStart := Some #"08:00"; due := None;
     minutes := Some 45; repeat_ := Some jsonRule;
     occurrences := Some [{| oDay := #"2026-01-08"; excluded := None; done_ := Some true; doneSteps := Some [0; 2] |}];
     origin := None; source := Some {| chat := #"note:n"; opId := #"o" |}; remind := Some 10; instanceDay := None |}.
Definition jsonEvent : Event :=
  {| eId := #"e"; eName := #"Lesson"; eDescription := None; eStart := #"10:00"; eEnd := #"11:00"; eDay := None;
     eRepeat := Some jsonRule; eOccurrences := None; eOrigin := None; eInstanceDay := None; isAllDay := Some false;
     isHoliday := None; color := Some 3; eRemind := Some (-5); eProject := None |}.

Lemma entries_read_back_witness :
  dec task (reparse (enc task jsonTask)) = Ok jsonTask /\ dec event (reparse (enc event jsonEvent)) = Ok jsonEvent.
Proof.
  split.
  - apply (proj1 entries_read_back); [|by right]. unfold taskFits, repeatFits, occurrenceFits, isDouble, int32. cbn.
    split_and!; (reflexivity || lia || (repeat constructor; cbn; repeat constructor; lia)).
  - apply (proj2 entries_read_back); [|by right]. unfold eventFits, repeatFits, int32. cbn.
    split_and!; (reflexivity || lia || (repeat constructor; cbn; repeat constructor; lia)).
Defined.

(** A field of a wrong type is refused, an unknown one is passed over. *)
Lemma task_wrong_type : dec task (JObj [(#"rank", JStr [])]) = Err TypeError /\
  dec task (JObj [(#"minutes", JStr [])]) = Err TypeError /\ dec task (JArr []) = Err TypeError /\
  dec task (JObj [(#"name", JNull)]) = Err TypeError /\
  dec event (JObj [(#"color", JFloat (S754_finite false 1 40))]) = Err Undefined.
Proof. vm_compute. done. Qed.
End PlannerJson.
