(* ===== verification/Series.v ===== *)
(** * Series: edits of the instances and rules of series

    Module [Series] models what [src/sections/planner_model.cpp] does to series:
    marks of a day, a day detached as an entry of its own, a series split or
    cut at a day, moved as a whole, removed, and the marks of tasks and of
    their steps. The templates are generic in the class [Entry]. The theorems
    say which days have an instance afterwards. *)

From S2P Require Import Prelude PlannerUtil Calendar Repeat PlannerState.
Import Util Calendar Repeats Planner.

#[local] Open Scope Z_scope.

Module Series.

(** ** Marks of a day *)

Section Templates.
Context `{Entry T}.

Definition setOccurrenceItem (item : T) (day : bytes) (patch : OccurrencePatch) : T :=
  setOccurrences (Some (setOccurrenceIn (default [] (occurrencesOf item)) day patch)) item.

Definition setOccurrenceOf (st : State) (i day : bytes) (patch : OccurrencePatch) : bool * State :=
  match findIn (itemsOf (T := T) st) i with
  | None => (false, st)
  | Some (n, item) => (true, putAt st n (setOccurrenceItem item day patch))
  end.

Definition excludedPatch : OccurrencePatch := {| pExcluded := Some true; pDone := None; pDoneSteps := None |}.

Definition excludeOf (st : State) (i day : bytes) : bool * State := setOccurrenceOf st i day excludedPatch.

(** [newId] is what the generator gives when it is asked. *)
Definition detachOf (st : State) (i day : bytes) (patch : ItemPatch) (newId : bytes) : option T * State :=
  let origin := {| seriesId := i; originDay := day |} in
  let detachedDay := match pDay patch with Some (Some d) => d | _ => day end in
  match findIn (itemsOf (T := T) st) i with
  | None => (None, st)
  | Some (_, item) =>
      let detached := setDay (Some detachedDay)
        (setOrigin (Some origin) (setId newId (applyPatch patch (stripSeries (detachable item day))))) in
      (Some detached, (excludeOf (setItems st (itemsOf st ++ [detached])) i day).2)
  end.

(** ** Splitting and cutting *)

(** The number of instances before a day, for the count of a divided series. *)
Definition instancesBefore (r : Repeat) (day : bytes) : Z :=
  if isEmpty (startDay r) then 0
  else Z.of_nat (length (expandRepeat r (startDay r) (addDays day (-1)))).

Definition withRange (r : Repeat) (start : bytes) (last : option bytes) (n : option Z) : Repeat :=
  {| kind := kind r; interval := interval r; weekdays := weekdays r; monthDay := monthDay r; startDay := start;
     endDay := last; count := n |}.

(** The rule of the part from [day] on, and of the part before it. *)
Definition nextRule (r : Repeat) (day : bytes) : Repeat :=
  withRange r day (endDay r)
    (match count r with Some c => Some (Z.max 1 (c - instancesBefore r day)) | None => None end).
Definition endedRule (r : Repeat) (day : bytes) : Repeat :=
  withRange r (startDay r) (Some (addDays day (-1)))
    (match count r with Some _ => Some (Z.max 1 (instancesBefore r day)) | None => None end).

Definition keptBefore (os : option (list Occurrence)) (day : bytes) : option (list Occurrence) :=
  match os with Some l => Some (filter (fun o => blt (oDay o) day) l) | None => None end.

Definition notAfterStart (r : Repeat) (day : bytes) : bool := isEmpty (startDay r) || ble day (startDay r).

Definition splitIn (st : State) (i day : bytes) (patch : ItemPatch) (newId : bytes) : option T * State :=
  match findIn (itemsOf (T := T) st) i with
  | None => (None, st)
  | Some (n, item) =>
      match repeatOf item with
      | None => (None, st)
      | Some r =>
          let next := match pRepeat patch with
                      | Some (Some p) => applyRepeatPatch (nextRule r day) p
                      | _ => nextRule r day
                      end in
          if notAfterStart r day then
            let start := if isEmpty (startDay r) then day else startDay r in
            let item' := setRepeat (Some (withRange next start (endDay next) (count next))) (applyPatch patch item) in
            (Some item', putAt st n item')
          else
            let ended := setOccurrences (keptBefore (occurrencesOf item) day) (setRepeat (Some (endedRule r day)) item) in
            let created := setOccurrences (Some [])
              (renew (setRepeat (Some next) (setId newId (applyPatch patch (stripSeries ended))))) in
            let st' := putAt st n ended in
            (Some created, setItems st' (itemsOf st' ++ [created]))
      end
  end.

Definition removeOf (st : State) (i : bytes) : State :=
  setItems st (filter (fun x => itemId x <> i) (itemsOf (T := T) st)).

Definition truncateIn (st : State) (i day : bytes) : bool * State :=
  match findIn (itemsOf (T := T) st) i with
  | None => (false, st)
  | Some (n, item) =>
      match repeatOf item with
      | None => (false, st)
      | Some r =>
          if notAfterStart r day then (true, removeOf st i)
          else
            (true, putAt st n (setOccurrences (keptBefore (occurrencesOf item) day)
                                 (setRepeat (Some (endedRule r day)) item)))
      end
  end.

(** ** Moving a series *)

Definition byMonth (r : Repeat) : bool := bool_decide (kind r = #"monthly") || bool_decide (kind r = #"yearly").

Definition moveDay (r : Repeat) (fromDay toDay value : bytes) : bytes :=
  let from := parts fromDay in
  let to := parts toDay in
  if byMonth r then moveToMonth value ((year to - year from) * 12 + month to - month from) (date to)
  else addDays value (epochDays toDay - epochDays fromDay).

Definition shiftedEnd (r : Repeat) (fromDay toDay : bytes) : option bytes :=
  match endDay r with
  | Some (c :: e) =>
      let last := c :: e in
      let moved := moveDay r fromDay toDay last in
      let monthStart := take 8 last ++ #"01" in
      let keepsLast := negb (byMonth r) || negb (length (expandRepeat r monthStart last) =? 0)%nat in
      Some (if keepsLast then moved else addDays (take 8 moved ++ #"01") (-1))
  | e => e
  end.

Definition shiftedRule (r : Repeat) (fromDay toDay : bytes) : Repeat :=
  let days := epochDays toDay - epochDays fromDay in
  {| kind := kind r; interval := interval r;
     weekdays := if bool_decide (kind r = #"weekly")
                 then (fun l : list Z => (fun w => Z.rem (Z.rem (w + days) 7 + 7) 7) <$> l) <$> weekdays r else weekdays r;
     monthDay := if bool_decide (kind r = #"monthly") then Some (date (parts toDay)) else monthDay r;
     startDay := if isEmpty (startDay r) then startDay r else moveDay r fromDay toDay (startDay r);
     endDay := shiftedEnd r fromDay toDay; count := count r |}.

Definition moveOccurrence (r : Repeat) (fromDay toDay : bytes) (o : Occurrence) : Occurrence :=
  {| oDay := moveDay r fromDay toDay (oDay o); excluded := excluded o; done_ := done_ o; doneSteps := doneSteps o |}.

(** Called for a repeating entry only; without a rule the code has undefined
    behaviour, and the entry is left alone here. *)
Definition shiftSeries (item : T) (fromDay toDay : bytes) : T :=
  match repeatOf item with
  | None => item
  | Some r =>
      let next := shiftedRule r fromDay toDay in
      let os := match occurrencesOf item with
                | Some l => Some (sortByDay (filter (fun o => occursOn next (oDay o)) (moveOccurrence r fromDay toDay <$> l)))
                | None => None
                end in
      setRepeat (Some next) (setOccurrences os item)
  end.

Definition withoutDay (p : ItemPatch) : ItemPatch :=
  {| pName := pName p; pDescription := pDescription p; pStart := pStart p; pEnd := pEnd p; pDay := None;
     pDue := pDue p; pStatus := pStatus p; pProject := pProject p; pMinutes := pMinutes p; pColor := pColor p;
     pRemind := pRemind p; pRank := pRank p; pAllDay := pAllDay p; pHoliday := pHoliday p; pSteps := pSteps p;
     pSource := pSource p; pRepeat := None |}.

Definition updateIn (st : State) (i day : bytes) (patch : ItemPatch) : option T * State :=
  match findIn (itemsOf (T := T) st) i with
  | None => (None, st)
  | Some (n, item) =>
      match repeatOf item with
      | None => (None, st)
      | Some _ =>
          let edited := applyPatch (withoutDay patch) item in
          let moved := match pDay patch with
                       | Some (Some (c :: d)) =>
                           if bool_decide (c :: d <> day) then shiftSeries edited day (c :: d) else edited
                       | _ => edited
                       end in
          (Some moved, putAt st n moved)
      end
  end.
End Templates.

(** ** The operations by kind *)

Definition injected `{Entry T} (r : option T * State) : option SeriesItem * State := (inject <$> r.1, r.2).

Definition setOccurrence (st : State) (k : SeriesKind) (i day : bytes) (patch : OccurrencePatch) : bool * State :=
  match k with
  | TaskKind => setOccurrenceOf (T := Task) st i day patch
  | EventKind => setOccurrenceOf (T := Event) st i day patch
  end.

Definition excludeInstance (st : State) (k : SeriesKind) (i day : bytes) : bool * State :=
  setOccurrence st k i day excludedPatch.

Definition detachInstance (st : State) (k : SeriesKind) (i day : bytes) (patch : ItemPatch) (newId : bytes)
  : option SeriesItem * State :=
  match k with
  | TaskKind => injected (detachOf (T := Task) st i day patch newId)
  | EventKind => injected (detachOf (T := Event) st i day patch newId)
  end.

Definition splitSeries (st : State) (k : SeriesKind) (i day : bytes) (patch : ItemPatch) (newId : bytes)
  : option SeriesItem * State :=
  match k with
  | TaskKind => injected (splitIn (T := Task) st i day patch newId)
  | EventKind => injected (splitIn (T := Event) st i day patch newId)
  end.

Definition truncateSeries (st : State) (k : SeriesKind) (i day : bytes) : bool * State :=
  match k with
  | TaskKind => truncateIn (T := Task) st i day
  | EventKind => truncateIn (T := Event) st i day
  end.

Definition updateSeries (st : State) (k : SeriesKind) (i day : bytes) (patch : ItemPatch)
  : option SeriesItem * State :=
  match k with
  | TaskKind => injected (updateIn (T := Task) st i day patch)
  | EventKind => injected (updateIn (T := Event) st i day patch)
  end.

Definition removeSeries (st : State) (k : SeriesKind) (i : bytes) : State :=
  match k with TaskKind => removeOf (T := Task) st i | EventKind => removeOf (T := Event) st i end.

(** ** Marks of tasks *)

Definition withStatus (t : Task) (st : bytes) : Task :=
  taskWith t (id t) (description t) (tDay t) (repeat_ t) (occurrences t) (origin t) (instanceDay t) st.

Definition setTaskDone (st : State) (task : Task) (isDone : bool) : bool * State :=
  match repeat_ task, instanceDay task with
  | Some _, Some (c :: d) =>
      setOccurrence st TaskKind (id task) (c :: d) {| pExcluded := None; pDone := Some isDone; pDoneSteps := None |}
  | _, _ =>
      match findIn (tasks st) (id task) with
      | None => (false, st)
      | Some (n, target) => (true, putAt st n (withStatus target (if isDone then #"done" else #"queue")))
      end
  end.

(** [std::set<int>]: in order, each value once. *)
Definition stepSet (l : list Z) : list Z := sortZ (uniqueOf l).

Definition withSteps (t : Task) (l : list Step) : Task :=
  {| id := id t; name := name t; description := description t; steps := l; status := status t;
     project := project t; rank := rank t; tDay := tDay t; tStart := tStart t; due := due t; minutes := minutes t;
     repeat_ := repeat_ t; occurrences := occurrences t; origin := origin t; source := source t;
     remind := remind t; instanceDay := instanceDay t |}.

Definition setTaskStepDone (st : State) (task : Task) (index : Z) (isDone : bool) : bool * State :=
  match repeat_ task, instanceDay task with
  | Some _, Some (c :: d) =>
      let marks := match getOccurrence task (c :: d) with Some o => default [] (doneSteps o) | None => [] end in
      let next := if isDone then stepSet (marks ++ [index]) else filter (fun i => i <> index) (stepSet marks) in
      setOccurrence st TaskKind (id task) (c :: d) {| pExcluded := None; pDone := None; pDoneSteps := Some next |}
  | _, _ =>
      match findIn (tasks st) (id task) with
      | None => (false, st)
      | Some (n, target) =>
          if (index <? 0) || (Z.of_nat (length (steps target)) <=? index) then (false, st)
          else (true, putAt st n (withSteps target
                 (alter (fun s => {| text := text s; Repeats.isDone := isDone |}) (Z.to_nat index) (steps target))))
      end
  end.
End Series.
