(* ===== verification/SeriesRules.v ===== *)
(** * SeriesRules: which days a divided, cut or moved series has

    The instances of a rule that begins on a day are numbered by an increasing
    function ([numbers]); the number of instances before a day, which
    [src/sections/planner_model.cpp] takes when it divides a count, is a value
    of that numbering ([rank_before]). From it follow the theorems about the
    operations of [Series]. *)

From stdpp Require Import sorting.
From S2P Require Import Prelude PlannerUtil Calendar Repeat PlannerState Series.
Import Util Calendar Repeats Planner Series.

#[local] Open Scope Z_scope.

Module SeriesRules.

(** ** Numbering the instances *)

(** A monthly rule has its day in the month it begins in: otherwise its first
    month is counted and has no instance. *)
Definition countsFromStart (r : Repeat) (p : Parts) : Prop :=
  kind r = #"monthly" -> date p <= cMonthDay (compileRepeat r).

Lemma shift_exists (P : Z -> Prop) (a b c : Z) : b - a = c ->
  (exists j, a <= j /\ P j) <-> (exists o, b <= o /\ P (o - c)).
Proof.
  intros <-. split.
  - intros (j & Hj & HP). exists (j + (b - a)). split; [lia|]. by replace (j + (b - a) - (b - a)) with j by lia.
  - intros (o & Ho & HP). exists (o - (b - a)). split; [lia|done].
Qed.

Lemma sorted_below (l : list Z) (x : Z) (j : nat) : StronglySorted Z.lt l -> (j < length l)%nat ->
  nth j l 0 < x <-> Z.of_nat j < Z.of_nat (length (filter (fun y => y < x) l)).
Proof.
  intros S. revert j. induction S as [|a l S IH H]; intros j Hj; cbn [length] in Hj; [lia|].
  rewrite filter_cons. rewrite List.Forall_forall in H. case_decide as C.
  - destruct j as [|j]; cbn [nth length]; [lia|]. rewrite IH by lia. lia.
  - assert (filter (fun y : Z => y < x) l = []) as ->.
    { apply elem_of_nil_inv. intros y [Hy1 Hy2]%list_elem_of_filter. apply list_elem_of_In, H in Hy2. lia. }
    cbn [nth length]. split; [|lia]. destruct j as [|j]; [lia|]. intros L.
    specialize (H (nth j l 0)). rewrite <- list_elem_of_In in H.
    assert (nth j l 0 ∈ l) as E by (apply list_elem_of_In, nth_In; lia). specialize (H E). lia.
Qed.

(** The compiled rule depends on the last day and the count in two members. *)
Definition withLimits (rule : CompiledRepeat) (e c : option Z) : CompiledRepeat :=
  {| cKind := cKind rule; cInterval := cInterval rule; isValid := isValid rule; cStart := cStart rule; cEnd := e;
     cCount := c; positions := positions rule; weekdayMask := weekdayMask rule; startWeek := startWeek rule;
     skippedInFirstWeek := skippedInFirstWeek rule; startYear := startYear rule; startMonth := startMonth rule;
     startDate := startDate rule; cMonthDay := cMonthDay rule |}.

Lemma compile_range (r : Repeat) (last : option bytes) (n : option Z) :
  exists e c, compileRepeat (withRange r (startDay r) last n) = withLimits (compileRepeat r) e c.
Proof. eexists _, _. reflexivity. Qed.

Section Numbering.
Context (rule : CompiledRepeat) (p : Parts) (K : keyDate p) (Hv : isValid rule = true)
  (Hs : cStart rule = Some (daysOf p)) (Hi : 0 < cInterval rule) (Hy : startYear rule = year p)
  (Hm : startMonth rule = month p) (Hd : startDate rule = date p) (H1 : 1 <= cMonthDay rule).

Definition numbers (h : Z -> Z) : Prop :=
  (forall o o', 1 <= o -> o < o' -> h o < h o') /\ (forall o, 1 <= o -> daysOf p <= h o) /\
  forall x c e, let rule' := withLimits rule x c in daysOf p <= e -> afterEnd rule' e = false ->
    occursOnEpoch rule' e = true <-> exists o, 1 <= o /\ e = h o /\ overCount rule' o = false.

Lemma daily_numbered : cKind rule = #"daily" -> exists h, numbers h.
Proof.
  intros Hk. exists (fun o => daysOf p + (o - 1) * cInterval rule). split_and!; [nia|nia|].
  intros x c e rule' He Ha. rewrite (occurs_daily rule' _ Hv Hs Hi e Hk He Ha). cbn [cInterval withLimits rule']. split.
  - intros (j & -> & Ho). exists (j + 1). split_and!; [nia|f_equal; lia|done].
  - intros (o & A & -> & Ho). exists (o - 1). split; [done|]. by replace (o - 1 + 1) with o by lia.
Qed.

(** Days [g 0 < g 1 < ...], the first not before the first day, are numbered from 1. *)
Lemma numbered_from_zero (g : Z -> Z) :
  (forall i j, 0 <= i -> i < j -> g i < g j) -> daysOf p <= g 0 ->
  (forall x c e, let rule' := withLimits rule x c in daysOf p <= e -> afterEnd rule' e = false ->
     occursOnEpoch rule' e = true <-> exists j, 0 <= j /\ e = g j /\ overCount rule' (j + 1) = false) ->
  exists h, numbers h.
Proof.
  intros M S O. exists (fun o => g (o - 1)). split_and!.
  - intros o o' A B. apply M; lia.
  - intros o A. destruct (decide (o = 1)) as [->|]; [done|]. trans (g 0); [done|]. apply Z.lt_le_incl, M; lia.
  - intros x c e rule' He Ha. pose proof (O x c e He Ha) as E. cbn zeta in E. fold rule' in E.
    rewrite E, (shift_exists _ 0 1 1) by lia.
    split; intros (o & A & -> & B); exists o; split_and!; try done; revert B; by replace (o - 1 + 1) with o by lia.
Qed.

Lemma monthly_numbered : cKind rule = #"monthly" -> date p <= cMonthDay rule -> exists h, numbers h.
Proof.
  intros Hk C. apply (numbered_from_zero (monthlyEpoch rule)).
  - exact (monthlyEpoch_mono rule p K Hi Hy Hm H1).
  - pose proof (monthlyEpoch_eq rule p K Hi Hy Hm 0 ltac:(lia)) as E. cbn zeta in E.
    rewrite E, Z.mul_0_l, Z.add_0_r, daysOf_monthStart by apply (keyDate_ranges p K).
    pose proof (validDate_monthLen p (proj1 K)). lia.
  - intros x c e rule' He Ha. rewrite (occurs_monthly rule' _ Hv Hs Hi e Hk He Ha). cbn zeta.
    rewrite (monthly_walk rule' p K Hi Hy Hm H1 (daysOf p) e ltac:(lia) He (fun j => overCount rule' (j + 1) = false)).
    unfold monthlySkip. rewrite civil_daysOf, Z.sub_diag by apply K.
    change (Z.max 0 (- floorDiv (- 0) (cInterval rule'))) with 0. unfold monthlyEpoch. reflexivity.
Qed.

Lemma yearly_numbered : cKind rule <> #"weekly" -> cKind rule <> #"daily" -> cKind rule <> #"monthly" ->
  exists h, numbers h.
Proof.
  intros K1 K2 K3. apply (numbered_from_zero (yearlyEpoch rule)).
  - exact (yearlyEpoch_mono rule p K Hi Hy Hm Hd).
  - pose proof (yearlyEpoch_eq rule p K Hi Hy Hm Hd 0 ltac:(lia)) as E. cbn zeta in E.
    rewrite E, daysOf_monthStart by apply (keyDate_ranges p K).
    replace (monthIndex p + 0 * cInterval rule * 12) with (monthIndex p) by lia.
    pose proof (validDate_monthLen p (proj1 K)). lia.
  - intros x c e rule' He Ha. rewrite (occurs_yearly rule' _ Hv Hs Hi e K1 K2 K3 He Ha). cbn zeta.
    rewrite (yearly_walk rule' p K Hi Hy Hm Hd (daysOf p) e ltac:(lia) He (fun j => overCount rule' (j + 1) = false)).
    unfold yearlySkip. rewrite civil_daysOf, Z.sub_diag by apply K. reflexivity.
Qed.

Lemma weeklyEpoch_limits (x c : option Z) (j : Z) : weeklyEpoch (withLimits rule x c) j = weeklyEpoch rule j.
Proof. reflexivity. Qed.

Section Weekly.
Context (Hk : cKind rule = #"weekly") (Hne : positions rule <> [])
  (Hpos : Forall (fun q => 0 <= q <= 6) (positions rule))
  (Hmask : weekdayMask rule = foldl (fun mask q => Z.lor mask (bitOf (Z.rem (q + 1) 7))) 0 (positions rule))
  (Hsorted : StronglySorted Z.lt (positions rule)) (Hw : startWeek rule = weekIndexOfEpoch (daysOf p))
  (Hskip : skippedInFirstWeek rule =
     Z.of_nat (length (filter (fun q => q < mondayBased (weekdayOfEpoch (daysOf p))) (positions rule)))).

Lemma weekly_first (j : Z) : 0 <= j -> daysOf p <= weeklyEpoch rule j <-> skippedInFirstWeek rule <= j.
Proof.
  intros Hj. set (n := length (positions rule)). assert (Hn : (0 < n)%nat) by (by apply positions_length).
  assert (M : forall a b, a < b -> weeklyEpoch rule a < weeklyEpoch rule b) by (by apply weeklyEpoch_mono).
  assert (F : forall t, (t < n)%nat -> daysOf p <= weeklyEpoch rule (Z.of_nat t) <-> skippedInFirstWeek rule <= Z.of_nat t).
  { intros t Ht. destruct (lookup_lt_is_Some_2 (positions rule) t Ht) as [q Hq].
    pose proof (weeklyEpoch_at rule 0 t q Hq) as E. rewrite Z.mul_0_l, Z.mul_0_l, Z.add_0_l, Z.add_0_r, Hw in E.
    rewrite E, Hskip, (week_split (daysOf p)) at 1.
    pose proof (sorted_below (positions rule) (mondayBased (weekdayOfEpoch (daysOf p))) t Hsorted Ht) as B.
    rewrite (nth_lookup_Some _ _ _ _ Hq) in B. lia. }
  destruct (decide (j < Z.of_nat n)) as [L|L].
  - rewrite <- (Z2Nat.id j) by done. apply F. lia.
  - assert (skippedInFirstWeek rule <= Z.of_nat n) by (rewrite Hskip; apply Nat2Z.inj_le, length_filter).
    split; [lia|]. intros _. trans (weeklyEpoch rule (Z.of_nat n)).
    + pose proof (weeklyEpoch_at rule 1 0 (nth 0 (positions rule) 0)) as E.
      rewrite Z.mul_1_l, Z.mul_1_l, Z.add_0_r in E. fold n in E. rewrite E, (week_split (daysOf p)), Hw.
      * pose proof (position_range rule Hi Hne Hpos Hsorted 0 Hn). unfold mondayOfWeek.
        pose proof (weekday_range (daysOf p)). unfold mondayBased.
        pose proof (Z.rem_bound_pos (weekdayOfEpoch (daysOf p) + 6) 7 ltac:(lia) ltac:(lia)). lia.
      * destruct (lookup_lt_is_Some_2 (positions rule) 0 Hn) as [q Hq]. by rewrite (nth_lookup_Some _ _ _ _ Hq).
    + destruct (decide (j = Z.of_nat n)) as [->|]; [done|]. apply Z.lt_le_incl, M; lia.
Qed.

Lemma weekly_numbered : exists h, numbers h.
Proof.
  exists (fun o => weeklyEpoch rule (o - (1 - skippedInFirstWeek rule))).
  assert (Hsk : 0 <= skippedInFirstWeek rule) by (rewrite Hskip; lia).
  split_and!.
  - intros o o' A B. apply weeklyEpoch_mono; (done || lia).
  - intros o A. apply weekly_first; lia.
  - intros x c e rule' He Ha. rewrite (occurs_weekly rule' _ Hv Hs Hi Hpos Hmask Hsorted e Hk He Ha).
    rewrite (weekly_walk rule' Hi Hne Hpos Hsorted (daysOf p) e
      (fun z => overCount rule' (z + (1 - skippedInFirstWeek rule')) = false) He).
    change (skippedInFirstWeek rule') with (skippedInFirstWeek rule). unfold weeklySkip.
    change (startWeek rule') with (startWeek rule). rewrite Hw, Z.sub_diag.
    change (- floorDiv (- 0) (cInterval rule')) with 0. rewrite Z.mul_0_l.
    transitivity (exists j, skippedInFirstWeek rule <= j /\ e = weeklyEpoch rule j /\
      overCount rule' (j + (1 - skippedInFirstWeek rule)) = false).
    + split; intros (j & A & B & C); exists j; (split; [|by split]); [|lia]. apply weekly_first; [done|]. subst e. done.
    + rewrite (shift_exists _ _ 1 (1 - skippedInFirstWeek rule)) by lia.
      split; intros (o & A & B & C); exists o; (split_and!; try done); revert C;
        by replace (o - (1 - skippedInFirstWeek rule) + (1 - skippedInFirstWeek rule)) with o by lia.
Qed.
End Weekly.
End Numbering.

(** Every valid rule with a first day is numbered, whatever its end and count. *)
Lemma rule_numbered (r : Repeat) (p : Parts) : validateRepeat r = None -> keyDate p -> startDay r = keyOf p ->
  countsFromStart r p -> exists h, numbers (compileRepeat r) p h.
Proof.
  intros V K St C. destruct (compile_started r p V K St) as (Hv & Hs & Hi & Hy & Hm & Hd & H1 & Hw).
  change (kind r) with (cKind (compileRepeat r)) in *.
  destruct (decide (kind r = #"weekly")) as [E|E].
  { destruct (positions_spec r V E) as (Hne & Hpos & Hsorted). apply weekly_numbered; try done.
    unfold compileRepeat. cbn [skippedInFirstWeek positions]. rewrite St.
    destruct (isEmpty (keyOf p)) eqn:Em; [|by rewrite epochDays_keyOf by done].
    revert Em. rewrite keyOf_eq by done. done. }
  destruct (decide (kind r = #"daily")) as [E1|E1]; [by apply daily_numbered|].
  destruct (decide (kind r = #"monthly")) as [E2|E2]; [apply monthly_numbered; (done || by apply C)|].
  by apply yearly_numbered.
Qed.

(** ** The number of instances before a day *)

Lemma downward (Q : Z -> bool) (n : nat) : (forall o, 1 <= o -> Q (o + 1) = true -> Q o = true) ->
  (forall o, Z.of_nat n < o -> Q o = false) -> exists m, 0 <= m /\ forall o, 1 <= o -> Q o = true <-> o <= m.
Proof.
  intros Dn. induction n as [|n IH]; intros Up.
  - exists 0. split; [lia|]. intros o Ho. rewrite (Up o) by lia. split; [done|lia].
  - destruct (Q (Z.of_nat (S n))) eqn:E.
    + exists (Z.of_nat (S n)). split; [lia|]. intros o Ho. split.
      * intros Q1. apply Znot_gt_le. intros G. rewrite Up in Q1 by lia. done.
      * intros Hle. assert (forall k : nat, Z.of_nat k < Z.of_nat (S n) -> Q (Z.of_nat (S n) - Z.of_nat k) = true) as A.
        { induction k as [|k IHk]; intros Hk; [by rewrite Z.sub_0_r|]. apply Dn; [lia|].
          replace (Z.of_nat (S n) - Z.of_nat (S k) + 1) with (Z.of_nat (S n) - Z.of_nat k) by lia. apply IHk. lia. }
        specialize (A (Z.to_nat (Z.of_nat (S n) - o)) ltac:(lia)). revert A. by rewrite Z2Nat.id, Z.sub_sub_distr, Z.sub_diag by lia.
    + apply IH. intros o Ho. destruct (decide (o = Z.of_nat (S n))) as [->|]; [done|]. apply Up. lia.
Qed.

Lemma sorted_map (h : Z -> Z) (m : nat) : (forall o o', 1 <= o -> o < o' -> h o < h o') ->
  StronglySorted Z.lt (h <$> upTo 1 m).
Proof.
  intros M. assert (forall l, Forall (fun o => 1 <= o) l -> StronglySorted Z.lt l -> StronglySorted Z.lt (h <$> l)) as A.
  { induction 2 as [|a l S IH F]; cbn; constructor.
    - apply IH. by inversion H.
    - apply Forall_elem. intros y (o & -> & Ho)%list_elem_of_fmap. rewrite Forall_elem in F. inversion H.
      apply M; [done|]. by apply F. }
  apply A; [|apply upTo_sorted]. apply Forall_elem. intros o Ho%upTo_elem. lia.
Qed.

Lemma numbers_growth (rule : CompiledRepeat) (p : Parts) (h : Z -> Z) (o : Z) : numbers rule p h -> 1 <= o ->
  daysOf p + (o - 1) <= h o.
Proof.
  intros (M & S & _). intros Ho. assert (forall k : nat, daysOf p + Z.of_nat k <= h (1 + Z.of_nat k)) as A.
  { induction k as [|k IH]; [rewrite Z.add_0_r; apply S; lia|].
    specialize (M (1 + Z.of_nat k) (1 + Z.of_nat (Datatypes.S k)) ltac:(lia) ltac:(lia)). lia. }
  specialize (A (Z.to_nat (o - 1))). rewrite Z2Nat.id in A by lia. by replace (1 + (o - 1)) with o in A by lia.
Qed.

Lemma withLimits_eta (rule : CompiledRepeat) : withLimits rule (cEnd rule) (cCount rule) = rule.
Proof. by destruct rule. Qed.

Lemma overCount_down (rule : CompiledRepeat) (o o' : Z) : o <= o' -> overCount rule o' = false -> overCount rule o = false.
Proof. unfold overCount. destruct (cCount rule); [|done]. lia. Qed.

Lemma afterEnd_down (rule : CompiledRepeat) (e e' : Z) : e <= e' -> afterEnd rule e' = false -> afterEnd rule e = false.
Proof. unfold afterEnd. destruct (cEnd rule); [|done]. lia. Qed.

(** The instances before a day are those with the first numbers. *)
Lemma rank_before (rule : CompiledRepeat) (p : Parts) (h : Z -> Z) (D : Z) : numbers rule p h -> daysOf p < D ->
  let B := Z.of_nat (length (filter (occursOnEpoch rule) (daysBetween (daysOf p) (D - 1)))) in
  forall o, 1 <= o -> (h o < D /\ afterEnd rule (h o) = false /\ overCount rule o = false) <-> o <= B.
Proof.
  intros N HD B. pose proof N as (M & S & O).
  set (Q o := (h o <? D) && negb (afterEnd rule (h o)) && negb (overCount rule o)).
  assert (QP : forall o, Q o = true <-> h o < D /\ afterEnd rule (h o) = false /\ overCount rule o = false).
  { intros o. unfold Q. rewrite !andb_true_iff, !negb_true_iff, Z.ltb_lt. tauto. }
  destruct (downward Q (Z.to_nat (D - daysOf p))) as (m & Hm & Hq).
  { intros o Ho. rewrite !QP. specialize (M o (o + 1) Ho ltac:(lia)). intros (A & A1 & A2). split_and!; [lia| |].
    - eapply afterEnd_down; [|exact A1]. lia.
    - eapply overCount_down; [|exact A2]. lia. }
  { intros o Ho. apply not_true_iff_false. rewrite QP. pose proof (numbers_growth _ _ _ o N ltac:(lia)). lia. }
  assert (L : filter (occursOnEpoch rule) (daysBetween (daysOf p) (D - 1)) = h <$> upTo 1 (Z.to_nat m)).
  { apply sorted_lt_eq; [apply filter_sorted, upTo_sorted|by apply sorted_map|]. intros e.
    rewrite list_elem_of_filter, daysBetween_elem, list_elem_of_fmap, Is_true_true.
    pose proof (O (cEnd rule) (cCount rule) e) as Oe. cbn zeta in Oe. rewrite withLimits_eta in Oe. split.
    - intros [Oc He]. pose proof (occurs_bounds rule (daysOf p) (D - 1) e Oc He) as [_ Hhi].
      apply walkHi_afterEnd in Hhi. apply Oe in Oc as (o & Ho & -> & Hc); [|lia|done].
      exists o. split; [done|]. apply upTo_elem. assert (Q o = true) as Qo%Hq by (apply QP; split_and!; (done || lia)); lia.
    - intros (o & -> & Ho%upTo_elem). assert (Q o = true) as Qo by (apply Hq; lia). apply QP in Qo as (Q1 & Q2 & Q3).
      pose proof (S o ltac:(lia)). split; [|lia]. apply Oe; [lia|done|]. exists o. split_and!; (done || lia). }
  intros o Ho. unfold B. rewrite L, length_fmap, upTo_length, Z2Nat.id, <- QP by done. by apply Hq.
Qed.

(** ** The part before a day *)

Lemma occurs_before_start (rule : CompiledRepeat) (st e : Z) : cStart rule = Some st -> e < st ->
  occursOnEpoch rule e = false.
Proof.
  intros S L. unfold occursOnEpoch, ordinalOfEpoch. rewrite S. rewrite (proj2 (Z.ltb_lt e st) L). by destruct (isValid rule).
Qed.

Lemma occurs_after_end (rule : CompiledRepeat) (e : Z) : afterEnd rule e = true -> occursOnEpoch rule e = false.
Proof.
  intros A. unfold occursOnEpoch, ordinalOfEpoch. unfold afterEnd in A. rewrite A.
  destruct (isValid rule); [|done]. by destruct (cStart rule) as [st|]; [destruct (e <? st)|].
Qed.

(** The ordinal of a day does not depend on the last day and the count. *)
Lemma occurs_split (rule : CompiledRepeat) (x c : option Z) (e : Z) :
  occursOnEpoch (withLimits rule x c) e =
  negb (afterEnd (withLimits rule x c) e) &&
  match ordinalOfEpoch (withLimits rule None None) e with
  | None => false
  | Some o => negb (overCount (withLimits rule x c) o)
  end.
Proof.
  assert (E : ordinalOfEpoch (withLimits rule x c) e
              = if afterEnd (withLimits rule x c) e then None else ordinalOfEpoch (withLimits rule None None) e).
  { unfold ordinalOfEpoch, afterEnd. cbn [withLimits isValid cStart cEnd].
    destruct (isValid rule); [|by destruct x as [y|]; [destruct (y <? e)|]].
    destruct (cStart rule) as [st|]; [destruct (e <? st); [by destruct x as [y|]; [destruct (y <? e)|]|]|];
      by destruct x as [y|]; [destruct (y <? e)|]. }
  unfold occursOnEpoch. rewrite E. clear E. destruct (afterEnd _ e); [done|].
  destruct (ordinalOfEpoch _ e) as [o|]; [|done]. unfold overCount. cbn [cCount withLimits]. destruct c; [|done]. cbn. lia.
Qed.

Section Divide.
Context (r : Repeat) (p q : Parts) (V : validateRepeat r = None) (Kp : keyDate p) (Kq : keyDate q)
  (St : startDay r = keyOf p) (PQ : daysOf p < daysOf q)
  (C : count r = None \/ countsFromStart r p)
  (HE : afterEnd (compileRepeat r) (daysOf q - 1) = false).

Notation rule := (compileRepeat r).
Notation D := (daysOf q).

Lemma previous_day : keyDay (D - 1) /\ addDays (keyOf q) (-1) = keyOfEpoch (D - 1).
Proof.
  destruct (keyOf_epoch p Kp) as [_ P]. destruct (keyOf_epoch q Kq) as [E Q]. split.
  - unfold keyDay in *. lia.
  - rewrite <- E, addDays_keyOfEpoch by done. f_equal. 
Qed.

Lemma instancesBefore_rank :
  instancesBefore r (keyOf q) = Z.of_nat (length (filter (occursOnEpoch rule) (daysBetween (daysOf p) (D - 1)))).
Proof.
  destruct previous_day as [Kd E]. unfold instancesBefore. rewrite St, E, keyOfEpoch_eq.
  assert (isEmpty (keyOf p) = false) as -> by (rewrite keyOf_eq by done; done).
  assert (keyDate (civilFromDays (D - 1))) by (by apply keyDay_iff).
  assert (wellFormed r) by (split; [done|right; rewrite St; by exists p]).
  rewrite expandRepeat_days by done.
  rewrite <- occurring_keys, length_fmap by done.
  by rewrite (proj2 (civil_spec (D - 1))).
Qed.

Lemma compile_ended : exists c, compileRepeat (endedRule r (keyOf q)) = withLimits rule (Some (D - 1)) c /\
  (forall n, c = Some n -> count r <> None /\ n = Z.max 1 (instancesBefore r (keyOf q))) /\ (c = None -> count r = None).
Proof.
  destruct previous_day as [Kd E]. unfold endedRule. rewrite E. unfold compileRepeat at 1.
  cbn [withRange kind interval weekdays monthDay startDay endDay count].
  assert (T : keyOfEpoch (D - 1) <> []).
  { rewrite keyOfEpoch_eq, keyOf_eq by (by apply keyDay_iff). done. }
  exists (match count r with Some _ => Some (Z.max 1 (instancesBefore r (keyOf q))) | None => None end). split_and!.
  - unfold withLimits, compileRepeat. cbn. f_equal.
    + destruct (keyOfEpoch (D - 1)) as [|b l] eqn:El; [done|]. cbn [truthy default]. rewrite <- El, epochDays_keyOfEpoch; done.
    + destruct (count r); [|done]. rewrite (proj2 (Z.eqb_neq _ _)) by lia. done.
  - by destruct (count r); intros n [= <-].
  - by destruct (count r).
Qed.

Lemma ended_days (e : Z) :
  occursOnEpoch (compileRepeat (endedRule r (keyOf q))) e = occursOnEpoch rule e && (e <? D).
Proof.
  destruct compile_ended as (c & -> & Hc & Hn). destruct (compile_started r p V Kp St) as (_ & Hs & _).
  destruct (e <? D) eqn:Le.
  2: { rewrite andb_false_r. apply occurs_after_end. unfold afterEnd. cbn [cEnd withLimits]. lia. }
  rewrite andb_true_r. destruct (decide (e < daysOf p)) as [B|B].
  { by rewrite !(occurs_before_start _ (daysOf p)) by done. }
  assert (A1 : afterEnd (withLimits rule (Some (D - 1)) c) e = false) by (unfold afterEnd; cbn [cEnd withLimits]; lia).
  assert (A2 : afterEnd rule e = false) by (eapply afterEnd_down; [|exact HE]; lia).
  destruct c as [n|].
  - destruct (Hc n eq_refl) as [Hr ->]. destruct C as [|Cs]; [done|].
    destruct (rule_numbered r p V Kp St Cs) as [h N]. pose proof (rank_before rule p h D N PQ) as R. cbn zeta in R.
    rewrite <- instancesBefore_rank in R. destruct N as (M & S & O).
    pose proof (O (cEnd rule) (cCount rule) e ltac:(lia)) as O2. cbn zeta in O2. rewrite withLimits_eta in O2. specialize (O2 A2).
    pose proof (O _ _ e ltac:(lia) A1) as O1. cbn zeta in O1. apply eq_true_iff_eq. rewrite O1, O2.
    split; intros (o & Ho & -> & L); exists o; (split_and!; try done).
    + destruct (decide (o <= instancesBefore r (keyOf q))) as [Lo|Lo]; [by apply R in Lo as (_ & _ & ?)|].
      unfold overCount in L. cbn [cCount withLimits] in L. assert (o = 1) as -> by lia.
      unfold overCount, compileRepeat. cbn [cCount]. destruct (count r) as [k|] eqn:Ek; [|done].
      destruct (validateRepeat_spec r V) as (_ & _ & _ & _ & Kc). specialize (Kc k Ek). destruct (k =? 0); [done|lia].
    + assert (o <= instancesBefore r (keyOf q)) as Lo by (apply R; [done|split_and!]; (done || lia)).
      unfold overCount. cbn [cCount withLimits]. lia.
  - rewrite <- (withLimits_eta rule) at 2. rewrite !occurs_split, A1. rewrite withLimits_eta, A2. cbn [negb andb].
    destruct (ordinalOfEpoch _ e); [|done]. unfold overCount, compileRepeat. cbn [cCount withLimits]. by rewrite Hn.
Qed.
End Divide.

(** ** The part from a day on *)

Lemma rem_shift (i a b x : Z) : 0 < i -> Z.rem (b - a) i = 0 -> (Z.rem (x - b) i =? 0) = (Z.rem (x - a) i =? 0).
Proof.
  intros Hi H. apply (rem_multiple _ _ Hi) in H as [k H]. apply eq_true_iff_eq.
  rewrite !Z.eqb_eq, !rem_multiple by done.
  split; intros [j Hj]; [exists (j + k)|exists (j - k)]; nia.
Qed.

(** Two increasing numberings of the same days are equal. *)
Lemma numberings_equal (f g : Z -> Z) : (forall o o', 1 <= o -> o < o' -> f o < f o') ->
  (forall o o', 1 <= o -> o < o' -> g o < g o') ->
  (forall e, (exists o, 1 <= o /\ e = f o) <-> (exists o, 1 <= o /\ e = g o)) -> forall o, 1 <= o -> f o = g o.
Proof.
  intros F G E. assert (A : forall n : nat, forall o, 1 <= o -> o < Z.of_nat n -> f o = g o).
  { induction n as [|n IH]; intros o Ho Hn; [lia|]. apply Z.le_antisymm.
    - destruct (proj2 (E (g o)) (ex_intro _ o (conj Ho eq_refl))) as (k & Hk & Ek).
      destruct (decide (k < o)) as [L|L]; [|rewrite Ek; destruct (decide (k = o)) as [->|]; [done|apply Z.lt_le_incl, F; lia]].
      rewrite IH in Ek by lia. specialize (G k o Hk L). lia.
    - destruct (proj1 (E (f o)) (ex_intro _ o (conj Ho eq_refl))) as (k & Hk & Ek).
      destruct (decide (k < o)) as [L|L]; [|rewrite Ek; destruct (decide (k = o)) as [->|]; [done|apply Z.lt_le_incl, G; lia]].
      rewrite <- IH in Ek by lia. specialize (F k o Hk L). lia. }
  intros o Ho. apply (A (Datatypes.S (Z.to_nat o))); lia.
Qed.

(** A rule of months or years without a day of the month of its own takes the
    day it begins on; a part that begins on another one would move. *)
Definition keepsDate (r : Repeat) (p q : Parts) : Prop :=
  kind r <> #"weekly" -> kind r <> #"daily" -> (kind r = #"monthly" -> monthDay r = None) -> date q = date p.

Section DivideNext.
Context (r : Repeat) (p q : Parts) (V : validateRepeat r = None) (Kp : keyDate p) (Kq : keyDate q)
  (St : startDay r = keyOf p) (PQ : daysOf p < daysOf q)
  (C : count r = None \/ countsFromStart r p)
  (Hend : forall s, endDay r = Some s -> s = [] \/ realDay s)
  (Occ : occursOnEpoch (compileRepeat r) (daysOf q) = true) (KD : keepsDate r p q).

Notation rule := (compileRepeat r).
Notation next := (nextRule r (keyOf q)).
Notation D := (daysOf q).
Notation raw c := (ordinalOfEpoch (withLimits c None None)).

Lemma occurs_D : afterEnd rule D = false /\ (exists o, raw rule D = Some o).
Proof.
  revert Occ. rewrite <- (withLimits_eta rule) at 1. rewrite occurs_split, withLimits_eta.
  destruct (afterEnd rule D); [done|]. destruct (raw rule D); [|done]. by eauto.
Qed.

Lemma validate_next : validateRepeat next = None.
Proof.
  destruct occurs_D as [HE _]. revert V HE. unfold validateRepeat, nextRule.
  cbn [withRange kind interval weekdays monthDay startDay endDay count].
  assert (isEmpty (keyOf q) = false) as -> by (rewrite keyOf_eq by done; done).
  assert (isEmpty (startDay r) = false) as -> by (rewrite St, keyOf_eq by done; done).
  rewrite isDayKey_keyOf by done. cbn [negb].
  assert (N : forall c, (c <? 1) || (kMaxRepeatCount <? c) = false ->
    (Z.max 1 (c - instancesBefore r (keyOf q)) <? 1) || (kMaxRepeatCount <? Z.max 1 (c - instancesBefore r (keyOf q))) = false).
  { intros c. assert (0 <= instancesBefore r (keyOf q)) by (unfold instancesBefore; destruct (isEmpty _); lia).
    unfold kMaxRepeatCount. lia. }
  destruct ((interval r <? 1) || _); [done|]. destruct (bool_decide _ && _); [done|].
  destruct (match monthDay r with Some _ => _ | None => _ end); [done|]. rewrite St, isDayKey_keyOf by done. cbn [negb].
  assert (E : truthy (endDay r) && (negb (isDayKey (default [] (endDay r))) || true && blt (default [] (endDay r)) (keyOf p)) = false ->
    afterEnd rule D = false ->
    truthy (endDay r) && (negb (isDayKey (default [] (endDay r))) || true && blt (default [] (endDay r)) (keyOf q)) = false).
  { unfold afterEnd, compileRepeat. cbn [cEnd]. destruct (truthy (endDay r)) eqn:T; [|done].
    destruct (endDay r) as [s|] eqn:Es; [|done]. destruct (Hend s eq_refl) as [->|(l & Kl & ->)]; [done|].
    cbn [from_option Datatypes.id andb]. rewrite isDayKey_keyOf, !blt_keyOf, epochDays_keyOf by done. done. }
  destruct (truthy (endDay r) && _) eqn:T; [done|]. intros W HE. rewrite (E eq_refl HE).
  destruct (count r) as [c|]; [|done]. specialize (N c). destruct ((c <? 1) || _); [done|]. by rewrite N.
Qed.

Notation onRule c e := (match raw c e with Some _ => true | None => false end).

Lemma next_pattern (e : Z) : D <= e -> onRule (compileRepeat next) e = onRule rule e.
Proof.
  intros He. destruct occurs_D as [_ [o0 Ho]].
  destruct (compile_started r p V Kp St) as (Hv & Hs & Hi & Hy & Hm & Hd & H1 & Hw).
  destruct (compile_started next q validate_next Kq eq_refl) as (Nv & Ns & _ & Ny & Nm & Nd & N1 & Nw).
  assert (Nk : cKind (compileRepeat next) = cKind rule) by reflexivity.
  assert (Ni : cInterval (compileRepeat next) = cInterval rule) by reflexivity.
  assert (Nmask : weekdayMask (compileRepeat next) = weekdayMask rule) by reflexivity.
  assert (Nmd : cKind rule = #"monthly" -> cMonthDay (compileRepeat next) = cMonthDay rule).
  { intros Ek. unfold compileRepeat. cbn [cMonthDay nextRule withRange monthDay startDay]. rewrite St.
    assert (isEmpty (keyOf q) = false) as -> by (rewrite keyOf_eq by done; done).
    assert (isEmpty (keyOf p) = false) as -> by (rewrite keyOf_eq by done; done).
    rewrite !parts_keyOf by done. destruct (monthDay r) as [d|] eqn:Ed.
    - destruct (validateRepeat_spec r V) as (_ & _ & Kd & _). specialize (Kd d Ed).
      by rewrite (proj2 (Z.eqb_neq d 0)) by lia.
    - apply KD; [| |done]; change (kind r) with (cKind rule); rewrite Ek; done. }
  assert (Nsd : cKind rule <> #"weekly" -> cKind rule <> #"daily" -> cKind rule <> #"monthly" -> date q = date p)
    by (intros; by apply KD).
  clear KD. revert Ho. generalize dependent (compileRepeat next). generalize dependent rule.
  intros ru. intros. revert Ho. unfold ordinalOfEpoch. cbn [withLimits isValid cStart cEnd cKind cInterval weekdayMask
    startWeek positions skippedInFirstWeek startYear startMonth startDate cMonthDay].
  rewrite Hv, Nv, Hs, Ns, Nk, Ni, Nmask. cbn [negb].
  rewrite (proj2 (Z.ltb_ge D (daysOf p))), (proj2 (Z.ltb_ge e (daysOf p))), (proj2 (Z.ltb_ge e D)) by lia.
  destruct (bool_decide (cKind ru = #"weekly")) eqn:Kw.
  { destruct (Z.land (weekdayMask ru) (bitOf (weekdayOfEpoch D)) =? 0); [done|].
    destruct (Z.land (weekdayMask ru) (bitOf (weekdayOfEpoch e)) =? 0); [done|].
    destruct (Z.rem (weekIndexOfEpoch D - startWeek ru) (cInterval ru) =? 0) eqn:R; [|done]. apply Z.eqb_eq in R. intros _.
    rewrite Nw, (rem_shift _ (startWeek ru)) by (done || lia). by destruct (negb _). }
  destruct (bool_decide (cKind ru = #"daily")) eqn:Kdl.
  { destruct (Z.rem (D - daysOf p) (cInterval ru) =? 0) eqn:R; [|done]. apply Z.eqb_eq in R. intros _.
    rewrite (rem_shift _ (daysOf p)) by (done || lia). by destruct (_ =? 0). }
  rewrite civil_daysOf by apply Kq.
  destruct (bool_decide (cKind ru = #"monthly")) eqn:Km; apply bool_decide_eq_true in Km || apply bool_decide_eq_false in Km.
  { destruct (Z.rem (year q * 12 + month q - _) (cInterval ru) =? 0) eqn:R; [|done]. apply Z.eqb_eq in R. intros _.
    rewrite Ny, Nm, Nmd, (rem_shift _ (startYear ru * 12 + startMonth ru)) by (done || lia).
    destruct (negb _); [done|]. by destruct (_ =? _). }
  apply bool_decide_eq_false in Kw, Kdl.
  destruct (Z.rem (year q - startYear ru) (cInterval ru) =? 0) eqn:R; [|done]. apply Z.eqb_eq in R. cbn [negb orb].
  destruct (month q =? startMonth ru) eqn:Rm; [|done]. cbn [negb orb]. intros _.
  rewrite Ny, Nm, Nd, Hd, (Nsd Kw Kdl Km). rewrite (rem_shift _ (startYear ru)) by (done || lia).
  replace (month q) with (startMonth ru) by lia. destruct (negb _ || negb _); [done|]. by destruct (date _ =? _).
Qed.

Lemma compile_next : compileRepeat next = withLimits (compileRepeat next) (cEnd rule)
  (match count r with Some c => if c =? 0 then None else Some (Z.max 1 (c - instancesBefore r (keyOf q))) | None => None end).
Proof.
  assert (E : cEnd (compileRepeat next) = cEnd rule) by reflexivity.
  assert (F : cCount (compileRepeat next) = match count r with
    | Some c => if c =? 0 then None else Some (Z.max 1 (c - instancesBefore r (keyOf q))) | None => None end).
  { unfold compileRepeat. cbn [cCount nextRule withRange count]. destruct (count r) as [c|] eqn:Ec; [|done].
    destruct (validateRepeat_spec r V) as (_ & _ & _ & _ & Kc). specialize (Kc c Ec).
    by rewrite (proj2 (Z.eqb_neq c 0)), (proj2 (Z.eqb_neq _ 0)) by lia. }
  rewrite <- E, <- F. symmetry. apply withLimits_eta.
Qed.

Lemma next_countsFromStart : countsFromStart next q.
Proof.
  intros Hk. destruct occurs_D as [_ [o Ho]].
  unfold compileRepeat. cbn [cMonthDay nextRule withRange monthDay startDay].
  assert (isEmpty (keyOf q) = false) as -> by (rewrite keyOf_eq by done; done). rewrite parts_keyOf by done.
  destruct (monthDay r) as [d|] eqn:Ed; [|done].
  destruct (validateRepeat_spec r V) as (_ & _ & Kd & _). specialize (Kd d Ed).
  rewrite (proj2 (Z.eqb_neq d 0)) by lia. revert Ho. unfold ordinalOfEpoch.
  destruct (compile_started r p V Kp St) as (Hv & Hs & Hi & Hy & Hm & Hd & H1 & Hw).
  assert (cMonthDay rule = d) as Hc.
  { unfold compileRepeat. cbn [cMonthDay]. by rewrite Ed, (proj2 (Z.eqb_neq d 0)) by lia. }
  assert (cKind rule = #"monthly") as Kk by exact Hk.
  cbn [withLimits isValid cStart cEnd cKind cInterval startYear startMonth cMonthDay].
  rewrite Hv, Hs, Kk, Hc. cbn [negb]. rewrite (proj2 (Z.ltb_ge D (daysOf p))) by lia.
  rewrite !bool_decide_eq_false_2, bool_decide_eq_true_2 by done.
  rewrite civil_daysOf by apply Kq. destruct (negb _); [done|]. destruct (date q =? _) eqn:E; [|done]. lia.
Qed.

(** With a count, the numbering of the part goes on after the instances before it. *)
Lemma next_numbering (h : Z -> Z) : numbers rule p h -> exists h', numbers (compileRepeat next) q h' /\
  (forall o, 1 <= o -> h' o = h (instancesBefore r (keyOf q) + o)) /\
  overCount rule (instancesBefore r (keyOf q) + 1) = false /\ h (instancesBefore r (keyOf q) + 1) = D.
Proof.
  intros N. destruct (rule_numbered next q validate_next Kq eq_refl next_countsFromStart) as [h' N'].
  destruct occurs_D as [HE _]. pose proof N as (M & S & O). pose proof N' as (M' & S' & O').
  pose proof (rank_before rule p h D N PQ) as R. cbn zeta in R.
  rewrite <- (instancesBefore_rank r p q V Kp Kq St PQ) in R. set (B := instancesBefore r (keyOf q)) in *.
  assert (HB : 0 <= B) by (unfold B, instancesBefore; destruct (isEmpty _); lia).
  pose proof (O (cEnd rule) (cCount rule) D ltac:(lia)) as OD. cbn zeta in OD. rewrite withLimits_eta in OD.
  destruct (proj1 (OD HE) Occ) as (k & Hk & Ek & Ck). clear OD.
  assert (k = B + 1) as ->.
  { assert (~ k <= B) by (intros L; apply R in L as (L & _); lia).
    destruct (decide (k = B + 1)) as [|Nk]; [done|]. pose proof (M (B + 1) k ltac:(lia) ltac:(lia)) as L.
    assert (B + 1 <= B); [|lia]. apply R; [lia|]. split_and!; [lia| |].
    - eapply afterEnd_down; [|exact HE]. lia.
    - eapply overCount_down; [|exact Ck]. lia. }
  exists h'. split_and!; [done| |done|done].
  apply numberings_equal; [done|intros; apply M; lia|]. intros e.
  pose proof (fun He => O None None e He eq_refl) as Oe. pose proof (fun He => O' None None e He eq_refl) as Oe'.
  cbn zeta in Oe, Oe'. rewrite !occurs_split in *. cbn [negb andb afterEnd cEnd withLimits] in Oe, Oe'.
  split.
  - intros (o & Ho & ->). pose proof (S' o Ho). assert (D <= h' o) as Le by lia.
    pose proof (next_pattern (h' o) Le) as P.
    assert (onRule (compileRepeat next) (h' o) = true) as Q.
    { apply (proj2 (Oe' Le)). exists o. done. }
    rewrite P in Q. apply (proj1 (Oe ltac:(lia))) in Q as (j & Hj & Ej & _).
    exists (j - B). assert (B + 1 <= j).
    { destruct (decide (j < B + 1)) as [L|]; [|lia]. specialize (M j (B + 1) Hj L). lia. }
    split; [lia|]. rewrite Ej. f_equal. lia.
  - intros (o & Ho & ->). assert (D <= h (B + o)) as Le.
    { rewrite Ek. destruct (decide (o = 1)) as [->|]; [done|]. apply Z.lt_le_incl, M; lia. }
    assert (onRule rule (h (B + o)) = true) as Q.
    { apply (proj2 (Oe ltac:(lia))). exists (B + o). split_and!; (done || lia). }
    rewrite <- next_pattern in Q by done. apply (proj1 (Oe' Le)) in Q as (j & Hj & Ej & _). by exists j.
Qed.

Lemma next_days (e : Z) :
  occursOnEpoch (compileRepeat next) e = occursOnEpoch rule e && (D <=? e).
Proof.
  destruct (compile_started next q validate_next Kq eq_refl) as (_ & Ns & _).
  destruct (D <=? e) eqn:Le; [apply Z.leb_le in Le|apply Z.leb_gt in Le].
  2: { rewrite andb_false_r. by apply (occurs_before_start _ D). }
  rewrite andb_true_r.
  destruct (afterEnd rule e) eqn:A; [by rewrite !occurs_after_end by done|].
  destruct C as [Cn|Cs].
  - rewrite compile_next, Cn. rewrite <- (withLimits_eta rule) at 2. rewrite !occurs_split, withLimits_eta, A.
    assert (afterEnd (withLimits (compileRepeat next) (cEnd rule) None) e = false) as -> by done.
    pose proof (next_pattern e Le) as P. assert (cCount rule = None) as Cc by (unfold compileRepeat; cbn [cCount]; by rewrite Cn).
    cbn [negb andb]. revert P. unfold overCount. rewrite Cc. cbn [cCount withLimits negb].
    by destruct (raw (compileRepeat next) e), (raw rule e).
  - destruct (rule_numbered r p V Kp St Cs) as [h N]. destruct (next_numbering h N) as (h' & N' & Eh & Lc & HD).
    assert (HB : 0 <= instancesBefore r (keyOf q)) by (unfold instancesBefore; destruct (isEmpty _); lia).
    destruct N as (M & S & O). destruct N' as (M' & S' & O').
    pose proof (O (cEnd rule) (cCount rule) e ltac:(lia)) as Oe. cbn zeta in Oe. rewrite withLimits_eta in Oe. specialize (Oe A).
    rewrite compile_next. pose proof (O' (cEnd rule)
      (match count r with Some c => if c =? 0 then None else Some (Z.max 1 (c - instancesBefore r (keyOf q))) | None => None end)
      e Le A) as Oe'. cbn zeta in Oe'. apply eq_true_iff_eq. rewrite Oe, Oe'. clear Oe Oe'.
    set (B := instancesBefore r (keyOf q)) in *.
    assert (OC : forall o, 1 <= o -> overCount (withLimits (compileRepeat next) (cEnd rule)
      (match count r with Some c => if c =? 0 then None else Some (Z.max 1 (c - B)) | None => None end)) o
      = overCount rule (B + o)).
    { intros o Ho. revert Lc. unfold overCount at 1 3, compileRepeat. unfold overCount. cbn [cCount withLimits].
      destruct (count r) as [c|]; [|done]. destruct (c =? 0); [done|]. lia. }
    split; intros (o & Ho & -> & L).
    + rewrite OC in L by done. exists (B + o). split_and!; [lia|by apply Eh|done].
    + exists (o - B). assert (B + 1 <= o).
      { destruct (decide (o < B + 1)) as [Lo|]; [|lia]. specialize (M o (B + 1) Ho Lo). lia. }
      split_and!; [lia|rewrite Eh by lia; f_equal; lia|]. rewrite OC by lia. by replace (B + (o - B)) with o by lia.
Qed.
End DivideNext.

(** ** Theorems *)

Lemma occurrenceIn_before (os : list Occurrence) (day d : bytes) :
  occurrenceIn (filter (fun o => blt (oDay o) day) os) d = if blt d day then occurrenceIn os d else None.
Proof.
  induction os as [|o os IH]; [by destruct (blt d day)|]. rewrite filter_cons, (occurrenceIn_cons o os).
  destruct (blt (oDay o) day) eqn:E.
  - rewrite decide_True by done. rewrite occurrenceIn_cons, IH. case_bool_decide as Ed; [|done]. by rewrite <- Ed, E.
  - rewrite decide_False by (cbn; tauto). rewrite IH. case_bool_decide as Ed; [|done]. by rewrite <- Ed, E.
Qed.

Lemma getOccurrence_kept `{Entry T} (x y : T) (day d : bytes) : occurrencesOf y = keptBefore (occurrencesOf x) day ->
  blt d day = true -> getOccurrence y d = getOccurrence x d.
Proof.
  intros E B. unfold getOccurrence. rewrite E. destruct (occurrencesOf x) as [os|]; [|done]. cbn [keptBefore].
  by rewrite occurrenceIn_before, B.
Qed.

(** A series that a day after its first one divides: [p] is its first day, [q] the day. *)
Record dividable (r : Repeat) (p q : Parts) : Prop := {
  div_valid : validateRepeat r = None;
  div_first : keyDate p;
  div_day : keyDate q;
  div_start : startDay r = keyOf p;
  div_after : daysOf p < daysOf q;
  div_count : count r = None \/ countsFromStart r p;
  div_end : forall s, endDay r = Some s -> s = [] \/ realDay s;
  div_occurs : occursOn r (keyOf q) = true
}.

Section Divided.
Context (r : Repeat) (p q : Parts) (Dv : dividable r p q).

Lemma div_occurs_epoch : occursOnEpoch (compileRepeat r) (daysOf q) = true.
Proof.
  destruct Dv as [V Kp Kq St PQ C E Oc]. destruct (keyOf_epoch q Kq) as [<- Kd] in Oc. by rewrite occursOn_key in Oc.
Qed.

Lemma div_notAfterStart : notAfterStart r (keyOf q) = false.
Proof.
  destruct Dv as [V Kp Kq St PQ C E Oc]. unfold notAfterStart, ble. rewrite St, blt_keyOf by done.
  rewrite (proj2 (Z.ltb_lt _ _) PQ), keyOf_eq by done. done.
Qed.

Lemma ended_occursOn (e : Z) : keyDay e ->
  occursOn (endedRule r (keyOf q)) (keyOfEpoch e) = occursOn r (keyOfEpoch e) && blt (keyOfEpoch e) (keyOf q).
Proof.
  intros Ke. pose proof div_occurs_epoch as Oe. destruct Dv as [V Kp Kq St PQ C E Oc].
  destruct (keyOf_epoch q Kq) as [<- Kd]. rewrite blt_keyOfEpoch, !occursOn_key by done.
  destruct (keyOf_epoch q Kq) as [-> _]. apply (ended_days r p q); try done.
  destruct (occurs_D r q Oe) as [A _]. eapply afterEnd_down; [|exact A]. lia.
Qed.

Lemma next_occursOn (e : Z) : keepsDate r p q -> keyDay e ->
  occursOn (nextRule r (keyOf q)) (keyOfEpoch e) = occursOn r (keyOfEpoch e) && negb (blt (keyOfEpoch e) (keyOf q)).
Proof.
  intros KD Ke. pose proof div_occurs_epoch as Oe. destruct Dv as [V Kp Kq St PQ C E Oc].
  destruct (keyOf_epoch q Kq) as [<- Kd]. rewrite blt_keyOfEpoch, !occursOn_key by done.
  destruct (keyOf_epoch q Kq) as [-> _]. rewrite (next_days r p q), Z.leb_antisym by done. done.
Qed.
End Divided.

(** The part that stays has the instances before the day, with their marks. *)
Lemma ended_instances `{EntryLaws T} (x y : T) (r : Repeat) (p q : Parts) (e : Z) :
  repeatOf x = Some r -> dividable r p q -> repeatOf y = Some (endedRule r (keyOf q)) ->
  occurrencesOf y = keptBefore (occurrencesOf x) (keyOf q) -> keyDay e ->
  hasInstanceOn y (keyOfEpoch e) = hasInstanceOn x (keyOfEpoch e) && blt (keyOfEpoch e) (keyOf q).
Proof.
  intros R Dv Ry Oy Ke. unfold hasInstanceOn. rewrite R, Ry, (ended_occursOn r p q Dv) by done.
  destruct (blt (keyOfEpoch e) (keyOf q)) eqn:B; [|by rewrite !andb_false_r].
  by rewrite !andb_true_r, (getOccurrence_kept x y (keyOf q)) by done.
Qed.

(** What a division leaves: the old entry with the instances before the day, and
    a new one without marks. *)
Lemma splitIn_parts `{EntryLaws T} (st : State) (i newId : bytes) (patch : ItemPatch) (n : nat) (x : T)
    (r : Repeat) (p q : Parts) :
  findIn (itemsOf st) i = Some (n, x) -> repeatOf x = Some r -> dividable r p q ->
  exists old new, splitIn st i (keyOf q) patch newId = (Some new, setItems st (<[n := old]> (itemsOf st) ++ [new])) /\
    itemId old = i /\ itemId new = newId /\
    (forall e, keyDay e -> let d := keyOfEpoch e in hasInstanceOn old d = hasInstanceOn x d && blt d (keyOf q)) /\
    repeatOf new = Some (match pRepeat patch with
                         | Some (Some c) => applyRepeatPatch (nextRule r (keyOf q)) c
                         | _ => nextRule r (keyOf q)
                         end) /\
    occurrencesOf new = Some [].
Proof.
  intros F R Dv. pose proof (findIn_spec _ _ _ _ F) as (_ & Hi & _).
  unfold splitIn. rewrite F, R, (div_notAfterStart r p q Dv). cbn zeta.
  eexists _, _. unfold putAt. rewrite !items_setItems, setItems_setItems. split; [reflexivity|].
  split; [by entry|]. split; [entry; rewrite itemId_renew; by entry|]. split.
  - intros e Ke. apply (ended_instances _ _ r p q); [done..|by entry|by entry|done].
  - split; [|by entry]. entry. rewrite repeatOf_renew. by entry.
Qed.

(** What a cut leaves. *)
Lemma truncateIn_part `{EntryLaws T} (st : State) (i : bytes) (n : nat) (x : T) (r : Repeat) (p q : Parts) :
  findIn (itemsOf st) i = Some (n, x) -> repeatOf x = Some r -> dividable r p q ->
  exists y, truncateIn (T := T) st i (keyOf q) = (true, setItems st (<[n := y]> (itemsOf st))) /\ itemId y = i /\
    forall e, keyDay e -> let d := keyOfEpoch e in hasInstanceOn y d = hasInstanceOn x d && blt d (keyOf q).
Proof.
  intros F R Dv. pose proof (findIn_spec _ _ _ _ F) as (_ & Hi & _).
  unfold truncateIn. rewrite F, R, (div_notAfterStart r p q Dv).
  eexists _. split; [reflexivity|].
  split; [by entry|]. intros e Ke. apply (ended_instances _ _ r p q); [done..|by entry|by entry|done].
Qed.


(** ** Witnesses, and rules that do not divide well *)

Definition weeklySample : Repeat :=
  {| kind := #"weekly"; interval := 2; weekdays := Some [1; 4]; monthDay := None; startDay := #"2026-01-08";
     endDay := None; count := Some 7 |}.
Definition sampleFirst : Parts := {| year := 2026; month := 1; date := 8 |}.
Definition sampleDay : Parts := {| year := 2026; month := 2; date := 5 |}.

(** A lesson on Mondays and Thursdays of every second week, one of them excluded. *)
Definition sampleLesson : Event :=
  {| eId := #"e"; eName := #"Lesson"; eDescription := None; eStart := #"10:00"; eEnd := #"11:00"; eDay := None;
     eRepeat := Some weeklySample;
     eOccurrences := Some [{| oDay := #"2026-01-19"; excluded := Some true; done_ := None; doneSteps := None |};
                           {| oDay := #"2026-02-16"; excluded := Some true; done_ := None; doneSteps := None |}];
     eOrigin := None; eInstanceDay := None; isAllDay := None; isHoliday := None; color := None; eRemind := None;
     eProject := None |}.

Definition sampleState : State :=
  {| tasks := [sampleTask sampleMarks]; events := [sampleLesson]; projects := []; lists := []; budget := 600;
     settings := defaultSettings; reminded := [] |}.

Lemma sample_dividable : dividable weeklySample sampleFirst sampleDay.
Proof.
  split; try done; try (by apply keyDate_check). right. intros H. discriminate H.
Qed.


(** A birthday of 29 February, edited from a year on in which it is shown on
    the 28th, is shown on the 28th in leap years too. *)
Lemma split_moves_leap_day :
  let r := {| kind := #"yearly"; interval := 1; weekdays := None; monthDay := None; startDay := #"2024-02-29";
              endDay := None; count := None |} in
  validateRepeat r = None /\ occursOn r #"2025-02-28" = true /\ occursOn r #"2028-02-29" = true /\
  occursOn (nextRule r #"2025-02-28") #"2028-02-29" = false.
Proof. vm_compute. done. Qed.

(** A counted monthly rule that begins after its day of the month: cutting it
    removes an instance before the cut as well. *)
Lemma truncate_loses_instance :
  let r := {| kind := #"monthly"; interval := 1; weekdays := None; monthDay := Some 5; startDay := #"2026-01-10";
              endDay := None; count := Some 5 |} in
  validateRepeat r = None /\
  expandRepeat r #"2026-01-01" #"2026-04-04" = [ #"2026-02-05"; #"2026-03-05"] /\
  expandRepeat (endedRule r #"2026-04-05") #"2026-01-01" #"2026-12-31" = [ #"2026-02-05"].
Proof. vm_compute. done. Qed.

(** An excluded day after the division is shown again by the new series. *)
Lemma split_restores_excluded :
  hasInstanceOn sampleLesson #"2026-02-16" = false /\
  exists new st', splitIn sampleState #"e" #"2026-02-05" noPatch #"n" = (Some new, st') /\
    hasInstanceOn (T := Event) new #"2026-02-16" = true.
Proof. split; [vm_compute; done|]. eexists _, _. split; [reflexivity|vm_compute; done]. Qed.

(** ** A day on its own *)

Lemma findIn_app `{Entry T} (l k : list T) (i : bytes) (n : nat) (x : T) :
  findIn l i = Some (n, x) -> findIn (l ++ k) i = Some (n, x).
Proof. intros F. unfold findIn. by apply list_find_app_Some; left. Qed.

(** Detaching takes one day from the series, whose rule and other days stay, and
    adds an entry which names its series and its day and has no marks. *)
Lemma detachOf_one `{EntryLaws T} (st : State) (i day newId : bytes) (patch : ItemPatch) (n : nat) (x : T) :
  findIn (itemsOf st) i = Some (n, x) ->
  exists y copy, detachOf st i day patch newId = (Some copy, setItems st (<[n := y]> (itemsOf st) ++ [copy])) /\
    itemId y = i /\ repeatOf y = repeatOf x /\
    (forall d, hasInstanceOn y d = hasInstanceOn x d && negb (bool_decide (d = day))) /\
    itemId copy = newId /\ originOf copy = Some {| seriesId := i; originDay := day |} /\
    dayOf copy = Some (match pDay patch with Some (Some d) => d | _ => day end) /\
    repeatOf copy = repeatField (pRepeat patch) None /\ occurrencesOf copy = None.
Proof.
  intros F. pose proof (findIn_spec _ _ _ _ F) as (Hx & Hi & _).
  unfold detachOf, excludeOf, setOccurrenceOf. rewrite F. cbn zeta. rewrite items_setItems.
  erewrite findIn_app by exact F. cbn [snd]. eexists _, _.
  unfold putAt. rewrite !items_setItems, setItems_setItems, insert_app_l by (by apply lookup_lt_Some in Hx).
  split; [reflexivity|]. unfold setOccurrenceItem. split; [by entry|]. split; [by entry|]. split.
  { intros d. unfold hasInstanceOn, getOccurrence. entry. destruct (repeatOf x) as [r|]; [|done].
    destruct (mark_one_day (default [] (occurrencesOf x)) day excludedPatch) as (A & B & _).
    rewrite <- andb_assoc. f_equal. case_bool_decide as E.
    - subst d. rewrite A, andb_false_r. done.
    - rewrite B, andb_true_r by done. destruct (occurrencesOf x); done. }
  unfold stripSeries. split_and!; by entry.
Qed.
End SeriesRules.
