(* ===== verification/SeriesShift.v ===== *)
(** * SeriesShift: moving a whole series to another day

    [updateSeries] of [src/sections/planner_model.cpp] with a day moves the
    rule, its ends and its marks ([shiftedRule], [shiftSeries] of [Series]). A
    series of days, or of every week, has its instances on the moved days
    exactly; a series of every second week need not ([shift_weeks_apart]). *)

From stdpp Require Import sorting.
From S2P Require Import Prelude PlannerUtil Calendar Repeat PlannerState Series SeriesRules.
Import Util Calendar Repeats Planner Series SeriesRules.

#[local] Open Scope Z_scope.

Module SeriesShift.

Notation raw c := (ordinalOfEpoch (withLimits c None None)).
Notation onRule c e := (match raw c e with Some _ => true | None => false end).

(** Two rules with the same pattern, [k] days apart. *)
Lemma occurs_moved (rule rule' : CompiledRepeat) (p p' : Parts) (h h' : Z -> Z) (k : Z) :
  numbers rule p h -> numbers rule' p' h' -> cStart rule = Some (daysOf p) -> cStart rule' = Some (daysOf p') ->
  daysOf p' = daysOf p + k -> cEnd rule' = (fun x => x + k) <$> cEnd rule -> cCount rule' = cCount rule ->
  (forall e, daysOf p <= e -> onRule rule' (e + k) = onRule rule e) ->
  forall e, occursOnEpoch rule' (e + k) = occursOnEpoch rule e.
Proof.
  intros N N' Hs Hs' Hp He Hc Pat. pose proof N as (M & S & O). pose proof N' as (M' & S' & O').
  assert (Eh : forall o, 1 <= o -> h' o = h o + k).
  { apply numberings_equal; [done|intros o o' A B; specialize (M o o' A B); lia|]. intros e. split.
    - intros (o & Ho & ->). pose proof (S' o Ho).
      pose proof (O' None None (h' o) ltac:(lia) eq_refl) as Oe'. pose proof (O None None (h' o - k) ltac:(lia) eq_refl) as Oe.
      cbn zeta in Oe, Oe'. rewrite !occurs_split in *. cbn [negb andb afterEnd cEnd withLimits] in Oe, Oe'.
      specialize (Pat (h' o - k) ltac:(lia)). rewrite Z.sub_add in Pat.
      assert (onRule rule (h' o - k) = true) as Q by (rewrite <- Pat; apply (proj2 Oe'); by exists o).
      apply (proj1 Oe) in Q as (j & Hj & Ej & _). exists j. split; [done|lia].
    - intros (o & Ho & ->). pose proof (S o Ho).
      pose proof (O' None None (h o + k) ltac:(lia) eq_refl) as Oe'. pose proof (O None None (h o) ltac:(lia) eq_refl) as Oe.
      cbn zeta in Oe, Oe'. rewrite !occurs_split in *. cbn [negb andb afterEnd cEnd withLimits] in Oe, Oe'.
      specialize (Pat (h o) ltac:(lia)).
      assert (onRule rule' (h o + k) = true) as Q by (rewrite Pat; apply (proj2 Oe); by exists o).
      apply (proj1 Oe') in Q as (j & Hj & Ej & _). by exists j. }
  intros e. destruct (decide (e < daysOf p)) as [L|L].
  { rewrite (occurs_before_start rule _ e Hs L). apply (occurs_before_start rule' (daysOf p')); [done|lia]. }
  assert (A : afterEnd rule' (e + k) = afterEnd rule e).
  { unfold afterEnd. rewrite He. destruct (cEnd rule) as [x|]; [|done]. cbn. lia. }
  destruct (afterEnd rule e) eqn:Ae; [by rewrite !occurs_after_end by done|].
  pose proof (O (cEnd rule) (cCount rule) e ltac:(lia)) as Oe. cbn zeta in Oe. rewrite withLimits_eta in Oe. specialize (Oe Ae).
  pose proof (O' (cEnd rule') (cCount rule') (e + k) ltac:(lia)) as Oe'. cbn zeta in Oe'. rewrite withLimits_eta in Oe'.
  specialize (Oe' A). apply eq_true_iff_eq. rewrite Oe, Oe'.
  assert (Oc : forall o, overCount rule' o = overCount rule o) by (intros; unfold overCount; by rewrite Hc).
  split; intros (o & Ho & E & Lo); exists o; (split_and!; [done| |]).
  - rewrite Eh in E by done. lia.
  - by rewrite <- Oc.
  - rewrite Eh by done. lia.
  - by rewrite Oc.
Qed.

(** ** The moved rule *)

Lemma NoDup_uniqueOf (l : list Z) : length (uniqueOf l) = length l <-> NoDup l.
Proof.
  destruct (uniqueOf_spec l) as [N E]. split.
  - intros L. assert (uniqueOf l ≡ₚ l) as <-; [|done]. apply submseteq_length_Permutation; [|lia].
    apply NoDup_submseteq; [done|]. intros x. apply E.
  - intros Nl. apply Permutation_length, NoDup_Permutation; done.
Qed.

Lemma and_iff (A B C D : Prop) : (A <-> C) -> (B <-> D) -> (A /\ B <-> C /\ D).
Proof. tauto. Qed.

(** What the validation of a rule asks. *)
Lemma validateRepeat_iff (r : Repeat) : validateRepeat r = None <->
  1 <= interval r <= 99 /\
  (kind r = #"weekly" -> default [] (weekdays r) <> [] /\ Forall (fun d => 0 <= d <= 6) (default [] (weekdays r)) /\
     NoDup (default [] (weekdays r))) /\
  (forall d, monthDay r = Some d -> 1 <= d <= 31) /\
  (if isEmpty (startDay r) then kind r = #"weekly" else isDayKey (startDay r) = true) /\
  (truthy (endDay r) = true -> isDayKey (default [] (endDay r)) = true /\
     (startDay r <> [] -> blt (default [] (endDay r)) (startDay r) = false)) /\
  (forall c, count r = Some c -> 1 <= c <= 999).
Proof.
  unfold validateRepeat, kMaxRepeatInterval, kMaxRepeatCount.
  assert (G : forall (a b c d e f : bool) (x y z u v w : bytes),
    (if a then Some x else if b then Some y else if c then Some z else if d then Some u else if e then Some v
     else if f then Some w else None) = None <->
    a = false /\ b = false /\ c = false /\ d = false /\ e = false /\ f = false)
    by (intros [] [] [] [] [] [] *; split; intros; (done || naive_solver)).
  cbv zeta. rewrite G. clear G. apply and_iff; [|apply and_iff; [|apply and_iff; [|apply and_iff; [|apply and_iff]]]].
  - rewrite orb_false_iff, !Z.ltb_ge. lia.
  - destruct (bool_decide (kind r = #"weekly")) eqn:Ek; [apply bool_decide_eq_true in Ek|apply bool_decide_eq_false in Ek];
      cbn [andb]; [|by split]. rewrite !orb_false_iff, !negb_false_iff, Nat.eqb_neq, Nat.eqb_eq, NoDup_uniqueOf.
    rewrite forallb_forall, Forall_elem. setoid_rewrite <- list_elem_of_In. setoid_rewrite andb_true_iff. setoid_rewrite Z.leb_le.
    destruct (default [] (weekdays r)); naive_solver.
  - destruct (monthDay r) as [d|]; [rewrite orb_false_iff, !Z.ltb_ge|naive_solver]. split; [intros ? ? [= <-]; lia|].
    intros I. by apply I.
  - destruct (isEmpty (startDay r)); cbn [negb]; [|by rewrite negb_false_iff].
    by rewrite negb_false_iff, bool_decide_eq_true.
  - destruct (truthy (endDay r)); cbn [andb]; [|by split]. rewrite orb_false_iff, negb_false_iff.
    destruct (startDay r); cbn; naive_solver.
  - destruct (count r) as [d|]; [rewrite orb_false_iff, !Z.ltb_ge|naive_solver]. split; [intros ? ? [= <-]; lia|].
    intros I. by apply I.
Qed.

Definition rotate (k w : Z) : Z := Z.rem (Z.rem (w + k) 7 + 7) 7.

Lemma rotate_mod (k w : Z) : rotate k w = (w + k) `mod` 7.
Proof. unfold rotate. zdiv. Qed.

Lemma rotate_inj (k a b : Z) : 0 <= a <= 6 -> 0 <= b <= 6 -> rotate k a = rotate k b -> a = b.
Proof. rewrite !rotate_mod. zdiv. Qed.

(** A rule of days or of every week, with everything inside of the calendar. *)
Record movable (r : Repeat) (a b : Parts) : Prop := {
  mov_valid : wellFormed r;
  mov_kind : kind r = #"daily" \/ (kind r = #"weekly" /\ interval r = 1);
  mov_from : keyDate a;
  mov_to : keyDate b;
  mov_start : forall p, keyDate p -> startDay r = keyOf p -> keyDay (daysOf p + (daysOf b - daysOf a));
  mov_end : forall s, endDay r = Some s -> s = [] \/
    exists l, keyDate l /\ s = keyOf l /\ keyDay (daysOf l + (daysOf b - daysOf a))
}.

Section Moved.
Context (r : Repeat) (a b : Parts) (Mv : movable r a b).
Notation k := (daysOf b - daysOf a).
Notation r' := (shiftedRule r (keyOf a) (keyOf b)).

Lemma byMonth_false : byMonth r = false.
Proof. unfold byMonth. destruct (mov_kind _ _ _ Mv) as [->|[-> _]]; reflexivity. Qed.

Lemma moved_days : epochDays (keyOf b) - epochDays (keyOf a) = k.
Proof. destruct Mv. by rewrite !epochDays_keyOf. Qed.

Lemma moveDay_key (e : Z) : keyDay e -> moveDay r (keyOf a) (keyOf b) (keyOfEpoch e) = keyOfEpoch (e + k).
Proof. intros Ke. unfold moveDay. rewrite byMonth_false, moved_days. by apply addDays_keyOfEpoch. Qed.

Lemma moved_start (p : Parts) : keyDate p -> startDay r = keyOf p ->
  exists p', keyDate p' /\ startDay r' = keyOf p' /\ daysOf p' = daysOf p + k.
Proof.
  intros Kp St. pose proof (mov_start _ _ _ Mv p Kp St) as Kd. exists (civilFromDays (daysOf p + k)).
  split; [by apply keyDay_iff|]. split; [|apply civil_spec].
  cbn [shiftedRule startDay]. destruct (keyOf_epoch p Kp) as [Ep Kp']. rewrite St.
  assert (isEmpty (keyOf p) = false) as -> by (rewrite keyOf_eq by done; done).
  rewrite <- Ep, moveDay_key by done. apply keyOfEpoch_eq.
Qed.

Lemma moved_end (l : Parts) : keyDate l -> endDay r = Some (keyOf l) ->
  endDay r' = Some (keyOfEpoch (daysOf l + k)).
Proof.
  intros Kl E. cbn [shiftedRule endDay]. unfold shiftedEnd. rewrite E, byMonth_false.
  destruct (keyOf_epoch l Kl) as [El Kl']. destruct (keyOf l) as [|c d] eqn:Ek.
  - revert Ek. rewrite keyOf_eq by done. done.
  - cbn [negb orb]. by rewrite <- El, moveDay_key.
Qed.

Lemma compile_moved : let rule := compileRepeat r in let rule' := compileRepeat r' in
  cKind rule' = cKind rule /\ cInterval rule' = cInterval rule /\ cCount rule' = cCount rule /\
  cEnd rule' = (fun x => x + k) <$> cEnd rule.
Proof.
  split_and!; [reflexivity..|]. destruct Mv as [W Kd Ka Kb Ms Me].
  unfold compileRepeat. cbn [cEnd].
  destruct (endDay r) as [s|] eqn:Es.
  2: { cbn [shiftedRule endDay]. unfold shiftedEnd. by rewrite Es. }
  destruct (Me s eq_refl) as [->|(l & Kl & -> & Kd')].
  - cbn [shiftedRule endDay]. unfold shiftedEnd. by rewrite Es.
  - rewrite (moved_end l Kl Es). destruct (keyOf_epoch l Kl) as [El _].
    assert (T : forall s, s <> [] -> truthy (Some s) = true) by (by intros [|? ?]).
    rewrite !T by (rewrite ?keyOfEpoch_eq, keyOf_eq by (done || by apply keyDay_iff); done).
    cbn [from_option Datatypes.id fmap option_fmap option_map]. by rewrite epochDays_keyOfEpoch, epochDays_keyOf.
Qed.

Lemma validate_moved : validateRepeat r' = None.
Proof.
  pose proof moved_end as Mend. pose proof moved_start as Mst. pose proof byMonth_false as Bm.
  destruct Mv as [[V Ws] Kd Ka Kb Ms Me]. apply validateRepeat_iff in V as (V1 & V2 & V3 & V4 & V5 & V6).
  apply validateRepeat_iff. split; [done|]. split; [|split; [intros d; cbn [shiftedRule monthDay]|split; [|split; [|done]]]].
  - intros Kw. specialize (V2 Kw). cbn [shiftedRule weekdays kind] in *. rewrite bool_decide_eq_true_2 by done.
    destruct (weekdays r) as [ws|]; [|by destruct V2].
    cbn [from_option fmap option_fmap option_map Datatypes.id] in *. destruct V2 as (W1 & W2 & W3). split_and!.
    + by destruct ws.
    + apply Forall_elem. intros d (w & -> & _)%list_elem_of_fmap.
      pose proof (rotate_mod (epochDays (keyOf b) - epochDays (keyOf a)) w) as E. unfold rotate in E. rewrite E.
      pose proof (Z.mod_pos_bound (w + (epochDays (keyOf b) - epochDays (keyOf a))) 7). lia.
    + apply NoDup_fmap_on; [|done]. rewrite Forall_elem in W2. intros x y Hx Hy. apply W2 in Hx, Hy. by apply rotate_inj.
  - unfold byMonth in Bm. apply orb_false_iff in Bm as [-> _]. apply V3.
  - destruct Ws as [Ws|(p & Kp & Ws)].
    + cbn [shiftedRule startDay kind] in *. rewrite Ws in *. cbn in *. done.
    + destruct (Mst p Kp Ws) as (p' & Kp' & -> & _). rewrite isDayKey_keyOf by done. by rewrite keyOf_eq by done.
  - intros T. destruct (endDay r) as [s|] eqn:Es.
    2: { revert T. cbn [shiftedRule endDay]. unfold shiftedEnd. by rewrite Es. }
    destruct (Me s eq_refl) as [->|(l & Kl & -> & Kd')].
    { revert T. cbn [shiftedRule endDay]. unfold shiftedEnd. by rewrite Es. }
    rewrite (Mend l Kl eq_refl). cbn [from_option Datatypes.id]. split; [by apply isDayKey_keyOfEpoch|].
    intros Ne. destruct Ws as [Ws|(p & Kp & Ws)]; [by cbn [shiftedRule startDay] in Ne; rewrite Ws in Ne|].
    destruct (Mst p Kp Ws) as (p' & Kp' & -> & Ep). destruct (V5 ltac:(by rewrite keyOf_eq by done)) as [_ V7].
    specialize (V7 ltac:(rewrite Ws, keyOf_eq by done; done)). cbn [from_option Datatypes.id] in V7.
    rewrite Ws, blt_keyOf in V7 by done. destruct (keyOf_epoch p' Kp') as [<- Kd2].
    rewrite blt_keyOfEpoch by done. lia.
Qed.

(** A day of the week of a valid weekly rule. *)
Lemma week_mask (c : Repeat) (e : Z) : validateRepeat c = None -> kind c = #"weekly" ->
  (Z.land (weekdayMask (compileRepeat c)) (bitOf (weekdayOfEpoch e)) =? 0)
  = negb (bool_decide (weekdayOfEpoch e ∈ default [] (weekdays c))).
Proof.
  intros V Hk. destruct (positions_spec c V Hk) as (_ & Hpos & _). rewrite (mask_day (compileRepeat c)) by done. f_equal.
  apply bool_decide_ext. destruct (validateRepeat_spec c V) as (_ & Hw & _). destruct (Hw Hk) as [_ Hr].
  destruct (uniqueOf_spec (default [] (weekdays c))) as [_ Hin]. rewrite Forall_elem in Hr.
  change (positions (compileRepeat c)) with (sortZ (mondayBased <$> uniqueOf (default [] (weekdays c)))).
  unfold sortZ. rewrite merge_sort_Permutation, list_elem_of_fmap. split.
  - intros (d & E & Hd%Hin). apply mondayBased_inj in E as ->; [done|apply weekday_range|by apply Hr].
  - intros Hd. eexists. split; [reflexivity|by apply Hin].
Qed.

Lemma moved_mask (e : Z) : kind r = #"weekly" ->
  (Z.land (weekdayMask (compileRepeat r')) (bitOf (weekdayOfEpoch (e + k))) =? 0)
  = (Z.land (weekdayMask (compileRepeat r)) (bitOf (weekdayOfEpoch e)) =? 0).
Proof.
  intros Hk. pose proof (mov_valid _ _ _ Mv) as [V _]. rewrite !week_mask by (done || apply validate_moved). f_equal.
  apply bool_decide_ext. cbn [shiftedRule weekdays]. rewrite bool_decide_eq_true_2 by done.
  destruct (validateRepeat_spec r V) as (_ & Hw & _). destruct (Hw Hk) as [_ Hr].
  destruct (weekdays r) as [ws|]; [|cbn; set_solver]. cbn [from_option fmap option_fmap option_map Datatypes.id] in *.
  rewrite Forall_elem in Hr. rewrite list_elem_of_fmap. fold (rotate (epochDays (keyOf b) - epochDays (keyOf a))).
  rewrite moved_days. split.
  - intros (w & E & Hw'). replace (weekdayOfEpoch e) with w; [done|]. specialize (Hr w Hw').
    change (weekdayOfEpoch (e + k) = rotate k w) in E. rewrite rotate_mod in E. rewrite weekdayOfEpoch_mod in *. revert E. zdiv.
  - intros Hd. exists (weekdayOfEpoch e). split; [|done]. change (weekdayOfEpoch (e + k) = rotate k (weekdayOfEpoch e)).
    rewrite rotate_mod, !weekdayOfEpoch_mod. zdiv.
Qed.

Lemma moved_pattern (p p' : Parts) (e : Z) : keyDate p -> startDay r = keyOf p -> keyDate p' -> startDay r' = keyOf p' ->
  daysOf p' = daysOf p + k -> daysOf p <= e -> onRule (compileRepeat r') (e + k) = onRule (compileRepeat r) e.
Proof.
  intros Kp St Kp' St' Ep He. pose proof (mov_valid _ _ _ Mv) as [V _].
  destruct (compile_started r p V Kp St) as (Hv & Hs & Hi & _). pose proof (mov_kind _ _ _ Mv) as Kd.
  destruct (compile_started r' p' validate_moved Kp' St') as (Hv' & Hs' & Hi' & _).
  destruct compile_moved as (Ek & Ei & _). pose proof (moved_mask e) as Mm.
  change (kind r) with (cKind (compileRepeat r)) in *. change (interval r) with (cInterval (compileRepeat r)) in Kd.
  revert Hv Hs Hi Hv' Hs' Hi' Ek Ei Mm Kd. generalize (compileRepeat r) (compileRepeat r'). intros ru ru' Hv Hs Hi Hv' Hs' Hi' Ek Ei Mm Kd.
  unfold ordinalOfEpoch. cbn [withLimits isValid cStart cEnd cKind cInterval weekdayMask startWeek positions skippedInFirstWeek
    startYear startMonth startDate cMonthDay].
  rewrite Hv, Hv', Hs, Hs', Ek, Ei. cbn [negb].
  rewrite (proj2 (Z.ltb_ge e (daysOf p))), (proj2 (Z.ltb_ge (e + k) (daysOf p'))) by lia.
  destruct Kd as [Kd|[Kd I1]].
  - rewrite Kd. rewrite !bool_decide_eq_false_2, bool_decide_eq_true_2 by done.
    replace (e + k - daysOf p') with (e - daysOf p) by lia. by destruct (_ =? 0).
  - rewrite Mm, I1, (bool_decide_eq_true_2 (cKind ru = #"weekly")) by done. rewrite !Z.rem_1_r. clear Mm. destruct (Z.land _ _ =? 0); [done|]. done.
Qed.

Lemma moved_occurs (e : Z) : occursOnEpoch (compileRepeat r') (e + k) = occursOnEpoch (compileRepeat r) e.
Proof.
  pose proof (mov_valid _ _ _ Mv) as [V Ws]. destruct compile_moved as (Ek & Ei & Ec & Ee).
  assert (Nm : kind r <> #"monthly") by (destruct (mov_kind _ _ _ Mv) as [->|[-> _]]; done).
  destruct Ws as [Ws|(p & Kp & St)].
  - assert (Hk : kind r = #"weekly") by (destruct (validateRepeat_spec r V) as (_ & _ & _ & Hk & _); by apply Hk).
    assert (Ws' : startDay r' = []) by (cbn [shiftedRule startDay]; by rewrite Ws).
    assert (A : afterEnd (compileRepeat r') (e + k) = afterEnd (compileRepeat r) e).
    { unfold afterEnd. rewrite Ee. destruct (cEnd (compileRepeat r)) as [x|]; cbn; [lia|reflexivity]. }
    destruct (afterEnd (compileRepeat r) e) eqn:Ae; [by rewrite !occurs_after_end by done|].
    by rewrite !occurs_unstarted, moved_mask by (done || apply validate_moved).
  - destruct (moved_start p Kp St) as (p' & Kp' & St' & Ep).
    destruct (rule_numbered r p V Kp St ltac:(intros Hm; by destruct Nm)) as [h N].
    destruct (rule_numbered r' p' validate_moved Kp' St' ltac:(intros Hm; by destruct Nm)) as [h' N'].
    destruct (compile_started r p V Kp St) as (_ & Hs & _).
    destruct (compile_started r' p' validate_moved Kp' St') as (_ & Hs' & _).
    apply (occurs_moved (compileRepeat r) (compileRepeat r') p p' h h'); try done.
    intros e' He'. by apply (moved_pattern p p').
Qed.
End Moved.

(** Property (update_moves_days): editing a whole series of days or of every
    week, with a new day for one of its instances, moves its rule so that a day
    is an instance of the new rule exactly when the day as far before it was an
    instance of the old one, as long as the days stay in the calendar. *)
Theorem update_moves_days `{EntryLaws T} (st : State) (i : bytes) (patch : ItemPatch) (n : nat) (x : T) (r : Repeat)
    (a b : Parts) :
  findIn (itemsOf st) i = Some (n, x) -> repeatOf x = Some r -> movable r a b -> daysOf a <> daysOf b ->
  pDay patch = Some (Some (keyOf b)) ->
  exists y, updateIn st i (keyOf a) patch = (Some y, putAt st n y) /\ itemId y = i /\
    repeatOf y = Some (shiftedRule r (keyOf a) (keyOf b)) /\
    forall e, keyDay e -> keyDay (e + (daysOf b - daysOf a)) ->
      occursOn (shiftedRule r (keyOf a) (keyOf b)) (keyOfEpoch (e + (daysOf b - daysOf a))) = occursOn r (keyOfEpoch e).
Proof.
  intros F R Mv Ne P. pose proof (findIn_spec _ _ _ _ F) as (_ & Hi & _).
  unfold updateIn. rewrite F, R, P. destruct (keyOf b) as [|c d] eqn:Eb.
  { revert Eb. rewrite keyOf_eq by apply Mv. done. }
  rewrite <- Eb. rewrite bool_decide_eq_true_2.
  2: { intros E. destruct Ne. destruct Mv. by rewrite <- !epochDays_keyOf, E by done. }
  eexists. split; [reflexivity|]. unfold shiftSeries. entry. cbn [withoutDay pRepeat repeatField]. rewrite R.
  split; [by entry|]. split; [by entry|]. intros e Ke Ke'. rewrite !occursOn_key by done. by apply moved_occurs.
Qed.

(** The lessons of every week, moved from a Thursday to the Saturday. *)
Definition weekSample : Repeat :=
  {| kind := #"weekly"; interval := 1; weekdays := Some [1; 4]; monthDay := None; startDay := #"2026-01-08";
     endDay := Some #"2026-03-02"; count := Some 7 |}.
Definition weekLesson : Event :=
  {| eId := #"w"; eName := #"Lesson"; eDescription := None; eStart := #"10:00"; eEnd := #"11:00"; eDay := None;
     eRepeat := Some weekSample; eOccurrences := None; eOrigin := None; eInstanceDay := None; isAllDay := None;
     isHoliday := None; color := None; eRemind := None; eProject := None |}.
Definition weekState : State := setEvents sampleState [weekLesson].
Definition movePatch (d : bytes) : ItemPatch :=
  {| pName := None; pDescription := None; pStart := None; pEnd := None; pDay := Some (Some d); pDue := None;
     pStatus := None; pProject := None; pMinutes := None; pColor := None; pRemind := None; pRank := None;
     pAllDay := None; pHoliday := None; pSteps := None; pSource := None; pRepeat := None |}.
Definition sampleSaturday : Parts := {| year := 2026; month := 2; date := 7 |}.

Lemma week_movable : movable weekSample sampleDay sampleSaturday.
Proof.
  split; try (by apply keyDate_check).
  - split; [done|]. right. exists sampleFirst. by split; [apply keyDate_check|].
  - by right.
  - intros p Kp E. change (startDay weekSample) with (keyOf sampleFirst) in E.
    assert (daysOf sampleFirst = daysOf p) as <- by (rewrite <- !epochDays_keyOf, E by (done || by apply keyDate_check); done).
    vm_compute. done.
  - intros s [= <-]. right. exists {| year := 2026; month := 3; date := 2 |}. split_and!; [by apply keyDate_check|done|vm_compute; done..].
Qed.

Lemma update_moves_days_witness :
  (exists y, updateIn (T := Event) weekState #"w" (keyOf sampleDay) (movePatch (keyOf sampleSaturday))
     = (Some y, putAt weekState 0 y) /\ itemId y = #"w" /\
    repeatOf y = Some (shiftedRule weekSample (keyOf sampleDay) (keyOf sampleSaturday)) /\
    forall e, keyDay e -> keyDay (e + (daysOf sampleSaturday - daysOf sampleDay)) ->
      occursOn (shiftedRule weekSample (keyOf sampleDay) (keyOf sampleSaturday))
        (keyOfEpoch (e + (daysOf sampleSaturday - daysOf sampleDay))) = occursOn weekSample (keyOfEpoch e)) /\
  expandRepeat (shiftedRule weekSample (keyOf sampleDay) (keyOf sampleSaturday)) #"2026-01-01" #"2026-01-31"
    = [ #"2026-01-10"; #"2026-01-14"; #"2026-01-17"; #"2026-01-21"; #"2026-01-24"; #"2026-01-28"; #"2026-01-31" ].
Proof.
  split; [|vm_compute; reflexivity].
  apply (update_moves_days weekState #"w" (movePatch (keyOf sampleSaturday)) 0 weekLesson weekSample sampleDay sampleSaturday);
    [vm_compute; reflexivity|reflexivity|exact week_movable|vm_compute; discriminate|reflexivity].
Defined.

(** Every second week on Monday and Wednesday, from a Wednesday: moving it to
    the next Monday puts the instances of Mondays into other weeks. *)
Lemma shift_weeks_apart :
  let r := {| kind := #"weekly"; interval := 2; weekdays := Some [1; 3]; monthDay := None; startDay := #"2026-01-07";
              endDay := None; count := None |} in
  validateRepeat r = None /\
  expandRepeat r #"2026-01-01" #"2026-01-31" = [ #"2026-01-07"; #"2026-01-19"; #"2026-01-21" ] /\
  expandRepeat (shiftedRule r #"2026-01-07" #"2026-01-12") #"2026-01-01" #"2026-01-31"
    = [ #"2026-01-12"; #"2026-01-17"; #"2026-01-26"; #"2026-01-31" ].
Proof. vm_compute. done. Qed.
End SeriesShift.
