(* ===== verification/SeriesEdit.v ===== *)
(** * SeriesEdit: edits of repeating entries from the card of an instance

    Module [SeriesEdit] models [src/sections/planner_series.cpp]: whose
    description an edit changes, edits of the days detached from a series, and
    the change of a rule. Printing a JSON value ([dump]) is a parameter: it is
    used to compare values only. *)

From stdpp Require Import sorting.
From S2P Require Import Prelude Json PlannerUtil Calendar Repeat PlannerState PlannerJson Series SeriesRules.
Import Util Calendar Repeats Planner PlannerJson Series SeriesRules.

#[local] Open Scope Z_scope.

Module SeriesEdit.

Inductive DescriptionScope := AllDays | OneDay.
Inductive RuleScope := FollowingDays | AllOfSeries | StopSeries | OnlyThisDay.

Definition kFirstDayHorizon : Z := kMaxRepeatInterval * 7 + 7.

(** ** Members of an entry of either kind *)

Definition repeatIn (x : SeriesItem) : option Repeat :=
  match x with TaskItem t => repeat_ t | EventItem e => eRepeat e end.
Definition originIn (x : SeriesItem) : option Origin :=
  match x with TaskItem t => origin t | EventItem e => eOrigin e end.
Definition instanceDayIn (x : SeriesItem) : option bytes :=
  match x with TaskItem t => instanceDay t | EventItem e => eInstanceDay e end.
Definition idIn (x : SeriesItem) : bytes := match x with TaskItem t => id t | EventItem e => eId e end.
Definition textIn (x : SeriesItem) : bytes :=
  match x with TaskItem t => description t | EventItem e => default [] (eDescription e) end.
Definition instanceIn (x : SeriesItem) (day : bytes) : bool :=
  match x with TaskItem t => hasInstanceOn t day | EventItem e => hasInstanceOn e day end.

Definition descriptionPatch (d : bytes) : ItemPatch :=
  {| pName := None; pDescription := setTo d; pStart := None; pEnd := None; pDay := None; pDue := None;
     pStatus := None; pProject := None; pMinutes := None; pColor := None; pRemind := None; pRank := None;
     pAllDay := None; pHoliday := None; pSteps := None; pSource := None; pRepeat := None |}.

Definition withDay (p : ItemPatch) (d : PatchField bytes) (r : PatchField RepeatPatch) : ItemPatch :=
  {| pName := pName p; pDescription := pDescription p; pStart := pStart p; pEnd := pEnd p; pDay := d;
     pDue := pDue p; pStatus := pStatus p; pProject := pProject p; pMinutes := pMinutes p; pColor := pColor p;
     pRemind := pRemind p; pRank := pRank p; pAllDay := pAllDay p; pHoliday := pHoliday p; pSteps := pSteps p;
     pSource := pSource p; pRepeat := r |}.

(** ** The templates *)

Definition findSeriesItem (st : State) (k : SeriesKind) (i : bytes) : option SeriesItem :=
  match k with
  | TaskKind => (fun p : nat * Task => TaskItem p.2) <$> findIn (tasks st) i
  | EventKind => (fun p : nat * Event => EventItem p.2) <$> findIn (events st) i
  end.

Definition seriesOfCopy (st : State) (k : SeriesKind) (x : SeriesItem) : option SeriesItem :=
  match repeatIn x, originIn x with
  | None, Some o =>
      match findSeriesItem st k (seriesId o) with
      | Some series => if repeatIn series then Some series else None
      | None => None
      end
  | _, _ => None
  end.

Section Templates.
Context `{Entry T}.

(** [find<T>(state, id)] and a write through the pointer. *)
Definition writeAt (st : State) (i : bytes) (f : T -> T) : option (T * State) :=
  match findIn (itemsOf st) i with
  | None => None
  | Some (n, x) => Some (f x, putAt st n (f x))
  end.

(** The same, for the description of a series that repeats. *)
Definition writeSeries (st : State) (i : bytes) (d : bytes) : bool * State :=
  match findIn (itemsOf (T := T) st) i with
  | None => (false, st)
  | Some (n, x) => if repeatOf x then (true, putAt st n (writeDescription d x)) else (false, st)
  end.

Definition setDescriptionIn (st : State) (x : SeriesItem) (d : bytes) (scope : DescriptionScope) (newId : bytes)
  : option SeriesItem * State :=
  let own :=
    match writeAt st (idIn x) (writeDescription d) with
    | None => (None, st)
    | Some (o, st1) =>
        let st2 := match scope, originOf o, repeatOf o with
                   | AllDays, Some g, None => (writeSeries st1 (seriesId g) d).2
                   | _, _, _ => st1
                   end in
        ((fun p : nat * T => inject p.2) <$> findIn (itemsOf st2) (idIn x), st2)
    end in
  match repeatIn x, instanceDayIn x with
  | Some _, Some (c :: day) =>
      match scope with
      | OneDay => injected (detachOf (T := T) st (idIn x) (c :: day) (descriptionPatch d) newId)
      | AllDays =>
          match writeAt st (idIn x) (writeDescription d) with
          | None => (None, st)
          | Some (o, st1) => (Some (inject o), st1)
          end
      end
  | _, _ => own
  end.

Definition isCopyOf (series : bytes) (fromDay exceptId : option bytes) (x : T) : bool :=
  negb (match exceptId with Some e => bool_decide (itemId x = e) | None => false end)
  && negb (isRepeating x)
  && match originOf x with
     | None => false
     | Some o =>
         bool_decide (seriesId o = series)
         && negb (match fromDay with Some (c :: d) => blt (originDay o) (c :: d) | _ => false end)
     end.

Definition patchCopiesIn (st : State) (series : bytes) (fields : ItemPatch) (fromDay exceptId : option bytes)
  : nat * State :=
  if emptyPatch fields then (0%nat, st)
  else
    (length (filter (isCopyOf series fromDay exceptId) (itemsOf st)),
     setItems st ((fun x => if isCopyOf series fromDay exceptId x then applyPatch fields x else x) <$> itemsOf st)).

Definition patchOne (st : State) (i : bytes) (fields : ItemPatch) : State :=
  match writeAt st i (applyPatch fields) with Some (_, st1) => st1 | None => st end.

Definition updateFromCopyIn (st : State) (copy : SeriesItem) (fields : ItemPatch) : bool * State :=
  let st1 := patchOne st (idIn copy) fields in
  match seriesOfCopy st1 (kindOf T) copy with
  | None => (false, st1)
  | Some series =>
      let st2 := patchOne st1 (idIn series) fields in
      (true, (patchCopiesIn st2 (idIn series) fields None (Some (idIn copy))).2)
  end.

(** The rule of the part that begins at [day] when the rule of the rest changes. *)
Definition followingPatch (previous r : Repeat) (day : bytes) : RepeatPatch :=
  let p := patchOf r in
  {| rpKind := rpKind p; rpInterval := rpInterval p; rpWeekdays := rpWeekdays p; rpMonthDay := rpMonthDay p;
     rpStartDay := setTo day;
     rpEndDay := match rpEndDay p with
                 | Some (Some (c :: e)) => if blt (c :: e) day then undefinedField else rpEndDay p
                 | e => e
                 end;
     rpCount := if default 0 (count r) =? default 0 (count previous) then None else rpCount p |}.

(** [item->repeat = *repeat] and the marks that fit it. *)
Definition ruled (r : Repeat) (x : T) : T :=
  setOccurrences ((fun l : list Occurrence => filter (fun o => occursOn r (oDay o)) l) <$> occurrencesOf x)
    (setRepeat (Some r) x).

Definition changeRuleIn (st : State) (i day : bytes) (r : option Repeat) (scope : RuleScope) (patch : ItemPatch)
    (newId : bytes) : option SeriesItem * State :=
  match findIn (itemsOf (T := T) st) i with
  | None => (None, st)
  | Some (_, x) =>
      match repeatOf x with
      | None => (None, st)
      | Some previous =>
          let fields := withDay patch None None in
          let detach :=
            let p := match pDay patch with Some (Some (_ :: _)) => withDay fields (pDay patch) None | _ => fields end in
            detachOf (T := T) st i day p newId in
          match r, scope with
          | None, StopSeries | Some _, StopSeries =>
              let '(copy, st1) := detach in (inject <$> copy, (truncateIn (T := T) st1 i day).2)
          | None, _ | Some _, OnlyThisDay => injected detach
          | Some r, _ =>
              if match scope with FollowingDays => negb (notAfterStart previous day) | _ => false end
              then injected (splitIn (T := T) st i day (withDay fields None (setTo (followingPatch previous r day))) newId)
              else
                let st1 := (updateIn (T := T) st i day fields).2 in
                match writeAt st1 i (ruled r) with
                | None => (None, st1)
                | Some (y, st2) => (Some (inject y), st2)
                end
          end
      end
  end.
End Templates.

(** ** The operations by kind *)

(** The first day of a rule, from the day that stands for a missing start. *)
Fixpoint firstFrom (r : Repeat) (from : bytes) (i : Z) (n : nat) : option bytes :=
  match n with
  | O => None
  | S n' =>
      let day := addDays from i in
      if truthy (endDay r) && blt (default [] (endDay r)) day then None
      else if occursOn r day then Some day
      else firstFrom r from (i + 1) n'
  end.

Definition firstSeriesDay (r : Repeat) (fallbackDay : bytes) : option bytes :=
  let from := if isEmpty (startDay r) then fallbackDay else startDay r in
  if isEmpty from then None else firstFrom r from 0 (Z.to_nat kFirstDayHorizon).

Definition pushItem (st : State) (x : SeriesItem) : State :=
  match x with
  | TaskItem t => setTasks st (tasks st ++ [t])
  | EventItem e => setEvents st (events st ++ [e])
  end.

Definition withoutText (x : SeriesItem) : SeriesItem :=
  match x with
  | TaskItem t => TaskItem (writeTaskDescription [] t)
  | EventItem e => EventItem (writeEventDescription [] e)
  end.

Definition addEntry (st : State) (k : SeriesKind) (x : SeriesItem) (scope : DescriptionScope) (fallbackDay newId : bytes)
  : option SeriesItem * State :=
  let firstDay := match repeatIn x, scope with
                  | Some r, OneDay => if isEmpty (textIn x) then None else firstSeriesDay r fallbackDay
                  | _, _ => None
                  end in
  match firstDay with
  | None => (None, pushItem st x)
  | Some day => detachInstance (pushItem st (withoutText x)) k (idIn x) day (descriptionPatch (textIn x)) newId
  end.

Definition getDescriptionScope (st : State) (k : SeriesKind) (x : SeriesItem) : option DescriptionScope :=
  if repeatIn x then (if truthy (instanceDayIn x) then Some AllDays else None)
  else match originIn x with
       | None => None
       | Some o =>
           match findSeriesItem st k (seriesId o) with
           | Some series =>
               if repeatIn series then Some (if bool_decide (textIn series = textIn x) then AllDays else OneDay) else None
           | None => None
           end
       end.

Definition setDescription (st : State) (k : SeriesKind) (x : SeriesItem) (d : bytes) (scope : DescriptionScope)
    (newId : bytes) : option SeriesItem * State :=
  match k with
  | TaskKind => setDescriptionIn (T := Task) st x d scope newId
  | EventKind => setDescriptionIn (T := Event) st x d scope newId
  end.

Definition shareDescription (st : State) (k : SeriesKind) (x : SeriesItem) : bool * State :=
  match originIn x with
  | None => (false, st)
  | Some o =>
      match k with
      | TaskKind => writeSeries (T := Task) st (seriesId o) (textIn x)
      | EventKind => writeSeries (T := Event) st (seriesId o) (textIn x)
      end
  end.

Definition detachWithDescription (st : State) (k : SeriesKind) (i day d newId : bytes) : option SeriesItem * State :=
  match findSeriesItem st k i with
  | None => (None, st)
  | Some series => if instanceIn series day then detachInstance st k i day (descriptionPatch d) newId else (None, st)
  end.

Definition patchCopies (st : State) (k : SeriesKind) (series : bytes) (fields : ItemPatch) (fromDay exceptId : option bytes)
  : nat * State :=
  match k with
  | TaskKind => patchCopiesIn (T := Task) st series fields fromDay exceptId
  | EventKind => patchCopiesIn (T := Event) st series fields fromDay exceptId
  end.

Definition updateFromCopy (st : State) (k : SeriesKind) (copy : SeriesItem) (fields : ItemPatch) : bool * State :=
  match k with
  | TaskKind => updateFromCopyIn (T := Task) st copy fields
  | EventKind => updateFromCopyIn (T := Event) st copy fields
  end.

Definition changeSeriesRule (st : State) (k : SeriesKind) (i day : bytes) (r : option Repeat) (scope : RuleScope)
    (patch : ItemPatch) (newId : bytes) : option SeriesItem * State :=
  match k with
  | TaskKind => changeRuleIn (T := Task) st i day r scope patch newId
  | EventKind => changeRuleIn (T := Event) st i day r scope patch newId
  end.

(** *** The fields that an edit changes *)

Section Changed.
Context (dump : json -> result exn bytes).

(** [null] and a missing value compare like the empty text. *)
Definition orEmpty (v : option json) : json := match v with None | Some JNull => JStr [] | Some v => v end.

Definition keepChanged {A} (c : codec A) (k : bytes) (before : json) (f : PatchField A) : result exn (PatchField A) :=
  match f with
  | None => Ok None
  | Some v =>
      let! new := dump (orEmpty (putOpt c v)) in
      let! old := dump (orEmpty (jfind k before)) in
      Ok (if bool_decide (new = old) then None else f)
  end.

Definition changedIn (before : json) (p : ItemPatch) : result exn ItemPatch :=
  let! n := keepChanged str #"name" before (pName p) in
  let! d := keepChanged str #"description" before (pDescription p) in
  let! s := keepChanged str #"start" before (pStart p) in
  let! e := keepChanged str #"end" before (pEnd p) in
  let! pr := keepChanged str #"project" before (pProject p) in
  let! mi := keepChanged int #"minutes" before (pMinutes p) in
  let! co := keepChanged int #"color" before (pColor p) in
  let! rm := keepChanged int #"remind" before (pRemind p) in
  let! ra := keepChanged double #"rank" before (pRank p) in
  let! al := keepChanged flag #"isAllDay" before (pAllDay p) in
  let! ho := keepChanged flag #"isHoliday" before (pHoliday p) in
  let! ss := keepChanged (vector PlannerJson.step) #"steps" before (pSteps p) in
  Ok {| pName := n; pDescription := d; pStart := s; pEnd := e; pDay := None; pDue := None; pStatus := None;
        pProject := pr; pMinutes := mi; pColor := co; pRemind := rm; pRank := ra; pAllDay := al; pHoliday := ho;
        pSteps := ss; pSource := None; pRepeat := None |}.

Definition changedTaskFields (before : Task) (p : ItemPatch) : result exn ItemPatch := changedIn (enc task before) p.
Definition changedEventFields (before : Event) (p : ItemPatch) : result exn ItemPatch := changedIn (enc event before) p.
End Changed.

(** *** Rules *)

Fixpoint commaList (l : list Z) : bytes :=
  match l with
  | [] => []
  | d :: l' => Decimal.to_string d ++ (if l' then [] else #"," ++ commaList l')
  end.

Definition weekdaysText (r : Repeat) : bytes :=
  if bool_decide (kind r = #"weekly") then commaList (sortZ (default [] (weekdays r))) else [].

Definition sameRepeat (a b : option Repeat) : bool :=
  match a, b with
  | Some a, Some b =>
      bool_decide (kind a = kind b) && (interval a =? interval b) && bool_decide (weekdaysText a = weekdaysText b)
      && (negb (bool_decide (kind a = #"monthly")) || (default 0 (monthDay a) =? default 0 (monthDay b)))
      && bool_decide (startDay a = startDay b) && bool_decide (default [] (endDay a) = default [] (endDay b))
      && (default 0 (count a) =? default 0 (count b))
  | None, None => true
  | _, _ => false
  end.

Definition nearestSeriesDay (x : SeriesItem) (day : bytes) : option bytes :=
  match repeatIn x with
  | None => None
  | Some r =>
      if instanceIn x day then Some day
      else
        let from := if negb (isEmpty (startDay r)) && blt day (startDay r) then startDay r else day in
        snd <$> list_find (fun d => instanceIn x d) (expandRepeat r from (addDays from kFirstDayHorizon))
  end.

(** ** The same rule *)

Lemma commaList_inj (l k : list Z) : Forall (fun d => 0 <= d <= 6) l -> Forall (fun d => 0 <= d <= 6) k ->
  commaList l = commaList k -> l = k.
Proof.
  assert (D : forall d, 0 <= d <= 6 -> Decimal.to_string d = [Decimal.digit d]).
  { intros d Hd. assert (d = 0 \/ d = 1 \/ d = 2 \/ d = 3 \/ d = 4 \/ d = 5 \/ d = 6) as Q by lia.
    by repeat destruct Q as [->|Q]; [..|subst d]. }
  intros Fl. revert k. induction Fl as [|a l Ha Fl IH]; intros [|b k] Fk E; try done; cbn [commaList] in E.
  - inversion Fk; subst. by rewrite D in E.
  - by rewrite D in E.
  - inversion Fk; subst. rewrite !D in E by done. cbn [app] in E. injection E as Ed E.
    assert (a = b) as ->.
    { apply (f_equal b2z) in Ed. rewrite !Decimal.digit_value in Ed by lia. lia. }
    destruct l, k; try done. injection E as E. f_equal. by apply IH.
Qed.

(** The positions of the week depend on which days there are. *)
Lemma positions_perm (l k : list Z) : Forall (fun d => 0 <= d <= 6) l -> l ≡ₚ k ->
  sortZ (mondayBased <$> uniqueOf l) = sortZ (mondayBased <$> uniqueOf k).
Proof.
  intros F P. unfold sortZ. apply (StronglySorted_unique Z.le); [apply StronglySorted_merge_sort; apply _..|].
  rewrite !merge_sort_Permutation. apply fmap_Permutation.
  destruct (uniqueOf_spec l) as [Nl El], (uniqueOf_spec k) as [Nk Ek]. apply NoDup_Permutation; [done..|].
  intros x. rewrite El, Ek. by rewrite P.
Qed.

(** What a rule of each kind reads of a compiled rule. *)
Lemma ordinal_ext (u v : CompiledRepeat) (e : Z) :
  cKind u = cKind v -> cInterval u = cInterval v -> isValid u = isValid v -> cStart u = cStart v -> cEnd u = cEnd v ->
  startYear u = startYear v -> startMonth u = startMonth v -> startDate u = startDate v ->
  (cKind u = #"weekly" -> positions u = positions v /\ weekdayMask u = weekdayMask v /\ startWeek u = startWeek v /\
     skippedInFirstWeek u = skippedInFirstWeek v) ->
  (cKind u = #"monthly" -> cMonthDay u = cMonthDay v) ->
  ordinalOfEpoch u e = ordinalOfEpoch v e.
Proof.
  intros K I V S E Y Mo D W M. unfold ordinalOfEpoch. rewrite <- K, <- I, <- V, <- S, <- E, <- Y, <- Mo, <- D.
  destruct (bool_decide (cKind u = #"weekly")) eqn:E1.
  { apply bool_decide_eq_true in E1. by destruct (W E1) as (<- & <- & <- & <-). }
  destruct (bool_decide (cKind u = #"daily")); [reflexivity|].
  destruct (bool_decide (cKind u = #"monthly")) eqn:E3; [|reflexivity].
  apply bool_decide_eq_true in E3. by rewrite <- (M E3).
Qed.

Lemma flat_default (o : option Z) : (match o with Some c => if c =? 0 then None else Some c | None => None end)
  = if default 0 o =? 0 then None else Some (default 0 o).
Proof. by destruct o as [c|]; cbn. Qed.

Lemma truthy_default (o : option bytes) : truthy o = negb (isEmpty (default [] o)).
Proof. by destruct o as [[|]|]. Qed.

(** Property (same_repeat_days): two valid rules that are called the same have
    their instances on the same days, although they may list the days of the
    week in another order, name a day of the month that their kind ignores, or
    write a missing end or count in another way. *)
Theorem same_repeat_days (a b : Repeat) : validateRepeat a = None -> validateRepeat b = None ->
  sameRepeat (Some a) (Some b) = true -> forall day, occursOn a day = occursOn b day.
Proof.
  intros Va Vb. unfold sameRepeat. rewrite !andb_true_iff, orb_true_iff, negb_true_iff, !bool_decide_eq_true,
    bool_decide_eq_false, !Z.eqb_eq. intros ((((((K & I) & W) & M) & S) & En) & C) day. unfold occursOn.
  destruct (negb (isDayKey day)); [done|]. unfold occursOnEpoch.
  replace (cCount (compileRepeat b)) with (cCount (compileRepeat a))
    by (unfold compileRepeat; cbn [cCount]; by rewrite !flat_default, C).
  rewrite (ordinal_ext (compileRepeat a) (compileRepeat b)); [done|unfold compileRepeat; cbn..].
  all: rewrite ?K, ?I, ?S, ?truthy_default, ?En; try done.
  - intros Kw. rewrite <- K in Kw. destruct (validateRepeat_spec a Va) as (_ & Wa & _), (validateRepeat_spec b Vb) as (_ & Wb & _).
    destruct (Wa Kw) as [_ Ra], (Wb ltac:(by rewrite <- K)) as [_ Rb]. unfold weekdaysText in W.
    rewrite <- K, Kw, bool_decide_eq_true_2 in W by done.
    assert (P : default [] (weekdays a) ≡ₚ default [] (weekdays b)).
    { rewrite <- (merge_sort_Permutation Z.le (default [] (weekdays a))), <- (merge_sort_Permutation Z.le (default [] (weekdays b))).
      unfold sortZ in W. apply commaList_inj in W as ->; [done|..]; by rewrite merge_sort_Permutation. }
    rewrite (positions_perm _ _ Ra P). by split_and!.
  - intros Km. rewrite <- K in Km. destruct M as [M|M]; [done|].
    destruct (monthDay a) as [x|], (monthDay b) as [y|]; cbn in M; subst; done.
Qed.

Lemma same_repeat_days_witness :
  let rule ws d n := {| kind := #"weekly"; interval := 1; weekdays := Some ws; monthDay := d; startDay := #"2026-01-08";
                        endDay := n; count := None |} in
  occursOn (rule [4; 1] (Some 8) None) #"2026-01-12" = occursOn (rule [1; 4] None (Some [])) #"2026-01-12" /\
  occursOn (rule [4; 1] (Some 8) None) #"2026-01-12" = true.
Proof.
  split; [|vm_compute; reflexivity]. apply same_repeat_days; vm_compute; reflexivity.
Defined.

(** ** What a change of the rule does to the days *)

(** The rule of the part from a day on. *)
Definition followingRule (previous r : Repeat) (day : bytes) : Repeat :=
  withRange r day
    (match endDay r with Some (c :: e) => if blt (c :: e) day then None else endDay r | e => e end)
    (if default 0 (count r) =? default 0 (count previous)
     then (match count previous with Some c => Some (Z.max 1 (c - instancesBefore previous day)) | None => None end)
     else count r).

Lemma following_rule (previous r : Repeat) (day : bytes) :
  applyRepeatPatch (nextRule previous day) (followingPatch previous r day) = followingRule previous r day.
Proof.
  unfold applyRepeatPatch, followingPatch, followingRule, withRange, nextRule, patchOf. cbn. f_equal.
  - destruct (endDay r) as [[|c e]|]; [done| |done]. match goal with |- optField (if ?b then _ else _) _ = _ => by destruct b end.
  - by destruct (default 0 (count r) =? default 0 (count previous)).
Qed.

Lemma occurrenceIn_filter (P : bytes -> bool) (os : list Occurrence) (d : bytes) :
  occurrenceIn (filter (fun o => P (oDay o)) os) d = if P d then occurrenceIn os d else None.
Proof.
  induction os as [|o os IH]; [by destruct (P d)|]. rewrite filter_cons, occurrenceIn_cons. case_decide as E.
  - rewrite occurrenceIn_cons, IH. case_bool_decide as Q; [|done]. rewrite <- Q. by destruct (P (oDay o)).
  - rewrite IH. case_bool_decide as Q; [|done]. rewrite <- Q. by destruct (P (oDay o)).
Qed.

Lemma ruled_days `{EntryLaws T} (r : Repeat) (x : T) (d : bytes) :
  hasInstanceOn (ruled r x) d = occursOn r d && negb (isExcluded (getOccurrence x d)).
Proof.
  unfold hasInstanceOn, ruled, getOccurrence. entry. destruct (occursOn r d) eqn:E; [|done].
  destruct (occurrencesOf x) as [os|]; cbn [fmap option_fmap option_map]; [|done].
  by rewrite (occurrenceIn_filter (occursOn r)), E.
Qed.

(** Claim C26 (change_rule_days): the rule of a series is changed from the card of
    a day of the rule after the first; the rule so far is valid, begins on a day of
    the calendar and, when it is monthly with a count, by its day of the month
    ([truncate_loses_instance] is the other case). Then the days of the series are
    what the choice says. "Only this day" and "stop from here" put an entry of its
    own on the day; the series keeps all its other days, or those before the day.
    "From this day on" leaves the series the days before the day and gives a new
    one the new rule from the day on, with what is left of an unchanged count.
    "All" keeps the entry, which gets the new rule and the marks that fit it.
    Other entries are not touched. *)
Theorem change_rule_days `{EntryLaws T} (st : State) (i newId : bytes) (patch : ItemPatch) (n : nat) (x : T)
    (r r' : Repeat) (p q : Parts) :
  findIn (itemsOf st) i = Some (n, x) -> repeatOf x = Some r -> dividable r p q ->
  let day := keyOf q in
  let change scope := changeRuleIn (T := T) st i day (Some r') scope patch newId in
  let before y := forall e, keyDay e -> hasInstanceOn y (keyOfEpoch e) = hasInstanceOn x (keyOfEpoch e) && blt (keyOfEpoch e) day in
  let after y new := setItems st (<[n := y]> (itemsOf st) ++ [new]) in
  (exists y copy, change OnlyThisDay = (Some (inject copy), after y copy) /\ itemId y = i /\ itemId copy = newId /\
     originOf copy = Some {| seriesId := i; originDay := day |} /\ repeatOf copy = None /\
     forall d, hasInstanceOn y d = hasInstanceOn x d && negb (bool_decide (d = day))) /\
  (exists y copy, change StopSeries = (Some (inject copy), after y copy) /\ itemId y = i /\ itemId copy = newId /\
     originOf copy = Some {| seriesId := i; originDay := day |} /\ repeatOf copy = None /\ before y) /\
  (exists y new, change FollowingDays = (Some (inject new), after y new) /\ itemId y = i /\ itemId new = newId /\
     before y /\ forall d, hasInstanceOn new d = occursOn (followingRule r r' day) d) /\
  (exists y, change AllOfSeries = (Some (inject y), setItems st (<[n := y]> (itemsOf st))) /\ itemId y = i /\
     forall d, hasInstanceOn y d = occursOn r' d && negb (isExcluded (getOccurrence x d))).
Proof.
  intros F R Dv. pose proof (findIn_spec _ _ _ _ F) as (Hx & Hi & _). cbn zeta. unfold changeRuleIn. rewrite F, R.
  set (pd := match pDay patch with Some (Some (_ :: _)) => _ | _ => _ end).
  assert (Pr : pRepeat pd = None) by (subst pd; by destruct (pDay patch) as [[[|]|]|]).
  destruct (detachOf_one st i (keyOf q) newId pd n x F) as (y & copy & E & Iy & Ry & Dy & Ic & Oc & _ & Rc & _).
  rewrite Pr in Rc. cbn [repeatField] in Rc. split_and!.
  - exists y, copy. rewrite E. by split_and!.
  - rewrite E. assert (Fy : findIn (itemsOf (setItems st (<[n := y]> (itemsOf st) ++ [copy]))) i = Some (n, y)).
    { rewrite items_setItems. apply findIn_app. by eapply findIn_keeps. }
    destruct (truncateIn_part _ i n y r p q Fy ltac:(by rewrite Ry) Dv) as (z & Ez & Iz & Dz).
    exists z, copy. rewrite Ez. cbn [snd fst fmap option_fmap option_map]. rewrite items_setItems, setItems_setItems.
    rewrite insert_app_l by (rewrite length_insert; by apply lookup_lt_Some in Hx). rewrite list_insert_insert_eq.
    split_and!; try done. intros e Ke. rewrite Dz, Dy by done.
    destruct (bool_decide_reflect (keyOfEpoch e = keyOf q)) as [->|]; [|by rewrite andb_true_r].
    destruct Dv as [_ _ Kq _ _ _ _ _]. rewrite blt_keyOf, Z.ltb_irrefl by done. by rewrite !andb_false_r.
  - rewrite (div_notAfterStart r p q Dv). cbn [negb].
    destruct (splitIn_parts st i newId (withDay (withDay patch None None) None (setTo (followingPatch r r' (keyOf q)))) n x r p q F R Dv)
      as (old & new & Es & Io & In & Do & Rn & On).
    exists old, new. rewrite Es. split_and!; try done. intros d. unfold hasInstanceOn, getOccurrence. rewrite Rn, On.
    cbn [withDay pRepeat setTo]. rewrite following_rule. cbn. by rewrite andb_true_r.
  - unfold updateIn. rewrite F, R. cbn [withDay pDay snd]. unfold writeAt, putAt. rewrite items_setItems.
    erewrite findIn_keeps; [|exact F|by entry]. rewrite setItems_setItems, list_insert_insert_eq.
    eexists. split; [reflexivity|]. split; [unfold ruled; by entry|]. intros d. rewrite ruled_days.
    unfold getOccurrence. by entry.
Qed.

Lemma change_rule_days_witness :
  let change scope := changeRuleIn (T := Event) sampleState #"e" (keyOf sampleDay) (Some jsonRule) scope noPatch #"n" in
  let before (y : Event) := forall e, keyDay e ->
    hasInstanceOn y (keyOfEpoch e) = hasInstanceOn sampleLesson (keyOfEpoch e) && blt (keyOfEpoch e) (keyOf sampleDay) in
  let after y new := setItems sampleState (<[0%nat := y]> (itemsOf sampleState) ++ [new]) in
  (exists y copy, change OnlyThisDay = (Some (inject copy), after y copy) /\ itemId y = #"e" /\ itemId copy = #"n" /\
     originOf copy = Some {| seriesId := #"e"; originDay := keyOf sampleDay |} /\ repeatOf copy = None /\
     forall d, hasInstanceOn y d = hasInstanceOn sampleLesson d && negb (bool_decide (d = keyOf sampleDay))) /\
  (exists y copy, change StopSeries = (Some (inject copy), after y copy) /\ itemId y = #"e" /\ itemId copy = #"n" /\
     originOf copy = Some {| seriesId := #"e"; originDay := keyOf sampleDay |} /\ repeatOf copy = None /\ before y) /\
  (exists y new, change FollowingDays = (Some (inject new), after y new) /\ itemId y = #"e" /\ itemId new = #"n" /\
     before y /\ forall d, hasInstanceOn new d = occursOn (followingRule weeklySample jsonRule (keyOf sampleDay)) d) /\
  (exists y, change AllOfSeries = (Some (inject y), setItems sampleState (<[0%nat := y]> (itemsOf sampleState))) /\
     itemId y = #"e" /\ forall d, hasInstanceOn y d = occursOn jsonRule d && negb (isExcluded (getOccurrence sampleLesson d))).
Proof.
  apply (change_rule_days (T := Event) sampleState #"e" #"n" noPatch 0 sampleLesson weeklySample jsonRule sampleFirst sampleDay);
    [vm_compute; reflexivity|reflexivity|exact sample_dividable].
Defined.

(** ** Edits of detached days *)

Class ItemLaws (T : Type) `{Entry T} := {
  idIn_inject x : idIn (inject x) = itemId x;
  repeatIn_inject x : repeatIn (inject x) = repeatOf x;
  originIn_inject x : originIn (inject x) = originOf x;
  instanceIn_inject x d : instanceIn (inject x) d = hasInstanceOn x d;
  findSeries_kind st i : findSeriesItem st (kindOf T) i = (fun p : nat * T => inject p.2) <$> findIn (itemsOf st) i
}.
#[export] Instance task_item : ItemLaws Task.
Proof. by split. Qed.
#[export] Instance event_item : ItemLaws Event.
Proof. by split. Qed.

Section Copies.
Context `{EntryLaws T, !ItemLaws T}.

Definition uniqueIds (st : State) : Prop := NoDup (itemId (T := T) <$> itemsOf st).

Definition onId (i : bytes) (f : T -> T) (x : T) : T := if bool_decide (itemId x = i) then f x else x.

(** With unique identifiers a write through a pointer changes the entry with the identifier. *)
Lemma writeAt_map (st : State) (i : bytes) (f : T -> T) (n : nat) (x : T) : uniqueIds st ->
  findIn (itemsOf st) i = Some (n, x) -> writeAt st i f = Some (f x, setItems st (onId i f <$> itemsOf st)).
Proof.
  intros U F. unfold writeAt. rewrite F. unfold putAt. do 3 f_equal. apply findIn_spec in F as (Hx & <- & _).
  apply list_eq. intros m. rewrite list_lookup_fmap. destruct (decide (m = n)) as [->|Hm].
  - rewrite list_lookup_insert_eq, Hx by (by apply lookup_lt_Some in Hx). cbn. unfold onId. by rewrite bool_decide_eq_true_2.
  - rewrite list_lookup_insert_ne by done. destruct (itemsOf st !! m) as [y|] eqn:Hy; [|done]. cbn. unfold onId.
    rewrite bool_decide_eq_false_2; [done|]. intros E. destruct Hm. eapply NoDup_lookup; [exact U|..].
    + rewrite list_lookup_fmap, Hy. cbn. by rewrite E.
    + by rewrite list_lookup_fmap, Hx.
Qed.

Lemma unique_map (st : State) (g : T -> T) : uniqueIds st -> (forall x, itemId (g x) = itemId x) ->
  uniqueIds (setItems st (g <$> itemsOf st)).
Proof.
  intros U G. unfold uniqueIds. rewrite items_setItems, <- list_fmap_compose.
  erewrite list_fmap_ext; [exact U|]. intros. apply G.
Qed.

Lemma findIn_map (l : list T) (g : T -> T) (i : bytes) : (forall x, itemId (g x) = itemId x) ->
  findIn (g <$> l) i = (fun p => (p.1, g p.2)) <$> findIn l i.
Proof.
  intros G. unfold findIn. induction l as [|x l IH]; [done|]. cbn [fmap list_fmap list_find]. rewrite G.
  case_decide; [done|]. change (list_fmap _ _ g l) with (g <$> l). rewrite IH. by destruct (list_find _ l) as [[m y]|].
Qed.

Lemma onId_id (i : bytes) (fields : ItemPatch) (x : T) : itemId (onId i (applyPatch fields) x) = itemId x.
Proof. unfold onId. destruct (bool_decide _); [by entry|done]. Qed.

(** An edit without a rule changes neither what entry a day was detached from nor
    whether it repeats. *)
Lemma isCopyOf_patch (series : bytes) (d e : option bytes) (fields : ItemPatch) (x : T) : pRepeat fields = None ->
  isCopyOf series d e (applyPatch fields x) = isCopyOf series d e x.
Proof. intros P. unfold isCopyOf, isRepeating. entry. by rewrite P. Qed.

(** Property (copy_edit_reaches): an edit "for all" of a day detached from a
    series, without a rule, is applied exactly once to the series and to every
    day detached from it, the edited one among them, and to no other entry. *)
Theorem copy_edit_reaches (st : State) (fields : ItemPatch) (n m : nat) (x s : T) (o : Origin) :
  uniqueIds st -> pRepeat fields = None ->
  findIn (itemsOf st) (itemId x) = Some (n, x) -> repeatOf x = None -> originOf x = Some o ->
  findIn (itemsOf st) (seriesId o) = Some (m, s) -> repeatOf s <> None ->
  updateFromCopyIn (T := T) st (inject x) fields
  = (true, setItems st ((fun y => if bool_decide (itemId y = seriesId o) || isCopyOf (seriesId o) None None y
                                  then applyPatch fields y else y) <$> itemsOf st)).
Proof.
  intros U P F Rx Ox Fs Rs. unfold updateFromCopyIn, patchOne. rewrite idIn_inject, (writeAt_map st _ _ n x U F).
  set (st1 := setItems st _). unfold seriesOfCopy. rewrite repeatIn_inject, Rx, originIn_inject, Ox, findSeries_kind.
  assert (U1 : uniqueIds st1) by (apply unique_map; [done|intros; apply onId_id]).
  assert (F1 : findIn (itemsOf st1) (seriesId o) = Some (m, onId (itemId x) (applyPatch fields) s)).
  { subst st1. rewrite items_setItems, findIn_map by (intros; apply onId_id). by rewrite Fs. }
  assert (Hs : itemId s = seriesId o) by (by apply findIn_spec in Fs as (_ & ? & _)).
  assert (Hne : itemId s <> itemId x).
  { intros E. destruct Rs. rewrite <- Hs, E, F in Fs. by injection Fs as _ <-. }
  rewrite F1. unfold onId. rewrite (bool_decide_eq_false_2 (itemId s = itemId x)) by done. cbn [fmap option_fmap option_map snd].
  rewrite repeatIn_inject. destruct (repeatOf s) as [r|] eqn:Er; [|done]. rewrite idIn_inject.
  rewrite Hs, (writeAt_map st1 _ _ m _ U1 F1). unfold patchCopiesIn. subst st1.
  rewrite !items_setItems, !setItems_setItems.
  assert (Pt : forall y, y ∈ itemsOf st ->
    (if bool_decide (itemId y = seriesId o) || isCopyOf (seriesId o) None None y then applyPatch fields y else y)
    = let z := onId (seriesId o) (applyPatch fields) (onId (itemId x) (applyPatch fields) y) in
      if isCopyOf (seriesId o) None (Some (itemId x)) z then applyPatch fields z else z).
  { intros y Hy. unfold onId at 2. destruct (bool_decide_reflect (itemId y = itemId x)) as [E|E].
    - assert (y = x) as ->.
      { apply list_elem_of_lookup in Hy as [k Hk]. apply findIn_spec in F as (Hx & _ & _).
        assert (k = n) as ->; [|congruence]. eapply NoDup_lookup; [exact U|..].
        - by rewrite list_lookup_fmap, Hk.
        - rewrite list_lookup_fmap, Hx. cbn. by rewrite E. }
      unfold onId. entry. rewrite (bool_decide_eq_false_2 (itemId x = seriesId o)) by congruence. cbn zeta.
      rewrite isCopyOf_patch by done. unfold isCopyOf, isRepeating. rewrite Rx, Ox, !bool_decide_eq_true_2 by done. done.
    - unfold onId. destruct (bool_decide_reflect (itemId y = seriesId o)) as [E2|E2]; cbn [orb].
      + assert (y = s) as ->.
        { apply list_elem_of_lookup in Hy as [k Hk]. apply findIn_spec in Fs as (Hx & _ & _).
          assert (k = m) as ->; [|congruence]. eapply NoDup_lookup; [exact U|..].
          - by rewrite list_lookup_fmap, Hk.
          - rewrite list_lookup_fmap, Hx. cbn. by rewrite E2, Hs. }
        cbn zeta. rewrite isCopyOf_patch by done. unfold isCopyOf, isRepeating. rewrite Er. cbn. by rewrite andb_false_r.
      + cbn zeta. unfold isCopyOf. by rewrite (bool_decide_eq_false_2 (itemId y = itemId x)). }
  destruct (emptyPatch fields) eqn:Em; cbn [snd]; do 2 f_equal; rewrite <- ?list_fmap_compose.
  - apply list_fmap_ext. intros k y Hy. unfold compose, onId. rewrite !(applyPatch_empty fields) by done.
    repeat match goal with |- context [if ?b then _ else _] => destruct b end; done.
  - apply list_fmap_ext. intros k y Hy. symmetry. unfold compose. apply Pt. by eapply list_elem_of_lookup_2.
Qed.
End Copies.

(** A series, two of its days on their own, and an event that is none of them. *)
Definition detachedDay (i : bytes) (series : option bytes) : Event :=
  {| eId := i; eName := #"Lesson"; eDescription := None; eStart := #"10:00"; eEnd := #"11:00"; eDay := Some #"2026-02-02";
     eRepeat := None; eOccurrences := None;
     eOrigin := (fun d => {| seriesId := d; originDay := #"2026-02-02" |}) <$> series; eInstanceDay := None;
     isAllDay := None; isHoliday := None; color := None; eRemind := None; eProject := None |}.
Definition copiesState : State :=
  setEvents sampleState [detachedDay #"a" None; detachedDay #"b" (Some #"e"); sampleLesson; detachedDay #"c" (Some #"e")].

Lemma copy_edit_reaches_witness :
  let reached y := bool_decide (itemId (T := Event) y = #"e") || isCopyOf #"e" None None y in
  updateFromCopyIn (T := Event) copiesState (inject (detachedDay #"b" (Some #"e"))) (descriptionPatch #"room 5")
  = (true, setItems copiesState ((fun y => if reached y then applyPatch (descriptionPatch #"room 5") y else y)
                                 <$> itemsOf copiesState)) /\
  (reached <$> itemsOf copiesState) = [false; true; true; true].
Proof.
  split; [|vm_compute; reflexivity].
  apply (copy_edit_reaches (T := Event) copiesState (descriptionPatch #"room 5") 1 2 (detachedDay #"b" (Some #"e"))
           sampleLesson {| seriesId := #"e"; originDay := #"2026-02-02" |}); try (vm_compute; reflexivity); [|discriminate].
  apply (bool_decide_unpack _). vm_compute. exact I.
Defined.

(** ** The fields that an edit changes *)

Section ChangedFields.
Context (dump : json -> result exn bytes)
  (dump_faithful : forall a b s, dump a = Ok s -> dump b = Ok s -> reparse a = reparse b).

Lemma keepChanged_spec {A} (c : codec A) (k : bytes) (before : json) (f g : PatchField A) :
  keepChanged dump c k before f = Ok g ->
  g = f \/ (g = None /\ exists v, f = Some v /\ reparse (orEmpty (putOpt c v)) = reparse (orEmpty (jfind k before))).
Proof.
  unfold keepChanged. destruct f as [v|]; [|intros [= <-]; by left].
  destruct (dump (orEmpty (putOpt c v))) as [x|] eqn:Ex; [|done]. cbn [rbind].
  destruct (dump (orEmpty (jfind k before))) as [y|] eqn:Ey; [|done]. cbn [rbind].
  case_bool_decide as E; intros [= <-]; [right|by left]. subst y. split; [done|]. exists v. split; [done|].
  by apply (dump_faithful _ _ x).
Qed.

Lemma orEmpty_enc {A} (c : codec A) (wf : A -> Prop) (x : A) : lossless c wf -> orEmpty (Some (enc c x)) = enc c x.
Proof. intros L. pose proof (not_null _ _ L x). unfold orEmpty. by destruct (enc c x). Qed.

Lemma enc_inj {A} (c : codec A) (wf : A -> Prop) (x y : A) : lossless c wf -> wf x -> wf y ->
  reparse (enc c x) = reparse (enc c y) -> x = y.
Proof.
  intros L Wx Wy E. pose proof (reads_back _ _ L x _ Wx (or_intror eq_refl)) as A1.
  pose proof (reads_back _ _ L y _ Wy (or_intror eq_refl)) as A2. rewrite E in A1. congruence.
Qed.

(** A field that every entry has, [d] standing for an undefined value. *)
Lemma kept_field {A} (c : codec A) (wf : A -> Prop) (k : bytes) (before : json) (f g : PatchField A) (d old : A) :
  lossless c wf -> keepChanged dump c k before f = Ok g -> jfind k before = has c old -> wf old ->
  onSome (onSome wf) f -> (reparse (enc c old) = JStr [] -> old = d) ->
  field g d old = field f d old.
Proof.
  intros L K B Wo Wf D. apply keepChanged_spec in K as [->|(-> & v & -> & E)]; [done|]. rewrite B in E.
  unfold has in E. rewrite (orEmpty_enc c wf old) in E by done. cbn [field]. destruct v as [v|]; [|exact (D (eq_sym E))].
  change (putOpt c (Some v)) with (Some (enc c v)) in E. rewrite (orEmpty_enc c wf v) in E by done.
  symmetry. by eapply enc_inj.
Qed.

(** A field that may be missing, no value of which prints like the empty text. *)
Lemma kept_optField {A} (c : codec A) (wf : A -> Prop) (k : bytes) (before : json) (f g : PatchField A) (old : option A) :
  lossless c wf -> keepChanged dump c k before f = Ok g -> jfind k before = putOpt c old -> onSome wf old ->
  onSome (onSome wf) f -> onSome (fun x => reparse (enc c x) <> JStr []) old ->
  onSome (onSome (fun x => reparse (enc c x) <> JStr [])) f ->
  optField g old = optField f old.
Proof.
  intros L K B Wo Wf Eo Ef. apply keepChanged_spec in K as [->|(-> & v & -> & E)]; [done|]. rewrite B in E. cbn [optField].
  assert (R : forall o, orEmpty (putOpt c o) = match o with Some x => enc c x | None => JStr [] end).
  { intros [x|]; [|done]. by apply (orEmpty_enc c wf). }
  rewrite !R in E. destruct v as [v|], old as [x|]; cbn in *; try done.
  f_equal. symmetry. by eapply enc_inj.
Qed.

(** What an edit for all days may carry. *)
Definition sharedPatch (p : ItemPatch) : ItemPatch :=
  {| pName := pName p; pDescription := pDescription p; pStart := pStart p; pEnd := pEnd p; pDay := None; pDue := None;
     pStatus := None; pProject := pProject p; pMinutes := pMinutes p; pColor := pColor p; pRemind := pRemind p;
     pRank := pRank p; pAllDay := pAllDay p; pHoliday := pHoliday p; pSteps := pSteps p; pSource := None;
     pRepeat := None |}.

Definition patchFits (p : ItemPatch) : Prop :=
  onSome (onSome int32) (pMinutes p) /\ onSome (onSome int32) (pColor p) /\ onSome (onSome int32) (pRemind p) /\
  onSome (onSome isDouble) (pRank p).

Definition notEmptyText (o : option bytes) : Prop := o <> Some [].

Lemma jfind_fields (k : bytes) (fields : list (bytes * option json)) (v : option json) :
  NoDup (fields.*1) -> assoc k fields = v -> jfind k (object fields) = v.
Proof. intros N <-. unfold object. cbn [jfind]. rewrite obj_get_fields by done. by destruct (assoc k fields). Qed.

Ltac distinct_keys := apply (bool_decide_unpack _); vm_compute; exact I.

(** Reads off what the members of a reduced patch are. *)
Ltac reduced_fields K :=
  unfold changedIn in K;
  repeat match type of K with
         | rbind (keepChanged ?d ?c ?k ?b ?f) _ = _ =>
             let E := fresh "E" in destruct (keepChanged d c k b f) eqn:E; [cbn [rbind] in K|discriminate K]
         end;
  injection K as <-.

Ltac kept := first
  [ eapply kept_field; swap 1 2; [eassumption|eauto with codecs|apply jfind_fields; [distinct_keys|reflexivity]|..]
  | eapply kept_optField; swap 1 2; [eassumption|eauto with codecs|apply jfind_fields; [distinct_keys|reflexivity]|..] ].

Lemma onSome_all {A} (P : A -> Prop) (f : PatchField A) : (forall x, P x) -> onSome (onSome P) f.
Proof. intros H. by destruct f as [[x|]|]; cbn. Qed.

Lemma text_kept (f : PatchField bytes) : f <> setTo [] -> onSome (onSome (fun x => reparse (enc str x) <> JStr [])) f.
Proof. intros N. destruct f as [[x|]|]; cbn; [|done..]. intros [= ->]. by apply N. Qed.

Lemma text_here (o : option bytes) : notEmptyText o -> onSome (fun x => reparse (enc str x) <> JStr []) o.
Proof. intros N. destruct o as [x|]; cbn; [|done]. intros [= ->]. by apply N. Qed.

Lemma text_empty (s : bytes) : reparse (enc str s) = JStr [] -> s = [].
Proof. by intros [= ->]. Qed.

Lemma int_printed (z : Z) : reparse (enc int z) <> JStr [].
Proof. cbn. by destruct (0 <=? z). Qed.

#[local] Hint Resolve str_lossless flag_lossless int_lossless double_lossless vector_lossless step_lossless onSome_True
  Forall_True onSome_all text_kept text_here text_empty int_printed I : codecs.

Lemma onSome_each {A} (P : A -> Prop) (o : option A) : (forall x, P x) -> onSome P o.
Proof. by destruct o; cbn. Qed.
#[local] Hint Resolve onSome_each : codecs.

(** Property (changed_fields_enough): to pass on an edit only the fields that
    print differently from the entry are needed: applied to the entry, the
    reduced edit gives what the whole edit gives but for the fields of the day
    itself. Texts that may be missing must not be empty, an empty one printing
    like a missing one. *)
Theorem changed_fields_enough :
  (forall (t : Task) (p q : ItemPatch), taskFits t -> patchFits p -> notEmptyText (tStart t) -> pStart p <> setTo [] ->
     changedTaskFields dump t p = Ok q -> patchTask t q = patchTask t (sharedPatch p)) /\
  (forall (e : Event) (p q : ItemPatch), eventFits e -> patchFits p -> notEmptyText (eDescription e) ->
     notEmptyText (eProject e) -> pDescription p <> setTo [] -> pProject p <> setTo [] ->
     changedEventFields dump e p = Ok q -> patchEvent e q = patchEvent e (sharedPatch p)).
Proof.
  split.
  - intros t p q (F1 & F2 & _ & _ & F5) (P1 & P2 & P3 & P4) N1 N2 K. unfold changedTaskFields in K. reduced_fields K.
    unfold patchTask, sharedPatch. cbn [pName pDescription pStart pEnd pDay pDue pStatus pProject pMinutes pColor pRemind
      pRank pAllDay pHoliday pSteps pSource pRepeat]. f_equal; try reflexivity; kept; eauto with codecs; try done.
  - intros x p q (_ & _ & F3 & F4) (P1 & P2 & P3 & P4) N1 N2 N3 N4 K. unfold changedEventFields in K. reduced_fields K.
    unfold patchEvent, sharedPatch. cbn [pName pDescription pStart pEnd pDay pDue pStatus pProject pMinutes pColor pRemind
      pRank pAllDay pHoliday pSteps pSource pRepeat]. f_equal; try reflexivity; kept; eauto with codecs; try done.
Qed.
End ChangedFields.

(** A printer of texts and flags, which throws for every other value. *)
Definition textDump (j : json) : result exn bytes :=
  match j with JStr s => Ok (#"t" ++ s) | JBool b => Ok (if b then #"y" else #"n") | _ => Err TypeError end.

Lemma textDump_faithful (a b : json) (s : bytes) : textDump a = Ok s -> textDump b = Ok s -> reparse a = reparse b.
Proof. destruct a as [|[]| | | | | |], b as [|[]| | | | | |]; cbn; congruence. Qed.

Definition renaming : ItemPatch :=
  {| pName := setTo #"Lesson"; pDescription := undefinedField; pStart := setTo #"12:00"; pEnd := None;
     pDay := setTo #"2026-02-03"; pDue := None; pStatus := None; pProject := None; pMinutes := None; pColor := None;
     pRemind := None; pRank := None; pAllDay := setTo false; pHoliday := None; pSteps := None; pSource := None;
     pRepeat := None |}.
Definition renamed : ItemPatch :=
  {| pName := None; pDescription := None; pStart := setTo #"12:00"; pEnd := None;
     pDay := None; pDue := None; pStatus := None; pProject := None; pMinutes := None; pColor := None;
     pRemind := None; pRank := None; pAllDay := setTo false; pHoliday := None; pSteps := None; pSource := None;
     pRepeat := None |}.

Lemma changed_fields_enough_witness :
  changedEventFields textDump (detachedDay #"b" None) renaming = Ok renamed /\
  patchEvent (detachedDay #"b" None) renamed = patchEvent (detachedDay #"b" None) (sharedPatch renaming).
Proof.
  split; [vm_compute; reflexivity|].
  apply (proj2 (changed_fields_enough textDump textDump_faithful) _ renaming renamed);
    (vm_compute; reflexivity) || (vm_compute; by split_and!) || (vm_compute; discriminate).
Defined.
End SeriesEdit.
