(* ===== verification/SeriesDays.v ===== *)
(** * SeriesDays: the first day of a series and the nearest one

    [firstSeriesDay] and [nearestSeriesDay] of [src/sections/planner_series.cpp]
    search a fixed number of days ([kFirstDayHorizon]). Both find the first
    instance of that period; for a weekly rule there is one. *)

From stdpp Require Import sorting.
From S2P Require Import Prelude PlannerUtil Calendar Repeat PlannerState Series SeriesRules SeriesShift SeriesEdit.
Import Util Calendar Repeats Planner Series SeriesRules SeriesShift SeriesEdit.

#[local] Open Scope Z_scope.

Module SeriesDays.

(** ** The search *)

Lemma upTo_S (lo : Z) (n : nat) : upTo lo (S n) = lo :: upTo (lo + 1) n.
Proof. change (S n) with (1 + n)%nat. rewrite upTo_app. unfold upTo at 1. cbn. by rewrite Z.add_0_r. Qed.

(** The days after the last one are passed over: the rule has no instance there. *)
Lemma after_last (r : Repeat) (e : Z) : (forall s, endDay r = Some s -> s = [] \/ realDay s) -> keyDay e ->
  truthy (endDay r) && blt (default [] (endDay r)) (keyOfEpoch e) = afterEnd (compileRepeat r) e.
Proof.
  intros El Ke. unfold afterEnd, compileRepeat. cbn [cEnd]. destruct (truthy (endDay r)) eqn:T; [|done].
  destruct (endDay r) as [s|]; [|done]. destruct (El s eq_refl) as [->|(l & Kl & ->)]; [done|]. cbn [andb from_option Datatypes.id].
  destruct (keyOf_epoch l Kl) as [<- Kd]. by rewrite blt_keyOfEpoch, epochDays_keyOfEpoch.
Qed.

Lemma firstFrom_head (r : Repeat) (p : Parts) (n : nat) : (forall s, endDay r = Some s -> s = [] \/ realDay s) ->
  keyDate p -> forall i, 0 <= i -> keyDay (daysOf p + i + Z.of_nat n) ->
  firstFrom r (keyOf p) i n = keyOfEpoch <$> head (filter (occursOnEpoch (compileRepeat r)) (upTo (daysOf p + i) n)).
Proof.
  intros El Kp. destruct (keyOf_epoch p Kp) as [Ep Kd]. induction n as [|n IH]; intros i Hi Ke; [done|].
  assert (Ki : keyDay (daysOf p + i)) by (unfold keyDay in *; lia).
  assert (Ea : addDays (keyOf p) i = keyOfEpoch (daysOf p + i)) by (rewrite <- Ep; by apply addDays_keyOfEpoch).
  cbn [firstFrom]. cbv zeta. rewrite Ea, after_last by done.
  rewrite occursOn_key by done. rewrite upTo_S, filter_cons.
  destruct (afterEnd (compileRepeat r) (daysOf p + i)) eqn:A.
  - assert (N : forall e, daysOf p + i <= e -> occursOnEpoch (compileRepeat r) e = false).
    { intros e He. apply occurs_after_end. destruct (afterEnd (compileRepeat r) e) eqn:B; [done|].
      by rewrite (afterEnd_down _ _ _ He B) in A. }
    rewrite N by lia. rewrite decide_False by (cbn; congruence).
    assert (filter (occursOnEpoch (compileRepeat r)) (upTo (daysOf p + i + 1) n) = []) as ->; [|done].
    apply elem_of_nil_inv. intros e [Ho He]%list_elem_of_filter. apply upTo_elem in He. by rewrite N in Ho by lia.
  - destruct (occursOnEpoch (compileRepeat r) (daysOf p + i)) eqn:O; [by rewrite decide_True by done|].
    rewrite decide_False by (cbn; congruence). rewrite IH by (done || lia || (unfold keyDay in *; lia)).
    by replace (daysOf p + (i + 1)) with (daysOf p + i + 1) by lia.
Qed.

(** ** The first day of a weekly rule *)

Lemma head_filter_upTo (P : Z -> bool) (lo : Z) (n : nat) (e : Z) : lo <= e < lo + Z.of_nat n -> P e = true ->
  exists e', head (filter P (upTo lo n)) = Some e' /\ lo <= e' <= e /\ P e' = true /\ forall x, lo <= x < e' -> P x = false.
Proof.
  revert lo. induction n as [|n IH]; intros lo He Pe; [lia|]. rewrite upTo_S, filter_cons.
  destruct (P lo) eqn:Pl.
  - rewrite decide_True by done. exists lo. split_and!; [done|lia|lia|done|lia].
  - rewrite decide_False by (cbn; congruence).
    assert (e <> lo) by (intros ->; congruence).
    destruct (IH (lo + 1) ltac:(lia) Pe) as (e' & H1 & H2 & H3 & H4). exists e'. split_and!; [done|lia|lia|done|].
    intros x Hx. destruct (decide (x = lo)) as [->|]; [done|]. apply H4. lia.
Qed.

Section Weekly.
Context (r : Repeat) (V : validateRepeat r = None) (Kw : kind r = #"weekly") (En : truthy (endDay r) = false).
Notation rule := (compileRepeat r).

Lemma no_end (e : Z) : afterEnd rule e = false.
Proof. unfold afterEnd, compileRepeat. cbn [cEnd]. by rewrite En. Qed.

(** Every week has a day of the rule when it begins nowhere. *)
Lemma unstarted_soon (s : Z) : startDay r = [] -> exists e, s <= e < s + 7 /\ occursOnEpoch rule e = true.
Proof.
  intros St. destruct (validateRepeat_spec r V) as (_ & W & _). destruct (W Kw) as [Ne Ra].
  destruct (default [] (weekdays r)) as [|w l] eqn:Ew; [done|]. inversion Ra as [|? ? Hw _]; subst.
  exists (s + (w - weekdayOfEpoch s) `mod` 7). split; [pose proof (Z.mod_pos_bound (w - weekdayOfEpoch s) 7); lia|].
  rewrite occurs_unstarted by (done || apply no_end). rewrite SeriesShift.week_mask by done. rewrite negb_involutive.
  apply bool_decide_eq_true. rewrite Ew. assert (weekdayOfEpoch (s + (w - weekdayOfEpoch s) `mod` 7) = w) as ->; [|left].
  rewrite !weekdayOfEpoch_mod. zdiv.
Qed.

(** A rule of every n-th week has an instance in its first week or in its second one. *)
Lemma started_soon (p : Parts) : keyDate p -> startDay r = keyOf p ->
  exists e, daysOf p <= e < daysOf p + 7 * interval r + 7 /\ occursOnEpoch rule e = true.
Proof.
  intros Kp St. destruct (compile_started r p V Kp St) as (Hv & Hs & Hi & _ & _ & _ & _ & Hw).
  destruct (positions_spec r V Kw) as (Hne & Hpos & Hsorted).
  destruct (validateRepeat_spec r V) as (_ & _ & _ & _ & Hc).
  assert (Hskip : skippedInFirstWeek rule =
     Z.of_nat (length (filter (fun q => q < mondayBased (weekdayOfEpoch (daysOf p))) (positions rule)))).
  { unfold compileRepeat. cbn [skippedInFirstWeek positions]. rewrite St.
    destruct (isEmpty (keyOf p)) eqn:Em; [|by rewrite epochDays_keyOf by done].
    revert Em. rewrite keyOf_eq by done. done. }
  set (sk := skippedInFirstWeek rule) in *. assert (Hsk : 0 <= sk) by lia.
  pose proof (weekly_first rule p Hi Hne Hpos Hsorted Hw Hskip sk Hsk) as [_ F]. specialize (F ltac:(lia)).
  assert (Oc : overCount rule 1 = false).
  { unfold overCount, compileRepeat. cbn [cCount]. destruct (count r) as [c|]; [|done]. specialize (Hc c eq_refl).
    destruct (Z.eqb_spec c 0); [done|]. lia. }
  set (n := length (positions rule)) in *. assert (Hn : (0 < n)%nat) by (subst n; destruct (positions rule); [done|cbn; lia]).
  assert (Le : sk <= Z.of_nat n) by (rewrite Hskip; apply Nat2Z.inj_le, length_filter).
  assert (exists k t q, positions rule !! t = Some q /\ sk = k * Z.of_nat n + Z.of_nat t /\ 0 <= k <= 1) as (k & t & q & Ht & E & Hk).
  { destruct (decide (sk < Z.of_nat n)).
    - destruct (lookup_lt_is_Some_2 (positions rule) (Z.to_nat sk)) as [q Hq]; [lia|]. exists 0, (Z.to_nat sk), q. split_and!; [done|lia..].
    - destruct (lookup_lt_is_Some_2 (positions rule) 0 Hn) as [q Hq]. exists 1, 0%nat, q. split_and!; [done|lia..]. }
  pose proof (weeklyEpoch_at rule k t q Ht) as Ee. fold n in Ee. rewrite <- E in Ee.
  exists (weeklyEpoch rule sk). split.
  - split; [done|]. rewrite Ee, Hw. rewrite (week_split (daysOf p)) at 2. rewrite Forall_elem in Hpos.
    specialize (Hpos q ltac:(by eapply list_elem_of_lookup_2)). unfold mondayOfWeek.
    assert (0 <= mondayBased (weekdayOfEpoch (daysOf p))) by (rewrite mondayBased_epoch; zdiv).
    change (cInterval rule) with (interval r) in *. nia.
  - apply (occurs_weekly rule (daysOf p) Hv Hs Hi Hpos (eq_refl _) Hsorted); [done|done|apply no_end|].
    exists k, t, q. split_and!; [done|done|]. fold n sk. rewrite <- E. by replace (sk + (1 - sk)) with 1 by lia.
Qed.

(** Property (first_day_found): the search for the first day of a weekly rule
    without a last day always succeeds within its fixed number of days, whatever
    the interval and the count, and gives the first day on which the rule has an
    instance, counted from its start or, without one, from the day given. *)
Theorem first_day_found (fallbackDay : bytes) (p : Parts) :
  keyDate p -> (startDay r = keyOf p \/ startDay r = [] /\ fallbackDay = keyOf p) -> keyDay (daysOf p + kFirstDayHorizon) ->
  exists e, firstSeriesDay r fallbackDay = Some (keyOfEpoch e) /\ daysOf p <= e < daysOf p + kFirstDayHorizon /\
    occursOn r (keyOfEpoch e) = true /\ forall x, daysOf p <= x < e -> occursOn r (keyOfEpoch x) = false.
Proof.
  intros Kp St Ke. destruct (keyOf_epoch p Kp) as [_ Kd]. destruct (validateRepeat_spec r V) as (Iv & _).
  assert (exists e, daysOf p <= e < daysOf p + kFirstDayHorizon /\ occursOnEpoch rule e = true) as (e & He & Oe).
  { unfold kFirstDayHorizon, kMaxRepeatInterval. destruct St as [St|[St _]].
    - destruct (started_soon p Kp St) as (e & He & Oe). exists e. split; [lia|done].
    - destruct (unstarted_soon (daysOf p) St) as (e & He & Oe). exists e. split; [lia|done]. }
  destruct (head_filter_upTo (occursOnEpoch rule) (daysOf p) (Z.to_nat kFirstDayHorizon) e) as (d & Hd & B & Od & Fd);
    [rewrite Z2Nat.id by done; lia|done|].
  exists d. assert (Kx : forall x, daysOf p <= x <= d -> keyDay x) by (intros x Hx; unfold keyDay in *; lia).
  split_and!; [|lia|lia|by rewrite occursOn_key by (apply Kx; lia)|].
  - unfold firstSeriesDay. assert ((if isEmpty (startDay r) then fallbackDay else startDay r) = keyOf p) as ->.
    { destruct St as [St|[St ->]]; rewrite St; [|done]. by rewrite keyOf_eq by done. }
    assert (isEmpty (keyOf p) = false) as -> by (by rewrite keyOf_eq by done).
    rewrite (firstFrom_head r p) by (done || (rewrite Z2Nat.id by done; by rewrite Z.add_0_r) ||
      (intros s Es; left; revert En; rewrite Es; by destruct s)).
    rewrite Z.add_0_r, Hd. done.
  - intros x Hx. rewrite occursOn_key by (apply Kx; lia). by apply Fd.
Qed.
End Weekly.

Lemma first_day_found_witness :
  let r := {| kind := #"weekly"; interval := 99; weekdays := Some [1; 3]; monthDay := None; startDay := #"2026-01-08";
              endDay := None; count := Some 1 |} in
  let p := {| year := 2026; month := 1; date := 8 |} in
  (exists e, firstSeriesDay r [] = Some (keyOfEpoch e) /\ daysOf p <= e < daysOf p + kFirstDayHorizon /\
    occursOn r (keyOfEpoch e) = true /\ forall x, daysOf p <= x < e -> occursOn r (keyOfEpoch x) = false) /\
  firstSeriesDay r [] = Some #"2027-11-29".
Proof.
  cbv zeta. split; [|vm_compute; reflexivity].
  apply first_day_found; [vm_compute; reflexivity|reflexivity|reflexivity|by apply keyDate_check|by left|]. apply keyDay_iff, keyDate_check.
  vm_compute. reflexivity.
Defined.

(** A monthly rule of every 99th month whose day is before the day it begins on
    has its first instance after the days that are searched. *)
Lemma first_day_too_far :
  let r := {| kind := #"monthly"; interval := 99; weekdays := None; monthDay := Some 5; startDay := #"2026-01-10";
              endDay := None; count := None |} in
  validateRepeat r = None /\ firstSeriesDay r [] = None /\ occursOn r #"2034-04-05" = true.
Proof. vm_compute. done. Qed.

(** ** The nearest day *)

Lemma find_head {A} (P : A -> bool) (l : list A) : snd <$> list_find (fun x => P x) l = head (filter P l).
Proof.
  induction l as [|x l IH]; [done|]. cbn [list_find]. rewrite filter_cons. destruct (P x) eqn:E.
  - by rewrite !decide_True by done.
  - rewrite !decide_False by (cbn; congruence). rewrite <- IH. by destruct (list_find _ l) as [[i y]|].
Qed.

(** The searched period begins on the day, or on the first day of the series
    when that is later. *)
Definition searchFrom (r : Repeat) (a f : Parts) : Prop :=
  (startDay r = [] /\ f = a) \/
  exists p, keyDate p /\ startDay r = keyOf p /\ f = if daysOf a <? daysOf p then p else a.

Lemma before_search (r : Repeat) (a f : Parts) (e : Z) : searchFrom r a f -> keyDate a -> keyDay e ->
  daysOf a <= e < daysOf f -> occursOn r (keyOfEpoch e) = false.
Proof.
  intros [[_ ->]|(p & Kp & St & Ef)] Ka Ke He; [lia|]. destruct (Z.ltb_spec (daysOf a) (daysOf p)); subst f; [|lia].
  rewrite occursOn_key by done. apply (occurs_before_start _ (daysOf p)); [|lia].
  unfold compileRepeat. cbn [cStart]. rewrite St. destruct (isEmpty (keyOf p)) eqn:Em; [|by rewrite epochDays_keyOf by done].
  revert Em. by rewrite keyOf_eq by done.
Qed.

(** Property (nearest_series_day): the day on which a card is opened after a
    change of the rule is the first day with an instance, from the old day to
    the end of the period searched, if there is one. *)
Theorem nearest_series_day `{EntryLaws T, !ItemLaws T} (x : T) (r : Repeat) (a f t : Parts) :
  repeatOf x = Some r -> wellFormed r -> keyDate a -> keyDate f -> keyDate t -> searchFrom r a f ->
  daysOf t = daysOf f + kFirstDayHorizon ->
  nearestSeriesDay (inject x) (keyOf a) = head (filter (hasInstanceOn x) (keysBetween a t)).
Proof.
  intros R W Ka Kf Kt Sf Et. unfold nearestSeriesDay. rewrite repeatIn_inject, R.
  assert (Af : daysOf a <= daysOf f).
  { destruct Sf as [[_ ->]|(p & _ & _ & ->)]; [done|]. by destruct (Z.ltb_spec (daysOf a) (daysOf p)); [lia|]. }
  assert (Hz : 0 <= kFirstDayHorizon) by done.
  set (n := Z.to_nat (daysOf f - daysOf a)). set (m := Z.to_nat (daysOf t - daysOf f + 1)).
  assert (Split : keysBetween a t = (keyOfEpoch <$> upTo (daysOf a) n) ++ keysBetween f t).
  { unfold keysBetween, daysBetween. rewrite <- fmap_app. f_equal. replace (Z.to_nat (daysOf t - daysOf a + 1)) with (n + m)%nat
      by (subst n m; lia).
    rewrite upTo_app. do 2 f_equal. subst n; lia. }
  assert (None0 : filter (hasInstanceOn x) (keyOfEpoch <$> upTo (daysOf a) n) = []).
  { apply elem_of_nil_inv. intros d [Hd Hin]%list_elem_of_filter. apply list_elem_of_fmap in Hin as (e & -> & He%upTo_elem).
    destruct (keyOf_epoch a Ka) as [_ Kda]. destruct (keyOf_epoch f Kf) as [_ Kdf].
    revert Hd. unfold hasInstanceOn. rewrite R, (before_search r a f) by (done || lia || (unfold keyDay in *; lia)). done. }
  rewrite instanceIn_inject. destruct (hasInstanceOn x (keyOf a)) eqn:Ia.
  - unfold keysBetween, daysBetween. replace (Z.to_nat (daysOf t - daysOf a + 1)) with (S (n + Z.to_nat kFirstDayHorizon))
      by (subst n; lia).
    rewrite upTo_S, fmap_cons, filter_cons. destruct (keyOf_epoch a Ka) as [-> _]. by rewrite decide_True by (by rewrite Ia).
  - rewrite Split, list.filter_app, None0. cbn [app]. destruct (keyOf_epoch f Kf) as [Ef Kdf].
    assert ((if negb (isEmpty (startDay r)) && blt (keyOf a) (startDay r) then startDay r else keyOf a) = keyOf f) as ->.
    { destruct Sf as [[-> ->]|(p & Kp & -> & ->)]; [done|]. rewrite blt_keyOf by done.
      assert (isEmpty (keyOf p) = false) as -> by (by rewrite keyOf_eq by done). by destruct (daysOf a <? daysOf p). }
    assert (addDays (keyOf f) kFirstDayHorizon = keyOf t) as ->.
    { rewrite <- Ef, addDays_keyOfEpoch, <- Et by done. by apply keyOf_epoch. }
    rewrite expandRepeat_days by done. rewrite find_head, filter_filter_bool. f_equal. apply list_filter_iff. intros d.
    rewrite instanceIn_inject. unfold hasInstanceOn. rewrite R. by destruct (occursOn r d).
Qed.

End SeriesDays.
