(* ===== verification/Schedule.v ===== *)
(** * Schedule: a week written as text

    Module [Schedule] models [src/sections/planner_schedule.cpp]: the reading of
    lines with a day of the week, a period and a name, the last day anywhere in
    the text, and the weekly events made from them. The helpers of the code take
    a string and a position; here they take the rest of the string. *)

From S2P Require Import Prelude Utf8 PlannerUtil Calendar Repeat.
Import Decimal Util.

Module Schedule.

(** ** Data *)

Record ScheduleItem := { weekday : Z; start : bytes; end_ : bytes; name : bytes; description : option bytes }.
Record ParsedSchedule := { items : list ScheduleItem; endDay : option bytes; skipped : list bytes }.

Record Event := {
  ev_id : bytes;
  ev_name : bytes;
  ev_description : option bytes;
  ev_start : bytes;
  ev_end : bytes;
  ev_day : option bytes;
  ev_repeat : option Repeats.Repeat;
  ev_occurrences : option (list Repeats.Occurrence);
  ev_origin : option Repeats.Origin;
  ev_instanceDay : option bytes;
  ev_isAllDay : option bool;
  ev_isHoliday : option bool;
  ev_color : option Z;
  ev_remind : option Z;
  ev_project : option bytes
}.

Definition kScheduleMaxNameLength : nat := 200.

Definition kWeekdayWords : list (list bytes * Z) := [
  ([ #"понедельник"; #"пн"; #"monday"; #"mon"], 1%Z);
  ([ #"вторник"; #"вт"; #"tuesday"; #"tues"; #"tue"], 2%Z);
  ([ #"среда"; #"ср"; #"wednesday"; #"wed"], 3%Z);
  ([ #"четверг"; #"чт"; #"thursday"; #"thurs"; #"thu"], 4%Z);
  ([ #"пятница"; #"пт"; #"friday"; #"fri"], 5%Z);
  ([ #"суббота"; #"сб"; #"saturday"; #"sat"], 6%Z);
  ([ #"воскресенье"; #"вс"; #"sunday"; #"sun"], 0%Z)
].

Definition kEndWords : list bytes := [ #"до"; #"until"; #"till"].

(** ** Characters *)

Definition isWeekdaySeparator (c : Z) : bool :=
  isSpace c || (c =? 0x3A)%Z || (c =? 0x2C)%Z || (c =? 0x2E)%Z || (c =? 0x3B)%Z || (c =? 0x2014)%Z || (c =? 0x2013)%Z
  || (c =? 0x2D)%Z.

Definition isDash (c : Z) : bool := (c =? 0x2D)%Z || (c =? 0x2013)%Z || (c =? 0x2014)%Z.

Definition isLineTerminator (c : Z) : bool := (c =? 0x0A)%Z || (c =? 0x0D)%Z || (c =? 0x2028)%Z || (c =? 0x2029)%Z.

(** The code point at the front and its length; 0 and 0 at the end. *)
Definition at_ (s : bytes) : Z * nat := match s with [] => (0%Z, 0) | b :: rest => decodeAt b rest end.

(** [skipSpaces] with the number of characters as fuel. *)
Definition skipSpaces (s : bytes) : bytes := skipSpace (length s) s.

Fixpoint countDigits (max : nat) (s : bytes) : nat :=
  match max, s with
  | S n, b :: rest => if isDigit b then S (countDigits n rest) else 0
  | _, _ => 0
  end.

(** The digits and the rest of the text. *)
Definition digits (s : bytes) (min max : nat) : option (bytes * bytes) :=
  let n := countDigits max s in if n <? min then None else Some (take n s, drop n s).

(** The next byte is [c]: the rest after it. *)
Definition expect (cs : list byte) (s : bytes) : option bytes :=
  match s with b :: rest => if bool_decide (b ∈ cs) then Some rest else None | [] => None end.

(** ** A line *)

Fixpoint skipSeparators (fuel : nat) (s : bytes) : bytes :=
  match fuel, s with
  | S f, _ :: _ => let '(cp, len) := at_ s in if negb (isWeekdaySeparator cp) then s else skipSeparators f (drop len s)
  | _, _ => s
  end.

(** The rest of the line when [word] begins it. *)
Definition tryWord (line lowered word : bytes) : option bytes :=
  if negb (bool_decide (take (length word) lowered = word)) then None
  else
    let rest := drop (length word) line in
    if negb (length rest =? 0) && negb (isWeekdaySeparator (at_ rest).1) then None
    else Some (skipSeparators (length rest) rest).

Fixpoint firstSome {A B} (f : A -> option B) (l : list A) : option B :=
  match l with
  | [] => None
  | a :: l' => match f a with Some b => Some b | None => firstSome f l' end
  end.

Definition matchWeekday (line : bytes) : option (Z * bytes) :=
  let lowered := lower line in
  firstSome (fun e : list bytes * Z => (fun rest => (e.2, rest)) <$> firstSome (tryWord line lowered) e.1) kWeekdayWords.

Record TimeRange := { h1 : bytes; m1 : bytes; h2 : bytes; m2 : bytes; title : bytes }.

Fixpoint hasTerminator (fuel : nat) (s : bytes) : bool :=
  match fuel, s with
  | S f, _ :: _ => let '(cp, len) := at_ s in isLineTerminator cp || hasTerminator f (drop len s)
  | _, _ => false
  end.

Definition matchTimeRange (s : bytes) : option TimeRange :=
  '(hours1, s) ← digits s 1 2;
  s ← expect [":"; "."]%byte s;
  '(minutes1, s) ← digits s 2 2;
  let s := skipSpaces s in
  let '(cp, len) := at_ s in
  if negb (isDash cp) then None
  else
    let s := skipSpaces (drop len s) in
    '(hours2, s) ← digits s 1 2;
    s ← expect [":"; "."]%byte s;
    '(minutes2, s) ← digits s 2 2;
    let s := skipSpaces s in
    if hasTerminator (length s) s then None
    else Some {| h1 := hours1; m1 := minutes1; h2 := hours2; m2 := minutes2; title := s |}.

(** [std::stoi] of at most two digits is their value. *)
Definition toTimeString (hours minutes : bytes) : option bytes :=
  let h := value hours in
  let m := value minutes in
  if (23 <? h)%Z || (59 <? m)%Z then None else Some (pad2 h ++ #":" ++ minutes).

(** ** The last day *)

Notation groups := (bytes * bytes * bytes)%type (only parsing).

(** [lower.compare(q, …)] throws beyond the end of [lower]; [s] is [text] from
    [q]. *)
Definition tryAt (tail : bytes -> option groups) (lowered s : bytes) (q : nat) : result exn (option groups) :=
  if length lowered <? q then Err OutOfRange
  else Ok (firstSome (fun word =>
    if negb (bool_decide (take (length word) (drop q lowered) = word)) then None
    else
      let p := drop (length word) s in
      let afterSpaces := skipSpaces p in
      if length afterSpaces =? length p then None else tail afterSpaces) kEndWords).

Fixpoint findEndFrom (fuel : nat) (tail : bytes -> option groups) (lowered s : bytes) (p : nat) : result exn (option groups) :=
  match fuel, s with
  | S f, _ :: _ =>
      let '(cp, len) := at_ s in
      let rest := drop len s in
      if isSpace cp then
        let! found := tryAt tail lowered rest (p + len) in
        match found with Some g => Ok (Some g) | None => findEndFrom f tail lowered rest (p + len) end
      else findEndFrom f tail lowered rest (p + len)
  | _, _ => Ok None
  end.

Definition findEnd (tail : bytes -> option groups) (text : bytes) : result exn (option groups) :=
  let lowered := lower text in
  let! found := tryAt tail lowered text 0 in
  match found with Some g => Ok (Some g) | None => findEndFrom (length text) tail lowered text 0 end.

Definition daysInMonth (year month : Z) : Z :=
  if (month =? 2)%Z then
    (if ((Z.rem year 4 =? 0) && negb (Z.rem year 100 =? 0)) || (Z.rem year 400 =? 0) then 29 else 28)%Z
  else nth (Z.to_nat (month - 1)) [31; 28; 31; 30; 31; 30; 31; 31; 30; 31; 30; 31]%Z 0%Z.

(** Year, month and day. *)
Definition dotted (s : bytes) : option groups :=
  '(day, s) ← digits s 1 2;
  s ← expect ["."%byte] s;
  '(month, s) ← digits s 1 2;
  s ← expect ["."%byte] s;
  '(year, s) ← digits s 4 4;
  Some (year, month, day).

Definition iso (s : bytes) : option groups :=
  '(year, s) ← digits s 4 4;
  s ← expect ["-"%byte] s;
  '(month, s) ← digits s 2 2;
  s ← expect ["-"%byte] s;
  '(day, s) ← digits s 2 2;
  Some (year, month, day).

Definition padded (s : bytes) : bytes := if length s <? 2 then #"0" ++ s else s.

Definition dayOfGroups (g : groups) : option bytes :=
  let '(year, month, day) := g in
  let month := padded month in
  let day := padded day in
  let m := value month in
  let d := value day in
  if (m <? 1)%Z || (12 <? m)%Z || (d <? 1)%Z || (daysInMonth (value year) m <? d)%Z then None
  else Some (year ++ #"-" ++ month ++ #"-" ++ day).

Definition findEndDay (text : bytes) : result exn (option bytes) :=
  let! d := findEnd dotted text in
  let! i := findEnd iso text in
  Ok (match d with
      | Some g => dayOfGroups g
      | None => match i with Some g => dayOfGroups g | None => None end
      end).

(** ** The whole text *)

(** The place of a byte, as [find]. *)
Definition findByte (c : byte) (s : bytes) : option nat := fst <$> list_find (fun b => b = c) s.

(** The items and the lines that were skipped. *)
Definition itemOf (weekday : option Z) (range : TimeRange) : option ScheduleItem :=
  let title := trim (title range) in
  match weekday, toTimeString (h1 range) (m1 range), toTimeString (h2 range) (m2 range) with
  | Some w, Some start, Some end_ =>
      if (Calendar.toMinutes end_ <=? Calendar.toMinutes start)%Z || (length title =? 0) then None
      else
        let comma := match findByte "," title with Some (S k) => Some (S k) | _ => None end in
        let name := takeCodepoints (trim (match comma with Some k => take k title | None => title end)) kScheduleMaxNameLength in
        let description := match comma with
                           | Some k => let rest := trim (drop (S k) title) in if length rest =? 0 then None else Some rest
                           | None => None
                           end in
        Some {| weekday := w; start := start; end_ := end_; name := name; description := description |}
  | _, _, _ => None
  end.

Record Lines := { found : list ScheduleItem; passed : list bytes; today : option Z }.

Definition readLine (st : Lines) (raw : bytes) : Lines :=
  let line := trim raw in
  if length line =? 0 then st
  else
    let day := matchWeekday line in
    let today := match day with Some d => Some d.1 | None => today st end in
    match matchTimeRange (match day with Some d => d.2 | None => line end) with
    | None => {| found := found st; passed := passed st; today := today |}
    | Some range =>
        match itemOf today range with
        | Some item => {| found := found st ++ [item]; passed := passed st; today := today |}
        | None => {| found := found st; passed := passed st ++ [line]; today := today |}
        end
    end.

Definition noLines : Lines := {| found := []; passed := []; today := None |}.

Definition parseSchedule (text : bytes) : result exn ParsedSchedule :=
  let lines := foldl readLine noLines (split text "010") in
  let! endDay := findEndDay text in
  Ok {| items := found lines; endDay := endDay; skipped := passed lines |}.

(** [newId] gives the identifier of the n-th call. *)
Definition eventOf (startDay endDay : bytes) (project : option bytes) (id : bytes) (item : ScheduleItem) : Event :=
  {| ev_id := id; ev_name := name item; ev_description := description item; ev_start := start item; ev_end := end_ item;
     ev_day := None;
     ev_repeat := Some {| Repeats.kind := #"weekly"; Repeats.interval := 1; Repeats.weekdays := Some [weekday item];
       Repeats.monthDay := None; Repeats.startDay := startDay; Repeats.endDay := Some endDay; Repeats.count := None |};
     ev_occurrences := Some []; ev_origin := None; ev_instanceDay := None; ev_isAllDay := None; ev_isHoliday := None;
     ev_color := None; ev_remind := None;
     ev_project := match project with Some (c :: s) => Some (c :: s) | _ => None end |}.

Definition buildScheduleEvents (items : list ScheduleItem) (startDay endDay : bytes) (project : option bytes)
  (newId : nat -> bytes) : list Event :=
  List.filter (fun e => match ev_repeat e with Some r => if Repeats.validateRepeat r then false else true | None => true end)
    (imap (fun i item => eventOf startDay endDay project (newId i) item) items).


(** ** What the helpers read *)

Lemma digits_spec (s : bytes) (min max : nat) (d r : bytes) : digits s min max = Some (d, r) ->
  s = d ++ r /\ min <= length d <= max /\ forallb isDigit d = true.
Proof.
  unfold digits. destruct (Nat.ltb_spec (countDigits max s) min) as [|L]; [discriminate|]. intros [= <- <-].
  assert (G : forall max s, countDigits max s <= max /\ countDigits max s <= length s /\ forallb isDigit (take (countDigits max s) s) = true).
  { clear. induction max as [|n IH]; intros [|b s]; cbn [countDigits length take forallb]; try (split; [lia|split; [lia|reflexivity]]).
    destruct (isDigit b) eqn:E; [|split; [lia|split; [lia|reflexivity]]]. destruct (IH s) as (H1 & H2 & H3).
    cbn [take forallb]. rewrite E. split; [lia|split; [lia|exact H3]]. }
  destruct (G max s) as (H1 & H2 & H3). rewrite take_drop, length_take. split; [reflexivity|]. split; [lia|exact H3].
Qed.

Lemma firstSome_inv {A B} (f : A -> option B) (l : list A) (b : B) : firstSome f l = Some b -> exists a, a ∈ l /\ f a = Some b.
Proof.
  induction l as [|a l IH]; cbn [firstSome]; [discriminate|]. destruct (f a) as [b'|] eqn:E.
  - intros [= <-]. exists a. split; [left|exact E].
  - intros H. destruct (IH H) as (x & Hx & Ex). exists x. split; [right; exact Hx|exact Ex].
Qed.

Lemma firstSome_None {A B} (f : A -> option B) (l : list A) : (forall a, a ∈ l -> f a = None) -> firstSome f l = None.
Proof.
  induction l as [|a l IH]; intros H; [reflexivity|]. cbn [firstSome]. rewrite (H a) by left. apply IH. intros x Hx. apply H. right. exact Hx.
Qed.

Lemma matchWeekday_range (line rest : bytes) (w : Z) : matchWeekday line = Some (w, rest) -> (0 <= w <= 6)%Z.
Proof.
  unfold matchWeekday. intros H. apply firstSome_inv in H as ([ws v] & He & Hf). cbn [fst snd] in Hf.
  destruct (firstSome _ ws); [|discriminate]. injection Hf as <- _.
  assert (G : forallb (fun e : list bytes * Z => (0 <=? e.2) && (e.2 <=? 6))%Z kWeekdayWords = true) by (vm_compute; reflexivity).
  rewrite forallb_forall in G. apply list_elem_of_In in He. specialize (G _ He). cbn in G. lia.
Qed.

Lemma value_range (s : bytes) : forallb isDigit s = true -> (0 <= value s < 10 ^ Z.of_nat (length s))%Z.
Proof.
  induction s as [|b s IH] using rev_ind; [cbn; lia|]. rewrite forallb_app, andb_true_iff. cbn [forallb]. rewrite andb_true_r.
  intros [H1 H2]. specialize (IH H1). rewrite value_snoc, length_app, Nat2Z.inj_add. cbn [length]. rewrite Z.pow_add_r by lia.
  unfold isDigit in H2. change (10 ^ Z.of_nat 1)%Z with 10%Z. lia.
Qed.

Lemma two_value (s : bytes) : forallb isDigit s = true -> length s = 2 -> s = pad2 (value s).
Proof.
  intros D L. destruct s as [|a [|b [|]]]; try discriminate L. cbn [forallb] in D. rewrite andb_true_r, andb_true_iff in D.
  destruct D as [Da Db]. unfold isDigit in Da, Db.
  assert (E : forall c, isDigit c = true -> c = digit (b2z c - 48)) by (intros c Hc; unfold digit; rewrite <- (z2b_b2z c) at 1; f_equal; lia).
  replace (value [a; b]) with ((b2z a - 48) * 10 + (b2z b - 48))%Z by (unfold value; cbn; lia).
  rewrite <- two_digits by lia. f_equal; [apply E|f_equal; apply E]; unfold isDigit; lia.
Qed.

Lemma toTimeString_key (h m t : bytes) : forallb isDigit h = true -> forallb isDigit m = true -> length m = 2 ->
  toTimeString h m = Some t -> isTimeKey t = true.
Proof.
  intros Dh Dm Lm. unfold toTimeString. destruct (Z.ltb_spec 23 (value h)); [discriminate|].
  destruct (Z.ltb_spec 59 (value m)); [discriminate|]. cbn [orb]. intros [= <-]. apply isTimeKey_iff.
  pose proof (value_range h Dh). pose proof (value_range m Dm). exists (value h), (value m).
  split; [lia|]. split; [lia|]. f_equal. f_equal. apply two_value; assumption.
Qed.

Lemma matchTimeRange_digits (s : bytes) (r : TimeRange) : matchTimeRange s = Some r ->
  forallb isDigit (h1 r) = true /\ forallb isDigit (m1 r) = true /\ forallb isDigit (h2 r) = true /\ forallb isDigit (m2 r) = true /\
  length (m1 r) = 2 /\ length (m2 r) = 2.
Proof.
  unfold matchTimeRange. cbn [mbind option_bind].
  repeat match goal with
    | |- context [digits ?s ?a ?b] => destruct (digits s a b) as [[? ?]|] eqn:?; cbn [mbind option_bind]; [|discriminate]
    | |- context [expect ?c ?s] => destruct (expect c s) as [?|]; cbn [mbind option_bind]; [|discriminate]
    | |- context [at_ ?s] => destruct (at_ s) as [? ?]
    | |- (if ?b then _ else _) = _ -> _ => destruct b; [discriminate|]
    end.
  intros [= <-]. cbn [h1 m1 h2 m2].
  repeat match goal with H : digits _ _ _ = Some _ |- _ => apply digits_spec in H as (_ & ? & ?) end.
  repeat split; assumption || lia.
Qed.

(** ** Items and the last day are well formed *)

Definition itemOk (i : ScheduleItem) : Prop :=
  (0 <= weekday i <= 6)%Z /\ isTimeKey (start i) = true /\ isTimeKey (end_ i) = true /\
  (Calendar.toMinutes (start i) < Calendar.toMinutes (end_ i))%Z.

Definition linesOk (st : Lines) : Prop :=
  Forall itemOk (found st) /\ match today st with Some w => (0 <= w <= 6)%Z | None => True end.

Lemma readLine_ok (st : Lines) (raw : bytes) : linesOk st -> linesOk (readLine st raw).
Proof.
  intros [F T]. unfold readLine. destruct (length (trim raw) =? 0); [split; assumption|].
  set (day := matchWeekday (trim raw)).
  assert (T' : match (match day with Some d => Some d.1 | None => today st end) with Some w => (0 <= w <= 6)%Z | None => True end).
  { destruct day as [[w rest]|] eqn:E; [|exact T]. apply (matchWeekday_range _ _ _ E). }
  destruct (matchTimeRange _) as [r|] eqn:R; [|split; assumption]. apply matchTimeRange_digits in R as (D1 & D2 & D3 & D4 & L1 & L2).
  destruct (itemOf _ r) as [i|] eqn:I; [|split; assumption]. split; [|exact T']. apply Forall_app. split; [exact F|]. constructor; [|constructor].
  unfold itemOf in I. destruct (match day with Some d => Some d.1 | None => today st end) as [w|]; [|discriminate].
  destruct (toTimeString (h1 r) (m1 r)) as [t1|] eqn:E1; [|discriminate]. destruct (toTimeString (h2 r) (m2 r)) as [t2|] eqn:E2; [|discriminate].
  destruct (Z.leb_spec (Calendar.toMinutes t2) (Calendar.toMinutes t1)); [discriminate|]. destruct (length (trim (title r)) =? 0); [discriminate|].
  injection I as <-. split; [exact T'|]. split; [exact (toTimeString_key _ _ _ D1 D2 L1 E1)|].
  split; [exact (toTimeString_key _ _ _ D3 D4 L2 E2)|assumption].
Qed.

Lemma tryAt_inv (tail : bytes -> option groups) (lowered s : bytes) (q : nat) (g : groups) :
  tryAt tail lowered s q = Ok (Some g) -> exists t, tail t = Some g.
Proof.
  unfold tryAt. destruct (length lowered <? q); [discriminate|]. intros H.
  apply (f_equal (fun r => match r with Ok o => o | Err _ => None end)) in H. cbv beta iota in H. apply firstSome_inv in H as (w & _ & H).
  destruct (negb _); [discriminate|]. destruct (_ =? _); [discriminate|]. eexists. exact H.
Qed.

Lemma findEnd_inv (tail : bytes -> option groups) (text : bytes) (g : groups) :
  findEnd tail text = Ok (Some g) -> exists t, tail t = Some g.
Proof.
  assert (G : forall fuel s p lowered, findEndFrom fuel tail lowered s p = Ok (Some g) -> exists t, tail t = Some g).
  { induction fuel as [|f IH]; intros s p lowered; cbn [findEndFrom]; [discriminate|]. destruct s as [|b s]; [discriminate|].
    destruct (at_ (b :: s)) as [cp len]. destruct (isSpace cp); [|apply IH].
    destruct (tryAt tail lowered (drop len (b :: s)) (p + len)) as [[g'|]|e] eqn:E; cbn [rbind]; [|apply IH|discriminate].
    intros [= ->]. exact (tryAt_inv _ _ _ _ _ E). }
  unfold findEnd. destruct (tryAt tail (lower text) text 0) as [[g'|]|e] eqn:E; cbn [rbind]; [|apply G|discriminate].
  intros [= ->]. exact (tryAt_inv _ _ _ _ _ E).
Qed.

Definition groupsOk (g : groups) : Prop :=
  let '(year, month, day) := g in
  (forallb isDigit year = true /\ length year = 4) /\ (forallb isDigit month = true /\ 1 <= length month <= 2) /\
  (forallb isDigit day = true /\ 1 <= length day <= 2).

Lemma tails_ok (s : bytes) (g : groups) : dotted s = Some g \/ iso s = Some g -> groupsOk g.
Proof.
  unfold dotted, iso. cbn [mbind option_bind].
  intros [H|H]; revert H; repeat match goal with
    | |- context [digits ?s ?a ?b] => destruct (digits s a b) as [[? ?]|] eqn:?; cbn [mbind option_bind]; [|discriminate]
    | |- context [expect ?c ?s] => destruct (expect c s) as [?|]; cbn [mbind option_bind]; [|discriminate]
    end; intros [= <-];
    repeat match goal with H : digits _ _ _ = Some _ |- _ => apply digits_spec in H as (_ & ? & ?) end;
    repeat split; assumption || lia.
Qed.

Lemma padded_ok (s : bytes) : forallb isDigit s = true -> 1 <= length s <= 2 ->
  forallb isDigit (padded s) = true /\ length (padded s) = 2.
Proof.
  intros D L. unfold padded. destruct (Nat.ltb_spec (length s) 2); [|split; [exact D|lia]].
  change (#"0") with ["0"%byte]. cbn [app forallb length]. rewrite D. split; [reflexivity|]. lia.
Qed.

Lemma daysInMonth_length (y m : Z) : (0 <= y)%Z -> (1 <= m <= 12)%Z -> daysInMonth y m = Calendar.monthLength y m.
Proof.
  intros Hy Hm. unfold daysInMonth, Calendar.monthLength, Calendar.leap. rewrite !Z.rem_mod_nonneg by lia.
  assert (C : (m = 1 \/ m = 2 \/ m = 3 \/ m = 4 \/ m = 5 \/ m = 6 \/ m = 7 \/ m = 8 \/ m = 9 \/ m = 10 \/ m = 11 \/ m = 12)%Z) by lia.
  repeat destruct C as [->|C]; try subst m; cbn; reflexivity.
Qed.

Lemma no_dash (s : bytes) : forallb isDigit s = true -> Forall (fun b => b <> "-"%byte) s.
Proof. rewrite forallb_forall. intros H. apply List.Forall_forall. intros b Hb ->. discriminate (H _ Hb). Qed.

Lemma num_value (l : list bytes) (i : nat) (s : bytes) : l !! i = Some s -> forallb isDigit s = true -> 1 <= length s <= 4 ->
  Calendar.num l i = value s.
Proof.
  intros E D L. unfold Calendar.num. rewrite E, numberOf_digits by (exact D || lia). pose proof (value_range s D) as R.
  assert (10 ^ Z.of_nat (length s) <= 10 ^ 4)%Z by (apply Z.pow_le_mono_r; lia).
  destruct (Z.ltb_spec (Z.abs (value s)) (10 ^ 15)) as [|Ge]; [reflexivity|]. exfalso.
  change (10 ^ 4)%Z with 10000%Z in *. change (10 ^ 15)%Z with 1000000000000000%Z in Ge. lia.
Qed.

Lemma dayOfGroups_ok (g : groups) (d : bytes) : groupsOk g -> dayOfGroups g = Some d ->
  isDayKey d = true /\ Calendar.validDate (Calendar.parts d).
Proof.
  destruct g as [[year month] day]. intros ([Dy Ly] & [Dm Lm] & [Dd Ld]). unfold dayOfGroups.
  destruct (padded_ok month Dm Lm) as [Dm' Lm']. destruct (padded_ok day Dd Ld) as [Dd' Ld'].
  set (m := padded month) in *. set (e := padded day) in *. clearbody m e.
  destruct (_ || _) eqn:B; [discriminate|]. intros [= <-]. rewrite !orb_false_iff, !Z.ltb_ge in B. destruct B as [[[B1 B2] B3] B4].
  assert (Sp : split (year ++ "-"%byte :: m ++ "-"%byte :: e) "-" = [year; m; e]).
  { rewrite !split_app, split_none by (apply no_dash; assumption). reflexivity. }
  pose proof (value_range _ Dy) as Ry. pose proof (value_range _ Dm') as Rm. pose proof (value_range _ Dd') as Rd.
  rewrite Ly in Ry. rewrite Lm' in Rm. rewrite Ld' in Rd. change (10 ^ Z.of_nat 4)%Z with 10000%Z in Ry.
  change (10 ^ Z.of_nat 2)%Z with 100%Z in Rm, Rd.
  split.
  - destruct year as [|y1 [|y2 [|y3 [|y4 [|]]]]]; try discriminate Ly. destruct m as [|m1 [|m2 [|]]]; try discriminate Lm'.
    destruct e as [|e1 [|e2 [|]]]; try discriminate Ld'. cbn [forallb] in Dy, Dm', Dd'.
    repeat rewrite andb_true_iff in Dy. repeat rewrite andb_true_iff in Dm'. repeat rewrite andb_true_iff in Dd'.
    destruct Dy as (Y1 & Y2 & Y3 & Y4 & _), Dm' as (M1 & M2 & _), Dd' as (E1 & E2 & _).
    unfold isDayKey. cbn. rewrite Y1, Y2, Y3, Y4, M1, M2, E1, E2.
    reflexivity.
  - unfold Calendar.parts. rewrite Sp. rewrite (num_value _ 0 year), (num_value _ 1 m), (num_value _ 2 e) by (reflexivity || assumption || lia).
    assert (S32 : forall z, (0 <= z < 100)%Z -> signed 32 z = z) by (intros z Hz; unfold signed; rewrite Z.mod_small; zpow; lia).
    rewrite !S32 by lia. unfold Calendar.validDate. cbn. rewrite <- daysInMonth_length by lia. lia.
Qed.

(** Claim C35 (type): whatever the text, each event read has a day of the week,
    two times of day and a start before its end; the last day is a date of the
    calendar; and for any period of day keys each event read makes one weekly
    series, with a rule that passes the validation. *)
Theorem schedule_well_formed (text : bytes) (p : ParsedSchedule) (P : parseSchedule text = Ok p) :
  Forall itemOk (items p) /\
  (forall d, endDay p = Some d -> isDayKey d = true /\ Calendar.validDate (Calendar.parts d)) /\
  (forall startDay endDay project newId, isDayKey startDay = true -> isDayKey endDay = true -> blt endDay startDay = false ->
     buildScheduleEvents (items p) startDay endDay project newId =
     imap (fun i item => eventOf startDay endDay project (newId i) item) (items p)).
Proof.
  unfold parseSchedule in P. destruct (findEndDay text) as [d|] eqn:E; [|discriminate]. cbn [rbind] in P. injection P as <-. cbn [items endDay].
  assert (Ok' : linesOk (foldl readLine noLines (split text "010"))).
  { assert (G : forall l st, linesOk st -> linesOk (foldl readLine st l)); [|apply G; split; [constructor|exact I]].
    induction l as [|raw l IH]; intros st H; [exact H|]. apply IH, readLine_ok, H. }
  destruct Ok' as [F _]. split; [exact F|]. split.
  - intros d' ->. unfold findEndDay in E. destruct (findEnd dotted text) as [gd|] eqn:E1; [|discriminate]. cbn [rbind] in E.
    destruct (findEnd iso text) as [gi|] eqn:E2; [|discriminate]. cbn [rbind] in E. injection E as E.
    destruct gd as [g|].
    + apply findEnd_inv in E1 as [s Es]. exact (dayOfGroups_ok g d' (tails_ok s g (or_introl Es)) E).
    + destruct gi as [g|]; [|discriminate]. apply findEnd_inv in E2 as [s Es]. exact (dayOfGroups_ok g d' (tails_ok s g (or_intror Es)) E).
  - intros startDay endDay project newId Ks Ke B. unfold buildScheduleEvents. revert newId.
    induction F as [|i l (R & _) _ IH]; intros newId; [reflexivity|]. cbn [imap]. cbn [List.filter].
    assert (V : match ev_repeat (eventOf startDay endDay project (newId 0) i) with
        | Some r => if Repeats.validateRepeat r then false else true | None => true end = true).
    { cbn [eventOf ev_repeat]. unfold Repeats.validateRepeat.
      cbn [Repeats.kind Repeats.interval Repeats.weekdays Repeats.monthDay Repeats.startDay Repeats.endDay Repeats.count default].
      rewrite Ks. cbn [id forallb length]. replace ((0 <=? weekday i) && (weekday i <=? 6))%Z with true by lia.
      assert (Ne : Repeats.isEmpty startDay = false) by (destruct startDay; [discriminate Ks|reflexivity]).
      assert (Te : Repeats.truthy (Some endDay) = true) by (destruct endDay; [discriminate Ke|reflexivity]).
      rewrite Ne, Te, Ke, B. reflexivity. }
    rewrite V. f_equal. apply (IH (fun k => newId (S k))).
Qed.


Lemma schedule_well_formed_witness :
  let text := #"Пн
10:00–11:30 Алгебра, каб. 5
до 31.12.2026" in
  exists p, parseSchedule text = Ok p /\ length (items p) = 1 /\ isDayKey (default [] (endDay p)) = true /\ Forall itemOk (items p).
Proof.
  cbv zeta. eexists. split; [vm_compute; reflexivity|]. split; [reflexivity|]. split; [vm_compute; reflexivity|].
  refine (proj1 (schedule_well_formed (#"Пн
10:00–11:30 Алгебра, каб. 5
до 31.12.2026") _ _)). vm_compute. reflexivity.
Defined.

(** ** Well-formed text is always read *)

Lemma conts_length (k : nat) : forall s cp r, Unicode.conts k s cp = Some r -> k <= length s.
Proof.
  induction k as [|k IH]; intros s cp r H; [lia|]. destruct s as [|b s]; [discriminate|]. cbn [Unicode.conts] in H.
  destruct (Z.land (b2z b) 0xC0 =? 0x80)%Z; [|discriminate]. apply IH in H. cbn. lia.
Qed.

Lemma decodeAt_length (b : byte) (rest : bytes) : 1 <= (decodeAt b rest).2 <= S (length rest).
Proof.
  unfold decodeAt. destruct (b2z b <? 0x80)%Z; [cbn; lia|]. destruct (lead_at (b2z b)) as [[extra cp0]|]; [|cbn; lia].
  destruct (Unicode.conts extra rest cp0) eqn:E; [|cbn; lia]. apply conts_length in E. cbn. lia.
Qed.

Lemma tryAt_total (tail : bytes -> option groups) (lowered s : bytes) (q : nat) : q <= length lowered ->
  exists g, tryAt tail lowered s q = Ok g.
Proof. intros H. unfold tryAt. destruct (Nat.ltb_spec (length lowered) q); [lia|eauto]. Qed.

Lemma findEnd_total (tail : bytes -> option groups) (text : bytes) : length (lower text) = length text ->
  exists g, findEnd tail text = Ok g.
Proof.
  intros L. unfold findEnd. destruct (tryAt_total tail (lower text) text 0) as [[g|] ->]; cbn [rbind]; [lia|eauto|].
  assert (G : forall fuel s p, p + length s = length (lower text) -> exists g, findEndFrom fuel tail (lower text) s p = Ok g);
    [|apply G; rewrite L; reflexivity].
  induction fuel as [|f IH]; intros s p E; cbn [findEndFrom]; [eauto|]. destruct s as [|b s]; [eauto|]. cbn [at_].
  pose proof (decodeAt_length b s) as D. destruct (decodeAt b s) as [cp len]. cbn [snd length] in D, E.
  assert (E' : p + len + length (drop len (b :: s)) = length (lower text)) by (rewrite length_drop; cbn [length]; lia).
  destruct (isSpace cp); [|apply IH, E'].
  destruct (tryAt_total tail (lower text) (drop len (b :: s)) (p + len)) as [[g|] ->]; cbn [rbind]; [lia|eauto|apply IH, E'].
Qed.

Definition utf8 (s : bytes) : Prop := exists cps, Forall (fun c => Unicode.scalar c = true) cps /\ s = Unicode.encode cps.

Lemma lower_length (s : bytes) : utf8 s -> length (lower s) = length s.
Proof.
  intros (cps & F & ->). unfold lower. rewrite lower_loop_encode by (exact F || lia). cbn [app].
  induction F as [|c cps Hc F IH]; [reflexivity|]. cbn [fmap list_fmap]. rewrite !Unicode.encode_cons, !length_app.
  change (list_fmap Z Z lowerCp cps) with (lowerCp <$> cps). rewrite IH, lowerCp_enc1 by exact Hc. reflexivity.
Qed.

Lemma parse_total (text : bytes) : utf8 text ->
  exists p, parseSchedule text = Ok p /\ let lines := foldl readLine noLines (split text "010") in items p = found lines /\ skipped p = passed lines.
Proof.
  intros U. apply lower_length in U. unfold parseSchedule, findEndDay.
  destruct (findEnd_total dotted text U) as [d ->]. destruct (findEnd_total iso text U) as [i ->]. cbn [rbind].
  eexists. split; [reflexivity|]. split; reflexivity.
Qed.

(** Property (error): reading a text throws only where lower case changes its
    length, which it does not for valid UTF-8: there each text is read. *)
Theorem schedule_reads_utf8 (text : bytes) (cps : u32string) (U : Unicode.strictUtf8 text = Some cps) :
  (exists p, parseSchedule text = Ok p) /\
  forall text', length (lower text') = length text' -> exists p, parseSchedule text' = Ok p.
Proof.
  assert (G : forall text', length (lower text') = length text' -> exists p, parseSchedule text' = Ok p).
  { intros text' L. unfold parseSchedule, findEndDay.
    destruct (findEnd_total dotted text' L) as [d ->]. destruct (findEnd_total iso text' L) as [i ->]. cbn [rbind]. eauto. }
  split; [|exact G]. apply G, lower_length. apply Unicode.strict_loop_sound in U as [<- F]; [|lia]. exists cps. auto.
Qed.

Lemma schedule_reads_utf8_witness : (exists p, parseSchedule (#"вт 9:00-10:00 Физика till 2026-02-30") = Ok p).
Proof.
  refine (proj1 (schedule_reads_utf8 (#"вт 9:00-10:00 Физика till 2026-02-30") (Unicode.decode (#"вт 9:00-10:00 Физика till 2026-02-30")) _)).
  vm_compute. reflexivity.
Defined.

(** An overlong letter before a space makes the lowered text end before the
    place that is compared. *)
Lemma schedule_throws : parseSchedule [xc1; x81; x20] = Err OutOfRange.
Proof. vm_compute. reflexivity. Qed.

(** ** A written schedule is read back *)

(** Visible ASCII characters, and these and the space. *)
Definition visible (b : byte) : bool := ((0x21 <=? b2z b) && (b2z b <=? 0x7E))%Z.
Definition printable (b : byte) : bool := ((0x20 <=? b2z b) && (b2z b <=? 0x7E))%Z.

(** Text in UTF-8 of one line, without spaces at its ends. *)
Definition lineChar (c : Z) : bool := Unicode.scalar c && negb (isLineTerminator c).
Definition plainText (s : bytes) : Prop :=
  exists cps, s = Unicode.encode cps /\ Forall (fun c => lineChar c = true) cps /\
    (exists a t, cps = a :: t /\ isSpace a = false) /\ exists t z, cps = t ++ [z] /\ isSpace z = false.

Lemma visible_no_space (b : byte) : visible b = true -> isSpace (b2z b) = false.
Proof. unfold visible, isSpace. lia. Qed.

Lemma decodeAt_printable (b : byte) (s : bytes) : printable b = true -> decodeAt b s = (b2z b, 1).
Proof. intros H. apply decodeAt_ascii. unfold printable in H. lia. Qed.

Lemma skipSpace_visible (n : nat) (b : byte) (s : bytes) : visible b = true -> skipSpace n (b :: s) = b :: s.
Proof.
  intros V. destruct n; [reflexivity|]. cbn [skipSpace]. rewrite decodeAt_ascii by (unfold visible in V; lia).
  rewrite visible_no_space by exact V. reflexivity.
Qed.

Lemma lineChar_scalar (c : Z) : lineChar c = true -> Unicode.scalar c = true.
Proof. unfold lineChar. rewrite andb_true_iff. tauto. Qed.

(** The code point at the front of an encoded text, and what follows it. *)
Lemma at_enc1 (c : Z) (rest : bytes) : Unicode.scalar c = true ->
  exists b tail, Unicode.enc1 c ++ rest = b :: tail /\ decodeAt b tail = (c, length (Unicode.enc1 c)) /\
    drop (length (Unicode.enc1 c)) (b :: tail) = rest.
Proof.
  intros Sc. destruct (Unicode.decode1_enc1 c rest Sc) as (b & tail & E & _ & D). exists b, tail. split; [exact E|]. split.
  - rewrite decodeAt_decode1; [exact D|]. rewrite D. by apply enc1_length_fffd.
  - rewrite <- E. apply drop_app_length.
Qed.

Lemma skipSpace_plain (n : nat) (s : bytes) : plainText s -> skipSpace n s = s.
Proof.
  intros (cps & -> & F & (a & t & -> & Sa) & _). inversion_clear F as [|? ? Ha _]. apply lineChar_scalar in Ha. rewrite Unicode.encode_cons.
  destruct (at_enc1 a (Unicode.encode t) Ha) as (b & tail & -> & D & _). destruct n; [reflexivity|]. cbn [skipSpace]. by rewrite D, Sa.
Qed.

Lemma lastEnd_encode (z : Z) (cps : u32string) : Unicode.scalar z = true -> isSpace z = false ->
  Forall (fun c => lineChar c = true) cps ->
  forall n i e, length (Unicode.encode (cps ++ [z])) <= n -> lastEnd n (Unicode.encode (cps ++ [z])) i e = i + length (Unicode.encode (cps ++ [z])).
Proof.
  intros Sz Nz F. induction F as [|c cps Hc F IH]; intros n i e L; cbn [app] in *; rewrite Unicode.encode_cons in *; rewrite length_app in *.
  - pose proof (Unicode.enc1_length z) as Lz. destruct n as [|n]; [lia|]. destruct (at_enc1 z (Unicode.encode []) Sz) as (b & tail & -> & D & Dr).
    cbn [lastEnd]. rewrite D, Dr, Nz. cbn. destruct n; cbn; lia.
  - apply lineChar_scalar in Hc. pose proof (Unicode.enc1_length c) as Lc. destruct n as [|n]; [lia|].
    destruct (at_enc1 c (Unicode.encode (cps ++ [z])) Hc) as (b & tail & -> & D & Dr). cbn [lastEnd]. rewrite D, Dr, IH by lia. lia.
Qed.

Lemma trim_plain (s : bytes) : plainText s -> trim s = s.
Proof.
  intros P. unfold trim. rewrite skipSpace_plain by exact P. destruct P as (cps & -> & F & _ & t & z & -> & Nz).
  apply Forall_app in F as [F Fz]. inversion_clear Fz as [|? ? Sz _]. apply lineChar_scalar in Sz.
  rewrite lastEnd_encode by (done || lia). by apply take_ge.
Qed.

Lemma hasTerminator_encode (cps : u32string) : Forall (fun c => lineChar c = true) cps -> forall n, hasTerminator n (Unicode.encode cps) = false.
Proof.
  induction 1 as [|c cps Hc F IH]; intros n; (destruct n; [reflexivity|]); [reflexivity|]. pose proof (lineChar_scalar c Hc) as Sc.
  rewrite Unicode.encode_cons. destruct (at_enc1 c (Unicode.encode cps) Sc) as (b & tail & -> & D & Dr). cbn [hasTerminator at_].
  rewrite D, Dr, IH. unfold lineChar in Hc. rewrite Sc in Hc. cbn [andb] in Hc. apply negb_true_iff in Hc. by rewrite Hc.
Qed.

Lemma takeCodepoints_encode (cps : u32string) : Forall (fun c => lineChar c = true) cps ->
  forall n, takeCodepoints (Unicode.encode cps) n = Unicode.encode (take n cps).
Proof.
  induction 1 as [|c cps Hc F IH]; intros n; (destruct n; [reflexivity|]); [reflexivity|]. apply lineChar_scalar in Hc.
  cbn [take]. rewrite !Unicode.encode_cons. destruct (at_enc1 c (Unicode.encode cps) Hc) as (b & tail & E & D & Dr).
  rewrite E. cbn [takeCodepoints]. rewrite D, Dr, IH, <- E, take_app_length. reflexivity.
Qed.

(** Bytes of one line: none ends it. *)
Lemma plain_no_newline (s : bytes) : plainText s -> Forall (fun b => b <> "010"%byte) s.
Proof.
  intros (cps & -> & F & _). induction F as [|c cps Hc F IH]; [constructor|]. rewrite Unicode.encode_cons. apply Forall_app. split; [|exact IH].
  pose proof (lineChar_scalar c Hc) as Sc. destruct (Unicode.enc1_bytes c Sc) as [[R ->]|(R & h & cs & -> & Bh & Bc & _)].
  - constructor; [|constructor]. intros E. apply (f_equal b2z) in E. rewrite b2z_z2b_small in E by lia. change (b2z "010") with 10%Z in E. subst c.
    discriminate Hc.
  - constructor; [intros ->; cbn in Bh; lia|]. eapply List.Forall_impl; [|exact Bc]. cbn. intros b Hb ->. cbn in Hb. lia.
Qed.

Lemma encode_ascii (s : bytes) : Forall (fun b => printable b = true) s -> s = Unicode.encode (b2z <$> s) /\ Forall (fun c => lineChar c = true) (b2z <$> s).
Proof.
  induction 1 as [|b s Hb _ [IH F]]; [by split|]. change (b2z <$> b :: s) with (b2z b :: (b2z <$> s)). rewrite Unicode.encode_cons, <- IH. split.
  - unfold Unicode.enc1. unfold printable in Hb. destruct (Z.ltb_spec (b2z b) 0x80); [|lia]. by rewrite z2b_b2z.
  - constructor; [|exact F]. unfold lineChar, isLineTerminator. unfold printable in Hb. apply andb_true_iff. split; [apply Unicode.scalar_spec; lia|lia].
Qed.

Lemma plain_nonempty (s : bytes) : plainText s -> s <> [].
Proof.
  intros (cps & -> & _ & (a & t & -> & _) & _). rewrite Unicode.encode_cons. pose proof (Unicode.enc1_length a) as L. destruct (Unicode.enc1 a); [cbn in L; lia|done].
Qed.

(** Text after visible characters, and after other text. *)
Lemma plain_prefix (b : byte) (p s : bytes) : Forall (fun b => printable b = true) (b :: p) -> visible b = true -> plainText s -> plainText (b :: p ++ s).
Proof.
  intros Fp V (cps & -> & F & _ & t & z & -> & Nz). destruct (encode_ascii _ Fp) as [E Fe]. exists ((b2z <$> b :: p) ++ t ++ [z]). split; [|split; [|split]].
  - rewrite (Unicode.encode_app (b2z <$> b :: p)), <- E. reflexivity.
  - by apply Forall_app.
  - eexists (b2z b), _. split; [reflexivity|by apply visible_no_space].
  - exists ((b2z <$> b :: p) ++ t), z. split; [by rewrite app_assoc|exact Nz].
Qed.

Record Entry := { e_h1 : Z; e_m1 : Z; e_h2 : Z; e_m2 : Z; e_name : bytes; e_details : option bytes }.

Definition entryOk (e : Entry) : Prop :=
  (0 <= e_h1 e < 24 /\ 0 <= e_m1 e < 60 /\ 0 <= e_h2 e < 24 /\ 0 <= e_m2 e < 60 /\
   e_h1 e * 60 + e_m1 e < e_h2 e * 60 + e_m2 e)%Z /\
  plainText (e_name e) /\ ","%byte ∉ e_name e /\ length (Unicode.decode (e_name e)) <= kScheduleMaxNameLength /\
  match e_details e with Some d => plainText d | None => True end.

Definition titleOf (e : Entry) : bytes := e_name e ++ match e_details e with Some d => ","%byte :: " "%byte :: d | None => [] end.

Definition entryLine (e : Entry) : bytes :=
  pad2 (e_h1 e) ++ ":"%byte :: pad2 (e_m1 e) ++ "-"%byte :: pad2 (e_h2 e) ++ ":"%byte :: pad2 (e_m2 e) ++ " "%byte :: titleOf e.

Definition itemFor (w : Z) (e : Entry) : ScheduleItem :=
  {| weekday := w; start := pad2 (e_h1 e) ++ #":" ++ pad2 (e_m1 e); end_ := pad2 (e_h2 e) ++ #":" ++ pad2 (e_m2 e);
     name := e_name e; description := e_details e |}.

Lemma plain_cat (s t : bytes) : plainText s -> plainText t -> plainText (s ++ ","%byte :: " "%byte :: t).
Proof.
  intros (cps & -> & F & (a & r & -> & Na) & _) (cps' & -> & F' & _ & u & z & -> & Nz). exists ((a :: r) ++ [0x2C; 0x20]%Z ++ u ++ [z]). split; [|split; [|split]].
  - rewrite !Unicode.encode_app. reflexivity.
  - apply Forall_app. split; [exact F|]. apply Forall_app. split; [repeat constructor|exact F'].
  - eexists a, _. split; [reflexivity|exact Na].
  - exists ((a :: r) ++ [0x2C; 0x20]%Z ++ u), z. split; [by rewrite !app_assoc|exact Nz].
Qed.

Lemma titleOf_plain (e : Entry) : entryOk e -> plainText (titleOf e).
Proof.
  intros (_ & N & _ & _ & D). unfold titleOf. destruct (e_details e) as [d|]; [apply plain_cat; assumption|].
  rewrite app_nil_r. exact N.
Qed.

Lemma digits_pad2 (v : Z) (min : nat) (rest : bytes) : (0 <= v < 100)%Z -> min <= 2 -> digits (pad2 v ++ rest) min 2 = Some (pad2 v, rest).
Proof.
  intros Hv Hm. rewrite pad2_small by exact Hv. unfold digits. cbn [app countDigits].
  rewrite !digit_isDigit by zdiv. destruct (Nat.ltb_spec 2 min); [lia|]. reflexivity.
Qed.

Lemma expect_hit (cs : list byte) (b : byte) (s : bytes) : b ∈ cs -> expect cs (b :: s) = Some s.
Proof. intros H. cbn [expect]. rewrite bool_decide_eq_true_2 by exact H. reflexivity. Qed.

Lemma skipSpaces_stop (b : byte) (s : bytes) : visible b = true -> skipSpaces (b :: s) = b :: s.
Proof. apply skipSpace_visible. Qed.

Lemma matchTimeRange_line (e : Entry) : entryOk e -> matchTimeRange (entryLine e) =
  Some {| h1 := pad2 (e_h1 e); m1 := pad2 (e_m1 e); h2 := pad2 (e_h2 e); m2 := pad2 (e_m2 e); title := titleOf e |}.
Proof.
  intros O. pose proof (titleOf_plain e O) as P. destruct O as ((H1 & M1 & H2 & M2 & _) & _).
  unfold matchTimeRange, entryLine. rewrite digits_pad2 by lia. cbn [mbind option_bind].
  rewrite expect_hit by left. cbn [mbind option_bind]. rewrite digits_pad2 by lia. cbn [mbind option_bind].
  rewrite skipSpaces_stop by reflexivity. unfold at_. rewrite decodeAt_printable by reflexivity. cbn [drop].
  replace (negb (isDash (b2z "-"))) with false by reflexivity. cbv iota.
  assert (K : skipSpaces (drop 0 (pad2 (e_h2 e) ++ ":"%byte :: pad2 (e_m2 e) ++ " "%byte :: titleOf e)) =
    pad2 (e_h2 e) ++ ":"%byte :: pad2 (e_m2 e) ++ " "%byte :: titleOf e).
  { rewrite drop_0, (pad2_small (e_h2 e)) by lia. apply skipSpaces_stop. pose proof (digit_value (e_h2 e `div` 10)).
    unfold visible. rewrite digit_value by zdiv. zdiv. }
  rewrite K, digits_pad2 by lia. cbn [mbind option_bind]. rewrite expect_hit by left. cbn [mbind option_bind].
  rewrite digits_pad2 by lia. cbn [mbind option_bind].
  assert (K2 : skipSpaces (" "%byte :: titleOf e) = titleOf e).
  { unfold skipSpaces. cbn [length skipSpace]. rewrite decodeAt_printable by reflexivity. replace (isSpace (b2z " ")) with true by reflexivity.
    cbn [drop]. rewrite drop_0. apply skipSpace_plain, P. }
  rewrite K2. destruct P as (cps & Ep & F & _). rewrite Ep at 2. rewrite hasTerminator_encode by exact F. reflexivity.
Qed.

Lemma lower_loop_grows (n : nat) : forall s out, exists t, lower_loop n s out = out ++ t.
Proof.
  induction n as [|n IH]; intros [|b s] out; cbn [lower_loop]; try (exists []; rewrite app_nil_r; reflexivity).
  destruct (decodeAt b s) as [cp len]. destruct (_ && _).
  - destruct (IH s (out ++ [b])) as [t ->]. exists (b :: t). rewrite <- app_assoc. reflexivity.
  - destruct (IH (drop len (b :: s)) (appendUtf8 out (lowerCp cp))) as [t ->]. rewrite appendUtf8_append. unfold Unicode.append.
    rewrite <- app_assoc. eexists. reflexivity.
Qed.

(** A line that begins with a digit names no day. *)
Lemma matchWeekday_digit (b : byte) (s : bytes) : isDigit b = true -> matchWeekday (b :: s) = None.
Proof.
  intros D. assert (L : exists t, lower (b :: s) = b :: t).
  { unfold lower. cbn [length lower_loop]. rewrite decodeAt_ascii by (unfold isDigit in D; lia).
    replace ((b2z b =? 0xFFFD)%Z && (1 =? 1)) with false by (unfold isDigit in D; lia).
    assert (E : appendUtf8 [] (lowerCp (b2z b)) = [b]).
    { revert b D. assert (G : forall b, implb (isDigit b) (bool_decide (appendUtf8 [] (lowerCp (b2z b)) = [b])) = true)
        by (apply byte_forallb; vm_compute; reflexivity). intros b D. specialize (G b). rewrite D in G. apply bool_decide_eq_true in G. exact G. }
    rewrite E. destruct (lower_loop_grows (length s) (drop 1 (b :: s)) [b]) as [t ->]. exists t. reflexivity. }
  destruct L as [t Et]. unfold matchWeekday. rewrite Et. apply firstSome_None. intros [ws w] He.
  rewrite firstSome_None; [reflexivity|]. intros word Hw. unfold tryWord.
  assert (G : forallb (fun e : list bytes * Z => forallb (fun word => match word with c :: _ => negb (isDigit c) | [] => false end) e.1) kWeekdayWords = true)
    by (vm_compute; reflexivity).
  rewrite forallb_forall in G. apply list_elem_of_In in He. specialize (G _ He). cbn [fst] in G. rewrite forallb_forall in G.
  apply list_elem_of_In in Hw. specialize (G _ Hw). destruct word as [|c word]; [discriminate|].
  rewrite bool_decide_eq_false_2; [reflexivity|]. cbn [length take]. intros [= -> _]. rewrite D in G. discriminate.
Qed.

Lemma findByte_app (c : byte) (s t : bytes) : c ∉ s -> findByte c (s ++ c :: t) = Some (length s).
Proof.
  intros N. unfold findByte. induction s as [|b s IH]; cbn [app list_find length].
  - rewrite decide_True by reflexivity. reflexivity.
  - apply not_elem_of_cons in N as [N1 N2]. rewrite decide_False by congruence. specialize (IH N2).
    destruct (list_find _ (s ++ c :: t)) as [[i x]|]; [|discriminate]. cbn in *. congruence.
Qed.

Lemma findByte_none (c : byte) (s : bytes) : c ∉ s -> findByte c s = None.
Proof.
  intros N. unfold findByte. rewrite (proj2 (list_find_None _ _)); [reflexivity|]. apply Forall_elem. intros b Hb ->. exact (N Hb).
Qed.

Lemma toTimeString_pad2 (h m : Z) : (0 <= h < 24)%Z -> (0 <= m < 60)%Z ->
  toTimeString (pad2 h) (pad2 m) = Some (pad2 h ++ #":" ++ pad2 m) /\ Calendar.toMinutes (pad2 h ++ #":" ++ pad2 m) = (h * 60 + m)%Z.
Proof.
  intros Hh Hm. assert (V : forall v, (0 <= v < 100)%Z -> value (pad2 v) = v).
  { intros v Hv. apply Z.eqb_eq. revert v Hv. apply (z_forallb 100 (fun v => value (pad2 v) =? v)%Z). vm_compute. reflexivity. }
  split.
  - unfold toTimeString. rewrite !V by lia. replace ((23 <? h) || (59 <? m))%Z with false by lia. reflexivity.
  - rewrite !pad2_small by lia. cbn [app]. change (digit (h `div` 10) :: digit (h `mod` 10) :: #":" ++ ?x) with (digit (h `div` 10) :: digit (h `mod` 10) :: ":"%byte :: x).
    rewrite Calendar.toMinutes_digits by zdiv. zdiv.
Qed.

Lemma itemOf_line (w : Z) (e : Entry) : entryOk e -> itemOf (Some w)
  {| h1 := pad2 (e_h1 e); m1 := pad2 (e_m1 e); h2 := pad2 (e_h2 e); m2 := pad2 (e_m2 e); title := titleOf e |} = Some (itemFor w e).
Proof.
  intros O. pose proof (titleOf_plain e O) as Tp. destruct O as ((H1 & M1 & H2 & M2 & L) & N & C & Ln & D).
  unfold itemOf. cbn [h1 m1 h2 m2 title]. destruct (toTimeString_pad2 (e_h1 e) (e_m1 e)) as [-> T1]; [lia|lia|].
  destruct (toTimeString_pad2 (e_h2 e) (e_m2 e)) as [-> T2]; [lia|lia|]. rewrite T1, T2.
  destruct (Z.leb_spec (e_h2 e * 60 + e_m2 e) (e_h1 e * 60 + e_m1 e)); [lia|]. rewrite (trim_plain (titleOf e)) by exact Tp.
  pose proof (plain_nonempty _ N) as Ne.
  assert (Tk : takeCodepoints (e_name e) kScheduleMaxNameLength = e_name e).
  { destruct N as (cps & En & F & _). rewrite En in Ln |- *. rewrite takeCodepoints_encode by exact F. rewrite Unicode.decode_encode in Ln; [by rewrite take_ge|].
    eapply List.Forall_impl; [|exact F]. apply lineChar_scalar. }
  assert (Lt : length (titleOf e) =? 0 = false).
  { apply Nat.eqb_neq. unfold titleOf. rewrite length_app. destruct (e_name e); [congruence|cbn; lia]. }
  rewrite Lt. cbn [orb]. unfold itemFor, titleOf. f_equal. destruct (e_details e) as [d|].
  - rewrite findByte_app by exact C. destruct (length (e_name e)) as [|k] eqn:K; [destruct (e_name e); [congruence|discriminate]|].
    rewrite <- K, take_app_length, trim_plain, Tk by exact N.
    assert (Dr : trim (drop (S (length (e_name e))) (e_name e ++ ","%byte :: " "%byte :: d)) = d).
    { rewrite drop_app_ge by lia. replace (S (length (e_name e)) - length (e_name e)) with 1 by lia. cbn [drop]. rewrite ?drop_0.
      pose proof (trim_plain d D) as E. unfold trim in E |- *. cbn [length skipSpace]. rewrite decodeAt_printable by reflexivity.
      replace (isSpace (b2z " ")) with true by reflexivity. cbn [drop]. rewrite ?drop_0. exact E. }
    rewrite Dr. pose proof (plain_nonempty _ D) as Nd. destruct d as [|c d]; [done|]. reflexivity.
  - rewrite app_nil_r, findByte_none by exact C. by rewrite trim_plain, Tk by exact N.
Qed.

(** Lines with their ends between them. *)
Fixpoint joinLines (ls : list bytes) : bytes :=
  match ls with
  | [] => []
  | l :: rest => match rest with [] => l | _ :: _ => l ++ "010"%byte :: joinLines rest end
  end.

(** A day: a word for it, its number, its entries. *)
Record Day := { word : bytes; number : Z; entries : list Entry }.

Definition dayOk (d : Day) : Prop :=
  (exists ws, (ws, number d) ∈ kWeekdayWords /\ word d ∈ ws) /\ Forall entryOk (entries d).

Definition dayLines (d : Day) : list bytes := word d :: (entryLine <$> entries d).
Definition printSchedule (days : list Day) : bytes := joinLines (days ≫= dayLines).
Definition dayItems (d : Day) : list ScheduleItem := itemFor (number d) <$> entries d.

Lemma split_joinLines (ls : list bytes) : Forall (Forall (fun b => b <> "010"%byte)) ls ->
  foldl readLine noLines (split (joinLines ls) "010") = foldl readLine noLines ls.
Proof.
  destruct ls as [|l ls]; [reflexivity|]. intros F. f_equal. revert l F.
  induction ls as [|l' ls IH]; intros l F; inversion_clear F as [|? ? Fl Fs]; [apply split_none; exact Fl|].
  change (joinLines (l :: l' :: ls)) with (l ++ "010"%byte :: joinLines (l' :: ls)). rewrite split_app by exact Fl. f_equal. apply IH, Fs.
Qed.

(** All words: the line is the word, it names the day, and nothing follows. *)
Definition wordOk (w : Z) (word : bytes) : bool :=
  bool_decide (trim word = word) && negb (length word =? 0) && bool_decide (matchWeekday word = Some (w, [])) &&
  forallb (fun b => negb (bool_decide (b = "010"%byte))) word && match Unicode.strictUtf8 word with Some _ => true | None => false end.

Lemma words_ok (d : Day) : dayOk d -> wordOk (number d) (word d) = true.
Proof.
  intros [(ws & He & Hw) _].
  assert (G : forallb (fun e : list bytes * Z => forallb (wordOk e.2) e.1) kWeekdayWords = true) by (vm_compute; reflexivity).
  rewrite forallb_forall in G. apply list_elem_of_In in He, Hw. specialize (G _ He). cbn [fst snd] in G.
  rewrite forallb_forall in G. exact (G _ Hw).
Qed.

Lemma readLine_header (st : Lines) (d : Day) : dayOk d ->
  readLine st (word d) = {| found := found st; passed := passed st; today := Some (number d) |}.
Proof.
  intros O. apply words_ok in O. unfold wordOk in O. rewrite !andb_true_iff in O. destruct O as ((((T & L) & M) & _) & _).
  apply bool_decide_eq_true in T, M. apply negb_true_iff in L. unfold readLine. rewrite T, L, M. reflexivity.
Qed.

Lemma plain_digits (v : Z) : (0 <= v < 100)%Z -> Forall (fun b => printable b = true) (pad2 v) /\
  exists b c, pad2 v = [b; c] /\ isDigit b = true /\ visible b = true.
Proof.
  intros Hv. rewrite pad2_small by exact Hv.
  assert (V : forall x, (0 <= x < 10)%Z -> visible (digit x) = true) by (intros x Hx; unfold visible; rewrite digit_value by exact Hx; lia).
  assert (P : forall b, visible b = true -> printable b = true) by (unfold visible, printable; lia).
  split; [repeat constructor; apply P, V; zdiv|]. eexists _, _. split; [reflexivity|]. split; [apply digit_isDigit; zdiv|apply V; zdiv].
Qed.

Lemma entryLine_plain (e : Entry) : entryOk e -> plainText (entryLine e) /\ exists b t, entryLine e = b :: t /\ isDigit b = true.
Proof.
  intros O. pose proof (titleOf_plain e O) as P. destruct O as ((H1 & M1 & H2 & M2 & _) & _).
  destruct (plain_digits (e_h1 e) ltac:(lia)) as [F1 (b & c & E1 & D1 & V1)].
  destruct (plain_digits (e_m1 e) ltac:(lia)) as [F2 _]. destruct (plain_digits (e_h2 e) ltac:(lia)) as [F3 _].
  destruct (plain_digits (e_m2 e) ltac:(lia)) as [F4 _].
  assert (E : entryLine e = b :: (c :: ":"%byte :: pad2 (e_m1 e) ++ "-"%byte :: pad2 (e_h2 e) ++ ":"%byte :: pad2 (e_m2 e) ++ [" "%byte]) ++ titleOf e).
  { unfold entryLine. rewrite E1. cbn [app]. repeat (rewrite <- app_assoc; cbn [app]). reflexivity. }
  split; [|exists b; eexists; split; [exact E|exact D1]]. rewrite E. apply plain_prefix; [|exact V1|exact P]. rewrite E1 in F1.
  inversion_clear F1 as [|? ? Fb Fc]. inversion_clear Fc as [|? ? Fc' _].
  repeat first [apply Forall_app; split | assumption | constructor; [first [assumption|reflexivity]|] | constructor].
Qed.

Lemma readLine_entry (st : Lines) (w : Z) (e : Entry) : entryOk e -> today st = Some w ->
  readLine st (entryLine e) = {| found := found st ++ [itemFor w e]; passed := passed st; today := Some w |}.
Proof.
  intros O T. destruct (entryLine_plain e O) as [P (b & t & E & D)]. unfold readLine. rewrite (trim_plain _ P).
  assert (L : length (entryLine e) =? 0 = false) by (rewrite E; reflexivity). rewrite L.
  assert (M : matchWeekday (entryLine e) = None) by (rewrite E; apply matchWeekday_digit; exact D). rewrite M, T.
  rewrite matchTimeRange_line, itemOf_line by exact O. reflexivity.
Qed.

Lemma readDays (days : list Day) : Forall dayOk days -> forall st, exists w,
  foldl readLine st (days ≫= dayLines) = {| found := found st ++ (days ≫= dayItems); passed := passed st; today := w |}.
Proof.
  induction 1 as [|d days O _ IH]; intros st.
  - exists (today st). cbn. rewrite app_nil_r. destruct st. reflexivity.
  - cbn [mbind list_bind]. rewrite foldl_app. change (dayLines d) with (word d :: (entryLine <$> entries d)). cbn [foldl]. rewrite readLine_header by exact O.
    assert (G : forall es st', Forall entryOk es -> today st' = Some (number d) -> foldl readLine st' (entryLine <$> es) =
      {| found := found st' ++ (itemFor (number d) <$> es); passed := passed st'; today := Some (number d) |}).
    { clear. induction es as [|e es IH]; intros st' F T; cbn [fmap list_fmap foldl]; [rewrite app_nil_r; destruct st'; cbn in T; subst; reflexivity|].
      inversion_clear F as [|? ? He Fs]. rewrite (readLine_entry st' (number d) e He T).
      change (list_fmap Entry bytes entryLine es) with (entryLine <$> es). rewrite IH by (exact Fs || reflexivity).
      cbn [found passed]. rewrite <- app_assoc. reflexivity. }
    rewrite G by (apply O || reflexivity). cbn [found passed].
    destruct (IH {| found := found st ++ dayItems d; passed := passed st; today := Some (number d) |}) as [w E].
    exists w. cbn [found passed] in E. rewrite <- app_assoc in E. exact E.
Qed.

Lemma utf8_app (s t : bytes) : utf8 s -> utf8 t -> utf8 (s ++ t).
Proof.
  intros (c & Fc & ->) (d & Fd & ->). exists (c ++ d). split; [apply Forall_app; auto|]. rewrite Unicode.encode_app. reflexivity.
Qed.

Lemma utf8_ascii (s : bytes) : Forall (fun b => (b2z b < 0x80)%Z) s -> utf8 s.
Proof.
  induction 1 as [|b s Hb _ IH]; [exists []; split; [constructor|reflexivity]|]. change (b :: s) with ([b] ++ s). apply utf8_app; [|exact IH].
  pose proof (b2z_range b). exists [b2z b]. split; [constructor; [apply Unicode.scalar_spec; lia|constructor]|].
  unfold Unicode.encode. cbn [foldl Unicode.append app]. unfold Unicode.append, Unicode.enc1.
  destruct (Z.ltb_spec (b2z b) 0x80); [|lia]. rewrite z2b_b2z. reflexivity.
Qed.

Lemma days_lines (days : list Day) : Forall dayOk days ->
  Forall (Forall (fun b => b <> "010"%byte)) (days ≫= dayLines) /\ Forall utf8 (days ≫= dayLines).
Proof.
  intros F. rewrite <- list.Forall_and. apply Forall_bind. eapply List.Forall_impl; [|exact F]. intros d O. constructor.
  - pose proof (words_ok d O) as W. unfold wordOk in W. rewrite !andb_true_iff in W. destruct W as [[_ N] U]. split.
    + rewrite forallb_forall in N. apply List.Forall_forall. intros b Hb ->. discriminate (N _ Hb).
    + destruct (Unicode.strictUtf8 (word d)) as [cps|] eqn:E; [|discriminate]. apply Unicode.strict_loop_sound in E as [<- Fc]; [|lia].
      exists cps. auto.
  - apply Forall_fmap. eapply List.Forall_impl; [|exact (proj2 O)]. intros e He. cbn.
    destruct (entryLine_plain e He) as [P _]. split; [by apply plain_no_newline|].
    destruct P as (cps & -> & P & _). exists cps. split; [|reflexivity]. eapply List.Forall_impl; [|exact P]. apply lineChar_scalar.
Qed.

Lemma joinLines_utf8 (ls : list bytes) : Forall utf8 ls -> utf8 (joinLines ls).
Proof.
  induction 1 as [|l ls Hl F IH]; [exists []; split; [constructor|reflexivity]|]. destruct ls as [|l' ls]; [exact Hl|].
  change (joinLines (l :: l' :: ls)) with (l ++ ["010"%byte] ++ joinLines (l' :: ls)).
  apply utf8_app; [exact Hl|]. apply utf8_app; [|exact IH]. apply utf8_ascii. repeat constructor.
Qed.

(** Claim C29 (schedule_roundtrip): a schedule that is written day by day, with any of
    the words for a day and lines of the form HH:MM-HH:MM Name, details, is read
    back: all entries in their order on their days, and no line is skipped. Names and
    details are any valid UTF-8 of one line without spaces at the ends, a name has no
    comma and at most 200 code points, and each entry begins before it ends. *)
Theorem schedule_roundtrip (days : list Day) (O : Forall dayOk days) :
  exists p, parseSchedule (printSchedule days) = Ok p /\ items p = days ≫= dayItems /\ skipped p = [].
Proof.
  destruct (days_lines days O) as [N U]. destruct (parse_total (printSchedule days)) as (p & E & H); [apply joinLines_utf8, U|].
  exists p. split; [exact E|]. cbv zeta in H. destruct H as [-> ->]. unfold printSchedule. rewrite split_joinLines by exact N.
  destruct (readDays days O noLines) as [w ->]. split; reflexivity.
Qed.

Definition tuesday : Day := {| word := #"вт"; number := 2; entries :=
  [{| e_h1 := 9; e_m1 := 0; e_h2 := 10; e_m2 := 30; e_name := #"Алгебра B"; e_details := Some (#"каб. 5") |};
   {| e_h1 := 11; e_m1 := 0; e_h2 := 12; e_m2 := 5; e_name := #"日本語"; e_details := None |}] |}.

Lemma tuesday_ok : dayOk tuesday.
Proof.
  assert (P : forall cps, forallb lineChar cps = true -> match cps with a :: _ => isSpace a | [] => true end = false ->
    match list.last cps with Some z => isSpace z | None => true end = false -> plainText (Unicode.encode cps)).
  { intros cps F A Z. exists cps. split; [reflexivity|]. split; [apply List.Forall_forall; rewrite forallb_forall in F; exact F|].
    split; [destruct cps; [done|eauto]|]. destruct (list.last cps) as [z|] eqn:E; [|done]. apply list.last_Some in E as [t ->]. eauto. }
  split.
  - exists [ #"вторник"; #"вт"; #"tuesday"; #"tues"; #"tue"]. split; [right; left|right; left].
  - assert (T : forall s, forallb lineChar (Unicode.decode s) && bool_decide (Unicode.encode (Unicode.decode s) = s) &&
        negb (match Unicode.decode s with a :: _ => isSpace a | [] => true end) &&
        negb (match list.last (Unicode.decode s) with Some z => isSpace z | None => true end) = true -> plainText s).
    { intros s. rewrite !andb_true_iff, !negb_true_iff, bool_decide_eq_true. intros [[[F E] A] Z]. rewrite <- E. by apply P. }
    repeat constructor; cbn [e_h1 e_m1 e_h2 e_m2 e_name e_details]; try lia; try (apply T; vm_compute; reflexivity);
      try (apply (bool_decide_unpack _); vm_compute; exact I); apply Nat.leb_le; vm_compute; reflexivity.
Qed.

Lemma schedule_roundtrip_witness :
  printSchedule [tuesday] = #"вт
09:00-10:30 Алгебра B, каб. 5
11:00-12:05 日本語" /\ exists p, parseSchedule (printSchedule [tuesday]) = Ok p /\ items p = [tuesday] ≫= dayItems /\ skipped p = [].
Proof.
  split; [vm_compute; reflexivity|]. refine (schedule_roundtrip [tuesday] _). constructor; [exact tuesday_ok|constructor].
Defined.

End Schedule.
