(* ===== verification/NotesMerge.v ===== *)
(** * NotesMerge: three-way merge of notes

    Module [Merge] models [src/sections/notes_merge.cpp]: line ends, lines,
    the longest common subsequence of two texts by dynamic programming, and
    the merge of two texts over their common base. *)

From S2P Require Import Prelude.

Module Merge.

(** ** Definitions *)

Definition kNoMatch : Z := -1.
Definition kMaxDiffCells : Z := 4000000.

Fixpoint normalizeEol (text : bytes) : bytes :=
  match text with
  | [] => []
  | c :: rest =>
      if bool_decide (c = x0d) then
        x0a :: match rest with
               | c2 :: rest' => if bool_decide (c2 = x0a) then normalizeEol rest' else normalizeEol rest
               | [] => []
               end
      else c :: normalizeEol rest
  end.

(** The pieces between line feeds ([find] from the start of each). *)
Fixpoint splitAll (body : bytes) : list bytes :=
  match body with
  | [] => [[]]
  | c :: rest =>
      if bool_decide (c = x0a) then [] :: splitAll rest
      else match splitAll rest with
           | l :: ls => (c :: l) :: ls
           | [] => [[c]]
           end
  end.

Definition endsWithEol (text : bytes) : bool := bool_decide (nth (length text - 1) text x00 = x0a).

Definition splitLines (text : bytes) : list bytes :=
  match text with
  | [] => []
  | _ => splitAll (if endsWithEol text then take (length text - 1) text else text)
  end.

(** [l.begin() + a .. l.begin() + b]: undefined unless [a <= b <= size];
    [areEqual] below asks for it even where sizes differ. *)
Definition slice {A} (l : list A) (a b : nat) : result exn (list A) :=
  if (a <=? b) && (b <=? length l) then Ok (take (b - a) (drop a l)) else Err Undefined.

Definition areEqual (a : list bytes) (aFrom aTo : nat) (b : list bytes) (bFrom bTo : nat) : result exn bool :=
  let! x := slice a aFrom aTo in
  let! y := slice b bFrom bTo in
  Ok (bool_decide (x = y)).

(** *** Matching lines *)

Fixpoint headOf (from to : list bytes) : nat :=
  match from, to with
  | x :: xs, y :: ys => if bool_decide (x = y) then S (headOf xs ys) else 0
  | _, _ => 0
  end.

(** The tail is compared from the end, within what the head leaves. *)
Definition tailOf (from to : list bytes) (head : nat) : nat :=
  headOf (rev (drop head from)) (rev (drop head to)).

(** One row of [lengths], from the row below it. *)
Fixpoint rowOf (x : bytes) (ys : list bytes) (below : list nat) : list nat :=
  match ys with
  | [] => [0]
  | y :: ys' =>
      let rest := rowOf x ys' (tail below) in
      (if bool_decide (x = y) then nth 0 (tail below) 0 + 1
       else Nat.max (nth 0 below 0) (nth 0 rest 0)) :: rest
  end.

Fixpoint lengthsOf (xs ys : list bytes) : list (list nat) :=
  match xs with
  | [] => [repeat 0 (S (length ys))]
  | x :: xs' => let rows := lengthsOf xs' ys in rowOf x ys (nth 0 rows []) :: rows
  end.

Definition cell (lengths : list (list nat)) (row column : nat) : nat := nth column (nth row lengths []) 0.

(** The walk over the table; each step moves a row or a column. *)
Fixpoint walk (fuel : nat) (from to : list bytes) (lengths : list (list nat)) (head rows columns : nat)
  (match_ : list Z) (row column : nat) : list Z :=
  match fuel with
  | O => match_
  | S f =>
      if (row <? rows) && (column <? columns) then
        if bool_decide (nth (head + row) from [] = nth (head + column) to []) then
          walk f from to lengths head rows columns
            (<[head + row := Z.of_nat (head + column)]> match_) (S row) (S column)
        else if cell lengths row (S column) <=? cell lengths (S row) column then
          walk f from to lengths head rows columns match_ (S row) column
        else walk f from to lengths head rows columns match_ row (S column)
      else match_
  end.

Definition matchLines (from to : list bytes) : option (list Z) :=
  let head := headOf from to in
  let tail := tailOf from to head in
  let match_ := imap (fun i _ =>
      if i <? head then Z.of_nat i
      else if length from - tail <=? i then Z.of_nat (length to - (length from - i))
      else kNoMatch) from in
  let rows := length from - head - tail in
  let columns := length to - head - tail in
  if (rows =? 0) || (columns =? 0) then Some match_
  else if (kMaxDiffCells <? Z.of_nat rows * Z.of_nat columns)%Z then None
  else
    let lengths := lengthsOf (take rows (drop head from)) (take columns (drop head to)) in
    Some (walk (rows + columns) from to lengths head rows columns match_ 0 0).

(** *** The merge *)

Definition atZ (m : list Z) (i : nat) : Z := nth i m kNoMatch.

(** [stable]: lines of the base in place on both sides. *)
Fixpoint stableAt (fuel : nat) (baseSize : nat) (mm tm : list Z) (b m t : nat) : nat :=
  match fuel with
  | O => 0
  | S f =>
      if (b <? baseSize) && (atZ mm b =? Z.of_nat m)%Z && (atZ tm b =? Z.of_nat t)%Z
      then S (stableAt f baseSize mm tm (S b) (S m) (S t)) else 0
  end.

Fixpoint baseEndFrom (fuel : nat) (baseSize : nat) (mm tm : list Z) (b : nat) : nat :=
  match fuel with
  | O => b
  | S f =>
      if (b <? baseSize) && ((atZ mm b =? kNoMatch)%Z || (atZ tm b =? kNoMatch)%Z)
      then baseEndFrom f baseSize mm tm (S b) else b
  end.

(** [None]: a conflict. *)
Fixpoint mergeLoop (fuel : nat) (base mine theirs : list bytes) (mm tm : list Z) (b m t : nat)
  (merged : list bytes) : result exn (option (list bytes)) :=
  match fuel with
  | O => Ok (Some merged)
  | S f =>
      if negb ((b <? length base) || (m <? length mine) || (t <? length theirs)) then Ok (Some merged)
      else
        let stable := stableAt (length base - b) (length base) mm tm b m t in
        if negb (stable =? 0) then
          let! kept := slice base b (b + stable) in
          mergeLoop f base mine theirs mm tm (b + stable) (m + stable) (t + stable) (merged ++ kept)
        else
          let bEnd := baseEndFrom (length base - b) (length base) mm tm b in
          let mEnd := if bEnd <? length base then Z.to_nat (atZ mm bEnd) else length mine in
          let tEnd := if bEnd <? length base then Z.to_nat (atZ tm bEnd) else length theirs in
          let! theirsIsBase := areEqual theirs t tEnd base b bEnd in
          let! mineIsTheirs := areEqual mine m mEnd theirs t tEnd in
          if theirsIsBase || mineIsTheirs then
            let! part := slice mine m mEnd in
            mergeLoop f base mine theirs mm tm bEnd mEnd tEnd (merged ++ part)
          else
            let! mineIsBase := areEqual mine m mEnd base b bEnd in
            if mineIsBase then
              let! part := slice theirs t tEnd in
              mergeLoop f base mine theirs mm tm bEnd mEnd tEnd (merged ++ part)
            else Ok None
  end.

Fixpoint joinLines (lines : list bytes) : bytes :=
  match lines with
  | [] => []
  | [l] => l
  | l :: ls => l ++ x0a :: joinLines ls
  end.

Record NotesMergeResult := { text : bytes; hasConflict : bool }.

Definition mergeNotes (base mine theirs : bytes) : result exn NotesMergeResult :=
  let baseText := normalizeEol base in
  let mineText := normalizeEol mine in
  let theirsText := normalizeEol theirs in
  if bool_decide (mineText = theirsText) || bool_decide (theirsText = baseText) then
    Ok {| text := mineText; hasConflict := false |}
  else if bool_decide (mineText = baseText) then Ok {| text := theirsText; hasConflict := false |}
  else
    let baseLines := splitLines baseText in
    let mineLines := splitLines mineText in
    let theirsLines := splitLines theirsText in
    let conflict := {| text := mineText; hasConflict := true |} in
    match matchLines baseLines mineLines, matchLines baseLines theirsLines with
    | Some mm, Some tm =>
        let! merged := mergeLoop (S (length baseLines + length mineLines + length theirsLines))
                         baseLines mineLines theirsLines mm tm 0 0 0 [] in
        match merged with
        | None => Ok conflict
        | Some lines =>
            let hasFinalEol := negb (bool_decide (mineText = [])) && endsWithEol mineText
                               && negb (bool_decide (lines = [])) in
            Ok {| text := joinLines lines ++ (if hasFinalEol then [x0a] else []); hasConflict := false |}
        end
    | _, _ => Ok conflict
    end.

(** ** Lines *)

Lemma splitAll_nonempty (s : bytes) : splitAll s <> [].
Proof. destruct s as [|c s]; cbn; [done|]. repeat case_match; done. Qed.

Lemma joinLines_cons (l : bytes) (ls : list bytes) : ls <> [] -> joinLines (l :: ls) = l ++ x0a :: joinLines ls.
Proof. by destruct ls. Qed.

Lemma join_splitAll (s : bytes) : joinLines (splitAll s) = s.
Proof.
  induction s as [|c s IH]; cbn [splitAll]; [done|]. pose proof (splitAll_nonempty s) as Hn. case_bool_decide as Hc.
  - rewrite joinLines_cons, IH by done. by rewrite Hc.
  - destruct (splitAll s) as [|l ls] eqn:E; [done|]. destruct ls as [|l2 ls].
    + rewrite <- IH. done.
    + rewrite <- IH. by rewrite !joinLines_cons by done.
Qed.

Lemma take_last (s : bytes) : s <> [] -> take (length s - 1) s ++ [nth (length s - 1) s x00] = s.
Proof.
  intros H. destruct (exists_last H) as (s' & x & ->). rewrite length_app. cbn [length].
  replace (length s' + 1 - 1) with (length s') by lia.
  rewrite take_app_length' by done. f_equal. by rewrite nth_middle.
Qed.

(** ** Matching *)

(** A matching pairs equal lines, and its pairs do not cross. *)
Record aligned (m : list Z) (from to : list bytes) : Prop := {
  al_length : length m = length from;
  al_pair : forall i j, m !! i = Some j -> j = kNoMatch \/
    ((0 <= j < Z.of_nat (length to))%Z /\ from !! i = to !! Z.to_nat j);
  al_mono : forall i i' j j', i < i' -> m !! i = Some j -> m !! i' = Some j' ->
    j <> kNoMatch -> j' <> kNoMatch -> (j < j')%Z
}.

Lemma headOf_spec (xs ys : list bytes) :
  headOf xs ys <= length xs /\ headOf xs ys <= length ys /\ (forall i, i < headOf xs ys -> xs !! i = ys !! i).
Proof.
  revert ys. induction xs as [|x xs IH]; intros [|y ys]; cbn [headOf length]; try (split_and!; [lia|lia|intros; lia]).
  case_bool_decide as E; [|split_and!; [lia|lia|intros; lia]].
  destruct (IH ys) as (H1 & H2 & H3). split_and!; [lia|lia|]. intros [|i] Hi; cbn; [by subst|]. apply H3. lia.
Qed.

Lemma rev_lookup {A} (l : list A) (i : nat) : i < length l -> rev l !! i = l !! (length l - S i).
Proof. intros Hi. rewrite rev_alt. by apply reverse_lookup. Qed.

Lemma tailOf_spec (from to : list bytes) : let head := headOf from to in let tail := tailOf from to head in
  head + tail <= length from /\ head + tail <= length to /\
  (forall k, k < tail -> from !! (length from - S k) = to !! (length to - S k)).
Proof.
  cbn zeta. set (head := headOf from to). unfold tailOf.
  destruct (headOf_spec from to) as (Hf & Ht & _). fold head in Hf, Ht.
  destruct (headOf_spec (rev (drop head from)) (rev (drop head to))) as (H1 & H2 & H3).
  rewrite !length_rev, !length_drop in *. set (tl := headOf _ _) in *.
  split_and!; [lia|lia|]. intros k Hk. specialize (H3 k Hk).
  rewrite !rev_lookup in H3 by (rewrite length_drop; lia).
  rewrite !length_drop, !lookup_drop in H3.
  replace (length from - S k) with (head + (length from - head - S k)) by lia.
  replace (length to - S k) with (head + (length to - head - S k)) by lia. exact H3.
Qed.

(** The part of the walk: rows before [row] are decided. *)
Record walked (from to : list bytes) (head tail : nat) (m : list Z) (row column : nat) : Prop := {
  w_aligned : aligned m from to;
  w_open : forall i, head + row <= i < length from - tail -> m !! i = Some kNoMatch;
  w_before : forall i j, i < head + row -> m !! i = Some j -> (j < Z.of_nat (head + column))%Z;
  w_after : forall i j, length from - tail <= i -> m !! i = Some j -> (Z.of_nat (length to - tail) <= j)%Z
}.

Lemma walked_skip (from to : list bytes) (head tail : nat) (m : list Z) (row column row' column' : nat) :
  row <= row' -> column <= column' -> head + row' <= length from - tail ->
  walked from to head tail m row column -> walked from to head tail m row' column'.
Proof.
  intros Hr Hc Hb [W1 W2 W3 W4]. split; [done| | |done].
  - intros i Hi. apply W2. lia.
  - intros i j Hi Hm. destruct (decide (i < head + row)).
    + specialize (W3 i j ltac:(done) Hm). lia.
    + rewrite W2 in Hm by lia. injection Hm as <-. unfold kNoMatch. lia.
Qed.

Lemma walked_pair (from to : list bytes) (head tail : nat) (m : list Z) (row column : nat) :
  head + row < length from - tail -> head + column < length to - tail ->
  from !! (head + row) = to !! (head + column) ->
  walked from to head tail m row column ->
  walked from to head tail (<[head + row := Z.of_nat (head + column)]> m) (S row) (S column).
Proof.
  intros Hr Hc He [[A1 A2 A3] W2 W3 W4].
  assert (forall i j, <[head + row := Z.of_nat (head + column)]> m !! i = Some j ->
    (i = head + row /\ j = Z.of_nat (head + column)) \/ (i <> head + row /\ m !! i = Some j)) as Hins.
  { intros i j Hi. apply list_lookup_insert_Some in Hi as [(-> & -> & _)|[Hne Hi]]; [by left|by right]. }
  split; [split| | |].
  - by rewrite length_insert.
  - intros i j Hi. apply Hins in Hi as [[-> ->]|[_ Hi]]; [right|by apply A2].
    rewrite Nat2Z.id. split; [lia|done].
  - intros i i' j j' Hlt Hi Hi' Hj Hj'.
    apply Hins in Hi as [[-> ->]|[Hne Hi]], Hi' as [[-> ->]|[Hne' Hi']]; [lia| | |by eapply A3].
    + destruct (decide (i' < length from - tail)).
      * rewrite W2 in Hi' by lia. by injection Hi' as <-.
      * specialize (W4 i' j' ltac:(lia) Hi'). lia.
    + specialize (W3 i j ltac:(lia) Hi). lia.
  - intros i Hi. rewrite list_lookup_insert_ne by lia. apply W2. lia.
  - intros i j Hi Hm. apply Hins in Hm as [[-> ->]|[Hne Hm]]; [lia|]. specialize (W3 i j ltac:(lia) Hm). lia.
  - intros i j Hi Hm. apply Hins in Hm as [[-> ->]|[Hne Hm]]; [lia|]. by eapply W4.
Qed.

Lemma nth_eq_lookup (l k : list bytes) (i j : nat) : i < length l -> j < length k ->
  nth i l [] = nth j k [] -> l !! i = k !! j.
Proof.
  intros Hi Hj E. destruct (lookup_lt_is_Some_2 l i Hi) as [x Hx], (lookup_lt_is_Some_2 k j Hj) as [y Hy].
  rewrite (nth_lookup_Some _ _ _ _ Hx), (nth_lookup_Some _ _ _ _ Hy) in E. congruence.
Qed.

Lemma walk_aligned (from to : list bytes) (lengths : list (list nat)) (head tail : nat) (fuel : nat) :
  forall m row column, head + tail <= length from -> head + tail <= length to ->
  row <= length from - head - tail -> column <= length to - head - tail ->
  walked from to head tail m row column ->
  aligned (walk fuel from to lengths head (length from - head - tail) (length to - head - tail) m row column) from to.
Proof.
  induction fuel as [|f IH]; intros m row column H1 H2 Hr Hc W; cbn [walk]; [apply W|].
  destruct (Nat.ltb_spec row (length from - head - tail)), (Nat.ltb_spec column (length to - head - tail));
    cbn [andb]; try apply W.
  case_bool_decide as E.
  - apply IH; [lia..|]. apply walked_pair; [lia|lia| |done]. apply nth_eq_lookup; [lia|lia|done].
  - destruct (_ <=? _); apply IH; try lia; eapply walked_skip; try exact W; lia.
Qed.

Lemma matchLines_start (from to : list bytes) : let head := headOf from to in let tail := tailOf from to head in
  walked from to head tail
    (imap (fun i _ => if i <? head then Z.of_nat i
                      else if length from - tail <=? i then Z.of_nat (length to - (length from - i)) else kNoMatch) from) 0 0.
Proof.
  cbn zeta. set (head := headOf from to). set (tail := tailOf from to head).
  destruct (headOf_spec from to) as (Hf & Ht & Hh). fold head in Hf, Ht, Hh.
  pose proof (tailOf_spec from to) as HT. cbn zeta in HT. fold head in HT. fold tail in HT. destruct HT as (T1 & T2 & T3).
  set (F := fun (i : nat) (_ : bytes) => _).
  assert (forall i j, imap F from !! i = Some j -> i < length from /\ j = F i []) as HF.
  { intros i j Hi. rewrite list_lookup_imap in Hi. destruct (from !! i) as [x|] eqn:E; [|done].
    cbn in Hi. injection Hi as <-. split; [by eapply lookup_lt_Some|done]. }
  unfold F in HF at 2. split; [split| | |].
  - apply length_imap.
  - intros i j Hi. apply HF in Hi as [Hl ->]. destruct (Nat.ltb_spec i head) as [Hlt|].
    { right. rewrite Nat2Z.id. split; [lia|by apply Hh]. }
    destruct (Nat.leb_spec (length from - tail) i) as [Hle|]; [right|by left].
    rewrite Nat2Z.id. split; [lia|]. specialize (T3 (length from - S i) ltac:(lia)).
    replace (length from - S (length from - S i)) with i in T3 by lia. rewrite T3. f_equal. lia.
  - intros i i' j j' Hlt Hi Hi' Hj Hj'. apply HF in Hi as [Hl ->], Hi' as [Hl' ->]. revert Hj Hj'.
    destruct (Nat.ltb_spec i head), (Nat.ltb_spec i' head), (Nat.leb_spec (length from - tail) i),
      (Nat.leb_spec (length from - tail) i'); intros Hj Hj'; try done; lia.
  - intros i Hi. rewrite list_lookup_imap. destruct (lookup_lt_is_Some_2 from i ltac:(lia)) as [x ->]. cbn. unfold F.
    destruct (Nat.ltb_spec i head); [lia|]. destruct (Nat.leb_spec (length from - tail) i); [lia|done].
  - intros i j Hi Hm. apply HF in Hm as [Hl ->]. destruct (Nat.ltb_spec i head); lia.
  - intros i j Hi Hm. apply HF in Hm as [Hl ->]. destruct (Nat.ltb_spec i head); [lia|].
    destruct (Nat.leb_spec (length from - tail) i); lia.
Qed.

Lemma matchLines_aligned (from to : list bytes) (m : list Z) : matchLines from to = Some m -> aligned m from to.
Proof.
  unfold matchLines. pose proof (matchLines_start from to) as W. cbn zeta in W.
  pose proof (tailOf_spec from to) as (T1 & T2 & _). cbn zeta.
  destruct ((_ =? 0) || _); [intros [= <-]; apply W|]. destruct (_ <? _)%Z; [done|]. intros [= <-].
  apply walk_aligned; [done|done|lia|lia|exact W].
Qed.

(** ** The merge *)

(** What becomes of a changed part: one that only one side changed is that
    side's, one that both changed alike is taken once, one that they changed
    differently is a conflict. *)
Definition chunkOf (cb cm ct : list bytes) : option (list bytes) :=
  if decide (ct = cb \/ cm = ct) then Some cm else if decide (cm = cb) then Some ct else None.

(** The three-way merge of texts whose sides are matched with the base, from a
    line of each on. A line of the base that both sides still have is an anchor.
    When it stands at the front of all three, it is kept; otherwise the part up
    to the next anchor, and on each side up to the line it is matched with, has
    changed, and all three end at once. *)
Section Spec.
Context (base mine theirs : list bytes) (mm tm : list Z).

Definition anchor (i : nat) : Prop := i < length base /\ atZ mm i <> kNoMatch /\ atZ tm i <> kNoMatch.
Definition inPlace (b m t : nat) : Prop := b < length base /\ atZ mm b = Z.of_nat m /\ atZ tm b = Z.of_nat t.
Definition nextAnchor (b e : nat) : Prop :=
  b <= e <= length base /\ (forall i, b <= i < e -> ~ anchor i) /\ (e < length base -> anchor e).
(** Where a side is at an anchor, or at the end. *)
Definition sideAt (m : list Z) (to : list bytes) (e : nat) : nat := if e <? length base then Z.to_nat (atZ m e) else length to.
Definition part (l : list bytes) (from to : nat) : list bytes := take (to - from) (drop from l).

Inductive Diff3 : nat -> nat -> nat -> option (list bytes) -> Prop :=
| D_end : Diff3 (length base) (length mine) (length theirs) (Some [])
| D_kept b m t x r : inPlace b m t -> base !! b = Some x -> Diff3 (S b) (S m) (S t) r -> Diff3 b m t (cons x <$> r)
| D_changed b m t e c r : ~ inPlace b m t -> (b < length base \/ m < length mine \/ t < length theirs) -> nextAnchor b e ->
    chunkOf (part base b e) (part mine m (sideAt mm mine e)) (part theirs t (sideAt tm theirs e)) = Some c ->
    Diff3 e (sideAt mm mine e) (sideAt tm theirs e) r -> Diff3 b m t (app c <$> r)
| D_conflict b m t e : ~ inPlace b m t -> (b < length base \/ m < length mine \/ t < length theirs) -> nextAnchor b e ->
    chunkOf (part base b e) (part mine m (sideAt mm mine e)) (part theirs t (sideAt tm theirs e)) = None -> Diff3 b m t None.

Lemma nextAnchor_unique b e e' : nextAnchor b e -> nextAnchor b e' -> e = e'.
Proof.
  intros (B & N & A) (B' & N' & A'). destruct (decide (e < e')).
  - destruct (N' e); [lia|]. apply A. lia.
  - destruct (decide (e' < e)); [|lia]. destruct (N e'); [lia|]. apply A'. lia.
Qed.

(** Texts and matchings have one merge. *)
Lemma Diff3_unique b m t r : Diff3 b m t r -> forall r', Diff3 b m t r' -> r' = r.
Proof.
  induction 1 as [|b m t x r P E _ IH|b m t e c r P W A C _ IH|b m t e P W A C]; intros r' D'; inversion D'; subst; try done.
  all: try match goal with H : nextAnchor ?b ?e1, H' : nextAnchor ?b ?e2 |- _ => pose proof (nextAnchor_unique _ _ _ H H'); subst end.
  all: try (unfold inPlace in *; lia).
  all: repeat match goal with H : ?f = Some ?x, H' : ?f = Some ?y |- _ => rewrite H in H'; injection H' as <- end; try congruence.
  all: f_equal; by apply IH.
Qed.
End Spec.

Lemma slice_ok {A} (l : list A) (a b : nat) : a <= b -> b <= length l -> slice l a b = Ok (take (b - a) (drop a l)).
Proof. intros H1 H2. unfold slice. by destruct (Nat.leb_spec a b), (Nat.leb_spec b (length l)); try lia. Qed.

Lemma drop_slice {A} (l : list A) (a b : nat) : a <= b -> drop a l = take (b - a) (drop a l) ++ drop b l.
Proof.
  intros H. rewrite <- (take_drop (b - a) (drop a l)) at 1. f_equal. rewrite drop_drop. f_equal. lia.
Qed.

Section Loop.
Context (base mine theirs : list bytes) (mm tm : list Z)
  (Hmm : aligned mm base mine) (Htm : aligned tm base theirs).

Lemma atZ_lookup (m : list Z) (to : list bytes) (i : nat) : aligned m base to -> i < length base ->
  m !! i = Some (atZ m i).
Proof.
  intros [A1 _ _] Hi. destruct (lookup_lt_is_Some_2 m i) as [x Hx]; [lia|].
  unfold atZ. by rewrite (nth_lookup_Some _ _ _ _ Hx).
Qed.

(** What is left of the base is matched with what is left of a side. *)
Definition ahead (m : list Z) (b at_ : nat) : Prop :=
  forall i, b <= i < length base -> atZ m i <> kNoMatch -> (Z.of_nat at_ <= atZ m i)%Z.

Record inLoop (b m t : nat) : Prop := {
  il_base : b <= length base; il_mine : m <= length mine; il_theirs : t <= length theirs;
  il_aheadMine : ahead mm b m; il_aheadTheirs : ahead tm b t
}.

Lemma ahead_next (m : list Z) (to : list bytes) (b at_ i : nat) (j : Z) : aligned m base to -> b <= i < length base ->
  atZ m i = j -> j <> kNoMatch -> ahead m (S i) (S (Z.to_nat j)) /\ ahead m i (Z.to_nat j).
Proof using.
  intros A Hi E Hj. subst j.
  destruct (al_pair _ _ _ A i (atZ m i) (atZ_lookup m to i A ltac:(lia))) as [?|[Hp _]]; [done|].
  split; intros i' Hi' Hm'.
  - pose proof (al_mono _ _ _ A i i' (atZ m i) (atZ m i') ltac:(lia) (atZ_lookup m to i A ltac:(lia))
      (atZ_lookup m to i' A ltac:(lia)) Hj Hm'). lia.
  - destruct (decide (i' = i)) as [->|]; [lia|].
    pose proof (al_mono _ _ _ A i i' (atZ m i) (atZ m i') ltac:(lia) (atZ_lookup m to i A ltac:(lia))
      (atZ_lookup m to i' A ltac:(lia)) Hj Hm'). lia.
Qed.

Lemma stable_spec (fuel : nat) : forall b m t, inLoop b m t ->
  let s := stableAt fuel (length base) mm tm b m t in
  inLoop (b + s) (m + s) (t + s) /\
  take s (drop b base) = take s (drop m mine) /\ take s (drop b base) = take s (drop t theirs).
Proof using Hmm Htm.
  induction fuel as [|f IH]; intros b m t Hin; cbn zeta; cbn [stableAt]; [by rewrite !Nat.add_0_r|].
  destruct (Nat.ltb_spec b (length base)); cbn [andb]; [|by rewrite !Nat.add_0_r].
  destruct (Z.eqb_spec (atZ mm b) (Z.of_nat m)) as [Em|]; cbn [andb]; [|by rewrite !Nat.add_0_r].
  destruct (Z.eqb_spec (atZ tm b) (Z.of_nat t)) as [Et|]; cbn [andb]; [|by rewrite !Nat.add_0_r].
  assert (Z.of_nat m <> kNoMatch /\ Z.of_nat t <> kNoMatch) as [Nm Nt] by (unfold kNoMatch; lia).
  destruct (al_pair _ _ _ Hmm b _ (atZ_lookup mm mine b Hmm ltac:(done))) as [?|[Lm Pm]]; [congruence|].
  destruct (al_pair _ _ _ Htm b _ (atZ_lookup tm theirs b Htm ltac:(done))) as [?|[Lt Pt]]; [congruence|].
  rewrite Em, Nat2Z.id in *. rewrite Et, Nat2Z.id in *.
  destruct (ahead_next mm mine b m b _ Hmm ltac:(lia) Em Nm) as [Am _].
  destruct (ahead_next tm theirs b t b _ Htm ltac:(lia) Et Nt) as [At _]. rewrite Nat2Z.id in *.
  destruct (IH (S b) (S m) (S t)) as (I1 & I2 & I3); [split; (lia || done)|].
  rewrite !Nat.add_succ_r. split; [exact I1|].
  destruct (lookup_lt_is_Some_2 base b ltac:(done)) as [x Hx]. rewrite Hx in Pm, Pt.
  rewrite (drop_S _ _ _ Hx), (drop_S _ _ _ (eq_sym Pm)), (drop_S _ _ _ (eq_sym Pt)). cbn [take].
  split; by f_equal.
Qed.

Lemma baseEnd_spec (fuel : nat) : forall b, b <= length base -> length base - b <= fuel ->
  let e := baseEndFrom fuel (length base) mm tm b in
  nextAnchor base mm tm b e.
Proof.
  induction fuel as [|f IH]; intros b Hb Hf; cbn zeta; cbn [baseEndFrom].
  - split; [lia|]. split; intros; lia.
  - destruct (Nat.ltb_spec b (length base)); cbn [andb]; [|split; [lia|split; intros; lia]].
    assert (Step : ~ anchor base mm tm b -> let e := baseEndFrom f (length base) mm tm (S b) in nextAnchor base mm tm b e).
    { intros Na. destruct (IH (S b)) as (I1 & I2 & I3); [lia|lia|]. split; [lia|]. split; [|exact I3].
      intros i Hi. destruct (decide (i = b)) as [->|]; [exact Na|apply I2; lia]. }
    destruct (Z.eqb_spec (atZ mm b) kNoMatch), (Z.eqb_spec (atZ tm b) kNoMatch); cbn [orb]; try (apply Step; intros (_ & ? & ?); congruence).
    split; [lia|]. split; [intros; lia|]. by intros _.
Qed.

(** Where a changed part ends on one side. *)
Lemma sideEnd_spec (m : list Z) (to : list bytes) (b at_ e : nat) : aligned m base to -> ahead m b at_ ->
  at_ <= length to -> b <= e <= length base -> (e < length base -> atZ m e <> kNoMatch) ->
  let e' := if e <? length base then Z.to_nat (atZ m e) else length to in
  at_ <= e' <= length to /\ ahead m e e'.
Proof.
  intros A Ha Hat He Hm e'. subst e'. destruct (Nat.ltb_spec e (length base)) as [Hlt|]; [|split; [lia|intros i Hi; lia]].
  specialize (Hm Hlt). pose proof (Ha e ltac:(lia) Hm).
  destruct (al_pair _ _ _ A e _ (atZ_lookup m to e A Hlt)) as [?|[Hp _]]; [done|].
  split; [lia|]. by destruct (ahead_next m to b at_ e _ A ltac:(lia) eq_refl Hm).
Qed.

(** Without a stable line in place a changed part takes something. *)
Lemma changed_moves (b m t : nat) : inLoop b m t ->
  (b < length base \/ m < length mine \/ t < length theirs) ->
  stableAt (length base - b) (length base) mm tm b m t = 0 ->
  let e := baseEndFrom (length base - b) (length base) mm tm b in
  let em := if e <? length base then Z.to_nat (atZ mm e) else length mine in
  let et := if e <? length base then Z.to_nat (atZ tm e) else length theirs in
  nextAnchor base mm tm b e /\ ~ inPlace base mm tm b m t /\
  inLoop e em et /\ b <= e /\ m <= em /\ t <= et /\ (b < e \/ m < em \/ t < et).
Proof using Hmm Htm.
  intros [I1 I2 I3 I4 I5] Hsome Hst e em et.
  pose proof (baseEnd_spec (length base - b) b I1 ltac:(lia)) as Na. fold e in Na. split; [exact Na|].
  split. { intros (P1 & P2 & P3). revert Hst. replace (length base - b) with (S (length base - b - 1)) by lia. cbn [stableAt].
    destruct (Nat.ltb_spec b (length base)); [|lia]. by rewrite P2, P3, !Z.eqb_refl. }
  destruct Na as (E1 & _ & E2'). assert (E2 : e < length base -> atZ mm e <> kNoMatch /\ atZ tm e <> kNoMatch) by (intros L; apply E2', L). clear E2'.
  destruct (sideEnd_spec mm mine b m e Hmm I4 I2 E1 ltac:(intros H; by apply E2)) as [M1 M2]. fold em in M1, M2.
  destruct (sideEnd_spec tm theirs b t e Htm I5 I3 E1 ltac:(intros H; by apply E2)) as [T1 T2]. fold et in T1, T2.
  split_and!; [split; (lia || done)|lia..|].
  destruct (decide (b < e)); [by left|]. destruct (decide (m < em)); [by right; left|].
  destruct (decide (t < et)); [by right; right|]. exfalso.
  assert (e = b) as Ee by lia. assert (em = m) as Em by lia. assert (et = t) as Et by lia.
  unfold em in Em. unfold et in Et. rewrite Ee in Em, Et, E2.
  destruct (Nat.ltb_spec b (length base)) as [Hlt|]; [|lia].
  destruct (E2 Hlt) as [N1 N2].
  destruct (al_pair _ _ _ Hmm b _ (atZ_lookup mm mine b Hmm Hlt)) as [?|[Pm _]]; [done|].
  destruct (al_pair _ _ _ Htm b _ (atZ_lookup tm theirs b Htm Hlt)) as [?|[Pt _]]; [done|].
  replace (length base - b) with (S (length base - b - 1)) in Hst by lia. cbn [stableAt] in Hst.
  destruct (Nat.ltb_spec b (length base)); [|lia].
  destruct (Z.eqb_spec (atZ mm b) (Z.of_nat m)); [|lia]. destruct (Z.eqb_spec (atZ tm b) (Z.of_nat t)); [done|lia].
Qed.

Definition left_ (b m t : nat) : nat := length base - b + (length mine - m) + (length theirs - t).

Lemma areEqual_ok (x y : list bytes) (a b c d : nat) : a <= b <= length x -> c <= d <= length y ->
  areEqual x a b y c d = Ok (bool_decide (take (b - a) (drop a x) = take (d - c) (drop c y))).
Proof. intros H1 H2. unfold areEqual. rewrite !slice_ok by lia. done. Qed.

Lemma fmap_app_app (l k : list bytes) (r : option (list bytes)) :
  app (l ++ k) <$> r = app l <$> (app k <$> r).
Proof. destruct r; cbn; [by rewrite <- app_assoc|done]. Qed.

Notation merged3 := (Diff3 base mine theirs mm tm).

Lemma kept_run (fuel : nat) : forall b m t r, let s := stableAt fuel (length base) mm tm b m t in
  merged3 (b + s) (m + s) (t + s) r -> merged3 b m t (app (take s (drop b base)) <$> r).
Proof.
  induction fuel as [|f IH]; intros b m t r; cbn zeta; cbn [stableAt]; [rewrite !Nat.add_0_r; by destruct r|].
  destruct (Nat.ltb_spec b (length base)) as [Lb|]; cbn [andb]; [|rewrite !Nat.add_0_r; by destruct r].
  destruct (Z.eqb_spec (atZ mm b) (Z.of_nat m)) as [Em|]; cbn [andb]; [|rewrite !Nat.add_0_r; by destruct r].
  destruct (Z.eqb_spec (atZ tm b) (Z.of_nat t)) as [Et|]; cbn [andb]; [|rewrite !Nat.add_0_r; by destruct r].
  rewrite !Nat.add_succ_r. intros D. destruct (lookup_lt_is_Some_2 base b Lb) as [x Hx]. rewrite (drop_S _ _ _ Hx). cbn [take].
  apply (IH (S b) (S m) (S t) r) in D. apply (D_kept _ _ _ _ _ b m t x) in D; [|by split|done]. by destruct r.
Qed.

Lemma mergeLoop_spec (fuel : nat) : forall b m t merged, inLoop b m t -> left_ b m t < fuel ->
  exists r, mergeLoop fuel base mine theirs mm tm b m t merged = Ok (app merged <$> r) /\ merged3 b m t r.
Proof using Hmm Htm.
  induction fuel as [|f IH]; intros b m t merged Hin Hf; [lia|]. pose proof Hin as [I1 I2 I3 _ _].
  unfold left_ in *. cbn [mergeLoop].
  destruct (negb _) eqn:Edone.
  { apply negb_true_iff in Edone. rewrite !orb_false_iff, !Nat.ltb_ge in Edone.
    exists (Some []). split; [cbn; by rewrite app_nil_r|].
    assert (b = length base /\ m = length mine /\ t = length theirs) as (-> & -> & ->) by lia. constructor. }
  apply negb_false_iff in Edone. rewrite !orb_true_iff, !Nat.ltb_lt in Edone.
  assert (b < length base \/ m < length mine \/ t < length theirs) as Hsome by lia.
  destruct (stable_spec (length base - b) b m t Hin) as (S1 & _ & _). pose proof (kept_run (length base - b) b m t) as Run.
  pose proof (changed_moves b m t Hin Hsome) as Hmoves.
  set (s := stableAt _ _ _ _ _ _ _) in *. destruct (Nat.eqb_spec s 0) as [E0|E0]; cbn [negb].
  - specialize (Hmoves E0). cbn zeta in Hmoves. clear Run.
    set (e := baseEndFrom _ _ _ _ _) in *. fold (sideAt base mm mine e) (sideAt base tm theirs e) in *. clearbody e s.
    destruct Hmoves as (Na & Np & Hin' & M1 & M2 & M3 & M4). pose proof Hin' as [J1 J2 J3 _ _].
    rewrite !areEqual_ok by lia. cbn [rbind].
    pose proof (D_changed base mine theirs mm tm b m t e) as Dc. pose proof (D_conflict base mine theirs mm tm b m t e Np Hsome Na) as Dx.
    unfold chunkOf, part in Dc, Dx. set (cb := take (e - b) (drop b base)) in *.
    set (cm := take (sideAt base mm mine e - m) (drop m mine)) in *. set (ct := take (sideAt base tm theirs e - t) (drop t theirs)) in *.
    destruct (decide (ct = cb \/ cm = ct)) as [E1|E1].
    + assert (bool_decide (ct = cb) || bool_decide (cm = ct) = true) as -> by (rewrite orb_true_iff, !bool_decide_eq_true; tauto).
      rewrite slice_ok by lia. cbn [rbind]. fold cm.
      destruct (IH e (sideAt base mm mine e) (sideAt base tm theirs e) (merged ++ cm) Hin' ltac:(lia)) as (r & -> & HD).
      exists (app cm <$> r). split; [by rewrite fmap_app_app|]. by apply Dc.
    + assert (bool_decide (ct = cb) || bool_decide (cm = ct) = false) as -> by (rewrite orb_false_iff, !bool_decide_eq_false; tauto).
      case_bool_decide as E3.
      * rewrite decide_True in Dc by done. rewrite slice_ok by lia. cbn [rbind]. fold ct.
        destruct (IH e (sideAt base mm mine e) (sideAt base tm theirs e) (merged ++ ct) Hin' ltac:(lia)) as (r & -> & HD).
        exists (app ct <$> r). split; [by rewrite fmap_app_app|]. by apply Dc.
      * rewrite decide_False in Dx by done. exists None. split; [done|]. by apply Dx.
  - destruct S1 as [J1 J2 J3 J4 J5]. rewrite slice_ok by lia. cbn [rbind].
    replace (b + s - b) with s by lia.
    destruct (IH (b + s) (m + s) (t + s) (merged ++ take s (drop b base))) as (r & -> & HD);
      [by split|lia|].
    exists (app (take s (drop b base)) <$> r). split; [by rewrite fmap_app_app|]. by apply Run.
Qed.

Lemma inLoop_start : inLoop 0 0 0.
Proof using Hmm Htm.
  assert (forall m to, aligned m base to -> ahead m 0 0) as H.
  { intros m to A i Hi Hm. destruct (al_pair _ _ _ A i _ (atZ_lookup m to i A ltac:(lia))) as [?|[? _]]; [done|lia]. }
  split; [lia..|by eapply H|by eapply H].
Qed.
End Loop.


(** ** The longest matching *)

(** Common subsequences by their recurrence. *)
Fixpoint lcs (xs : list bytes) : list bytes -> nat :=
  match xs with
  | [] => fun _ => 0
  | x :: xs' =>
      fix inner (ys : list bytes) : nat :=
        match ys with
        | [] => 0
        | y :: ys' => if bool_decide (x = y) then S (lcs xs' ys') else Nat.max (lcs xs' (y :: ys')) (inner ys')
        end
  end.

Lemma lcs_cons (x y : bytes) (xs ys : list bytes) : lcs (x :: xs) (y :: ys) =
  if bool_decide (x = y) then S (lcs xs ys) else Nat.max (lcs xs (y :: ys)) (lcs (x :: xs) ys).
Proof. done. Qed.

Lemma lcs_nil_r (xs : list bytes) : lcs xs [] = 0.
Proof. by destruct xs. Qed.

Lemma sublist_cons_tail (z x : bytes) (zs xs : list bytes) : z :: zs `sublist_of` x :: xs -> zs `sublist_of` xs.
Proof.
  intros H. apply sublist_cons_r in H as [H|(l & [= -> ->] & H)]; [|done].
  etrans; [|exact H]. by apply sublist_cons.
Qed.

Lemma lcs_upper (xs ys zs : list bytes) : zs `sublist_of` xs -> zs `sublist_of` ys -> length zs <= lcs xs ys.
Proof.
  revert ys zs. induction xs as [|x xs IHx]; intros ys zs Hx Hy.
  { apply sublist_nil_r in Hx as ->. cbn. lia. }
  revert zs Hx Hy. induction ys as [|y ys IHy]; intros zs Hx Hy.
  { apply sublist_nil_r in Hy as ->. cbn. lia. }
  rewrite lcs_cons. case_bool_decide as E.
  - destruct zs as [|z zs]; [cbn; lia|]. apply sublist_cons_tail in Hx, Hy. specialize (IHx ys zs Hx Hy). cbn. lia.
  - pose proof (proj1 (sublist_cons_r x zs xs) Hx) as [Hx'|(l & -> & Hx')].
    + specialize (IHx (y :: ys) zs Hx' Hy). lia.
    + pose proof (proj1 (sublist_cons_r y (x :: l) ys) Hy) as [Hy'|(l' & [= <- <-] & _)]; [|done].
      specialize (IHy (x :: l) Hx Hy'). lia.
Qed.

(** The rows of the table hold the recurrence. *)
Fixpoint rowSpec (xs ys : list bytes) : list nat :=
  lcs xs ys :: match ys with [] => [] | _ :: ys' => rowSpec xs ys' end.

Lemma rowSpec_head (xs ys : list bytes) : nth 0 (rowSpec xs ys) 0 = lcs xs ys.
Proof. by destruct ys. Qed.

Lemma rowOf_spec (x : bytes) (xs ys : list bytes) : rowOf x ys (rowSpec xs ys) = rowSpec (x :: xs) ys.
Proof.
  induction ys as [|y ys IH]; [done|]. cbn [rowOf rowSpec]. cbn [tail nth]. rewrite IH.
  rewrite lcs_cons, !rowSpec_head, Nat.add_1_r. done.
Qed.

Lemma rowSpec_nil (ys : list bytes) : rowSpec [] ys = repeat 0 (S (length ys)).
Proof. induction ys as [|y ys IH]; [done|]. cbn [rowSpec]. by rewrite IH. Qed.

Lemma lengthsOf_row (xs ys : list bytes) (r : nat) : r <= length xs ->
  nth r (lengthsOf xs ys) [] = rowSpec (drop r xs) ys.
Proof.
  revert r. induction xs as [|x xs IH]; intros r Hr; cbn [length] in Hr.
  - replace r with 0 by lia. cbn [lengthsOf nth drop]. by rewrite rowSpec_nil.
  - cbn [lengthsOf]. destruct r as [|r]; cbn [nth drop]; [|apply IH; lia].
    rewrite (IH 0) by lia. cbn [drop]. apply rowOf_spec.
Qed.

Lemma rowSpec_nth (xs ys : list bytes) (c : nat) : c <= length ys -> nth c (rowSpec xs ys) 0 = lcs xs (drop c ys).
Proof.
  revert c. induction ys as [|y ys IH]; intros c Hc; cbn [length] in Hc.
  - replace c with 0 by lia. done.
  - destruct c as [|c]; [done|]. cbn [rowSpec nth drop]. apply IH. lia.
Qed.

Lemma cell_spec (xs ys : list bytes) (r c : nat) : r <= length xs -> c <= length ys ->
  cell (lengthsOf xs ys) r c = lcs (drop r xs) (drop c ys).
Proof. intros Hr Hc. unfold cell. rewrite lengthsOf_row by done. by apply rowSpec_nth. Qed.

(** How many lines a matching pairs. *)
Definition isPaired (j : Z) : bool := negb (j =? kNoMatch)%Z.
Definition paired (m : list Z) : nat := length (List.filter isPaired m).

Lemma paired_app (l k : list Z) : paired (l ++ k) = paired l + paired k.
Proof. unfold paired. by rewrite List.filter_app, length_app. Qed.

Lemma paired_insert (m : list Z) (i : nat) (j : Z) : m !! i = Some kNoMatch -> isPaired j = true ->
  paired (<[i := j]> m) = S (paired m).
Proof.
  intros Hi Hj. pose proof (lookup_lt_Some _ _ _ Hi) as Hl.
  rewrite <- (take_drop_middle m i kNoMatch Hi) at 2.
  rewrite (insert_take_drop m i j Hl), !paired_app. unfold paired. cbn [List.filter].
  rewrite Hj. cbn [length]. change (isPaired kNoMatch) with false. cbn [length]. lia.
Qed.

Lemma paired_all (l : list Z) : (forall i j, l !! i = Some j -> j <> kNoMatch) -> paired l = length l.
Proof.
  induction l as [|x l IH]; intros H; [done|]. unfold paired. cbn [List.filter].
  pose proof (H 0 x eq_refl) as Hx. unfold isPaired at 1. destruct (Z.eqb_spec x kNoMatch); [done|]. cbn.
  f_equal. apply IH. intros i j Hi. by apply (H (S i)).
Qed.

Lemma drop_cons_nth (l : list bytes) (i : nat) : i < length l -> drop i l = nth i l [] :: drop (S i) l.
Proof.
  intros Hi. destruct (lookup_lt_is_Some_2 l i Hi) as [x Hx]. rewrite (drop_S _ _ _ Hx).
  by rewrite (nth_lookup_Some _ _ _ _ Hx).
Qed.

Lemma nth_mid (l : list bytes) (h n r : nat) : r < n -> h + n <= length l ->
  nth r (take n (drop h l)) [] = nth (h + r) l [].
Proof.
  intros Hr Hn. destruct (lookup_lt_is_Some_2 l (h + r) ltac:(lia)) as [x Hx].
  rewrite (nth_lookup_Some _ _ _ _ Hx). apply nth_lookup_Some.
  rewrite lookup_take_lt by done. by rewrite lookup_drop.
Qed.

(** The walk pairs as many lines as the recurrence says. *)
Lemma walk_paired (from to : list bytes) (head rows columns : nat) (fuel : nat) :
  let xs := take rows (drop head from) in let ys := take columns (drop head to) in
  forall m row column, head + rows <= length from -> head + columns <= length to -> length m = length from ->
  row <= rows -> column <= columns -> rows - row + (columns - column) <= fuel ->
  (forall i, head + row <= i < head + rows -> m !! i = Some kNoMatch) ->
  paired m + lcs (drop row xs) (drop column ys)
  <= paired (walk fuel from to (lengthsOf xs ys) head rows columns m row column).
Proof.
  intros xs ys. assert (head + rows <= length from -> length xs = rows) as Lx
    by (intros; subst xs; rewrite length_take, length_drop; lia).
  assert (head + columns <= length to -> length ys = columns) as Ly
    by (intros; subst ys; rewrite length_take, length_drop; lia).
  induction fuel as [|f IH]; intros m row column H1 H2 Hl Hr Hc Hf Hm; specialize (Lx H1); specialize (Ly H2);
    cbn [walk].
  { rewrite (drop_ge xs) by lia. cbn. lia. }
  destruct (Nat.ltb_spec row rows) as [Hlr|]; cbn [andb]; [|rewrite (drop_ge xs) by lia; cbn; lia].
  destruct (Nat.ltb_spec column columns) as [Hlc|]; [|rewrite (drop_ge ys), lcs_nil_r by lia; lia].
  rewrite (drop_cons_nth xs row), (drop_cons_nth ys column), lcs_cons by lia.
  assert (nth (head + row) from [] = nth row xs []) as -> by (symmetry; apply nth_mid; lia).
  assert (nth (head + column) to [] = nth column ys []) as -> by (symmetry; apply nth_mid; lia).
  case_bool_decide as E.
  - specialize (IH (<[head + row := Z.of_nat (head + column)]> m) (S row) (S column)).
    rewrite paired_insert in IH; [|by apply Hm; lia|unfold isPaired; apply negb_true_iff, Z.eqb_neq; unfold kNoMatch; lia].
    enough (S (paired m) + lcs (drop (S row) xs) (drop (S column) ys) <=
      paired (walk f from to (lengthsOf xs ys) head rows columns (<[head + row:=Z.of_nat (head + column)]> m) (S row) (S column))) by lia.
    apply IH; [lia..|by rewrite length_insert|lia|lia|lia|]. intros i Hi. rewrite list_lookup_insert_ne by lia. apply Hm. lia.
  - rewrite <- (drop_cons_nth ys column), <- (drop_cons_nth xs row) by lia.
    rewrite !cell_spec by lia. destruct (Nat.leb_spec (lcs (drop row xs) (drop (S column) ys)) (lcs (drop (S row) xs) (drop column ys))).
    + rewrite Nat.max_l by done. apply IH; try lia. intros i Hi. apply Hm. lia.
    + rewrite Nat.max_r by lia. apply IH; try lia. done.
Qed.

Lemma sublist_drop_head (zs l a : list bytes) : zs `sublist_of` l ++ a -> drop (length l) zs `sublist_of` a.
Proof.
  intros (p & q & -> & Hp & Hq)%sublist_app_r. apply sublist_length in Hp.
  rewrite drop_app, (drop_ge p) by lia. etrans; [|exact Hq]. apply sublist_drop.
Qed.

Lemma sublist_take_tail (zs a t : list bytes) : zs `sublist_of` a ++ t ->
  take (length zs - length t) zs `sublist_of` a.
Proof.
  intros (p & q & -> & Hp & Hq)%sublist_app_r. apply sublist_length in Hq.
  rewrite length_app. rewrite take_app_le by lia. etrans; [|exact Hp]. apply sublist_take.
Qed.

Lemma matchLines_longest (from to : list bytes) (m : list Z) (zs : list bytes) : matchLines from to = Some m ->
  zs `sublist_of` from -> zs `sublist_of` to -> length zs <= paired m.
Proof.
  intros Hm Hf Ht. unfold matchLines in Hm. pose proof (matchLines_start from to) as W. cbn zeta in W, Hm.
  destruct (headOf_spec from to) as (Hh1 & Hh2 & Hh). pose proof (tailOf_spec from to) as HT. cbn zeta in HT.
  set (head := headOf from to) in *. set (tail := tailOf from to head) in *. destruct HT as (T1 & T2 & _).
  set (m0 := imap _ from) in *. set (rows := length from - head - tail) in *.
  set (columns := length to - head - tail) in *. clearbody head tail.
  set (xs := take rows (drop head from)). set (ys := take columns (drop head to)).
  assert (length zs <= head + tail + lcs xs ys) as Hub.
  { assert (from = take head from ++ (xs ++ drop (head + rows) from)) as Ef.
    { unfold xs. by rewrite <- drop_drop, !take_drop. }
    assert (to = take head to ++ (ys ++ drop (head + columns) to)) as Et.
    { unfold ys. by rewrite <- drop_drop, !take_drop. }
    rewrite Ef in Hf. rewrite Et in Ht. apply sublist_drop_head in Hf, Ht.
    rewrite length_take_le in Hf, Ht by lia. apply sublist_take_tail in Hf, Ht.
    rewrite !length_drop in Hf, Ht. replace (length from - (head + rows)) with tail in Hf by lia.
    replace (length to - (head + columns)) with tail in Ht by lia.
    pose proof (lcs_upper _ _ _ Hf Ht) as H. rewrite length_take, length_drop in H. lia. }
  assert (head + tail <= paired m0) as Hlow.
  { destruct W as [[A1 _ _] _ _ _].
    assert (m0 = take head m0 ++ (take rows (drop head m0) ++ drop (head + rows) m0)) as E
      by (by rewrite <- drop_drop, !take_drop).
    rewrite E, !paired_app, (paired_all (take head m0)), (paired_all (drop (head + rows) m0)).
    - rewrite length_take_le, length_drop by lia. lia.
    - intros i j Hi. rewrite lookup_drop in Hi. unfold m0 in Hi. rewrite list_lookup_imap in Hi.
      destruct (from !! _) as [x|]; [|done]. cbn [fmap option_fmap option_map] in Hi. injection Hi as <-.
      destruct (Nat.ltb_spec (head + rows + i) head); [lia|].
      destruct (Nat.leb_spec (length from - tail) (head + rows + i)); unfold kNoMatch, rows in *; lia.
    - intros i j Hi. apply lookup_take_Some in Hi as [Hi Hlt]. unfold m0 in Hi. rewrite list_lookup_imap in Hi.
      destruct (from !! _) as [x|]; [|done]. cbn [fmap option_fmap option_map] in Hi. injection Hi as <-.
      destruct (Nat.ltb_spec i head); unfold kNoMatch; lia. }
  destruct ((rows =? 0) || (columns =? 0)) eqn:E0.
  { injection Hm as <-. assert (lcs xs ys = 0) as Hz; [|lia]. apply orb_true_iff in E0 as [E0|E0]; apply Nat.eqb_eq in E0.
    - unfold xs. by rewrite E0, take_0.
    - unfold ys. by rewrite E0, take_0, lcs_nil_r. }
  destruct (_ <? _)%Z; [done|]. injection Hm as <-.
  pose proof (walk_paired from to head rows columns (rows + columns) m0 0 0) as H. cbn zeta in H.
  fold xs ys in H. destruct W as [[A1 _ _] W2 _ _].
  specialize (H ltac:(lia) ltac:(lia) A1 ltac:(lia) ltac:(lia) ltac:(lia) ltac:(intros i Hi; apply W2; unfold rows in Hi; lia)).
  change (drop 0 xs) with xs in H. change (drop 0 ys) with ys in H.
  etrans; [exact Hub|]. etrans; [|exact H]. lia.
Qed.


(** ** Swapping the sides *)

Lemma stableAt_sym (fuel n : nat) (mm tm : list Z) : forall b m t,
  stableAt fuel n tm mm b t m = stableAt fuel n mm tm b m t.
Proof.
  induction fuel as [|f IH]; intros b m t; cbn [stableAt]; [done|]. rewrite IH.
  by destruct (b <? n), (atZ mm b =? Z.of_nat m)%Z, (atZ tm b =? Z.of_nat t)%Z.
Qed.

Lemma baseEndFrom_sym (fuel n : nat) (mm tm : list Z) : forall b,
  baseEndFrom fuel n tm mm b = baseEndFrom fuel n mm tm b.
Proof.
  induction fuel as [|f IH]; intros b; cbn [baseEndFrom]; [done|]. rewrite IH.
  by destruct (atZ mm b =? kNoMatch)%Z, (atZ tm b =? kNoMatch)%Z.
Qed.

Lemma mergeLoop_sym (base mine theirs : list bytes) (mm tm : list Z) (fuel : nat) :
  aligned mm base mine -> aligned tm base theirs -> forall b m t merged, inLoop base mine theirs mm tm b m t ->
  mergeLoop fuel base theirs mine tm mm b t m merged = mergeLoop fuel base mine theirs mm tm b m t merged.
Proof.
  intros Hmm Htm. induction fuel as [|f IH]; intros b m t merged Hin; [done|]. cbn [mergeLoop].
  assert (negb ((b <? length base) || (t <? length theirs) || (m <? length mine))
    = negb ((b <? length base) || (m <? length mine) || (t <? length theirs))) as ->.
  { by destruct (b <? _), (m <? _), (t <? _). }
  destruct (negb _) eqn:Edone; [done|].
  apply negb_false_iff in Edone. rewrite !orb_true_iff, !Nat.ltb_lt in Edone.
  rewrite stableAt_sym, baseEndFrom_sym.
  destruct (stable_spec base mine theirs mm tm Hmm Htm (length base - b) b m t Hin) as (S1 & _).
  pose proof (changed_moves base mine theirs mm tm Hmm Htm b m t Hin ltac:(tauto)) as Hmoves.
  set (s := stableAt _ _ _ _ _ _ _) in *. destruct (Nat.eqb_spec s 0) as [E0|E0]; cbn [negb].
  - specialize (Hmoves E0). cbn zeta in Hmoves.
    set (e := baseEndFrom _ _ _ _ _) in *. set (em := if e <? length base then _ else length mine) in *.
    set (et := if e <? length base then _ else length theirs) in *. clearbody e em et s.
    destruct Hmoves as (_ & _ & Hin' & M1 & M2 & M3 & M4). pose proof Hin as [I1 I2 I3 _ _]. pose proof Hin' as [J1 J2 J3 _ _].
    rewrite !areEqual_ok by lia. cbn [rbind]. rewrite !slice_ok by lia. cbn [rbind].
    set (cb := take (e - b) (drop b base)). set (cm := take (em - m) (drop m mine)).
    set (ct := take (et - t) (drop t theirs)). specialize (IH e em et).
    destruct (bool_decide_reflect (cm = cb)) as [E1|E1], (bool_decide_reflect (ct = cm)) as [E2|E2],
      (bool_decide_reflect (ct = cb)) as [E3|E3], (bool_decide_reflect (cm = ct)) as [E4|E4];
      cbn [orb]; try congruence; rewrite ?IH by done; congruence.
  - pose proof Hin as [I1 _ _ _ _]. destruct (slice base b (b + s)); cbn [rbind]; [by apply IH|done].
Qed.

Lemma inLoop_sym (base mine theirs : list bytes) (mm tm : list Z) (b m t : nat) :
  inLoop base mine theirs mm tm b m t -> inLoop base theirs mine tm mm b t m.
Proof. by intros []. Qed.

(** ** Theorems *)

(** A text with these lines, with or without the last line feed. *)
Definition hasLines (t : bytes) (ls : list bytes) : Prop := t = joinLines ls \/ t = joinLines ls ++ [x0a].

Lemma splitLines_hasLines (t : bytes) : hasLines t (splitLines t).
Proof.
  destruct t as [|c t]; [by left|]. unfold splitLines. set (s := c :: t).
  destruct (endsWithEol s) eqn:E; [right|left; by rewrite join_splitAll].
  rewrite join_splitAll. unfold endsWithEol in E. apply bool_decide_eq_true in E.
  rewrite <- E. symmetry. by apply take_last.
Qed.

(** A matching as good as any: no common subsequence is longer. *)
Definition bestMatch (m : list Z) (from to : list bytes) : Prop :=
  aligned m from to /\ forall zs, zs `sublist_of` from -> zs `sublist_of` to -> length zs <= paired m.

Lemma matchLines_best (from to : list bytes) (m : list Z) : matchLines from to = Some m -> bestMatch m from to.
Proof. intros Hm. split; [by apply matchLines_aligned|]. intros zs. by apply matchLines_longest. Qed.

(** The last line feed is mine. *)
Definition withEol (mine : bytes) (ls : list bytes) : bytes :=
  joinLines ls ++ (if negb (bool_decide (mine = [])) && endsWithEol mine && negb (bool_decide (ls = [])) then [x0a] else []).

(** Claim C3 (merge_is_diff3): merging never leaves its ranges and always ends.
    If one side is the base, or both are the same, the result is the other side.
    Otherwise the lines of both sides are matched with those of the base, by
    matchings as long as any; texts too large for that are a conflict. The result
    is then the only three-way merge along these matchings: lines that both
    sides still have at the place are kept, the part up to the next line that
    both have is taken from the side that changed it, or once when both changed
    it alike, and is a conflict when they changed it differently; in a conflict
    the text stays mine. *)
Theorem merge_is_diff3 (base mine theirs : bytes) :
  let B := normalizeEol base in let M := normalizeEol mine in let T := normalizeEol theirs in
  let conflict := {| text := M; hasConflict := true |} in
  exists r, mergeNotes base mine theirs = Ok r /\
    (M = T \/ T = B -> r = {| text := M; hasConflict := false |}) /\
    (M = B -> r = {| text := T; hasConflict := false |}) /\
    (M <> T -> T <> B -> M <> B ->
      match matchLines (splitLines B) (splitLines M), matchLines (splitLines B) (splitLines T) with
      | Some mm, Some tm =>
          bestMatch mm (splitLines B) (splitLines M) /\ bestMatch tm (splitLines B) (splitLines T) /\
          exists d, (forall d', Diff3 (splitLines B) (splitLines M) (splitLines T) mm tm 0 0 0 d' <-> d' = d) /\
            r = match d with Some ls => {| text := withEol M ls; hasConflict := false |} | None => conflict end
      | _, _ => r = conflict
      end).
Proof.
  intros B M T conflict. unfold mergeNotes. fold B M T. subst conflict. clearbody B M T.
  destruct (bool_decide_reflect (M = T)) as [->|N1]; cbn [orb].
  { eexists. split; [done|]. split_and!; [done|by intros ->|done]. }
  destruct (bool_decide_reflect (T = B)) as [->|N2].
  { eexists. split; [done|]. by split_and!. }
  case_bool_decide as N3.
  { eexists. split; [done|]. split_and!; [by intros [?|?]|done|done]. }
  destruct (matchLines (splitLines B) (splitLines M)) as [mm|] eqn:Em; [|eexists; split; [done|]; split_and!; [by intros [?|?]|done|done]].
  destruct (matchLines (splitLines B) (splitLines T)) as [tm|] eqn:Et; [|eexists; split; [done|]; split_and!; [by intros [?|?]|done|done]].
  apply matchLines_best in Em, Et.
  destruct (mergeLoop_spec (splitLines B) (splitLines M) (splitLines T) mm tm (proj1 Em) (proj1 Et)
    (S (length (splitLines B) + length (splitLines M) + length (splitLines T))) 0 0 0 []) as (d & -> & HD);
    [by apply inLoop_start; [apply Em|apply Et]|unfold left_; lia|].
  cbn [rbind]. assert (app [] <$> d = d) as -> by (by destruct d).
  exists (match d with Some ls => {| text := withEol M ls; hasConflict := false |} | None => {| text := M; hasConflict := true |} end).
  split; [by destruct d|]. split; [by intros [?|?]|]. split; [done|]. intros _ _ _. split; [exact Em|]. split; [exact Et|].
  exists d. split; [|done]. intros d'. split; [by apply Diff3_unique|by intros ->].
Qed.

(** Property (merge_symmetric): who merges does not matter: with the sides
    swapped there is a conflict exactly when there was one, and without one
    both devices end with the same text up to the last line feed. *)
Theorem merge_symmetric (base mine theirs : bytes) :
  exists r r', mergeNotes base mine theirs = Ok r /\ mergeNotes base theirs mine = Ok r' /\
    hasConflict r = hasConflict r' /\
    (hasConflict r = false -> exists ls, hasLines (text r) ls /\ hasLines (text r') ls).
Proof.
  unfold mergeNotes. set (B := normalizeEol base). set (M := normalizeEol mine). set (T := normalizeEol theirs).
  clearbody B M T.
  assert (forall t, exists ls, hasLines t ls /\ hasLines t ls) as Hsame
    by (intros t; exists (splitLines t); split; apply splitLines_hasLines).
  destruct (bool_decide_reflect (M = T)) as [->|N1].
  { rewrite (bool_decide_eq_true_2 (T = T)) by done. cbn [orb]. eexists _, _. do 3 (split; [done|]). intros _. apply Hsame. }
  rewrite (bool_decide_eq_false_2 (T = M)) by congruence. cbn [orb].
  destruct (bool_decide_reflect (T = B)) as [->|N2], (bool_decide_reflect (M = B)) as [->|N3]; try done;
    try (eexists _, _; do 3 (split; [done|]); intros _; apply Hsame).
  destruct (matchLines (splitLines B) (splitLines M)) as [mm|] eqn:Em,
    (matchLines (splitLines B) (splitLines T)) as [tm|] eqn:Et;
    try (eexists _, _; split_and!; done).
  apply matchLines_aligned in Em, Et.
  pose proof (inLoop_start _ _ _ _ _ Em Et) as Hin.
  rewrite (mergeLoop_sym (splitLines B) (splitLines M) (splitLines T) mm tm) by done.
  replace (S (length (splitLines B) + length (splitLines T) + length (splitLines M)))
    with (S (length (splitLines B) + length (splitLines M) + length (splitLines T))) by lia.
  destruct (mergeLoop_spec (splitLines B) (splitLines M) (splitLines T) mm tm Em Et
    (S (length (splitLines B) + length (splitLines M) + length (splitLines T))) 0 0 0 []) as (d & -> & HD);
    [done|unfold left_; lia|].
  cbn [rbind]. destruct d as [ls|]; cbn [fmap option_fmap option_map].
  - eexists _, _. do 3 (split; [done|]). intros _. exists ls. unfold hasLines. cbn [text app].
    split; (destruct (_ && negb _); [by right|left; by rewrite app_nil_r]).
  - eexists _, _. by split_and!.
Qed.

(** Property (matching_longest): the table computes a longest matching: it
    pairs equal lines, its pairs do not cross, and no common subsequence of the
    two texts is longer than the number of its pairs. *)
Theorem matching_longest (from to : list bytes) (m : list Z) : matchLines from to = Some m ->
  aligned m from to /\
  (forall zs, zs `sublist_of` from -> zs `sublist_of` to -> length zs <= paired m).
Proof. intros Hm. split; [by apply matchLines_aligned|]. intros zs. by apply matchLines_longest. Qed.

Lemma matching_longest_witness :
  let from := [ #"a"; #"b"; #"c"; #"d"] in let to := [ #"a"; #"x"; #"c"; #"b"; #"d"] in
  matchLines from to = Some [0; -1; 2; 4]%Z /\
  (aligned [0; -1; 2; 4]%Z from to /\
   (forall zs, zs `sublist_of` from -> zs `sublist_of` to -> length zs <= paired [0; -1; 2; 4]%Z)).
Proof. split; [vm_compute; reflexivity|]. apply matching_longest. vm_compute. reflexivity. Defined.


End Merge.
