(* ===== verification/Order.v ===== *)
(** * Order: three-way comparisons and stable sorting

    What the components that sort share: a comparison [int cmp(a, b)] is an
    [ordering] when it is antisymmetric and transitive; lexicographic products
    and lists of orderings are orderings; [std::stable_sort] with the strict
    part of an ordering gives a sorted permutation that keeps equal elements in
    place. *)

From S2P Require Import Prelude.
From Stdlib Require Import Sorted Permutation.

(** ** Comparisons *)

Definition cmp (a b : Z) : Z := if (a <? b)%Z then -1 else if (b <? a)%Z then 1 else 0.

Definition lex (r s : Z) : Z := if (r =? 0)%Z then s else r.

(** The lexicographic order of sequences. *)
Fixpoint lexList {A} (c : A -> A -> Z) (s t : list A) : Z :=
  match s, t with
  | [], [] => 0
  | [], _ :: _ => -1
  | _ :: _, [] => 1
  | a :: s', b :: t' => lex (c a b) (lexList c s' t')
  end.

Record ordering {A} (P : A -> Prop) (c : A -> A -> Z) : Prop := {
  ord_anti a b : P a -> P b -> c b a = (- c a b)%Z;
  ord_trans a b d : P a -> P b -> P d -> (c a b <= 0)%Z -> (c b d <= 0)%Z -> (c a d <= 0)%Z
}.
Arguments ord_anti {_ _ _} _ _ _ _ _.
Arguments ord_trans {_ _ _} _ _ _ _ _ _ _ _ _.

Section Orderings.
Context {A : Type} (P : A -> Prop).
Implicit Types (c : A -> A -> Z).

Lemma ord_refl c (O : ordering P c) a : P a -> c a a = 0%Z.
Proof. intros Ha. pose proof (ord_anti O a a Ha Ha). lia. Qed.

Lemma ord_lt_l c (O : ordering P c) a b d : P a -> P b -> P d ->
  (c a b < 0)%Z -> (c b d <= 0)%Z -> (c a d < 0)%Z.
Proof.
  intros Ha Hb Hd L1 L2. pose proof (ord_trans O a b d Ha Hb Hd ltac:(lia) L2) as L3.
  destruct (Z.eq_dec (c a d) 0%Z) as [E|?]; [|lia].
  pose proof (ord_anti O a d Ha Hd). pose proof (ord_anti O a b Ha Hb).
  pose proof (ord_trans O b d a Hb Hd Ha L2 ltac:(lia)). lia.
Qed.

Lemma ord_lt_r c (O : ordering P c) a b d : P a -> P b -> P d ->
  (c a b <= 0)%Z -> (c b d < 0)%Z -> (c a d < 0)%Z.
Proof.
  intros Ha Hb Hd L1 L2. pose proof (ord_trans O a b d Ha Hb Hd L1 ltac:(lia)) as L3.
  destruct (Z.eq_dec (c a d) 0%Z) as [E|?]; [|lia].
  pose proof (ord_anti O a d Ha Hd). pose proof (ord_anti O b d Hb Hd).
  pose proof (ord_trans O d a b Hd Ha Hb ltac:(lia) L1). lia.
Qed.

Lemma ordering_lex c1 c2 : ordering P c1 -> ordering P c2 ->
  ordering P (fun a b => lex (c1 a b) (c2 a b)).
Proof.
  intros O1 O2. unfold lex. split.
  - intros a b Ha Hb. rewrite (ord_anti O1 a b Ha Hb), (ord_anti O2 a b Ha Hb).
    destruct (Z.eqb_spec (c1 a b) 0%Z) as [E|E], (Z.eqb_spec (- c1 a b) 0%Z); lia.
  - intros a b d Ha Hb Hd.
    pose proof (ord_trans O1 a b d Ha Hb Hd). pose proof (ord_trans O2 a b d Ha Hb Hd).
    pose proof (ord_lt_l c1 O1 a b d Ha Hb Hd). pose proof (ord_lt_r c1 O1 a b d Ha Hb Hd).
    destruct (Z.eqb_spec (c1 a b) 0%Z), (Z.eqb_spec (c1 b d) 0%Z), (Z.eqb_spec (c1 a d) 0%Z); lia.
Qed.

Lemma ordering_opp c : ordering P c -> ordering P (fun a b => - c a b)%Z.
Proof.
  intros O. split.
  - intros a b Ha Hb. rewrite (ord_anti O a b Ha Hb). lia.
  - intros a b d Ha Hb Hd L1 L2.
    pose proof (ord_anti O a b Ha Hb). pose proof (ord_anti O b d Hb Hd). pose proof (ord_anti O a d Ha Hd).
    pose proof (ord_trans O d b a Hd Hb Ha ltac:(lia) ltac:(lia)). lia.
Qed.

Lemma ordering_list c : ordering P c -> ordering (Forall P) (lexList c).
Proof.
  intros O. split.
  - intros s. induction s as [|a s IH]; intros [|b t] Hs Ht; cbn [lexList]; try lia.
    inversion_clear Hs as [|? ? Ha Hs']. inversion_clear Ht as [|? ? Hb Ht']. unfold lex.
    rewrite (ord_anti O a b Ha Hb), (IH t Hs' Ht').
    destruct (Z.eqb_spec (c a b) 0%Z), (Z.eqb_spec (- c a b) 0%Z); lia.
  - intros s. induction s as [|a s IH]; intros [|b t] [|d u] Hs Ht Hu; cbn [lexList]; try lia.
    inversion_clear Hs as [|? ? Ha Hs']. inversion_clear Ht as [|? ? Hb Ht']. inversion_clear Hu as [|? ? Hd Hu'].
    unfold lex. pose proof (IH t u Hs' Ht' Hu').
    pose proof (ord_trans O a b d Ha Hb Hd).
    pose proof (ord_lt_l c O a b d Ha Hb Hd). pose proof (ord_lt_r c O a b d Ha Hb Hd).
    destruct (Z.eqb_spec (c a b) 0%Z), (Z.eqb_spec (c b d) 0%Z), (Z.eqb_spec (c a d) 0%Z); lia.
Qed.

Lemma ordering_weaken (Q : A -> Prop) c : (forall a, Q a -> P a) -> ordering P c -> ordering Q c.
Proof.
  intros W O. split.
  - intros a b Ha Hb. apply (ord_anti O); auto.
  - intros a b d Ha Hb Hd. apply (ord_trans O); auto.
Qed.

Lemma ordering_ext c c' : (forall a b, P a -> P b -> c' a b = c a b) -> ordering P c -> ordering P c'.
Proof.
  intros E O. split.
  - intros a b Ha Hb. rewrite !E by assumption. apply (ord_anti O); assumption.
  - intros a b d Ha Hb Hd. rewrite !E by assumption. apply (ord_trans O); assumption.
Qed.

Lemma ordering_map {B} (f : A -> B) (Q : B -> Prop) (c : B -> B -> Z) : (forall a, P a -> Q (f a)) ->
  ordering Q c -> ordering P (fun a b => c (f a) (f b)).
Proof.
  intros W O. split.
  - intros a b Ha Hb. apply (ord_anti O); auto.
  - intros a b d Ha Hb Hd. apply (ord_trans O); auto.
Qed.

End Orderings.

Lemma cmp_sign (a b : Z) : cmp a b = Z.sgn (a - b).
Proof. unfold cmp. destruct (Z.ltb_spec a b), (Z.ltb_spec b a); lia. Qed.

Lemma ordering_cmp (P : Z -> Prop) : ordering P cmp.
Proof. split; intros *; rewrite !cmp_sign; lia. Qed.

Lemma cmp_zero (a b : Z) : cmp a b = 0%Z <-> a = b.
Proof. rewrite cmp_sign. lia. Qed.

Lemma lex_zero (r s : Z) : lex r s = 0%Z <-> r = 0%Z /\ s = 0%Z.
Proof. unfold lex. destruct (Z.eqb_spec r 0); lia. Qed.

Lemma lexList_zero {A} (c : A -> A -> Z) (Hc : forall a b, c a b = 0%Z <-> a = b) (s : list A) :
  forall t, lexList c s t = 0%Z <-> s = t.
Proof.
  induction s as [|a s IH]; intros [|b t]; cbn [lexList]; try (split; [discriminate|discriminate]); [tauto|].
  rewrite lex_zero, Hc, IH. split; [intros [-> ->]; reflexivity|intros [= -> ->]; auto].
Qed.

#[export] Hint Resolve ordering_lex ordering_list ordering_cmp ordering_opp : orders.

(** ** [std::stable_sort], by insertion *)

Section StableSort.
Context {A : Type}.

Fixpoint insertSorted (less : A -> A -> bool) (x : A) (l : list A) : list A :=
  match l with
  | [] => [x]
  | y :: l' => if less y x then y :: insertSorted less x l' else x :: y :: l'
  end.

Definition stableSort (less : A -> A -> bool) (l : list A) : list A := foldr (insertSorted less) [] l.

Lemma insertSorted_perm less (x : A) (l : list A) : Permutation (insertSorted less x l) (x :: l).
Proof.
  induction l as [|y l IH]; cbn [insertSorted]; [reflexivity|].
  destruct (less y x); [|reflexivity]. rewrite IH. apply perm_swap.
Qed.

Lemma stableSort_perm less (l : list A) : Permutation (stableSort less l) l.
Proof. induction l as [|x l IH]; [reflexivity|]. cbn. rewrite insertSorted_perm, IH. reflexivity. Qed.

Context (P : A -> Prop) (c : A -> A -> Z) (O : ordering P c) (less : A -> A -> bool)
  (L : forall a b, P a -> P b -> less a b = (c a b <? 0)%Z).

Lemma stableSort_Forall (l : list A) : Forall P l -> Forall P (stableSort less l).
Proof using. intros H. rewrite (stableSort_perm less l). exact H. Qed.

Lemma insertSorted_sorted (x : A) (l : list A) : P x -> Forall P l ->
  StronglySorted (fun a b => (c a b <= 0)%Z) l -> StronglySorted (fun a b => (c a b <= 0)%Z) (insertSorted less x l).
Proof using O L.
  intros Hx. induction l as [|y l IH]; intros Hl S; [repeat constructor|].
  inversion_clear Hl as [|? ? Hy Hl']. inversion_clear S as [|? ? S' F]. cbn [insertSorted].
  rewrite (L y x Hy Hx). destruct (Z.ltb_spec (c y x) 0%Z) as [C|C].
  - constructor; [apply IH; assumption|]. rewrite (insertSorted_perm less x l). constructor; [lia|exact F].
  - assert (C' : (c x y <= 0)%Z) by (pose proof (ord_anti O x y Hx Hy); lia).
    constructor; [constructor; assumption|]. constructor; [exact C'|].
    rewrite Forall_forall in F, Hl' |- *. intros z Hz. apply (ord_trans O x y z); auto.
Qed.

Lemma stableSort_sorted (l : list A) : Forall P l ->
  StronglySorted (fun a b => (c a b <= 0)%Z) (stableSort less l).
Proof using O L.
  induction l as [|x l IH]; intros H; [constructor|]. inversion_clear H as [|? ? Hx Hl].
  cbn. apply insertSorted_sorted; [exact Hx|apply stableSort_Forall; exact Hl|apply IH; exact Hl].
Qed.

(** Inserting before the elements that are not smaller keeps equal elements in
    the order they had. *)
Lemma insertSorted_stable (z x : A) (l : list A) : P z -> P x -> Forall P l ->
  List.filter (fun a => (c z a =? 0)%Z) (insertSorted less x l) =
  List.filter (fun a => (c z a =? 0)%Z) (x :: l).
Proof using O L.
  intros Hz Hx. induction l as [|y l IH]; intros H; [reflexivity|]. inversion_clear H as [|? ? Hy Hl].
  cbn [insertSorted]. rewrite (L y x Hy Hx). destruct (Z.ltb_spec (c y x) 0%Z) as [C|C]; [|reflexivity].
  cbn [List.filter] in IH |- *. rewrite IH by exact Hl.
  destruct (Z.eqb_spec (c z y) 0%Z) as [E1|_], (Z.eqb_spec (c z x) 0%Z) as [E2|_]; try reflexivity.
  exfalso. pose proof (ord_lt_r P c O z y x Hz Hy Hx). lia.
Qed.

Lemma stableSort_stable (z : A) (l : list A) : P z -> Forall P l ->
  List.filter (fun a => (c z a =? 0)%Z) (stableSort less l) = List.filter (fun a => (c z a =? 0)%Z) l.
Proof using O L.
  intros Hz. induction l as [|x l IH]; intros H; [reflexivity|]. inversion_clear H as [|? ? Hx Hl].
  change (stableSort less (x :: l)) with (insertSorted less x (stableSort less l)).
  rewrite insertSorted_stable by (try assumption; apply stableSort_Forall; exact Hl).
  cbn [List.filter]. rewrite IH by exact Hl. reflexivity.
Qed.
End StableSort.

Lemma stableSort_less {A} (c : A -> A -> Z) (less : A -> A -> bool) (l : list A) : ordering (fun _ => True) c ->
  (forall a b, less a b = (c a b <? 0)%Z) -> StronglySorted (fun a b => less b a = false) (stableSort less l).
Proof.
  intros O L. pose proof (stableSort_sorted _ c O less (fun a b _ _ => L a b) l ltac:(apply List.Forall_forall; auto)) as S.
  induction S as [|a l' _ IH F]; constructor; [exact IH|]. revert F. apply Forall_impl. intros b Hb. rewrite L.
  pose proof (ord_anti O a b I I). apply Z.ltb_ge. lia.
Qed.
