(* ===== verification/DayPlan.v ===== *)
(** * DayPlan: the entries of a day

    Module [DayPlan] models the day functions of
    [src/sections/planner_model.cpp]: tasks, deadlines and events of a day, the
    index that collects them for a period in one pass, the conflicts, load and
    free time of a day and the search for free slots. Sums of minutes are
    integers without a bound: the code adds in [int], without an overflow as
    long as the minutes of a day stay below 2^31. The theorem of this file: the
    index has for each day of the period what the functions of a day give. *)

From S2P Require Import Prelude PlannerUtil Calendar Repeat Order PlannerState.
Import Util Calendar Repeats Planner.

#[local] Open Scope Z_scope.

Module DayPlan.

Definition kSlotSearchDays : nat := 7.
Definition kSlotAnswers : nat := 3.
Definition kTitleMinutes : Z := 40.

(** ** Data *)

Record Timed := { mName : bytes; mStart : bytes; mEnd : bytes; mTask : option Task; mEvent : option Event }.

Record Slot := { sStart : Z; sEnd : Z }.
Record BusyGroup := { gStart : Z; gEnd : Z; gItems : list Timed }.

Record DayIndexEntry := {
  dTasks : list Task;
  dEvents : list Event;
  dDeadlines : list Task;
  dIsHoliday : bool;
  dHoliday : option Event;
  dMinutes : Z;
  dTimed : list Timed;
  dUntimed : list Task;
  dAllDay : list Event;
  dConflicts : Z;
  dUnrated : Z
}.

Definition emptyEntry : DayIndexEntry :=
  {| dTasks := []; dEvents := []; dDeadlines := []; dIsHoliday := false; dHoliday := None; dMinutes := 0;
     dTimed := []; dUntimed := []; dAllDay := []; dConflicts := 0; dUnrated := 0 |}.

(** ** Order and time *)

Definition allDayOf (e : Event) : bool := default false (isAllDay e).
Definition holidayOf (e : Event) : bool := default false (isHoliday e).

Definition compareEvents (a b : Event) : bool :=
  if negb (Bool.eqb (allDayOf a) (allDayOf b)) then allDayOf a else blt (eStart a) (eStart b).

Definition sortEvents (l : list Event) : list Event := stableSort compareEvents l.
Definition sortTimed (l : list Timed) : list Timed := stableSort (fun a b => blt (mStart a) (mStart b)) l.

Definition spanOf (t : Timed) : Z * Z := (toMinutes (mStart t), toMinutes (mEnd t)).

Definition crosses (a b : Z * Z) : bool := (a.1 <? b.2) && (b.1 <? a.2).

Fixpoint countCrossing (l : list (Z * Z)) : Z :=
  match l with
  | [] => 0
  | a :: l' => Z.of_nat (length (filter (crosses a) l')) + countCrossing l'
  end.

Definition countTimedConflicts (l : list Timed) : Z := countCrossing (spanOf <$> l).

Definition eventMinutes (e : Event) : Z := toMinutes (eEnd e) - toMinutes (eStart e).

Definition hasStartAndMinutes (t : Task) : bool := truthy (tStart t) && bool_decide (is_Some (minutes t)).

Definition timedEvent (e : Event) : Timed :=
  {| mName := eName e; mStart := eStart e; mEnd := eEnd e; mTask := None; mEvent := Some e |}.
Definition timedTask (t : Task) : Timed :=
  let start := default [] (tStart t) in
  {| mName := name t; mStart := start; mEnd := toTime (toMinutes start + default 0 (minutes t));
     mTask := Some t; mEvent := None |}.

(** ** One day *)

Definition taskOn (day : bytes) (t : Task) : bool :=
  match repeat_ t with Some _ => hasInstanceOn t day | None => bool_decide (tDay t = Some day) end.
Definition taskAt (day : bytes) (t : Task) : Task := match repeat_ t with Some _ => taskInstance t day | None => t end.

Definition getTasksForDay (st : State) (day : bytes) : list Task := taskAt day <$> filter (taskOn day) (tasks st).

Definition isDeadline (day : bytes) (t : Task) : bool :=
  negb (isRepeating t) && bool_decide (due t = Some day) && negb (bool_decide (status t = #"done")).

Definition getDeadlines (st : State) (day : bytes) : list Task := filter (isDeadline day) (tasks st).

Definition eventOn (day : bytes) (e : Event) : bool :=
  match eRepeat e with Some _ => hasInstanceOn e day | None => bool_decide (eDay e = Some day) end.
Definition eventAt (day : bytes) (e : Event) : Event := match eRepeat e with Some _ => eventInstance e day | None => e end.

Definition getEventsForDay (st : State) (day : bytes) : list Event :=
  sortEvents (eventAt day <$> filter (eventOn day) (events st)).

Definition isHolidayOn (st : State) (day : bytes) : bool := existsb holidayOf (getEventsForDay st day).

Definition unrated (l : list Task) : Z := Z.of_nat (length (filter (fun t => minutes t = None) l)).
Definition countUnrated (st : State) (day : bytes) : Z := unrated (getTasksForDay st day).

Definition sumOf {A} (f : A -> Z) (l : list A) : Z := foldl (fun s x => s + f x) 0 l.

Definition taskMinutes (t : Task) : Z := default 0 (minutes t).
Definition eventLoad (e : Event) : Z := if allDayOf e then 0 else eventMinutes e.

Definition getDayLoad (st : State) (day : bytes) : Z :=
  sumOf eventLoad (getEventsForDay st day) + sumOf taskMinutes (getTasksForDay st day).

Definition timedOf (es : list Event) (ts : list Task) : list Timed :=
  sortTimed ((timedEvent <$> filter (fun e => negb (allDayOf e)) es) ++ (timedTask <$> filter hasStartAndMinutes ts)).

Definition getTimedForDay (st : State) (day : bytes) (excludedTaskId : option bytes) : list Timed :=
  timedOf (getEventsForDay st day)
    (filter (fun t => negb (match excludedTaskId with Some k => bool_decide (instanceKey t = k) | None => false end))
       (getTasksForDay st day)).

Definition countConflicts (st : State) (day : bytes) : Z := countTimedConflicts (getTimedForDay st day None).

(** ** The index of a period *)

Notation DayIndex := (gmap bytes DayIndexEntry).

Definition updateDay (day : bytes) (f : DayIndexEntry -> DayIndexEntry) (m : DayIndex) : DayIndex :=
  <[day := f (default emptyEntry (m !! day))]> m.

Definition pushTask (t : Task) (e : DayIndexEntry) (day : bytes) : DayIndexEntry :=
  {| dTasks := dTasks e ++ [taskAt day t]; dEvents := dEvents e; dDeadlines := dDeadlines e;
     dIsHoliday := dIsHoliday e; dHoliday := dHoliday e; dMinutes := dMinutes e + taskMinutes t; dTimed := dTimed e;
     dUntimed := dUntimed e; dAllDay := dAllDay e; dConflicts := dConflicts e; dUnrated := dUnrated e |}.
Definition pushDeadline (t : Task) (e : DayIndexEntry) : DayIndexEntry :=
  {| dTasks := dTasks e; dEvents := dEvents e; dDeadlines := dDeadlines e ++ [t];
     dIsHoliday := dIsHoliday e; dHoliday := dHoliday e; dMinutes := dMinutes e; dTimed := dTimed e;
     dUntimed := dUntimed e; dAllDay := dAllDay e; dConflicts := dConflicts e; dUnrated := dUnrated e |}.
Definition pushEvent (v : Event) (e : DayIndexEntry) (day : bytes) : DayIndexEntry :=
  {| dTasks := dTasks e; dEvents := dEvents e ++ [eventAt day v]; dDeadlines := dDeadlines e;
     dIsHoliday := holidayOf v || dIsHoliday e; dHoliday := dHoliday e; dMinutes := dMinutes e + eventLoad v;
     dTimed := dTimed e; dUntimed := dUntimed e; dAllDay := dAllDay e; dConflicts := dConflicts e;
     dUnrated := dUnrated e |}.

Section Period.
Context (fromDay toDay : bytes).

(** A missing or empty day is not inside. *)
Definition isInside (day : option bytes) : bool :=
  truthy day && ble fromDay (default [] day) && ble (default [] day) toDay.

Definition daysOfEntry `{Entry T} (x : T) : list bytes :=
  match repeatOf x with
  | Some _ => expandInstances x fromDay toDay
  | None => if isInside (dayOf x) then [default [] (dayOf x)] else []
  end.

Definition indexTask (m : DayIndex) (t : Task) : DayIndex :=
  let m := foldl (fun m day => updateDay day (fun e => pushTask t e day) m) m (daysOfEntry t) in
  if negb (isRepeating t) && negb (bool_decide (status t = #"done")) && isInside (due t)
  then updateDay (default [] (due t)) (pushDeadline t) m else m.

Definition indexEvent (m : DayIndex) (v : Event) : DayIndex :=
  foldl (fun m day => updateDay day (fun e => pushEvent v e day) m) m (daysOfEntry v).

Definition finishEntry (e : DayIndexEntry) : DayIndexEntry :=
  let es := sortEvents (dEvents e) in
  let timed := timedOf es (dTasks e) in
  {| dTasks := dTasks e; dEvents := es; dDeadlines := dDeadlines e; dIsHoliday := dIsHoliday e;
     dHoliday := match List.find holidayOf es with Some v => Some v | None => dHoliday e end; dMinutes := dMinutes e;
     dTimed := timed; dUntimed := dUntimed e ++ filter (fun t => negb (hasStartAndMinutes t)) (dTasks e);
     dAllDay := dAllDay e ++ filter allDayOf es; dConflicts := countTimedConflicts timed;
     dUnrated := dUnrated e + unrated (dTasks e) |}.

Definition buildDayIndex (st : State) : DayIndex :=
  finishEntry <$> foldl indexEvent (foldl indexTask ∅ (tasks st)) (events st).
End Period.

Definition getDayIndex (st : State) (fromDay toDay : bytes) : DayIndex := buildDayIndex fromDay toDay st.

Definition getDayEntry (st : State) (day : bytes) : DayIndexEntry :=
  default emptyEntry (getDayIndex st day day !! day).

(** ** Free time *)

Fixpoint mergeBusy (busy : list Slot) (l : list Slot) : list Slot :=
  match l with
  | [] => busy
  | s :: l' =>
      match list.last busy with
      | Some b =>
          if sStart s <=? sEnd b
          then mergeBusy (removelast busy ++ [{| sStart := sStart b; sEnd := Z.max (sEnd b) (sEnd s) |}]) l'
          else mergeBusy (busy ++ [s]) l'
      | None => mergeBusy [s] l'
      end
  end.

(** The gaps before and between busy slots, and where the last one ends. *)
Definition gapsOf (cursor : Z) (busy : list Slot) : list Slot * Z :=
  foldl (fun p s => (if p.2 <? sStart s then p.1 ++ [{| sStart := p.2; sEnd := sStart s |}] else p.1,
                     Z.max p.2 (sEnd s))) ([], cursor) busy.

Definition clipped (dayStart dayEnd : Z) (l : list Timed) : list Slot :=
  filter (fun s => sStart s < sEnd s)
    ((fun t => {| sStart := Z.max dayStart (toMinutes (mStart t)); sEnd := Z.min dayEnd (toMinutes (mEnd t)) |}) <$> l).

Definition startLess (a b : Slot) : bool := sStart a <? sStart b.

Definition pushGroup (groups : list BusyGroup) (t : Timed) : list BusyGroup :=
  let from := toMinutes (mStart t) in
  let until := toMinutes (mEnd t) in
  let '(front, g) :=
    match list.last groups with
    | Some g => if gEnd g <=? from then (groups, {| gStart := from; gEnd := until; gItems := [] |})
                else (removelast groups, g)
    | None => (groups, {| gStart := from; gEnd := until; gItems := [] |})
    end in
  front ++ [{| gStart := gStart g; gEnd := Z.max (gEnd g) until; gItems := gItems g ++ [t] |}].

Record DayAvailability := { freeSlots : list Slot; groups : list BusyGroup; freeMinutes : Z }.

Definition availabilityOf (s : Settings) (timed : list Timed) : DayAvailability :=
  let busy := mergeBusy [] (stableSort startLess (clipped (dayStart s) (dayEnd s) timed)) in
  let '(gaps, cursor) := gapsOf (dayStart s) busy in
  let free := gaps ++ (if cursor <? dayEnd s then [{| sStart := cursor; sEnd := dayEnd s |}] else []) in
  {| freeSlots := free; groups := foldl pushGroup [] timed; freeMinutes := sumOf (fun f => sEnd f - sStart f) free |}.

Definition getDayAvailability (st : State) (day : bytes) : DayAvailability :=
  availabilityOf (settings st) (getTimedForDay st day None).

(** ** Slots for a task *)

Record SlotAnswer := { aDay : bytes; aStart : bytes; aEnd : bytes }.

(** The first gap of [need] minutes between busy slots. *)
Fixpoint firstGap (need cursor : Z) (busy : list Slot) : option Z :=
  match busy with
  | [] => None
  | s :: l => if need <=? sStart s - cursor then Some cursor else firstGap need (Z.max cursor (sEnd s)) l
  end.

Definition slotOn (st : State) (task : Task) (need : Z) (day : bytes) : option Z :=
  let ownLoad := if bool_decide (tDay task = Some day) then need else 0 in
  if budget st <? getDayLoad st day - ownLoad + need then None
  else
    let s := settings st in
    let busy := stableSort startLess
                  (clipped (dayStart s) (dayEnd s) (getTimedForDay st day (Some (instanceKey task)))) in
    firstGap need (dayStart s) (busy ++ [{| sStart := dayEnd s; sEnd := dayEnd s |}]).

Fixpoint searchDays (st : State) (task : Task) (need : Z) (base : bytes) (n : nat) (offset : Z) (answers : list SlotAnswer)
  : list SlotAnswer :=
  match n with
  | O => answers
  | S n' =>
      if (kSlotAnswers <=? length answers)%nat then answers
      else
        let day := addDays base offset in
        if truthy (due task) && blt (default [] (due task)) day then answers
        else
          searchDays st task need base n' (offset + 1)
            match slotOn st task need day with
            | Some c => answers ++ [{| aDay := day; aStart := toTime c; aEnd := toTime (c + need) |}]
            | None => answers
            end
  end.

Definition searchBase (task : Task) (today picked : bytes) : bytes :=
  if truthy (tDay task) && ble today (default [] (tDay task)) then default [] (tDay task)
  else if ble today picked then picked else today.

Definition findSlots (st : State) (task : Task) (today picked : bytes) : list SlotAnswer :=
  match minutes task with
  | Some need => if need =? 0 then [] else searchDays st task need (searchBase task today picked) kSlotSearchDays 0 []
  | None => []
  end.

(** ** Lemmas *)

Lemma sumOf_from {A} (f : A -> Z) (l : list A) : forall s, foldl (fun s x => s + f x) s l = s + sumOf f l.
Proof.
  unfold sumOf. induction l as [|x l IH]; intros s; cbn [foldl]; [lia|]. rewrite IH, (IH (0 + f x)). lia.
Qed.

Lemma sumOf_cons {A} (f : A -> Z) (x : A) (l : list A) : sumOf f (x :: l) = f x + sumOf f l.
Proof. unfold sumOf at 1. cbn [foldl]. rewrite sumOf_from. lia. Qed.

Lemma sumOf_perm {A} (f : A -> Z) (l k : list A) : l ≡ₚ k -> sumOf f l = sumOf f k.
Proof. induction 1; rewrite ?sumOf_cons; lia. Qed.

Lemma sumOf_map {A B} (f : B -> Z) (g : A -> B) (h : A -> Z) (l : list A) : (forall x, f (g x) = h x) ->
  sumOf f (g <$> l) = sumOf h l.
Proof. intros E. induction l as [|x l IH]; [done|]. by rewrite fmap_cons, !sumOf_cons, IH, E. Qed.

Lemma existsb_perm {A} (f : A -> bool) (l k : list A) : l ≡ₚ k -> existsb f l = existsb f k.
Proof.
  intros P. apply eq_true_iff_eq. rewrite !existsb_exists. setoid_rewrite <- list_elem_of_In. by setoid_rewrite P.
Qed.

(** *** The index as a function of the day *)

Definition entryAt (m : DayIndex) (day : bytes) : DayIndexEntry := default emptyEntry (m !! day).

Lemma entryAt_update (m : DayIndex) (x day : bytes) (f : DayIndexEntry -> DayIndexEntry) :
  entryAt (updateDay x f m) day = if bool_decide (x = day) then f (entryAt m day) else entryAt m day.
Proof.
  unfold entryAt, updateDay. case_bool_decide as E; [subst; by rewrite lookup_insert_eq|by rewrite lookup_insert_ne].
Qed.

Lemma entryAt_updates (f : DayIndexEntry -> bytes -> DayIndexEntry) (days : list bytes) (day : bytes) : NoDup days ->
  forall m, entryAt (foldl (fun m d => updateDay d (fun e => f e d) m) m days) day
  = if bool_decide (day ∈ days) then f (entryAt m day) day else entryAt m day.
Proof.
  induction 1 as [|d days N Nd IH]; intros m; cbn [foldl]; [by rewrite bool_decide_eq_false_2 by set_solver|].
  rewrite IH, entryAt_update. destruct (bool_decide_reflect (day ∈ days)), (bool_decide_reflect (d = day)); subst; [done|..].
  - by rewrite bool_decide_eq_true_2 by set_solver.
  - by rewrite bool_decide_eq_true_2 by set_solver.
  - by rewrite bool_decide_eq_false_2 by set_solver.
Qed.

Lemma NoDup_keysBetween (a b : Parts) : keyDate a -> keyDate b -> NoDup (keysBetween a b).
Proof.
  intros Ka Kb. unfold keysBetween. apply NoDup_fmap_on.
  - intros x y Hx Hy E. apply (keysBetween_keyDay a b) in Hx, Hy; try done.
    by rewrite <- (epochDays_keyOfEpoch x), E, epochDays_keyOfEpoch.
  - unfold daysBetween. pose proof (upTo_sorted (daysOf a) (Z.to_nat (daysOf b - daysOf a + 1))) as S.
    induction S as [|x l S IH F]; constructor; [|done]. intros Hx. rewrite Forall_elem in F. specialize (F x Hx). lia.
Qed.

Section Inside.
Context (a b : Parts) (Ka : keyDate a) (Kb : keyDate b) (e : Z) (He : daysOf a <= e <= daysOf b).
Notation day := (keyOfEpoch e).

Lemma key_inside : keyDay e.
Proof. destruct (keyOf_epoch a Ka) as [_ A], (keyOf_epoch b Kb) as [_ B]. unfold keyDay in *. lia. Qed.

Lemma isInside_day : isInside (keyOf a) (keyOf b) (Some day) = true.
Proof.
  pose proof key_inside as Ke. destruct (keyOf_epoch a Ka) as [<- A], (keyOf_epoch b Kb) as [<- B].
  unfold isInside, ble. cbn [from_option Datatypes.id]. rewrite !blt_keyOfEpoch by done.
  assert (truthy (Some day) = true) as ->.
  { rewrite keyOfEpoch_eq, keyOf_eq by (by apply keyDay_iff). done. }
  rewrite !(proj2 (Z.ltb_ge _ _)) by lia. done.
Qed.

Lemma day_listed : day ∈ keysBetween a b.
Proof. unfold keysBetween, daysBetween. apply list_elem_of_fmap. exists e. split; [done|]. apply upTo_elem. lia. Qed.

Lemma daysOfEntry_spec `{EntryLaws T} (x : T) : (forall r, repeatOf x = Some r -> wellFormed r) ->
  NoDup (daysOfEntry (keyOf a) (keyOf b) x) /\
  bool_decide (day ∈ daysOfEntry (keyOf a) (keyOf b) x)
  = match repeatOf x with Some _ => hasInstanceOn x day | None => bool_decide (dayOf x = Some day) end.
Proof.
  intros W. unfold daysOfEntry. destruct (repeatOf x) as [r|] eqn:R.
  - rewrite (expandInstances_days x r a b) by eauto. split; [by apply list.NoDup_filter, NoDup_keysBetween|].
    apply eq_true_iff_eq. rewrite bool_decide_eq_true, list_elem_of_filter, Is_true_true.
    split; [tauto|]. intros A. split; [done|apply day_listed].
  - destruct (dayOf x) as [d|]; [|split; [constructor|by rewrite bool_decide_eq_false_2 by set_solver]].
    cbn [from_option Datatypes.id]. destruct (isInside _ _ (Some d)) eqn:I; (split; [first [apply NoDup_singleton|constructor]|]).
    + apply bool_decide_ext. rewrite list_elem_of_singleton. split; congruence.
    + apply bool_decide_ext. split; [set_solver|]. intros [= ->]. by rewrite isInside_day in I.
Qed.

Lemma entryAt_task (m : DayIndex) (t : Task) : (forall r, repeat_ t = Some r -> wellFormed r) ->
  entryAt (indexTask (keyOf a) (keyOf b) m t) day =
  let x := if taskOn day t then pushTask t (entryAt m day) day else entryAt m day in
  if isDeadline day t then pushDeadline t x else x.
Proof.
  intros W. pose proof (daysOfEntry_spec (T := Task) t) as D. destruct (D W) as [N D1]. clear D. rename D1 into D. unfold indexTask. cbn zeta.
  set (m1 := foldl _ m _). assert (E1 : entryAt m1 day = if taskOn day t then pushTask t (entryAt m day) day else entryAt m day).
  { subst m1. rewrite (entryAt_updates (fun e => pushTask t e)) by done. unfold taskOn.
    by rewrite D. }
  unfold isDeadline. destruct (negb (isRepeating t)); cbn [andb]; [|done].
  destruct (negb (bool_decide (status t = #"done"))); cbn [andb]; [rewrite andb_true_r|by rewrite andb_false_r].
  destruct (due t) as [d|]; cbn [from_option Datatypes.id]; [|done]. clear D. case_bool_decide as E.
  - injection E as ->. rewrite isInside_day, entryAt_update, bool_decide_eq_true_2, E1 by done. done.
  - destruct (isInside _ _ _); [|done]. rewrite entryAt_update, bool_decide_eq_false_2 by congruence. done.
Qed.

Lemma entryAt_event (m : DayIndex) (v : Event) : (forall r, eRepeat v = Some r -> wellFormed r) ->
  entryAt (indexEvent (keyOf a) (keyOf b) m v) day =
  if eventOn day v then pushEvent v (entryAt m day) day else entryAt m day.
Proof.
  intros W. pose proof (daysOfEntry_spec (T := Event) v) as D. destruct (D W) as [N D1]. clear D. rename D1 into D. unfold indexEvent.
  rewrite (entryAt_updates (fun e => pushEvent v e)) by done. by rewrite D.
Qed.

Definition tasksInto (e : DayIndexEntry) (ts : list Task) : DayIndexEntry :=
  {| dTasks := dTasks e ++ (taskAt day <$> filter (taskOn day) ts); dEvents := dEvents e;
     dDeadlines := dDeadlines e ++ filter (isDeadline day) ts; dIsHoliday := dIsHoliday e; dHoliday := dHoliday e;
     dMinutes := dMinutes e + sumOf taskMinutes (filter (taskOn day) ts); dTimed := dTimed e; dUntimed := dUntimed e;
     dAllDay := dAllDay e; dConflicts := dConflicts e; dUnrated := dUnrated e |}.

Definition eventsInto (e : DayIndexEntry) (vs : list Event) : DayIndexEntry :=
  {| dTasks := dTasks e; dEvents := dEvents e ++ (eventAt day <$> filter (eventOn day) vs);
     dDeadlines := dDeadlines e; dIsHoliday := existsb holidayOf (filter (eventOn day) vs) || dIsHoliday e;
     dHoliday := dHoliday e; dMinutes := dMinutes e + sumOf eventLoad (filter (eventOn day) vs); dTimed := dTimed e;
     dUntimed := dUntimed e; dAllDay := dAllDay e; dConflicts := dConflicts e; dUnrated := dUnrated e |}.

Lemma index_tasks (ts : list Task) : (forall t r, t ∈ ts -> repeat_ t = Some r -> wellFormed r) ->
  forall m, entryAt (foldl (indexTask (keyOf a) (keyOf b)) m ts) day = tasksInto (entryAt m day) ts.
Proof.
  induction ts as [|t ts IH]; intros W m; cbn [foldl].
  - unfold tasksInto. cbn. rewrite !app_nil_r, Z.add_0_r. by destruct (entryAt m day).
  - rewrite IH, entryAt_task by (intros; eapply W; [|eassumption]; set_solver). unfold tasksInto.
    rewrite !filter_cons. destruct (taskOn day t), (isDeadline day t); cbn zeta;
      rewrite ?(decide_True (P := Is_true true)), ?(decide_False (P := Is_true false)) by (cbn; tauto);
      rewrite ?fmap_cons, ?sumOf_cons; unfold pushTask, pushDeadline;
      cbn [dTasks dEvents dDeadlines dIsHoliday dHoliday dMinutes dTimed dUntimed dAllDay dConflicts dUnrated];
      rewrite <- ?app_assoc, ?Z.add_assoc; done.
Qed.

Lemma index_events (vs : list Event) : (forall v r, v ∈ vs -> eRepeat v = Some r -> wellFormed r) ->
  forall m, entryAt (foldl (indexEvent (keyOf a) (keyOf b)) m vs) day = eventsInto (entryAt m day) vs.
Proof.
  induction vs as [|v vs IH]; intros W m; cbn [foldl].
  - unfold eventsInto. cbn. rewrite !app_nil_r, Z.add_0_r. by destruct (entryAt m day).
  - rewrite IH, entryAt_event by (intros; eapply W; [|eassumption]; set_solver). unfold eventsInto.
    rewrite !filter_cons. destruct (eventOn day v);
      rewrite ?(decide_True (P := Is_true true)), ?(decide_False (P := Is_true false)) by (cbn; tauto);
      rewrite ?fmap_cons, ?sumOf_cons; unfold pushEvent;
      cbn [dTasks dEvents dDeadlines dIsHoliday dHoliday dMinutes dTimed dUntimed dAllDay dConflicts dUnrated existsb];
      rewrite <- ?app_assoc, ?Z.add_assoc; [|done].
    f_equal. by destruct (existsb _ _), (holidayOf v).
Qed.
End Inside.

Lemma taskMinutes_at (day : bytes) (t : Task) : taskMinutes (taskAt day t) = taskMinutes t.
Proof. unfold taskAt. by destruct (repeat_ t). Qed.

Lemma event_at (day : bytes) (v : Event) : eventLoad (eventAt day v) = eventLoad v /\ holidayOf (eventAt day v) = holidayOf v.
Proof. unfold eventAt. by destruct (eRepeat v). Qed.

Lemma existsb_map {A B} (f : B -> bool) (g : A -> B) (h : A -> bool) (l : list A) : (forall x, f (g x) = h x) ->
  existsb f (g <$> l) = existsb h l.
Proof. intros E. induction l as [|x l IH]; [done|]. rewrite fmap_cons. cbn [existsb]. by rewrite IH, E. Qed.

Lemma filter_always {A} (P : A -> bool) (l : list A) : (forall x, P x = true) -> filter P l = l.
Proof. intros E. induction l as [|x l IH]; [done|]. rewrite filter_cons, decide_True, IH by (by rewrite E). done. Qed.

(** Claim C21 (index_is_functions): the index of a period, built in one pass over
    the entries, has for every day of the period what the functions of a day
    give for it: tasks, events in order, deadlines, the holiday, the load, the
    timed entries, the untimed ones, the conflicts and the tasks without an
    estimate. The rules of the entries must be valid. *)
Theorem index_is_functions (st : State) (a b : Parts) (e : Z) :
  (forall t r, t ∈ tasks st -> repeat_ t = Some r -> wellFormed r) ->
  (forall v r, v ∈ events st -> eRepeat v = Some r -> wellFormed r) ->
  keyDate a -> keyDate b -> daysOf a <= e <= daysOf b ->
  let day := keyOfEpoch e in
  let x := default emptyEntry (getDayIndex st (keyOf a) (keyOf b) !! day) in
  dTasks x = getTasksForDay st day /\ dEvents x = getEventsForDay st day /\ dDeadlines x = getDeadlines st day /\
  dIsHoliday x = isHolidayOn st day /\ dHoliday x = List.find holidayOf (getEventsForDay st day) /\
  dMinutes x = getDayLoad st day /\ dTimed x = getTimedForDay st day None /\
  dUntimed x = filter (fun t => negb (hasStartAndMinutes t)) (getTasksForDay st day) /\
  dAllDay x = filter allDayOf (getEventsForDay st day) /\ dConflicts x = countConflicts st day /\
  dUnrated x = countUnrated st day.
Proof.
  intros Wt We Ka Kb He day x. unfold x, getDayIndex, buildDayIndex. rewrite lookup_fmap.
  set (m := foldl (indexEvent (keyOf a) (keyOf b)) _ _).
  assert (default emptyEntry (finishEntry <$> m !! day) = finishEntry (entryAt m day)) as ->
    by (unfold entryAt; by destruct (m !! day)).
  subst m. unfold day. rewrite (index_events a b Ka Kb e He), (index_tasks a b Ka Kb e He) by done. fold day.
  assert (entryAt ∅ day = emptyEntry) as -> by (unfold entryAt; by rewrite lookup_empty).
  unfold finishEntry, eventsInto, tasksInto, emptyEntry.
  cbn [dTasks dEvents dDeadlines dIsHoliday dHoliday dMinutes dTimed dUntimed dAllDay dConflicts dUnrated app].
  fold day (getEventsForDay st day) (getTasksForDay st day). split_and!; try done.
  - unfold isHolidayOn, getEventsForDay, sortEvents. rewrite (existsb_perm _ _ _ (stableSort_perm _ _)), orb_false_r.
    symmetry. apply existsb_map. intros v. apply event_at.
  - by destruct (List.find _ _).
  - unfold getDayLoad. unfold getEventsForDay, sortEvents. rewrite (sumOf_perm _ _ _ (stableSort_perm _ _)).
    rewrite (sumOf_map eventLoad (eventAt day) eventLoad) by (intros; apply event_at). unfold getTasksForDay.
    rewrite (sumOf_map taskMinutes (taskAt day) taskMinutes) by apply taskMinutes_at. lia.
  - unfold getTimedForDay. by rewrite filter_always.
  - unfold countConflicts, getTimedForDay. by rewrite filter_always.
Qed.

(** A period around the sample's series, with a holiday and a deadline in it. *)
Definition dayTask (i : bytes) (d s u : option bytes) (m : option Z) : Task :=
  {| id := i; name := i; description := []; steps := []; status := #"queue"; project := []; rank := 0; tDay := d;
     tStart := s; due := u; minutes := m; repeat_ := None; occurrences := None; origin := None; source := None;
     remind := None; instanceDay := None |}.
Definition dayEvent (i : bytes) (d s e : bytes) (al ho : bool) : Event :=
  {| eId := i; eName := i; eDescription := None; eStart := s; eEnd := e; eDay := Some d; eRepeat := None;
     eOccurrences := None; eOrigin := None; eInstanceDay := None; isAllDay := Some al; isHoliday := Some ho;
     color := None; eRemind := None; eProject := None |}.
Definition weekly : Repeat :=
  {| kind := #"weekly"; interval := 1; weekdays := Some [4]; monthDay := None; startDay := []; endDay := None; count := None |}.
Definition lesson : Event :=
  {| eId := #"l"; eName := #"Lesson"; eDescription := None; eStart := #"10:00"; eEnd := #"11:30"; eDay := None;
     eRepeat := Some weekly; eOccurrences := None; eOrigin := None; eInstanceDay := None; isAllDay := None;
     isHoliday := None; color := None; eRemind := None; eProject := None |}.
Definition dayState : State :=
  {| tasks := [dayTask #"a" (Some #"2026-01-08") (Some #"11:00") None (Some 60); dayTask #"b" None None (Some #"2026-01-08") None;
               dayTask #"c" (Some #"2026-01-08") None None None];
     events := [lesson; dayEvent #"h" #"2026-01-08" #"00:00" #"23:59" true true; dayEvent #"m" #"2026-01-08" #"14:00" #"15:00" false false];
     projects := []; lists := []; budget := 600; settings := defaultSettings; reminded := [] |}.
Definition thursday : Parts := {| year := 2026; month := 1; date := 8 |}.

Lemma dayState_valid :
  (forall t r, t ∈ tasks dayState -> repeat_ t = Some r -> wellFormed r) /\
  (forall v r, v ∈ events dayState -> eRepeat v = Some r -> wellFormed r).
Proof.
  split; cbn; intros x r Hx Hr; repeat (apply elem_of_cons in Hx as [->|Hx]; [try done|]); try by apply elem_of_nil in Hx.
  injection Hr as <-. split; [reflexivity|by left].
Qed.

Lemma index_is_functions_witness :
  let day := keyOfEpoch (daysOf thursday) in
  let x := default emptyEntry (getDayIndex dayState (keyOf thursday) (keyOf thursday) !! day) in
  (dTasks x = getTasksForDay dayState day /\ dEvents x = getEventsForDay dayState day /\
   dDeadlines x = getDeadlines dayState day /\ dIsHoliday x = isHolidayOn dayState day /\
   dHoliday x = List.find holidayOf (getEventsForDay dayState day) /\
   dMinutes x = getDayLoad dayState day /\ dTimed x = getTimedForDay dayState day None /\
   dUntimed x = filter (fun t => negb (hasStartAndMinutes t)) (getTasksForDay dayState day) /\
   dAllDay x = filter allDayOf (getEventsForDay dayState day) /\ dConflicts x = countConflicts dayState day /\
   dUnrated x = countUnrated dayState day) /\
  ((mName <$> dTimed x) = [ #"Lesson"; #"a"; #"m"] /\ dMinutes x = 210 /\ dConflicts x = 1 /\ length (dDeadlines x) = 1%nat).
Proof.
  split; [|vm_compute; by split_and!].
  apply index_is_functions; [apply dayState_valid|apply dayState_valid|by apply keyDate_check..|done].
Defined.

End DayPlan.
