(* ===== verification/FreeTime.v ===== *)
(** * FreeTime: the free slots of a day and the slots found for a task

    Theorems about [getDayAvailability] and [findSlots] of
    [src/sections/planner_model.cpp], defined in [DayPlan]: the free slots are
    exactly the minutes of the day's window that no timed entry covers, in
    order, and a slot found for a task is the earliest that fits. *)

From stdpp Require Import sorting.
From S2P Require Import Prelude PlannerUtil Calendar Repeat Order PlannerState DayPlan.
Import Util Calendar Repeats Planner DayPlan.

#[local] Open Scope Z_scope.

Module FreeTime.

(** ** Minutes covered by slots *)

Definition covers (s : Slot) (m : Z) : Prop := sStart s <= m < sEnd s.
Definition covered (l : list Slot) (m : Z) : Prop := exists s, s ∈ l /\ covers s m.

(** A minute in which a timed entry takes place. *)
Definition busyAt (timed : list Timed) (m : Z) : Prop :=
  exists t, t ∈ timed /\ toMinutes (mStart t) <= m < toMinutes (mEnd t).

Definition byStart : list Slot -> Prop := StronglySorted (fun a b => sStart a <= sStart b).
Definition proper (s : Slot) : Prop := sStart s < sEnd s.

Lemma covered_nil (m : Z) : covered [] m <-> False.
Proof. unfold covered. set_solver. Qed.

Lemma covered_cons (s : Slot) (l : list Slot) (m : Z) : covered (s :: l) m <-> covers s m \/ covered l m.
Proof. unfold covered. set_solver. Qed.

Lemma covered_app (l k : list Slot) (m : Z) : covered (l ++ k) m <-> covered l m \/ covered k m.
Proof. unfold covered. set_solver. Qed.

Lemma covered_perm (l k : list Slot) (m : Z) : l ≡ₚ k -> covered l m <-> covered k m.
Proof. intros P. unfold covered. by setoid_rewrite P. Qed.

Lemma startLess_sorted (l : list Slot) : byStart (stableSort startLess l).
Proof.
  pose proof (stableSort_less (fun a b => cmp (sStart a) (sStart b)) startLess l
    (ordering_map (fun _ => True) sStart (fun _ => True) cmp (fun _ _ => I) (ordering_cmp _))) as S.
  assert (L : forall a b, startLess a b = (cmp (sStart a) (sStart b) <? 0)).
  { intros a b. unfold startLess. rewrite cmp_sign. destruct (Z.ltb_spec (sStart a) (sStart b)); symmetry.
    - apply Z.ltb_lt. lia.
    - apply Z.ltb_ge. lia. }
  specialize (S L). unfold byStart. induction S as [|a k _ IH F]; constructor; [done|].
  eapply list.Forall_impl; [exact F|]. cbn. unfold startLess. intros x Hx. lia.
Qed.

Lemma clipped_covers (lo hi : Z) (timed : list Timed) (m : Z) :
  covered (clipped lo hi timed) m <-> lo <= m < hi /\ busyAt timed m.
Proof.
  unfold covered, clipped, busyAt, covers. split.
  - intros (s & Hs & Hm). apply list_elem_of_filter in Hs as [_ Hs]. apply list_elem_of_fmap in Hs as (t & -> & Ht).
    cbn in Hm. split; [lia|]. exists t. split; [done|lia].
  - intros (Hw & t & Ht & Hm). eexists. split; [apply list_elem_of_filter; split; [|apply list_elem_of_fmap; by exists t]|]; cbn; lia.
Qed.

Lemma clipped_within (lo hi : Z) (timed : list Timed) (s : Slot) : s ∈ clipped lo hi timed -> proper s /\ lo <= sStart s /\ sEnd s <= hi.
Proof.
  unfold clipped, proper. intros [P Hs]%list_elem_of_filter. apply list_elem_of_fmap in Hs as (t & -> & _). cbn in *. lia.
Qed.

(** ** Merged slots and the gaps between them *)

Lemma sorted_snoc (l : list Slot) (s : Slot) : byStart (l ++ [s]) <-> byStart l /\ Forall (fun a => sStart a <= sStart s) l.
Proof.
  unfold byStart. induction l as [|a l IH]; cbn [app].
  - split; [intros _; by split; constructor|]. intros _. by repeat constructor.
  - split.
    + intros S. inversion S as [|? ? S1 F]; subst. apply IH in S1 as [S1 F1]. apply list.Forall_app in F as [F F2].
      inversion F2; subst. split; by constructor.
    + intros [S F]. inversion S; inversion F; subst. constructor; [by apply IH|]. apply list.Forall_app. split; [done|].
      by constructor.
Qed.

Lemma split_last (l : list Slot) (b : Slot) : list.last l = Some b -> l = removelast l ++ [b].
Proof.
  intros E. apply last_Some in E as [k ->]. by rewrite removelast_last.
Qed.

Lemma mergeBusy_spec (l : list Slot) : forall busy, byStart busy -> byStart l -> Forall proper busy -> Forall proper l ->
  (forall b s, b ∈ busy -> s ∈ l -> sStart b <= sStart s) ->
  byStart (mergeBusy busy l) /\ Forall proper (mergeBusy busy l) /\
  forall m, covered (mergeBusy busy l) m <-> covered busy m \/ covered l m.
Proof.
  induction l as [|s l IH]; intros busy Sb Sl Pb Pl B; cbn [mergeBusy].
  { split_and!; [done..|]. intros m. rewrite covered_nil. tauto. }
  inversion Sl as [|? ? Sl' Fl]; inversion Pl as [|? ? Ps Pl']; subst. rewrite Forall_elem in Fl.
  destruct (list.last busy) as [b|] eqn:Lb.
  - pose proof (split_last busy b Lb) as Eb. revert Eb. generalize (removelast busy). intros front Eb.
    assert (Hb : b ∈ busy) by (rewrite Eb; set_solver). pose proof (B b s Hb ltac:(left)) as Bs.
    rewrite Eb in Sb, Pb. apply sorted_snoc in Sb as [Sf Ff]. apply list.Forall_app in Pb as [Pf Pbb].
    rewrite Forall_elem in Pbb. pose proof (Pbb b ltac:(left)) as Pb1. unfold proper in Pb1, Ps.
    destruct (Z.leb_spec (sStart s) (sEnd b)) as [C|C].
    + destruct (IH (front ++ [{| sStart := sStart b; sEnd := Z.max (sEnd b) (sEnd s) |}])) as (I1 & I2 & I3).
      * apply sorted_snoc. split; [done|exact Ff].
      * done.
      * apply list.Forall_app. split; [done|]. constructor; [|done]. unfold proper. cbn. lia.
      * done.
      * intros x y [Hx|Hx%list_elem_of_singleton]%elem_of_app Hy.
        -- apply B; [rewrite Eb; set_solver|by right].
        -- subst x. cbn. specialize (Fl y Hy). lia.
      * split_and!; [done..|]. intros m. rewrite I3, Eb, !covered_app, !covered_cons, covered_nil.
        assert (covers {| sStart := sStart b; sEnd := Z.max (sEnd b) (sEnd s) |} m <-> covers b m \/ covers s m) as ->
          by (unfold covers; cbn; lia). tauto.
    + destruct (IH (busy ++ [s])) as (I1 & I2 & I3).
      * rewrite Eb. rewrite sorted_snoc, sorted_snoc, list.Forall_app. split_and!; [done|done| |by constructor].
        eapply list.Forall_impl; [exact Ff|]. cbn. lia.
      * done.
      * rewrite Eb, !list.Forall_app. split_and!; [done|by constructor|by constructor].
      * done.
      * intros x y [Hx|Hx%list_elem_of_singleton]%elem_of_app Hy; [apply B; [done|by right]|subst x; by apply Fl].
      * split_and!; [done..|]. intros m. rewrite I3, covered_app, !covered_cons, covered_nil. tauto.
  - apply last_None in Lb as ->. destruct (IH [s]) as (I1 & I2 & I3); [by repeat constructor|done|by constructor|done| |].
    + intros x y Hx%list_elem_of_singleton Hy. subst x. by apply Fl.
    + split_and!; [done..|]. intros m. rewrite I3, !covered_cons, !covered_nil. tauto.
Qed.

(** Slots one after the other, with time between them. *)
Definition apart : list Slot -> Prop := StronglySorted (fun a b => sEnd a < sStart b).

Definition gapsFrom (acc : list Slot) (cursor : Z) (busy : list Slot) : list Slot * Z :=
  foldl (fun p s => (if p.2 <? sStart s then p.1 ++ [{| sStart := p.2; sEnd := sStart s |}] else p.1,
                     Z.max p.2 (sEnd s))) (acc, cursor) busy.

Lemma gapsFrom_spec (busy : list Slot) : byStart busy -> Forall proper busy -> forall acc cursor,
  exists g c, gapsFrom acc cursor busy = (acc ++ g, c) /\ cursor <= c /\
    (forall s, s ∈ busy -> sEnd s <= c) /\ (c = cursor \/ exists s, s ∈ busy /\ c = sEnd s) /\
    apart g /\ Forall proper g /\ Forall (fun s => cursor <= sStart s /\ sEnd s < c) g /\
    forall m, covered g m <-> cursor <= m < c /\ ~ covered busy m.
Proof.
  induction 1 as [|s busy S IH F]; intros P acc cursor.
  - exists [], cursor. unfold gapsFrom. cbn. rewrite app_nil_r. split_and!; [done|done|set_solver|by left|constructor|done|done|].
    intros m. rewrite !covered_nil. lia.
  - inversion P as [|? ? Ps P']; subst. unfold proper in Ps. specialize (IH P').
    unfold gapsFrom. cbn [foldl fst snd].
    set (acc1 := if cursor <? sStart s then _ else acc).
    destruct (IH acc1 (Z.max cursor (sEnd s))) as (g & c & E & Hc & Hends & Hex & Ag & Pg & Wg & Cg).
    unfold gapsFrom in E. rewrite E. rewrite Forall_elem in F.
    assert (Ex : c = cursor \/ exists x, x ∈ s :: busy /\ c = sEnd x).
    { destruct Hex as [->|(x & Hx & ->)]; [|right; exists x; split; [by right|done]].
      destruct (Z.max_spec cursor (sEnd s)) as [[_ ->]|[_ ->]]; [right; exists s; split; [left|done]|by left]. }
    assert (Ends : forall x, x ∈ s :: busy -> sEnd x <= c) by (intros x [->|Hx]%elem_of_cons; [lia|by apply Hends]).
    assert (Late : forall m, m < sStart s -> ~ covered (s :: busy) m).
    { intros m Hm (x & [->|Hx]%elem_of_cons & Hx2); unfold covers in Hx2; [lia|]. specialize (F x Hx). lia. }
    assert (Cov : forall m, covered g m <-> Z.max cursor (sEnd s) <= m < c /\ ~ covered (s :: busy) m).
    { intros m. rewrite Cg, covered_cons. unfold covers. split; [|tauto]. intros [H1 H2]. split; [done|]. intros [?|?]; [lia|done]. }
    assert (outside_s : forall m, cursor <= m < c -> ~ m < sStart s -> ~ covered (s :: busy) m -> Z.max cursor (sEnd s) <= m < c).
    { intros m Hm Hs Hc'. destruct (decide (m < sEnd s)); [|lia]. destruct Hc'. apply covered_cons. left. unfold covers. lia. }
    subst acc1. destruct (Z.ltb_spec cursor (sStart s)) as [L|L].
    + exists ({| sStart := cursor; sEnd := sStart s |} :: g), c. rewrite <- app_assoc. split_and!; [done|lia|done|done|..].
      * constructor; [done|]. eapply list.Forall_impl; [exact Wg|]. cbn. lia.
      * constructor; [unfold proper; cbn; lia|done].
      * constructor; [cbn; lia|]. eapply list.Forall_impl; [exact Wg|]. cbn. lia.
      * intros m. rewrite covered_cons, Cov. pose proof (Ends s ltac:(left)). unfold covers at 1. cbn [sStart sEnd]. split.
        -- intros [Hm|[H1 H2]]; (split; [lia|]); [by apply Late; lia|done].
        -- intros [H1 H2]. destruct (decide (m < sStart s)); [left; lia|right]. split; [|done]. by apply outside_s.
    + exists g, c. split_and!; [done|lia|done|done|done|done| |].
      * eapply list.Forall_impl; [exact Wg|]. cbn. lia.
      * intros m. rewrite Cov. split; intros [H1 H2]; (split; [|done]); [lia|]. by apply outside_s; [|lia|].
Qed.

(** ** The free time of a day *)

Definition minutesIn (s : Slot) : list Z := upTo (sStart s) (Z.to_nat (sEnd s - sStart s)).

Lemma minutesIn_elem (s : Slot) (m : Z) : m ∈ minutesIn s <-> covers s m.
Proof. unfold minutesIn, covers. rewrite upTo_elem. lia. Qed.

Lemma upTo_NoDup (lo : Z) (n : nat) : NoDup (upTo lo n).
Proof.
  pose proof (upTo_sorted lo n) as S. induction S as [|x l S IH F]; constructor; [|done].
  intros Hx. rewrite Forall_elem in F. specialize (F x Hx). lia.
Qed.

(** The minutes of slots that are apart are counted once each. *)
Lemma minutes_count (l : list Slot) : apart l -> Forall proper l ->
  NoDup (l ≫= minutesIn) /\ Z.of_nat (length (l ≫= minutesIn)) = sumOf (fun f => sEnd f - sStart f) l /\
  forall m, m ∈ l ≫= minutesIn <-> covered l m.
Proof.
  induction 1 as [|s l S IH F]; intros P; [split_and!; [constructor|done|intros m; by rewrite covered_nil, elem_of_nil]|].
  inversion P as [|? ? Ps P']; subst. destruct (IH P') as (N & C & E). cbn [mbind list_bind].
  change (list_bind _ _ minutesIn l) with (l ≫= minutesIn). unfold proper in Ps. split_and!.
  - apply list.NoDup_app. split_and!; [apply upTo_NoDup| |done]. intros m Hm%minutesIn_elem (x & Hx & Hc)%E.
    rewrite Forall_elem in F. specialize (F x Hx). unfold covers in *. lia.
  - rewrite length_app, Nat2Z.inj_add, C, sumOf_cons. unfold minutesIn. rewrite upTo_length. lia.
  - intros m. by rewrite elem_of_app, E, minutesIn_elem, covered_cons.
Qed.

(** Claim C27 (free_is_complement): the free slots of a day are not empty, lie one
    after the other, and hold exactly the minutes of the day's window in which
    no timed entry takes place; the free minutes are their number. *)
Theorem free_is_complement (s : Settings) (timed : list Timed) :
  let a := availabilityOf s timed in
  Forall proper (freeSlots a) /\ apart (freeSlots a) /\
  (forall m, covered (freeSlots a) m <-> dayStart s <= m < dayEnd s /\ ~ busyAt timed m) /\
  exists l, NoDup l /\ (forall m, m ∈ l <-> dayStart s <= m < dayEnd s /\ ~ busyAt timed m) /\
            freeMinutes a = Z.of_nat (length l).
Proof.
  cbn zeta. unfold availabilityOf. set (sorted := stableSort startLess (clipped (dayStart s) (dayEnd s) timed)).
  assert (Pm : sorted ≡ₚ clipped (dayStart s) (dayEnd s) timed) by apply stableSort_perm.
  assert (Psort : Forall proper sorted).
  { apply Forall_elem. intros x Hx. rewrite Pm in Hx. by apply clipped_within in Hx as [? _]. }
  destruct (mergeBusy_spec sorted [] ltac:(constructor) (startLess_sorted _) ltac:(constructor) Psort ltac:(set_solver))
    as (Sb & Pb & Cb). set (busy := mergeBusy [] sorted) in *.
  assert (CB : forall m, covered busy m <-> dayStart s <= m < dayEnd s /\ busyAt timed m).
  { intros m. rewrite Cb, covered_nil, (covered_perm _ _ m Pm), clipped_covers. tauto. }
  assert (Wb : forall x, x ∈ busy -> sEnd x <= dayEnd s).
  { intros x Hx. rewrite Forall_elem in Pb. pose proof (Pb x Hx) as Px. unfold proper in Px.
    destruct (proj1 (CB (sEnd x - 1))) as [? _]; [exists x; unfold covers; split; [done|lia]|lia]. }
  destruct (gapsFrom_spec busy Sb Pb [] (dayStart s)) as (g & c & E & Hc & He & Hex & Ag & Pg & Wg & Cg).
  change (gapsOf (dayStart s) busy) with (gapsFrom [] (dayStart s) busy). rewrite E. cbn [app freeSlots freeMinutes].
  set (free := g ++ _).
  assert (A : apart free /\ Forall proper free /\ forall m, covered free m <-> dayStart s <= m < dayEnd s /\ ~ busyAt timed m).
  { subst free. destruct (Z.ltb_spec c (dayEnd s)) as [L|L].
    - split_and!.
      + clear -Ag Wg. induction Ag as [|x g S IH F]; cbn; [by repeat constructor|]. inversion Wg; subst.
        constructor; [by apply IH|]. apply list.Forall_app. split; [done|]. constructor; [cbn; lia|done].
      + apply list.Forall_app. split; [done|]. constructor; [done|constructor].
      + intros m. rewrite covered_app, covered_cons, covered_nil, Cg, CB. unfold covers. cbn [sStart sEnd]. split.
        * intros [[H1 H2]|[H1|[]]]; (split; [lia|]); intros B; [destruct H2; split; [lia|done]|].
          destruct (proj2 (CB m)) as (x & Hx & Hm); [split; [lia|done]|]. specialize (He x Hx). unfold covers in Hm. lia.
        * intros [H1 H2]. destruct (decide (m < c)); [left; split; [lia|tauto]|right; left; lia].
    - rewrite app_nil_r. split_and!; [done..|]. intros m. rewrite Cg, CB.
      assert (dayEnd s <= c -> c = dayStart s \/ c = dayEnd s) as Q.
      { intros _. destruct Hex as [->|(x & Hx & ->)]; [by left|]. right. specialize (Wb x Hx). lia. }
      destruct (Q L) as [->| ->]; [split; intros []; lia|]. tauto. }
  destruct A as (A1 & A2 & A3). split_and!; [done..|]. destruct (minutes_count free A1 A2) as (N & C & M).
  exists (free ≫= minutesIn). split_and!; [done| |by rewrite C]. intros m. by rewrite M, A3.
Qed.

(** ** The slot found for a task *)

Definition fits (s : Settings) (timed : list Timed) (need c : Z) : Prop :=
  dayStart s <= c /\ c + need <= dayEnd s /\ forall m, c <= m < c + need -> ~ busyAt timed m.

Lemma firstGap_sound (need x : Z) (l : list Slot) : 0 < need -> byStart l -> forall c, firstGap need c l = Some x ->
  c <= x /\ (forall m, x <= m < x + need -> ~ covered l m) /\ exists s, s ∈ l /\ x + need <= sStart s.
Proof.
  intros Hn. induction 1 as [|s l S IH F]; intros c E; cbn [firstGap] in E; [done|]. rewrite Forall_elem in F.
  destruct (Z.leb_spec need (sStart s - c)) as [L|L].
  - injection E as ->. split_and!; [done| |exists s; split; [left|lia]].
    intros m Hm (y & [->|Hy]%elem_of_cons & Hc); unfold covers in Hc; [lia|]. specialize (F y Hy). lia.
  - destruct (IH _ E) as (H1 & H2 & y & Hy & H3). split_and!; [lia| |exists y; split; [by right|done]].
    intros m Hm. rewrite covered_cons. intros [Hc|Hc]; [|by apply (H2 m)]. unfold covers in Hc. lia.
Qed.

Lemma firstGap_first (need y hi : Z) (l : list Slot) : 0 < need -> Forall proper l ->
  (forall m, y <= m < y + need -> ~ covered l m) -> y + need <= hi -> forall c, c <= y ->
  exists x, firstGap need c (l ++ [{| sStart := hi; sEnd := hi |}]) = Some x /\ x <= y.
Proof.
  intros Hn P. induction P as [|s l Ps P IH]; intros Fr Hh c Hc; cbn [app firstGap].
  - cbn [sStart]. destruct (Z.leb_spec need (hi - c)); [by exists c|lia].
  - destruct (Z.leb_spec need (sStart s - c)) as [L|L]; [by exists c|]. apply IH; [|done|].
    + intros m Hm C. apply (Fr m Hm). apply covered_cons. by right.
    + unfold proper in Ps. destruct (decide (y < sEnd s)) as [Y|Y]; [|lia]. exfalso.
      apply (Fr (Z.max y (sStart s))); [lia|]. apply covered_cons. left. unfold covers. lia.
Qed.

Lemma firstGap_fits (s : Settings) (timed : list Timed) (need : Z) : 0 < need ->
  let found := firstGap need (dayStart s)
                 (stableSort startLess (clipped (dayStart s) (dayEnd s) timed) ++ [{| sStart := dayEnd s; sEnd := dayEnd s |}]) in
  (forall x, found = Some x -> fits s timed need x) /\
  forall y, fits s timed need y -> exists x, found = Some x /\ x <= y.
Proof.
  intros Hn. cbn zeta. set (l := stableSort _ _).
  assert (Pm : l ≡ₚ clipped (dayStart s) (dayEnd s) timed) by apply stableSort_perm.
  assert (W : forall x, x ∈ l -> proper x /\ dayStart s <= sStart x /\ sEnd x <= dayEnd s).
  { intros x Hx. rewrite Pm in Hx. by apply clipped_within in Hx. }
  assert (C : forall m, covered l m <-> dayStart s <= m < dayEnd s /\ busyAt timed m).
  { intros m. by rewrite (covered_perm _ _ m Pm), clipped_covers. }
  split.
  - intros x E. apply firstGap_sound in E as (H1 & H2 & y & Hy & H3); [|done|].
    + assert (sStart y <= dayEnd s).
      { apply elem_of_app in Hy as [Hy|Hy%list_elem_of_singleton]; [|by subst y]. destruct (W y Hy) as (Py & _ & ?).
        unfold proper in Py. lia. }
      split_and!; [done|lia|]. intros m Hm B. apply (H2 m Hm). apply covered_app. left. apply C. split; [lia|done].
    + apply sorted_snoc. split; [apply startLess_sorted|]. apply Forall_elem. intros y Hy. destruct (W y Hy) as (Py & _ & ?).
      unfold proper in Py. cbn. lia.
  - intros y (F1 & F2 & F3). apply (firstGap_first need y); [done| |intros m Hm [_ B]%C; by apply (F3 m)|done|done].
    apply Forall_elem. intros x Hx. by apply W.
Qed.

(** The days that are searched, up to the deadline. *)
Fixpoint untilDue (task : Task) (days : list bytes) : list bytes :=
  match days with
  | [] => []
  | d :: l => if truthy (due task) && blt (default [] (due task)) d then [] else d :: untilDue task l
  end.

Definition answerOn (st : State) (task : Task) (need : Z) (day : bytes) : option SlotAnswer :=
  c ← slotOn st task need day; Some {| aDay := day; aStart := toTime c; aEnd := toTime (c + need) |}.

Lemma searchDays_take (st : State) (task : Task) (need : Z) (base : bytes) (n : nat) : forall offset answers,
  (length answers <= kSlotAnswers)%nat ->
  searchDays st task need base n offset answers =
  take kSlotAnswers (answers ++ omap (answerOn st task need) (untilDue task ((fun i => addDays base (offset + Z.of_nat i)) <$> seq 0 n))).
Proof.
  induction n as [|n IH]; intros offset answers L; cbn [searchDays].
  - cbn. by rewrite app_nil_r, take_ge.
  - cbn [seq fmap list_fmap untilDue]. rewrite Z.add_0_r.
    assert (Sh : ((fun i => addDays base (offset + Z.of_nat i)) <$> seq 1 n)
                 = ((fun i => addDays base (offset + 1 + Z.of_nat i)) <$> seq 0 n)).
    { rewrite <- seq_shift, <- list_fmap_compose. apply list_fmap_ext. intros i x _. unfold compose. f_equal. lia. }
    change (list_fmap _ _ ?f ?l) with (f <$> l) in |- *. rewrite Sh.
    destruct (kSlotAnswers <=? length answers)%nat eqn:K.
    { apply Nat.leb_le in K. rewrite take_app_le by lia. by rewrite take_ge. }
    apply Nat.leb_gt in K. destruct (truthy (due task) && _); [cbn [omap list_omap]; by rewrite app_nil_r, take_ge by lia|].
    cbn [omap list_omap]. unfold answerOn at 1. destruct (slotOn st task need (addDays base offset)) as [c|]; cbn [mbind option_bind].
    + rewrite IH by (rewrite length_app; cbn; lia). by rewrite <- app_assoc.
    + by rewrite IH by lia.
Qed.

(** Property (find_slots_first): the slots found for a task are the first three
    of the days searched, which end at the deadline, on which the task fits.
    On a day it fits when its minutes still fit into the budget (those it has
    there already not counted twice) and when there is a time in the day's
    window at which no other timed entry takes place; the time found is the
    earliest one. *)
Theorem find_slots_first (st : State) (task : Task) (need : Z) (today picked : bytes) :
  minutes task = Some need -> 0 < need ->
  findSlots st task today picked =
    take kSlotAnswers (omap (answerOn st task need)
      (untilDue task ((fun i => addDays (searchBase task today picked) (Z.of_nat i)) <$> seq 0 kSlotSearchDays))) /\
  forall day, let others := getTimedForDay st day (Some (instanceKey task)) in
    let own := if bool_decide (tDay task = Some day) then need else 0 in
    match slotOn st task need day with
    | Some c => getDayLoad st day - own + need <= budget st /\ fits (settings st) others need c /\
                forall y, fits (settings st) others need y -> c <= y
    | None => budget st < getDayLoad st day - own + need \/ forall y, ~ fits (settings st) others need y
    end.
Proof.
  intros M Hn. split.
  - unfold findSlots. rewrite M. destruct (Z.eqb_spec need 0); [lia|]. rewrite searchDays_take by (cbn; lia). done.
  - intros day others own. unfold slotOn. fold own. destruct (Z.ltb_spec (budget st) (getDayLoad st day - own + need)); [by left|].
    fold others. destruct (firstGap_fits (settings st) others need Hn) as [Snd Fst].
    destruct (firstGap _ _ _) as [c|] eqn:E.
    + split_and!; [done|by apply Snd|]. intros y Hy. destruct (Fst y Hy) as (x & [= <-] & ?). done.
    + right. intros y Hy. by destruct (Fst y Hy) as (x & ? & _).
Qed.

Lemma find_slots_first_witness :
  let task := dayTask #"z" None None (Some #"2026-01-14") (Some 150) in
  (findSlots dayState task #"2026-01-08" #"2026-01-07" =
    take kSlotAnswers (omap (answerOn dayState task 150)
      (untilDue task ((fun i => addDays (searchBase task #"2026-01-08" #"2026-01-07") (Z.of_nat i)) <$> seq 0 kSlotSearchDays))) /\
  forall day, let others := getTimedForDay dayState day (Some (instanceKey task)) in
    let own := if bool_decide (tDay task = Some day) then 150 else 0 in
    match slotOn dayState task 150 day with
    | Some c => getDayLoad dayState day - own + 150 <= budget dayState /\ fits (settings dayState) others 150 c /\
                forall y, fits (settings dayState) others 150 y -> c <= y
    | None => budget dayState < getDayLoad dayState day - own + 150 \/ forall y, ~ fits (settings dayState) others 150 y
    end) /\
  findSlots dayState task #"2026-01-08" #"2026-01-07" =
    [{| aDay := #"2026-01-08"; aStart := #"15:00"; aEnd := #"17:30" |};
     {| aDay := #"2026-01-09"; aStart := #"09:00"; aEnd := #"11:30" |};
     {| aDay := #"2026-01-10"; aStart := #"09:00"; aEnd := #"11:30" |}].
Proof. split; [|vm_compute; reflexivity]. apply find_slots_first; [reflexivity|done]. Defined.
End FreeTime.
