(* ===== verification/DayLayout.v ===== *)
(** * DayLayout: timed entries side by side in the grid of hours

    Module [DayLayout] models [layoutTimed] of [src/sections/planner_model.cpp]:
    entries that overlap form a cluster and take the first lane that is free;
    a block reaches over further lanes when nothing there would cover its
    title. The theorem says that no two blocks of a lane overlap, that a
    cluster has as many lanes as entries that take place at once, and what the
    reach of a block leaves free. *)

From stdpp Require Import sorting.
From S2P Require Import Prelude PlannerUtil Calendar Repeat Order PlannerState DayPlan.
Import Util Calendar Repeats Planner DayPlan.

#[local] Open Scope Z_scope.

Module DayLayout.

Record TimedLayout := { item : Timed; lane : nat; lanes : nat; right : nat }.

Definition startOf (t : Timed) : Z := toMinutes (mStart t).
(** An entry takes a minute at least. *)
Definition endOf (t : Timed) : Z := Z.max (toMinutes (mEnd t)) (startOf t + 1).

Definition setLanes (n : nat) (x : TimedLayout) : TimedLayout :=
  {| item := item x; lane := lane x; lanes := n; right := right x |}.
Definition setRight (n : nat) (x : TimedLayout) : TimedLayout :=
  {| item := item x; lane := lane x; lanes := lanes x; right := n |}.

(** The variables of the loop: [result], and the places in it of the entries of
    the open cluster. *)
Record Layout := { result : list TimedLayout; cluster : list nat; clusterEnd : Z; laneEnds : list Z }.

Definition closeCluster (s : Layout) : Layout :=
  {| result := foldl (fun r i => alter (setLanes (length (laneEnds s))) i r) (result s) (cluster s);
     cluster := []; clusterEnd := clusterEnd s; laneEnds := [] |}.

Definition freeLane (start : Z) (ends : list Z) : nat :=
  match list_find (fun e => e <= start) ends with Some (i, _) => i | None => length ends end.

Definition place (s : Layout) (t : Timed) : Layout :=
  let start := startOf t in
  let s := if clusterEnd s <=? start then closeCluster s else s in
  let l := freeLane start (laneEnds s) in
  {| result := result s ++ [{| item := t; lane := l; lanes := 1; right := 1 |}];
     cluster := cluster s ++ [length (result s)];
     clusterEnd := Z.max (clusterEnd s) (endOf t);
     laneEnds := if (l =? length (laneEnds s))%nat then laneEnds s ++ [endOf t] else <[l := endOf t]> (laneEnds s) |}.

Definition covering (x other : TimedLayout) : bool :=
  (startOf (item other) <? endOf (item x)) && (startOf (item x) <? endOf (item other))
  && (startOf (item other) <? startOf (item x) + kTitleMinutes).

Definition rightOf (all : list TimedLayout) (x : TimedLayout) : nat :=
  foldl (fun r other => if (lane other <=? lane x)%nat then r else if covering x other then Nat.min r (lane other) else r)
    (lanes x) all.

Definition sortedTimed (timed : list Timed) : list Timed := stableSort (fun a b => startOf a <? startOf b) timed.

Definition noLayout : Layout := {| result := []; cluster := []; clusterEnd := -1; laneEnds := [] |}.

Definition layoutTimed (timed : list Timed) : list TimedLayout :=
  let all := result (closeCluster (foldl place noLayout (sortedTimed timed))) in
  (fun x => setRight (rightOf all x) x) <$> all.

(** ** The invariant of the loop *)

Definition starts (x : TimedLayout) : Z := startOf (item x).
Definition ends (x : TimedLayout) : Z := endOf (item x).
Definition at_time (x : TimedLayout) (w : Z) : Prop := starts x <= w < ends x.

(** Blocks of a lane do not overlap. *)
Definition laneFree (l : list TimedLayout) : Prop :=
  forall i j x y, (i < j)%nat -> l !! i = Some x -> l !! j = Some y -> lane x = lane y -> ends x <= starts y.

(** At some time every one of [n] lanes is taken. *)
Definition allTaken (l : list TimedLayout) (n : nat) : Prop :=
  exists w, forall k, (k < n)%nat -> exists y, y ∈ l /\ lane y = k /\ at_time y w.

Record arranged (l : list TimedLayout) : Prop := {
  arr_free : laneFree l;
  arr_lane : forall x, x ∈ l -> (lane x < lanes x)%nat /\ allTaken l (lanes x);
  arr_same : forall x y, x ∈ l -> y ∈ l -> starts x < ends y -> starts y < ends x -> lanes x = lanes y
}.

Record invariant (s : Layout) (closed opened : list TimedLayout) (base : Z) : Prop := {
  inv_result : result s = closed ++ opened;
  inv_cluster : cluster s = seq (length closed) (length opened);
  inv_closed : arranged closed;
  inv_before : forall x, x ∈ closed -> ends x <= base;
  inv_after : forall x, x ∈ opened -> base <= starts x;
  inv_end : forall x, x ∈ result s -> ends x <= clusterEnd s;
  inv_free : laneFree opened;
  inv_last : forall k, (k < length (laneEnds s))%nat ->
    exists x, x ∈ opened /\ lane x = k /\ laneEnds s !! k = Some (ends x);
  inv_lane : forall x, x ∈ opened -> exists e, laneEnds s !! lane x = Some e /\ ends x <= e;
  inv_taken : allTaken opened (length (laneEnds s))
}.

Lemma ends_after (x : TimedLayout) : starts x < ends x.
Proof. unfold starts, ends, endOf. lia. Qed.

Lemma laneFree_app (l k : list TimedLayout) : laneFree l -> laneFree k ->
  (forall x y, x ∈ l -> y ∈ k -> lane x = lane y -> ends x <= starts y) -> laneFree (l ++ k).
Proof.
  intros L K C i j x y Hij Hi Hj E. apply lookup_app_Some in Hi as [Hi|[Gi Hi]], Hj as [Hj|[Gj Hj]].
  - by apply (L i j).
  - apply C; [by eapply list_elem_of_lookup_2..|done].
  - apply lookup_lt_Some in Hj. lia.
  - apply (K (i - length l)%nat (j - length l)%nat); (done || lia).
Qed.

Lemma alter_cluster (f : TimedLayout -> TimedLayout) (closed opened : list TimedLayout) :
  foldl (fun r i => alter f i r) (closed ++ opened) (seq (length closed) (length opened)) = closed ++ (f <$> opened).
Proof.
  revert closed. induction opened as [|x l IH]; intros closed; [done|]. cbn [length seq foldl fmap list_fmap].
  assert (alter f (length closed) (closed ++ x :: l) = (closed ++ [f x]) ++ l) as ->.
  { rewrite <- (Nat.add_0_r (length closed)) at 1. rewrite alter_app_r. cbn. by rewrite <- app_assoc. }
  replace (S (length closed)) with (length (closed ++ [f x])) by (rewrite length_app; cbn; lia).
  rewrite IH. by rewrite <- app_assoc.
Qed.

Lemma setLanes_elem (n : nat) (l : list TimedLayout) (x : TimedLayout) : x ∈ setLanes n <$> l ->
  exists y, y ∈ l /\ x = setLanes n y.
Proof. intros (y & -> & Hy)%list_elem_of_fmap. by exists y. Qed.

Lemma taken_weaken (l k : list TimedLayout) (n : nat) : l ⊆ k -> allTaken l n -> allTaken k n.
Proof. intros S [w W]. exists w. intros i Hi. destruct (W i Hi) as (y & Hy & ?). exists y. split; [by apply S|done]. Qed.

(** Closing gives every entry of the cluster the number of lanes. *)
Lemma close_arranged (s : Layout) (closed opened : list TimedLayout) (base : Z) : invariant s closed opened base ->
  let k := setLanes (length (laneEnds s)) <$> opened in
  result (closeCluster s) = closed ++ k /\ arranged (closed ++ k).
Proof.
  intros [R C A B F E Fr La Ln Tk] k. cbn [closeCluster result]. rewrite R, C, alter_cluster. split; [done|].
  assert (Tk' : allTaken k (length (laneEnds s))).
  { destruct Tk as [w W]. exists w. intros i Hi. destruct (W i Hi) as (y & Hy & Ly & Cy). exists (setLanes (length (laneEnds s)) y).
    split; [by apply list_elem_of_fmap_2|done]. }
  assert (Ap : forall x y, x ∈ closed -> y ∈ k -> ends x <= starts y).
  { intros x y Hx (z & Hz & ->)%setLanes_elem. specialize (B x Hx). specialize (F z Hz). unfold starts, ends in *. cbn. lia. }
  split.
  - apply laneFree_app; [apply A| |intros; by apply Ap]. intros i j x y Hij Hi Hj.
    unfold k in Hi, Hj. rewrite list_lookup_fmap in Hi, Hj. apply fmap_Some in Hi as (x' & Hi & ->), Hj as (y' & Hj & ->). exact (Fr i j x' y' Hij Hi Hj).
  - intros x [Hx|Hx]%elem_of_app.
    + destruct (arr_lane _ A x Hx) as [H1 H2]. split; [done|]. eapply taken_weaken; [|exact H2]. set_solver.
    + split; [|eapply taken_weaken; [|apply setLanes_elem in Hx as (z & _ & ->); exact Tk']; set_solver].
      apply setLanes_elem in Hx as (z & Hz & ->). destruct (Ln z Hz) as (e & He & _). cbn. by apply lookup_lt_Some in He.
  - intros x y [Hx|Hx]%elem_of_app [Hy|Hy]%elem_of_app O1 O2.
    + by apply (arr_same _ A).
    + specialize (Ap x y Hx Hy). lia.
    + specialize (Ap y x Hy Hx). lia.
    + apply setLanes_elem in Hx as (x' & _ & ->), Hy as (y' & _ & ->). done.
Qed.

Lemma arranged_nil : arranged [].
Proof. split; [intros i j x y _ Hi; done|set_solver|set_solver]. Qed.

Lemma empty_invariant (base : Z) : invariant noLayout [] [] base.
Proof.
  split; try done; try set_solver; [apply arranged_nil|cbn; lia|]. exists 0. cbn. lia.
Qed.

Lemma closed_invariant (s : Layout) (closed opened : list TimedLayout) (base b : Z) : invariant s closed opened base ->
  clusterEnd s <= b -> exists c, invariant (closeCluster s) c [] b.
Proof.
  intros I Hb. destruct (close_arranged _ _ _ _ I) as [R A]. pose proof I as [R0 _ _ _ _ E _ _ _ _].
  exists (closed ++ (setLanes (length (laneEnds s)) <$> opened)).
  assert (Es : forall x, x ∈ result (closeCluster s) -> ends x <= clusterEnd s).
  { intros x. rewrite R. intros [Hx|(z & Hz & ->)%setLanes_elem]%elem_of_app.
    - apply E. rewrite R0. set_solver.
    - apply (E z). rewrite R0. set_solver. }
  split; try done; try set_solver.
  - by rewrite app_nil_r.
  - intros x Hx. rewrite <- R in Hx. specialize (Es x Hx). lia.
  - cbn. lia.
  - exists 0. cbn. lia.
Qed.

(** The lane taken is free, and is a new one only when all others are taken. *)
Lemma freeLane_spec (start : Z) (l : list Z) : let k := freeLane start l in
  ((k < length l)%nat /\ exists e, l !! k = Some e /\ e <= start) \/
  (k = length l /\ forall i e, l !! i = Some e -> start < e).
Proof.
  cbn zeta. unfold freeLane. destruct (list_find _ l) as [[i e]|] eqn:F.
  - apply list_find_Some in F as (Hi & He & _). left. split; [by apply lookup_lt_Some in Hi|by exists e].
  - right. split; [done|]. intros i e Hi. apply list_find_None in F. rewrite Forall_elem in F.
    specialize (F e ltac:(by eapply list_elem_of_lookup_2)). cbn in F. lia.
Qed.

(** What placing does after the cluster was closed, if it was. *)
Definition placedAt (s : Layout) (t : Timed) : Layout :=
  let l := freeLane (startOf t) (laneEnds s) in
  {| result := result s ++ [{| item := t; lane := l; lanes := 1; right := 1 |}];
     cluster := cluster s ++ [length (result s)];
     clusterEnd := Z.max (clusterEnd s) (endOf t);
     laneEnds := if (l =? length (laneEnds s))%nat then laneEnds s ++ [endOf t] else <[l := endOf t]> (laneEnds s) |}.

Lemma append_invariant (s : Layout) (closed opened : list TimedLayout) (base : Z) (t : Timed) :
  invariant s closed opened base -> base <= startOf t -> (forall x, x ∈ opened -> starts x <= startOf t) ->
  exists y, item y = t /\ invariant (placedAt s t) closed (opened ++ [y]) base.
Proof.
  intros [R C A B F E Fr La Ln Tk] Hb Hs. set (k := freeLane (startOf t) (laneEnds s)).
  set (y := {| item := t; lane := k; lanes := 1; right := 1 |}). exists y. split; [done|].
  assert (Ey : starts y = startOf t /\ ends y = endOf t /\ lane y = k) by done. destruct Ey as (Sy & Ny & Ly).
  pose proof (ends_after y) as Y.
  pose proof (freeLane_spec (startOf t) (laneEnds s)) as K. cbn zeta in K. fold k in K.
  split; cbn [placedAt result cluster clusterEnd laneEnds]; fold k; fold y.
  - by rewrite R, app_assoc.
  - rewrite C, R, !length_app, Nat.add_1_r, seq_S. done.
  - done.
  - done.
  - intros x [Hx|Hx%list_elem_of_singleton]%elem_of_app; [by apply F|]. subst x. lia.
  - intros x [Hx|Hx%list_elem_of_singleton]%elem_of_app; [specialize (E x Hx); lia|]. subst x. lia.
  - apply laneFree_app; [done| |].
    + intros i j x z Hij Hi Hj. apply lookup_lt_Some in Hi, Hj. cbn in *. lia.
    + intros x z Hx Hz%list_elem_of_singleton Ek. subst z. rewrite Ly in Ek. destruct (Ln x Hx) as (e & He & Hle).
      rewrite Ek in He. rewrite Sy. destruct K as [[_ (e' & He' & Hst)]|[Hk _]]; [rewrite He in He'; injection He' as <-; lia|].
      apply lookup_lt_Some in He. lia.
  - intros i Hi. destruct K as [[Hk _]|[Hk _]].
    + rewrite (proj2 (Nat.eqb_neq _ _)) in * by lia. rewrite length_insert in Hi. destruct (decide (i = k)) as [->|Hik].
      * exists y. split_and!; [set_solver|done|]. by rewrite list_lookup_insert_eq.
      * destruct (La i Hi) as (x & Hx & Lx & Ex). exists x. split_and!; [set_solver|done|]. by rewrite list_lookup_insert_ne.
    + rewrite (proj2 (Nat.eqb_eq _ _)) in * by done. rewrite length_app in Hi. cbn in Hi. destruct (decide (i = k)) as [->|Hik].
      * exists y. split_and!; [set_solver|done|]. by rewrite Hk, list_lookup_middle.
      * destruct (La i ltac:(lia)) as (x & Hx & Lx & Ex). exists x. split_and!; [set_solver|done|]. by rewrite lookup_app_l by lia.
  - intros x [Hx|Hx%list_elem_of_singleton]%elem_of_app.
    + destruct (Ln x Hx) as (e & He & Hle). destruct K as [[Hk (e' & He' & Hst)]|[Hk _]].
      * rewrite (proj2 (Nat.eqb_neq _ _)) by lia. destruct (decide (lane x = k)) as [Ek|Ek].
        -- exists (endOf t). rewrite Ek, list_lookup_insert_eq by done. split; [done|]. rewrite Ek, He' in He. injection He as ->. lia.
        -- exists e. by rewrite list_lookup_insert_ne.
      * rewrite (proj2 (Nat.eqb_eq _ _)) by done. exists e. split; [|done]. rewrite lookup_app_l; [done|]. by apply lookup_lt_Some in He.
    + subst x. rewrite Ly. exists (endOf t). split; [|lia]. destruct K as [[Hk _]|[Hk _]].
      * rewrite (proj2 (Nat.eqb_neq _ _)) by lia. by rewrite list_lookup_insert_eq.
      * rewrite (proj2 (Nat.eqb_eq _ _)) by done. by rewrite Hk, list_lookup_middle.
  - destruct K as [[Hk _]|[Hk Late]].
    + rewrite (proj2 (Nat.eqb_neq _ _)) by lia. rewrite length_insert. eapply taken_weaken; [|exact Tk]. set_solver.
    + rewrite (proj2 (Nat.eqb_eq _ _)) by done. exists (startOf t). intros i Hi. rewrite length_app in Hi. cbn in Hi.
      destruct (decide (i = k)) as [->|Hik]; [exists y; split_and!; [set_solver|done|unfold at_time; lia]|].
      destruct (La i ltac:(lia)) as (x & Hx & Lx & Ex). exists x. split_and!; [set_solver|done|]. unfold at_time.
      specialize (Hs x Hx). specialize (Late i _ Ex). lia.
Qed.

Lemma place_invariant (s : Layout) (closed opened : list TimedLayout) (base : Z) (t : Timed) :
  invariant s closed opened base -> base <= startOf t -> (forall x, x ∈ opened -> starts x <= startOf t) ->
  exists c o b, invariant (place s t) c o b /\ b <= startOf t /\ (forall x, x ∈ o -> starts x <= startOf t).
Proof.
  intros I Hb Hs. unfold place. destruct (Z.leb_spec (clusterEnd s) (startOf t)) as [L|L].
  - destruct (closed_invariant _ _ _ _ _ I L) as [c I']. destruct (append_invariant _ _ _ _ t I' ltac:(lia) ltac:(set_solver)) as (y & Ey & I2).
    exists c, ([] ++ [y]), (startOf t). split_and!; [exact I2|lia|]. intros x Hx%list_elem_of_singleton. subst x. unfold starts. rewrite Ey. lia.
  - destruct (append_invariant _ _ _ _ t I Hb Hs) as (y & Ey & I2). exists closed, (opened ++ [y]), base. split_and!; [exact I2|done|].
    intros x [Hx|Hx%list_elem_of_singleton]%elem_of_app; [by apply Hs|]. subst x. unfold starts. rewrite Ey. lia.
Qed.

Lemma place_all (ts : list Timed) : StronglySorted (fun a b => startOf a <= startOf b) ts -> forall s closed opened base,
  invariant s closed opened base -> Forall (fun t => base <= startOf t) ts ->
  (forall x t, x ∈ opened -> t ∈ ts -> starts x <= startOf t) ->
  exists c o b, invariant (foldl place s ts) c o b.
Proof.
  induction 1 as [|t ts S IH F]; intros s closed opened base I Hb Hs; cbn [foldl]; [eauto|].
  inversion Hb as [|? ? Hbt _]; subst. rewrite Forall_elem in F.
  destruct (place_invariant s closed opened base t I Hbt) as (c & o & b & I' & Hb' & Hs'); [intros; apply Hs; [done|left]|].
  apply (IH _ _ _ _ I').
  - apply Forall_elem. intros t' Ht'. specialize (F t' Ht'). lia.
  - intros x t' Hx Ht'. specialize (Hs' x Hx). specialize (F t' Ht'). lia.
Qed.

Lemma alter_items (n i : nat) (r : list TimedLayout) : item <$> alter (setLanes n) i r = item <$> r.
Proof.
  apply list_eq. intros j. rewrite !list_lookup_fmap. destruct (decide (i = j)) as [->|N].
  - rewrite list_lookup_alter_eq. by destruct (r !! j).
  - by rewrite list_lookup_alter_ne.
Qed.

(** The entries come out in the order they are placed in. *)
Lemma close_items (s : Layout) : item <$> result (closeCluster s) = item <$> result s.
Proof.
  cbn [closeCluster result]. generalize (length (laneEnds s)) as n. generalize (result s) as r.
  induction (cluster s) as [|i l IH]; intros r n; [done|]. cbn [foldl]. by rewrite IH, alter_items.
Qed.

Lemma place_items (ts : list Timed) : forall s, item <$> result (foldl place s ts) = (item <$> result s) ++ ts.
Proof.
  induction ts as [|t ts IH]; intros s; cbn [foldl]; [by rewrite app_nil_r|]. rewrite IH. unfold place.
  cbn [result]. destruct (_ <=? _); rewrite fmap_app, ?close_items; by rewrite <- app_assoc.
Qed.

(** ** The reach of a block *)

Lemma rightOf_spec (x : TimedLayout) (l : list TimedLayout) : forall r, (lane x < r)%nat ->
  let r' := foldl (fun r other => if (lane other <=? lane x)%nat then r
                                  else if covering x other then Nat.min r (lane other) else r) r l in
  (lane x < r' <= r)%nat /\
  (forall y, y ∈ l -> (lane x < lane y)%nat -> covering x y = true -> (r' <= lane y)%nat).
Proof.
  induction l as [|z l IH]; intros r Hr; cbn [foldl]; [split; [lia|set_solver]|].
  set (r1 := if (lane z <=? lane x)%nat then r else _).
  assert (H1 : (lane x < r1 <= r)%nat /\ ((lane x < lane z)%nat -> covering x z = true -> (r1 <= lane z)%nat)).
  { subst r1. destruct (Nat.leb_spec (lane z) (lane x)); [lia|]. destruct (covering x z); [lia|]. split; [lia|done]. }
  destruct H1 as [H1 H2]. destruct (IH r1 ltac:(lia)) as [H3 H4]. split; [lia|].
  intros y [->|Hy]%elem_of_cons Hl C; [|by apply H4]. specialize (H2 Hl C). lia.
Qed.

Lemma sortedTimed_sorted (timed : list Timed) : StronglySorted (fun a b => startOf a <= startOf b) (sortedTimed timed).
Proof.
  pose proof (stableSort_less (fun a b => cmp (startOf a) (startOf b)) (fun a b => startOf a <? startOf b) timed
    (ordering_map (fun _ => True) startOf (fun _ => True) cmp (fun _ _ => I) (ordering_cmp _))) as S.
  assert (L : forall a b, (startOf a <? startOf b) = (cmp (startOf a) (startOf b) <? 0)).
  { intros a b. rewrite cmp_sign. destruct (Z.ltb_spec (startOf a) (startOf b)), (Z.ltb_spec (Z.sgn (startOf a - startOf b)) 0); lia. }
  specialize (S L). unfold sortedTimed. induction S as [|a k _ IH F]; constructor; [done|].
  eapply list.Forall_impl; [exact F|]. cbn. lia.
Qed.

(** Claim C28 (layout_columns): the layout keeps the entries in the order of
    their start; no two blocks of a lane overlap, and each reaches from its lane
    over at least one and at most all lanes of its cluster. Blocks that overlap
    have the same number of lanes, and it is the least possible: at some time as
    many entries take place at once. A block reaches over no lane in which an
    entry that overlaps it begins beside its title. *)
Theorem layout_columns (timed : list Timed) :
  let out := layoutTimed timed in
  item <$> out = sortedTimed timed /\ laneFree out /\
  (forall x, x ∈ out -> (lane x < right x <= lanes x)%nat) /\
  (forall x y, x ∈ out -> y ∈ out -> starts x < ends y -> starts y < ends x -> lanes x = lanes y) /\
  (forall x, x ∈ out -> allTaken out (lanes x)) /\
  (forall x y, x ∈ out -> y ∈ out -> (lane x < lane y < right x)%nat -> covering x y = false).
Proof.
  cbn zeta. unfold layoutTimed. set (s := foldl place noLayout (sortedTimed timed)). set (all := result (closeCluster s)).
  assert (A : arranged all).
  { set (ts := sortedTimed timed). pose proof (sortedTimed_sorted timed) as S. fold ts in S.
    set (base := match ts with t :: _ => startOf t | [] => 0 end).
    destruct (place_all ts S noLayout [] [] base (empty_invariant base)) as (c & o & b & I).
    - subst base. destruct S as [|t l S F]; constructor; [lia|done].
    - set_solver.
    - destruct (close_arranged _ _ _ _ I) as [R A]. unfold all, s. fold ts. by rewrite R. }
  set (f := fun x => setRight (rightOf all x) x). destruct A as [Af Al As].
  assert (El : forall x, x ∈ f <$> all -> exists y, y ∈ all /\ x = f y) by (intros x (y & -> & Hy)%list_elem_of_fmap; eauto).
  assert (Rt : forall y, y ∈ all -> (lane y < rightOf all y <= lanes y)%nat /\
    forall z, z ∈ all -> (lane y < lane z)%nat -> covering y z = true -> (rightOf all y <= lane z)%nat).
  { intros y Hy. apply rightOf_spec. by apply Al. }
  split_and!.
  - rewrite <- list_fmap_compose. change (item ∘ f) with item. subst all s. rewrite close_items, place_items. done.
  - intros i j x y Hij Hi Hj. rewrite list_lookup_fmap in Hi, Hj. apply fmap_Some in Hi as (x' & Hi & ->), Hj as (y' & Hj & ->).
    exact (Af i j x' y' Hij Hi Hj).
  - intros x (y & Hy & ->)%El. exact (proj1 (Rt y Hy)).
  - intros x y (x' & Hx & ->)%El (y' & Hy & ->)%El. exact (As x' y' Hx Hy).
  - intros x (y & Hy & ->)%El. destruct (Al y Hy) as [_ [w W]]. exists w. intros k Hk. destruct (W k Hk) as (z & Hz & Lz & Tz).
    exists (f z). split; [by apply list_elem_of_fmap_2|]. done.
  - intros x y (x' & Hx & ->)%El (y' & Hy & ->)%El Hl. change (lane x' < lane y' < rightOf all x')%nat in Hl. destruct (covering (f x') (f y')) eqn:C; [|done].
    destruct (Rt x' Hx) as [_ H]. specialize (H y' Hy ltac:(lia) C). lia.
Qed.

(** Three entries, two of them at once with the first one, and one after them. *)
Lemma layout_sample :
  let at_ n s e := {| mName := n; mStart := s; mEnd := e; mTask := None; mEvent := None |} in
  (fun x => (mName (item x), lane x, lanes x, right x)) <$>
    layoutTimed [at_ #"c" #"10:50" #"12:00"; at_ #"a" #"10:00" #"11:00"; at_ #"b" #"10:30" #"10:40"; at_ #"d" #"13:00" #"14:00"]
  = [(#"a", 0, 2, 1); (#"b", 1, 2, 2); (#"c", 1, 2, 2); (#"d", 0, 1, 1)]%nat.
Proof. vm_compute. reflexivity. Qed.
End DayLayout.
