(* ===== verification/TaskLists.v ===== *)
(** * TaskLists: lists of tasks, their order, groups and the checks of input

    Module [TaskLists] models the parts of [src/sections/planner_model.cpp] on
    lists (eligible, undated and completed tasks, the order of a group and
    [moveTask], the validations, the layers of the calendar) and
    [src/sections/planner_groups.cpp]. Ranks are doubles in units of 2^-1074
    (see [Repeat]); [rankOf] is the rank of an integer. *)

From stdpp Require Import sorting.
From S2P Require Import Prelude PlannerUtil Calendar Repeat Order PlannerState Series.
Import Util Calendar Repeats Planner Series.

#[local] Open Scope Z_scope.

Module TaskLists.

(** ** Lists *)

(** The list with a name, and whether it was created; [newId] is what the
    generator gives. The code's pointer is the place of the list. *)
Definition ensureList (st : State) (nm newId : bytes) : option nat * State :=
  if isEmpty nm then (None, st)
  else
    match list_find (fun l => lName l = nm) (lists st) with
    | Some (n, _) => (Some n, st)
    | None =>
        let n := length (lists st) in
        let st1 := setLists st (lists st ++ [{| lId := newId; lName := nm; lOrder := Z.of_nat n * 2 ^ 1074; lColor := None |}]) in
        (Some n, if bool_decide (nm ∈ projects st) then st1 else setProjects st1 (projects st1 ++ [nm]))
    end.

Definition getListColor (st : State) (nm : bytes) : Z :=
  if isEmpty nm then 0
  else match list_find (fun l => lName l = nm) (lists st) with Some (_, l) => default 0 (lColor l) | None => 0 end.

Definition getEventColor (st : State) (e : Event) : Z :=
  let c := getListColor st (default [] (eProject e)) in if c =? 0 then default 0 (color e) else c.

Definition hasLunchBreak (s : Settings) : bool := lunchStart s <? lunchEnd s.

Definition eligible (today : bytes) (t : Task) : option Task :=
  match repeat_ t with
  | Some _ => nextOpenInstance t today
  | None => if negb (truthy (due t)) && negb (bool_decide (status t = #"done")) then Some t else None
  end.

Definition getEligibleTasks (st : State) (today : bytes) : list Task := omap (eligible today) (tasks st).

Definition byRankThenId (a b : Task) : bool :=
  if negb (rank a =? rank b) then rank a <? rank b else blt (id a) (id b).

Definition isActive (t : Task) : bool := bool_decide (status t = #"active").

Definition undatedLess (a b : Task) : bool :=
  if negb (Bool.eqb (isActive a) (isActive b)) then isActive a else byRankThenId a b.

Definition getUndatedTasks (st : State) : list Task :=
  stableSort undatedLess
    (filter (fun t => negb (isRepeating t) && negb (truthy (tDay t)) && negb (bool_decide (status t = #"done"))) (tasks st)).

Definition getCompletedTasks (st : State) : list Task :=
  filter (fun t => negb (isRepeating t) && negb (truthy (due t)) && bool_decide (status t = #"done")) (tasks st).

Definition inGroupOf (task t : Task) : bool := bool_decide (project t = project task) && bool_decide (status t = status task).

Definition getOrderedGroup (st : State) (task : Task) (today : bytes) : list Task :=
  stableSort byRankThenId (filter (inGroupOf task) (getEligibleTasks st today)).

Definition setRank (r : Z) (t : Task) : Task :=
  {| id := id t; name := name t; description := description t; steps := steps t; status := status t;
     project := project t; rank := r; tDay := tDay t; tStart := tStart t; due := due t; minutes := minutes t;
     repeat_ := repeat_ t; occurrences := occurrences t; origin := origin t; source := source t;
     remind := remind t; instanceDay := instanceDay t |}.

(** [static_cast<double>] of an [int]. *)
Definition rankOf (i : Z) : Z := i * 2 ^ 1074.

(** [group[i]->rank = r]; [group] holds the places of the tasks. *)
Definition rankAt (group : list nat) (i : nat) (r : Z) (l : list Task) : list Task :=
  match group !! i with Some n => alter (setRank (rankOf r)) n l | None => l end.

(** Each task of the group gets its place as its rank. *)
Definition spread (group : list nat) (l : list Task) : list Task :=
  foldl (fun l i => rankAt group i (Z.of_nat i) l) l (seq 0 (length group)).

Definition moveTask (st : State) (taskId : bytes) (direction : Z) (today : bytes) : bool * State :=
  match findIn (tasks st) taskId with
  | None => (false, st)
  | Some (n, task) =>
      let group := omap (fun t => fst <$> findIn (tasks st) (id t)) (getOrderedGroup st task today) in
      match list_find (fun m => m = n) group with
      | None => (false, st)
      | Some (index, _) =>
          let target := Z.of_nat index + direction in
          if (target <? 0) || (Z.of_nat (length group) <=? target) then (false, st)
          else
            (true, setTasks st (rankAt group (Z.to_nat target) (Z.of_nat index)
                                  (rankAt group index target (spread group (tasks st)))))
      end
  end.

(** ** Checks of input *)

Definition kMinTaskMinutes : Z := 5.
Definition kMaxSlotMargin : Z := 180.

Definition validateTask (t : Task) : option bytes :=
  if isEmpty (trim (name t)) then Some #"name"
  else if match minutes t with Some m => (m <? kMinTaskMinutes) || (kMinutesInDay <? m) | None => false end then Some #"minutes"
  else if truthy (tStart t) && negb (truthy (tDay t)) then Some #"startNeedsDayAndMinutes"
  else if truthy (tStart t) && match minutes t with
                               | Some m => kMinutesInDay <? toMinutes (default [] (tStart t)) + m
                               | None => false
                               end then Some #"pastMidnight"
  else if truthy (tDay t) && truthy (due t) && blt (default [] (due t)) (default [] (tDay t)) then Some #"dayAfterDue"
  else None.

Definition isMinute (v : Z) : bool := (0 <=? v) && (v <=? kMinutesInDay).

Definition validateSettings (s : Settings) : option bytes :=
  if negb (isMinute (dayStart s)) || negb (isMinute (dayEnd s)) || (dayEnd s <=? dayStart s) then Some #"window"
  else if negb (isMinute (lunchStart s)) || negb (isMinute (lunchEnd s)) then Some #"lunch"
  else if hasLunchBreak s && ((lunchStart s <? dayStart s) || (dayEnd s <? lunchEnd s)) then Some #"lunch"
  else if (margin s <? 0) || (kMaxSlotMargin <? margin s) then Some #"margin"
  else None.

Definition validateEvent (e : Event) : option bytes :=
  if isEmpty (trim (eName e)) then Some #"name"
  else if negb (default false (isAllDay e))
          && (negb (isTimeKey (eStart e)) || negb (isTimeKey (eEnd e)) || ble (eEnd e) (eStart e)) then Some #"time"
  else match eRepeat e with
       | Some r => validateRepeat r
       | None => if negb (truthy (eDay e)) then Some #"repeat" else None
       end.

(** ** Labels and layers *)

Definition formatClock (m : Z) : bytes :=
  let clock := toTime m in if negb (Z.rem m 60 =? 0) then clock else take 2 clock.

Definition listColorStyle (c : Z) : option bytes :=
  if c =? 0 then None else Some (#"--planner-list-color: var(--color-peer-" ++ Decimal.to_string (c - 1) ++ #")").

Record Layers := { sleep : bool; food : bool; work : bool }.

Definition parseLayers (saved : option bytes) : Layers :=
  let hidden := split (default [] saved) "," in
  {| sleep := negb (bool_decide (#"sleep" ∈ hidden)); food := negb (bool_decide (#"food" ∈ hidden));
     work := negb (bool_decide (#"work" ∈ hidden)) |}.

Definition serializeLayers (l : Layers) : bytes :=
  foldl (fun out p => if p.1 : bool then out else (if isEmpty out then out else out ++ #",") ++ p.2) []
    [(sleep l, #"sleep"); (food l, #"food"); (work l, #"work")].

(** ** Groups *)

Record GroupPick := { pickKind : SeriesKind; pickId : bytes; pickDay : option bytes; isRepeat : bool }.

Definition kGroupNameMaxLength : nat := 60.

Definition normalizeGroupName (nm : bytes) : bytes := takeCodepoints (trim nm) kGroupNameMaxLength.

Definition nameTaken (st : State) (nm : bytes) : bool := bool_decide (nm ∈ (lName <$> lists st)).

Definition withColor (c : option Z) (l : TaskList) : TaskList :=
  {| lId := lId l; lName := lName l; lOrder := lOrder l; lColor := c |}.
Definition withName (nm : bytes) (l : TaskList) : TaskList :=
  {| lId := lId l; lName := nm; lOrder := lOrder l; lColor := lColor l |}.

Definition createGroup (st : State) (rawName : bytes) (c : Z) (newId : bytes) : option bytes * State :=
  let nm := normalizeGroupName rawName in
  if isEmpty nm then (Some #"name", st)
  else if nameTaken st nm then (Some #"duplicate", st)
  else
    match ensureList st nm newId with
    | (Some n, st1) => (None, if c =? 0 then st1 else setLists st1 (alter (withColor (Some c)) n (lists st1)))
    | (None, st1) => (None, st1)
    end.

Definition setProject (p : bytes) (t : Task) : Task :=
  {| id := id t; name := name t; description := description t; steps := steps t; status := status t;
     project := p; rank := rank t; tDay := tDay t; tStart := tStart t; due := due t; minutes := minutes t;
     repeat_ := repeat_ t; occurrences := occurrences t; origin := origin t; source := source t;
     remind := remind t; instanceDay := instanceDay t |}.
Definition setEventProject (p : option bytes) (e : Event) : Event :=
  {| eId := eId e; eName := eName e; eDescription := eDescription e; eStart := eStart e; eEnd := eEnd e; eDay := eDay e;
     eRepeat := eRepeat e; eOccurrences := eOccurrences e; eOrigin := eOrigin e; eInstanceDay := eInstanceDay e;
     isAllDay := isAllDay e; isHoliday := isHoliday e; color := color e; eRemind := eRemind e; eProject := p |}.

Definition renameGroup (st : State) (from rawName : bytes) : option bytes * State :=
  let nm := normalizeGroupName rawName in
  if isEmpty nm then (Some #"name", st)
  else if bool_decide (nm = from) then (None, st)
  else if nameTaken st nm then (Some #"duplicate", st)
  else
    match list_find (fun l => lName l = from) (lists st) with
    | None => (None, st)
    | Some (n, _) =>
        let st1 := setLists st (alter (withName nm) n (lists st)) in
        let st2 := setProjects st1 ((fun p => if bool_decide (p = from) then nm else p) <$> projects st1) in
        let st3 := setTasks st2 ((fun t => if bool_decide (project t = from) then setProject nm t else t) <$> tasks st2) in
        (None, setEvents st3 ((fun e => if bool_decide (eProject e = Some from) then setEventProject (Some nm) e else e)
                              <$> events st3))
    end.

Definition setGroupColor (st : State) (nm : bytes) (c : Z) : State :=
  match list_find (fun l => lName l = nm) (lists st) with
  | Some (n, _) => setLists st (alter (withColor (if c =? 0 then None else Some c)) n (lists st))
  | None => st
  end.

Definition deleteGroup (st : State) (nm : bytes) : State :=
  let st1 := setLists st (filter (fun l => lName l <> nm) (lists st)) in
  let st2 := setProjects st1 (filter (fun p => p <> nm) (projects st1)) in
  let st3 := setTasks st2 ((fun t => if bool_decide (project t = nm) then setProject [] t else t) <$> tasks st2) in
  setEvents st3 ((fun e => if bool_decide (eProject e = Some nm) then setEventProject None e else e) <$> events st3).

Definition projectPatch (p : option bytes) : ItemPatch :=
  {| pName := None; pDescription := None; pStart := None; pEnd := None; pDay := None; pDue := None;
     pStatus := None; pProject := Some p; pMinutes := None; pColor := None; pRemind := None; pRank := None;
     pAllDay := None; pHoliday := None; pSteps := None; pSource := None; pRepeat := None |}.

(** The entries a pick stands for: itself and, for a whole series, its detached days. *)
Definition picked `{Entry T} (pick : GroupPick) (whole : bool) (x : T) : bool :=
  bool_decide (itemId x = pickId pick)
  || whole && match originOf x with Some o => bool_decide (seriesId o = pickId pick) | None => false end.

(** The state, the keys of the series done, and the generator's next values. *)
Definition assignOne (nm : bytes) (withRepeats : bool) (s : State * list (SeriesKind * bytes) * list bytes) (pick : GroupPick)
  : State * list (SeriesKind * bytes) * list bytes :=
  let '(st, done, ids) := s in
  let eventProject := if isEmpty nm then None else Some nm in
  let whole := isRepeat pick && withRepeats in
  match (if isRepeat pick && negb withRepeats then pickDay pick else None) with
  | Some (c :: d) =>
      let patch := projectPatch (match pickKind pick with EventKind => eventProject | TaskKind => Some nm end) in
      let '(r, st1) := detachInstance st (pickKind pick) (pickId pick) (c :: d) patch (hd [] ids) in
      (st1, done, if r then tl ids else ids)
  | _ =>
      let key := (pickKind pick, pickId pick) in
      if whole && bool_decide (key ∈ done) then s
      else
        (match pickKind pick with
         | TaskKind => setTasks st ((fun t => if picked pick whole t then setProject nm t else t) <$> tasks st)
         | EventKind => setEvents st ((fun e => if picked pick whole e then setEventProject eventProject e else e) <$> events st)
         end, key :: done, ids)
  end.

Definition assignToGroup (st : State) (picks : list GroupPick) (nm : bytes) (withRepeats : bool) (ids : list bytes) : State :=
  (foldl (assignOne nm withRepeats) (st, [], ids) picks).1.1.

(** ** Groups stay consistent *)

Definition groupNames (st : State) : list bytes := lName <$> lists st.

(** Each name belongs to one list and is not empty, and every entry is without a
    group or names one. *)
Record grouped (st : State) : Prop := {
  grp_unique : NoDup (groupNames st);
  grp_named : [] ∉ groupNames st;
  grp_projects : forall p, p ∈ projects st -> p ∈ groupNames st;
  grp_tasks : forall t, t ∈ tasks st -> project t = [] \/ project t ∈ groupNames st;
  grp_events : forall e p, e ∈ events st -> eProject e = Some p -> p = [] \/ p ∈ groupNames st
}.

(** What the user does to groups. *)
Inductive groupStep (st : State) : State -> Prop :=
| step_create rawName c newId : groupStep st (createGroup st rawName c newId).2
| step_rename from rawName : groupStep st (renameGroup st from rawName).2
| step_color nm c : groupStep st (setGroupColor st nm c)
| step_delete nm : groupStep st (deleteGroup st nm)
| step_assign picks nm withRepeats ids : nm = [] \/ nm ∈ groupNames st ->
    groupStep st (assignToGroup st picks nm withRepeats ids).

Lemma alter_names (f : TaskList -> TaskList) (n : nat) (l : list TaskList) : (forall x, lName (f x) = lName x) ->
  lName <$> alter f n l = lName <$> l.
Proof.
  intros E. apply list_eq. intros j. rewrite !list_lookup_fmap. destruct (decide (n = j)) as [->|N].
  - rewrite list_lookup_alter_eq. by destruct (l !! j); cbn; rewrite ?E.
  - by rewrite list_lookup_alter_ne.
Qed.

(** Only the names of lists matter, not their other members. *)
Lemma grouped_lists (st : State) (l : list TaskList) : grouped st -> lName <$> l = groupNames st -> grouped (setLists st l).
Proof. intros [A B C D F] E. split; unfold groupNames in *; cbn; rewrite ?E; done. Qed.

Lemma nameTaken_spec (st : State) (nm : bytes) : nameTaken st nm = false <-> nm ∉ groupNames st.
Proof. unfold nameTaken, groupNames. by rewrite bool_decide_eq_false. Qed.

(** One more list, with a new name. *)
Lemma grouped_more (st s : State) (x : TaskList) : grouped st -> lName x <> [] -> lName x ∉ groupNames st ->
  lists s = lists st ++ [x] -> tasks s = tasks st -> events s = events st ->
  (forall p, p ∈ projects s -> p ∈ projects st \/ p = lName x) -> grouped s.
Proof.
  intros [A B C D F] Ne Nt El Et Ee Ep.
  assert (Gn : groupNames s = groupNames st ++ [lName x]) by (unfold groupNames; by rewrite El, fmap_app).
  split; rewrite ?Gn, ?Et, ?Ee.
  - apply list.NoDup_app. split_and!; [done| |apply NoDup_singleton]. intros y Hy ->%list_elem_of_singleton. done.
  - intros [?|?%list_elem_of_singleton]%elem_of_app; [done|congruence].
  - intros p Hp. apply elem_of_app. destruct (Ep p Hp) as [H| ->]; [left; by apply C|right; by apply list_elem_of_singleton].
  - intros t Ht. rewrite elem_of_app. destruct (D t Ht); tauto.
  - intros e p He Hp. rewrite elem_of_app. destruct (F e p He Hp); tauto.
Qed.

Lemma ensureList_grouped (st : State) (nm newId : bytes) : grouped st -> nm <> [] -> nm ∉ groupNames st ->
  exists n st1, ensureList st nm newId = (Some n, st1) /\ grouped st1.
Proof.
  intros G Ne Nt. unfold ensureList. destruct (isEmpty nm) eqn:E; [destruct nm; done|].
  destruct (list_find (fun l => lName l = nm) (lists st)) as [[i x]|] eqn:Fi.
  { apply list_find_Some in Fi as (Hi & Hx & _). destruct Nt. unfold groupNames. apply list_elem_of_fmap.
    exists x. split; [done|]. by eapply list_elem_of_lookup_2. }
  eexists _, _. split; [reflexivity|]. set (x := {| lId := newId; lName := nm; lOrder := _; lColor := None |}).
  case_bool_decide as In; (eapply (grouped_more st _ x G Ne Nt); [reflexivity..|]); cbn; [by left|].
  intros p [?|?%list_elem_of_singleton]%elem_of_app; [by left|by right].
Qed.

Lemma createGroup_grouped (st : State) (rawName : bytes) (c : Z) (newId : bytes) : grouped st ->
  grouped (createGroup st rawName c newId).2.
Proof.
  intros G. unfold createGroup. destruct (isEmpty (normalizeGroupName rawName)) eqn:E; [done|].
  destruct (nameTaken st (normalizeGroupName rawName)) eqn:N; [done|]. apply nameTaken_spec in N.
  destruct (ensureList_grouped st (normalizeGroupName rawName) newId G) as (n & st1 & -> & G1);
    [by destruct (normalizeGroupName rawName)|done|]. cbn [snd].
  destruct (c =? 0); [done|]. apply grouped_lists; [done|]. by apply alter_names.
Qed.

Lemma rename_names (nm from : bytes) (n : nat) (x : TaskList) (l : list TaskList) :
  NoDup (lName <$> l) -> list_find (fun y => lName y = from) l = Some (n, x) ->
  lName <$> alter (withName nm) n l = (fun p => if bool_decide (p = from) then nm else p) <$> (lName <$> l).
Proof.
  intros Nd Fi. apply list_find_Some in Fi as (Hn & Hx & _). apply list_eq. intros j. rewrite !list_lookup_fmap.
  destruct (decide (n = j)) as [<-|N].
  - rewrite list_lookup_alter_eq, Hn. cbn. by rewrite bool_decide_eq_true_2.
  - rewrite list_lookup_alter_ne by done. destruct (l !! j) as [y|] eqn:Hj; [|done]. cbn. rewrite bool_decide_eq_false_2; [done|].
    intros E. destruct N. apply (NoDup_lookup (lName <$> l) n j from Nd); rewrite list_lookup_fmap; [rewrite Hn|rewrite Hj]; cbn; congruence.
Qed.

Lemma renameGroup_grouped (st : State) (from rawName : bytes) : grouped st -> grouped (renameGroup st from rawName).2.
Proof.
  intros G. pose proof G as [A B C D F]. unfold renameGroup. set (nm := normalizeGroupName rawName).
  destruct (isEmpty nm) eqn:E; [done|]. case_bool_decide as Ef; [done|].
  destruct (nameTaken st nm) eqn:N; [done|]. apply nameTaken_spec in N.
  destruct (list_find (fun l => lName l = from) (lists st)) as [[n x]|] eqn:Fi; [|done]. cbn [snd].
  set (sub := fun p => if bool_decide (p = from) then nm else p).
  set (st' := setEvents _ _). assert (Gn : groupNames st' = sub <$> groupNames st) by (by apply (rename_names nm from n x)).
  assert (Hne : nm <> []) by (by destruct nm).
  assert (Hfrom : from ∈ groupNames st).
  { apply list_find_Some in Fi as (Hi & Hx & _). apply list_elem_of_fmap. exists x. split; [done|]. by eapply list_elem_of_lookup_2. }
  assert (Sub : forall p, p ∈ groupNames st -> sub p ∈ groupNames st') by (intros p Hp; rewrite Gn; by apply list_elem_of_fmap_2).
  assert (New : nm ∈ groupNames st') by (specialize (Sub from Hfrom); unfold sub in Sub; by rewrite bool_decide_eq_true_2 in Sub).
  split.
  - rewrite Gn. apply NoDup_fmap_on; [|done]. intros x' y Hx Hy. unfold sub.
    destruct (bool_decide_reflect (x' = from)), (bool_decide_reflect (y = from)); intros; subst; (congruence || done).
  - rewrite Gn. intros (p & Ep & Hp)%list_elem_of_fmap. unfold sub in Ep. destruct (bool_decide_reflect (p = from)); congruence.
  - intros p Hp. cbn in Hp. apply list_elem_of_fmap in Hp as (q & -> & Hq). by apply Sub, C.
  - intros t Ht. cbn in Ht. apply list_elem_of_fmap in Ht as (t0 & -> & Ht0). destruct (bool_decide_reflect (project t0 = from)) as [Et|Et].
    + right. exact New.
    + destruct (D t0 Ht0) as [Dt|Dt]; [by left|right]. specialize (Sub _ Dt). unfold sub in Sub. by rewrite bool_decide_eq_false_2 in Sub.
  - intros e p He Hp. cbn in He. apply list_elem_of_fmap in He as (e0 & -> & He0).
    destruct (bool_decide_reflect (eProject e0 = Some from)) as [Et|Et].
    + cbn in Hp. injection Hp as <-. right. exact New.
    + destruct (F e0 p He0 Hp) as [Dt|Dt]; [by left|right]. specialize (Sub _ Dt). unfold sub in Sub.
      rewrite bool_decide_eq_false_2 in Sub; congruence.
Qed.

Lemma deleteGroup_grouped (st : State) (nm : bytes) : grouped st -> grouped (deleteGroup st nm).
Proof.
  intros [A B C D F]. assert (Gn : groupNames (deleteGroup st nm) = filter (fun p => p <> nm) (groupNames st)).
  { unfold groupNames. cbn. clear. induction (lists st) as [|x l IH]; [done|]. rewrite fmap_cons, !filter_cons.
    destruct (decide (lName x <> nm)); by rewrite ?fmap_cons, IH. }
  split; rewrite ?Gn.
  - by apply list.NoDup_filter.
  - rewrite list_elem_of_filter. tauto.
  - intros p Hp. cbn in Hp. apply list_elem_of_filter in Hp as [Hn Hp]. apply list_elem_of_filter. split; [done|by apply C].
  - intros t Ht. cbn in Ht. apply list_elem_of_fmap in Ht as (t0 & -> & Ht0). case_bool_decide as E; [by left|].
    destruct (D t0 Ht0) as [?|?]; [by left|right]. by apply list_elem_of_filter.
  - intros e p He Hp. cbn in He. apply list_elem_of_fmap in He as (e0 & -> & He0). case_bool_decide as E; [done|].
    destruct (F e0 p He0 Hp) as [?|?]; [by left|right]. apply list_elem_of_filter. split; [congruence|done].
Qed.

Lemma setGroupColor_grouped (st : State) (nm : bytes) (c : Z) : grouped st -> grouped (setGroupColor st nm c).
Proof.
  intros G. unfold setGroupColor. destruct (list_find _ _) as [[n x]|]; [|done]. apply grouped_lists; [done|]. by apply alter_names.
Qed.

(** What a change of entries may do to their groups. *)
Lemma grouped_entries (st s : State) : grouped st -> lists s = lists st -> projects s = projects st ->
  (forall t, t ∈ tasks s -> (exists t0, t0 ∈ tasks st /\ project t = project t0) \/ project t = [] \/ project t ∈ groupNames st) ->
  (forall e p, e ∈ events s -> eProject e = Some p ->
     (exists e0, e0 ∈ events st /\ eProject e = eProject e0) \/ p = [] \/ p ∈ groupNames st) ->
  grouped s.
Proof.
  intros [A B C D F] El Ep Et Ee. assert (Gn : groupNames s = groupNames st) by (unfold groupNames; by rewrite El).
  split; rewrite ?Gn, ?Ep; [done|done|done|..].
  - intros t Ht. destruct (Et t Ht) as [(t0 & H0 & ->)|H]; [by apply D|done].
  - intros e p He Hp. destruct (Ee e p He Hp) as [(e0 & H0 & E0)|H]; [|done]. apply (F e0 p H0). congruence.
Qed.

Lemma insert_elem {A} (l : list A) (n : nat) (x y : A) : y ∈ <[n := x]> l -> y = x \/ y ∈ l.
Proof.
  intros (i & Hi)%list_elem_of_lookup. destruct (decide (n = i)) as [->|N].
  - destruct (decide (i < length l)%nat) as [L|L].
    + rewrite list_lookup_insert_eq in Hi by done. left. congruence.
    + rewrite list_insert_ge in Hi by lia. right. by eapply list_elem_of_lookup_2.
  - rewrite list_lookup_insert_ne in Hi by done. right. by eapply list_elem_of_lookup_2.
Qed.

(** What detaching a day leaves: entries that were there, up to marks, and one
    that the patch made. *)
Lemma detachOf_members `{EntryLaws T} (st : State) (i day newId : bytes) (p : ItemPatch) :
  (detachOf (T := T) st i day p newId).2 = st \/
  exists l, (detachOf (T := T) st i day p newId).2 = setItems st l /\
    forall y, y ∈ l -> exists x, (y = x \/ exists os, y = setOccurrences os x) /\
      (x ∈ itemsOf st \/ exists d o j z, x = setDay d (setOrigin o (setId j (applyPatch p z)))).
Proof.
  unfold detachOf, excludeOf, setOccurrenceOf. cbv zeta. destruct (findIn (itemsOf st) i) as [[n x]|] eqn:Fx; [right|by left].
  cbn [snd]. rewrite items_setItems. set (new := setDay _ _).
  assert (New : forall y, y ∈ itemsOf st ++ [new] -> y ∈ itemsOf st \/ exists d o j z, y = setDay d (setOrigin o (setId j (applyPatch p z)))).
  { intros y [Hy|Hy%list_elem_of_singleton]%elem_of_app; [by left|]. right. subst y new. eauto. }
  destruct (findIn (itemsOf st ++ [new]) i) as [[m y]|] eqn:Fy; cbn [snd].
  - eexists. split; [unfold putAt; rewrite setItems_setItems, items_setItems; reflexivity|].
    apply findIn_spec in Fy as (Hy & _ & _). apply list_elem_of_lookup_2 in Hy.
    intros z [->|Hz]%insert_elem.
    + exists y. split; [right; unfold setOccurrenceItem; eauto|by apply New].
    + exists z. split; [by left|by apply New].
  - eexists. split; [reflexivity|]. intros z Hz. exists z. split; [by left|by apply New].
Qed.

(** Detaching a day makes an entry with the patch's group; marks change none. *)
Lemma detach_grouped (st : State) (k : SeriesKind) (i day newId : bytes) (p : option bytes) : grouped st ->
  (match k with TaskKind => default [] p = [] \/ default [] p ∈ groupNames st
              | EventKind => forall q, p = Some q -> q = [] \/ q ∈ groupNames st end) ->
  let s := (detachInstance st k i day (projectPatch p) newId).2 in grouped s /\ groupNames s = groupNames st.
Proof.
  intros G Hp. destruct k; cbn [detachInstance injected snd].
  - destruct (detachOf_members (T := Task) st i day newId (projectPatch p)) as [->|(l & -> & M)]; [done|]. split; [|reflexivity].
    apply (grouped_entries st); [exact G|reflexivity|reflexivity| |intros e q He Hq; left; by exists e].
    intros t Ht. destruct (M t Ht) as (x & Ex & Hx). assert (project t = project x) as -> by (by destruct Ex as [->|[os ->]]).
    destruct Hx as [Hx|(d & o & j & z & ->)]; [left; by exists x|right; exact Hp].
  - destruct (detachOf_members (T := Event) st i day newId (projectPatch p)) as [->|(l & -> & M)]; [done|]. split; [|reflexivity].
    apply (grouped_entries st); [exact G|reflexivity|reflexivity|intros t Ht; left; by exists t|].
    intros e q He Hq. destruct (M e He) as (x & Ex & Hx).
    assert (eProject e = eProject x) as Ee by (by destruct Ex as [->|[os ->]]). rewrite Ee in Hq |- *.
    destruct Hx as [Hx|(d & o & j & z & ->)]; [left; by exists x|right; by apply Hp].
Qed.

Lemma assignOne_grouped (nm : bytes) (wr : bool) (st : State) (done : list (SeriesKind * bytes)) (ids : list bytes) (pick : GroupPick) :
  grouped st -> nm = [] \/ nm ∈ groupNames st ->
  let s := (assignOne nm wr (st, done, ids) pick).1.1 in grouped s /\ groupNames s = groupNames st.
Proof.
  intros G Hn. unfold assignOne. cbv zeta.
  destruct (if isRepeat pick && negb wr then pickDay pick else None) as [[|c d]|].
  2: { set (p := match pickKind pick with EventKind => _ | TaskKind => Some nm end).
    pose proof (detach_grouped st (pickKind pick) (pickId pick) (c :: d) (hd [] ids) p G) as H. cbv zeta in H.
    destruct (detachInstance _ _ _ _ _ _) as [r st1]. apply H. subst p. destruct (pickKind pick); [done|].
    intros q Hq. destruct (isEmpty nm); [done|]. by injection Hq as <-. }
  all: destruct (_ && bool_decide _); [done|]; cbn [fst]; split; [|by destruct (pickKind pick)].
  all: destruct (pickKind pick); apply (grouped_entries st); try done; cbn.
  all: try (intros t Ht; left; by exists t).
  all: try (intros e q He Hq; left; by exists e).
  all: try (intros t (t0 & -> & Ht0)%list_elem_of_fmap; destruct (picked pick _ t0); [by right|left; by exists t0]).
  all: intros e q (e0 & -> & He0)%list_elem_of_fmap Hq; destruct (picked pick _ e0); [|left; by exists e0].
  all: cbn in Hq; destruct (isEmpty nm); [done|]; injection Hq as <-; by right.
Qed.

Lemma assignToGroup_grouped (st : State) (picks : list GroupPick) (nm : bytes) (wr : bool) (ids : list bytes) :
  grouped st -> nm = [] \/ nm ∈ groupNames st -> grouped (assignToGroup st picks nm wr ids).
Proof.
  unfold assignToGroup. generalize (@nil (SeriesKind * bytes)) as done. revert st ids.
  induction picks as [|pick picks IH]; intros st ids done G Hn; [exact G|]. cbn [foldl].
  destruct (assignOne_grouped nm wr st done ids pick G Hn) as [G1 N1].
  destruct (assignOne nm wr (st, done, ids) pick) as [[st1 done1] ids1]. cbn [fst] in *. apply IH; [done|]. by rewrite N1.
Qed.

(** Claim C36 (groups_consistent): whatever the user does to groups, in any order:
    creating, renaming, colouring and deleting them and putting entries or
    single days of series into them, no two lists have one name, and every task
    and event is without a group or in one that exists. *)
Theorem groups_consistent (st st' : State) : grouped st -> rtc groupStep st st' -> grouped st'.
Proof.
  intros G R. induction R as [|s s1 s2 S _ IH]; [done|]. apply IH. destruct S as [rawName c newId|from rawName|nm c|nm|picks nm wr ids Hn].
  - by apply createGroup_grouped.
  - by apply renameGroup_grouped.
  - by apply setGroupColor_grouped.
  - by apply deleteGroup_grouped.
  - by apply assignToGroup_grouped.
Qed.

Definition groupTask (i p : bytes) (r : Z) (s : bytes) : Task :=
  {| id := i; name := i; description := []; steps := []; status := s; project := p; rank := rankOf r; tDay := None;
     tStart := None; due := None; minutes := None; repeat_ := None; occurrences := None; origin := None; source := None;
     remind := None; instanceDay := None |}.
Definition groupState : State :=
  {| tasks := [groupTask #"a" [] 0 #"queue"; groupTask #"b" #"Home" 0 #"queue"; groupTask #"c" [] 0 #"queue"; groupTask #"d" [] 7 #"queue"];
     events := []; projects := [ #"Home"]; lists := [{| lId := #"1"; lName := #"Home"; lOrder := 0; lColor := None |}];
     budget := 600; settings := defaultSettings; reminded := [] |}.
Definition workPick : GroupPick := {| pickKind := TaskKind; pickId := #"a"; pickDay := None; isRepeat := false |}.
Definition workState : State :=
  assignToGroup (createGroup groupState #" Work" 3 #"2").2
    [workPick] #"Work" true [].

Lemma groups_consistent_witness :
  let st' := deleteGroup (renameGroup workState #"Work" #"Job").2 #"Home" in
  grouped st' /\ (project <$> tasks st') = [ #"Job"; []; []; []] /\ projects st' = [ #"Job"].
Proof.
  cbv zeta. split; [|vm_compute; by split].
  apply (groups_consistent groupState).
  - split; [apply NoDup_singleton|apply not_elem_of_cons; split; [discriminate|apply not_elem_of_nil]| | |].
    + apply Forall_elem. apply list.Forall_cons. split; [apply list_elem_of_here|constructor].
    + apply Forall_elem. repeat (apply list.Forall_cons; split; [first [by left|right; apply list_elem_of_here]|]). constructor.
    + intros e p He. inversion He.
  - eapply rtc_l; [apply (step_create _ #" Work" 3 #"2")|]. eapply rtc_l; [apply (step_assign _ [workPick] #"Work" true [])|].
    + right. apply (bool_decide_unpack _). vm_compute. exact I.
    + eapply rtc_l; [apply (step_rename _ #"Work" #"Job")|]. eapply rtc_l; [apply step_delete|apply rtc_refl].
Defined.

(** Property (layers_roundtrip): the layers of the calendar read back as they
    were written. *)
Theorem layers_roundtrip (l : Layers) : parseLayers (Some (serializeLayers l)) = l.
Proof. destruct l as [[] [] []]; vm_compute; reflexivity. Qed.
End TaskLists.
