(* ===== verification/Reminders.v ===== *)
(** * Reminders: what is due and when

    Module [Reminders] models [src/sections/planner_reminders.cpp]: wall-clock
    moments in milliseconds from 1970-01-01, the reminders of a period, those
    that are due and not marked, and the approximate [localeCompare] that
    orders them. [std::stoll] throws what [None] stands for. *)

From stdpp Require Import sorting.
From S2P Require Import Prelude Utf8 PlannerUtil Calendar Repeat Order PlannerState Series DayPlan.
Import Decimal Util Calendar Repeats Planner Series DayPlan.

#[local] Open Scope Z_scope.

Module Reminders.

Definition kMinuteMs : Z := 60 * 1000.
Definition kDayMs : Z := 24 * 60 * kMinuteMs.

(** ** Moments *)

Definition isspace (c : byte) : bool := (b2z c =? 32) || ((9 <=? b2z c) && (b2z c <=? 13)).

Fixpoint numeral (s : bytes) : bytes :=
  match s with
  | c :: s' => if isDigit c then c :: numeral s' else []
  | [] => []
  end.

(** [std::stoll]: spaces, a sign, digits; what follows is ignored. It throws
    without a digit and beyond 64 bits. *)
Definition stoll (s : bytes) : option Z :=
  let s := Unicode.drop_while isspace s in
  let '(neg, s) := match s with
                   | c :: s' => if bool_decide (c = "-"%byte) then (true, s')
                                else if bool_decide (c = "+"%byte) then (false, s') else (false, s)
                   | [] => (false, [])
                   end in
  match numeral s with
  | [] => None
  | ds => let v := if neg : bool then - value ds else value ds in
          if (- 2 ^ 63 <=? v) && (v <? 2 ^ 63) then Some v else None
  end.

Definition numAt (chunks : list bytes) (i : nat) : option Z :=
  match chunks !! i with Some (c :: s) => stoll (c :: s) | _ => Some 0 end.

Definition epochOfDay (day : bytes) : option Z :=
  let chunks := split day "-" in
  y ← numAt chunks 0; m ← numAt chunks 1; d ← numAt chunks 2; Some (daysFromCivil y m d).

Definition wallMs (day : bytes) (minutesOfDay : Z) : option Z :=
  e ← epochOfDay day; Some (e * kDayMs + minutesOfDay * kMinuteMs).

Definition wallDay (ms : Z) : bytes := addDays #"1970-01-01" (floorDiv ms kDayMs).

Definition wallTime (ms : Z) : bytes := toTime (Z.quot (ms - floorDiv ms kDayMs * kDayMs) kMinuteMs).

Definition reminderKey (i day : bytes) (m : Z) : bytes := i ++ #"@" ++ day ++ #"@" ++ to_string m.

(** ** The order of keys *)

Definition isUpperC (c : Z) : bool := (0x41 <=? c) && (c <=? 0x5A).
Definition isLowerC (c : Z) : bool := (0x61 <=? c) && (c <=? 0x7A).
Definition tolowerC (c : Z) : Z := if isUpperC c then c + 32 else c.

Definition rankOfByte (c : Z) : Z :=
  if (48 <=? c) && (c <=? 57) then 1 else if isUpperC c || isLowerC c || (0x80 <=? c) then 2 else 0.

(** The first loop: decided at a place, or by what [rest] says at the end of
    the shorter key. *)
Fixpoint decideAt (a b : bytes) (rest : bool) : bool :=
  match a, b with
  | x :: a', y :: b' =>
      let ca := b2z x in
      let cb := b2z y in
      if ca =? cb then decideAt a' b' rest
      else if negb (rankOfByte ca =? rankOfByte cb) then rankOfByte ca <? rankOfByte cb
      else if negb (tolowerC ca =? tolowerC cb) then tolowerC ca <? tolowerC cb
      else decideAt a' b' rest
  | _, _ => rest
  end.

Fixpoint lowerFirst (a b : bytes) : bool :=
  match a, b with
  | x :: a', y :: b' => if bool_decide (x = y) then lowerFirst a' b' else isLowerC (b2z x)
  | _, _ => false
  end.

Definition keyLess (a b : bytes) : bool :=
  decideAt a b (if negb (length a =? length b)%nat then (length a <? length b)%nat else lowerFirst a b).

(** ** The reminders of a period *)

Record Reminder := {
  rKey : bytes; rAt : Z; rStartsAt : Z; rTitle : bytes; rKind : bytes; rDay : bytes; rStart : option bytes
}.

Definition reminderLess (a b : Reminder) : bool :=
  if negb (rAt a =? rAt b) then rAt a <? rAt b else keyLess (rKey a) (rKey b).

Section Window.
Context (st : State) (fromMs toMs : Z).

Definition inWindow (r : Reminder) : bool := negb ((rAt r <? fromMs) || (toMs <? rAt r)).

(** [add]: what one entry gives on a day. *)
Definition addReminder (day kd i title : bytes) (m : option Z) (start : option bytes) : option (list Reminder) :=
  match m with
  | None => Some []
  | Some m =>
      startsAt ← wallMs day (if truthy start then toMinutes (default [] start) else dayStart (settings st));
      let r := {| rKey := reminderKey i day m; rAt := startsAt - m * kMinuteMs; rStartsAt := startsAt; rTitle := title;
                  rKind := kd; rDay := day; rStart := if truthy start then start else None |} in
      Some (if inWindow r then [r] else [])
  end.

Definition isDoneOn (day : bytes) (t : Task) : bool :=
  if isRepeating t then isInstanceDone t day else bool_decide (status t = #"done").

Definition remindTask (day : bytes) (t : Task) : option (list Reminder) :=
  if isDoneOn day t then Some [] else addReminder day #"task" (id t) (name t) (remind t) (tStart t).

Definition remindEvent (day : bytes) (e : Event) : option (list Reminder) :=
  addReminder day #"event" (eId e) (eName e) (eRemind e) (if allDayOf e then None else Some (eStart e)).

Definition remindersOf (day : bytes) : option (list Reminder) :=
  ts ← mapM (remindTask day) (getTasksForDay st day);
  es ← mapM (remindEvent day) (getEventsForDay st day);
  Some (concat ts ++ concat es).

(** The loop over days; [None] also when the fuel ends first. *)
Fixpoint collectDays (fuel : nat) (day lastDay : bytes) : option (list Reminder) :=
  if ble day lastDay then
    match fuel with
    | O => None
    | S fuel => l ← remindersOf day; rest ← collectDays fuel (addDays day 1) lastDay; Some (l ++ rest)
    end
  else Some [].

(** Eight days more than the period, one for its first day. *)
Definition fuelOfWindow : nat := Z.to_nat (floorDiv toMs kDayMs - floorDiv fromMs kDayMs + 9).

Definition getReminders : option (list Reminder) :=
  out ← collectDays fuelOfWindow (wallDay fromMs) (addDays (wallDay toMs) 8);
  Some (stableSort reminderLess out).
End Window.

Definition getDueReminders (st : State) (nowMs sinceMs : Z) : option (list Reminder) :=
  out ← getReminders st sinceMs nowMs; Some (filter (fun r => rKey r ∉ reminded st) out).

Definition kReminderHorizonMs : Z := 30 * 24 * 60 * 60 * 1000.
Definition kReminderCatchUpMs : Z := 48 * 60 * 60 * 1000.
Definition kMaxUpcomingReminders : nat := 64.

Record ReminderPlan := { upcoming : list Reminder; dueNow : list Reminder }.

Definition readReminders (st : State) (nowMs : Z) : option ReminderPlan :=
  up ← getReminders st nowMs (nowMs + kReminderHorizonMs);
  du ← getDueReminders st nowMs (nowMs - kReminderCatchUpMs);
  Some {| upcoming := take kMaxUpcomingReminders up; dueNow := du |}.

(** ** Moments of keys *)

Lemma stoll_digits (c : byte) (s : bytes) : forallb isDigit (c :: s) = true -> value (c :: s) < 2 ^ 63 ->
  0 <= value (c :: s) -> stoll (c :: s) = Some (value (c :: s)).
Proof.
  intros D L P. assert (Dc : isDigit c = true) by (by apply andb_true_iff in D as [? _]).
  apply isDigit_inv in Dc as (d & Hd & ->). unfold stoll. cbn [Unicode.drop_while].
  assert (isspace (digit d) = false) as -> by (unfold isspace; rewrite digit_value by done; lia).
  rewrite bool_decide_eq_false_2 by (by apply digit_not_dash).
  rewrite bool_decide_eq_false_2 by (intros E; apply (f_equal b2z) in E; rewrite digit_value in E by done; cbn in E; lia).
  assert (numeral (digit d :: s) = digit d :: s) as E.
  { clear L P. revert D. generalize (digit d :: s). intros l. induction l as [|x l IH]; cbn [numeral forallb]; [done|].
    destruct (isDigit x); [|done]. cbn. intros ?. by rewrite IH. }
  rewrite E. rewrite (proj2 (Z.leb_le (- 2 ^ 63) _)) by lia. by rewrite (proj2 (Z.ltb_lt _ _) L).
Qed.

Lemma epochOfDay_key (e : Z) : keyDay e -> epochOfDay (keyOfEpoch e) = Some e.
Proof.
  intros K. apply keyDay_iff in K as Kp. rewrite keyOfEpoch_eq. rewrite <- (proj2 (civil_spec e)) at 2.
  pose proof (keyDate_ranges _ Kp) as (H1 & H2 & H3). unfold epochOfDay, daysOf.
  destruct (key_pieces _ Kp) as (Y & M & D & -> & F & VY & VM & VD).
  repeat (apply list.Forall_cons in F as [[? ?] F]).
  assert (N : forall s, (1 <= length s)%nat -> forallb isDigit s = true -> 0 <= value s < 2 ^ 63 ->
    (match s with c :: s' => stoll (c :: s') | [] => Some 0 end) = Some (value s)).
  { intros [|c s] ? ? ?; [cbn in *; lia|]. apply stoll_digits; [done|lia..]. }
  unfold numAt. cbn [lookup list_lookup]. rewrite !N by (done || lia). rewrite VY, VM, VD. done.
Qed.

Lemma wallMs_key (e m : Z) : keyDay e -> wallMs (keyOfEpoch e) m = Some (e * kDayMs + m * kMinuteMs).
Proof. intros K. unfold wallMs. by rewrite epochOfDay_key. Qed.

Lemma wallDay_key (ms : Z) : wallDay ms = keyOfEpoch (ms `div` kDayMs).
Proof. unfold wallDay, addDays. rewrite floorDiv_div by done. f_equal. Qed.

(** ** The order of keys is total *)

Definition letterCmp (x y : byte) : Z :=
  lex (cmp (rankOfByte (b2z x)) (rankOfByte (b2z y))) (cmp (tolowerC (b2z x)) (tolowerC (b2z y))).
Definition caseCmp (x y : byte) : Z := cmp (if isLowerC (b2z x) then 0 else 1) (if isLowerC (b2z y) then 0 else 1).
Definition keyCmp (a b : bytes) : Z := lex (lexList letterCmp a b) (lexList caseCmp a b).

Lemma keyCmp_ordering : ordering (fun _ => True) keyCmp.
Proof.
  apply (ordering_weaken (Forall (fun _ => True))); [intros; by apply Forall_true|].
  apply ordering_lex; apply ordering_list; [apply ordering_lex; apply (ordering_map _ _ (fun _ => True)); auto with orders|].
  apply (ordering_map _ (fun x => if isLowerC (b2z x) then 0 else 1) (fun _ => True)); auto with orders.
Qed.

Lemma letterCmp_zero (x y : byte) : letterCmp x y = 0 <->
  rankOfByte (b2z x) = rankOfByte (b2z y) /\ tolowerC (b2z x) = tolowerC (b2z y).
Proof. unfold letterCmp. by rewrite lex_zero, !cmp_zero. Qed.

Lemma letterCmp_same (x y : byte) : b2z x = b2z y -> letterCmp x y = 0.
Proof. intros E. apply letterCmp_zero. by rewrite E. Qed.

(** A step of the first loop. *)
Lemma decideAt_cons (x y : byte) (a b : bytes) (rest : bool) :
  decideAt (x :: a) (y :: b) rest = if letterCmp x y =? 0 then decideAt a b rest else letterCmp x y <? 0.
Proof.
  cbn [decideAt]. destruct (Z.eqb_spec (b2z x) (b2z y)) as [E|N]; [by rewrite (letterCmp_same x y E)|].
  unfold letterCmp, lex, cmp.
  destruct (Z.eqb_spec (rankOfByte (b2z x)) (rankOfByte (b2z y))) as [->|]; cbn [negb].
  - rewrite Z.ltb_irrefl. cbn [Z.eqb]. destruct (Z.eqb_spec (tolowerC (b2z x)) (tolowerC (b2z y))) as [->|]; cbn [negb];
      [by rewrite Z.ltb_irrefl|].
    by destruct (Z.ltb_spec (tolowerC (b2z x)) (tolowerC (b2z y))), (Z.ltb_spec (tolowerC (b2z y)) (tolowerC (b2z x))); try lia.
  - by destruct (Z.ltb_spec (rankOfByte (b2z x)) (rankOfByte (b2z y))), (Z.ltb_spec (rankOfByte (b2z y)) (rankOfByte (b2z x))); try lia.
Qed.

Lemma decideAt_same (rest : bool) (a : bytes) : forall b, length a = length b ->
  decideAt a b rest = if lexList letterCmp a b =? 0 then rest else lexList letterCmp a b <? 0.
Proof.
  induction a as [|x a IH]; intros [|y b] L; try done. injection L as L. rewrite decideAt_cons, IH by done. cbn [lexList].
  unfold lex. destruct (Z.eqb_spec (letterCmp x y) 0) as [|N]; [done|]. by destruct (Z.eqb_spec (letterCmp x y) 0).
Qed.

Lemma decideAt_shorter (a : bytes) : forall b, length a <> length b ->
  lexList letterCmp a b <> 0 /\ decideAt a b (length a <? length b)%nat = (lexList letterCmp a b <? 0).
Proof.
  induction a as [|x a IH]; intros [|y b] L; try done. cbn [length] in L.
  destruct (IH b ltac:(congruence)) as [I1 I2]. rewrite decideAt_cons. cbn [lexList]. unfold lex.
  change (length (x :: a) <? length (y :: b))%nat with (length a <? length b)%nat. rewrite I2.
  by destruct (Z.eqb_spec (letterCmp x y) 0).
Qed.

(** Letters that differ only in case. *)
Lemma caseCmp_zero (x y : byte) : letterCmp x y = 0 -> caseCmp x y = 0 <-> x = y.
Proof.
  intros [_ E]%letterCmp_zero. unfold caseCmp. rewrite cmp_zero. split; [|by intros ->]. intros C. apply b2z_inj.
  revert E C. unfold tolowerC, isUpperC, isLowerC.
  destruct (_ && _) eqn:U1 in |- *; destruct ((0x41 <=? b2z y) && (b2z y <=? 0x5A)) eqn:U2;
    destruct ((0x61 <=? b2z x) && (b2z x <=? 0x7A)) eqn:L1; destruct ((0x61 <=? b2z y) && (b2z y <=? 0x7A)) eqn:L2; lia.
Qed.

Lemma lowerFirst_case (a : bytes) : forall b, length a = length b -> lexList letterCmp a b = 0 ->
  lowerFirst a b = (lexList caseCmp a b <? 0).
Proof.
  induction a as [|x a IH]; intros [|y b] L; try done. injection L as L. cbn [lexList lowerFirst]. intros [P1 P2]%lex_zero.
  unfold lex. destruct (Z.eqb_spec (caseCmp x y) 0) as [E|E].
  - apply caseCmp_zero in E as ->; [|done]. rewrite bool_decide_eq_true_2 by done. by apply IH.
  - rewrite bool_decide_eq_false_2 by (intros ->; apply E; by apply caseCmp_zero).
    unfold caseCmp in *. rewrite cmp_sign in *. by destruct (isLowerC (b2z x)), (isLowerC (b2z y)).
Qed.

Lemma keyLess_cmp (a b : bytes) : keyLess a b = (keyCmp a b <? 0).
Proof.
  unfold keyLess, keyCmp, lex. destruct (Nat.eqb_spec (length a) (length b)) as [L|L]; cbn [negb].
  - rewrite decideAt_same by done. destruct (Z.eqb_spec (lexList letterCmp a b) 0); [by apply lowerFirst_case|done].
  - destruct (decideAt_shorter a b L) as [N ->]. by destruct (Z.eqb_spec (lexList letterCmp a b) 0).
Qed.

Lemma keyCmp_zero (a b : bytes) : keyCmp a b = 0 <-> a = b.
Proof.
  unfold keyCmp. rewrite lex_zero. split.
  - revert b. induction a as [|x a IH]; intros [|y b]; cbn [lexList]; try (intros [? ?]; discriminate); [done|].
    rewrite !lex_zero. intros [[P1 P2] [C1 C2]]. f_equal; [by apply caseCmp_zero|by apply IH].
  - intros <-. split; apply (ord_refl (Forall (fun _ => True))); try (by apply Forall_true);
      apply ordering_list; unfold letterCmp, caseCmp; [apply ordering_lex; apply (ordering_map _ _ (fun _ => True)); auto with orders|].
    apply (ordering_map _ (fun x => if isLowerC (b2z x) then 0 else 1) (fun _ => True)); auto with orders.
Qed.

Definition reminderCmp (a b : Reminder) : Z := lex (cmp (rAt a) (rAt b)) (keyCmp (rKey a) (rKey b)).

Lemma reminderCmp_ordering : ordering (fun _ => True) reminderCmp.
Proof.
  apply ordering_lex; [apply (ordering_map _ rAt (fun _ => True)); auto with orders|].
  apply (ordering_map _ rKey (fun _ => True)); [done|apply keyCmp_ordering].
Qed.

Lemma reminderLess_cmp (a b : Reminder) : reminderLess a b = (reminderCmp a b <? 0).
Proof.
  unfold reminderLess, reminderCmp, lex, cmp. rewrite keyLess_cmp.
  destruct (Z.eqb_spec (rAt a) (rAt b)) as [->|]; cbn [negb]; [by rewrite Z.ltb_irrefl|].
  by destruct (Z.ltb_spec (rAt a) (rAt b)), (Z.ltb_spec (rAt b) (rAt a)); try lia.
Qed.

(** Property (keyLess_total): the order of keys is a strict total order: no key
    is before itself, of two different keys one is before the other, and it is
    transitive. *)
Theorem keyLess_total (a b c : bytes) :
  keyLess a a = false /\ (a <> b -> keyLess a b = negb (keyLess b a)) /\
  (keyLess a b = true -> keyLess b c = true -> keyLess a c = true).
Proof.
  pose proof keyCmp_ordering as O. rewrite !keyLess_cmp. split_and!.
  - by rewrite (ord_refl _ _ O a I).
  - intros N. rewrite (ord_anti O a b I I). assert (keyCmp a b <> 0) by (by rewrite keyCmp_zero). lia.
  - intros A B. assert (keyCmp a c < 0); [|lia]. apply (ord_lt_l _ _ O a b c); try done; lia.
Qed.

(** ** The reminders of a window *)

(** What an entry of a day gives, without a window. *)
Definition reminderAt (s : Settings) (e : Z) (kd i title : bytes) (start : option bytes) (m : Z) : Reminder :=
  let starts := e * kDayMs + (if truthy start then toMinutes (default [] start) else dayStart s) * kMinuteMs in
  {| rKey := reminderKey i (keyOfEpoch e) m; rAt := starts - m * kMinuteMs; rStartsAt := starts; rTitle := title;
     rKind := kd; rDay := keyOfEpoch e; rStart := if truthy start then start else None |}.

Definition taskReminder (s : Settings) (e : Z) (t : Task) : option Reminder :=
  if isDoneOn (keyOfEpoch e) t then None else reminderAt s e #"task" (id t) (name t) (tStart t) <$> remind t.
Definition eventReminder (s : Settings) (e : Z) (v : Event) : option Reminder :=
  reminderAt s e #"event" (eId v) (eName v) (if allDayOf v then None else Some (eStart v)) <$> eRemind v.

Definition planned (st : State) (e : Z) : list Reminder :=
  omap (taskReminder (settings st) e) (getTasksForDay st (keyOfEpoch e)) ++
  omap (eventReminder (settings st) e) (getEventsForDay st (keyOfEpoch e)).

Section Collect.
Context (st : State) (fromMs toMs : Z).
Notation inside := (inWindow fromMs toMs).

Lemma mapM_window {A} (f : A -> option (list Reminder)) (g : A -> option Reminder) (l : list A) :
  (forall x, f x = Some (match g x with Some r => if inside r then [r] else [] | None => [] end)) ->
  exists ls, mapM f l = Some ls /\ concat ls = filter inside (omap g l).
Proof.
  intros E. induction l as [|x l (ls & IH & C)]; [by exists []|].
  eexists. split; [cbn; rewrite E; cbn; rewrite IH; reflexivity|]. cbn. destruct (g x) as [r|]; [|exact C].
  rewrite filter_cons, C. destruct (inside r); [by rewrite decide_True by done|by rewrite decide_False by (cbn; congruence)].
Qed.

Lemma remindersOf_key (e : Z) : keyDay e -> remindersOf st fromMs toMs (keyOfEpoch e) = Some (filter inside (planned st e)).
Proof.
  intros K. unfold remindersOf.
  destruct (mapM_window (remindTask st fromMs toMs (keyOfEpoch e)) (taskReminder (settings st) e)
              (getTasksForDay st (keyOfEpoch e))) as (ts & -> & Ct).
  { intros t. unfold remindTask, taskReminder. destruct (isDoneOn _ t); [done|]. unfold addReminder.
    destruct (remind t); [|done]. rewrite wallMs_key by done. done. }
  destruct (mapM_window (remindEvent st fromMs toMs (keyOfEpoch e)) (eventReminder (settings st) e)
              (getEventsForDay st (keyOfEpoch e))) as (es & -> & Ce).
  { intros v. unfold remindEvent, eventReminder, addReminder. destruct (eRemind v); [|done]. by rewrite wallMs_key. }
  cbn [mbind option_bind]. unfold planned. by rewrite list.filter_app, Ct, Ce.
Qed.

Lemma collectDays_keys (hi : Z) (n : nat) : keyDay hi -> keyDay (hi + 1) -> forall e, e + Z.of_nat n = hi + 1 -> keyDay e ->
  collectDays st fromMs toMs n (keyOfEpoch e) (keyOfEpoch hi) = Some (filter inside (mbind (planned st) (upTo e n))).
Proof.
  intros Kh Kn. induction n as [|n IH]; intros e E K; cbn [collectDays]; unfold ble; rewrite blt_keyOfEpoch by done.
  - by destruct (Z.ltb_spec hi e); [|lia].
  - destruct (Z.ltb_spec hi e); [lia|]. cbn [negb]. rewrite remindersOf_key by done. cbn [mbind option_bind].
    rewrite addDays_keyOfEpoch, IH by (done || lia || (unfold keyDay in *; lia)). cbn [mbind option_bind].
    unfold upTo at 2. cbn [seq fmap list_fmap]. rewrite bind_cons, list.filter_app. rewrite Z.add_0_r. do 3 f_equal.
    unfold upTo. rewrite <- fmap_S_seq, <- list_fmap_compose. f_equal. apply list_fmap_ext. intros i x _. cbn. lia.
Qed.
End Collect.

(** Reminders come at most eight days before their entry, and entries begin
    within their day. *)
Record timely (st : State) : Prop := {
  tm_dayStart : 0 <= dayStart (settings st) < kMinutesInDay;
  tm_task t m : t ∈ tasks st -> remind t = Some m ->
    0 <= m <= 8 * kMinutesInDay /\ (truthy (tStart t) = true -> 0 <= toMinutes (default [] (tStart t)) < kMinutesInDay);
  tm_event v m : v ∈ events st -> eRemind v = Some m ->
    0 <= m <= 8 * kMinutesInDay /\ (eStart v <> [] -> 0 <= toMinutes (eStart v) < kMinutesInDay)
}.

Lemma taskAt_remind (day : bytes) (t : Task) : remind (taskAt day t) = remind t /\ tStart (taskAt day t) = tStart t.
Proof. unfold taskAt. by destruct (repeat_ t). Qed.

Lemma eventAt_remind (day : bytes) (v : Event) : eRemind (eventAt day v) = eRemind v /\ eStart (eventAt day v) = eStart v.
Proof. unfold eventAt. by destruct (eRepeat v). Qed.

Lemma planned_near (st : State) (e : Z) (r : Reminder) : timely st -> r ∈ planned st e ->
  (e - 8) * kDayMs <= rAt r < (e + 1) * kDayMs.
Proof.
  intros [Td Tt Te] [(t & Ht & Er)%list_elem_of_omap|(v & Hv & Er)%list_elem_of_omap]%elem_of_app.
  - unfold getTasksForDay in Ht. apply list_elem_of_fmap in Ht as (t0 & -> & [_ H0]%list_elem_of_filter).
    unfold taskReminder in Er. destruct (isDoneOn _ _); [done|]. destruct (taskAt_remind (keyOfEpoch e) t0) as [R S].
    rewrite R, S in Er. destruct (remind t0) as [m|] eqn:Em; [|done]. injection Er as <-.
    destruct (Tt t0 m H0 Em) as [Hm Hs]. cbn [rAt reminderAt]. unfold kMinutesInDay, kDayMs, kMinuteMs in *.
    destruct (truthy (tStart t0)); [specialize (Hs eq_refl)|]; lia.
  - unfold getEventsForDay, sortEvents in Hv. rewrite (stableSort_perm _ _) in Hv.
    apply list_elem_of_fmap in Hv as (v0 & -> & [_ H0]%list_elem_of_filter).
    unfold eventReminder in Er. destruct (eventAt_remind (keyOfEpoch e) v0) as [R S].
    rewrite R, S in Er. destruct (eRemind v0) as [m|] eqn:Em; [|done]. injection Er as <-.
    destruct (Te v0 m H0 Em) as [Hm Hs]. cbn [rAt reminderAt]. unfold kMinutesInDay, kDayMs, kMinuteMs in *.
    destruct (allDayOf _); [cbn; lia|]. destruct (eStart v0) as [|c s]; cbn [truthy isEmpty negb from_option Datatypes.id]; [lia|].
    specialize (Hs ltac:(done)). lia.
Qed.

Lemma outside_window (st : State) (fromMs toMs lo : Z) (n : nat) : timely st ->
  (forall e, lo <= e < lo + Z.of_nat n -> (e + 1) * kDayMs <= fromMs \/ toMs < (e - 8) * kDayMs) ->
  filter (inWindow fromMs toMs) (mbind (planned st) (upTo lo n)) = [].
Proof.
  intros T Far. apply elem_of_nil_inv. intros r [W (e & Hr & He)%list_elem_of_bind]%list_elem_of_filter.
  apply upTo_elem in He. specialize (Far e He). pose proof (planned_near st e r T Hr). apply Is_true_true in W. unfold inWindow in W. lia.
Qed.

(** Claim C20 (reminders_complete): when reminders come at most eight days
    before their entries, the reminders of a window of time are exactly those
    planned on any larger range of days whose moment is in the window, no day
    being missed by the few that are looked at; they are in the order of their
    moments, then of their keys. *)
Theorem reminders_complete (st : State) (fromMs toMs lo hi : Z) : timely st -> fromMs <= toMs ->
  keyDay lo -> keyDay (hi + 1) -> lo <= fromMs `div` kDayMs -> toMs `div` kDayMs + 8 <= hi ->
  exists out, getReminders st fromMs toMs = Some out /\
    Permutation out (filter (inWindow fromMs toMs) (mbind (planned st) (daysBetween lo hi))) /\
    StronglySorted (fun a b => reminderLess b a = false) out.
Proof.
  intros T Le Kl Kh Hl Hh. set (f := fromMs `div` kDayMs) in *. set (t := toMs `div` kDayMs) in *.
  assert (Ld : f <= t) by (apply Z.div_le_mono; done).
  assert (Kf : keyDay f /\ keyDay t /\ keyDay (t + 8) /\ keyDay (t + 8 + 1)) by (unfold keyDay in *; lia).
  destruct Kf as (Kf & Kt & K8 & K9). unfold getReminders, fuelOfWindow. rewrite !floorDiv_div by done. fold f t.
  rewrite !wallDay_key. fold f t. rewrite (addDays_keyOfEpoch t 8) by done.
  rewrite (collectDays_keys st fromMs toMs (t + 8)) by (done || lia). cbn [mbind option_bind].
  eexists. split; [reflexivity|]. split.
  - rewrite (stableSort_perm _ _). unfold daysBetween.
    replace (Z.to_nat (hi - lo + 1)) with (Z.to_nat (f - lo) + (Z.to_nat (t - f + 9) + Z.to_nat (hi - (t + 8))))%nat by lia.
    rewrite !upTo_app, !bind_app, !list.filter_app. replace (lo + Z.of_nat (Z.to_nat (f - lo))) with f by lia.
    pose proof (Z.mul_div_le fromMs kDayMs ltac:(done)) as M1. pose proof (Z.mul_succ_div_gt toMs kDayMs ltac:(done)) as M2.
    fold f in M1. fold t in M2. clearbody f t.
    rewrite (outside_window st fromMs toMs lo), (outside_window st fromMs toMs (f + _)); try done.
    + by rewrite app_nil_r.
    + intros e He. right. unfold kDayMs, kMinuteMs in *. lia.
    + intros e He. left. unfold kDayMs, kMinuteMs in *. lia.
  - apply (stableSort_less reminderCmp); [apply reminderCmp_ordering|apply reminderLess_cmp].
Qed.

(** A task a week before its time, and an event on the day before. *)
Definition weekAhead : Task :=
  {| id := #"a"; name := #"Trip"; description := []; steps := []; status := #"queue"; project := []; rank := 0;
     tDay := Some #"2026-01-08"; tStart := Some #"11:00"; due := None; minutes := Some 60; repeat_ := None;
     occurrences := None; origin := None; source := None; remind := Some 10080; instanceDay := None |}.
Definition dayAhead : Event :=
  {| eId := #"e"; eName := #"Party"; eDescription := None; eStart := #"10:30"; eEnd := #"12:00"; eDay := Some #"2026-01-02";
     eRepeat := None; eOccurrences := None; eOrigin := None; eInstanceDay := None; isAllDay := None; isHoliday := None;
     color := None; eRemind := Some 1440; eProject := None |}.
Definition remindState : State :=
  {| tasks := [weekAhead]; events := [dayAhead]; projects := []; lists := []; budget := 600; settings := defaultSettings;
     reminded := [ #"e@2026-01-02@1440"] |}.
Definition newYearNoon : Z := 20454 * kDayMs + 12 * 60 * kMinuteMs.

Lemma remindState_timely : timely remindState.
Proof.
  split; [vm_compute; split; [discriminate|reflexivity]|..]; cbn; intros x m Hx%list_elem_of_singleton Hm; subst x;
    injection Hm as <-; vm_compute; repeat split; try discriminate; reflexivity.
Qed.

Lemma reminders_complete_witness :
  (exists out, getReminders remindState (newYearNoon - kReminderCatchUpMs) newYearNoon = Some out /\
    Permutation out (filter (inWindow (newYearNoon - kReminderCatchUpMs) newYearNoon)
                       (mbind (planned remindState) (daysBetween 20440 20470))) /\
    StronglySorted (fun a b => reminderLess b a = false) out) /\
  option_map (fun l => (rTitle <$> l, rKey <$> l)) (getReminders remindState (newYearNoon - kReminderCatchUpMs) newYearNoon) =
    Some ([ #"Party"; #"Trip"], [ #"e@2026-01-02@1440"; #"a@2026-01-08@10080"]) /\
  option_map (fun p => (rTitle <$> upcoming p, rTitle <$> dueNow p)) (readReminders remindState newYearNoon) = Some ([], [ #"Trip"]).
Proof.
  split; [|vm_compute; by split].
  apply reminders_complete; [apply remindState_timely|vm_compute; discriminate|..]; try (apply keyDay_iff, keyDate_check; vm_compute; reflexivity);
    vm_compute; discriminate.
Defined.
End Reminders.
