(* ===== verification/Coalesce.v ===== *)
(** * Coalesce: joining edits of one object before they are sent

    Module [Coalesce] models [coalesceChanges] of
    [src/sections/planner_sync.cpp]: edits are JSON objects of one key, the kind;
    later edits of an object are joined to the first one. [dump] is the printer
    of the JSON library; it throws on strings that are not UTF-8. *)

From S2P Require Import Prelude Json Poll PlannerUtil.
Import Decimal.

Module Coalesce.

Section Code.
Context (dump : json -> result exn bytes).

(** What JavaScript takes for true; [None] and [null] are missing values. *)
Definition isTruthy (v : option json) : bool :=
  match v with
  | None | Some JNull => false
  | Some (JBool b) => b
  | Some (JInt z) | Some (JUnsigned z) => negb (z =? 0)%Z
  | Some (JFloat f) => match f with S754_nan | S754_zero _ => false | _ => true end
  | Some (JStr s) => negb (bool_decide (s = []))
  | Some (JArr _) | Some (JObj _) => true
  end.

(** [x == static_cast<double>(static_cast<long long>(x))]: the integer [x] is;
    the cast is undefined out of range. *)
Definition wholeOf (f : spec_float) : result exn (option Z) :=
  let! z := Poll.truncate f in
  Ok match f with
     | S754_finite _ m e => if (0 <=? e)%Z || (Z.pos m =? Z.shiftl (Z.shiftr (Z.pos m) (- e)) (- e))%Z then Some z else None
     | _ => Some z
     end.

(** [String(value)] of JavaScript. *)
Fixpoint jsStringOf (v : json) : result exn bytes :=
  match v with
  | JNull => Ok (#"null")
  | JStr s => Ok s
  | JBool b => Ok (if b then #"true" else #"false")
  | JInt _ | JUnsigned _ => dump v
  | JFloat f => let! w := wholeOf f in match w with Some z => Ok (to_string z) | None => dump v end
  | JObj _ => Ok (#"[object Object]")
  | JArr l =>
      (fix join (first : bool) (l : list json) : result exn bytes :=
         match l with
         | [] => Ok []
         | e :: l' =>
             let! s := match e with JNull => Ok [] | _ => jsStringOf e end in
             let! rest := join false l' in
             Ok ((if first then [] else #",") ++ s ++ rest)
         end) true l
  end.

Definition jsString (v : option json) : result exn bytes :=
  match v with None => Ok (#"undefined") | Some v => jsStringOf v end.

(** The list of a kind that is joined by a key, and the key. *)
Definition keyedListOf (kind : bytes) : option (bytes * bytes) :=
  if bool_decide (kind = #"task") || bool_decide (kind = #"event") then Some (#"occurrences", #"day")
  else if bool_decide (kind = #"nutritionDay") then Some (#"entries", #"id")
  else None.

Definition targetOf (kind : bytes) (body : json) : result exn bytes :=
  if bool_decide (kind = #"nutritionDay") then let! s := jsString (jfind (#"day") body) in Ok (kind ++ #":" ++ s)
  else if bool_decide (kind = #"settings") || bool_decide (kind = #"goals") || bool_decide (kind = #"migration") then Ok kind
  else let! s := jsString (jfind (#"id") body) in Ok (kind ++ #":" ++ s).

Definition type_name (v : json) : bytes :=
  match v with
  | JNull => #"null"
  | JBool _ => #"boolean"
  | JInt _ | JUnsigned _ | JFloat _ => #"number"
  | JStr _ => #"string"
  | JArr _ => #"array"
  | JObj _ => #"object"
  end.

Definition keyIn (key : bytes) (item : json) : result exn bytes :=
  match jfind key item with
  | None => Ok (#"undefined")
  | Some k => let! s := dump k in Ok (type_name k ++ #":" ++ s)
  end.

(** The loop over the items of a list: keys in order, and the items by key. *)
Fixpoint addItems (key : bytes) (s : list bytes * gmap bytes json) (l : list json)
  : result exn (list bytes * gmap bytes json) :=
  match l with
  | [] => Ok s
  | item :: l' =>
      let! i := keyIn key item in
      let order := match s.2 !! i with Some _ => s.1 | None => s.1 ++ [i] end in
      addItems key (order, <[i := item]> s.2) l'
  end.

Definition itemsIn (v : option json) : list json := match v with Some (JArr l) => l | _ => [] end.

Definition mergeKeyed (before after : option json) (key : bytes) : result exn json :=
  let! s := addItems key ([], ∅) (itemsIn before) in
  let! s := addItems key s (itemsIn after) in
  Ok (JArr ((fun i => default JNull (s.2 !! i)) <$> s.1)).

(** [merged[k] = v] for all members of [after]; [null] becomes an object. *)
Definition setMembers (before : json) (fields : list (bytes * json)) : json :=
  foldl (fun j kv => match j with JNull => JObj [(kv.1, kv.2)] | _ => jset kv.1 kv.2 j end) before fields.

Definition membersOf (j : json) : list (bytes * json) := match j with JObj m => m | _ => [] end.

Definition mergeBody (kind : bytes) (before after : json) : result exn json :=
  let merged := setMembers before (membersOf after) in
  match keyedListOf kind with
  | Some (f, key) =>
      if isTruthy (jfind f before) || isTruthy (jfind f after)
      then let! l := mergeKeyed (jfind f before) (jfind f after) key in Ok (setMembers merged [(f, l)])
      else Ok merged
  | None => Ok merged
  end.

Record Coalesced := { result_ : list json; indexByTarget : gmap bytes nat }.

Definition pushChange (s : Coalesced) (change : json) : Coalesced :=
  {| result_ := result_ s ++ [change]; indexByTarget := indexByTarget s |}.
Definition replaceChange (s : Coalesced) (n : nat) (change : json) : Coalesced :=
  {| result_ := <[n := change]> (result_ s); indexByTarget := indexByTarget s |}.

Definition isDeleted (body : json) : bool := isTruthy (jfind (#"deleted") body).

Definition coalesceOne (s : Coalesced) (change : json) : result exn Coalesced :=
  match change with
  | JObj ((kind, body) :: _) =>
      if negb (isTruthy (Some body)) || negb (is_object body) || bool_decide (kind = #"migration") then Ok (pushChange s change)
      else
        let! target := targetOf kind body in
        match indexByTarget s !! target with
        | None => Ok {| result_ := result_ s ++ [change];
                        indexByTarget := <[target := length (result_ s)]> (indexByTarget s) |}
        | Some n =>
            let before := default JNull (jfind kind (default JNull (result_ s !! n))) in
            if isDeleted body || isDeleted before then Ok (replaceChange s n change)
            else let! merged := mergeBody kind before body in Ok (replaceChange s n (JObj [(kind, merged)]))
        end
  | _ => Ok (pushChange s change)
  end.

Fixpoint coalesceLoop (s : Coalesced) (changes : list json) : result exn Coalesced :=
  match changes with
  | [] => Ok s
  | c :: l => let! s := coalesceOne s c in coalesceLoop s l
  end.

Definition coalesceChanges (changes : json) : result exn json :=
  match changes with
  | JArr l => let! s := coalesceLoop {| result_ := []; indexByTarget := ∅ |} l in Ok (JArr (result_ s))
  | _ => Ok (JArr [])
  end.
End Code.

(** ** Lists joined by a key *)

Section Keyed.
Context {A : Type} (idf : A -> bytes).

Fixpoint putItem (l : list A) (x : A) : list A :=
  match l with
  | [] => [x]
  | y :: l' => if bool_decide (idf y = idf x) then x :: l' else y :: putItem l' x
  end.

(** The items of a list by their keys: first places, last values. *)
Definition unique (l : list A) : list A := foldl putItem [] l.

Lemma put_keys (l : list A) (x : A) :
  idf <$> putItem l x = if bool_decide (idf x ∈ idf <$> l) then idf <$> l else (idf <$> l) ++ [idf x].
Proof.
  induction l as [|y l IH]; cbn [putItem fmap list_fmap app]; [done|].
  destruct (decide (idf y = idf x)) as [E|N].
  - rewrite (bool_decide_eq_true_2 (idf y = idf x)) by done. rewrite bool_decide_eq_true_2 by (rewrite E; left). cbn. by rewrite E.
  - rewrite (bool_decide_eq_false_2 (idf y = idf x)) by done. cbn. rewrite IH.
    destruct (decide (idf x ∈ idf <$> l)) as [I|I].
    + by rewrite !bool_decide_eq_true_2 by (done || by right).
    + rewrite !bool_decide_eq_false_2; [done| |done]. intros [?|?]%elem_of_cons; congruence.
Qed.

Lemma put_nodup (l : list A) (x : A) : NoDup (idf <$> l) -> NoDup (idf <$> putItem l x).
Proof.
  intros N. rewrite put_keys. case_bool_decide as I; [done|]. apply list.NoDup_app. split_and!; [done| |apply NoDup_singleton].
  intros y Hy [= ->]%list_elem_of_singleton. done.
Qed.

Lemma puts_nodup (l : list A) : forall s, NoDup (idf <$> s) -> NoDup (idf <$> foldl putItem s l).
Proof. induction l as [|x l IH]; intros s N; [done|]. cbn. by apply IH, put_nodup. Qed.

Lemma put_new (l : list A) (x : A) : idf x ∉ idf <$> l -> putItem l x = l ++ [x].
Proof.
  induction l as [|y l IH]; intros N; cbn [putItem app]; [done|]. apply not_elem_of_cons in N as [N1 N2].
  rewrite bool_decide_eq_false_2 by done. by rewrite IH.
Qed.

Lemma puts_new (l : list A) : forall s, NoDup (idf <$> s ++ l) -> foldl putItem s l = s ++ l.
Proof.
  induction l as [|x l IH]; intros s N; cbn [foldl]; [by rewrite app_nil_r|].
  rewrite put_new.
  - rewrite IH; rewrite <- app_assoc; done.
  - rewrite fmap_app in N. apply list.NoDup_app in N as (_ & D & _). intros I. apply (D _ I). left.
Qed.

Lemma put_again (l : list A) (w v : A) : idf w = idf v -> putItem (putItem l w) v = putItem l v.
Proof.
  intros E. induction l as [|y l IH]; cbn [putItem]; [by rewrite bool_decide_eq_true_2|]. rewrite E.
  destruct (bool_decide (idf y = idf v)) eqn:B; cbn [putItem]; [by rewrite bool_decide_eq_true_2|]. by rewrite B, IH.
Qed.

Lemma put_commute (l : list A) (u v : A) : idf u <> idf v -> idf v ∈ idf <$> l -> putItem (putItem l u) v = putItem (putItem l v) u.
Proof.
  intros N. induction l as [|y l IH]; intros I; cbn [fmap list_fmap] in I; [by apply elem_of_nil in I|]. cbn [putItem].
  apply elem_of_cons in I.
  destruct (bool_decide_reflect (idf y = idf u)) as [Eu|Nu]; destruct (bool_decide_reflect (idf y = idf v)) as [Ev|Nv]; [congruence|..];
    cbn [putItem].
  - rewrite (bool_decide_eq_false_2 (idf u = idf v)) by done. by rewrite (bool_decide_eq_true_2 (idf y = idf u)).
  - rewrite (bool_decide_eq_true_2 (idf y = idf v)) by done. by rewrite (bool_decide_eq_false_2 (idf v = idf u)) by congruence.
  - rewrite (bool_decide_eq_false_2 (idf y = idf v)), (bool_decide_eq_false_2 (idf y = idf u)) by done. f_equal. apply IH.
    destruct I as [?|?]; [congruence|done].
Qed.

Lemma put_kept (l : list A) (x : A) (i : bytes) : i ∈ idf <$> l -> i ∈ idf <$> putItem l x.
Proof. intros I. rewrite put_keys. case_bool_decide; [done|]. apply elem_of_app. by left. Qed.

Lemma puts_commute (l : list A) (v : A) : idf v ∉ idf <$> l -> forall s, idf v ∈ idf <$> s ->
  putItem (foldl putItem s l) v = foldl putItem (putItem s v) l.
Proof.
  induction l as [|x l IH]; intros N s I; [done|]. apply not_elem_of_cons in N as [N1 N2]. cbn [foldl].
  rewrite IH by (done || by apply put_kept). by rewrite put_commute by congruence.
Qed.

Lemma puts_put (l : list A) (v : A) : NoDup (idf <$> l) -> forall s, foldl putItem s (putItem l v) = putItem (foldl putItem s l) v.
Proof.
  induction l as [|w l IH]; intros N s; [done|]. apply list.NoDup_cons in N as [N1 N2]. cbn [putItem foldl].
  destruct (decide (idf w = idf v)) as [E|Ne].
  - rewrite bool_decide_eq_true_2 by done. cbn [foldl]. rewrite puts_commute; [by rewrite put_again|by rewrite <- E|].
    rewrite put_keys. case_bool_decide as I; rewrite <- E; [done|]. apply elem_of_app. right. left.
  - rewrite bool_decide_eq_false_2 by done. cbn [foldl]. by apply IH.
Qed.

Lemma puts_unique (l : list A) (s : list A) : foldl putItem s (unique l) = foldl putItem s l.
Proof.
  induction l as [|v l IH] using rev_ind; [done|]. unfold unique in *. rewrite !foldl_app. cbn [foldl].
  rewrite puts_put by (apply puts_nodup; constructor). by rewrite IH.
Qed.

Lemma unique_app_r (l k : list A) : unique (l ++ unique k) = unique (l ++ k).
Proof. unfold unique at 1 3. rewrite !foldl_app. apply puts_unique. Qed.

Lemma unique_app_l (l k : list A) : unique (unique l ++ k) = unique (l ++ k).
Proof. unfold unique at 1 3. rewrite !foldl_app. by rewrite puts_unique. Qed.
End Keyed.

(** ** Members of objects *)

Definition overlay (m a : list (bytes * json)) : list (bytes * json) := foldl (fun m kv => obj_set kv.1 kv.2 m) m a.

Lemma overlay_sorted (a m : list (bytes * json)) : obj_sorted m -> obj_sorted (overlay m a).
Proof. revert m. induction a as [|[k v] a IH]; intros m S; [done|]. cbn. by apply IH, obj_set_sorted. Qed.

Lemma obj_get_above (k : bytes) (m : list (bytes * json)) : Forall (fun kv => blt k kv.1 = true) m -> obj_get k m = None.
Proof.
  induction 1 as [|[k1 v1] m L _ IH]; cbn; [done|]. cbn in L. rewrite bool_decide_eq_false_2; [done|].
  intros ->. by rewrite blt_irrefl in L.
Qed.

Lemma overlay_get (k : bytes) (a m : list (bytes * json)) : obj_sorted a ->
  obj_get k (overlay m a) = match obj_get k a with Some v => Some v | None => obj_get k m end.
Proof.
  revert m. induction a as [|[k1 v1] a IH]; intros m S; [done|]. destruct S as [L S]. cbn. rewrite IH by done.
  rewrite obj_get_set. case_bool_decide as E; [|done]. subst. by rewrite obj_get_above.
Qed.

Lemma obj_ext (m m' : list (bytes * json)) : obj_sorted m -> obj_sorted m' -> (forall k, obj_get k m = obj_get k m') -> m = m'.
Proof.
  revert m'. induction m as [|[k v] m IH]; intros [|[k' v'] m'] S S' E; [done|..].
  - specialize (E k'). cbn in E. by rewrite bool_decide_eq_true_2 in E.
  - specialize (E k). cbn in E. by rewrite bool_decide_eq_true_2 in E.
  - destruct S as [L S], S' as [L' S'].
    assert (k = k') as <-.
    { destruct (decide (k = k')) as [|N]; [done|]. pose proof (E k) as E1. pose proof (E k') as E2. cbn in E1, E2.
      rewrite (bool_decide_eq_true_2 (k = k)), (bool_decide_eq_false_2 (k = k')) in E1 by done.
      rewrite (bool_decide_eq_true_2 (k' = k')), (bool_decide_eq_false_2 (k' = k)) in E2 by congruence.
      destruct (blt k k') eqn:B.
      - rewrite obj_get_above in E1; [done|]. eapply list.Forall_impl; [exact L'|]. cbn. intros x. by apply blt_trans.
      - assert (B' : blt k' k = true). { destruct (blt k' k) eqn:B2; [done|]. destruct N. by apply blt_total. }
        rewrite obj_get_above in E2; [done|]. eapply list.Forall_impl; [exact L|]. cbn. intros x. by apply blt_trans. }
    assert (v = v') as <- by (specialize (E k); cbn in E; rewrite !bool_decide_eq_true_2 in E by done; congruence).
    f_equal. apply IH; [done..|]. intros j. destruct (decide (j = k)) as [->|N]; [by rewrite !obj_get_above|].
    specialize (E j). cbn in E. by rewrite !bool_decide_eq_false_2 in E by done.
Qed.

Lemma setMembers_obj (a m : list (bytes * json)) : setMembers (JObj m) a = JObj (overlay m a).
Proof. revert m. induction a as [|[k v] a IH]; intros m; [done|]. cbn. apply IH. Qed.

(** ** What an edit does to records *)

(** The key of a record: the kind and what [targetOf] puts after it. *)
Abbreviation RecordKey := (bytes * bytes)%type.

Definition isSingle (kind : bytes) : bool := bool_decide (kind = #"settings") || bool_decide (kind = #"goals").

Section Effect.
Context (dump : json -> result exn bytes).

Definition identOf (kind : bytes) (body : json) : result exn bytes :=
  if bool_decide (kind = #"nutritionDay") then jsString dump (jfind (#"day") body)
  else if isSingle kind then Ok []
  else jsString dump (jfind (#"id") body).

(** The key of an item of a list; items whose keys cannot be printed have one. *)
Definition keyOfItem (key : bytes) (item : json) : bytes := match keyIn dump key item with Ok s => s | Err _ => [] end.
Notation joinItems key := (unique (keyOfItem key)).

(** A record with the members of an edit over its own; the list of its kind, when
    one of them has it, is the items of both, in the places where their keys
    came first and with the values that came last. *)
Definition joined (kind : bytes) (b a : list (bytes * json)) : list (bytes * json) :=
  match keyedListOf kind with
  | Some (f, key) =>
      if isTruthy (obj_get f b) || isTruthy (obj_get f a)
      then obj_set f (JArr (joinItems key (itemsIn (obj_get f b) ++ itemsIn (obj_get f a)))) (overlay b a)
      else overlay b a
  | None => overlay b a
  end.

(** Records are created by the first edit, joined by later ones and removed by
    a deletion; a migration mark and what is no edit change no record. *)
Definition applyChange (s : gmap RecordKey (list (bytes * json))) (c : json) : gmap RecordKey (list (bytes * json)) :=
  match c with
  | JObj [(kind, JObj body)] =>
      if bool_decide (kind = #"migration") then s
      else match identOf kind (JObj body) with
           | Err _ => s
           | Ok i =>
               if isDeleted (JObj body) then delete (kind, i) s
               else <[(kind, i) := match s !! (kind, i) with None => body | Some x => joined kind x body end]> s
           end
  | _ => s
  end.

Definition applyAll (s : gmap RecordKey (list (bytes * json))) (l : list json) : gmap RecordKey (list (bytes * json)) :=
  foldl applyChange s l.

(** Edits of one key, whose kinds have no colon; anything else must be passed
    on as it is. *)
Inductive isEdit : json -> Prop :=
| edit_body kind body i : obj_sorted body -> ":"%byte ∉ kind -> kind <> #"migration" -> identOf kind (JObj body) = Ok i ->
    isEdit (JObj [(kind, JObj body)])
| edit_migration body : isEdit (JObj [(#"migration", body)])
| edit_other c : (forall m, c <> JObj m) -> isEdit c.

(** ** Joining is associative *)

Lemma keyIn_ok (key : bytes) (item : json) (i : bytes) : keyIn dump key item = Ok i -> keyOfItem key item = i.
Proof. unfold keyOfItem. by intros ->. Qed.

Lemma addItems_put (key : bytes) (l : list json) : forall s L, NoDup (keyOfItem key <$> L) -> s.1 = keyOfItem key <$> L ->
  (forall i x, s.2 !! i = Some x <-> x ∈ L /\ keyOfItem key x = i) ->
  forall s', addItems dump key s l = Ok s' -> ((fun i => default JNull (s'.2 !! i)) <$> s'.1) = foldl (putItem (keyOfItem key)) L l /\
    s'.1 = keyOfItem key <$> foldl (putItem (keyOfItem key)) L l /\
    (forall i x, s'.2 !! i = Some x <-> x ∈ foldl (putItem (keyOfItem key)) L l /\ keyOfItem key x = i).
Proof.
  set (f := keyOfItem key). induction l as [|x l IH]; intros s L N E M s' R; cbn [addItems] in R.
  - injection R as <-. split_and!; [|done|done]. rewrite E, <- list_fmap_compose. cbn [foldl].
    rewrite <- (list_fmap_id L) at 2. apply list_fmap_ext. intros n y Hy%list_elem_of_lookup_2. cbn.
    by rewrite (proj2 (M (f y) y)).
  - cbn [foldl]. destruct (keyIn dump key x) as [i|] eqn:Ki; [|done]. apply keyIn_ok in Ki. cbn [rbind] in R. subst i.
    revert R. apply IH; cbn [fst snd]; fold f.
    + by apply put_nodup.
    + rewrite put_keys. case_bool_decide as I.
      * apply list_elem_of_fmap in I as (y & Ey & Hy). by rewrite (proj2 (M (f x) y) (conj Hy (eq_sym Ey))).
      * destruct (s.2 !! f x) as [y|] eqn:Ey; [|by rewrite E]. apply M in Ey as [Hy Ey]. destruct I. rewrite <- Ey.
        by apply list_elem_of_fmap_2.
    + intros i y. rewrite lookup_insert_Some, M.
      assert (P : y ∈ putItem f L x <-> y = x \/ y ∈ L /\ f y <> f x); [|rewrite P; intuition congruence].
      clear E M IH. induction L as [|z L IH]; cbn [putItem]; [rewrite list_elem_of_singleton; split; [by left|intros [->|[H _]]; [done|by apply elem_of_nil in H]]|].
      cbn [fmap list_fmap] in N. apply list.NoDup_cons in N as [N1 N2]. case_bool_decide as B; rewrite !elem_of_cons.
      * split; [intros [->|H]; [by left|]|intros [->|[[->|H] Ne]]; [by left|done|by right]].
        right. split; [by right|]. intros Ef. apply N1. rewrite B, <- Ef. by apply list_elem_of_fmap_2.
      * rewrite IH by done. split; [intros [->|[->|[H Ne]]]|intros [->|[[->|H] Ne]]]; eauto.
Qed.

Lemma mergeKeyed_join (b a : option json) (key : bytes) (r : json) :
  mergeKeyed dump b a key = Ok r -> r = JArr (joinItems key (itemsIn b ++ itemsIn a)).
Proof.
  unfold mergeKeyed. intros (s & E1 & R)%rbind_ok. apply rbind_ok in R as (s' & E2 & [= <-]).
  apply (addItems_put key (itemsIn b) ([], ∅) []) in E1 as (E & K & M); [|constructor|done|].
  2: { intros i x. cbn [snd]. rewrite lookup_empty. split; [done|intros [H _]; by apply elem_of_nil in H]. }
  apply (addItems_put key (itemsIn a) s (joinItems key (itemsIn b))) in E2 as (E' & _); [|apply puts_nodup; constructor|done..].
  rewrite E'. unfold unique. by rewrite foldl_app.
Qed.

Lemma mergeKeyed_total (b a : option json) (key : bytes) : (forall j, exists s, dump j = Ok s) -> exists r, mergeKeyed dump b a key = Ok r.
Proof.
  intros D. assert (A : forall l s, exists s', addItems dump key s l = Ok s').
  { induction l as [|x l IH]; intros s; [by exists s|]. cbn [addItems]. unfold keyIn.
    destruct (jfind key x) as [k|]; [destruct (D k) as [w ->]|]; cbn [rbind]; apply IH. }
  unfold mergeKeyed. destruct (A (itemsIn b) ([], ∅)) as [s ->]. cbn [rbind]. destruct (A (itemsIn a) s) as [s' ->]. by eexists.
Qed.

(** The list of a body, joined. *)
Definition joinField (key : bytes) (b a : option json) : option json :=
  if isTruthy b || isTruthy a then Some (JArr (joinItems key (itemsIn b ++ itemsIn a)))
  else match a with Some v => Some v | None => b end.

Lemma falsy_items (v : option json) : isTruthy v = false -> itemsIn v = [].
Proof. destruct v as [[]|]; done. Qed.

Lemma joinField_assoc (key : bytes) (b a c : option json) :
  joinField key (joinField key b a) c = joinField key b (joinField key a c).
Proof.
  assert (T : forall x y, isTruthy (joinField key x y) = isTruthy x || isTruthy y).
  { intros x y. unfold joinField. destruct (isTruthy x) eqn:X, (isTruthy y) eqn:Y; cbn [orb]; [done..|]. by destruct y. }
  assert (I : forall x y, itemsIn (joinField key x y) = joinItems key (itemsIn x ++ itemsIn y)).
  { intros x y. unfold joinField. destruct (isTruthy x) eqn:X, (isTruthy y) eqn:Y; cbn [orb]; [done..|].
    rewrite (falsy_items _ X), (falsy_items _ Y). destruct y; [by apply falsy_items|by apply falsy_items]. }
  unfold joinField at 1 3. rewrite !T, !I, orb_assoc. destruct (isTruthy b || isTruthy a || isTruthy c) eqn:E.
  - by rewrite unique_app_l, unique_app_r, app_assoc.
  - apply orb_false_iff in E as [[Eb Ea]%orb_false_iff Ec]. unfold joinField. rewrite Eb, Ea, Ec. cbn [orb]. by destruct c, a.
Qed.

Lemma joined_get (kind k : bytes) (b a : list (bytes * json)) : obj_sorted a ->
  obj_get k (joined kind b a) =
  match keyedListOf kind with
  | Some (f, key) => if bool_decide (k = f) then joinField key (obj_get f b) (obj_get f a)
                     else match obj_get k a with Some v => Some v | None => obj_get k b end
  | None => match obj_get k a with Some v => Some v | None => obj_get k b end
  end.
Proof.
  intros S. unfold joined. destruct (keyedListOf kind) as [[f key]|]; [|by apply overlay_get].
  unfold joinField. destruct (isTruthy (obj_get f b) || isTruthy (obj_get f a)).
  - rewrite obj_get_set, overlay_get by done. done.
  - rewrite overlay_get by done. case_bool_decide as E; [by subst|done].
Qed.

Lemma joined_sorted (kind : bytes) (b a : list (bytes * json)) : obj_sorted b -> obj_sorted (joined kind b a).
Proof.
  intros S. unfold joined. destruct (keyedListOf kind) as [[f key]|]; [|by apply overlay_sorted].
  destruct (_ || _); [by apply obj_set_sorted, overlay_sorted|by apply overlay_sorted].
Qed.

Lemma joined_assoc (kind : bytes) (b a c : list (bytes * json)) : obj_sorted b -> obj_sorted a -> obj_sorted c ->
  joined kind (joined kind b a) c = joined kind b (joined kind a c).
Proof.
  intros B A C. apply obj_ext; [by repeat apply joined_sorted|by apply joined_sorted|]. intros k.
  rewrite !joined_get by (done || by apply joined_sorted). destruct (keyedListOf kind) as [[f key]|] eqn:K.
  - rewrite !joined_get by (done || by apply joined_sorted). rewrite !K. rewrite !(bool_decide_eq_true_2 (f = f)) by done. case_bool_decide; [apply joinField_assoc|]. by destruct (obj_get k c), (obj_get k a).
  - by destruct (obj_get k c), (obj_get k a).
Qed.

Lemma mergeBody_joined (kind : bytes) (b a : list (bytes * json)) (r : json) :
  mergeBody dump kind (JObj b) (JObj a) = Ok r -> r = JObj (joined kind b a).
Proof.
  unfold mergeBody, joined. cbn [membersOf jfind]. rewrite setMembers_obj.
  destruct (keyedListOf kind) as [[f key]|]; [|by intros [= <-]]. destruct (_ || _); [|by intros [= <-]].
  intros (l & ->%mergeKeyed_join & R)%rbind_ok. rewrite setMembers_obj in R. by injection R as <-.
Qed.

Lemma mergeBody_total (kind : bytes) (b a : json) : (forall j, exists s, dump j = Ok s) -> exists r, mergeBody dump kind b a = Ok r.
Proof.
  intros D. unfold mergeBody. destruct (keyedListOf kind) as [[f key]|]; [|by eexists]. destruct (_ || _); [|by eexists].
  destruct (mergeKeyed_total (jfind f b) (jfind f a) key D) as [r ->]. by eexists.
Qed.

(** ** The edits of one record *)

(** The body, when a change is an edit of the record [t]. *)
Definition touch (t : RecordKey) (c : json) : option (list (bytes * json)) :=
  match c with
  | JObj [(kind, JObj body)] =>
      if bool_decide (kind <> #"migration" /\ kind = t.1 /\ identOf kind (JObj body) = Ok t.2) then Some body else None
  | _ => None
  end.

Definition act (kind : bytes) (x : option (list (bytes * json))) (a : list (bytes * json)) : option (list (bytes * json)) :=
  if isDeleted (JObj a) then None
  else match x with None => Some a | Some x => Some (joined kind x a) end.

Definition join2 (kind : bytes) (b a : list (bytes * json)) : list (bytes * json) :=
  if isDeleted (JObj a) || isDeleted (JObj b) then a else joined kind b a.

Definition joinAll (kind : bytes) (l : list (list (bytes * json))) : list (list (bytes * json)) :=
  match l with [] => [] | a :: l => [foldl (join2 kind) a l] end.

Lemma joinAll_snoc (kind : bytes) (l : list (list (bytes * json))) (a : list (bytes * json)) :
  joinAll kind (l ++ [a]) = match joinAll kind l with [c] => [join2 kind c a] | _ => [a] end.
Proof. destruct l as [|b l]; [done|]. cbn [joinAll app]. by rewrite foldl_app. Qed.

Lemma joined_alive (kind : bytes) (b a : list (bytes * json)) : obj_sorted a ->
  isDeleted (JObj b) = false -> isDeleted (JObj a) = false -> isDeleted (JObj (joined kind b a)) = false.
Proof.
  intros S B A. unfold isDeleted in *. cbn [jfind] in *. rewrite joined_get by done.
  destruct (keyedListOf kind) as [[f key]|] eqn:K; [|by destruct (obj_get _ a)].
  rewrite bool_decide_eq_false_2; [by destruct (obj_get _ a)|]. intros <-. revert K. unfold keyedListOf.
  by repeat case_bool_decide.
Qed.

(** Joined edits do what the edits do one by one. A deletion among them forgets
    the record; what is left then must be a whole record. *)
Lemma joinAll_act (kind : bytes) (l : list (list (bytes * json))) (x : option (list (bytes * json))) : Forall obj_sorted l ->
  (forall y, x = Some y -> obj_sorted y) ->
  (existsb (fun a => isDeleted (JObj a)) l = true ->
     forall y m, x = Some y -> foldl (act kind) None l = Some m -> joined kind y m = m) ->
  foldl (act kind) x l = foldl (act kind) x (joinAll kind l).
Proof.
  intros F S W.
  assert (l = [] \/ exists c, joinAll kind l = [c] /\ obj_sorted c /\
    if existsb (fun a => isDeleted (JObj a)) l
    then foldl (act kind) x l = foldl (act kind) None l /\ foldl (act kind) None l = act kind None c
    else foldl (act kind) x l = act kind x c /\ isDeleted (JObj c) = false) as [->|(c & -> & Sc & C)]; [|done|].
  - clear W. induction l as [|a l IH] using rev_ind; [by left|right].
    apply list.Forall_app in F as [F Fa]. apply list.Forall_cons in Fa as [Fa _].
    rewrite joinAll_snoc, existsb_app, !foldl_app. cbn [existsb foldl]. rewrite orb_false_r.
    destruct (IH F) as [->|(c & -> & Sc & C)].
    + exists a. split; [done|]. split; [done|]. cbn [existsb orb foldl]. unfold act. by destruct (isDeleted (JObj a)) eqn:D.
    + exists (join2 kind c a). split; [done|]. split; [unfold join2; destruct (_ || _); [done|by apply joined_sorted]|].
      unfold join2. destruct (isDeleted (JObj a)) eqn:D; cbn [orb].
      { rewrite orb_true_r. unfold act. by rewrite D. }
      rewrite orb_false_r. destruct (existsb _ l).
      * destruct C as [-> ->]. split; [done|]. unfold act. destruct (isDeleted (JObj c)) eqn:Dc; rewrite D; [done|].
        by rewrite joined_alive.
      * destruct C as [-> Dc]. rewrite Dc. split; [|by apply joined_alive]. unfold act. rewrite Dc, D, joined_alive by done.
        destruct x as [y|]; [|done]. by rewrite joined_assoc by eauto.
  - cbn [foldl]. destruct (existsb _ l); [|by destruct C]. destruct C as [-> E].
    destruct x as [y|]; [|done]. rewrite E. unfold act in E |- *. destruct (isDeleted (JObj c)) eqn:D; [done|].
    by rewrite (W eq_refl y c eq_refl E).
Qed.

(** ** Sequences of edits *)

Lemma touch_body (t : RecordKey) (c : json) (b : list (bytes * json)) : touch t c = Some b ->
  c = JObj [(t.1, JObj b)] /\ t.1 <> #"migration" /\ identOf t.1 (JObj b) = Ok t.2.
Proof.
  unfold touch. intros H. repeat case_match; try done. subst. case_bool_decide as B; [|done]. destruct B as (B1 & -> & B2).
  by injection H as ->.
Qed.

Lemma touch_edit (kind : bytes) (body : list (bytes * json)) (i : bytes) (t : RecordKey) : kind <> #"migration" ->
  identOf kind (JObj body) = Ok i -> touch t (JObj [(kind, JObj body)]) = if bool_decide (t = (kind, i)) then Some body else None.
Proof.
  intros N I. cbn [touch]. rewrite I. destruct t as [k j]. cbn [fst snd].
  destruct (decide ((k, j) = (kind, i))) as [[= -> ->]|Ne]; [by rewrite !bool_decide_eq_true_2|].
  rewrite !bool_decide_eq_false_2; [done|done|]. intros (_ & -> & [= ->]). done.
Qed.

Lemma applyChange_lookup (s : gmap RecordKey (list (bytes * json))) (c : json) (t : RecordKey) : isEdit c ->
  applyChange s c !! t = match touch t c with Some b => act t.1 (s !! t) b | None => s !! t end.
Proof.
  intros [kind body i Sb _ N I|body|c0 Nc].
  - cbn [applyChange]. rewrite bool_decide_eq_false_2, I, (touch_edit kind body i t N I) by done. unfold act.
    destruct (isDeleted (JObj body)) eqn:D; case_bool_decide as E.
    + subst. rewrite D. apply lookup_delete_eq.
    + by apply lookup_delete_ne.
    + subst. rewrite D, lookup_insert_eq. cbn [fst]. by destruct (s !! (kind, i)).
    + by apply lookup_insert_ne.
  - by destruct body.
  - destruct c0; try done. by edestruct Nc.
Qed.

Lemma applyAll_lookup (l : list json) (t : RecordKey) : forall s, Forall isEdit l ->
  applyAll s l !! t = foldl (act t.1) (s !! t) (omap (touch t) l).
Proof.
  unfold applyAll. induction l as [|c l IH]; intros s F; [done|]. apply list.Forall_cons in F as [Fc F].
  cbn [foldl]. rewrite IH, applyChange_lookup by done. cbn. by destruct (touch t c).
Qed.

(** ** The loop *)

Definition targetStr (t : RecordKey) : bytes := if isSingle t.1 then t.1 else t.1 ++ #":" ++ t.2.

Definition plainKey (t : RecordKey) : Prop := ":"%byte ∉ t.1 /\ (isSingle t.1 = true -> t.2 = []).

Lemma targetOf_ident (kind : bytes) (body : json) (i : bytes) : kind <> #"migration" -> identOf kind body = Ok i ->
  targetOf dump kind body = Ok (targetStr (kind, i)).
Proof.
  intros N. unfold identOf, targetOf, targetStr, isSingle. cbn [fst snd].
  destruct (bool_decide_reflect (kind = #"nutritionDay")) as [->|_]; [by intros ->|].
  rewrite (bool_decide_eq_false_2 (kind = #"migration")), orb_false_r by done.
  destruct (bool_decide (kind = #"settings") || _); [done|by intros ->].
Qed.

Lemma identOf_plain (kind : bytes) (body : json) (i : bytes) : ":"%byte ∉ kind -> identOf kind body = Ok i -> plainKey (kind, i).
Proof.
  intros N I. split; [done|]. cbn. intros S. revert I. unfold identOf. rewrite S. case_bool_decide as E; [by subst|congruence].
Qed.

Lemma not_in_Forall (x : byte) (l : bytes) : x ∉ l -> Forall (fun b => b <> x) l.
Proof. intros N. apply Forall_elem. intros y Hy ->. done. Qed.

Lemma targetStr_inj (t u : RecordKey) : plainKey t -> plainKey u -> targetStr t = targetStr u -> t = u.
Proof.
  destruct t as [k i], u as [k' i']. intros [N S] [N' S']. unfold targetStr. cbn [fst snd] in *.
  assert (A : forall a b c : bytes, ":"%byte ∉ a -> a <> b ++ #":" ++ c).
  { intros a b c Na ->. apply Na. rewrite !elem_of_app. right. left. left. }
  destruct (isSingle k), (isSingle k'); intros E.
  - by rewrite E, S, S'.
  - by destruct (A k k' i').
  - by destruct (A k' k i).
  - apply (f_equal (fun s => Util.split s ":")) in E as E1.
    change (#":" ++ i) with (":"%byte :: i) in *. change (#":" ++ i') with (":"%byte :: i') in *.
    rewrite !Util.split_app in E1 by (by apply not_in_Forall). injection E1 as -> _.
    apply app_inv_head in E. by injection E as ->.
Qed.

Lemma identOf_joined (kind i : bytes) (b a : list (bytes * json)) : obj_sorted a ->
  identOf kind (JObj b) = Ok i -> identOf kind (JObj a) = Ok i -> identOf kind (JObj (joined kind b a)) = Ok i.
Proof.
  intros S B A.
  assert (J : forall k, (k = #"day" \/ k = #"id") ->
    obj_get k (joined kind b a) = match obj_get k a with Some v => Some v | None => obj_get k b end).
  { intros k Hk. rewrite joined_get by done. destruct (keyedListOf kind) as [[f key]|] eqn:K; [|done].
    rewrite bool_decide_eq_false_2; [done|]. revert K. unfold keyedListOf.
    repeat case_bool_decide; cbn; intros [= <- <-]; by destruct Hk as [->| ->]. }
  revert B A. unfold identOf. cbn [jfind]. rewrite !J by auto.
  destruct (bool_decide _); [|destruct (isSingle kind); [done|]]; by destruct (obj_get _ a).
Qed.

Lemma omap_unique {A B} (f : A -> option B) (l : list A) (n : nat) (c c' : A) (b b' y : B) : omap f l = [y] ->
  l !! n = Some c -> f c = Some b -> f c' = Some b' -> y = b /\ omap f (<[n := c']> l) = [b'].
Proof.
  intros O L Fc Fc'. pose proof (take_drop_middle l n c L) as E. pose proof (lookup_lt_Some _ _ _ L).
  rewrite <- E in O |- *. rewrite insert_app_r_alt by (rewrite length_take; lia).
  replace (n - length (take n l))%nat with 0%nat by (rewrite length_take; lia). cbn [insert list_insert].
  rewrite !omap_app in *. cbn [omap list_omap] in *. rewrite Fc in O. rewrite Fc'.
  destruct (omap f (take n l)) as [|z [|w m]]; [|done..]. cbn in O |- *. injection O as -> ->. done.
Qed.

Lemma omap_other {A B} (f : A -> option B) (l : list A) (n : nat) (c c' : A) :
  l !! n = Some c -> f c = None -> f c' = None -> omap f (<[n := c']> l) = omap f l.
Proof.
  intros L Fc Fc'. pose proof (take_drop_middle l n c L) as E. pose proof (lookup_lt_Some _ _ _ L).
  rewrite <- E at 1 2. rewrite insert_app_r_alt by (rewrite length_take; lia).
  replace (n - length (take n l))%nat with 0%nat by (rewrite length_take; lia). cbn [insert list_insert].
  rewrite !omap_app. cbn [omap list_omap]. by rewrite Fc, Fc'.
Qed.

Record loopInv (s : Coalesced) (l : list json) : Prop := {
  li_joined t : omap (touch t) (result_ s) = joinAll t.1 (omap (touch t) l);
  li_found tgt n : indexByTarget s !! tgt = Some n -> exists t b, tgt = targetStr t /\ plainKey t /\ obj_sorted b /\
    t.1 <> #"migration" /\ identOf t.1 (JObj b) = Ok t.2 /\ result_ s !! n = Some (JObj [(t.1, JObj b)]);
  li_index n c t b : result_ s !! n = Some c -> touch t c = Some b -> indexByTarget s !! targetStr t = Some n;
  li_edits : Forall isEdit (result_ s)
}.

Lemma push_inv (s : Coalesced) (l : list json) (c : json) : loopInv s l -> isEdit c -> (forall t, touch t c = None) ->
  loopInv (pushChange s c) (l ++ [c]).
Proof.
  intros [J Fd I E] Ec N. split; cbn [pushChange result_ indexByTarget].
  - intros t. rewrite !omap_app. cbn [omap list_omap]. rewrite (N t), !app_nil_r. apply J.
  - intros tgt n H. destruct (Fd tgt n H) as (t & b & ? & ? & ? & ? & ? & L). exists t, b. split_and!; try done.
    by apply lookup_app_l_Some.
  - intros n c0 t b [L|[_ L]]%lookup_app_Some T; [by eapply I|]. apply list_lookup_singleton_Some in L as [_ <-]. by rewrite N in T.
  - apply list.Forall_app. by split; [|constructor].
Qed.

Lemma coalesceOne_inv (s : Coalesced) (l : list json) (c : json) : loopInv s l -> isEdit c ->
  forall s', coalesceOne dump s c = Ok s' -> loopInv s' (l ++ [c]) /\ (length (result_ s') <= S (length (result_ s)))%nat.
Proof.
  intros Inv Ec s' R. destruct Ec as [kind body i Sb Nc Nm Id|body|c0 No].
  2:{ assert (s' = pushChange s (JObj [(#"migration", body)])) as ->.
      { revert R. cbn [coalesceOne]. rewrite (bool_decide_eq_true_2 (#"migration" = #"migration")), orb_true_r by done. congruence. }
      split; [apply push_inv; [done|apply edit_migration|]; intros t; cbn; by destruct body|]. cbn. rewrite length_app. cbn. lia. }
  2:{ assert (s' = pushChange s c0) as -> by (destruct c0; try (cbn in R; congruence); by edestruct No).
      split; [|cbn; rewrite length_app; cbn; lia].
      apply push_inv; [done|by apply edit_other|]. intros t. destruct c0; try done. by edestruct No. }
  set (t := (kind, i) : RecordKey). assert (Pt : plainKey t) by (by eapply identOf_plain).
  pose proof (touch_edit kind body i) as T. pose proof Inv as [J Fd I E].
  revert R. cbn [coalesceOne isTruthy is_object negb orb]. rewrite (bool_decide_eq_false_2 (kind = #"migration")) by done.
  rewrite (targetOf_ident kind (JObj body) i Nm Id). cbn [rbind]. fold t.
  assert (Ec : isEdit (JObj [(kind, JObj body)])) by (by eapply edit_body).
  destruct (indexByTarget s !! targetStr t) as [n|] eqn:X.
  - destruct (Fd _ _ X) as (u & b & Eu & Pu & Sob & Mu & Iu & Ln). apply targetStr_inj in Eu as <-; [|done..].
    rewrite Ln. cbn [default from_option Datatypes.id jfind obj_get fst t]. rewrite (bool_decide_eq_true_2 (kind = kind)) by done.
    cbn [default from_option Datatypes.id].
    intros R. assert (s' = replaceChange s n (JObj [(kind, JObj (join2 kind b body))])) as ->.
    { revert R. unfold join2. destruct (_ || _); [congruence|]. intros (m & ->%mergeBody_joined & [= <-])%rbind_ok. done. }
    clear R.
    assert (Sj : obj_sorted (join2 kind b body)) by (unfold join2; destruct (_ || _); [done|by apply joined_sorted]).
    assert (Ij : identOf kind (JObj (join2 kind b body)) = Ok i) by (unfold join2; destruct (_ || _); [done|by apply identOf_joined]).
    pose proof (fun x => touch_edit kind (join2 kind b body) i x Nm Ij) as Tj.
    pose proof (fun x => touch_edit kind b i x Nm Iu) as Tb.
    split; [|cbn; rewrite length_insert; lia]. split; cbn [replaceChange result_ indexByTarget].
    + intros x. rewrite omap_app. cbn [omap list_omap]. rewrite T by done. destruct (decide (x = t)) as [->|Nx].
      * rewrite bool_decide_eq_true_2 by done. rewrite joinAll_snoc, <- J.
        assert (exists y, omap (touch t) (result_ s) = [y]) as [y Ey].
        { rewrite J. destruct (omap (touch t) l) eqn:O; [|by eexists]. exfalso. specialize (J t). rewrite O in J.
          assert (H : b ∈ omap (touch t) (result_ s)); [|rewrite J in H; by apply elem_of_nil in H].
          apply list_elem_of_omap. eexists. split; [by eapply list_elem_of_lookup_2|]. rewrite Tb. by rewrite bool_decide_eq_true_2. }
        destruct (omap_unique (touch t) (result_ s) n _ (JObj [(kind, JObj (join2 kind b body))]) b (join2 kind b body) y Ey Ln) as [-> Eo];
          [by rewrite Tb, bool_decide_eq_true_2|by rewrite Tj, bool_decide_eq_true_2|]. by rewrite Eo, Ey.
      * rewrite bool_decide_eq_false_2, app_nil_r by done. rewrite <- J. eapply omap_other; [exact Ln|..].
        -- cbn [fst t]. by rewrite Tb, bool_decide_eq_false_2.
        -- by rewrite Tj, bool_decide_eq_false_2.
    + intros tgt m H. destruct (Fd tgt m H) as ([ku iu] & b' & -> & ? & ? & ? & Iu' & L). destruct (decide (m = n)) as [->|Nn].
      * rewrite Ln in L. cbn [fst snd t] in *. injection L as <- <-. rewrite Iu in Iu'. injection Iu' as <-.
        exists t, (join2 kind b body). split_and!; try done. apply list_lookup_insert_eq. by apply lookup_lt_Some in Ln.
      * exists (ku, iu), b'. split_and!; try done. by rewrite list_lookup_insert_ne.
    + intros m c' x b' L Tx. destruct (decide (m = n)) as [->|Nn].
      * rewrite list_lookup_insert_eq in L by (by apply lookup_lt_Some in Ln). injection L as <-. rewrite Tj in Tx.
        case_bool_decide; [by subst|done].
      * rewrite list_lookup_insert_ne in L by done. by eapply I.
    + apply Forall_insert; [done|by eapply edit_body].
  - intros [= <-]. split; [|cbn; rewrite length_app; cbn; lia]. split; cbn [result_ indexByTarget].
    + intros x. rewrite !omap_app. cbn [omap list_omap]. rewrite T by done. destruct (decide (x = t)) as [->|Nx].
      * rewrite !bool_decide_eq_true_2 by done. rewrite joinAll_snoc, <- J.
        assert (omap (touch t) (result_ s) = []) as ->; [|done]. apply elem_of_nil_inv.
        intros b [c [[n L]%list_elem_of_lookup Tc]]%list_elem_of_omap. by rewrite (I n c t b L Tc) in X.
      * rewrite !bool_decide_eq_false_2, !app_nil_r by done. apply J.
    + intros tgt n. rewrite lookup_insert_Some. intros [[<- <-]|[Ne H]].
      * exists t, body. split_and!; try done. by rewrite lookup_app_r, Nat.sub_diag by done.
      * destruct (Fd tgt n H) as (u & b & ? & ? & ? & ? & ? & L). exists u, b. split_and!; try done. by apply lookup_app_l_Some.
    + intros n c x b [L|[Hn L]]%lookup_app_Some Tc.
      * rewrite lookup_insert_ne; [by eapply I|]. intros Et. pose proof (I n c x b L Tc) as Hi. congruence.
      * apply list_lookup_singleton_Some in L as [Hz <-]. rewrite T in Tc by done. case_bool_decide; [subst x|done].
        rewrite lookup_insert_eq. f_equal. lia.
    + apply list.Forall_app. split; [done|]. by constructor.
Qed.

Lemma coalesceLoop_inv (l2 : list json) : forall s l, loopInv s l -> Forall isEdit l2 ->
  forall s', coalesceLoop dump s l2 = Ok s' -> loopInv s' (l ++ l2) /\ (length (result_ s') <= length (result_ s) + length l2)%nat.
Proof.
  induction l2 as [|c l2 IH]; intros s l Inv F s'; cbn [coalesceLoop].
  { intros [= <-]. rewrite app_nil_r. split; [done|cbn; lia]. }
  intros (s1 & E1 & E2)%rbind_ok. apply list.Forall_cons in F as [Fc F]. destruct (coalesceOne_inv s l c Inv Fc s1 E1) as [I1 L1].
  destruct (IH s1 (l ++ [c]) I1 F s' E2) as [I2 L2]. rewrite <- app_assoc in I2. split; [exact I2|cbn [length]; lia].
Qed.

(** Nothing throws when the printer does not. *)
Lemma coalesceLoop_total (l : list json) : (forall j, exists s, dump j = Ok s) -> Forall isEdit l ->
  forall s, exists s', coalesceLoop dump s l = Ok s'.
Proof.
  intros D F. induction F as [|c l Ec _ IH]; intros s; [by exists s|]. cbn [coalesceLoop].
  enough (exists s1, coalesceOne dump s c = Ok s1) as [s1 ->] by apply IH.
  destruct Ec as [kind body i _ _ Nm Id|body|c No].
  - cbn [coalesceOne isTruthy is_object negb orb]. rewrite bool_decide_eq_false_2 by done.
    rewrite (targetOf_ident kind (JObj body) i Nm Id). cbn [rbind]. destruct (indexByTarget s !! _) as [n|]; [|by eexists].
    destruct (_ || _); [by eexists|]. match goal with |- context [mergeBody dump kind ?b ?a] => destruct (mergeBody_total kind b a D) as [m ->] end. by eexists.
  - cbn. rewrite (bool_decide_eq_true_2 (#"migration" = #"migration")) by done. rewrite orb_true_r. by eexists.
  - destruct c; try by eexists. by edestruct No.
Qed.

(** The record an edit is about. *)
Definition keyOfChange (c : json) : option RecordKey :=
  match c with
  | JObj [(kind, JObj body)] =>
      if bool_decide (kind = #"migration") then None
      else match identOf kind (JObj body) with Ok i => Some (kind, i) | Err _ => None end
  | _ => None
  end.
Definition deletes (t : RecordKey) (l : list json) : bool := existsb (fun b => isDeleted (JObj b)) (omap (touch t) l).

(** Where a batch deletes a record and then edits it again, what it leaves is
    whole: joined to the stored record it is still itself. *)
Definition wholeAgain (s : gmap RecordKey (list (bytes * json))) (l : list json) : Prop :=
  forall t x m, s !! t = Some x -> deletes t l = true -> applyAll ∅ l !! t = Some m -> joined t.1 x m = m.

Lemma keyOfChange_touch (t : RecordKey) (c : json) : keyOfChange c = Some t -> is_Some (touch t c).
Proof.
  destruct c as [| | | | | | |[|[kind [| | | | | | |body]] [|]]]; try done. cbn. case_bool_decide as M; [done|].
  destruct (identOf kind (JObj body)) as [i|] eqn:I; [|done]. intros [= <-]. cbn [fst snd].
  rewrite bool_decide_eq_true_2 by done. by eexists.
Qed.

Lemma keys_nodup (l : list json) : (forall t, (length (omap (touch t) l) <= 1)%nat) -> NoDup (omap keyOfChange l).
Proof.
  induction l as [|c l IH]; intros U; [constructor|]. cbn [omap list_omap].
  assert (NoDup (omap keyOfChange l)).
  { apply IH. intros t. specialize (U t). cbn in U. destruct (touch t c); cbn in U; lia. }
  destruct (keyOfChange c) as [t|] eqn:K; [|done]. constructor; [|done].
  intros (c' & Hc & K')%list_elem_of_omap. destruct (keyOfChange_touch t c K) as [b B], (keyOfChange_touch t c' K') as [b' B'].
  specialize (U t). cbn [omap list_omap] in U. rewrite B in U. assert (M : b' ∈ omap (touch t) l) by (apply list_elem_of_omap; eauto).
  destruct (omap (touch t) l); [by apply elem_of_nil in M|cbn in U; lia].
Qed.

Lemma bodies_sorted (t : RecordKey) (l : list json) : Forall isEdit l -> Forall obj_sorted (omap (touch t) l).
Proof.
  intros F. apply Forall_elem. intros b (c & Hc & T)%list_elem_of_omap. rewrite Forall_elem in F. specialize (F c Hc).
  apply touch_body in T as (-> & N & _). inversion F as [k bd i S| |c0 No]; subst; [done|done|by edestruct No].
Qed.

(** Claim C12 (coalesce_same_effect): joining a batch of edits changes nothing of its
    effect: applied to stored records, the joined edits give what the edits give one
    after the other, of each record at most one edit is left, and there are not more
    edits than before. An edit here is an object of one member, whose kind has no
    colon and whose identifier can be printed, a migration mark, or no object at
    all; and where a batch deletes a stored record and edits it again, what it leaves,
    joined to the stored one, must be itself still (coalesce_keeps_old: it is not where
    a member is missing).
    Joining throws only if the printer of JSON does. *)
Theorem coalesce_same_effect (s : gmap RecordKey (list (bytes * json))) (l : list json) :
  Forall isEdit l -> (forall t x, s !! t = Some x -> obj_sorted x) -> wholeAgain s l ->
  (forall out, coalesceChanges dump (JArr l) = Ok (JArr out) ->
     applyAll s out = applyAll s l /\ NoDup (omap keyOfChange out) /\ (length out <= length l)%nat) /\
  ((forall j, exists text, dump j = Ok text) -> exists out, coalesceChanges dump (JArr l) = Ok (JArr out)).
Proof.
  intros F So W. set (s0 := {| result_ := []; indexByTarget := ∅ |}). unfold coalesceChanges. fold s0. split.
  2: { intros D. destruct (coalesceLoop_total l D F s0) as [s1 ->]. by eexists. }
  assert (I0 : loopInv s0 []) by (split; cbn; [done|intros tgt n H; by rewrite lookup_empty in H|done|constructor]).
  intros out (s1 & E1 & [= <-])%rbind_ok. destruct (coalesceLoop_inv l s0 [] I0 F s1 E1) as ([J Fd I E] & L1). split; [|split].
  - apply map_eq. intros t. rewrite !applyAll_lookup by done. rewrite J. symmetry.
    apply joinAll_act; [by apply bodies_sorted|by apply So|]. intros D y m Ey Em.
    apply (W t y m); [done..|]. rewrite applyAll_lookup by done. by rewrite lookup_empty.
  - apply keys_nodup. intros t. rewrite J. unfold joinAll. destruct (omap (touch t) _); cbn; lia.
  - by cbn in L1.
Qed.
End Effect.

(** ** A batch *)

Definition plainDump (j : json) : result exn bytes := Ok (match j with JStr s => s | _ => [] end).

Definition batch : list json :=
  let text s := JStr (str s) in
  let entry d b := JObj [(#"day", JStr (str d)); (#"done", JBool b)] in
  [JObj [(#"task", JObj [(#"id", text "t1"); (#"name", text "a"); (#"occurrences", JArr [entry "2026-01-05" false])])];
   JObj [(#"event", JObj [(#"id", text "e1"); (#"name", text "b")])];
   JObj [(#"task", JObj [(#"id", text "t1"); (#"name", text "c"); (#"occurrences", JArr [entry "2026-01-06" true; entry "2026-01-05" true])])];
   JObj [(#"settings", JObj [(#"budget", JInt 600)])];
   JObj [(#"event", JObj [(#"deleted", JBool true); (#"id", text "e1")])];
   JObj [(#"settings", JObj [(#"budget", JInt 480)])];
   JObj [(#"event", JObj [(#"id", text "e1"); (#"name", text "d")])]].

Definition storedEvent : list (bytes * json) := [(#"id", JStr (#"e1")); (#"name", JStr (#"old"))].
Definition batchStore : gmap RecordKey (list (bytes * json)) := {[ (#"event", #"e1") := storedEvent ]}.

Lemma batch_edits : Forall (isEdit plainDump) batch.
Proof.
  repeat (apply list.Forall_cons; split); [..|by apply list.Forall_nil];
    (eapply edit_body; [cbn; repeat (split || constructor)|apply (bool_decide_unpack (~ _)); vm_compute; exact I|discriminate|reflexivity]).
Qed.

Definition joinedBatch : list json :=
  [JObj [(#"task", JObj [(#"id", JStr (#"t1")); (#"name", JStr (#"c"));
     (#"occurrences", JArr [JObj [(#"day", JStr (#"2026-01-05")); (#"done", JBool true)];
                            JObj [(#"day", JStr (#"2026-01-06")); (#"done", JBool true)]])])];
   JObj [(#"event", JObj [(#"id", JStr (#"e1")); (#"name", JStr (#"d"))])];
   JObj [(#"settings", JObj [(#"budget", JInt 480)])]].

Lemma coalesce_same_effect_witness :
  coalesceChanges plainDump (JArr batch) = Ok (JArr joinedBatch) /\
  applyAll plainDump batchStore joinedBatch = applyAll plainDump batchStore batch /\
  NoDup (omap (keyOfChange plainDump) joinedBatch) /\ (length joinedBatch <= length batch)%nat.
Proof.
  assert (R : coalesceChanges plainDump (JArr batch) = Ok (JArr joinedBatch)) by (vm_compute; reflexivity).
  split; [exact R|]. refine (proj1 (coalesce_same_effect plainDump batchStore batch batch_edits _ _) joinedBatch R).
  - intros t x Hx. unfold batchStore in Hx. apply lookup_singleton_Some in Hx as [_ <-]. cbn. repeat (split || constructor).
  - intros t x m Hx _ Hm. unfold batchStore in Hx. apply lookup_singleton_Some in Hx as [<- <-].
    rewrite applyAll_lookup in Hm by exact batch_edits. revert Hm. vm_compute. intros <-%(inj Some). reflexivity.
Defined.

(** A new record that is not whole keeps members of the deleted one. *)
Lemma coalesce_keeps_old :
  let l := [JObj [(#"list", JObj [(#"deleted", JBool true); (#"id", JStr (#"l"))])];
            JObj [(#"list", JObj [(#"id", JStr (#"l")); (#"name", JStr (#"new"))])]] in
  let s : gmap RecordKey (list (bytes * json)) := {[ (#"list", #"l") := [(#"color", JInt 3); (#"id", JStr (#"l"))] ]} in
  exists out, coalesceChanges plainDump (JArr l) = Ok (JArr out) /\
    applyAll plainDump s l !! (#"list", #"l") = Some [(#"id", JStr (#"l")); (#"name", JStr (#"new"))] /\
    applyAll plainDump s out !! (#"list", #"l") = Some [(#"color", JInt 3); (#"id", JStr (#"l")); (#"name", JStr (#"new"))].
Proof. eexists. split; [vm_compute; reflexivity|]. vm_compute. done. Qed.
End Coalesce.
