(* ===== verification/Host.v ===== *)
(** * Host: what the synchronisers of the sections ask from their host

    [DomainTransport] and [RecordStore] of [domain_sync.h] are abstract classes
    that the session (or a test) implements: the engine, the bus, the clock, the
    records of the device. Here each is a class of operations on an environment;
    an operation gives a value or throws, and changes the environment. [M] is
    the code of a synchroniser with state [S]: it keeps the changes made before
    it throws. *)

From S2P Require Import Prelude Json DomainSync.
Import Base64 Sync.

(** ** What is thrown, and how a call ends *)

(** [BusError] of [domain_sync.h], an exception of the JSON library or of the
    standard one, and any other exception with its text. *)
Inductive Thrown :=
| BusError (code : bytes)
| Library (e : exn)
| OtherError (text : bytes).

#[export] Instance Thrown_eq_dec : EqDecision Thrown.
Proof. solve_decision. Defined.

(** [Stuck]: the fuel of a loop ended before the loop. *)
Inductive outcome (A : Type) :=
| Done (a : A)
| Threw (e : Thrown)
| Stuck.
Arguments Done {A} a.
Arguments Threw {A} e.
Arguments Stuck {A}.

Class DomainTransport (Env : Type) := {
  t_engine : bytes -> json -> Env -> result Thrown json * Env;
  t_engineWithNeeds : bytes -> json -> Env -> result Thrown json * Env;
  t_request : bool -> bytes -> bytes -> bytes -> Env -> result Thrown bytes * Env;
  t_encodeMethod : bytes -> json -> Env -> result Thrown bytes * Env;
  t_decodeMethod : bytes -> bytes -> Env -> result Thrown json * Env;
  t_hasClient : Env -> result Thrown bool * Env;
  t_isReady : Env -> result Thrown bool * Env;
  t_needsLinking : Env -> result Thrown bool * Env;
  t_self : Env -> result Thrown bytes * Env;
  t_serverDomain : Env -> result Thrown bytes * Env;
  t_persist : Env -> result Thrown unit * Env;
  t_nowMs : Env -> result Thrown Z * Env
}.

Class RecordStore (Env : Type) := {
  r_load : bytes -> Env -> result Thrown (option json) * Env;
  r_save : bytes -> json -> Env -> result Thrown unit * Env;
  r_remove : bytes -> Env -> result Thrown unit * Env
}.

(** ** Code with a state and a host *)

Section Monad.
Context {S Env : Type}.

Definition M (A : Type) : Type := S * Env -> outcome A * (S * Env).

Definition ret {A} (a : A) : M A := fun s => (Done a, s).
Definition throw {A} (e : Thrown) : M A := fun s => (Threw e, s).
Definition stuck {A} : M A := fun s => (Stuck, s).
Definition bind {A B} (m : M A) (k : A -> M B) : M B := fun s =>
  match m s with
  | (Done a, s') => k a s'
  | (Threw e, s') => (Threw e, s')
  | (Stuck, s') => (Stuck, s')
  end.

(** [try { m }]: what was thrown as a value, for the [catch] that follows. *)
Definition attempt {A} (m : M A) : M (A + Thrown) := fun s =>
  match m s with
  | (Done a, s') => (Done (inl a), s')
  | (Threw e, s') => (Done (inr e), s')
  | (Stuck, s') => (Stuck, s')
  end.

Definition gets {A} (f : S -> A) : M A := fun s => (Done (f s.1), s).
Definition modify (f : S -> S) : M unit := fun s => (Done tt, (f s.1, s.2)).
Definition lift {A} (h : Env -> result Thrown A * Env) : M A := fun s =>
  match h s.2 with (Ok a, env) => (Done a, (s.1, env)) | (Err e, env) => (Threw e, (s.1, env)) end.
Definition ofResult {A} (r : result exn A) : M A :=
  match r with Ok a => ret a | Err e => throw (Library e) end.

Definition when (b : bool) (m : M unit) : M unit := if b then m else ret tt.

Fixpoint forEachM {A} (l : list A) (f : A -> M unit) : M unit :=
  match l with
  | [] => ret tt
  | x :: l' => bind (f x) (fun _ => forEachM l' f)
  end.
End Monad.
Arguments M S Env A : clear implicits.

Notation "'let*' x ':=' m 'in' k" := (bind m (fun x => k))
  (at level 10, x pattern, m at level 100, k at level 200) : parvane_scope.
Notation "m ';;;' k" := (bind m (fun _ => k)) (at level 100, k at level 200, right associativity) : parvane_scope.

(** Reads each element of an array; the first that throws ends it. *)
Fixpoint readAll {A B} (f : A -> result exn B) (l : list A) : result exn (list B) :=
  match l with
  | [] => Ok []
  | x :: l => let! y := f x in let! ys := readAll f l in Ok (y :: ys)
  end.

(** The elements read before the first that throws. *)
Fixpoint readSome {A B} (f : A -> result exn B) (l : list A) : list B :=
  match l with
  | [] => []
  | x :: l => match f x with Ok y => y :: readSome f l | Err _ => [] end
  end.

(** ** Requests *)

Section Requests.
Context {S Env : Type} {T : DomainTransport Env}.

Definition runRequest (r : OutRequest) : M S Env bytes := lift (t_request (anon r) (method r) (body r) (dest r)).

Definition runRequests (reqs : json) : M S Env unit :=
  match reqs with
  | JArr l => forEachM l (fun r => let* q := ofResult (outRequest_fromJson r) in runRequest q ;;; ret tt)
  | _ => ret tt
  end.
End Requests.

(** The code of an error of the bus. *)
Definition errorCode (e : Thrown) : option bytes := match e with BusError c => Some c | _ => None end.

(** [what()]; the texts of library exceptions are the library's. *)
Definition errorText (libraryText : exn -> bytes) (e : Thrown) : bytes :=
  match e with BusError c => #"v2: " ++ c | Library x => libraryText x | OtherError t => t end.

(** ** Properties of code that its pieces give

    A property of computations that holds of the pieces (values, exceptions,
    calls to the host of a kind, changes of members of a kind) and of their
    compositions holds of a whole program. Two such properties: a preorder
    relates the state before and the state after ([keeps]), and no loop ends by
    its fuel ([flows]). *)

Section Sound.
Context {S Env : Type}.
Context (calls : forall A, (Env -> result Thrown A * Env) -> Prop) (changes : (S -> S) -> Prop).

Class Sound (Phi : forall A, M S Env A -> Prop) : Prop := {
  sound_ret A (a : A) : Phi A (ret a);
  sound_throw A e : Phi A (throw e);
  sound_gets A (f : S -> A) : Phi A (gets f);
  sound_bind A B (m : M S Env A) (k : A -> M S Env B) : Phi A m -> (forall a, Phi B (k a)) -> Phi B (bind m k);
  sound_attempt A (m : M S Env A) : Phi A m -> Phi _ (attempt m);
  sound_modify f : changes f -> Phi _ (modify f);
  sound_lift A h : calls A h -> Phi A (lift h)
}.

Section Derived.
Context (Phi : forall A, M S Env A -> Prop) `{!Sound Phi}.

Lemma sound_ofResult {A} (r : result exn A) : Phi A (ofResult r).
Proof using All. destruct r; [apply sound_ret|apply sound_throw]. Qed.

Lemma sound_when (b : bool) (m : M S Env unit) : Phi _ m -> Phi _ (when b m).
Proof using All. intros Hm. destruct b; [done|apply sound_ret]. Qed.

Lemma sound_forEachM {A} (l : list A) (f : A -> M S Env unit) : (forall x, Phi _ (f x)) -> Phi _ (forEachM l f).
Proof using All. intros Hf. induction l as [|x l IH]; [apply sound_ret|]. by apply sound_bind. Qed.
End Derived.

(** The state after is in relation with the state before. *)
Definition keeps (R : S * Env -> S * Env -> Prop) (A : Type) (m : M S Env A) : Prop := forall s, R s (m s).2.

Lemma keeps_sound (R : S * Env -> S * Env -> Prop) `{!PreOrder R} :
  (forall A h, calls A h -> keeps R A (lift h)) -> (forall f, changes f -> keeps R _ (modify f)) -> Sound (keeps R).
Proof.
  intros L C. split; [by intros * s..| | |done|done].
  - intros A B m k Hm Hk s. unfold bind. specialize (Hm s). destruct (m s) as [[a|e|] s']; cbn [snd] in *; [|done..].
    etrans; [exact Hm|apply Hk].
  - intros A m Hm s. unfold attempt. specialize (Hm s). by destruct (m s) as [[a|e|] s'].
Qed.

(** The code ends with a value or an exception. *)
Definition flows (A : Type) (m : M S Env A) : Prop := forall s, (m s).1 <> Stuck.

#[export] Instance flows_sound : Sound flows.
Proof.
  split; [by intros * s..| | |by intros * s|].
  - intros A B m k Hm Hk s. unfold bind. specialize (Hm s). destruct (m s) as [[a|e|] s']; [apply Hk|done|done].
  - intros A m Hm s. unfold attempt. specialize (Hm s). by destruct (m s) as [[a|e|] s'].
  - intros A h _ s. unfold lift. by destruct (h s.2) as [[a|e] env].
Qed.
End Sound.

(** A property for more calls and changes is one for fewer. *)
Lemma sound_weaken {S Env : Type} (calls calls' : forall A, (Env -> result Thrown A * Env) -> Prop) (changes changes' : (S -> S) -> Prop)
    (Phi : forall A, M S Env A -> Prop) : (forall A h, calls' A h -> calls A h) -> (forall f, changes' f -> changes f) ->
  Sound calls changes Phi -> Sound calls' changes' Phi.
Proof.
  intros Cs Fs Q. split; [apply (@sound_ret _ _ _ _ _ Q)|apply (@sound_throw _ _ _ _ _ Q)|apply (@sound_gets _ _ _ _ _ Q)|
    apply (@sound_bind _ _ _ _ _ Q)|apply (@sound_attempt _ _ _ _ _ Q)| |].
  - intros f Hf. apply (@sound_modify _ _ _ _ _ Q). by apply Fs.
  - intros A h Hh. apply (@sound_lift _ _ _ _ _ Q). by apply Cs.
Qed.

(** ** Single steps *)

Section Steps.
Context {S Env : Type}.
Notation P := (M S Env).

Lemma lift_state {A} (h : Env -> result Thrown A * Env) (s : S * Env) : (lift h s).2.1 = s.1.
Proof. unfold lift. by destruct (h s.2) as [[a|e] env]. Qed.

Lemma lift_env {A} (h : Env -> result Thrown A * Env) (s : S * Env) : (lift h s).2.2 = (h s.2).2.
Proof. unfold lift. by destruct (h s.2) as [[a|e] env]. Qed.

Lemma lift_done {A} (h : Env -> result Thrown A * Env) (s : S * Env) (a : A) : (lift h s).1 = Done a -> (h s.2).1 = Ok a.
Proof. unfold lift. destruct (h s.2) as [[b|e] env]; cbn; congruence. Qed.

Lemma lift_ok {A} (h : Env -> result Thrown A * Env) (s s' : S * Env) (a : A) : lift h s = (Done a, s') ->
  h s.2 = (Ok a, s'.2) /\ s'.1 = s.1.
Proof. unfold lift. destruct (h s.2) as [[b|e] env]; intros [= <- <-]. done. Qed.

Lemma bind_done {A B} (m : P A) (k : A -> P B) (s : S * Env) (b : B) : (bind m k s).1 = Done b ->
  exists a s', m s = (Done a, s') /\ (k a s').1 = Done b.
Proof. unfold bind. destruct (m s) as [[a|e|] s'] eqn:E; [|done..]. intros D. by exists a, s'. Qed.

Lemma bind_parts {A B} (m : P A) (k : A -> P B) (s s' : S * Env) (b : B) : bind m k s = (Done b, s') ->
  exists a s1, m s = (Done a, s1) /\ k a s1 = (Done b, s').
Proof. unfold bind. destruct (m s) as [[a|e|] s1] eqn:E; [|done..]. intros D. by exists a, s1. Qed.

(** [bind] with what is known of the state in between. *)
Lemma keeps_then (R : S * Env -> S * Env -> Prop) `{!PreOrder R} {A B} (m : P A) (k : A -> P B) (s : S * Env) :
  R s (m s).2 -> (forall a, (m s).1 = Done a -> R (m s).2 (k a (m s).2).2) -> R s (bind m k s).2.
Proof.
  intros Hm Hk. unfold bind. destruct (m s) as [[a|e|] s']; cbn [fst snd] in *; [|done..]. etrans; [exact Hm|]. by apply Hk.
Qed.
End Steps.

(** ** Queues *)

(** From [l] to [l'] elements left at the front, all of which are [ok], and new
    ones came behind. *)
Definition passed {A} (ok : A -> Prop) (l l' : list A) : Prop :=
  exists k new, l' = drop k l ++ new /\ Forall ok (take k l).

Lemma passed_refl {A} (ok : A -> Prop) (l : list A) : passed ok l l.
Proof. exists 0%nat, []. by rewrite drop_0, app_nil_r. Qed.

Lemma passed_trans {A} (ok ok' : A -> Prop) (l l1 l2 : list A) : passed ok l l1 -> (forall x, ok x -> ok' x) -> passed ok' l1 l2 ->
  passed ok' l l2.
Proof.
  intros (k & new & -> & F) G (k' & new' & -> & F'). exists (k + k')%nat, (drop (k' - length (drop k l)) new ++ new'). split.
  - by rewrite drop_app, drop_drop, <- app_assoc.
  - rewrite take_app in F'. apply list.Forall_app in F' as [F' _]. rewrite <- take_take_drop. apply list.Forall_app. split; [|done].
    eapply list.Forall_impl; [exact F|exact G].
Qed.

Lemma passed_weaken {A} (ok ok' : A -> Prop) (l l' : list A) : (forall x, ok x -> ok' x) -> passed ok l l' -> passed ok' l l'.
Proof. intros G (k & new & E & F). exists k, new. split; [done|]. eapply list.Forall_impl; [exact F|exact G]. Qed.

Lemma passed_nil {A} (ok : A -> Prop) (l : list A) : passed ok [] l.
Proof. by exists 0%nat, l. Qed.

Lemma passed_push {A} (ok : A -> Prop) (l new : list A) : passed ok l (l ++ new).
Proof. exists 0%nat, new. by rewrite drop_0. Qed.

Lemma passed_tail {A} (ok : A -> Prop) (x : A) (l : list A) : ok x -> passed ok (x :: l) l.
Proof. intros Hx. exists 1%nat, []. cbn. rewrite app_nil_r. split; [done|]. by constructor. Qed.

(** Takes a program apart into its pieces. *)
Create HintDb sound.
Ltac sound_step :=
  match goal with
  | H : Sound _ _ ?Phi |- ?Phi _ ?m =>
      match m with
      | bind _ _ => apply (@sound_bind _ _ _ _ _ H); [|intros ?]
      | ret _ => apply (@sound_ret _ _ _ _ _ H)
      | throw _ => apply (@sound_throw _ _ _ _ _ H)
      | gets _ => apply (@sound_gets _ _ _ _ _ H)
      | attempt _ => apply (@sound_attempt _ _ _ _ _ H)
      | lift _ => apply (@sound_lift _ _ _ _ _ H); solve [eauto with sound nocore]
      | modify _ => apply (@sound_modify _ _ _ _ _ H); solve [eauto with sound nocore]
      | when _ _ => apply (@sound_when _ _ _ _ _ H)
      | ofResult _ => apply (@sound_ofResult _ _ _ _ _ H)
      | forEachM _ _ => apply (@sound_forEachM _ _ _ _ _ H); intros ?
      | match ?x with _ => _ end => destruct x
      end
  end.
Ltac sound := repeat first [solve [eauto with sound nocore] | sound_step].
