(* ===== verification/PlannerSync.v ===== *)
(** * PlannerSync: the planner's container, its queue and its timers

    Module [PlannerSync] models the class of that name in
    [src/sections/planner_sync.cpp]: finding or creating the container, pulling
    its journal, turning edits into operations, sending these in order, and the
    deadlines on an explicit clock. Engine, bus, clock and records are the
    classes of [Host], the hooks of the host the class [PlannerHooks]. Log lines
    are left out; what is asked for them is asked. *)

From S2P Require Import Prelude Json PlannerUtil DomainSync PlannerJson Poll Coalesce Host.
Import Base64 Sync Coalesce.

Module PlannerSync.

#[local] Open Scope Z_scope.

Definition kPlannerDomain : bytes := #"parvane.planner.v1".
Definition kOutboxRecord : bytes := #"planner-outbox".
Definition kPendingRecord : bytes := #"planner-pending".
Definition kFlushIdleMs : Z := 1500.
Definition kFlushMaxMs : Z := 10000.
Definition kSyncIntervalMs : Z := 8000.
Definition kSyncIdleMs : Z := 60000.
Definition kRetryOfflineMs : Z := 15000.
Definition kSyncPages : nat := 50.
Definition kMaxChangesPerOp : nat := 400.

Record ContainerRef := { cDomain : bytes; cId : bytes }.
Record OutboxItem := { opId : bytes; op : bytes }.

#[export] Instance OutboxItem_eq_dec : EqDecision OutboxItem.
Proof. solve_decision. Defined.

(** Hooks that are not set are [None]. *)
Class PlannerHooks (Env : Type) := {
  h_stateContainer : option (Env -> result Thrown (option ContainerRef) * Env);
  h_recordContainer : option (ContainerRef -> Env -> result Thrown unit * Env);
  h_onChanged : option (Env -> result Thrown unit * Env)
}.

Record PlannerSync := mkSync {
  status_ : bytes;
  container_ : option ContainerRef;
  outbox_ : list OutboxItem;
  isOutboxLoaded_ : bool;
  isPendingLoaded_ : bool;
  pendingChanges_ : list json;
  flushTimer_ : Deadline;
  flushDeadline_ : Deadline;
  syncTimer_ : Deadline;
  retryTimer_ : Deadline;
  syncSoon_ : Deadline;
  flushSoon_ : Deadline;
  isWanted_ : bool;
  isActive_ : bool;
  isVisible_ : bool;
  isBackgroundOnly_ : bool;
  isSnapshotTried_ : bool;
  isNoContainerAnnounced_ : bool;
  lastError_ : option bytes
}.

Definition idle : Deadline := {| at_ := None |}.

Definition newSync : PlannerSync :=
  {| status_ := #"loading"; container_ := None; outbox_ := []; isOutboxLoaded_ := false; isPendingLoaded_ := false;
     pendingChanges_ := []; flushTimer_ := idle; flushDeadline_ := idle; syncTimer_ := idle; retryTimer_ := idle;
     syncSoon_ := idle; flushSoon_ := idle; isWanted_ := false; isActive_ := true; isVisible_ := true;
     isBackgroundOnly_ := false; isSnapshotTried_ := false; isNoContainerAnnounced_ := false; lastError_ := None |}.

Definition set_status_ (v : bytes) (s : PlannerSync) : PlannerSync := mkSync v (container_ s) (outbox_ s)
  (isOutboxLoaded_ s) (isPendingLoaded_ s) (pendingChanges_ s) (flushTimer_ s) (flushDeadline_ s) (syncTimer_ s)
  (retryTimer_ s) (syncSoon_ s) (flushSoon_ s) (isWanted_ s) (isActive_ s) (isVisible_ s) (isBackgroundOnly_ s)
  (isSnapshotTried_ s) (isNoContainerAnnounced_ s) (lastError_ s).
Definition set_container_ (v : option ContainerRef) (s : PlannerSync) : PlannerSync := mkSync (status_ s) v (outbox_
  s) (isOutboxLoaded_ s) (isPendingLoaded_ s) (pendingChanges_ s) (flushTimer_ s) (flushDeadline_ s) (syncTimer_ s)
  (retryTimer_ s) (syncSoon_ s) (flushSoon_ s) (isWanted_ s) (isActive_ s) (isVisible_ s) (isBackgroundOnly_ s)
  (isSnapshotTried_ s) (isNoContainerAnnounced_ s) (lastError_ s).
Definition set_outbox_ (v : list OutboxItem) (s : PlannerSync) : PlannerSync := mkSync (status_ s) (container_ s) v
  (isOutboxLoaded_ s) (isPendingLoaded_ s) (pendingChanges_ s) (flushTimer_ s) (flushDeadline_ s) (syncTimer_ s)
  (retryTimer_ s) (syncSoon_ s) (flushSoon_ s) (isWanted_ s) (isActive_ s) (isVisible_ s) (isBackgroundOnly_ s)
  (isSnapshotTried_ s) (isNoContainerAnnounced_ s) (lastError_ s).
Definition set_isOutboxLoaded_ (v : bool) (s : PlannerSync) : PlannerSync := mkSync (status_ s) (container_ s)
  (outbox_ s) v (isPendingLoaded_ s) (pendingChanges_ s) (flushTimer_ s) (flushDeadline_ s) (syncTimer_ s)
  (retryTimer_ s) (syncSoon_ s) (flushSoon_ s) (isWanted_ s) (isActive_ s) (isVisible_ s) (isBackgroundOnly_ s)
  (isSnapshotTried_ s) (isNoContainerAnnounced_ s) (lastError_ s).
Definition set_isPendingLoaded_ (v : bool) (s : PlannerSync) : PlannerSync := mkSync (status_ s) (container_ s)
  (outbox_ s) (isOutboxLoaded_ s) v (pendingChanges_ s) (flushTimer_ s) (flushDeadline_ s) (syncTimer_ s) (retryTimer_
  s) (syncSoon_ s) (flushSoon_ s) (isWanted_ s) (isActive_ s) (isVisible_ s) (isBackgroundOnly_ s) (isSnapshotTried_
  s) (isNoContainerAnnounced_ s) (lastError_ s).
Definition set_pendingChanges_ (v : list json) (s : PlannerSync) : PlannerSync := mkSync (status_ s) (container_ s)
  (outbox_ s) (isOutboxLoaded_ s) (isPendingLoaded_ s) v (flushTimer_ s) (flushDeadline_ s) (syncTimer_ s)
  (retryTimer_ s) (syncSoon_ s) (flushSoon_ s) (isWanted_ s) (isActive_ s) (isVisible_ s) (isBackgroundOnly_ s)
  (isSnapshotTried_ s) (isNoContainerAnnounced_ s) (lastError_ s).
Definition set_flushTimer_ (v : Deadline) (s : PlannerSync) : PlannerSync := mkSync (status_ s) (container_ s)
  (outbox_ s) (isOutboxLoaded_ s) (isPendingLoaded_ s) (pendingChanges_ s) v (flushDeadline_ s) (syncTimer_ s)
  (retryTimer_ s) (syncSoon_ s) (flushSoon_ s) (isWanted_ s) (isActive_ s) (isVisible_ s) (isBackgroundOnly_ s)
  (isSnapshotTried_ s) (isNoContainerAnnounced_ s) (lastError_ s).
Definition set_flushDeadline_ (v : Deadline) (s : PlannerSync) : PlannerSync := mkSync (status_ s) (container_ s)
  (outbox_ s) (isOutboxLoaded_ s) (isPendingLoaded_ s) (pendingChanges_ s) (flushTimer_ s) v (syncTimer_ s)
  (retryTimer_ s) (syncSoon_ s) (flushSoon_ s) (isWanted_ s) (isActive_ s) (isVisible_ s) (isBackgroundOnly_ s)
  (isSnapshotTried_ s) (isNoContainerAnnounced_ s) (lastError_ s).
Definition set_syncTimer_ (v : Deadline) (s : PlannerSync) : PlannerSync := mkSync (status_ s) (container_ s) (outbox_
  s) (isOutboxLoaded_ s) (isPendingLoaded_ s) (pendingChanges_ s) (flushTimer_ s) (flushDeadline_ s) v (retryTimer_ s)
  (syncSoon_ s) (flushSoon_ s) (isWanted_ s) (isActive_ s) (isVisible_ s) (isBackgroundOnly_ s) (isSnapshotTried_ s)
  (isNoContainerAnnounced_ s) (lastError_ s).
Definition set_retryTimer_ (v : Deadline) (s : PlannerSync) : PlannerSync := mkSync (status_ s) (container_ s)
  (outbox_ s) (isOutboxLoaded_ s) (isPendingLoaded_ s) (pendingChanges_ s) (flushTimer_ s) (flushDeadline_ s)
  (syncTimer_ s) v (syncSoon_ s) (flushSoon_ s) (isWanted_ s) (isActive_ s) (isVisible_ s) (isBackgroundOnly_ s)
  (isSnapshotTried_ s) (isNoContainerAnnounced_ s) (lastError_ s).
Definition set_syncSoon_ (v : Deadline) (s : PlannerSync) : PlannerSync := mkSync (status_ s) (container_ s) (outbox_
  s) (isOutboxLoaded_ s) (isPendingLoaded_ s) (pendingChanges_ s) (flushTimer_ s) (flushDeadline_ s) (syncTimer_ s)
  (retryTimer_ s) v (flushSoon_ s) (isWanted_ s) (isActive_ s) (isVisible_ s) (isBackgroundOnly_ s) (isSnapshotTried_
  s) (isNoContainerAnnounced_ s) (lastError_ s).
Definition set_flushSoon_ (v : Deadline) (s : PlannerSync) : PlannerSync := mkSync (status_ s) (container_ s) (outbox_
  s) (isOutboxLoaded_ s) (isPendingLoaded_ s) (pendingChanges_ s) (flushTimer_ s) (flushDeadline_ s) (syncTimer_ s)
  (retryTimer_ s) (syncSoon_ s) v (isWanted_ s) (isActive_ s) (isVisible_ s) (isBackgroundOnly_ s) (isSnapshotTried_
  s) (isNoContainerAnnounced_ s) (lastError_ s).
Definition set_isWanted_ (v : bool) (s : PlannerSync) : PlannerSync := mkSync (status_ s) (container_ s) (outbox_ s)
  (isOutboxLoaded_ s) (isPendingLoaded_ s) (pendingChanges_ s) (flushTimer_ s) (flushDeadline_ s) (syncTimer_ s)
  (retryTimer_ s) (syncSoon_ s) (flushSoon_ s) v (isActive_ s) (isVisible_ s) (isBackgroundOnly_ s) (isSnapshotTried_
  s) (isNoContainerAnnounced_ s) (lastError_ s).
Definition set_isActive_ (v : bool) (s : PlannerSync) : PlannerSync := mkSync (status_ s) (container_ s) (outbox_ s)
  (isOutboxLoaded_ s) (isPendingLoaded_ s) (pendingChanges_ s) (flushTimer_ s) (flushDeadline_ s) (syncTimer_ s)
  (retryTimer_ s) (syncSoon_ s) (flushSoon_ s) (isWanted_ s) v (isVisible_ s) (isBackgroundOnly_ s) (isSnapshotTried_
  s) (isNoContainerAnnounced_ s) (lastError_ s).
Definition set_isVisible_ (v : bool) (s : PlannerSync) : PlannerSync := mkSync (status_ s) (container_ s) (outbox_ s)
  (isOutboxLoaded_ s) (isPendingLoaded_ s) (pendingChanges_ s) (flushTimer_ s) (flushDeadline_ s) (syncTimer_ s)
  (retryTimer_ s) (syncSoon_ s) (flushSoon_ s) (isWanted_ s) (isActive_ s) v (isBackgroundOnly_ s) (isSnapshotTried_
  s) (isNoContainerAnnounced_ s) (lastError_ s).
Definition set_isBackgroundOnly_ (v : bool) (s : PlannerSync) : PlannerSync := mkSync (status_ s) (container_ s)
  (outbox_ s) (isOutboxLoaded_ s) (isPendingLoaded_ s) (pendingChanges_ s) (flushTimer_ s) (flushDeadline_ s)
  (syncTimer_ s) (retryTimer_ s) (syncSoon_ s) (flushSoon_ s) (isWanted_ s) (isActive_ s) (isVisible_ s) v
  (isSnapshotTried_ s) (isNoContainerAnnounced_ s) (lastError_ s).
Definition set_isSnapshotTried_ (v : bool) (s : PlannerSync) : PlannerSync := mkSync (status_ s) (container_ s)
  (outbox_ s) (isOutboxLoaded_ s) (isPendingLoaded_ s) (pendingChanges_ s) (flushTimer_ s) (flushDeadline_ s)
  (syncTimer_ s) (retryTimer_ s) (syncSoon_ s) (flushSoon_ s) (isWanted_ s) (isActive_ s) (isVisible_ s)
  (isBackgroundOnly_ s) v (isNoContainerAnnounced_ s) (lastError_ s).
Definition set_isNoContainerAnnounced_ (v : bool) (s : PlannerSync) : PlannerSync := mkSync (status_ s) (container_ s)
  (outbox_ s) (isOutboxLoaded_ s) (isPendingLoaded_ s) (pendingChanges_ s) (flushTimer_ s) (flushDeadline_ s)
  (syncTimer_ s) (retryTimer_ s) (syncSoon_ s) (flushSoon_ s) (isWanted_ s) (isActive_ s) (isVisible_ s)
  (isBackgroundOnly_ s) (isSnapshotTried_ s) v (lastError_ s).
Definition set_lastError_ (v : option bytes) (s : PlannerSync) : PlannerSync := mkSync (status_ s) (container_ s)
  (outbox_ s) (isOutboxLoaded_ s) (isPendingLoaded_ s) (pendingChanges_ s) (flushTimer_ s) (flushDeadline_ s)
  (syncTimer_ s) (retryTimer_ s) (syncSoon_ s) (flushSoon_ s) (isWanted_ s) (isActive_ s) (isVisible_ s)
  (isBackgroundOnly_ s) (isSnapshotTried_ s) (isNoContainerAnnounced_ s) v.

Section Code.
Context {Env : Type} {T : DomainTransport Env} {Rec : RecordStore Env} {H : PlannerHooks Env}.
Context (dump : json -> result exn bytes) (libraryText : exn -> bytes).

Notation P := (M PlannerSync Env).

(** ** Asking the host *)

Definition typeError {A} : P A := throw (Library TypeError).

Definition engine (name : bytes) (args : json) : P json := lift (t_engine name args).
Definition noArgs : json := JObj [].

Definition hasClient : P bool := lift t_hasClient.

Definition getBool (j : json) : P bool := match j with JBool b => ret b | _ => typeError end.

Definition isAttached : P bool :=
  let* c := hasClient in if c then let* j := engine (#"plannerIsAttached") noArgs in getBool j else ret false.

Definition hasKey : P bool :=
  let* c := hasClient in if c then let* j := engine (#"plannerHasKey") noArgs in getBool j else ret false.

(** [get<std::int64_t>()]. *)
Definition getInt64 (j : json) : P Z :=
  match j with
  | JInt z => ret z
  | JUnsigned z => ret (i64 z)
  | JFloat f => ofResult (Poll.truncate f)
  | _ => typeError
  end.
Definition is_number (j : json) : bool := match j with JInt _ | JUnsigned _ | JFloat _ => true | _ => false end.

Definition headSeq : P Z :=
  let* c := hasClient in
  if c then let* v := engine (#"plannerHeadSeq") noArgs in if is_number v then getInt64 v else ret 0 else ret 0.

Definition call (method body : bytes) : P bytes := lift (t_request false method body []).

Definition callRequest (req : json) : P bytes := let* r := ofResult (outRequest_fromJson req) in runRequest r.

Definition encode (method : bytes) (value : json) : P bytes := lift (t_encodeMethod method value).

Definition refJson (ref : ContainerRef) : json :=
  jobj [(#"domain", JStr (cDomain ref)); (#"id", JStr (hexToB64 (cId ref)))].

Definition onChanged : P unit := match h_onChanged with Some f => lift f | None => ret tt end.

Definition recordContainer (ref : ContainerRef) : P unit :=
  match h_recordContainer with Some f => lift (f ref) | None => ret tt end.

Definition setStatus (next : bytes) : P unit :=
  let* s := gets status_ in
  if bool_decide (s = next) then ret tt else modify (set_status_ next) ;;; onChanged.

Definition containerOf (r : json) : P ContainerRef :=
  let* d := ofResult (value_str r (#"domain") []) in
  let* i := ofResult (value_str r (#"id") []) in
  ret {| cDomain := d; cId := i |}.

Definition currentRef : P (option ContainerRef) :=
  let* c := hasClient in
  if c then
    let* r := engine (#"plannerContainer") noArgs in
    if is_object r then let* ref := containerOf r in ret (Some ref) else gets container_
  else gets container_.

(** ** Records of the device *)

Definition itemOf (j : json) : P OutboxItem :=
  let* i := ofResult (value_str j (#"opId") []) in
  let* o := ofResult (value_str j (#"op") []) in
  ret {| opId := i; op := o |}.

Definition pushOutbox (item : OutboxItem) : P unit := modify (fun s => set_outbox_ (outbox_ s ++ [item]) s).

Definition loadOutbox : P unit :=
  let* loaded := gets isOutboxLoaded_ in
  if loaded then ret tt
  else
    modify (set_isOutboxLoaded_ true) ;;; modify (set_outbox_ []) ;;;
    (let* _ := attempt
      (let* saved := lift (r_load kOutboxRecord) in
       match saved with
       | Some (JArr l) => forEachM l (fun j => let* item := itemOf j in pushOutbox item)
       | _ => ret tt
       end) in
     let* a := isAttached in
     if a then
       let* items := gets outbox_ in
       forEachM items (fun item =>
         let* _ := attempt (engine (#"plannerApplyLocal") (jobj [(#"op", JStr (op item))])) in ret tt)
     else ret tt).

Definition itemJson (item : OutboxItem) : json := jobj [(#"opId", JStr (opId item)); (#"op", JStr (op item))].

Definition saveOutbox : P unit :=
  let* items := gets outbox_ in
  match items with
  | [] => let* _ := attempt (lift (r_remove kOutboxRecord)) in ret tt
  | _ => lift (r_save kOutboxRecord (JArr (itemJson <$> items)))
  end.

Definition savePending : P unit :=
  let* pending := gets pendingChanges_ in
  let* _ := attempt (match pending with
                     | [] => lift (r_remove kPendingRecord)
                     | _ => lift (r_save kPendingRecord (JArr pending))
                     end) in
  ret tt.

Definition loadPending : P unit :=
  let* loaded := gets isPendingLoaded_ in
  if loaded then ret tt
  else
    modify (set_isPendingLoaded_ true) ;;;
    (let* v := attempt (lift (r_load kPendingRecord)) in
     match v with
     | inl (Some (JArr saved)) => modify (fun s => set_pendingChanges_ (saved ++ pendingChanges_ s) s)
     | _ => ret tt
     end).

(** ** The container *)

Definition listedContainer (list : json) : P (option ContainerRef) :=
  match jfind (#"containers") list with
  | Some (JArr (first :: _)) =>
      match jfind (#"ref") first with
      | Some (JObj m) =>
          let* d := ofResult (value_str (JObj m) (#"domain") []) in
          let* i := ofResult (value_str (JObj m) (#"id") []) in
          if bool_decide (d = []) || bool_decide (i = []) then ret None
          else let* h := ofResult (b64ToHex i) in ret (Some {| cDomain := d; cId := h |})
      | _ => ret None
      end
  | _ => ret None
  end.

Definition findContainer : P (option ContainerRef) :=
  let* fromState := match h_stateContainer with Some f => lift f | None => ret None end in
  match fromState with
  | Some ref => ret (Some ref)
  | None =>
      let* body := encode (#"domain.container.list") (jobj [(#"domain", JStr kPlannerDomain)]) in
      let* resp := call (#"domain.container.list") body in
      let* list := lift (t_decodeMethod (#"domain.container.list") resp) in
      listedContainer list
  end.

Definition afterStart (ref : ContainerRef) : json :=
  jobj [(#"container", refJson ref); (#"after_version", JStr (#"0"))].

Definition attach (ref : ContainerRef) : P unit :=
  let* c := hasClient in
  if c then
    let* getBody := encode (#"domain.container.get") (jobj [(#"container", refJson ref)]) in
    let* got := call (#"domain.container.get") getBody in
    let* grantBody := encode (#"domain.grant.list") (afterStart ref) in
    let* grants := call (#"domain.grant.list") grantBody in
    let* _ := engine (#"plannerAttach")
                (jobj [(#"getResponse", JStr (toBase64 got)); (#"grantsResponse", JStr (toBase64 grants))]) in
    modify (set_container_ (Some ref)) ;;; modify (set_isSnapshotTried_ false) ;;;
    recordContainer ref ;;; lift t_persist
  else ret tt.

Definition shareKeys : P unit :=
  let* c := hasClient in
  if c then
    let* _ := attempt (let* reqs := lift (t_engineWithNeeds (#"sharePlannerWithOwnDevices") noArgs) in runRequests reqs) in
    ret tt
  else ret tt.

Definition create : P unit :=
  let* c := hasClient in
  if c then
    let* now := lift t_nowMs in
    let* req := engine (#"plannerCreate") (jobj [(#"tsMs", JInt now)]) in
    let* _ := callRequest req in
    let* r := engine (#"plannerContainer") noArgs in
    let* ref := containerOf r in
    modify (set_container_ (Some ref)) ;;; recordContainer ref ;;; lift t_persist ;;; shareKeys
  else throw (BusError (#"ERROR_CODE_UNAVAILABLE")).

Definition ensureAttached (createIfMissing : bool) : P bool :=
  let* client := hasClient in
  let* ready := if client then lift t_isReady else ret false in
  if negb ready then
    let* _ := lift t_needsLinking in
    let* linking := lift t_needsLinking in
    setStatus (if linking then #"needs-linking" else #"loading") ;;; ret false
  else
    let* a := isAttached in
    if a then ret true
    else
      let* found := findContainer in
      match found with
      | Some ref => attach ref ;;; ret true
      | None => if createIfMissing then create ;;; ret true else ret false
      end.

(** ** Journal and snapshot *)

Definition pullGrants (ref : ContainerRef) : P unit :=
  let* body := encode (#"domain.grant.list") (afterStart ref) in
  let* resp := call (#"domain.grant.list") body in
  let* _ := engine (#"plannerIngestGrants") (jobj [(#"grantsResponse", JStr (toBase64 resp))]) in
  ret tt.

(** The snapshot of the container, once; whether the state changed. *)
Definition pullSnapshot (ref : ContainerRef) : P bool :=
  modify (set_isSnapshotTried_ true) ;;;
  (let* body := encode (#"domain.snapshot.get") (jobj [(#"container", refJson ref)]) in
   let* resp := call (#"domain.snapshot.get") body in
   let* before := headSeq in
   let* r := attempt
     (let* after := engine (#"plannerIngestSnapshot") (jobj [(#"snapshotResponse", JStr (toBase64 resp))]) in
      let* same := if is_number after then let* z := getInt64 after in ret (z =? before) else ret false in
      if same then ret false else let* _ := attempt (let* _ := headSeq in onChanged) in ret true) in
   ret match r with inl changed => changed | inr _ => false end).

(** [r.value(key, 0) != 0]. *)
Definition valueNonzero (r : json) (key : bytes) : P bool :=
  match r with
  | JObj m => match obj_get key m with
              | None => ret false
              | Some v => let* z := ofResult (PlannerJson.intOf v) in ret (negb (z =? 0))
              end
  | _ => typeError
  end.

(** The pages of the journal: what changed, and whether a key is missing. *)
Fixpoint pullPages (ref : ContainerRef) (pages : nat) (changed missingKey : bool) : P (bool * bool) :=
  match pages with
  | O => ret (changed, missingKey)
  | S pages =>
      let* seq := headSeq in
      let* body := encode (#"domain.op.sync")
                     (jobj [(#"container", refJson ref); (#"after_seq", JStr (Decimal.to_string seq)); (#"max_bytes", JInt 0)]) in
      let* resp := call (#"domain.op.sync") body in
      let* r := engine (#"plannerIngestSync") (jobj [(#"syncResponse", JStr (toBase64 resp))]) in
      let* applied := valueNonzero r (#"applied") in
      let missing := match jfind (#"missingEpoch") r with Some JNull | None => false | Some _ => true end in
      let* behind := ofResult (value_bool r (#"grantsBehind") false) in
      if behind then pullGrants ref ;;; pullPages ref pages (changed || applied) (missingKey || missing)
      else
        let* more := ofResult (value_bool r (#"more") false) in
        if more then pullPages ref pages (changed || applied) (missingKey || missing)
        else ret (changed || applied, missingKey || missing)
  end.

Definition pull : P bool :=
  let* found := currentRef in
  let* c := hasClient in
  match c, found with
  | true, Some ref =>
      let* a := isAttached in
      if a then
        let* tried := gets isSnapshotTried_ in
        let* first := if tried then ret false
                      else let* seq := headSeq in if seq =? 0 then hasKey else ret false in
        let* changed := if first then pullSnapshot ref else ret false in
        let* r := pullPages ref kSyncPages changed false in
        let* key := if r.2 then ret false else hasKey in
        setStatus (if key then #"ready" else #"no-key") ;;;
        when r.1 (let* _ := headSeq in ret tt) ;;; ret r.1
      else ret false
  | _, _ => ret false
  end.

Definition maybeSnapshot : P bool :=
  let* k := hasKey in
  if k then
    let* r := attempt
      (let* now := lift t_nowMs in
       let* req := engine (#"plannerSnapshotRequest") (jobj [(#"tsMs", JInt now)]) in
       match req with
       | JNull => ret false
       | _ => let* _ := callRequest req in let* _ := headSeq in ret true
       end) in
    ret match r with inl written => written | inr _ => false end
  else ret false.

(** ** The queue *)

Definition scheduleRetry : P unit :=
  let* t := gets retryTimer_ in
  if armed t then ret tt
  else let* now := lift t_nowMs in modify (set_retryTimer_ (dset t (now + kRetryOfflineMs))).

Definition isUnavailable (e : Thrown) : bool :=
  match errorCode e with
  | None => true
  | Some c => bool_decide (c = #"ERROR_CODE_UNAVAILABLE") || bool_decide (c = #"ERROR_CODE_RATE_LIMITED")
  end.

(** One operation made by the engine of a part of the edits. *)
Definition prepareChunk (part : list json) : P bool :=
  let* r := attempt
    (let* local := engine (#"plannerPrepareLocal") (jobj [(#"changesJson", jobj [(#"changes", JArr part)])]) in
     let* item := itemOf local in
     pushOutbox item) in
  ret match r with inl _ => true | inr _ => false end.

Fixpoint prepareSingles (l : list json) (prepared : nat) : P nat :=
  match l with
  | [] => ret prepared
  | c :: l => let* ok := prepareChunk [c] in prepareSingles l (if ok then S prepared else prepared)
  end.

Fixpoint prepareChunks (fuel : nat) (changes : list json) (prepared : nat) : P nat :=
  match changes with
  | [] => ret prepared
  | _ =>
      match fuel with
      | O => stuck
      | S fuel =>
          let chunk := take kMaxChangesPerOp changes in
          let* ok := prepareChunk chunk in
          let* prepared := if ok then ret (S prepared)
                           else if (1 <? length chunk)%nat then prepareSingles chunk prepared else ret prepared in
          prepareChunks fuel (drop kMaxChangesPerOp changes) prepared
      end
  end.

Definition prepareLocal : P nat :=
  let* client := hasClient in
  let* pending := gets pendingChanges_ in
  match client, pending with
  | true, _ :: _ =>
      let* a := isAttached in
      let* ready := if a then ret true else ensureAttached true in
      if ready then
        loadOutbox ;;;
        (let* pending := gets pendingChanges_ in
         let* joined := ofResult (coalesceChanges dump (JArr pending)) in
         let changes := match joined with JArr l => l | _ => [] end in
         modify (set_pendingChanges_ []) ;;;
         savePending ;;;
         (let* prepared := prepareChunks (length changes) changes 0 in
          saveOutbox ;;; lift t_persist ;;; ret prepared))
      else ret 0%nat
  | _, _ => ret 0%nat
  end.

Definition sealAndSend (item : OutboxItem) : P bytes :=
  let* now := lift t_nowMs in
  let* req := engine (#"plannerSeal") (jobj [(#"op", JStr (op item)); (#"opIdHex", JStr (opId item)); (#"tsMs", JInt now)]) in
  callRequest req.

(** What the [catch] of the loop does: the operation counts as sent, it is tried
    again, or the loop is left. *)
Inductive Turn := Sent | Again | Leave.

Definition afterError (e : Thrown) (expiredRetries : nat) : P Turn :=
  if bool_decide (errorCode e = Some (#"ERROR_CODE_DUPLICATE")) then ret Sent
  else if bool_decide (errorCode e = Some (#"ERROR_CODE_EXPIRED")) then
    let* found := currentRef in
    match found with Some ref => pullGrants ref | None => ret tt end ;;;
    (let* k := hasKey in
     if negb k then setStatus (#"no-key") ;;; ret Leave
     else if (3 <? S expiredRetries)%nat then setStatus (#"no-key") ;;; scheduleRetry ;;; ret Leave
     else ret Again)
  else
    modify (set_lastError_ (Some (errorText libraryText e))) ;;;
    (let* old := gets status_ in
     setStatus (if isUnavailable e then #"offline" else old) ;;; scheduleRetry ;;; ret Leave).

Fixpoint sendLoop (fuel : nat) (expiredRetries : nat) (expiredFor : bytes) : P unit :=
  let* items := gets outbox_ in
  match items with
  | [] => ret tt
  | item :: _ =>
      match fuel with
      | O => stuck
      | S fuel =>
          let expiredRetries := if bool_decide (opId item = expiredFor) then expiredRetries else O in
          let* k := hasKey in
          if negb k then setStatus (#"no-key")
          else
            let* r := attempt (sealAndSend item) in
            let* turn := match r with inl _ => ret Sent | inr e => afterError e expiredRetries end in
            match turn with
            | Sent =>
                modify (fun s => set_outbox_ (tail (outbox_ s)) s) ;;;
                saveOutbox ;;; sendLoop fuel expiredRetries (opId item)
            | Again => sendLoop fuel (S expiredRetries) (opId item)
            | Leave => ret tt
            end
      end
  end.

(** Four turns for each operation: it is tried again at most three times. *)
Definition sendOutbox : P unit :=
  let* a := isAttached in
  if a then
    loadOutbox ;;;
    (let* items := gets outbox_ in sendLoop (4 * length items) 0 [])
  else ret tt.

(** ** Deadlines *)

Definition scheduleFlush : P unit :=
  let* now := lift t_nowMs in
  modify (set_flushTimer_ (dset idle (now + kFlushIdleMs))) ;;;
  (let* d := gets flushDeadline_ in
   if armed d then ret tt else modify (set_flushDeadline_ (dset d (now + kFlushMaxMs)))).

Definition clearFlushTimers : P unit :=
  modify (fun s => set_flushTimer_ idle (set_flushDeadline_ idle (set_flushSoon_ idle s))).

Definition scheduleSync : P unit :=
  modify (set_syncTimer_ idle) ;;;
  (let* wanted := gets isWanted_ in
   if wanted then
     let* now := lift t_nowMs in
     let* s := gets (fun s => s) in
     modify (set_syncTimer_ (dset idle (now + pollDelay kSyncIntervalMs kSyncIdleMs (isActive_ s && isVisible_ s))))
   else ret tt).

(** The [catch] of [flushNow] and [syncNow]: whether something changed. *)
Definition afterFailure (e : Thrown) (changed : bool) : P bool :=
  let* last := gets lastError_ in
  let text := errorText libraryText e in
  modify (set_lastError_ (Some text)) ;;;
  when (isUnavailable e) (setStatus (#"offline") ;;; scheduleRetry) ;;;
  ret (changed || negb (bool_decide (last = Some text))).

Definition flushNow : P unit :=
  clearFlushTimers ;;;
  (let* prepared := attempt prepareLocal in
   let* changed :=
     match prepared with
     | inr e => afterFailure e false
     | inl n =>
         let changed := (0 <? n)%nat in
         let* rest := attempt (sendOutbox ;;; let* written := maybeSnapshot in when written (lift t_persist)) in
         match rest with inl _ => ret changed | inr e => afterFailure e changed end
     end in
   when changed onChanged).

(** The [try] of [syncNow]: [None] when there is no container. *)
Definition syncSteps : P (option bool) :=
  let* start := attempt
    (let* pending := gets pendingChanges_ in
     let has := negb (bool_decide (pending = [])) in
     when has clearFlushTimers ;;;
     (let* there := ensureAttached has in
      if there then let* n := prepareLocal in ret (Some (0 <? n)%nat)
      else
        let* said := gets isNoContainerAnnounced_ in
        (if said then ret tt else modify (set_isNoContainerAnnounced_ true) ;;; onChanged) ;;;
        scheduleSync ;;; ret None)) in
  match start with
  | inr e => let* c := afterFailure e false in ret (Some c)
  | inl None => ret None
  | inl (Some prepared) =>
      let* pulled := attempt (sendOutbox ;;; pull) in
      match pulled with
      | inr e => let* c := afterFailure e prepared in ret (Some c)
      | inl changed =>
          let changed := changed || prepared in
          let* rest := attempt (let* written := maybeSnapshot in when (changed || written) (lift t_persist)) in
          match rest with
          | inl _ => ret (Some changed)
          | inr e => let* c := afterFailure e changed in ret (Some c)
          end
      end
  end.

Definition syncNow : P unit :=
  modify (set_syncSoon_ idle) ;;;
  (let* r := syncSteps in
   match r with
   | None => ret tt
   | Some changed => scheduleSync ;;; when changed onChanged
   end).

(** ** What the host calls *)

Definition ensure (isBackground : bool) : P unit :=
  let* s := gets (fun s => s) in
  if isBackground && isWanted_ s then ret tt
  else
    (if isBackground then modify (fun s => set_isBackgroundOnly_ true (set_isActive_ false s))
     else when (isBackgroundOnly_ s) (modify (fun s => set_isActive_ true (set_isBackgroundOnly_ false s)))) ;;;
    modify (set_isWanted_ true) ;;; scheduleSync ;;;
    (let* c := hasClient in
     let* client := if c then lift t_isReady else ret false in
     when client (let* _ := isAttached in let* _ := hasKey in let* _ := headSeq in ret tt) ;;;
     loadPending ;;; syncNow).

Definition setSyncSoon : P unit := let* now := lift t_nowMs in modify (set_syncSoon_ (dset idle now)).

Definition setActive (active : bool) : P unit :=
  modify (set_isBackgroundOnly_ false) ;;;
  (let* s := gets (fun s => s) in
   if Bool.eqb (isActive_ s) active then ret tt
   else
     modify (set_isActive_ active) ;;;
     if negb (isWanted_ s) then ret tt else if active && isVisible_ s then setSyncSoon else scheduleSync).

Definition setVisible (visible : bool) : P unit :=
  modify (set_isVisible_ visible) ;;;
  (let* s := gets (fun s => s) in
   if negb (isWanted_ s) then ret tt else if visible && isActive_ s then setSyncSoon else scheduleSync).

Definition pageHide : P unit :=
  let* pending := gets pendingChanges_ in if bool_decide (pending = []) then ret tt else flushNow.

Definition apply (changes : json) : P unit :=
  match changes with
  | JArr (c :: l) =>
      modify (fun s => set_pendingChanges_ (pendingChanges_ s ++ c :: l) s) ;;; savePending ;;;
      (let* pending := gets pendingChanges_ in
       let* now := if (kMaxChangesPerOp <=? length pending)%nat then ret true else let* a := isAttached in ret (negb a) in
       if now then let* t := lift t_nowMs in modify (set_flushSoon_ (dset idle t)) else scheduleFlush)
  | _ => ret tt
  end.

Definition flush : P unit := flushNow.

(** [fire] of a deadline of the object. *)
Definition fireAt (now : Z) (get : PlannerSync -> Deadline) (put : Deadline -> PlannerSync -> PlannerSync) : P bool :=
  let* d := gets get in
  let (fired, d) := fire d now in
  modify (put d) ;;; ret fired.

Definition tick : P unit :=
  let* now := lift t_nowMs in
  let* f1 := fireAt now flushSoon_ set_flushSoon_ in
  let* f2 := fireAt now flushTimer_ set_flushTimer_ in
  let* f3 := fireAt now flushDeadline_ set_flushDeadline_ in
  when (f1 || f2 || f3) flushNow ;;;
  (let* s1 := fireAt now syncSoon_ set_syncSoon_ in
   let* s2 := fireAt now syncTimer_ set_syncTimer_ in
   let* s3 := fireAt now retryTimer_ set_retryTimer_ in
   when (s1 || s2 || s3) syncNow).

Definition nextWakeMs (s : PlannerSync) : option Z :=
  earliest [Some (flushSoon_ s); Some (flushTimer_ s); Some (flushDeadline_ s); Some (syncSoon_ s); Some (syncTimer_ s);
            Some (retryTimer_ s)].

(** What is not [null], of an engine's answer. *)
Definition answer (name : bytes) : P (option json) :=
  let* c := hasClient in
  if c then let* v := engine name noArgs in ret match v with JNull => None | _ => Some v end else ret None.

Definition stateJson : P (option json) := answer (#"plannerStateJson").

Definition status : P bytes :=
  let* c := hasClient in
  let* ready := if c then lift t_isReady else ret false in
  if negb ready then let* l := lift t_needsLinking in ret (if l then #"needs-linking" else #"loading")
  else
    let* s := gets status_ in
    let* a := isAttached in
    if negb a then ret (if bool_decide (s = #"offline") then #"offline" else #"ready")
    else
      let* k := hasKey in
      if negb k then ret (#"no-key")
      else ret (if bool_decide (s = #"loading") || bool_decide (s = #"needs-linking") then #"ready" else s).

Definition sizeBytes : P Z :=
  let* c := hasClient in
  if c then let* v := engine (#"plannerSize") noArgs in if is_number v then getInt64 v else ret 0 else ret 0.

Definition hasPending (s : PlannerSync) : bool := negb (bool_decide (pendingChanges_ s = [])).

Definition keysExport : P (option json) := answer (#"plannerKeysExport").

Definition keysImport (value : json) : P unit :=
  let* c := hasClient in
  if c then let* _ := attempt (engine (#"plannerKeysImport") (jobj [(#"json", value)])) in ret tt else ret tt.

Definition onEngineEvent : P unit := let* w := gets isWanted_ in if w then setSyncSoon else ret tt.

(** All members but [isVisible_] and the hooks. *)
Definition resetState (s : PlannerSync) : PlannerSync := set_isVisible_ (isVisible_ s) newSync.
Definition reset : P unit := modify resetState.
End Code.

End PlannerSync.
