(* ===== verification/PlannerQueue.v ===== *)
(** * PlannerQueue: operations of the planner are not lost

    Theorems about [PlannerSync], for any host: its loops end; an operation
    leaves the queue only when the server has it, in the order of the queue; the
    queue on the device is the one in memory. Sections [Server] and [Device] hold
    what is asked of the server and of the records, module [Bench] is a host
    that fulfils it. *)

From S2P Require Import Prelude Json PlannerUtil DomainSync Coalesce Host PlannerSync.
Import Base64 Sync Coalesce PlannerSync.

Module PlannerQueue.

#[local] Open Scope Z_scope.

Section Host.
Context {Env : Type} {T : DomainTransport Env} {Rec : RecordStore Env} {H : PlannerHooks Env}.
Context (dump : json -> result exn bytes) (libraryText : exn -> bytes).
Notation P := (M PlannerSync Env).
Notation St := (PlannerSync * Env)%type.

(** ** The code outside of the queue *)

(** The calls to the host, but for the record of the queue. *)
Inductive hostCall : forall A : Type, (Env -> result Thrown A * Env) -> Prop :=
| call_engine n j : hostCall _ (t_engine n j)
| call_engineWithNeeds n j : hostCall _ (t_engineWithNeeds n j)
| call_request a m b d : hostCall _ (t_request a m b d)
| call_encode m j : hostCall _ (t_encodeMethod m j)
| call_decode m b : hostCall _ (t_decodeMethod m b)
| call_hasClient : hostCall _ t_hasClient
| call_isReady : hostCall _ t_isReady
| call_needsLinking : hostCall _ t_needsLinking
| call_persist : hostCall _ t_persist
| call_nowMs : hostCall _ t_nowMs
| call_load k : hostCall _ (r_load k)
| call_savePending j : hostCall _ (r_save kPendingRecord j)
| call_removePending : hostCall _ (r_remove kPendingRecord)
| call_stateContainer h : h_stateContainer = Some h -> hostCall _ h
| call_recordContainer h ref : h_recordContainer = Some h -> hostCall _ (h ref)
| call_onChanged h : h_onChanged = Some h -> hostCall _ h.

(** Changes of other members than the queue and whether it was loaded. *)
Definition besideQueue (f : PlannerSync -> PlannerSync) : Prop :=
  forall s, outbox_ (f s) = outbox_ s /\ isOutboxLoaded_ (f s) = isOutboxLoaded_ s.

Hint Constructors hostCall : sound.
Hint Extern 5 (besideQueue _) => (intros ?; split; reflexivity) : sound.

Section Beside.
Context (Phi : forall A, P A -> Prop) {Snd : Sound hostCall besideQueue Phi}.

Lemma beside_engine n j : Phi _ (engine n j).
Proof using Snd. unfold engine. sound. Qed.
Lemma beside_hasClient : Phi _ hasClient.
Proof using Snd. unfold hasClient. sound. Qed.
Hint Resolve beside_engine beside_hasClient : sound.

Lemma beside_getBool j : Phi _ (getBool j).
Proof using Snd. unfold getBool, typeError. sound. Qed.
Lemma beside_getInt64 j : Phi _ (getInt64 j).
Proof using Snd. unfold getInt64, typeError. sound. Qed.
Hint Resolve beside_getBool beside_getInt64 : sound.

Lemma beside_isAttached : Phi _ isAttached.
Proof using Snd. unfold isAttached. sound. Qed.
Lemma beside_hasKey : Phi _ hasKey.
Proof using Snd. unfold hasKey. sound. Qed.
Lemma beside_headSeq : Phi _ headSeq.
Proof using Snd. unfold headSeq. sound. Qed.
Lemma beside_call m b : Phi _ (call m b).
Proof using Snd. unfold call. sound. Qed.
Lemma beside_callRequest j : Phi _ (callRequest j).
Proof using Snd. unfold callRequest, runRequest. sound. Qed.
Lemma beside_encode m j : Phi _ (encode m j).
Proof using Snd. unfold encode. sound. Qed.
Lemma beside_onChanged : Phi _ onChanged.
Proof using Snd. unfold onChanged. destruct h_onChanged as [f|] eqn:E; sound. Qed.
Lemma beside_recordContainer ref : Phi _ (recordContainer ref).
Proof using Snd. unfold recordContainer. destruct h_recordContainer as [f|] eqn:E; sound. Qed.
Hint Resolve beside_isAttached beside_hasKey beside_headSeq beside_call beside_callRequest beside_encode beside_onChanged
  beside_recordContainer : sound.

Lemma beside_setStatus b : Phi _ (setStatus b).
Proof using Snd. unfold setStatus. sound. Qed.
Lemma beside_containerOf j : Phi _ (containerOf j).
Proof using Snd. unfold containerOf. sound. Qed.
Lemma beside_itemOf j : Phi _ (itemOf j).
Proof using Snd. unfold itemOf. sound. Qed.
Lemma beside_savePending : Phi _ savePending.
Proof using Snd. unfold savePending. sound. Qed.
Lemma beside_loadPending : Phi _ loadPending.
Proof using Snd. unfold loadPending. sound. Qed.
Hint Resolve beside_setStatus beside_containerOf beside_itemOf beside_savePending beside_loadPending : sound.

Lemma beside_currentRef : Phi _ currentRef.
Proof using Snd. unfold currentRef. sound. Qed.
Lemma beside_listedContainer j : Phi _ (listedContainer j).
Proof using Snd. unfold listedContainer. sound. Qed.
Hint Resolve beside_currentRef beside_listedContainer : sound.

Lemma beside_findContainer : Phi _ findContainer.
Proof using Snd. unfold findContainer. destruct h_stateContainer as [f|] eqn:E; sound. Qed.
Lemma beside_attach ref : Phi _ (attach ref).
Proof using Snd. unfold attach. sound. Qed.
Lemma beside_runRequests j : Phi _ (runRequests j).
Proof using Snd. unfold runRequests, runRequest. sound. Qed.
Hint Resolve beside_findContainer beside_attach beside_runRequests : sound.

Lemma beside_shareKeys : Phi _ shareKeys.
Proof using Snd. unfold shareKeys. sound. Qed.
Hint Resolve beside_shareKeys : sound.
Lemma beside_create : Phi _ create.
Proof using Snd. unfold create. sound. Qed.
Hint Resolve beside_create : sound.
Lemma beside_ensureAttached b : Phi _ (ensureAttached b).
Proof using Snd. unfold ensureAttached. sound. Qed.
Lemma beside_pullGrants ref : Phi _ (pullGrants ref).
Proof using Snd. unfold pullGrants. sound. Qed.
Lemma beside_pullSnapshot ref : Phi _ (pullSnapshot ref).
Proof using Snd. unfold pullSnapshot. sound. Qed.
Lemma beside_valueNonzero j k : Phi _ (valueNonzero j k).
Proof using Snd. unfold valueNonzero, typeError. sound. Qed.
Hint Resolve beside_ensureAttached beside_pullGrants beside_pullSnapshot beside_valueNonzero : sound.

Lemma beside_pullPages ref n : forall c k, Phi _ (pullPages ref n c k).
Proof using Snd. induction n as [|n IH]; intros c k; cbn [pullPages]; sound. Qed.
Hint Resolve beside_pullPages : sound.
Lemma beside_pull : Phi _ pull.
Proof using Snd. unfold pull. sound. Qed.
Lemma beside_maybeSnapshot : Phi _ maybeSnapshot.
Proof using Snd. unfold maybeSnapshot. sound. Qed.
Lemma beside_scheduleRetry : Phi _ scheduleRetry.
Proof using Snd. unfold scheduleRetry. sound. Qed.
Lemma beside_sealAndSend i : Phi _ (sealAndSend i).
Proof using Snd. unfold sealAndSend. sound. Qed.
Hint Resolve beside_pull beside_maybeSnapshot beside_scheduleRetry beside_sealAndSend : sound.

Lemma beside_afterError e n : Phi _ (afterError libraryText e n).
Proof using Snd. unfold afterError. sound. Qed.
Lemma beside_scheduleFlush : Phi _ scheduleFlush.
Proof using Snd. unfold scheduleFlush. sound. Qed.
Lemma beside_clearFlushTimers : Phi _ clearFlushTimers.
Proof using Snd. unfold clearFlushTimers. sound. Qed.
Lemma beside_scheduleSync : Phi _ scheduleSync.
Proof using Snd. unfold scheduleSync. sound. Qed.
Hint Resolve beside_afterError beside_scheduleFlush beside_clearFlushTimers beside_scheduleSync : sound.
Lemma beside_afterFailure e b : Phi _ (afterFailure libraryText e b).
Proof using Snd. unfold afterFailure. sound. Qed.
Lemma beside_setSyncSoon : Phi _ setSyncSoon.
Proof using Snd. unfold setSyncSoon. sound. Qed.
Lemma beside_answer n : Phi _ (answer n).
Proof using Snd. unfold answer. sound. Qed.
Hint Resolve beside_afterFailure beside_setSyncSoon beside_answer : sound.

(** ** All that the host calls, given the queue *)

Context (Load : Phi _ loadOutbox) (Prepare : Phi _ (prepareLocal dump)) (Send : Phi _ (sendOutbox libraryText)).
Hint Resolve Load Prepare Send : sound.

Lemma all_flushNow : Phi _ (flushNow dump libraryText).
Proof using All. unfold flushNow. sound. Qed.
Lemma all_syncSteps : Phi _ (syncSteps dump libraryText).
Proof using All. unfold syncSteps. sound. Qed.
Hint Resolve all_flushNow all_syncSteps : sound.
Lemma all_syncNow : Phi _ (syncNow dump libraryText).
Proof using All. unfold syncNow. sound. Qed.
Hint Resolve all_syncNow : sound.

Lemma all_ensure b : Phi _ (ensure dump libraryText b).
Proof using All. unfold ensure. sound. Qed.
Lemma all_setActive b : Phi _ (setActive b).
Proof using All. unfold setActive. sound. Qed.
Lemma all_setVisible b : Phi _ (setVisible b).
Proof using All. unfold setVisible. sound. Qed.
Lemma all_pageHide : Phi _ (pageHide dump libraryText).
Proof using All. unfold pageHide. sound. Qed.
Lemma all_apply j : Phi _ (apply j).
Proof using All. unfold apply. sound. Qed.
Lemma all_tick : Phi _ (tick dump libraryText).
Proof using All. unfold tick, fireAt. sound. Qed.
Lemma all_onEngineEvent : Phi _ onEngineEvent.
Proof using All. unfold onEngineEvent. sound. Qed.
Lemma all_keysImport j : Phi _ (keysImport j).
Proof using All. unfold keysImport. sound. Qed.
End Beside.


(** ** Loops end *)

#[local] Ltac beside :=
  first [apply beside_engine | apply beside_hasClient | apply beside_isAttached | apply beside_hasKey | apply beside_itemOf
        | apply beside_savePending | apply beside_pullGrants | apply beside_currentRef | apply beside_ensureAttached
        | apply beside_setStatus | apply beside_sealAndSend | apply beside_afterError]; assumption.
#[local] Ltac pieces := repeat first [solve [eauto with sound nocore] | solve [beside] | sound_step].

Section Ends.
Let F : Sound hostCall besideQueue (flows (S := PlannerSync) (Env := Env)) := flows_sound _ _.

Lemma flows_any {A} (f : PlannerSync -> A) : flows _ (gets (Env := Env) f).
Proof. done. Qed.
Lemma flows_change (f : PlannerSync -> PlannerSync) : flows _ (modify (Env := Env) f).
Proof. done. Qed.
Lemma flows_call {A} (h : Env -> result Thrown A * Env) : flows (S := PlannerSync) _ (lift h).
Proof. intros s. unfold lift. by destruct (h s.2) as [[a|e] env]. Qed.
Hint Resolve flows_any flows_change flows_call : sound.

Lemma flows_loadOutbox : flows _ loadOutbox.
Proof. unfold loadOutbox, pushOutbox. pieces. Qed.
Lemma flows_saveOutbox : flows _ saveOutbox.
Proof. unfold saveOutbox. pieces. Qed.
Lemma flows_prepareChunk part : flows _ (prepareChunk part).
Proof. unfold prepareChunk, pushOutbox. pieces. Qed.
Hint Resolve flows_loadOutbox flows_saveOutbox flows_prepareChunk : sound.
Lemma flows_prepareSingles l : forall n, flows _ (prepareSingles l n).
Proof. induction l as [|c l IH]; intros n; cbn [prepareSingles]; pieces. Qed.
Hint Resolve flows_prepareSingles : sound.

Lemma flows_prepareChunks fuel : forall l n, (length l <= fuel)%nat -> flows _ (prepareChunks fuel l n).
Proof.
  induction fuel as [|fuel IH]; intros [|c l] n L; cbn [prepareChunks]; [done|cbn in L; lia|done|].
  assert (D : (length (drop kMaxChangesPerOp (c :: l)) <= fuel)%nat).
  { rewrite length_drop. cbn [length] in *. assert (0 < kMaxChangesPerOp)%nat by (unfold kMaxChangesPerOp; lia). lia. }
  pieces.
Qed.

Lemma flows_prepareLocal : flows _ (prepareLocal dump).
Proof. unfold prepareLocal. pieces; by apply flows_prepareChunks. Qed.
End Ends.

(** Nothing but the queue's own code changes the queue. *)
Definition sameQueue (s s' : St) : Prop := outbox_ s'.1 = outbox_ s.1.

#[local] Instance sameQueue_pre : PreOrder sameQueue.
Proof. split; [done|]. intros s s1 s2 E1 E2. unfold sameQueue in *. congruence. Qed.

Lemma sameQueue_sound : Sound hostCall besideQueue (keeps sameQueue).
Proof.
  apply keeps_sound; [apply _| |].
  - intros A h _ s. unfold sameQueue. by rewrite lift_state.
  - intros f B s. unfold sameQueue. apply B.
Qed.

Lemma sameQueue_save : keeps sameQueue _ saveOutbox.
Proof.
  intros s. unfold saveOutbox, bind, gets, attempt, ret. destruct (outbox_ s.1); [|unfold sameQueue; by rewrite lift_state].
  pose proof (lift_state (r_remove kOutboxRecord) s) as E. destruct (lift _ s) as [[]]; cbn in *; unfold sameQueue; cbn; by rewrite E.
Qed.

(** What a step of [m] gives: it does not get stuck and keeps the queue. *)
Lemma step_kept {A B} (m : P A) (k : A -> P B) (s : St) : flows _ m -> keeps sameQueue _ m ->
  (forall a s', (m s).1 = Done a -> outbox_ s'.1 = outbox_ s.1 -> (k a s').1 <> Stuck) -> (bind m k s).1 <> Stuck.
Proof.
  intros Fm Km Hk. unfold bind. specialize (Fm s). specialize (Km s). destruct (m s) as [[a|e|] s'] eqn:E; [|done..].
  apply Hk; [done|exact Km].
Qed.

Lemma afterError_again (e : Thrown) (n : nat) (s : St) : (afterError libraryText e n s).1 = Done Again -> (n < 3)%nat.
Proof.
  unfold afterError. destruct (bool_decide _); [done|]. destruct (bool_decide _).
  - intros (ref & s1 & _ & D)%bind_done. apply bind_done in D as (? & s2 & _ & D). apply bind_done in D as (k & s3 & _ & D).
    destruct (negb k); [by apply bind_done in D as (? & ? & _ & ?)|].
    destruct (Nat.ltb_spec 3 (S n)); [|lia]. apply bind_done in D as (? & ? & _ & D). by apply bind_done in D as (? & ? & _ & ?).
  - intros (? & ? & _ & D)%bind_done. apply bind_done in D as (? & ? & _ & D). apply bind_done in D as (? & ? & _ & D).
    by apply bind_done in D as (? & ? & _ & ?).
Qed.

Lemma sendLoop_ends (fuel : nat) : forall n for_ s, (n <= 3)%nat ->
  (4 * length (outbox_ s.1) <= fuel + (match outbox_ s.1 with i :: _ => if bool_decide (opId i = for_) then n else 0 | [] => 0 end))%nat ->
  (sendLoop libraryText fuel n for_ s).1 <> Stuck.
Proof.
  pose proof (flows_sound hostCall besideQueue (S := PlannerSync) (Env := Env)) as F. pose proof sameQueue_sound as Q.
  induction fuel as [|fuel IH]; intros n for_ s N L; cbn [sendLoop]; unfold bind at 1, gets at 1.
  - destruct (outbox_ s.1) as [|i l]; [done|]. cbn [length] in L. destruct (bool_decide _); lia.
  - destruct (outbox_ s.1) as [|i l] eqn:O; [done|]. cbn [length] in L. set (r := if bool_decide (opId i = for_) then n else 0%nat) in *.
    assert (R : (r <= 3)%nat) by (subst r; destruct (bool_decide _); lia).
    apply step_kept; [by apply beside_hasKey|by apply beside_hasKey|]. intros k s1 _ O1. destruct k; [|exact (beside_setStatus flows _ s1)].
    cbn [negb]. apply step_kept; [apply (@sound_attempt _ _ _ _ _ F); by apply beside_sealAndSend|apply (@sound_attempt _ _ _ _ _ Q); by apply beside_sealAndSend|].
    intros res s2 _ O2. rewrite O1, O in O2.
    assert (A : forall turn s3, outbox_ s3.1 = i :: l -> (turn = Again -> (r < 3)%nat) ->
      (match turn with
       | Sent => modify (fun s => set_outbox_ (tail (outbox_ s)) s) ;;; saveOutbox ;;; sendLoop libraryText fuel r (opId i)
       | Again => sendLoop libraryText fuel (S r) (opId i)
       | Leave => ret tt
       end s3).1 <> Stuck).
    { intros [| |] s3 O3 A; [..|done].
      - unfold bind at 1, modify at 1. apply step_kept; [apply flows_saveOutbox|apply sameQueue_save|]. intros _ s4 _ O4.
        cbn [fst] in O4. apply IH; [done|]. rewrite O4. change (outbox_ (set_outbox_ ?v ?x)) with v. rewrite O3. cbn [tail length] in *.
        clearbody r. destruct l as [|j l]; cbn [length] in *; lia.
      - specialize (A eq_refl). apply IH; [lia|]. rewrite O3, bool_decide_eq_true_2 by done. clearbody r. cbn [length]. lia. }
    destruct res as [b|e].
    + unfold bind at 1, ret at 1. by apply (A Sent).
    + apply step_kept; [by apply beside_afterError|by apply beside_afterError|]. intros turn s3 E O3. apply (A turn); [congruence|].
      intros ->. clear - E. by eapply afterError_again.
Qed.

Lemma flows_sendOutbox : flows _ (sendOutbox libraryText).
Proof.
  intros s. unfold sendOutbox. revert s. change (flows unit (sendOutbox libraryText)). unfold sendOutbox.
  pose proof (flows_sound hostCall besideQueue (S := PlannerSync) (Env := Env)) as F.
  apply (@sound_bind _ _ _ _ _ F); [by apply beside_isAttached|]. intros [|]; [|done].
  apply (@sound_bind _ _ _ _ _ F); [apply flows_loadOutbox|]. intros _ s. unfold bind, gets.
  apply sendLoop_ends; [lia|]. cbn. destruct (outbox_ s.1) as [|i l]; [lia|]. destruct (bool_decide _); lia.
Qed.

(** What the host calls. *)
Inductive operation : P unit -> Prop :=
| op_ensure b : operation (ensure dump libraryText b)
| op_setActive b : operation (setActive b)
| op_setVisible b : operation (setVisible b)
| op_pageHide : operation (pageHide dump libraryText)
| op_apply j : operation (apply j)
| op_flush : operation (flush dump libraryText)
| op_syncNow : operation (syncNow dump libraryText)
| op_tick : operation (tick dump libraryText)
| op_keysImport j : operation (keysImport j)
| op_onEngineEvent : operation onEngineEvent.

(** A call of the host, and what it leaves; and the same with [reset], by which
    an account is left: it forgets the queue in memory and nothing of the
    records. *)
Definition called (s s' : St) : Prop := exists m, operation m /\ s' = (m s).2.
Inductive step (s : St) : St -> Prop :=
| step_called s' : called s s' -> step s s'
| step_reset : step s (reset s).2.

(** The state at the last [reset], or at the beginning. *)
Definition lastStart (s s0 : St) : Prop :=
  s0 = s \/ exists s1, rtc step s s1 /\ s0 = (reset s1).2 /\ s0.2 = s1.2 /\ outbox_ s0.1 = [] /\ isOutboxLoaded_ s0.1 = false.

Lemma run_parts (s s' : St) : rtc step s s' -> exists s0, lastStart s s0 /\ rtc called s0 s'.
Proof.
  revert s'. apply (rtc_ind_r (fun s' => exists s0, lastStart s s0 /\ rtc called s0 s')).
  - exists s. split; [by left|reflexivity].
  - intros s1 s2 R [s' C|] (s0 & L & I).
    + exists s0. split; [exact L|]. eapply rtc_r; [exact I|exact C].
    + exists (reset s1).2. split; [|reflexivity]. right. by exists s1.
Qed.

Lemma operation_sound (Phi : forall A, P A -> Prop) (m : P unit) : Sound hostCall besideQueue Phi ->
  Phi _ loadOutbox -> Phi _ (prepareLocal dump) -> Phi _ (sendOutbox libraryText) -> operation m -> Phi _ m.
Proof.
  intros F L Pr Se [].
  - by apply all_ensure.
  - by apply all_setActive.
  - by apply all_setVisible.
  - by apply all_pageHide.
  - by apply all_apply.
  - unfold flush. by apply all_flushNow.
  - by apply all_syncNow.
  - by apply all_tick.
  - by apply all_keysImport.
  - by apply all_onEngineEvent.
Qed.

(** Property (operations_end): whatever the host answers, what it calls ends: no
    loop needs more turns than the model gives it. An operation of the queue is
    tried at most four times in a row, the edits are taken in parts, the pages
    of the journal are at most fifty. *)
Theorem operations_end (m : P unit) (s : St) : operation m -> (m s).1 <> Stuck.
Proof.
  intros O. revert s. apply (operation_sound flows m (flows_sound _ _)); [apply flows_loadOutbox|apply flows_prepareLocal|apply flows_sendOutbox|done].
Qed.

(** ** The queue and the server *)

Section Server.
(** The server has accepted the operation of an identifier. *)
Context (accepted : Env -> bytes -> Prop).

(** What it has it keeps; when it answers a request with an operation, or says
    that it is a duplicate, it has it. *)
Class ServerLaws : Prop := {
  law_keeps A h : hostCall A h -> forall env i, accepted env i -> accepted (h env).2 i;
  law_saves j env i : accepted env i -> accepted (r_save kOutboxRecord j env).2 i;
  law_removes env i : accepted env i -> accepted (r_remove kOutboxRecord env).2 i;
  law_sent item s : let r := sealAndSend item s in
    (exists b, r.1 = Done b) \/ r.1 = Threw (BusError (#"ERROR_CODE_DUPLICATE")) -> accepted r.2.2 (opId item)
}.
Context {Laws : ServerLaws}.

(** Operations leave at the front, and only when they are accepted. *)
Definition passedOn (s s' : St) : Prop :=
  passed (fun item => accepted s'.2 (opId item)) (outbox_ s.1) (outbox_ s'.1).

Definition grown (s s' : St) : Prop := forall i, accepted s.2 i -> accepted s'.2 i.

Lemma passedOn_trans (s s1 s2 : St) : passedOn s s1 -> grown s1 s2 -> passedOn s1 s2 -> passedOn s s2.
Proof. intros P1 G P2. eapply passed_trans; [exact P1| |exact P2]. intros item. apply G. Qed.

Lemma passedOn_same (s s' : St) : sameQueue s s' -> passedOn s s'.
Proof. intros E. unfold passedOn. rewrite E. apply passed_refl. Qed.

(** Before the record is read there is no queue. *)
Definition unloadedEmpty (s : PlannerSync) : Prop := isOutboxLoaded_ s = false -> outbox_ s = [].

(** What the parts of an operation keep, once the record was read, and what
    all keep. *)
Definition queueIn (s s' : St) : Prop :=
  grown s s' /\ (isOutboxLoaded_ s.1 = true -> isOutboxLoaded_ s'.1 = true /\ passedOn s s').
Definition queueKept (s s' : St) : Prop :=
  grown s s' /\ (unloadedEmpty s.1 -> unloadedEmpty s'.1 /\ passedOn s s').

#[local] Instance queueIn_pre : PreOrder queueIn.
Proof.
  split; [intros s; split; [by intros ?|intros L; split; [done|by apply passedOn_same]]|].
  intros s s1 s2 [G1 Q1] [G2 Q2]. split; [intros i Hi; auto|]. intros L. destruct (Q1 L) as [L1 P1], (Q2 L1) as [L2 P2].
  split; [done|]. by eapply passedOn_trans.
Qed.

#[local] Instance queueKept_pre : PreOrder queueKept.
Proof.
  split; [intros s; split; [by intros ?|intros L; split; [done|by apply passedOn_same]]|].
  intros s s1 s2 [G1 Q1] [G2 Q2]. split; [intros i Hi; auto|]. intros L. destruct (Q1 L) as [L1 P1], (Q2 L1) as [L2 P2].
  split; [done|]. by eapply passedOn_trans.
Qed.

Lemma grown_lift {A} (h : Env -> result Thrown A * Env) (s : St) : (forall env i, accepted env i -> accepted (h env).2 i) ->
  grown s (lift h s).2.
Proof. intros G i Hi. apply (G s.2) in Hi. unfold lift. by destruct (h s.2) as [[a|e] env]. Qed.

Lemma queueIn_beside (s s' : St) : grown s s' -> sameQueue s s' -> isOutboxLoaded_ s'.1 = isOutboxLoaded_ s.1 -> queueIn s s'.
Proof. intros G E L. split; [done|]. intros L1. split; [congruence|by apply passedOn_same]. Qed.

Lemma queueKept_beside (s s' : St) : grown s s' -> sameQueue s s' -> isOutboxLoaded_ s'.1 = isOutboxLoaded_ s.1 -> queueKept s s'.
Proof. intros G E L. split; [done|]. unfold unloadedEmpty. rewrite E, L. intros U. split; [done|by apply passedOn_same]. Qed.

Lemma queueIn_sound : Sound hostCall besideQueue (keeps queueIn).
Proof.
  apply keeps_sound; [apply _| |].
  - intros A h C s. apply queueIn_beside; [apply grown_lift; by apply law_keeps|unfold sameQueue|]; by rewrite lift_state.
  - intros f B s. apply queueIn_beside; [by intros ?|apply B..].
Qed.

Lemma queueKept_sound : Sound hostCall besideQueue (keeps queueKept).
Proof.
  apply keeps_sound; [apply _| |].
  - intros A h C s. apply queueKept_beside; [apply grown_lift; by apply law_keeps|unfold sameQueue|]; by rewrite lift_state.
  - intros f B s. apply queueKept_beside; [by intros ?|apply B..].
Qed.

Lemma queueIn_push (item : OutboxItem) : keeps queueIn _ (pushOutbox item).
Proof. intros s. split; [by intros ?|]. intros L. split; [done|]. by exists 0%nat, [item]. Qed.

Lemma queueIn_save : keeps queueIn _ saveOutbox.
Proof.
  intros s. pose proof (sameQueue_save s) as E.
  enough (grown s (saveOutbox s).2 /\ isOutboxLoaded_ (saveOutbox s).2.1 = isOutboxLoaded_ s.1) as [G L] by (by apply queueIn_beside).
  unfold saveOutbox, bind, gets, attempt, ret. destruct (outbox_ s.1) as [|i l].
  - pose proof (grown_lift (r_remove kOutboxRecord) s law_removes) as G. pose proof (lift_state (r_remove kOutboxRecord) s) as E1.
    destruct (lift _ s) as [[]]; cbn in *; by rewrite E1.
  - split; [apply grown_lift, law_saves|by rewrite lift_state].
Qed.

Lemma queueIn_prepareChunk part : keeps queueIn _ (prepareChunk part).
Proof.
  pose proof queueIn_sound as Q. unfold prepareChunk. sound; [by apply beside_engine|by apply beside_itemOf|apply queueIn_push].
Qed.

Lemma queueIn_prepareSingles l : forall n, keeps queueIn _ (prepareSingles l n).
Proof.
  pose proof queueIn_sound as Q. induction l as [|c l IH]; intros n; cbn [prepareSingles]; sound; try apply queueIn_prepareChunk; apply IH.
Qed.

Lemma queueIn_prepareChunks fuel : forall l n, keeps queueIn _ (prepareChunks fuel l n).
Proof.
  pose proof queueIn_sound as Q. induction fuel as [|fuel IH]; intros [|c l] n; cbn [prepareChunks]; sound;
    try apply queueIn_prepareChunk; try apply queueIn_prepareSingles; try apply IH. by intros s.
Qed.

Lemma sent_accepted (item : OutboxItem) (s : St) (res : bytes + Thrown) (n : nat) :
  (attempt (sealAndSend item) s).1 = Done res ->
  let s1 := (attempt (sealAndSend item) s).2 in
  let turn := match res with inl _ => ret Sent | inr e => afterError libraryText e n end in
  (turn s1).1 = Done Sent -> accepted s1.2 (opId item).
Proof.
  pose proof (law_sent item s) as L. cbv zeta in L. unfold attempt. destruct (sealAndSend item s) as [[b|e|] s'] eqn:E; cbn [fst snd] in *.
  - intros _ _. apply L. left. by exists b.
  - intros [= <-]. intros D. apply L. right. unfold afterError in D. destruct (bool_decide_reflect (errorCode e = Some (#"ERROR_CODE_DUPLICATE"))) as [C|_].
    { by destruct e; try done; injection C as ->. }
    exfalso. revert D. destruct (bool_decide _).
    + intros (ref & s1 & _ & D)%bind_done. apply bind_done in D as (? & s2 & _ & D). apply bind_done in D as (k & s3 & _ & D).
      destruct (negb k); [by apply bind_done in D as (? & ? & _ & ?)|].
      destruct (3 <? S n)%nat; [|done]. apply bind_done in D as (? & ? & _ & D). by apply bind_done in D as (? & ? & _ & ?).
    + intros (? & ? & _ & D)%bind_done. apply bind_done in D as (? & ? & _ & D). apply bind_done in D as (? & ? & _ & D).
      by apply bind_done in D as (? & ? & _ & ?).
  - done.
Qed.

Lemma queueIn_sendLoop (fuel : nat) : forall n for_, keeps queueIn _ (sendLoop libraryText fuel n for_).
Proof.
  pose proof queueIn_sound as Q. pose proof sameQueue_sound as Sq.
  induction fuel as [|fuel IH]; intros n for_ s; cbn [sendLoop].
  all: apply (keeps_then queueIn); [by apply (@sound_gets _ _ _ _ _ Q)|]; intros items [= <-]; cbn [snd gets].
  { by destruct (outbox_ s.1). }
  destruct (outbox_ s.1) as [|i l] eqn:O; [done|]. cbv zeta. set (r := if bool_decide _ then n else 0%nat). clearbody r.
  apply (keeps_then queueIn); [exact (beside_hasKey (keeps queueIn) s)|]. intros k _. set (s1 := (hasKey s).2).
  assert (O1 : outbox_ s1.1 = i :: l) by (rewrite <- O; exact (beside_hasKey (keeps sameQueue) s)). clearbody s1.
  destruct k; cbn [negb]; [|exact (beside_setStatus (keeps queueIn) _ s1)].
  apply (keeps_then queueIn); [exact (@sound_attempt _ _ _ _ _ Q _ _ (beside_sealAndSend (keeps queueIn) i) s1)|]. intros res Dr.
  pose proof (sent_accepted i s1 res r Dr) as A. set (s2 := (attempt (sealAndSend i) s1).2) in *.
  assert (O2 : outbox_ s2.1 = i :: l).
  { rewrite <- O1. exact (@sound_attempt _ _ _ _ _ Sq _ _ (beside_sealAndSend (keeps sameQueue) i) s1). }
  cbv zeta in A. clearbody s2. clear Dr.
  set (after := match res with inl _ => ret Sent | inr e => afterError libraryText e r end) in *.
  assert (keeps queueIn _ after /\ keeps sameQueue _ after) as [K1 K2].
  { subst after. split; destruct res; try (by intros x); by apply beside_afterError. }
  clearbody after. apply (keeps_then queueIn); [apply K1|]. intros turn Dt. destruct (K1 s2) as [G3 _]. specialize (K2 s2).
  set (s3 := (after s2).2) in *. unfold sameQueue in K2. rewrite O2 in K2.
  destruct turn; [|apply IH|done]. specialize (G3 _ (A Dt)). clear A Dt K1. clearbody s3.
  apply (keeps_then queueIn); [|intros _ _; apply (keeps_then queueIn); [apply queueIn_save|intros _ _; apply IH]].
  split; [by intros ?|]. intros L. split; [done|]. exists 1%nat, []. cbn [fst snd modify]. rewrite K2. split; [by rewrite app_nil_r|].
  cbn. by constructor.
Qed.

(** ** Reading the record, and the operations of the host *)

Lemma loadOutbox_restores (s : St) : isOutboxLoaded_ s.1 = false ->
  queueIn (set_outbox_ [] (set_isOutboxLoaded_ true s.1), s.2) (loadOutbox s).2.
Proof.
  intros L. unfold loadOutbox, bind at 1, gets at 1. rewrite L. unfold bind at 1, modify at 1. unfold bind at 1, modify at 1.
  match goal with |- queueIn ?x (?m _).2 => enough (K : keeps queueIn _ m) by apply K end.
  pose proof queueIn_sound as Q. sound; try (by apply beside_itemOf); try apply queueIn_push; try (by apply beside_isAttached).
  by apply beside_engine.
Qed.

Lemma loadOutbox_loads (s : St) :
  grown s (loadOutbox s).2 /\ isOutboxLoaded_ (loadOutbox s).2.1 = true /\ (unloadedEmpty s.1 -> passedOn s (loadOutbox s).2).
Proof.
  destruct (isOutboxLoaded_ s.1) eqn:L.
  - assert ((loadOutbox s).2 = s) as -> by (unfold loadOutbox, bind, gets; by rewrite L). split; [by intros ?|]. split; [done|]. intros _. by apply passedOn_same.
  - destruct (loadOutbox_restores s L) as [G I]. destruct (I eq_refl) as [L1 _]. split; [exact G|]. split; [exact L1|].
    intros U. exists 0%nat, (outbox_ (loadOutbox s).2.1). by rewrite (U L).
Qed.

Lemma queueKept_loaded (s s' : St) : isOutboxLoaded_ s.1 = true -> queueIn s s' -> queueKept s s'.
Proof. intros L [G I]. destruct (I L) as [L1 P1]. split; [done|]. intros _. split; [intros E; congruence|done]. Qed.

Lemma queueKept_loadOutbox : keeps queueKept _ loadOutbox.
Proof.
  intros s. destruct (loadOutbox_loads s) as (G & L & P1). split; [done|]. intros U. split; [intros E; congruence|by apply P1].
Qed.

Lemma queueKept_after {A} (m : P A) : keeps queueIn _ m -> keeps queueKept _ (loadOutbox ;;; m).
Proof.
  intros K s. apply (keeps_then queueKept); [apply queueKept_loadOutbox|]. intros _ _.
  apply queueKept_loaded; [apply loadOutbox_loads|apply K].
Qed.

Lemma queueKept_prepareLocal : keeps queueKept _ (prepareLocal dump).
Proof.
  pose proof queueKept_sound as Q. unfold prepareLocal.
  apply (@sound_bind _ _ _ _ _ Q); [by apply beside_hasClient|]. intros client.
  apply (@sound_bind _ _ _ _ _ Q); [apply (@sound_gets _ _ _ _ _ Q)|]. intros pending.
  destruct client, pending as [|c pending]; try apply (@sound_ret _ _ _ _ _ Q).
  apply (@sound_bind _ _ _ _ _ Q); [by apply beside_isAttached|]. intros a.
  apply (@sound_bind _ _ _ _ _ Q); [destruct a; [apply (@sound_ret _ _ _ _ _ Q)|by apply beside_ensureAttached]|]. intros ready.
  destruct ready; [|apply (@sound_ret _ _ _ _ _ Q)]. apply queueKept_after. clear Q. pose proof queueIn_sound as Q.
  sound; [by apply beside_savePending|apply queueIn_prepareChunks|apply queueIn_save].
Qed.

Lemma queueKept_sendOutbox : keeps queueKept _ (sendOutbox libraryText).
Proof.
  pose proof queueKept_sound as Q. unfold sendOutbox.
  apply (@sound_bind _ _ _ _ _ Q); [by apply beside_isAttached|]. intros [|]; [|apply (@sound_ret _ _ _ _ _ Q)].
  apply queueKept_after. intros s. unfold bind, gets. apply queueIn_sendLoop.
Qed.

Lemma queueKept_operation (m : P unit) : operation m -> keeps queueKept _ m.
Proof.
  intros O. apply (operation_sound (keeps queueKept) m queueKept_sound); [apply queueKept_loadOutbox|apply queueKept_prepareLocal|
    apply queueKept_sendOutbox|done].
Qed.

Lemma calls_keep_order (s s' : St) : rtc called s s' -> queueKept s s'.
Proof. induction 1 as [s|s s1 s' (m & O & ->) _ IH]; [done|]. etrans; [by apply queueKept_operation|exact IH]. Qed.

(** Claim C8 (queue_in_order): whatever the host calls, whatever it answers and
    whichever calls end with an exception, since the object was made or last reset
    an operation that was in the queue is in it still, in the same place of the
    order, unless it and all before it were accepted by the server: the queue is
    what was left of it after some accepted operations, then new ones. A reset
    empties the queue in memory, and writes no record. *)
Theorem queue_in_order (s s' : St) : rtc step s s' -> unloadedEmpty s.1 ->
  (exists s0, lastStart s s0 /\ rtc called s0 s') /\
  forall s0, lastStart s s0 -> rtc called s0 s' ->
  exists k new, outbox_ s'.1 = drop k (outbox_ s0.1) ++ new /\
    Forall (fun item => accepted s'.2 (opId item)) (take k (outbox_ s0.1)).
Proof.
  intros R U. split; [by apply run_parts|]. intros s0 L C. apply (proj2 (calls_keep_order s0 s' C)).
  destruct L as [->|(s1 & _ & _ & _ & E & _)]; [exact U|]. by intros _.
Qed.
End Server.

(** ** The queue on the device *)

Section Device.
(** The record of the queue. *)
Context (record : Env -> option json).

(** Records are read and written without errors; nothing else writes this one. *)
Class RecordLaws : Prop := {
  rec_keeps A h : hostCall A h -> forall env, record (h env).2 = record env;
  rec_load env : (r_load kOutboxRecord env).1 = Ok (record env);
  rec_save j env : (r_save kOutboxRecord j env).1 = Ok tt /\ record (r_save kOutboxRecord j env).2 = Some j;
  rec_remove env : (r_remove kOutboxRecord env).1 = Ok tt /\ record (r_remove kOutboxRecord env).2 = None
}.
Context {Laws : RecordLaws}.

Definition recordOf (items : list OutboxItem) : option json :=
  match items with [] => None | _ => Some (JArr (itemJson <$> items)) end.

Definition recorded (s : St) : Prop :=
  if isOutboxLoaded_ s.1 then record s.2 = recordOf (outbox_ s.1) else exists items, record s.2 = recordOf items.
Definition recordKept (s s' : St) : Prop := recorded s -> recorded s'.

(** What writes neither the queue nor the record. *)
Definition bothSame (s s' : St) : Prop :=
  outbox_ s'.1 = outbox_ s.1 /\ isOutboxLoaded_ s'.1 = isOutboxLoaded_ s.1 /\ record s'.2 = record s.2.

#[local] Instance recordKept_pre : PreOrder recordKept.
Proof. split; [intros s R; exact R|]. intros s s1 s2 K1 K2 R. by apply K2, K1. Qed.
#[local] Instance bothSame_pre : PreOrder bothSame.
Proof. split; [done|]. intros s s1 s2 (A1 & A2 & A3) (B1 & B2 & B3). split; [|split]; congruence. Qed.

Lemma bothSame_kept (s s' : St) : bothSame s s' -> recordKept s s'.
Proof. intros (O & L & R). unfold recordKept, recorded. by rewrite O, L, R. Qed.

Lemma bothSame_sound : Sound hostCall besideQueue (keeps bothSame).
Proof.
  apply keeps_sound; [apply _| |].
  - intros A h C s. unfold bothSame. rewrite lift_state, lift_env. split; [done|]. split; [done|]. by apply (rec_keeps A).
  - intros f B s. split; [apply B|]. split; [apply B|done].
Qed.

Lemma recordKept_sound : Sound hostCall besideQueue (keeps recordKept).
Proof.
  apply keeps_sound; [apply _| |].
  - intros A h C s. apply bothSame_kept. by apply (@sound_lift _ _ _ _ _ bothSame_sound).
  - intros f B s. apply bothSame_kept. by apply (@sound_modify _ _ _ _ _ bothSame_sound).
Qed.

Lemma saveOutbox_records (s : St) : let s' := (saveOutbox s).2 in
  (saveOutbox s).1 = Done tt /\ s'.1 = s.1 /\ record s'.2 = recordOf (outbox_ s.1).
Proof.
  cbv zeta. unfold saveOutbox, bind, attempt, lift, ret, gets. destruct (outbox_ s.1) as [|i l].
  - destruct (rec_remove s.2) as [E R].
    destruct (r_remove kOutboxRecord s.2) as [[[]|e] env]; cbn in *; [done|done].
  - destruct (rec_save (JArr (itemJson <$> i :: l)) s.2) as [E R].
    destruct (r_save kOutboxRecord _ s.2) as [[[]|e] env]; cbn in *; [done|done].
Qed.

Lemma recorded_saved (s : St) : isOutboxLoaded_ s.1 = true -> recorded (saveOutbox s).2.
Proof. intros L. destruct (saveOutbox_records s) as (_ & E & R). unfold recorded. by rewrite E, L. Qed.

(** Code that throws nothing. *)
Definition calm {A} (m : P A) : Prop := forall s e, (m s).1 <> Threw e.

Lemma calm_bind {A B} (m : P A) (k : A -> P B) : calm m -> (forall a, calm (k a)) -> calm (bind m k).
Proof. intros Hm Hk s e. unfold bind. specialize (Hm s e). destruct (m s) as [[a|e'|] s']; [apply Hk|cbn in *; congruence|done]. Qed.

Lemma calm_ret {A} (a : A) : calm (ret a).
Proof. by intros s e. Qed.
#[local] Hint Resolve calm_ret : core.

Lemma calm_attempt {A} (m : P A) : calm (attempt m).
Proof. intros s e. unfold attempt. by destruct (m s) as [[]]. Qed.

Lemma calm_prepareChunk part : calm (prepareChunk part).
Proof. apply calm_bind; [apply calm_attempt|]. intros []; apply calm_ret. Qed.

Lemma calm_prepareSingles l : forall n, calm (prepareSingles l n).
Proof. induction l as [|c l IH]; intros n; cbn [prepareSingles]; [done|]. apply calm_bind; [apply calm_prepareChunk|]. intros []; apply IH. Qed.

Lemma calm_prepareChunks fuel : forall l n, calm (prepareChunks fuel l n).
Proof.
  induction fuel as [|fuel IH]; intros [|c l] n; cbn [prepareChunks]; try apply calm_ret; [by intros s e|].
  apply calm_bind; [apply calm_prepareChunk|]. intros ok. apply calm_bind; [|intros; apply IH].
  destruct ok; [done|]. case_match; [apply calm_prepareSingles|done].
Qed.

(** What is thrown or not, [m] then has run when the loop does not get stuck. *)
Definition stillLoaded (s s' : St) : Prop := isOutboxLoaded_ s.1 = true -> isOutboxLoaded_ s'.1 = true.

#[local] Instance stillLoaded_pre : PreOrder stillLoaded.
Proof. split; [intros s R; exact R|]. intros s s1 s2 K1 K2 R. by apply K2, K1. Qed.

Lemma stillLoaded_sound : Sound hostCall besideQueue (keeps stillLoaded).
Proof.
  apply keeps_sound; [apply _| |].
  - intros A h C s. unfold stillLoaded. by rewrite lift_state.
  - intros f B s. unfold stillLoaded. cbn. by rewrite (proj2 (B s.1)).
Qed.

Lemma loaded_prepareChunk part : keeps stillLoaded _ (prepareChunk part).
Proof. pose proof stillLoaded_sound as Q. unfold prepareChunk. sound; [by apply beside_engine|by apply beside_itemOf|by intros s L]. Qed.

Lemma loaded_prepareSingles l : forall n, keeps stillLoaded _ (prepareSingles l n).
Proof.
  pose proof stillLoaded_sound as Q. induction l as [|c l IH]; intros n; cbn [prepareSingles]; sound; try apply loaded_prepareChunk; apply IH.
Qed.

Lemma loaded_prepareChunks fuel : forall l n, keeps stillLoaded _ (prepareChunks fuel l n).
Proof.
  pose proof stillLoaded_sound as Q. induction fuel as [|fuel IH]; intros [|c l] n; cbn [prepareChunks]; sound;
    try apply loaded_prepareChunk; try apply loaded_prepareSingles; try apply IH. by intros s L.
Qed.

(** With the record read, and the record the queue. *)
Definition recordIn (s s' : St) : Prop :=
  isOutboxLoaded_ s.1 = true -> recorded s -> isOutboxLoaded_ s'.1 = true /\ recorded s'.

#[local] Instance recordIn_pre : PreOrder recordIn.
Proof. split; [done|]. intros s s1 s2 K1 K2 L R. destruct (K1 L R). by apply K2. Qed.

Lemma recordIn_sound : Sound hostCall besideQueue (keeps recordIn).
Proof.
  assert (B : forall s s', bothSame s s' -> recordIn s s').
  { intros s s' B L R. destruct B as (O & L' & V). unfold recorded in *. rewrite L' in *. rewrite L in *. split; [done|congruence]. }
  apply keeps_sound; [apply _| |].
  - intros A h C s. apply B. by apply (@sound_lift _ _ _ _ _ bothSame_sound).
  - intros f K s. apply B. by apply (@sound_modify _ _ _ _ _ bothSame_sound).
Qed.

(** Once the code before it has ended and the record is read, a save writes
    the queue; the code after it keeps it. *)
Lemma recordIn_save {A B} (m : P A) (k : A -> P B) : calm m -> flows _ m -> keeps stillLoaded _ m ->
  (forall a, keeps recordIn _ (k a)) -> keeps recordIn _ (let* a := m in saveOutbox ;;; k a).
Proof.
  intros C Fm Lm K s L _. specialize (C s). specialize (Fm s). specialize (Lm s L). cbv zeta.
  destruct (m s) as [o s1] eqn:Em. destruct o as [a|e|]; [|by destruct (C e)|done]. cbn [fst snd] in Lm.
  destruct (saveOutbox_records s1) as (D & E & _). pose proof (recorded_saved s1 Lm) as R.
  destruct (saveOutbox s1) as [o s2] eqn:Es. cbn [fst snd] in *. subst o.
  assert ((let* a := m in saveOutbox ;;; k a) s = k a s2) as -> by (unfold bind; by rewrite Em, Es).
  apply K; [by rewrite E|done].
Qed.

Lemma calm_modify (f : PlannerSync -> PlannerSync) : calm (modify (Env := Env) f).
Proof. by intros s e. Qed.

Lemma recordIn_sendLoop (fuel : nat) : forall n for_, keeps recordIn _ (sendLoop libraryText fuel n for_).
Proof.
  pose proof recordIn_sound as Q. induction fuel as [|fuel IH]; intros n for_; cbn [sendLoop].
  { sound. by intros s. }
  repeat first [apply (recordIn_save (modify _) (fun _ => _)); [apply calm_modify|apply flows_change|by intros s L|intros _; apply IH]
    | sound_step]; try apply IH.
  - by apply beside_hasKey.
  - by apply beside_setStatus.
  - by apply beside_sealAndSend.
  - by apply beside_afterError.
Qed.

Lemma itemOf_itemJson (item : OutboxItem) (s : St) : itemOf (itemJson item) s = (Done item, s).
Proof. by destruct item. Qed.

Lemma read_items (items : list OutboxItem) : forall s : St,
  forEachM (itemJson <$> items) (fun j => let* item := itemOf j in pushOutbox item) s =
    (Done tt, (set_outbox_ (outbox_ s.1 ++ items) s.1, s.2)).
Proof.
  induction items as [|i items IH]; intros [s env]; cbn [fmap list_fmap forEachM].
  - cbn. rewrite app_nil_r. by destruct s.
  - unfold bind at 1 2. rewrite itemOf_itemJson. cbn [pushOutbox modify]. rewrite IH. cbn [fst snd].
    change (outbox_ (set_outbox_ ?v ?x)) with v. by rewrite <- app_assoc.
Qed.

Lemma loadOutbox_reads (s : St) (items : list OutboxItem) : isOutboxLoaded_ s.1 = false -> record s.2 = recordOf items ->
  let s' := (loadOutbox s).2 in isOutboxLoaded_ s'.1 = true /\ outbox_ s'.1 = items /\ record s'.2 = recordOf items.
Proof.
  intros L R. cbv zeta.
  set (s0 := (set_outbox_ [] (set_isOutboxLoaded_ true s.1), s.2)).
  assert (exists env (m : P unit), loadOutbox s = m (set_outbox_ items s0.1, env) /\ keeps bothSame _ m /\ record env = record s.2)
    as (env & m & -> & K & V).
  2: { destruct (K (set_outbox_ items s0.1, env)) as (O & L' & V'). rewrite O, L', V'. cbn [fst snd]. split; [done|]. split; [done|congruence]. }
  unfold loadOutbox, bind at 1, gets at 1. rewrite L. unfold bind at 1, modify at 1. unfold bind at 1, modify at 1. cbn [fst snd]. fold s0. unfold bind at 1.
  set (read := attempt _). assert (exists o env, read s0 = (Done o, (set_outbox_ items s0.1, env)) /\ record env = record s.2) as (o & env & -> & V).
  { subst read. pose proof (rec_load s.2) as E. pose proof (rec_keeps _ _ (call_load kOutboxRecord) s.2) as V.
    unfold attempt, bind at 1, lift. change s0.2 with s.2. destruct (r_load kOutboxRecord s.2) as [v env]. cbn [fst snd] in *. subst v.
    exists (inl tt), env. split; [|exact V]. rewrite R. destruct items as [|i items]; [done|]. unfold recordOf. by rewrite read_items. }
  eexists env, _. split; [reflexivity|]. split; [|exact V].
  pose proof bothSame_sound as Q. sound; [by apply beside_isAttached|by apply beside_engine].
Qed.

Lemma recordKept_loadOutbox : keeps recordKept _ loadOutbox.
Proof.
  intros s R. destruct (isOutboxLoaded_ s.1) eqn:L.
  - assert ((loadOutbox s).2 = s) as -> by (unfold loadOutbox, bind, gets; by rewrite L). exact R.
  - unfold recorded in R. rewrite L in R. destruct R as [items R]. destruct (loadOutbox_reads s items L R) as (L1 & O & V).
    unfold recorded. by rewrite L1, O.
Qed.

Lemma loadOutbox_rereads (s : St) : isOutboxLoaded_ (loadOutbox s).2.1 = true.
Proof.
  destruct (isOutboxLoaded_ s.1) eqn:L.
  - assert ((loadOutbox s).2 = s) as -> by (unfold loadOutbox, bind, gets; by rewrite L). done.
  - unfold loadOutbox, bind at 1, gets at 1. rewrite L. unfold bind at 1, modify at 1. unfold bind at 1, modify at 1.
    match goal with |- context [(?m ?x).2] => enough (K : keeps stillLoaded _ m) by (by apply K) end.
    pose proof stillLoaded_sound as Q. sound; [by apply beside_itemOf|by intros ? ?|by apply beside_isAttached|by apply beside_engine].
Qed.

Lemma recordKept_after {A} (m : P A) : keeps recordIn _ m -> keeps recordKept _ (loadOutbox ;;; m).
Proof.
  intros K s. apply (keeps_then recordKept); [apply recordKept_loadOutbox|]. intros _ _ R.
  apply K; [|done]. apply loadOutbox_rereads.
Qed.

Lemma recordKept_prepareLocal : keeps recordKept _ (prepareLocal dump).
Proof.
  pose proof recordKept_sound as Q. unfold prepareLocal.
  apply (@sound_bind _ _ _ _ _ Q); [by apply beside_hasClient|]. intros client.
  apply (@sound_bind _ _ _ _ _ Q); [apply (@sound_gets _ _ _ _ _ Q)|]. intros pending.
  destruct client, pending as [|c pending]; try apply (@sound_ret _ _ _ _ _ Q).
  apply (@sound_bind _ _ _ _ _ Q); [by apply beside_isAttached|]. intros a.
  apply (@sound_bind _ _ _ _ _ Q); [destruct a; [apply (@sound_ret _ _ _ _ _ Q)|by apply beside_ensureAttached]|]. intros ready.
  destruct ready; [|apply (@sound_ret _ _ _ _ _ Q)]. apply recordKept_after. clear Q. pose proof recordIn_sound as Q.
  repeat first [apply recordIn_save; [apply calm_prepareChunks|by apply flows_prepareChunks|apply loaded_prepareChunks|intros ?]
    | sound_step]. by apply beside_savePending.
Qed.

Lemma recordKept_sendOutbox : keeps recordKept _ (sendOutbox libraryText).
Proof.
  pose proof recordKept_sound as Q. unfold sendOutbox.
  apply (@sound_bind _ _ _ _ _ Q); [by apply beside_isAttached|]. intros [|]; [|apply (@sound_ret _ _ _ _ _ Q)].
  apply recordKept_after. intros s. unfold bind, gets. apply recordIn_sendLoop.
Qed.

Lemma recorded_step (s s' : St) : step s s' -> recorded s -> recorded s'.
Proof.
  intros [s1 (m & O & ->)|] R.
  - revert R. pattern s, (m s).2. apply (operation_sound (keeps recordKept) m recordKept_sound); [apply recordKept_loadOutbox|
      apply recordKept_prepareLocal|apply recordKept_sendOutbox|done].
  - unfold recorded in *. cbn. destruct (isOutboxLoaded_ s.1); [by eexists|exact R].
Qed.

End Device.
End Host.

(** ** A host to run with *)

Module Bench.

(** The server's list of what it has, the answers it will give to operations
    (the code of an error, or none), the clock, and the two records. *)
Record Bench := mkBench {
  log : list bytes;
  faults : list (option bytes);
  clock : Z;
  outboxRecord : option json;
  pendingRecord : option json;
  made : list bytes
}.

Definition engineOf (name : bytes) (args : json) (e : Bench) : result Thrown json * Bench :=
  if bool_decide (name = #"plannerPrepareLocal") then
    match made e with
    | i :: l => (Ok (jobj [(#"opId", JStr i); (#"op", JStr (i ++ i))]),
                 mkBench (log e) (faults e) (clock e) (outboxRecord e) (pendingRecord e) l)
    | [] => (Err (BusError (#"ERROR_CODE_UNAVAILABLE")), e)
    end
  else if bool_decide (name = #"plannerSeal") then
    (Ok (jobj [(#"method", match jfind (#"opIdHex") args with Some j => j | None => JNull end)]), e)
  else if bool_decide (name = #"plannerContainer") then
    (Ok (jobj [(#"domain", JStr kPlannerDomain); (#"id", JStr (#"aa"))]), e)
  else if bool_decide (name = #"plannerIsAttached") || bool_decide (name = #"plannerHasKey") then (Ok (JBool true), e)
  else if bool_decide (name = #"plannerIngestSync") then (Ok (jobj []), e)
  else (Ok JNull, e).

(** A request of an operation carries its identifier as the method; the server
    has what it answered. *)
Definition requestOf (method : bytes) (e : Bench) : result Thrown bytes * Bench :=
  match faults e with
  | Some c :: l => if bool_decide (c = #"ERROR_CODE_DUPLICATE") then
                     (Err (BusError c), mkBench (method :: log e) l (clock e) (outboxRecord e) (pendingRecord e) (made e))
                   else (Err (BusError c), mkBench (log e) l (clock e) (outboxRecord e) (pendingRecord e) (made e))
  | l => (Ok [], mkBench (method :: log e) (tail l) (clock e) (outboxRecord e) (pendingRecord e) (made e))
  end.

#[export] Instance bench_transport : DomainTransport Bench := {
  t_engine := engineOf;
  t_engineWithNeeds := engineOf;
  t_request _ m _ _ := requestOf m;
  t_encodeMethod _ _ e := (Ok [], e);
  t_decodeMethod _ _ e := (Ok (JObj []), e);
  t_hasClient e := (Ok true, e);
  t_isReady e := (Ok true, e);
  t_needsLinking e := (Ok false, e);
  t_self e := (Ok [], e);
  t_serverDomain e := (Ok [], e);
  t_persist e := (Ok tt, e);
  t_nowMs e := (Ok (clock e), mkBench (log e) (faults e) (clock e + 1) (outboxRecord e) (pendingRecord e) (made e))
}.

Definition put (key : bytes) (v : option json) (e : Bench) : Bench :=
  if bool_decide (key = kOutboxRecord) then mkBench (log e) (faults e) (clock e) v (pendingRecord e) (made e)
  else mkBench (log e) (faults e) (clock e) (outboxRecord e) v (made e).

#[export] Instance bench_records : RecordStore Bench := {
  r_load k e := (Ok (if bool_decide (k = kOutboxRecord) then outboxRecord e else pendingRecord e), e);
  r_save k j e := (Ok tt, put k (Some j) e);
  r_remove k e := (Ok tt, put k None e)
}.

#[export] Instance bench_hooks : PlannerHooks Bench :=
  {| h_stateContainer := None; h_recordContainer := None; h_onChanged := None |}.

Definition has (e : Bench) (i : bytes) : Prop := i ∈ log e.

Lemma requestOf_has (m : bytes) (e : Bench) (i : bytes) : has e i -> has (requestOf m e).2 i.
Proof. unfold requestOf, has. destruct (faults e) as [|[c|] l]; [set_solver..|case_match; set_solver|set_solver]. Qed.

Lemma engineOf_keeps (n : bytes) (j : json) (e : Bench) :
  log (engineOf n j e).2 = log e /\ outboxRecord (engineOf n j e).2 = outboxRecord e.
Proof. unfold engineOf. repeat case_match; done. Qed.

Lemma engineOf_has (n : bytes) (j : json) (e : Bench) (i : bytes) : has e i -> has (engineOf n j e).2 i.
Proof. unfold has. by rewrite (proj1 (engineOf_keeps n j e)). Qed.

#[export] Instance bench_server : ServerLaws has.
Proof.
  split.
  - intros A h C env i. destruct C; try done; try apply engineOf_has; try apply requestOf_has.
  - done.
  - done.
  - intros item s.
    assert (E : sealAndSend item s =
      lift (requestOf (opId item)) (s.1, (t_nowMs s.2).2)) by done.
    cbv zeta. rewrite E. unfold lift, requestOf, has. cbn [snd t_nowMs bench_transport faults].
    destruct (faults s.2) as [|[c|] l]; cbn; [intros _; set_solver| |intros _; set_solver].
    case_bool_decide as N; cbn; [intros _; set_solver|]. intros [[b D]|D]; [by inversion D|]. exfalso. apply N. by inversion D.
Qed.

#[export] Instance bench_record : RecordLaws outboxRecord.
Proof.
  split; [|done..].
  intros A h C env. destruct C; cbn; try done; try apply engineOf_keeps. unfold requestOf. destruct (faults env) as [|[c|] l]; try done. by case_match.
Qed.

(** Two operations in the queue; the server has no time for the second. *)
Definition anyDump (j : json) : result exn bytes := Ok [].
Definition anyText (e : exn) : bytes := #"error".
Definition twoItems : list OutboxItem := [{| opId := #"a1"; op := #"one" |}; {| opId := #"b2"; op := #"two" |}].
Definition before : PlannerSync * Bench :=
  (set_isOutboxLoaded_ true (set_outbox_ twoItems newSync),
   mkBench [] [None; Some (#"ERROR_CODE_UNAVAILABLE")] 1000 (recordOf twoItems) None (cons (#"c3") nil)).
Definition edit : json := jobj [(#"type", JStr (#"task")); (#"id", JStr (#"t"))].
Definition edited : PlannerSync * Bench := (apply (JArr [edit]) before).2.
Definition after : PlannerSync * Bench := (flush anyDump anyText edited).2.
End Bench.

Import Bench.

(** An edit, then a flush: the first operation of the queue is sent, the server
    has no time for the second, the edit is the third. *)
Lemma operations_end_witness : operation anyDump anyText (flush anyDump anyText) /\ (flush anyDump anyText edited).1 <> Stuck.
Proof. split; [constructor|]. apply (operations_end anyDump anyText). constructor. Defined.

(** Left, and entered again before the edit. *)
Definition left_ : PlannerSync * Bench := (reset (apply (JArr [edit]) before).2).2.

Lemma bench_run : rtc (called anyDump anyText) before after /\ rtc (step anyDump anyText) before after.
Proof.
  assert (C : rtc (called anyDump anyText) before after).
  { apply (rtc_l _ before edited after); [exists (apply (JArr [edit])); split; [constructor|reflexivity]|].
    apply rtc_once. exists (flush anyDump anyText). split; [constructor|reflexivity]. }
  split; [exact C|]. eapply rtc_subrel; [|exact C]. intros s s'. apply step_called.
Qed.

Lemma bench_left : rtc (step anyDump anyText) before left_.
Proof. apply (rtc_l _ before edited left_); [left; exists (apply (JArr [edit])); split; [constructor|reflexivity]|]. apply rtc_once. right. Qed.

Lemma queue_in_order_witness :
  (unloadedEmpty before.1 /\ opId <$> outbox_ after.1 = (#"b2") :: (#"c3") :: nil /\ log after.2 = cons (#"a1") nil) /\
  exists k new, outbox_ after.1 = drop k (outbox_ before.1) ++ new /\
    Forall (fun item => has after.2 (opId item)) (take k (outbox_ before.1)).
Proof.
  split; [split; [discriminate|split; vm_compute; reflexivity]|]. destruct bench_run as [C R].
  refine (proj2 (queue_in_order anyDump anyText has before after R _) before (or_introl eq_refl) C). discriminate.
Defined.

End PlannerQueue.
