(* ===== verification/NotesText.v ===== *)
(** * NotesText: text helpers of the notes

    Module [Text] models [src/sections/notes_text.h]: lenient decoding of UTF-8,
    what the sources take from the engine of the web client (spaces, letters,
    lower case, [trim], [split], string literals of JSON, base 36, the order of
    names, percent encoding of addresses). Not modelled: [jsRound] and
    [formatNumber], which work on doubles. *)

From S2P Require Import Prelude Utf8 Order.

Module Text.

(** ** UTF-8 *)

(** The lead of a sequence; overlong sequences and surrogates are let through. *)
Definition leadAt (b : Z) : option (nat * Z) :=
  if (Z.land b 0xE0 =? 0xC0)%Z then Some (2, Z.land b 0x1F)
  else if (Z.land b 0xF0 =? 0xE0)%Z then Some (3, Z.land b 0x0F)
  else if (Z.land b 0xF8 =? 0xF0)%Z then Some (4, Z.land b 0x07)
  else None.

(** One turn of the loop of [decode]. *)
Definition decode1 (b : byte) (rest : bytes) : Z * nat :=
  if (b2z b <? 0x80)%Z then (b2z b, 1)
  else match leadAt (b2z b) with
       | None => (0xFFFD%Z, 1)
       | Some (len, cp0) =>
           match Unicode.conts (len - 1) rest cp0 with
           | Some cp => (cp, len)
           | None => (0xFFFD%Z, 1)
           end
       end.

Fixpoint decodeLoop (fuel : nat) (s : bytes) : u32string :=
  match fuel, s with
  | S n, b :: rest => let '(cp, len) := decode1 b rest in cp :: decodeLoop n (drop len s)
  | _, _ => []
  end.

Definition decode (s : bytes) : u32string := decodeLoop (length s) s.

Definition appendUtf8 (out : bytes) (c : Z) : bytes :=
  out ++
  (if (c <? 0x80)%Z then [z2b c]
   else if (c <? 0x800)%Z then [z2b (Z.lor 0xC0 (Z.shiftr c 6)); z2b (Z.lor 0x80 (Z.land c 0x3F))]
   else if (c <? 0x10000)%Z then
     [z2b (Z.lor 0xE0 (Z.shiftr c 12)); z2b (Z.lor 0x80 (Z.land (Z.shiftr c 6) 0x3F)); z2b (Z.lor 0x80 (Z.land c 0x3F))]
   else
     [z2b (Z.lor 0xF0 (Z.shiftr c 18)); z2b (Z.lor 0x80 (Z.land (Z.shiftr c 12) 0x3F));
      z2b (Z.lor 0x80 (Z.land (Z.shiftr c 6) 0x3F)); z2b (Z.lor 0x80 (Z.land c 0x3F))]).

Definition encode (s : u32string) : bytes := foldl appendUtf8 [] s.

Definition encodeRange (s : u32string) (from to : nat) : bytes := foldl appendUtf8 [] (take (to - from) (drop from s)).

Definition utf8Length (c : Z) : nat :=
  if (c <? 0x80)%Z then 1 else if (c <? 0x800)%Z then 2 else if (c <? 0x10000)%Z then 3 else 4.

Definition byteOffset (s : u32string) (index : nat) : nat := foldl (fun bytes c => bytes + utf8Length c) 0 (take index s).

(** ** Kinds of characters *)

Definition between (lo hi c : Z) : bool := ((lo <=? c) && (c <=? hi))%Z.

Definition isSpace (c : Z) : bool :=
  if existsb (Z.eqb c) [0x09; 0x0A; 0x0B; 0x0C; 0x0D; 0x20; 0xA0; 0x1680; 0x2028; 0x2029; 0x202F; 0x205F; 0x3000; 0xFEFF]%Z
  then true else between 0x2000 0x200A c.

Definition isLineTerminator (c : Z) : bool := ((c =? 0x0A) || (c =? 0x0D) || (c =? 0x2028) || (c =? 0x2029))%Z.

Definition hasLineTerminator (s : u32string) (from : nat) : bool := existsb isLineTerminator (drop from s).

Definition isAsciiDigit (c : Z) : bool := between 0x30 0x39 c.

Definition isNumber (c : Z) : bool :=
  if isAsciiDigit c then true
  else if (c =? 0xB2)%Z || (c =? 0xB3)%Z || (c =? 0xB9)%Z || between 0xBC 0xBE c then true
  else if between 0x660 0x669 c || between 0x6F0 0x6F9 c || between 0x966 0x96F c then true
  else if (c =? 0x2070)%Z || between 0x2074 0x2079 c || between 0x2080 0x2089 c then true
  else if between 0x2150 0x2189 c || between 0x2460 0x249B c || between 0x2776 0x2793 c then true
  else if between 0xFF10 0xFF19 c || between 0x3021 0x3029 c then true
  else false.

Definition isLetter (c : Z) : bool :=
  if between 0x61 0x7A c || between 0x41 0x5A c then true
  else if (c <? 0x80)%Z then false
  else if (c =? 0xAA)%Z || (c =? 0xB5)%Z || (c =? 0xBA)%Z then true
  else if between 0xC0 0x24F c then negb (c =? 0xD7)%Z && negb (c =? 0xF7)%Z
  else if between 0x250 0x2C1 c then true
  else if between 0x2C6 0x2D1 c || between 0x2E0 0x2E4 c || (c =? 0x2EC)%Z || (c =? 0x2EE)%Z then true
  else if between 0x370 0x373 c || (c =? 0x376)%Z || (c =? 0x377)%Z || between 0x37B 0x37D c || (c =? 0x37F)%Z then true
  else if (c =? 0x386)%Z || between 0x388 0x3FF c then
    negb (c =? 0x38B)%Z && negb (c =? 0x38D)%Z && negb (c =? 0x3A2)%Z && negb (c =? 0x3F6)%Z
  else if between 0x400 0x481 c || between 0x48A 0x52F c then true
  else if between 0x531 0x556 c || between 0x560 0x588 c then true
  else if between 0x5D0 0x5EA c || between 0x5EF 0x5F2 c then true
  else if between 0x620 0x64A c || between 0x671 0x6D3 c || (c =? 0x6D5)%Z then true
  else if between 0x904 0x939 c || (c =? 0x93D)%Z || (c =? 0x950)%Z || between 0x958 0x961 c then true
  else if between 0xE01 0xE30 c || (c =? 0xE32)%Z || (c =? 0xE33)%Z || between 0xE40 0xE46 c then true
  else if between 0x10A0 0x10FF c then true
  else if between 0x1E00 0x1FFF c then true
  else if (c =? 0x2071)%Z || (c =? 0x207F)%Z || between 0x2090 0x209C c then true
  else if between 0x2C00 0x2CE4 c then true
  else if between 0x3041 0x3096 c || between 0x309D 0x309F c then true
  else if between 0x30A1 0x30FA c || between 0x30FC 0x30FF c then true
  else if between 0x3400 0x4DBF c || between 0x4E00 0x9FFF c then true
  else if between 0xAC00 0xD7A3 c then true
  else if between 0xFF21 0xFF3A c || between 0xFF41 0xFF5A c then true
  else if between 0x20000 0x2FA1F c then true
  else false.

(** ** Lower case *)

Definition evenUp (c : Z) : u32string := [if (c `mod` 2 =? 0)%Z then c + 1 else c]%Z.
Definition oddUp (c : Z) : u32string := [if (c `mod` 2 =? 1)%Z then c + 1 else c]%Z.

Definition lowerFull (c : Z) : u32string :=
  if between 0x41 0x5A c then [c + 32]%Z
  else if (c <? 0x80)%Z then [c]
  else if between 0xC0 0xDE c && negb (c =? 0xD7)%Z then [c + 32]%Z
  else if (c =? 0x130)%Z then [0x69; 0x307]%Z
  else if between 0x100 0x137 c then evenUp c
  else if between 0x139 0x148 c then oddUp c
  else if between 0x14A 0x177 c then evenUp c
  else if (c =? 0x178)%Z then [0xFF]%Z
  else if between 0x179 0x17E c then oddUp c
  else if (c =? 0x386)%Z then [0x3AC]%Z
  else if between 0x388 0x38A c then [c + 37]%Z
  else if (c =? 0x38C)%Z then [0x3CC]%Z
  else if (c =? 0x38E)%Z || (c =? 0x38F)%Z then [c + 63]%Z
  else if between 0x391 0x3AB c && negb (c =? 0x3A2)%Z then [c + 32]%Z
  else if between 0x400 0x40F c then [c + 80]%Z
  else if between 0x410 0x42F c then [c + 32]%Z
  else if between 0x460 0x481 c || between 0x48A 0x4BF c || between 0x4D0 0x52F c then evenUp c
  else if (c =? 0x4C0)%Z then [0x4CF]%Z
  else if between 0x4C1 0x4CE c then oddUp c
  else if between 0x531 0x556 c then [c + 48]%Z
  else if between 0x10A0 0x10C5 c then [c + 7264]%Z
  else if between 0x1E00 0x1E95 c then evenUp c
  else if between 0x1EA0 0x1EFF c then evenUp c
  else if between 0xFF21 0xFF3A c then [c + 32]%Z
  else [c].

Definition toLower32 (s : u32string) : u32string := foldl (fun out c => out ++ lowerFull c) [] s.
Definition toLower (s : bytes) : bytes := encode (toLower32 (decode s)).

(** ** Ends, parts and prefixes *)

Definition trimU (s : u32string) : u32string := Unicode.drop_while_end isSpace (Unicode.drop_while isSpace s).
Definition trimEndU (s : u32string) : u32string := Unicode.drop_while_end isSpace s.
Definition trim (s : bytes) : bytes := encode (trimU (decode s)).
Definition trimEnd (s : bytes) : bytes := encode (trimEndU (decode s)).

Definition startsWith (s prefix : bytes) : bool :=
  (length prefix <=? length s) && bool_decide (take (length prefix) s = prefix).
Definition endsWith (s suffix : bytes) : bool :=
  (length suffix <=? length s) && bool_decide (drop (length s - length suffix) s = suffix).
Definition startsWithU (s : u32string) (at_ : nat) (prefix : u32string) : bool :=
  (at_ <=? length s) && (length prefix <=? length s - at_) && bool_decide (take (length prefix) (drop at_ s) = prefix).

Fixpoint split (s : bytes) (sep : byte) : list bytes :=
  match s with
  | [] => [[]]
  | c :: s' => if bool_decide (c = sep) then [] :: split s' sep
               else match split s' sep with part :: parts => (c :: part) :: parts | [] => [[c]] end
  end.

Definition join (parts : list bytes) (sep : bytes) : bytes :=
  match parts with
  | [] => []
  | p :: ps => foldl (fun out q => out ++ sep ++ q) p ps
  end.

(** ** Literals and numbers *)

Definition hexLower (i : Z) : byte := nth (Z.to_nat i) (#"0123456789abcdef") x00.

Definition quoteByte (b : byte) : bytes :=
  let c := b2z b in
  if (c =? 0x22)%Z then #"\" ++ [x22]
  else if (c =? 0x5C)%Z then #"\\"
  else if (c =? 8)%Z then #"\b"
  else if (c =? 12)%Z then #"\f"
  else if (c =? 10)%Z then #"\n"
  else if (c =? 13)%Z then #"\r"
  else if (c =? 9)%Z then #"\t"
  else if (c <? 0x20)%Z then #"\u00" ++ [hexLower (Z.shiftr c 4); hexLower (Z.land c 0xF)]
  else [b].

Definition jsonQuote (value : bytes) : bytes := foldl (fun out b => out ++ quoteByte b) [x22] value ++ [x22].

Definition digit36 (d : Z) : byte := nth (Z.to_nat d) (#"0123456789abcdefghijklmnopqrstuvwxyz") x00.

Fixpoint base36From (fuel : nat) (value : Z) (out : bytes) : bytes :=
  match fuel with
  | O => out
  | S f => if (0 <? value)%Z then base36From f (value `div` 36) (digit36 (value `mod` 36) :: out) else out
  end.

(** A positive [long long] has at most 63 bits, hence fewer digits. *)
Definition toBase36 (value : Z) : bytes := if (value <=? 0)%Z then #"0" else base36From 64 value [].

(** ** The order of names *)

Record Key := { primary : list (Z * Z); secondary : list Z; tertiary : list Z }.

Definition keyOf1 (c : Z) : (Z * Z) * Z * Z :=
  let lower := lowerFull c in
  let base := match lower with [l] => l | _ => c end in
  let '(base, accent) := if (base =? 0x451)%Z then (0x435, 1)%Z else (base, 0%Z) in
  let group := (if isLetter c then 2 else if isNumber c then 1 else 0)%Z in
  ((group, base), accent, match lower with [l] => if (l =? c)%Z then 0%Z else 1%Z | _ => 0%Z end).

Definition keyOf (s : bytes) : Key :=
  let ks := keyOf1 <$> decode s in
  {| primary := (fun k => k.1.1) <$> ks; secondary := (fun k => k.1.2) <$> ks; tertiary := (fun k => k.2) <$> ks |}.

(** [operator<] of tuples and of vectors. *)
Definition cmpPair (a b : Z * Z) : Z := lex (cmp a.1 b.1) (cmp a.2 b.2).

Definition localeCompare (a b : bytes) : Z :=
  let ka := keyOf a in let kb := keyOf b in
  if negb (bool_decide (primary ka = primary kb)) then
    if (lexList cmpPair (primary ka) (primary kb) <? 0)%Z then -1 else 1
  else if negb (bool_decide (secondary ka = secondary kb)) then
    if (lexList cmp (secondary ka) (secondary kb) <? 0)%Z then -1 else 1
  else if negb (bool_decide (tertiary ka = tertiary kb)) then
    if (lexList cmp (tertiary ka) (tertiary kb) <? 0)%Z then -1 else 1
  else 0.

(** ** Addresses *)

Definition kKeep : bytes := #";,/?:@&=+$-_.!~*'()#".
Definition hexUpper (i : Z) : byte := nth (Z.to_nat i) (#"0123456789ABCDEF") x00.

Definition isAlnum (c : Z) : bool := between 0x61 0x7A c || between 0x41 0x5A c || between 0x30 0x39 c.

Definition keeps (b : byte) : bool := isAlnum (b2z b) || ((b2z b <? 0x80)%Z && bool_decide (b ∈ kKeep)).

Definition uriByte (b : byte) : bytes :=
  if keeps b then [b] else ["%"%byte; hexUpper (Z.shiftr (b2z b) 4); hexUpper (Z.land (b2z b) 0xF)].

Definition encodeUri (value : bytes) : bytes := foldl (fun out b => out ++ uriByte b) [] value.

Definition kReserved : bytes := #";/?:@&=+$,#".

Definition hexOf (b : byte) : Z :=
  let ch := b2z b in
  if between 0x30 0x39 ch then ch - 0x30
  else if between 0x61 0x66 ch then ch - 0x61 + 10
  else if between 0x41 0x46 ch then ch - 0x41 + 10
  else -1.

(** The byte of the group at the front, -1 when there is none. *)
Definition byteAt (s : bytes) : Z :=
  match s with
  | p :: h :: l :: _ =>
      if bool_decide (p = "%"%byte) then
        let hi := hexOf h in let lo := hexOf l in
        if (hi <? 0)%Z || (lo <? 0)%Z then -1 else hi * 16 + lo
      else -1
  | _ => -1
  end.

Fixpoint uriConts (k : nat) (s : bytes) (cp : Z) : option Z :=
  match k with
  | O => Some cp
  | S k' =>
      let next := byteAt s in
      if (next <? 0)%Z || negb (Z.land next 0xC0 =? 0x80)%Z then None
      else uriConts k' (drop 3 s) (Z.lor (Z.shiftl cp 6) (Z.land next 0x3F))
  end.

Definition kMin (len : nat) : Z := nth len [0; 0; 0x80; 0x800; 0x10000]%Z 0%Z.

Fixpoint decodeUriFrom (fuel : nat) (s out : bytes) : option bytes :=
  match s with
  | [] => Some out
  | c :: rest =>
      match fuel with
      | O => None
      | S f =>
          if negb (bool_decide (c = "%"%byte)) then decodeUriFrom f rest (out ++ [c])
          else
            let lead := byteAt s in
            if (lead <? 0)%Z then None
            else if (lead <? 0x80)%Z then
              decodeUriFrom f (drop 3 s) (out ++ if bool_decide (z2b lead ∈ kReserved) then take 3 s else [z2b lead])
            else
              match leadAt lead with
              | None => None
              | Some (len, cp0) =>
                  match uriConts (len - 1) (drop 3 s) cp0 with
                  | None => None
                  | Some cp =>
                      if ((cp <? kMin len) || (0x10FFFF <? cp) || ((0xD800 <=? cp) && (cp <=? 0xDFFF)))%Z then None
                      else decodeUriFrom f (drop (3 * len) s) (appendUtf8 out cp)
                  end
              end
      end
  end.

Definition decodeUri (value : bytes) : option bytes := decodeUriFrom (length value) value [].


(** ** Addresses: what is encoded is decoded *)

Lemma encodeUri_cons (b : byte) (s : bytes) : encodeUri (b :: s) = uriByte b ++ encodeUri s.
Proof.
  assert (G : forall l out, foldl (fun out b => out ++ uriByte b) out l = out ++ foldl (fun out b => out ++ uriByte b) [] l).
  { induction l as [|c l IH]; intros out; cbn [foldl]; [rewrite app_nil_r; reflexivity|].
    rewrite (IH (out ++ _)), (IH ([] ++ _)), <- app_assoc. reflexivity. }
  unfold encodeUri. cbn [foldl]. apply (G s).
Qed.

Lemma hexOf_hexUpper (b : byte) : hexOf (hexUpper (Z.shiftr (b2z b) 4)) = Z.shiftr (b2z b) 4 /\
  hexOf (hexUpper (Z.land (b2z b) 0xF)) = Z.land (b2z b) 0xF /\ (Z.shiftr (b2z b) 4 * 16 + Z.land (b2z b) 0xF = b2z b)%Z /\
  (0 <= Z.shiftr (b2z b) 4)%Z /\ (0 <= Z.land (b2z b) 0xF)%Z.
Proof.
  assert (H : ((hexOf (hexUpper (Z.shiftr (b2z b) 4)) =? Z.shiftr (b2z b) 4) &&
    (hexOf (hexUpper (Z.land (b2z b) 0xF)) =? Z.land (b2z b) 0xF) && (Z.shiftr (b2z b) 4 * 16 + Z.land (b2z b) 0xF =? b2z b) &&
    (0 <=? Z.shiftr (b2z b) 4) && (0 <=? Z.land (b2z b) 0xF) = true)%Z).
  { revert b. apply byte_forallb. vm_compute. reflexivity. }
  rewrite !andb_true_iff in H. lia.
Qed.

(** A kept byte is low and is not the sign of a group. *)
Lemma keeps_low (b : byte) : keeps b = true -> (b2z b < 0x80)%Z /\ b <> "%"%byte.
Proof.
  intros K. assert (H : implb (keeps b) ((b2z b <? 0x80)%Z && negb (bool_decide (b = "%"%byte))) = true).
  { clear - b; revert b. apply byte_forallb. vm_compute. reflexivity. }
  rewrite K in H. cbn [implb] in H. apply andb_true_iff in H as [H1 H2].
  split; [lia|]. intros ->. discriminate.
Qed.

Lemma byteAt_group (b : byte) (r : bytes) : keeps b = false -> byteAt (uriByte b ++ r) = b2z b.
Proof.
  intros K. unfold uriByte. rewrite K. cbn [app byteAt]. rewrite bool_decide_eq_true_2 by reflexivity.
  destruct (hexOf_hexUpper b) as (-> & -> & E & H1 & H2).
  destruct (Z.ltb_spec (Z.shiftr (b2z b) 4) 0); [lia|]. destruct (Z.ltb_spec (Z.land (b2z b) 0xF) 0); [lia|]. exact E.
Qed.

Lemma byteAt_kept (b : byte) (r : bytes) : keeps b = true -> byteAt (uriByte b ++ r) = (-1)%Z.
Proof.
  intros K. pose proof (keeps_low b K) as [_ N]. unfold uriByte. rewrite K. cbn [app byteAt].
  destruct r as [|x [|y r]]; [reflexivity|reflexivity|]. rewrite bool_decide_eq_false_2 by exact N. reflexivity.
Qed.

Lemma drop_group (b : byte) (r : bytes) : keeps b = false -> drop 3 (uriByte b ++ r) = r.
Proof. intros K. unfold uriByte. rewrite K. apply drop_0. Qed.

(** The continuations of the encoded bytes are those of the bytes. *)
Lemma uriConts_conts (k : nat) : forall s cp, uriConts k (encodeUri s) cp = Unicode.conts k s cp /\
  (Unicode.conts k s cp <> None -> drop (3 * k) (encodeUri s) = encodeUri (drop k s)).
Proof.
  induction k as [|k IH]; intros s cp; [split; [reflexivity|intros _; rewrite !drop_0; reflexivity]|].
  destruct s as [|b s]; [split; [reflexivity|intros H; exfalso; apply H; reflexivity]|].
  rewrite encodeUri_cons. cbn [uriConts Unicode.conts]. destruct (keeps b) eqn:K.
  - rewrite byteAt_kept by exact K. pose proof (keeps_low b K) as [L _]. cbn [Z.ltb Z.compare orb].
    assert (N : (Z.land (b2z b) 0xC0 =? 0x80)%Z = false).
    { assert (H : implb (b2z b <? 0x80)%Z (negb (Z.land (b2z b) 0xC0 =? 0x80)%Z) = true).
      { clear - b; revert b. apply byte_forallb. vm_compute. reflexivity. }
      destruct (Z.ltb_spec (b2z b) 0x80); [|lia]. cbn [implb] in H. apply negb_true_iff in H. exact H. }
    rewrite N. split; [reflexivity|intros H; exfalso; apply H; reflexivity].
  - rewrite byteAt_group by exact K. pose proof (b2z_range b) as R. destruct (Z.ltb_spec (b2z b) 0); [lia|]. cbn [orb].
    rewrite drop_group by exact K. destruct (Z.land (b2z b) 0xC0 =? 0x80)%Z; cbn [negb]; [|split; [reflexivity|intros H'; exfalso; apply H'; reflexivity]].
    destruct (IH s (Z.lor (Z.shiftl cp 6) (Z.land (b2z b) 0x3F))) as [H1 H2]. split; [exact H1|]. intros Ne.
    replace (3 * S k) with (3 + 3 * k) by lia. rewrite <- drop_drop, drop_group by exact K. cbn [drop]. apply H2, Ne.
Qed.

(** The checks after the loop let through what the strict lead lets through. *)
Definition rejected (len : nat) (cp : Z) : bool :=
  ((cp <? kMin len) || (0x10FFFF <? cp) || ((0xD800 <=? cp) && (cp <=? 0xDFFF)))%Z.

Lemma leadAt_lead (b : Z) : (0x80 <= b < 256)%Z ->
  match Unicode.lead b with
  | Some (len, cp0, min) => leadAt b = Some (len, cp0) /\ min = kMin len /\ (0 <= min)%Z /\ 2 <= len <= 4
  | None => match leadAt b with
            | None => True
            | Some (len, cp0) => (len = 2 /\ (0 <= cp0 < 2)%Z) \/ (len = 4 /\ (5 <= cp0)%Z)
            end
  end.
Proof.
  intros H.
  assert (G : (implb (0x80 <=? b) (match Unicode.lead b with
    | Some (len, cp0, min) => match leadAt b with Some (l, c) => (l =? len)%nat && (c =? cp0) && (min =? kMin len) && (0 <=? min) && (2 <=? len)%nat && (len <=? 4)%nat | None => false end
    | None => match leadAt b with None => true
       | Some (len, cp0) => ((len =? 2)%nat && (0 <=? cp0) && (cp0 <? 2)) || ((len =? 4)%nat && (5 <=? cp0)) end end) = true)%Z).
  { assert (R : (0 <= b < Z.of_nat 256)%Z) by lia. clear H; revert b R. apply (z_forallb 256). vm_compute. reflexivity. }
  destruct (Z.leb_spec 0x80 b); [|lia]. cbn [implb] in G.
  destruct (Unicode.lead b) as [[[len cp0] min]|], (leadAt b) as [[l c]|]; try discriminate; try exact I.
  - rewrite !andb_true_iff in G. destruct G as [[[[[G1 G2] G3] G4] G5] G6]. apply Nat.eqb_eq in G1. apply Nat.leb_le in G5, G6.
    apply Z.eqb_eq in G2, G3. subst. split; [reflexivity|]. split; [reflexivity|]. split; [lia|lia].
  - rewrite orb_true_iff, !andb_true_iff in G. destruct G as [[[G1 G2] G3]|[G1 G2]]; apply Nat.eqb_eq in G1; [left|right]; lia.
Qed.

Lemma conts_bounds (k : nat) : forall s cp r, (0 <= cp)%Z -> Unicode.conts k s cp = Some r ->
  (cp * 64 ^ Z.of_nat k <= r < (cp + 1) * 64 ^ Z.of_nat k)%Z.
Proof.
  induction k as [|k IH]; intros s cp r H0 H.
  - cbn in H. injection H as <-. change (64 ^ Z.of_nat 0)%Z with 1%Z. lia.
  - apply Unicode.conts_inv in H as (x & s' & Hx & -> & H). apply IH in H; [|lia].
    rewrite Nat2Z.inj_succ, Z.pow_succ_r by lia. nia.
Qed.

Lemma conts_rejected (b : Z) (s : bytes) (len : nat) (cp0 cp : Z) : (0x80 <= b < 256)%Z -> Unicode.lead b = None ->
  leadAt b = Some (len, cp0) -> Unicode.conts (len - 1) s cp0 = Some cp -> rejected len cp = true.
Proof.
  intros Hb E L C. pose proof (leadAt_lead b Hb) as H. rewrite E, L in H. unfold rejected.
  destruct H as [[-> H]|[-> H]]; apply conts_bounds in C; try lia; cbn in C; cbn [kMin nth]; lia.
Qed.

Lemma decodeUriFrom_nil (fuel : nat) (out : bytes) : decodeUriFrom fuel [] out = Some out.
Proof. destruct fuel; reflexivity. Qed.

Lemma decodeUriFrom_kept (b : byte) (r out : bytes) (n : nat) : keeps b = true ->
  decodeUriFrom (S n) (uriByte b ++ r) out = decodeUriFrom n r (out ++ [b]).
Proof.
  intros K. pose proof (keeps_low b K) as [_ N]. unfold uriByte. rewrite K. cbn [app decodeUriFrom].
  rewrite bool_decide_eq_false_2 by exact N. reflexivity.
Qed.

Lemma decodeUriFrom_low (b : byte) (r out : bytes) (n : nat) : keeps b = false -> (b2z b < 0x80)%Z ->
  decodeUriFrom (S n) (uriByte b ++ r) out = decodeUriFrom n r (out ++ [b]).
Proof.
  intros K L. pose proof (byteAt_group b r K) as B. pose proof (drop_group b r K) as D. unfold uriByte in *. rewrite K in *. cbn [app] in *.
  cbn [decodeUriFrom]. rewrite bool_decide_eq_true_2 by reflexivity. cbn [negb].
  rewrite B, D. pose proof (b2z_range b). destruct (Z.ltb_spec (b2z b) 0); [lia|].
  destruct (Z.ltb_spec (b2z b) 0x80); [|lia]. rewrite z2b_b2z. rewrite bool_decide_eq_false_2; [reflexivity|].
  assert (G : implb (negb (keeps b)) (negb (bool_decide (b ∈ kReserved))) = true).
  { clear - b; revert b. apply byte_forallb. vm_compute. reflexivity. }
  rewrite K in G. cbn [negb implb] in G. apply negb_true_iff, bool_decide_eq_false in G. exact G.
Qed.

Lemma keeps_high (b : byte) : (0x80 <= b2z b)%Z -> keeps b = false.
Proof. intros H. destruct (keeps b) eqn:K; [|reflexivity]. apply keeps_low in K. lia. Qed.

Lemma decodeUriFrom_high (b : byte) (s out : bytes) (n : nat) : (0x80 <= b2z b)%Z ->
  decodeUriFrom (S n) (uriByte b ++ encodeUri s) out =
  match Unicode.lead (b2z b) with
  | None => None
  | Some (len, cp0, min) =>
      match Unicode.conts (len - 1) s cp0 with
      | None => None
      | Some cp => if Unicode.outside cp min then None else decodeUriFrom n (encodeUri (drop (len - 1) s)) (appendUtf8 out cp)
      end
  end.
Proof.
  intros H. pose proof (b2z_range b) as R. pose proof (keeps_high b H) as K.
  pose proof (byteAt_group b (encodeUri s) K) as B.
  assert (D : forall m, drop (3 * S m) (uriByte b ++ encodeUri s) = drop (3 * m) (encodeUri s)).
  { intros m. replace (3 * S m) with (3 + 3 * m) by lia. rewrite <- drop_drop, drop_group by exact K. reflexivity. }
  pose proof (drop_group b (encodeUri s) K) as D1.
  unfold uriByte in *. rewrite K in *. cbn [app] in *. cbn [decodeUriFrom]. rewrite bool_decide_eq_true_2 by reflexivity. cbn [negb].
  rewrite B, D1. destruct (Z.ltb_spec (b2z b) 0); [lia|]. destruct (Z.ltb_spec (b2z b) 0x80); [lia|].
  pose proof (leadAt_lead (b2z b) ltac:(lia)) as L. destruct (Unicode.lead (b2z b)) as [[[len cp0] min]|] eqn:E.
  - destruct L as (-> & -> & Hm & Hl). rewrite (proj1 (uriConts_conts _ _ _)).
    destruct (Unicode.conts (len - 1) s cp0) as [cp|] eqn:C; [|reflexivity].
    unfold Unicode.outside. destruct (((cp <? kMin len) || (0x10FFFF <? cp) || ((0xD800 <=? cp) && (cp <=? 0xDFFF)))%Z); [reflexivity|].
    f_equal. destruct len as [|len]; [lia|]. rewrite D. cbn [Nat.sub] in *. rewrite Nat.sub_0_r in *.
    apply (proj2 (uriConts_conts len s cp0)). congruence.
  - destruct (leadAt (b2z b)) as [[len cp0]|] eqn:L2; [|reflexivity]. rewrite (proj1 (uriConts_conts _ _ _)).
    destruct (Unicode.conts (len - 1) s cp0) as [cp|] eqn:C; [|reflexivity].
    pose proof (conts_rejected (b2z b) s len cp0 cp ltac:(lia) E L2 C) as Rj. unfold rejected in Rj. rewrite Rj. reflexivity.
Qed.

Lemma decodeUriFrom_strict (n : nat) : forall s out m, length s <= n -> n <= m ->
  decodeUriFrom m (encodeUri s) out = (fun t => out ++ Unicode.encode t) <$> Unicode.strict_loop n s.
Proof.
  induction n as [|n IH]; intros [|b s] out m Ls Lm; try (cbn in Ls; lia);
    try (rewrite decodeUriFrom_nil; cbn; rewrite app_nil_r; reflexivity).
  cbn [length] in Ls. destruct m as [|m]; [lia|]. rewrite encodeUri_cons. cbn [Unicode.strict_loop]. pose proof (b2z_range b) as R.
  destruct (Z.ltb_spec (b2z b) 0x80) as [L|L].
  - assert (E : decodeUriFrom (S m) (uriByte b ++ encodeUri s) out = decodeUriFrom m (encodeUri s) (out ++ [b])).
    { destruct (keeps b) eqn:K; [apply decodeUriFrom_kept; exact K|apply decodeUriFrom_low; [exact K|exact L]]. }
    rewrite E, (IH s) by lia. destruct (Unicode.strict_loop n s) as [t|]; [|reflexivity]. cbn [fmap option_fmap option_map].
    rewrite Unicode.encode_cons, app_assoc. f_equal. f_equal. f_equal. unfold Unicode.enc1.
    destruct (Z.ltb_spec (b2z b) 0x80); [|lia]. rewrite z2b_b2z. reflexivity.
  - rewrite decodeUriFrom_high by exact L. destruct (Unicode.lead (b2z b)) as [[[len cp0] min]|]; [|reflexivity].
    destruct (Unicode.conts (len - 1) s cp0) as [cp|]; [|reflexivity]. destruct (Unicode.outside cp min); [reflexivity|].
    rewrite (IH (drop (len - 1) s)) by (rewrite ?length_drop; lia).
    destruct (Unicode.strict_loop n (drop (len - 1) s)) as [t|]; [|reflexivity]. cbn [fmap option_fmap option_map].
    rewrite Unicode.encode_cons, app_assoc. reflexivity.
Qed.

Lemma encodeUri_length (s : bytes) : length s <= length (encodeUri s).
Proof.
  induction s as [|b s IH]; [cbn; lia|]. rewrite encodeUri_cons, length_app. cbn [length].
  assert (1 <= length (uriByte b)) by (unfold uriByte; destruct (keeps b); cbn; lia). lia.
Qed.

(** Property (roundtrip): decoding the encoded form of any byte string gives it
    back when it is valid UTF-8 and fails otherwise; what is encoded is ASCII. *)
Theorem decodeUri_encodeUri (s : bytes) :
  decodeUri (encodeUri s) = (if Unicode.strictUtf8 s then Some s else None) /\
  Forall (fun b => (b2z b < 0x80)%Z) (encodeUri s).
Proof.
  split.
  - unfold decodeUri. rewrite (decodeUriFrom_strict (length s)) by (try apply encodeUri_length; lia).
    change (Unicode.strict_loop (length s) s) with (Unicode.strictUtf8 s).
    destruct (Unicode.strictUtf8 s) as [t|] eqn:E; [|reflexivity]. apply Unicode.strict_loop_sound in E as [<- _]; [reflexivity|lia].
  - induction s as [|b s IH]; [constructor|]. rewrite encodeUri_cons. apply Forall_app. split; [|exact IH].
    unfold uriByte. destruct (keeps b) eqn:K; [repeat constructor; apply keeps_low; exact K|].
    assert (G : forallb (fun b => b2z b <? 0x80)%Z ["%"%byte; hexUpper (Z.shiftr (b2z b) 4); hexUpper (Z.land (b2z b) 0xF)] = true).
    { clear - b; revert b. apply byte_forallb. vm_compute. reflexivity. }
    rewrite forallb_forall in G. apply List.Forall_forall. intros x Hx. specialize (G x Hx). lia.
Qed.


(** ** The order of names is a total order of texts *)

(** The upper case letter of a lower one, and the character of a key. *)
Definition raise (l : Z) : Z :=
  if between 0x61 0x7A l || between 0xE0 0xFE l then l - 32
  else if (l =? 0xFF)%Z then 0x178
  else if between 0x100 0x17F l then l - 1
  else if (l =? 0x3AC)%Z then 0x386
  else if between 0x3AD 0x3AF l then l - 37
  else if (l =? 0x3CC)%Z then 0x38C
  else if between 0x3CD 0x3CE l then l - 63
  else if between 0x3B1 0x3CB l || between 0x430 0x44F l then l - 32
  else if between 0x450 0x45F l then l - 80
  else if (l =? 0x4CF)%Z then 0x4C0
  else if between 0x461 0x52F l then l - 1
  else if between 0x561 0x586 l then l - 48
  else if between 0x2D00 0x2D25 l then l - 7264
  else if between 0x1E00 0x1EFF l then l - 1
  else l - 32.

Definition recover (k : (Z * Z) * Z * Z) : Z :=
  let '((_, base), accent, third) := k in
  let l := if (accent =? 1)%Z then 0x451%Z else base in
  if (third =? 1)%Z then raise l else l.

Lemma recover_low (c : Z) : (0 <= c < 0x10000)%Z -> recover (keyOf1 c) = c.
Proof.
  intros H. apply Z.eqb_eq. revert c H. apply (z_forallb2 256 256 (fun c => recover (keyOf1 c) =? c)%Z); [lia|].
  vm_compute. reflexivity.
Qed.

Lemma recover_keyOf1 (c : Z) : (0 <= c)%Z -> recover (keyOf1 c) = c.
Proof.
  intros H. destruct (Z.lt_ge_cases c 0x10000) as [L|L]; [apply recover_low; lia|].
  assert (E : lowerFull c = [c]).
  { unfold lowerFull, between. repeat match goal with |- context [(?a <=? c)%Z && (c <=? ?b)%Z] =>
      replace ((a <=? c)%Z && (c <=? b)%Z) with false by lia end.
    repeat match goal with |- context [(c =? ?b)%Z] => replace (c =? b)%Z with false by lia end.
    replace (c <? 0x80)%Z with false by lia. reflexivity. }
  unfold keyOf1. rewrite E, Z.eqb_refl. destruct (Z.eqb_spec c 0x451) as [->|_]; [lia|]. reflexivity.
Qed.

Lemma decode_nonneg (s : bytes) : Forall (fun c => (0 <= c)%Z) (decode s).
Proof.
  assert (G : forall n s, Forall (fun c => (0 <= c)%Z) (decodeLoop n s)); [|apply G].
  induction n as [|n IH]; intros [|b r]; cbn [decodeLoop]; try constructor. unfold decode1. pose proof (b2z_range b).
  destruct (Z.ltb_spec (b2z b) 0x80); [constructor; [lia|apply IH]|].
  destruct (leadAt (b2z b)) as [[len cp0]|] eqn:L; [|constructor; [lia|apply IH]].
  destruct (Unicode.conts (len - 1) r cp0) as [cp|] eqn:C; [|constructor; [lia|apply IH]].
  constructor; [|apply IH].
  assert (0 <= cp0)%Z by (unfold leadAt in L; repeat case_match; simplify_eq; apply Z.land_nonneg; left; lia).
  apply conts_bounds in C; [|assumption]. pose proof (Z.pow_nonneg 64 (Z.of_nat (len - 1)) ltac:(lia)). nia.
Qed.

Lemma keys_decode (a b : bytes) : keyOf a = keyOf b <-> decode a = decode b.
Proof.
  split; [|unfold keyOf; intros ->; reflexivity]. unfold keyOf. intros [= E1 E2 E3].
  assert (E : keyOf1 <$> decode a = keyOf1 <$> decode b).
  { revert E1 E2 E3. generalize (keyOf1 <$> decode a) as s, (keyOf1 <$> decode b) as t. clear.
    induction s as [|[[p q] r] s IH]; intros [|[[p' q'] r'] t]; cbn; try discriminate; [reflexivity|].
    intros [= -> H1] [= -> H2] [= -> H3]. f_equal. apply IH; assumption. }
  pose proof (decode_nonneg a) as Na. pose proof (decode_nonneg b) as Nb. revert E Na Nb.
  generalize (decode a) as s, (decode b) as t. clear.
  induction s as [|c s IH]; intros [|d t]; cbn; try discriminate; [reflexivity|]. intros [= E1 E2] Ns Nt.
  inversion_clear Ns as [|? ? Hc Ns']. inversion_clear Nt as [|? ? Hd Nt'].
  apply (f_equal recover) in E1. rewrite !recover_keyOf1 in E1 by assumption. f_equal; [exact E1|apply IH; assumption].
Qed.

(** The three levels of [localeCompare]. *)
Definition levels (a b : Key) : Z :=
  lex (lexList cmpPair (primary a) (primary b))
    (lex (lexList cmp (secondary a) (secondary b)) (lexList cmp (tertiary a) (tertiary b))).

Lemma cmpPair_zero (a b : Z * Z) : cmpPair a b = 0%Z <-> a = b.
Proof.
  destruct a as [a1 a2], b as [b1 b2]. unfold cmpPair. rewrite lex_zero, !cmp_zero. cbn.
  split; [intros [-> ->]; reflexivity|intros [= -> ->]; auto].
Qed.

Lemma levels_zero (a b : Key) : levels a b = 0%Z <-> a = b.
Proof.
  unfold levels. rewrite !lex_zero, (lexList_zero _ cmpPair_zero), !(lexList_zero _ cmp_zero).
  destruct a, b. cbn. split; [intros (-> & -> & ->); reflexivity|intros [= -> -> ->]; auto].
Qed.

Lemma ordering_levels : ordering (fun _ => True) levels.
Proof.
  assert (T : forall A (l : list A), Forall (fun _ => True) l) by (intros A l; apply List.Forall_forall; auto).
  assert (Op : ordering (fun _ => True) cmpPair).
  { apply ordering_lex; eapply (ordering_map _ _ (fun _ => True)); auto using ordering_cmp. }
  repeat apply ordering_lex; (eapply (ordering_map _ _ (Forall (fun _ => True))); [intros; apply T|]); apply ordering_list;
    auto using ordering_cmp.
Qed.

Lemma localeCompare_levels (a b : bytes) : localeCompare a b = Z.sgn (levels (keyOf a) (keyOf b)).
Proof.
  unfold localeCompare, levels, lex. generalize (keyOf a) as k, (keyOf b) as m. intros k m.
  pose proof (lexList_zero _ cmpPair_zero (primary k) (primary m)) as H1.
  pose proof (lexList_zero _ cmp_zero (secondary k) (secondary m)) as H2.
  pose proof (lexList_zero _ cmp_zero (tertiary k) (tertiary m)) as H3.
  destruct (Z.eqb_spec (lexList cmpPair (primary k) (primary m)) 0) as [E1|E1].
  - rewrite bool_decide_eq_true_2 by tauto. cbn [negb].
    destruct (Z.eqb_spec (lexList cmp (secondary k) (secondary m)) 0) as [E2|E2].
    + rewrite bool_decide_eq_true_2 by tauto. cbn [negb]. case_bool_decide as E3; cbn [negb].
      * apply H3 in E3. lia.
      * assert (lexList cmp (tertiary k) (tertiary m) <> 0%Z) by tauto. case_match; lia.
    + rewrite bool_decide_eq_false_2 by tauto. cbn [negb]. case_match; lia.
  - rewrite bool_decide_eq_false_2 by tauto. cbn [negb]. case_match; lia.
Qed.

(** Property (functional): the order of names is a total order of texts: it is
    antisymmetric and transitive, and only texts with the same characters are
    equal in it. *)
Theorem localeCompare_order (a b d : bytes) :
  localeCompare b a = (- localeCompare a b)%Z /\
  (localeCompare a b = 0%Z <-> decode a = decode b) /\
  ((localeCompare a b <= 0)%Z -> (localeCompare b d <= 0)%Z -> (localeCompare a d <= 0)%Z).
Proof.
  rewrite !localeCompare_levels. split; [|split].
  - rewrite (ord_anti ordering_levels (keyOf a) (keyOf b) I I). lia.
  - rewrite <- keys_decode, <- levels_zero. lia.
  - pose proof (ord_trans ordering_levels (keyOf a) (keyOf b) (keyOf d) I I I). lia.
Qed.

(** The third part has hypotheses: upper case after lower, digits before both. *)
Lemma localeCompare_order_witness :
  localeCompare (#"7") (#"a") = (-1)%Z /\ localeCompare (#"a") (#"A") = (-1)%Z /\ (localeCompare (#"7") (#"A") <= 0)%Z.
Proof.
  split; [vm_compute; reflexivity|split; [vm_compute; reflexivity|]].
  apply (proj2 (proj2 (localeCompare_order (#"7") (#"a") (#"A")))); vm_compute; discriminate.
Defined.

(** ** Base 36 and literals *)

Definition value36 (s : bytes) : Z :=
  foldl (fun v b => v * 36 + if (b2z b <? 0x40)%Z then b2z b - 0x30 else b2z b - 0x57)%Z 0%Z s.

Lemma digit36_value (d : Z) : (0 <= d < 36)%Z ->
  (if (b2z (digit36 d) <? 0x40)%Z then b2z (digit36 d) - 0x30 else b2z (digit36 d) - 0x57)%Z = d.
Proof.
  intros H. apply Z.eqb_eq. revert d H. apply (z_forallb 36 (fun d =>
    (if (b2z (digit36 d) <? 0x40) then b2z (digit36 d) - 0x30 else b2z (digit36 d) - 0x57) =? d)%Z). vm_compute. reflexivity.
Qed.

Lemma value36_app (s t : bytes) : value36 (s ++ t) = (value36 s * 36 ^ Z.of_nat (length t) + value36 t)%Z.
Proof.
  unfold value36. rewrite foldl_app. generalize (foldl (fun v b => v * 36 + if (b2z b <? 0x40)%Z then b2z b - 0x30 else b2z b - 0x57)%Z 0%Z s) as v.
  induction t as [|b t IH] using rev_ind; intros v; [cbn; lia|]. rewrite !foldl_app. cbn [foldl].
  rewrite IH, length_app, Nat2Z.inj_add. cbn [length]. rewrite Z.pow_add_r by lia. change (36 ^ Z.of_nat 1)%Z with 36%Z. nia.
Qed.

Lemma base36_spec (fuel : nat) : forall v out, (0 <= v < 36 ^ Z.of_nat fuel)%Z ->
  value36 (base36From fuel v out) = (v * 36 ^ Z.of_nat (length out) + value36 out)%Z.
Proof.
  induction fuel as [|n IH]; intros v out H; cbn [base36From].
  - change (36 ^ Z.of_nat 0)%Z with 1%Z in H. replace v with 0%Z by lia. lia.
  - destruct (Z.ltb_spec 0 v); [|replace v with 0%Z by lia; lia].
    rewrite Nat2Z.inj_succ, Z.pow_succ_r in H by lia.
    rewrite IH by (split; [apply Z.div_pos; lia|apply Z.div_lt_upper_bound; lia]).
    change (digit36 (v `mod` 36) :: out) with ([digit36 (v `mod` 36)] ++ out). rewrite value36_app, length_app.
    unfold value36 at 1. cbn [foldl length]. rewrite digit36_value by (apply Z.mod_pos_bound; lia).
    rewrite Nat2Z.inj_add, Z.pow_add_r by lia. change (36 ^ Z.of_nat 1)%Z with 36%Z.
    pose proof (Z.div_mod v 36 ltac:(lia)). nia.
Qed.

(** The reader of a JSON string, for the escapes the writer uses. *)
Definition hexPair (h l : byte) : byte := z2b (hexOf h * 16 + hexOf l).
Fixpoint unquoteFrom (fuel : nat) (s : bytes) : option (bytes * bytes) :=
  match fuel, s with
  | S f, c :: rest =>
      if bool_decide (c = x22) then Some ([], rest)
      else if bool_decide (c = x5c) then
        match rest with
        | e :: rest =>
            let one (b : byte) (r : bytes) := (fun p => (b :: p.1, p.2)) <$> unquoteFrom f r in
            if bool_decide (e = "b"%byte) then one x08 rest
            else if bool_decide (e = "f"%byte) then one x0c rest
            else if bool_decide (e = "n"%byte) then one x0a rest
            else if bool_decide (e = "r"%byte) then one x0d rest
            else if bool_decide (e = "t"%byte) then one x09 rest
            else if bool_decide (e = "u"%byte) then
              match rest with
              | _ :: _ :: h :: l :: rest => one (hexPair h l) rest
              | _ => None
              end
            else one e rest
        | [] => None
        end
      else (fun p => (c :: p.1, p.2)) <$> unquoteFrom f rest
  | _, _ => None
  end.

Lemma unquote_byte (b : byte) (n : nat) (r : bytes) :
  unquoteFrom (S n) (quoteByte b ++ r) = (fun p => (b :: p.1, p.2)) <$> unquoteFrom n r.
Proof. destruct b; reflexivity. Qed.

Lemma jsonQuote_cons (value : bytes) : jsonQuote value = x22 :: (value ≫= quoteByte) ++ [x22].
Proof.
  unfold jsonQuote. change (x22 :: (value ≫= quoteByte) ++ [x22]) with ([x22] ++ (value ≫= quoteByte) ++ [x22]).
  generalize [x22] at 1 3 as out. induction value as [|b v IH]; intros out; [reflexivity|]. cbn [foldl]. rewrite IH.
  cbn [mbind list_bind]. rewrite <- !app_assoc. reflexivity.
Qed.

(** Property (roundtrip): a string literal is read back as the string by a
    reader of JSON, which stops at its end, and holds no control character; a
    number in base 36 has the value of the number. *)
Theorem literals_roundtrip (value rest : bytes) (n : Z) (Hn : (0 <= n < 2 ^ 63)%Z) :
  (exists s, jsonQuote value = x22 :: s /\ unquoteFrom (S (length value)) (s ++ rest) = Some (value, rest)) /\
  Forall (fun b => (0x20 <= b2z b)%Z) (jsonQuote value) /\
  value36 (toBase36 n) = n.
Proof.
  rewrite jsonQuote_cons. split; [|split].
  - eexists. split; [reflexivity|]. induction value as [|b v IH]; [reflexivity|].
    cbn [mbind list_bind length]. rewrite <- !app_assoc, unquote_byte. rewrite <- !app_assoc in IH.
    change (list_bind _ _ quoteByte v) with (v ≫= quoteByte). rewrite IH. reflexivity.
  - constructor; [vm_compute; discriminate|]. apply Forall_app. split; [|repeat constructor; vm_compute; discriminate].
    induction value as [|b v IH]; [constructor|]. cbn [mbind list_bind]. apply Forall_app. split; [|exact IH]. clear.
    assert (G : forallb (fun c => 0x20 <=? b2z c)%Z (quoteByte b) = true).
    { revert b. apply byte_forallb. vm_compute. reflexivity. }
    rewrite forallb_forall in G. apply List.Forall_forall. intros c Hc. specialize (G c Hc). lia.
  - unfold toBase36. destruct (Z.leb_spec n 0); [replace n with 0%Z by lia; reflexivity|].
    rewrite base36_spec; [cbn; lia|]. split; [lia|]. eapply Z.lt_le_trans; [apply Hn|]. vm_compute. discriminate.
Qed.

Lemma literals_roundtrip_witness : value36 (toBase36 123456789) = 123456789%Z /\ toBase36 123456789 = #"21i3v9".
Proof. split; [|vm_compute; reflexivity]. apply (literals_roundtrip [] [] 123456789). split; [lia|vm_compute; reflexivity]. Defined.

End Text.
