(* ===== verification/CloudModel.v ===== *)
(** * CloudModel: the tree of the cloud section

    Module [Cloud] models the tree part of [src/sections/cloud_model.cpp]: the
    nodes of a container, their names, the content of folders, paths, subtrees
    and moves, the trash and sizes. *)

From S2P Require Import Prelude Json Utf8 PlannerUtil.
Import Unicode Decimal.

Module Cloud.

(** ** Nodes *)

Record CloudNode := {
  id : bytes;
  kind : bytes;
  parent : option bytes;
  name : bytes;
  size : Z;
  mime : bytes;
  mtime : Z;
  trashed : bool;
  trashTop : bool;
  trashedAt : Z;
  blob : option json;
  thumb : option json
}.

Inductive NameError := Empty | TooLong | BadChars | Reserved.
Inductive FileKind := Photo | Video | Audio | Pdf | Text | Other.
Inductive SortKey := ByName | ByDate | BySize.

#[export] Instance NameError_eq_dec : EqDecision NameError.
Proof. solve_decision. Defined.
#[export] Instance FileKind_eq_dec : EqDecision FileKind.
Proof. solve_decision. Defined.
#[export] Instance SortKey_eq_dec : EqDecision SortKey.
Proof. solve_decision. Defined.

Record Sort := { key : SortKey; isDescending : bool }.

Definition kNameMaxBytes : Z := 255.
Definition kDayMs : Z := 24 * 60 * 60 * 1000.
Definition kTrashLifetimeMs : Z := 30 * kDayMs.
Definition kServicePrefix : bytes := #".parvane-".

(** The code only asks whether a string is in a set. *)
Definition isIn (s : bytes) (set : list bytes) : bool := bool_decide (s ∈ set).

Definition startsWith (s prefix : bytes) : bool := bool_decide (take (length prefix) s = prefix).

Definition nonEmpty (v : option bytes) : option bytes :=
  match v with Some (c :: s) => Some (c :: s) | _ => None end.

(** An empty [parent] is the root. *)
Definition parentOf (n : CloudNode) : option bytes := nonEmpty (parent n).

(** [rfind]: the last place of a byte. *)
Fixpoint rfind (c : byte) (s : bytes) : option nat :=
  match s with
  | [] => None
  | d :: s' => match rfind c s' with
               | Some i => Some (S i)
               | None => if bool_decide (d = c) then Some 0 else None
               end
  end.

(** ** Names *)

Definition getExtension (name : bytes) : bytes :=
  match rfind "." name with
  | None => []
  | Some dot => if (dot =? 0) || (length name <=? dot + 1) then [] else toLower (drop (dot + 1) name)
  end.

Definition badChar (c : Z) : bool :=
  ((c =? 0x2F) || (c =? 0x5C) || (c <? 0x20) || ((0x7F <=? c) && (c <=? 0x9F)))%Z.

Definition validateName (name : bytes) : option NameError :=
  let cps := decode name in
  if bool_decide (trim32 cps = []) then Some Empty
  else if negb (bool_decide (trim32 cps = cps)) then Some BadChars
  else if (kNameMaxBytes <? Z.of_nat (length name))%Z then Some TooLong
  else if existsb badChar cps then Some BadChars
  else if bool_decide (name = #".") || bool_decide (name = #"..") then Some Reserved
  else None.

Definition candidate (base extension : bytes) (n : Z) : bytes :=
  base ++ #" (" ++ to_string n ++ #")" ++ extension.

(** The base of a name, and its extension with the dot. *)
Definition nameParts (name : bytes) : bytes * bytes :=
  match rfind "." name with
  | Some dot => if (0 <? dot) && (dot + 1 <? length name) then (take dot name, drop dot name) else (name, [])
  | None => (name, [])
  end.

(** The loop over [n] takes fuel; see [freeName_free]. *)
Fixpoint freeFrom (fuel : nat) (taken : list bytes) (base extension : bytes) (n : Z) : option bytes :=
  match fuel with
  | O => None
  | S f => let c := candidate base extension n in
           if isIn c taken then freeFrom f taken base extension (n + 1) else Some c
  end.

Definition freeName (taken : list bytes) (name : bytes) : option bytes :=
  if negb (isIn name taken) then Some name
  else
    let '(base, extension) := nameParts name in
    freeFrom (S (length taken)) taken base extension 2.

(** ** Folders *)

Definition childrenOf (nodes : list CloudNode) (parent : option bytes) : list CloudNode :=
  List.filter (fun n => negb (trashed n) && bool_decide (parentOf n = nonEmpty parent)) nodes.

Definition isServiceNode (n : CloudNode) : bool :=
  bool_decide (kind n = #"file") && startsWith (toLower (name n)) kServicePrefix.

Definition listedNodes (nodes : list CloudNode) : list CloudNode :=
  List.filter (fun n => negb (isServiceNode n)) nodes.

Definition namesIn (nodes : list CloudNode) (parent exceptId : option bytes) : list bytes :=
  name <$> List.filter (fun n => match exceptId with Some e => negb (bool_decide (id n = e)) | None => true end)
             (childrenOf nodes parent).

(** A pointer to a node is its place in the vector. [byId] keeps the last node
    with an id. *)
Fixpoint byIdFrom (i : nat) (nodes : list CloudNode) (want : bytes) : option (nat * CloudNode) :=
  match nodes with
  | [] => None
  | n :: ns => match byIdFrom (S i) ns want with
               | Some r => Some r
               | None => if bool_decide (id n = want) then Some (i, n) else None
               end
  end.
Definition byId (nodes : list CloudNode) (want : bytes) : option (nat * CloudNode) := byIdFrom 0 nodes want.

Fixpoint climb (fuel : nat) (nodes : list CloudNode) (current : option (nat * CloudNode)) (seen : list nat)
  (path : list CloudNode) : list CloudNode :=
  match fuel with
  | O => path
  | S f =>
      match current with
      | None => path
      | Some (i, n) =>
          if bool_decide (i ∈ seen) then path
          else
            match parentOf n with
            | None => path ++ [n]
            | Some p => climb f nodes (byId nodes p) (i :: seen) (path ++ [n])
            end
      end
  end.

Definition pathOf (nodes : list CloudNode) (want : option bytes) : list CloudNode :=
  let current := match nonEmpty want with Some w => byId nodes w | None => None end in
  rev (climb (S (length nodes)) nodes current [] []).

(** [byParent[id]]: the nodes whose parent this is, in order. *)
Definition childNodes (nodes : list CloudNode) (p : bytes) : list CloudNode :=
  List.filter (fun n => bool_decide (parentOf n = Some p)) nodes.

Fixpoint breadth (fuel : nat) (nodes : list CloudNode) (i : nat) (out : list CloudNode) : list CloudNode :=
  match fuel with
  | O => out
  | S f =>
      match out !! i with
      | None => out
      | Some n =>
          if length out <=? length nodes * 2 + 1 then breadth f nodes (S i) (out ++ childNodes nodes (id n)) else out
      end
  end.

Definition subtreeOf (nodes : list CloudNode) (want : bytes) : list CloudNode :=
  match list_find (fun n => id n = want) nodes with
  | Some (_, n) => breadth (length nodes * 2 + 2) nodes 0 [n]
  | None => []
  end.

Definition canMoveInto (nodes : list CloudNode) (movedIds : list bytes) (target : option bytes) : bool :=
  match nonEmpty target with
  | None => true
  | Some want =>
      match list_find (fun n => id n = want) nodes with
      | None => false
      | Some (_, t) =>
          if negb (bool_decide (kind t = #"folder")) || trashed t then false
          else
            let targetPath := id <$> pathOf nodes (Some want) in
            forallb (fun m => negb (isIn m targetPath)) movedIds
      end
  end.

(** ** Trash and sizes *)

Definition expiredTrashOf (nodes : list CloudNode) (nowMs lifetimeMs : Z) : list CloudNode :=
  List.filter (fun n => trashTop n && (0 <? trashedAt n)%Z && (lifetimeMs <=? i64 (nowMs - trashedAt n))%Z) nodes.

(** [std::ceil] of a quotient of doubles. Below 2^53 milliseconds the operands
    are exact, and the rounding of the quotient (at most 2^-27) stays below its
    distance to an integer (at least 1 / kDayMs), so the ceiling is exact. *)
Definition ceilDays (ms : Z) : Z := - ((- ms) `div` kDayMs).

Definition trashDaysLeft (node : CloudNode) (nowMs lifetimeMs : Z) : Z :=
  let whole := ceilDays lifetimeMs in
  if (trashedAt node =? 0)%Z then whole
  else Z.min whole (Z.max 0 (ceilDays (i64 (i64 (trashedAt node + lifetimeMs) - nowMs)))).

Record Usage := { total : Z; trash : Z }.

Definition usageOf (nodes : list CloudNode) : Usage :=
  foldl (fun u n => {| total := i64 (total u + size n);
                       trash := if trashed n then i64 (trash u + size n) else trash u |})
    {| total := 0; trash := 0 |} nodes.

Definition sizeOf (nodes : list CloudNode) (want : bytes) : Z :=
  foldl (fun sum n => i64 (sum + size n)) 0%Z (subtreeOf nodes want).

(** ** Paths and moves *)

(** [up nodes a b]: [b] is the folder that holds [a]. *)
Definition up (nodes : list CloudNode) (a b : CloudNode) : Prop :=
  exists p i, parentOf a = Some p /\ byId nodes p = Some (i, b).

(** No chain of folders goes on for ever. *)
Definition forest (nodes : list CloudNode) : Prop :=
  forall n, n ∈ nodes -> Acc (fun b a => up nodes a b) n.

(** What moving does: the moved nodes get a new parent. *)
Definition moved (ids : list bytes) (target : option bytes) (n : CloudNode) : CloudNode :=
  if isIn (id n) ids
  then {| id := id n; kind := kind n; parent := target; name := name n; size := size n; mime := mime n;
          mtime := mtime n; trashed := trashed n; trashTop := trashTop n; trashedAt := trashedAt n;
          blob := blob n; thumb := thumb n |}
  else n.

Lemma byIdFrom_inv (nodes : list CloudNode) (w : bytes) : forall i j n,
  byIdFrom i nodes w = Some (j, n) -> i <= j /\ nodes !! (j - i) = Some n /\ id n = w.
Proof.
  induction nodes as [|m nodes IH]; intros i j n E; cbn [byIdFrom] in E; [discriminate|].
  destruct (byIdFrom (S i) nodes w) as [[j' n']|] eqn:F.
  - injection E as -> ->. destruct (IH _ _ _ F) as (L & K & ->).
    split; [lia|]. split; [|reflexivity]. replace (j - i) with (S (j - S i)) by lia. exact K.
  - case_bool_decide as D; [|discriminate]. injection E as -> ->. rewrite Nat.sub_diag. split; [lia|]. split; [reflexivity|exact D].
Qed.

Lemma byId_inv (nodes : list CloudNode) (w : bytes) (i : nat) (n : CloudNode) :
  byId nodes w = Some (i, n) -> nodes !! i = Some n /\ id n = w.
Proof. intros E. destruct (byIdFrom_inv _ _ _ _ _ E) as (_ & L & I). rewrite Nat.sub_0_r in L. split; assumption. Qed.

Lemma byId_elem (nodes : list CloudNode) (w : bytes) (i : nat) (n : CloudNode) :
  byId nodes w = Some (i, n) -> n ∈ nodes /\ id n = w.
Proof. intros E. apply byId_inv in E as [L I]. split; [eapply list_elem_of_lookup_2; exact L|exact I]. Qed.

Lemma byIdFrom_None (nodes : list CloudNode) (w : bytes) : forall i,
  byIdFrom i nodes w = None -> forall n, n ∈ nodes -> id n <> w.
Proof.
  induction nodes as [|m nodes IH]; intros i E n Hn; [inversion Hn|]. cbn [byIdFrom] in E.
  destruct (byIdFrom (S i) nodes w) eqn:F; [discriminate|]. case_bool_decide as D; [discriminate|].
  apply elem_of_cons in Hn as [->|Hn]; [exact D|]. exact (IH _ F n Hn).
Qed.

(** The loop of [pathOf]: [done] is closed under [up], but for the node it is at. *)
Lemma climb_path (nodes : list CloudNode) (fuel : nat) : forall cur seen path,
  (forall i n, cur = Some (i, n) -> nodes !! i = Some n) ->
  base.NoDup seen -> (forall i, i ∈ seen -> i < length nodes) ->
  (forall n, n ∈ path <-> exists i, i ∈ seen /\ nodes !! i = Some n) ->
  (forall a b, a ∈ path -> up nodes a b -> b ∈ path \/ exists i, cur = Some (i, b)) ->
  length nodes < fuel + length seen ->
  let out := climb fuel nodes cur seen path in
  (forall n, n ∈ path -> n ∈ out) /\ (forall i n, cur = Some (i, n) -> n ∈ out) /\
  (forall a b, a ∈ out -> up nodes a b -> b ∈ out).
Proof.
  induction fuel as [|fuel IH]; intros cur seen path Cu Nd Bd Pa Cl Le out.
  { exfalso. assert (length seen <= length nodes); [|cbn in Le; lia].
    rewrite <- (length_seq (length nodes) 0). apply submseteq_length, NoDup_submseteq; [exact Nd|].
    intros i Hi. apply elem_of_seq. specialize (Bd i Hi). lia. }
  subst out. cbn [climb]. destruct cur as [[i n]|].
  2: { split; [auto|]. split; [intros ? ? [=]|]. intros a b Ha Hab. destruct (Cl a b Ha Hab) as [?|[? [=]]]; assumption. }
  specialize (Cu i n eq_refl).
  case_bool_decide as Si.
  { assert (n ∈ path) by (apply Pa; exists i; split; assumption).
    split; [auto|]. split; [intros ? ? [= <- <-]; assumption|].
    intros a b Ha Hab. destruct (Cl a b Ha Hab) as [?|[j [= <- <-]]]; assumption. }
  destruct (parentOf n) as [p|] eqn:Ep.
  - specialize (IH (byId nodes p) (i :: seen) (path ++ [n])). cbn zeta in IH.
    destruct IH as (I1 & I2 & I3).
    + intros j m E. apply byId_inv in E. apply E.
    + apply list.NoDup_cons. split; assumption.
    + intros j Hj. apply elem_of_cons in Hj as [->|Hj]; [apply lookup_lt_Some in Cu; exact Cu|apply Bd; exact Hj].
    + intros m. rewrite elem_of_app, list_elem_of_singleton, Pa. setoid_rewrite elem_of_cons.
      split; [intros [(j & ? & ?)| ->]; eauto|intros (j & [->|?] & ?); [right; congruence|left; eauto]].
    + intros a b Ha Hab. rewrite elem_of_app, list_elem_of_singleton in Ha |- *. destruct Ha as [Ha| ->].
      * destruct (Cl a b Ha Hab) as [?|[j [= <- <-]]]; auto.
      * destruct Hab as (q & j & Eq & Eb). right. exists j. congruence.
    + cbn [length]. lia.
    + split; [intros m Hm; apply I1, elem_of_app; auto|].
      split; [intros ? ? [= <- <-]; apply I1, elem_of_app; right; apply list_elem_of_singleton; reflexivity|exact I3].
  - split; [intros m Hm; apply elem_of_app; auto|].
    split; [intros ? ? [= <- <-]; apply elem_of_app; right; apply list_elem_of_singleton; reflexivity|].
    intros a b Ha Hab. rewrite elem_of_app, list_elem_of_singleton in Ha |- *. destruct Ha as [Ha| ->].
    + destruct (Cl a b Ha Hab) as [?|[j [= <- <-]]]; auto.
    + destruct Hab as (q & j & Eq & Eb). congruence.
Qed.

(** Each element is held by the next one. *)
Fixpoint linked (nodes : list CloudNode) (l : list CloudNode) : Prop :=
  match l with
  | a :: l' => match l' with b :: _ => up nodes a b | [] => True end /\ linked nodes l'
  | [] => True
  end.

Lemma linked_reach (nodes : list CloudNode) (l : list CloudNode) : forall a n, linked nodes (a :: l) ->
  n ∈ a :: l -> rtc (up nodes) a n.
Proof.
  induction l as [|b l IH]; intros a n K Hn.
  - apply list_elem_of_singleton in Hn as ->. apply rtc_refl.
  - destruct K as [U K]. apply elem_of_cons in Hn as [->|Hn]; [apply rtc_refl|].
    apply rtc_l with b; [exact U|apply IH; assumption].
Qed.

Lemma linked_to_last (nodes : list CloudNode) (l : list CloudNode) (h : CloudNode) : forall n,
  linked nodes (l ++ [h]) -> n ∈ l ++ [h] -> rtc (up nodes) n h.
Proof.
  induction l as [|a l IH]; intros n K Hn.
  - apply list_elem_of_singleton in Hn as ->. apply rtc_refl.
  - destruct K as [U K]. apply elem_of_cons in Hn as [->|Hn]; [|apply IH; assumption].
    destruct l as [|b l]; cbn in U; apply rtc_l with (1 := U); [apply rtc_refl|apply IH; [exact K|left]].
Qed.

(** The loop appends a chain that begins at the node it is at. *)
Lemma climb_linked (nodes : list CloudNode) (fuel : nat) : forall cur seen path, exists l,
  climb fuel nodes cur seen path = path ++ l /\ linked nodes l /\
  match l with n :: _ => exists i, cur = Some (i, n) | [] => True end.
Proof.
  induction fuel as [|fuel IH]; intros cur seen path; cbn [climb].
  { exists []. rewrite app_nil_r. repeat split. }
  destruct cur as [[i n]|]; [|exists []; rewrite app_nil_r; repeat split].
  case_bool_decide; [exists []; rewrite app_nil_r; repeat split|].
  destruct (parentOf n) as [p|] eqn:Ep; [|exists [n]; repeat split; eauto].
  destruct (IH (byId nodes p) (i :: seen) (path ++ [n])) as (l & -> & K & Hd).
  exists (n :: l). rewrite <- app_assoc. split; [reflexivity|]. split; [|eauto].
  split; [|exact K]. destruct l as [|b l]; [exact I|]. destruct Hd as [j Ej]. exists p, j. split; assumption.
Qed.

Lemma Acc_no_cycle (nodes : list CloudNode) (n b : CloudNode) :
  Acc (fun b a => up nodes a b) n -> up nodes n b -> ~ rtc (up nodes) b n.
Proof.
  intros A. revert b. induction A as [n _ IH]. intros b U R.
  inversion R as [|? c ? U' R']; subst; [exact (IH n U n U (rtc_refl _ _))|].
  apply (IH b U c U'). eapply rtc_r; [exact R'|exact U].
Qed.

Lemma nonEmpty_Some (v : option bytes) (w : bytes) : nonEmpty v = Some w <-> v = Some w /\ w <> [].
Proof. destruct v as [[|c s]|]; cbn; split; [discriminate|intros [[= <-] ?]; congruence|intros [= <-]; split; congruence|intros [E _]; exact E|discriminate|intros [? _]; discriminate]. Qed.

(** The nodes of a path are those above its node. *)
Lemma climb_reach (nodes : list CloudNode) (i : nat) (t : CloudNode) (out : list CloudNode) :
  nodes !! i = Some t -> climb (S (length nodes)) nodes (Some (i, t)) [] [] = out ->
  (forall n, n ∈ out <-> rtc (up nodes) t n) /\ exists l, out = t :: l /\ linked nodes (t :: l).
Proof.
  intros T E.
  destruct (climb_path nodes (S (length nodes)) (Some (i, t)) [] []) as (_ & P2 & P3).
  { intros j n [= <- <-]. exact T. }
  { constructor. }
  { intros j Hj. inversion Hj. }
  { intros n. split; [intros Hn; inversion Hn|intros (j & Hj & _); inversion Hj]. }
  { intros a b Ha. inversion Ha. }
  { cbn. lia. }
  destruct (climb_linked nodes (S (length nodes)) (Some (i, t)) [] []) as (l & El & K & Hd).
  rewrite E in P2, P3, El. rewrite app_nil_l in El. specialize (P2 i t eq_refl). clear E.
  destruct l as [|a l]; [rewrite El in P2; inversion P2|]. destruct Hd as [j [= <- <-]].
  split; [|exists l; auto]. intros n. split.
  - rewrite El. apply linked_reach; exact K.
  - intros Hr. clear -Hr P2 P3. revert P2. induction Hr as [|? ? ? U _ IH]; [auto|].
    intros Hx. apply IH. exact (P3 _ _ Hx U).
Qed.

Lemma pathOf_climb (nodes : list CloudNode) (w : bytes) (i : nat) (t : CloudNode) :
  w <> [] -> byId nodes w = Some (i, t) ->
  pathOf nodes (Some w) = rev (climb (S (length nodes)) nodes (Some (i, t)) [] []).
Proof. intros W T. unfold pathOf. rewrite (proj2 (nonEmpty_Some (Some w) w) (conj eq_refl W)), T. reflexivity. Qed.

Lemma pathOf_elems (nodes : list CloudNode) (w : bytes) (i : nat) (t : CloudNode) :
  w <> [] -> byId nodes w = Some (i, t) -> forall n, n ∈ pathOf nodes (Some w) <-> rtc (up nodes) t n.
Proof.
  intros W T n. rewrite (pathOf_climb nodes w i t W T), list_elem_of_In, <- in_rev, <- list_elem_of_In.
  apply byId_inv in T as [T _]. apply (climb_reach nodes i t _ T eq_refl).
Qed.

Lemma reach_elem (nodes : list CloudNode) (t n : CloudNode) : t ∈ nodes -> rtc (up nodes) t n -> n ∈ nodes.
Proof.
  intros Ht [<-|(c & _ & p & k & _ & Ec)]%rtc_inv_r; [exact Ht|]. apply byId_elem in Ec. apply Ec.
Qed.

(** Property (functional): the path of a node, for any nodes: it ends with the
    node and each folder on it holds the next one; it has exactly the folders
    above the node, also where the parents form a cycle; and in a forest it
    begins with a node that no folder holds. *)
Theorem pathOf_ancestors (nodes : list CloudNode) (want : bytes) (i : nat) (t : CloudNode)
  (W : want <> []) (T : byId nodes want = Some (i, t)) :
  (forall n, n ∈ pathOf nodes (Some want) <-> rtc (up nodes) t n) /\
  linked nodes (rev (pathOf nodes (Some want))) /\ list.last (pathOf nodes (Some want)) = Some t /\
  (forest nodes -> forall h b, head (pathOf nodes (Some want)) = Some h -> ~ up nodes h b).
Proof.
  pose proof (pathOf_elems nodes want i t W T) as R. split; [exact R|].
  rewrite (pathOf_climb nodes want i t W T) in R |- *. pose proof (byId_elem _ _ _ _ T) as [Ht _].
  destruct (climb_reach nodes i t _ (proj1 (byId_inv _ _ _ _ T)) eq_refl) as (_ & l & El & K).
  set (out := climb _ _ _ _ _) in *. clearbody out. rewrite rev_involutive.
  split; [rewrite El; exact K|]. split; [rewrite El; cbn [rev]; apply list.last_snoc|].
  intros F h b Hh U.
  assert (E : exists l', out = l' ++ [h]).
  { exists (rev (list.tail (rev out))). rewrite <- (rev_involutive out) at 1.
    destruct (rev out) as [|x r]; [discriminate|]. injection Hh as ->. reflexivity. }
  destruct E as [l' E]. rewrite <- El, E in K.
  setoid_rewrite list_elem_of_In in R. setoid_rewrite <- in_rev in R. setoid_rewrite <- list_elem_of_In in R.
  assert (Hr : rtc (up nodes) t h) by (apply R; rewrite E; apply elem_of_app; right; left).
  apply (Acc_no_cycle nodes h b (F h (reach_elem nodes t h Ht Hr)) U).
  apply (linked_to_last nodes l' h); [exact K|]. rewrite <- E. apply R. apply rtc_r with h; assumption.
Qed.

Definition move (ids : list bytes) (target : option bytes) (nodes : list CloudNode) : list CloudNode :=
  moved ids target <$> nodes.

Section Moves.
Context (nodes : list CloudNode) (ids : list bytes) (target : option bytes).
Let nodes' := move ids target nodes.
Let mv := moved ids target.

Lemma id_moved n : id (mv n) = id n.
Proof using. subst mv. unfold moved. destruct (isIn (id n) ids); reflexivity. Qed.

Lemma moved_still n : id n ∉ ids -> mv n = n.
Proof using. intros H. subst mv. unfold moved, isIn. rewrite bool_decide_eq_false_2 by exact H. reflexivity. Qed.

Lemma parent_moved n : id n ∈ ids -> parentOf (mv n) = nonEmpty target.
Proof using. intros H. subst mv. unfold moved, isIn, parentOf. rewrite bool_decide_eq_true_2 by exact H. reflexivity. Qed.

Lemma byId_moved (w : bytes) : byId nodes' w = (fun r => (r.1, mv r.2)) <$> byId nodes w.
Proof using.
  subst nodes'. unfold byId, move. generalize 0. induction nodes as [|n l IH]; intros i; [reflexivity|].
  cbn [fmap list_fmap byIdFrom]. rewrite IH. destruct (byIdFrom (S i) l w); [reflexivity|].
  cbn [fmap option_fmap option_map]. fold mv. rewrite id_moved. case_bool_decide; reflexivity.
Qed.

Lemma up_moved (n b : CloudNode) : id n ∉ ids -> up nodes n b -> up nodes' (mv n) (mv b).
Proof using.
  intros H (p & i & Ep & Eb). exists p, i. rewrite (moved_still n H), byId_moved, Eb. split; [exact Ep|reflexivity].
Qed.

Lemma up_moved_inv (n c : CloudNode) : up nodes' (mv n) c ->
  (id n ∈ ids /\ exists w i t, nonEmpty target = Some w /\ byId nodes w = Some (i, t) /\ c = mv t) \/
  (id n ∉ ids /\ exists b, up nodes n b /\ c = mv b).
Proof using.
  intros (p & i & Ep & Ec). rewrite byId_moved in Ec.
  destruct (byId nodes p) as [[j b]|] eqn:Eb; [|discriminate]. injection Ec as <- <-.
  destruct (decide (id n ∈ ids)) as [H|H].
  - left. rewrite parent_moved in Ep by exact H. eauto 8.
  - right. rewrite moved_still in Ep by exact H. split; [exact H|]. exists b. split; [exists p, j; auto|reflexivity].
Qed.

(** Nodes below which nothing moves stay acyclic. *)
Lemma still_acyclic (n : CloudNode) : Acc (fun b a => up nodes a b) n ->
  (forall b, rtc (up nodes) n b -> id b ∉ ids) -> Acc (fun b a => up nodes' a b) (mv n).
Proof using.
  induction 1 as [n _ IH]. intros H. constructor. intros c U. apply up_moved_inv in U as [[Hn _]|(_ & b & U & ->)].
  - exfalso. exact (H n (rtc_refl _ _) Hn).
  - apply (IH b U). intros d Hd. apply H. apply rtc_l with b; assumption.
Qed.

Lemma moved_acyclic (n : CloudNode) : Acc (fun b a => up nodes a b) n ->
  (forall w i t, nonEmpty target = Some w -> byId nodes w = Some (i, t) -> Acc (fun b a => up nodes' a b) (mv t)) ->
  Acc (fun b a => up nodes' a b) (mv n).
Proof using.
  induction 1 as [n _ IH]. intros H. constructor. intros c U.
  apply up_moved_inv in U as [(_ & w & i & t & Ew & Et & ->)|(_ & b & U & ->)]; [eapply H; eassumption|apply (IH b U H)].
Qed.

(** The way up from [n] meets its first moved node. *)
Lemma first_moved (n b : CloudNode) : rtc (up nodes) n b -> id b ∈ ids ->
  exists c, id c ∈ ids /\ rtc (up nodes') (mv n) (mv c) /\ rtc (up nodes) n c.
Proof using.
  induction 1 as [n|n m b U R IH]; intros Hb; [exists n; repeat split; [exact Hb|constructor|constructor]|].
  destruct (decide (id n ∈ ids)) as [Hn|Hn]; [exists n; repeat split; [exact Hn|constructor|constructor]|].
  destruct (IH Hb) as (c & Hc & R1 & R2). exists c. split; [exact Hc|].
  split; [apply rtc_l with (mv m); [apply up_moved; assumption|exact R1]|apply rtc_l with m; assumption].
Qed.
End Moves.

Lemma byId_find (nodes : list CloudNode) (w : bytes) (i : nat) (t : CloudNode) : base.NoDup (id <$> nodes) ->
  byId nodes w = Some (i, t) <-> list_find (fun n => id n = w) nodes = Some (i, t).
Proof.
  intros Nd. assert (U : forall j m k n, nodes !! j = Some m -> nodes !! k = Some n -> id m = id n -> j = k).
  { intros j m k n Hj Hk E. apply (NoDup_lookup (id <$> nodes) j k (id m) Nd); rewrite list_lookup_fmap;
      [rewrite Hj; reflexivity|rewrite Hk, E; reflexivity]. }
  split; intros E.
  - apply byId_inv in E as [L I]. apply list_find_Some. split; [exact L|]. split; [exact I|].
    intros j m Hj Lt Em. assert (j = i) by (eapply U; [exact Hj|exact L|congruence]). lia.
  - apply list_find_Some in E as (L & I & _).
    destruct (byId nodes w) as [[k n]|] eqn:B.
    + apply byId_inv in B as [Lk Ik]. assert (k = i) as -> by (eapply U; [exact Lk|exact L|congruence]). congruence.
    + exfalso. apply (byIdFrom_None _ _ _ B t); [eapply list_elem_of_lookup_2; exact L|exact I].
Qed.

Lemma kind_ok (t : CloudNode) :
  (negb (bool_decide (kind t = #"folder")) || trashed t = false /\ kind t = #"folder" /\ trashed t = false) \/
  (negb (bool_decide (kind t = #"folder")) || trashed t = true /\ ~ (kind t = #"folder" /\ trashed t = false)).
Proof. case_bool_decide as K; destruct (trashed t); cbn; [right|left|right|right]; split; try reflexivity; intuition congruence. Qed.

(** Claim C7 (safety): with distinct identifiers and an acyclic tree, moving is
    allowed exactly when the target is the root or a folder that is not in the
    trash, and the moved tree is acyclic again. *)
Theorem canMoveInto_iff (nodes : list CloudNode) (ids : list bytes) (target : option bytes)
  (Nd : base.NoDup (id <$> nodes)) (F : forest nodes) :
  canMoveInto nodes ids target = true <->
  (forall w, nonEmpty target = Some w -> exists t, t ∈ nodes /\ id t = w /\ kind t = #"folder" /\ trashed t = false) /\
  forest (move ids target nodes).
Proof.
  assert (M : forall n, n ∈ move ids target nodes -> exists m, n = moved ids target m /\ m ∈ nodes).
  { intros n Hn. apply list_elem_of_fmap in Hn. exact Hn. }
  unfold canMoveInto. destruct (nonEmpty target) as [w|] eqn:W.
  2: { split; [intros _|reflexivity]. split; [discriminate|]. intros n (m & -> & Hm)%M.
       apply moved_acyclic; [exact (F m Hm)|]. rewrite W. discriminate. }
  destruct (proj1 (nonEmpty_Some _ _) W) as [-> Wn].
  destruct (list_find (fun n => id n = w) nodes) as [[i t]|] eqn:L.
  2: { split; [discriminate|]. intros [H _]. destruct (H w eq_refl) as (t & Ht & It & _).
       apply list_find_None in L. rewrite Forall_elem in L. destruct (L t Ht It). }
  pose proof (proj2 (byId_find nodes w i t Nd) L) as B.
  assert (Ht : t ∈ nodes) by (apply byId_elem in B; apply B).
  pose proof (pathOf_elems nodes w i t Wn B) as R.
  assert (Tu : forall t', t' ∈ nodes -> id t' = w -> t' = t).
  { intros t' Ht' It'. apply list_elem_of_lookup_1 in Ht' as [j Hj]. apply byId_inv in B as [Li Ii].
    assert (j = i) as ->; [|congruence]. apply (NoDup_lookup (id <$> nodes) j i w Nd); rewrite list_lookup_fmap;
      [rewrite Hj; cbn; congruence|rewrite Li; cbn; congruence]. }
  destruct (kind_ok t) as [[-> Ok]|[-> No]].
  2: { split; [discriminate|]. intros [H _]. destruct (H w eq_refl) as (t' & Ht' & It' & K).
       rewrite (Tu t' Ht' It') in K. destruct (No K). }
  rewrite forallb_forall. setoid_rewrite <- list_elem_of_In. split.
  - intros A. split; [intros ? [= <-]; exists t; split; [exact Ht|]; apply byId_elem in B as [_ <-]; tauto|].
    intros n (m & -> & Hm)%M. apply moved_acyclic; [exact (F m Hm)|]. intros w' j t' Ew Et.
    assert (t' = t) as -> by congruence. apply still_acyclic; [exact (F t Ht)|].
    intros b Hb Hi. specialize (A (id b) Hi). apply negb_true_iff, bool_decide_eq_false in A.
    apply A, list_elem_of_fmap. exists b. split; [reflexivity|]. apply R. exact Hb.
  - intros [_ F'] m Hm. apply negb_true_iff, bool_decide_eq_false. intros (b & -> & Hb)%list_elem_of_fmap.
    apply R in Hb. destruct (first_moved nodes ids (Some w) t b Hb Hm) as (c & Hc & R1 & R2).
    apply (Acc_no_cycle (move ids (Some w) nodes) (moved ids (Some w) c) (moved ids (Some w) t)); [| |exact R1].
    + apply F'. apply list_elem_of_fmap. exists c. split; [reflexivity|]. exact (reach_elem nodes t c Ht R2).
    + exists w, i. rewrite (parent_moved ids (Some w) c Hc), byId_moved, B. split; [exact W|reflexivity].
Qed.

Definition folderA : CloudNode :=
  {| id := #"a"; kind := #"folder"; parent := None; name := #"A"; size := 0; mime := []; mtime := 0;
     trashed := false; trashTop := false; trashedAt := 0; blob := None; thumb := None |}.
Definition folderB : CloudNode :=
  {| id := #"b"; kind := #"folder"; parent := Some (#"a"); name := #"B"; size := 7; mime := []; mtime := 0;
     trashed := false; trashTop := false; trashedAt := 0; blob := None; thumb := None |}.

Lemma forest_AB : forest [folderA; folderB].
Proof.
  assert (A : Acc (fun b a => up [folderA; folderB] a b) folderA).
  { constructor. intros b (p & i & Ep & _). discriminate Ep. }
  intros n [->|[->|Hn]%elem_of_cons]%elem_of_cons; [exact A| |inversion Hn].
  constructor. intros b (p & i & Ep & Eb). injection Ep as <-. vm_compute in Eb. injection Eb as _ <-. exact A.
Defined.

Lemma nodup_AB : base.NoDup (id <$> [folderA; folderB]).
Proof. apply (bool_decide_unpack _). vm_compute. exact I. Defined.

Lemma pathOf_ancestors_witness :
  byId [folderA; folderB] (#"b") = Some (1, folderB) /\
  list.last (pathOf [folderA; folderB] (Some (#"b"))) = Some folderB.
Proof.
  split; [reflexivity|].
  refine (proj1 (proj2 (proj2 (pathOf_ancestors [folderA; folderB] (#"b") 1 folderB _ eq_refl)))). discriminate.
Defined.

Lemma canMoveInto_iff_witness :
  canMoveInto [folderA; folderB] [ #"a" ] (Some (#"b")) = false /\
  ~ forest (move [ #"a" ] (Some (#"b")) [folderA; folderB]).
Proof.
  split; [reflexivity|]. intros F'.
  pose proof (canMoveInto_iff [folderA; folderB] [ #"a" ] (Some (#"b")) nodup_AB forest_AB) as [_ H].
  enough (false = true) as ?; [discriminate|]. apply H. split; [|exact F'].
  intros w [= <-]. exists folderB. split; [right; left|]. repeat split.
Defined.

(** ** Subtrees *)

Section Subtrees.
Context (nodes : list CloudNode) (Nd : base.NoDup (id <$> nodes)).

Lemma nodes_nodup : base.NoDup nodes.
Proof using Nd. apply (NoDup_fmap_1 id). exact Nd. Qed.

Lemma same_id (m n : CloudNode) : m ∈ nodes -> n ∈ nodes -> id m = id n -> m = n.
Proof using Nd.
  intros [j Hj]%list_elem_of_lookup_1 [k Hk]%list_elem_of_lookup_1 E.
  assert (j = k) as ->; [|congruence]. apply (NoDup_lookup (id <$> nodes) j k (id m) Nd);
    rewrite list_lookup_fmap; [rewrite Hj; reflexivity|rewrite Hk, E; reflexivity].
Qed.

Lemma up_parent (m n : CloudNode) : n ∈ nodes -> up nodes m n <-> parentOf m = Some (id n).
Proof using Nd.
  intros Hn. split.
  - intros (p & i & Ep & Eb). apply byId_elem in Eb as [_ <-]. exact Ep.
  - intros Ep. destruct (byId nodes (id n)) as [[i b]|] eqn:B.
    + exists (id n), i. split; [exact Ep|]. rewrite B. f_equal. f_equal.
      apply byId_elem in B as [Hb Ib]. apply same_id; assumption.
    + destruct (byIdFrom_None _ _ _ B n Hn eq_refl).
Qed.

Lemma childNodes_up (m n : CloudNode) : n ∈ nodes -> m ∈ childNodes nodes (id n) <-> m ∈ nodes /\ up nodes m n.
Proof using Nd.
  intros Hn. unfold childNodes. rewrite list_elem_of_In, filter_In, <- list_elem_of_In, bool_decide_eq_true, up_parent by exact Hn.
  reflexivity.
Qed.

Lemma childNodes_nodup (p : bytes) : base.NoDup (childNodes nodes p).
Proof using Nd. apply NoDup_ListNoDup, List.NoDup_filter, NoDup_ListNoDup, nodes_nodup. Qed.

Context (F : forest nodes) (t : CloudNode) (Ht : t ∈ nodes).

(** The loop: [out] holds nodes below [t], each once; those before [i] have
    their content in it, and all but [t] were put in by those before [i]. *)
Record spread (i : nat) (out : list CloudNode) : Prop := {
  sp_nodup : base.NoDup out;
  sp_top : t ∈ out;
  sp_below n : n ∈ out -> n ∈ nodes /\ rtc (up nodes) n t;
  sp_done j n m : j < i -> out !! j = Some n -> m ∈ nodes -> up nodes m n -> m ∈ out;
  sp_from m : m ∈ out -> m = t \/ exists j n, j < i /\ out !! j = Some n /\ up nodes m n
}.

Lemma spread_fit (i : nat) (out : list CloudNode) : spread i out -> length out <= length nodes.
Proof using.
  intros S. apply submseteq_length, NoDup_submseteq; [apply (sp_nodup _ _ S)|]. intros n Hn. apply (sp_below _ _ S n Hn).
Qed.

Lemma spread_step (i : nat) (out : list CloudNode) (n : CloudNode) : out !! i = Some n -> spread i out ->
  spread (S i) (out ++ childNodes nodes (id n)).
Proof using Nd F.
  intros Hi Sp. pose proof (list_elem_of_lookup_2 _ _ _ Hi) as Hn. destruct (sp_below _ _ Sp n Hn) as [Hn' Rn].
  assert (Li : i < length out) by (apply lookup_lt_Some in Hi; exact Hi).
  split.
  - apply list.NoDup_app. split; [apply (sp_nodup _ _ Sp)|]. split; [|apply childNodes_nodup].
    intros m Hm [Hm' U]%childNodes_up; [|exact Hn'].
    destruct (sp_from _ _ Sp m Hm) as [->|(j & n' & Lj & Hj & U')].
    + exact (Acc_no_cycle nodes t n (F t Hm') U Rn).
    + assert (n' = n) as -> by (destruct U as (p & a & E1 & E2), U' as (q & b & E3 & E4); congruence).
      assert (j = i) by (eapply NoDup_lookup; [apply (sp_nodup _ _ Sp)|exact Hj|exact Hi]). lia.
  - apply elem_of_app. left. apply (sp_top _ _ Sp).
  - intros m [Hm|[Hm U]%childNodes_up]%elem_of_app; [apply (sp_below _ _ Sp m Hm)| |exact Hn'].
    split; [exact Hm|]. apply rtc_l with n; assumption.
  - intros j n' m Lj Hj Hm U. apply elem_of_app. destruct (decide (j = i)) as [->|Ne].
    + right. rewrite lookup_app_l in Hj by exact Li. assert (n' = n) as -> by congruence. apply childNodes_up; auto.
    + left. rewrite lookup_app_l in Hj by lia. apply (sp_done _ _ Sp j n' m); [lia|assumption..].
  - intros m [Hm|[Hm U]%childNodes_up]%elem_of_app; [| |exact Hn'].
    + destruct (sp_from _ _ Sp m Hm) as [?|(j & n' & Lj & Hj & U')]; [left; assumption|right].
      exists j, n'. split; [lia|]. split; [apply lookup_app_l_Some; exact Hj|exact U'].
    + right. exists i, n. split; [lia|]. split; [apply lookup_app_l_Some; exact Hi|exact U].
Qed.

Lemma breadth_spread (fuel : nat) : forall i out, spread i out -> i <= length out ->
  length nodes < fuel + i ->
  exists k, spread k (breadth fuel nodes i out) /\ length (breadth fuel nodes i out) <= k.
Proof using Nd F.
  induction fuel as [|fuel IH]; intros i out Sp Li Lf; pose proof (spread_fit _ _ Sp); [lia|].
  cbn [breadth]. destruct (out !! i) as [n|] eqn:Hi.
  - rewrite (proj2 (Nat.leb_le _ _)) by lia. apply IH; [apply spread_step; assumption| |lia].
    apply lookup_lt_Some in Hi. rewrite length_app. lia.
  - exists i. split; [exact Sp|]. apply lookup_ge_None in Hi. exact Hi.
Qed.
End Subtrees.

(** Property (functional): in a forest with distinct identifiers the subtree of
    a node has the node and everything below it, each once; so the ceiling on
    its length is not reached, and its size counts each node once. *)
Theorem subtreeOf_descendants (nodes : list CloudNode) (want : bytes) (t : CloudNode)
  (Nd : base.NoDup (id <$> nodes)) (F : forest nodes) (Ht : t ∈ nodes) (I : id t = want) :
  (forall n, n ∈ subtreeOf nodes want <-> n ∈ nodes /\ rtc (up nodes) n t) /\
  base.NoDup (subtreeOf nodes want) /\ length (subtreeOf nodes want) <= length nodes.
Proof.
  destruct (list_find (fun n => id n = want) nodes) as [[k m]|] eqn:L.
  2: { apply list_find_None in L. rewrite Forall_elem in L. destruct (L t Ht I). }
  unfold subtreeOf. rewrite L. apply list_find_Some in L as (Lm & Im & _).
  assert (m = t) as ->.
  { apply (same_id nodes Nd); [eapply list_elem_of_lookup_2; exact Lm|exact Ht|congruence]. }
  destruct (breadth_spread nodes Nd F t (length nodes * 2 + 2) 0 [t]) as (j & Sp & Lj); [|cbn; lia|lia|].
  { split; [apply NoDup_singleton|left| |intros; lia|].
    - intros n ->%list_elem_of_singleton. split; [exact Ht|constructor].
    - intros n ->%list_elem_of_singleton. left. reflexivity. }
  set (out := breadth _ _ _ _) in *. clearbody out. split; [|split; [apply (sp_nodup _ _ _ _ Sp)|exact (spread_fit _ _ _ _ Sp)]].
  intros n. split; [apply (sp_below _ _ _ _ Sp)|]. intros [Hn R].
  revert Hn. clear -R Sp Lj. induction R as [x|x y z U R IH]; intros Hn; [apply (sp_top _ _ _ _ Sp)|].
  assert (Hy : y ∈ nodes) by (destruct U as (p & a & _ & Ea); apply byId_elem in Ea; apply Ea).
  specialize (IH Sp Hy). apply list_elem_of_lookup_1 in IH as [a Ha].
  apply (sp_done _ _ _ _ Sp a y x); [|exact Ha|exact Hn|exact U]. apply lookup_lt_Some in Ha. lia.
Qed.

Lemma subtreeOf_descendants_witness : sizeOf [folderA; folderB] (#"a") = 7%Z /\
  length (subtreeOf [folderA; folderB] (#"a")) <= 2.
Proof.
  split; [reflexivity|].
  refine (proj2 (proj2 (subtreeOf_descendants [folderA; folderB] (#"a") folderA nodup_AB forest_AB _ eq_refl))). left.
Defined.

(** ** Free names *)

Lemma rfind_app (c : byte) (a b : bytes) : c ∉ b -> rfind c (a ++ c :: b) = Some (length a).
Proof.
  intros H. assert (N : rfind c b = None).
  { induction b as [|d b IH]; [reflexivity|]. apply not_elem_of_cons in H as [H1 H2].
    cbn [rfind]. rewrite (IH H2), bool_decide_eq_false_2 by congruence. reflexivity. }
  induction a as [|d a IH]; cbn [app rfind length].
  - rewrite N, bool_decide_eq_true_2 by reflexivity. reflexivity.
  - rewrite IH. reflexivity.
Qed.

Lemma rfind_inv (c : byte) (s : bytes) (i : nat) : rfind c s = Some i ->
  exists a b, s = a ++ c :: b /\ length a = i /\ c ∉ b.
Proof.
  revert i. induction s as [|d s IH]; intros i E; cbn [rfind] in E; [discriminate|].
  destruct (rfind c s) as [j|] eqn:R.
  - injection E as <-. destruct (IH j eq_refl) as (a & b & -> & <- & H). exists (d :: a), b. auto.
  - case_bool_decide as D; [|discriminate]. injection E as <-. subst d. exists [], s. split; [reflexivity|].
    split; [reflexivity|]. clear IH. intros Hc. apply list_elem_of_split in Hc as (a & b & ->).
    clear -R. induction a as [|d a IH]; cbn [app rfind] in R.
    + destruct (rfind c b); [discriminate|]. rewrite bool_decide_eq_true_2 in R by reflexivity. discriminate.
    + destruct (rfind c (a ++ c :: b)); [discriminate|]. apply IH. reflexivity.
Qed.

Lemma getExtension_app (a b : bytes) : "."%byte ∉ b -> a <> [] -> b <> [] ->
  getExtension (a ++ "."%byte :: b) = toLower b.
Proof.
  intros H Ha Hb. unfold getExtension. rewrite rfind_app by exact H.
  rewrite length_app. cbn [length]. destruct a as [|x a], b as [|y b]; try congruence. cbn [length].
  rewrite (proj2 (Nat.eqb_neq _ _)), (proj2 (Nat.leb_gt _ _)) by lia. cbn [orb].
  rewrite drop_app_ge by (cbn [length]; lia). replace (S (length a) + 1 - length (x :: a)) with 1 by (cbn [length]; lia).
  reflexivity.
Qed.

Lemma candidate_inj (base extension : bytes) (m n : Z) : (0 <= m)%Z -> (0 <= n)%Z ->
  candidate base extension m = candidate base extension n -> m = n.
Proof.
  unfold candidate. intros Hm Hn E. apply app_inv_head, app_inv_head in E.
  rewrite !app_assoc in E. apply app_inv_tail, app_inv_tail in E. apply to_string_inj_nonneg; assumption.
Qed.

Lemma freeFrom_spec (taken : list bytes) (base extension : bytes) (fuel : nat) : forall n,
  (2 <= n)%Z -> (forall k, (2 <= k < n)%Z -> candidate base extension k ∈ taken) ->
  (Z.of_nat (length taken) + 2 < n + Z.of_nat fuel)%Z ->
  exists m, freeFrom fuel taken base extension n = Some (candidate base extension m) /\ (2 <= m)%Z /\
    candidate base extension m ∉ taken /\ (forall k, (2 <= k < m)%Z -> candidate base extension k ∈ taken).
Proof.
  induction fuel as [|fuel IH]; intros n Ln Hn Lf.
  - exfalso. set (l := candidate base extension <$> seqZ 2 (n - 2)).
    assert (length l <= length taken); [|subst l; rewrite length_fmap, length_seqZ in *; lia].
    apply submseteq_length, NoDup_submseteq.
    + apply NoDup_fmap_2_strong; [|apply NoDup_seqZ].
      intros j k Hj%elem_of_seqZ Hk%elem_of_seqZ. apply candidate_inj; lia.
    + intros s (k & -> & Hk%elem_of_seqZ)%list_elem_of_fmap. apply Hn. lia.
  - cbn [freeFrom]. unfold isIn. case_bool_decide as D.
    + apply IH; [lia| |lia]. intros k Hk. destruct (Z.eq_dec k n) as [->|]; [exact D|apply Hn; lia].
    + exists n. auto.
Qed.

Lemma nameParts_spec (name : bytes) : exists base extension,
  nameParts name = (base, extension) /\ name = base ++ extension /\
  (getExtension name <> [] ->
   exists a b, base = a /\ a <> [] /\ extension = "."%byte :: b /\ b <> [] /\ "."%byte ∉ b).
Proof.
  unfold nameParts, getExtension. destruct (rfind "." name) as [dot|] eqn:R.
  2: { exists name, []. rewrite app_nil_r. repeat split. congruence. }
  apply rfind_inv in R as (a & b & E & <- & H).
  destruct (Nat.ltb_spec 0 (length a)) as [La|La], (Nat.ltb_spec (length a + 1) (length name)) as [Lb|Lb]; cbn [andb].
  - exists a, ("."%byte :: b). rewrite E, take_app_length, drop_app_length. repeat split. intros _.
    exists a, b. repeat split; [destruct a; [cbn in La; lia|discriminate]| |exact H].
    intros ->. rewrite E, length_app in Lb. cbn in Lb. lia.
  - exists name, []. rewrite app_nil_r, (proj2 (Nat.leb_le _ _) Lb), orb_true_r. repeat split. congruence.
  - exists name, []. rewrite app_nil_r, (proj2 (Nat.eqb_eq (length a) 0)) by lia. repeat split. cbn [orb]. congruence.
  - exists name, []. rewrite app_nil_r, (proj2 (Nat.eqb_eq (length a) 0)) by lia. repeat split. cbn [orb]. congruence.
Qed.

(** Property (termination): the search for a free name ends for every list of
    taken names within as many steps as there are names; a free name is kept,
    and otherwise the result is the name with the first number from 2 on that
    is free, put before the extension, which does not change. *)
Theorem freeName_free (taken : list bytes) (name : bytes) :
  exists r, freeName taken name = Some r /\ r ∉ taken /\ (name ∉ taken -> r = name) /\
    (getExtension name <> [] -> getExtension r = getExtension name) /\
    (name ∈ taken -> exists base extension n, name = base ++ extension /\ r = candidate base extension n /\
       (2 <= n)%Z /\ forall k, (2 <= k < n)%Z -> candidate base extension k ∈ taken).
Proof.
  unfold freeName, isIn. case_bool_decide as D; cbn [negb].
  2: { exists name. repeat split; [exact D|]. intros H. destruct (D H). }
  destruct (nameParts_spec name) as (base & extension & -> & En & Ex).
  destruct (freeFrom_spec taken base extension (S (length taken)) 2) as (m & -> & Lm & Nm & Fm); [lia|lia|lia|].
  exists (candidate base extension m). split; [reflexivity|]. split; [exact Nm|]. split; [intros H; destruct (H D)|].
  split; [|intros _; exists base, extension, m; auto].
  intros H. destruct (Ex H) as (a & b & -> & Ha & -> & Hb & Nb). rewrite En at 1. unfold candidate.
  rewrite (getExtension_app a b Nb Ha Hb), !app_assoc. apply getExtension_app; [exact Nb| |exact Hb].
  destruct a; [congruence|discriminate].
Qed.

Lemma freeName_free_witness : freeName [ #"a.txt"; #"a (2).txt"] (#"a.txt") = Some (#"a (3).txt") /\
  exists r, freeName [ #"a.txt"; #"a (2).txt"] (#"a.txt") = Some r /\ r ∉ [ #"a.txt"; #"a (2).txt"].
Proof.
  split; [vm_compute; reflexivity|].
  destruct (freeName_free [ #"a.txt"; #"a (2).txt"] (#"a.txt")) as (r & E & N & _). exists r. split; assumption.
Defined.

(** ** The trash *)

Lemma i64_small (z : Z) : (- 2 ^ 63 <= z < 2 ^ 63)%Z -> i64 z = z.
Proof. intros H. unfold i64, signed. rewrite Z.mod_small by (zpow; lia). zpow. lia. Qed.

Lemma ceilDays_spec (ms n : Z) : (ceilDays ms <= n)%Z <-> (ms <= n * kDayMs)%Z.
Proof.
  unfold ceilDays, kDayMs. split; intros H.
  - pose proof (Z.mul_div_le (- ms) (24 * 60 * 60 * 1000) ltac:(lia)). nia.
  - enough (- n <= (- ms) `div` (24 * 60 * 60 * 1000))%Z by lia. apply Z.div_le_lower_bound; lia.
Qed.

(** Property (functional): the days left of a node in the trash are between 0
    and its lifetime in days, and are 0 exactly when the node is among those
    whose time is over; a node never shows more days than are left. *)
Theorem trash_days_expiry (nodes : list CloudNode) (n : CloudNode) (nowMs lifetimeMs : Z)
  (Hn : n ∈ nodes) (Top : trashTop n = true) (At : (0 < trashedAt n < 2 ^ 61)%Z)
  (Now : (0 <= nowMs < 2 ^ 61)%Z) (Life : (0 < lifetimeMs < 2 ^ 61)%Z) :
  (0 <= trashDaysLeft n nowMs lifetimeMs <= ceilDays lifetimeMs)%Z /\
  (trashDaysLeft n nowMs lifetimeMs = 0%Z <-> n ∈ expiredTrashOf nodes nowMs lifetimeMs) /\
  (forall d, (0 <= d < trashDaysLeft n nowMs lifetimeMs)%Z -> (nowMs + d * kDayMs < trashedAt n + lifetimeMs)%Z).
Proof.
  change (2 ^ 61)%Z with 2305843009213693952%Z in *.
  assert (W : (0 < ceilDays lifetimeMs)%Z) by (pose proof (proj1 (ceilDays_spec lifetimeMs 0)); lia).
  unfold trashDaysLeft. destruct (Z.eqb_spec (trashedAt n) 0) as [E|_]; [lia|].
  rewrite (i64_small (trashedAt n + lifetimeMs)) by lia. rewrite i64_small by lia.
  set (left_ := (trashedAt n + lifetimeMs - nowMs)%Z). split; [lia|]. split.
  - unfold expiredTrashOf. rewrite list_elem_of_In, filter_In, <- list_elem_of_In, Top, i64_small by lia.
    pose proof (ceilDays_spec left_ 0). subst left_. split; intros H0.
    + split; [exact Hn|]. apply andb_true_iff. split; [apply andb_true_iff; split; [reflexivity|lia]|lia].
    + destruct H0 as [_ H0]. apply andb_true_iff in H0 as [_ H0]. lia.
  - intros d Hd. pose proof (ceilDays_spec left_ d). subst left_. lia.
Qed.

Definition trashedB : CloudNode :=
  {| id := #"b"; kind := #"file"; parent := None; name := #"B"; size := 7; mime := []; mtime := 0;
     trashed := true; trashTop := true; trashedAt := 1000; blob := None; thumb := None |}.

Lemma trash_days_expiry_witness :
  trashDaysLeft trashedB 1000 kTrashLifetimeMs = 30%Z /\ trashDaysLeft trashedB (1001 + kTrashLifetimeMs) kTrashLifetimeMs = 0%Z /\
  trashedB ∈ expiredTrashOf [trashedB] (1001 + kTrashLifetimeMs) kTrashLifetimeMs.
Proof.
  split; [reflexivity|]. split; [reflexivity|].
  refine (proj1 (proj1 (proj2 (trash_days_expiry [trashedB] trashedB (1001 + kTrashLifetimeMs) kTrashLifetimeMs _ _ _ _ _))) _).
  - left.
  - reflexivity.
  - vm_compute. auto.
  - vm_compute. split; [discriminate|reflexivity].
  - vm_compute. auto.
  - reflexivity.
Defined.

End Cloud.
