(* ===== verification/CloudSort.v ===== *)
(** * CloudSort: the order of names and nodes in the cloud section

    Module [CloudSort] models the comparison of names, the sorting of nodes and
    the search of [src/sections/cloud_model.cpp]. *)

From S2P Require Import Prelude Utf8 Order CloudModel.
From Stdlib Require Import Sorted Permutation.
Import Unicode Cloud.

Module CloudSort.

(** ** The order of names *)

Record CollElem := {
  isNumber : bool;
  digits : u32string;
  klass : Z;
  primary : Z;
  secondary : Z;
  tertiary : Z
}.

Definition baseLetters : list (list Z * Z) := ([
    ([0xE0; 0xE1; 0xE2; 0xE3; 0xE4; 0xE5; 0x101; 0x103; 0x105], 0x61);
    ([0xE7; 0x107; 0x10D], 0x63);
    ([0x10F], 0x64);
    ([0xE8; 0xE9; 0xEA; 0xEB; 0x113; 0x119; 0x11B], 0x65);
    ([0xEC; 0xED; 0xEE; 0xEF; 0x12B], 0x69);
    ([0xF1; 0x144; 0x148], 0x6E);
    ([0xF2; 0xF3; 0xF4; 0xF5; 0xF6; 0x14D; 0x151], 0x6F);
    ([0x159], 0x72);
    ([0x15B; 0x161; 0x15F], 0x73);
    ([0x165; 0x163], 0x74);
    ([0xF9; 0xFA; 0xFB; 0xFC; 0x16B; 0x16F; 0x171], 0x75);
    ([0xFD; 0xFF], 0x79);
    ([0x17A; 0x17C; 0x17E], 0x7A);
    ([0x451], 0x435);
    ([0x439], 0x438);
    ([0x457], 0x456);
    ([0x45E], 0x443) ])%Z.

Definition baseLetter (c : Z) : Z :=
  match list_find (fun r => c ∈ r.1) baseLetters with
  | Some (_, r) => r.2
  | None => c
  end.

Definition isDigit32 (c : Z) : bool := ((0x30 <=? c) && (c <=? 0x39))%Z.

Fixpoint spanDigits (cps : u32string) : u32string * u32string :=
  match cps with
  | c :: rest => if isDigit32 c then let '(ds, r) := spanDigits rest in (c :: ds, r) else ([], cps)
  | [] => ([], [])
  end.

(** Leading zeros go, but for the last digit. *)
Fixpoint dropZeros (ds : u32string) : u32string :=
  match ds with
  | c :: rest => match rest with
                 | _ :: _ => if (c =? 0x30)%Z then dropZeros rest else ds
                 | [] => ds
                 end
  | [] => []
  end.

Definition numberElem (ds : u32string) : CollElem :=
  {| isNumber := true; digits := dropZeros ds; klass := 1; primary := 0; secondary := 0; tertiary := 0 |}.

Definition charElem (c : Z) : CollElem :=
  let low := lower c in
  let base := baseLetter low in
  {| isNumber := false; digits := [];
     klass := if isDigit32 c then 1 else if isLetterOrNumber c then 2 else 0;
     primary := base;
     secondary := if (base =? low)%Z then 0 else low;
     tertiary := if (low =? c)%Z then 0 else 1 |}.

Fixpoint collFrom (fuel : nat) (cps : u32string) (numeric : bool) : list CollElem :=
  match fuel with
  | O => []
  | S f =>
      match cps with
      | [] => []
      | c :: rest =>
          if numeric && isDigit32 c then
            let '(ds, r) := spanDigits cps in numberElem ds :: collFrom f r numeric
          else charElem c :: collFrom f rest numeric
      end
  end.

Definition collElems (s : bytes) (numeric : bool) : list CollElem :=
  let cps := decode s in collFrom (length cps) cps numeric.

(** [std::u32string::compare]. *)
Fixpoint compare32 (a b : u32string) : Z :=
  match a, b with
  | [], [] => 0
  | [], _ => -1
  | _, [] => 1
  | x :: a', y :: b' => if (cmp x y =? 0)%Z then compare32 a' b' else cmp x y
  end.

Definition comparePrimary (a b : CollElem) : Z :=
  if negb (klass a =? klass b)%Z then cmp (klass a) (klass b)
  else if isNumber a then
    if negb (length (digits a) =? length (digits b))
    then cmp (Z.of_nat (length (digits a))) (Z.of_nat (length (digits b)))
    else if (compare32 (digits a) (digits b) <? 0)%Z then -1
         else if bool_decide (digits a = digits b) then 0 else 1
  else cmp (primary a) (primary b).

(** [for (i < n) if (r = f(ea[i], eb[i])) return r], and what follows. *)
Fixpoint firstDiff (f : CollElem -> CollElem -> Z) (ea eb : list CollElem) (rest : Z) : Z :=
  match ea, eb with
  | a :: ea', b :: eb' => if (f a b =? 0)%Z then firstDiff f ea' eb' rest else f a b
  | _, _ => rest
  end.

Definition compareNames (a b : bytes) (numeric : bool) : Z :=
  let ea := collElems a numeric in
  let eb := collElems b numeric in
  firstDiff comparePrimary ea eb
    (if negb (length ea =? length eb) then cmp (Z.of_nat (length ea)) (Z.of_nat (length eb))
     else firstDiff (fun x y => cmp (secondary x) (secondary y)) ea eb
            (firstDiff (fun x y => cmp (tertiary x) (tertiary y)) ea eb 0)).

(** The comparator of [sortNodes]; the differences are of [int64_t]. *)
Definition nodeLess (sort : Sort) (a b : CloudNode) : bool :=
  let direction := if isDescending sort then (-1)%Z else 1%Z in
  if negb (bool_decide (kind a = kind b)) then bool_decide (kind a = #"folder")
  else
    let result := match key sort with
                  | ByDate => i64 (mtime a - mtime b)
                  | BySize => i64 (size a - size b)
                  | ByName => 0%Z
                  end in
    let sign := if negb (result =? 0)%Z then (if (result <? 0)%Z then -1 else 1)%Z
                else compareNames (name a) (name b) true in
    (sign * direction <? 0)%Z.

Definition sortNodes (nodes : list CloudNode) (sort : Sort) : list CloudNode := stableSort (nodeLess sort) nodes.

(** [find(needle) != npos] *)
Fixpoint contains (needle s : bytes) : bool :=
  startsWith s needle || match s with [] => false | _ :: s' => contains needle s' end.

Definition searchNodes (nodes : list CloudNode) (query : bytes) : list CloudNode :=
  let needle := toLower (trim query) in
  if bool_decide (needle = []) then []
  else List.filter (fun n => negb (trashed n) && contains needle (toLower (name n))) nodes.

Definition trashOf (nodes : list CloudNode) : list CloudNode :=
  stableSort (fun a b => trashedAt b <? trashedAt a)%Z (List.filter trashTop nodes).

(** ** The comparison is an ordering *)

(** The first level as one key: the class, then the number of digits and the
    digits, or the base letter. *)
Definition primaryKey (e : CollElem) : list Z :=
  klass e :: if isNumber e then Z.of_nat (length (digits e)) :: digits e else [primary e].

(** In the numeric mode the elements of class 1 are the numbers, otherwise
    there are none. *)
Definition numbersAre (numeric : bool) (e : CollElem) : Prop :=
  isNumber e = numeric && (klass e =? 1)%Z.

Lemma collFrom_numbers (numeric : bool) (fuel : nat) : forall cps, Forall (numbersAre numeric) (collFrom fuel cps numeric).
Proof.
  induction fuel as [|fuel IH]; intros cps; cbn [collFrom]; [constructor|].
  destruct cps as [|c rest]; [constructor|]. destruct (numeric && isDigit32 c) eqn:N.
  - apply andb_true_iff in N as [-> _]. destruct (spanDigits (c :: rest)) as [ds r]. constructor; [reflexivity|apply IH].
  - constructor; [|apply IH]. unfold numbersAre, charElem. cbn [isNumber klass].
    destruct numeric; [|reflexivity]. cbn [andb] in N |- *. rewrite N. destruct (isLetterOrNumber c); reflexivity.
Qed.

Lemma compare32_lexList (a : u32string) : forall b, compare32 a b = lexList cmp a b.
Proof.
  induction a as [|x a IH]; intros [|y b]; [reflexivity..|]. cbn [compare32 lexList]. unfold lex. rewrite IH. reflexivity.
Qed.

Lemma lexList_cmp_zero (a : list Z) : forall b, lexList cmp a b = 0%Z <-> a = b.
Proof. apply lexList_zero, cmp_zero. Qed.

Lemma lexList_cmp_range (a : list Z) : forall b, lexList cmp a b = (-1)%Z \/ lexList cmp a b = 0%Z \/ lexList cmp a b = 1%Z.
Proof.
  induction a as [|x a IH]; intros [|y b]; cbn [lexList]; auto. unfold lex. destruct (Z.eqb_spec (cmp x y) 0%Z); [apply IH|].
  rewrite cmp_sign in *. lia.
Qed.

Lemma comparePrimary_key (numeric : bool) (a b : CollElem) : numbersAre numeric a -> numbersAre numeric b ->
  comparePrimary a b = lexList cmp (primaryKey a) (primaryKey b).
Proof.
  unfold numbersAre, comparePrimary, primaryKey. intros Na Nb. cbn [lexList]. unfold lex at 1. rewrite cmp_sign.
  destruct (Z.eqb_spec (klass a) (klass b)) as [E|E]; cbn [negb].
  2: { destruct (Z.eqb_spec (Z.sgn (klass a - klass b)) 0%Z); [lia|]. reflexivity. }
  rewrite E in *. rewrite Z.sub_diag. cbn [Z.sgn Z.eqb]. rewrite Nb, <- Na. destruct (isNumber a); cbn [lexList]; unfold lex.
  - rewrite compare32_lexList, cmp_sign. destruct (Nat.eqb_spec (length (digits a)) (length (digits b))) as [L|L]; cbn [negb].
    + rewrite L, Z.sub_diag. cbn [Z.sgn Z.eqb]. pose proof (lexList_cmp_zero (digits a) (digits b)) as Z0.
      pose proof (lexList_cmp_range (digits a) (digits b)).
      destruct (Z.ltb_spec (lexList cmp (digits a) (digits b)) 0%Z); [lia|].
      case_bool_decide as D; [symmetry; apply Z0; exact D|]. rewrite <- Z0 in D. lia.
    + destruct (Z.eqb_spec (Z.sgn (Z.of_nat (length (digits a)) - Z.of_nat (length (digits b)))) 0%Z); [lia|reflexivity].
  - destruct (Z.eqb_spec (cmp (primary a) (primary b)) 0%Z) as [->|]; reflexivity.
Qed.

Lemma firstDiff_lexList (f : CollElem -> CollElem -> Z) (ea : list CollElem) : forall eb rest,
  firstDiff f ea eb (if negb (length ea =? length eb) then cmp (Z.of_nat (length ea)) (Z.of_nat (length eb)) else rest) =
  lex (lexList f ea eb) rest.
Proof.
  induction ea as [|a ea IH]; intros [|b eb] rest; cbn [firstDiff lexList length]; [reflexivity..|].
  specialize (IH eb rest). unfold lex in IH |- *. cbn [Nat.eqb].
  destruct (Z.eqb_spec (f a b) 0%Z) as [_|E]; [|rewrite (proj2 (Z.eqb_neq _ _) E); reflexivity].
  rewrite <- IH. destruct (length ea =? length eb); [reflexivity|]. cbn [negb]. f_equal. rewrite !cmp_sign. lia.
Qed.

Lemma firstDiff_same (f : CollElem -> CollElem -> Z) (ea eb : list CollElem) (rest : Z) : length ea = length eb ->
  firstDiff f ea eb rest = lex (lexList f ea eb) rest.
Proof. intros L. rewrite <- firstDiff_lexList, (proj2 (Nat.eqb_eq _ _) L). reflexivity. Qed.

Lemma lexList_zero_length {A} (f : A -> A -> Z) (s : list A) : forall t, lexList f s t = 0%Z -> length s = length t.
Proof.
  induction s as [|a s IH]; intros [|b t]; cbn [lexList length]; try discriminate; [reflexivity|].
  unfold lex. destruct (Z.eqb_spec (f a b) 0%Z); [|congruence]. intros E. f_equal. apply IH; exact E.
Qed.

(** The three levels of the comparison, each over the whole names. *)
Definition namesCmp (numeric : bool) (ea eb : list CollElem) : Z :=
  lex (lexList comparePrimary ea eb)
    (lex (lexList (fun x y => cmp (secondary x) (secondary y)) ea eb)
       (lexList (fun x y => cmp (tertiary x) (tertiary y)) ea eb)).

Lemma compareNames_levels (a b : bytes) (numeric : bool) :
  compareNames a b numeric = namesCmp numeric (collElems a numeric) (collElems b numeric).
Proof.
  unfold compareNames, namesCmp. set (ea := collElems a numeric). set (eb := collElems b numeric).
  rewrite firstDiff_lexList. unfold lex at 1 2.
  destruct (Z.eqb_spec (lexList comparePrimary ea eb) 0%Z) as [E|]; [|reflexivity].
  apply lexList_zero_length in E. rewrite firstDiff_same by exact E. f_equal. rewrite firstDiff_same by exact E.
  unfold lex. destruct (Z.eqb_spec (lexList (fun x y => cmp (tertiary x) (tertiary y)) ea eb) 0%Z); congruence.
Qed.

Lemma ordering_names (numeric : bool) : ordering (fun _ => True) (fun a b => compareNames a b numeric).
Proof.
  apply ordering_ext with (c := fun a b => namesCmp numeric (collElems a numeric) (collElems b numeric)).
  { intros a b _ _. apply compareNames_levels. }
  apply ordering_map with (Q := Forall (numbersAre numeric)); [intros a _; apply collFrom_numbers|].
  unfold namesCmp. apply ordering_lex; [|apply ordering_lex].
  - apply ordering_list. apply ordering_ext with (c := fun x y => lexList cmp (primaryKey x) (primaryKey y)).
    + intros x y. apply comparePrimary_key.
    + apply ordering_map with (Q := Forall (fun _ => True)); [|apply ordering_list, ordering_cmp].
      intros e _. apply Forall_true. auto.
  - apply ordering_list, ordering_map with (Q := fun _ => True); [auto|apply ordering_cmp].
  - apply ordering_list, ordering_map with (Q := fun _ => True); [auto|apply ordering_cmp].
Qed.

(** Property (functional): comparing names is antisymmetric and transitive in
    both modes, so it is fit for sorting. *)
Theorem compareNames_order (numeric : bool) (a b d : bytes) :
  compareNames b a numeric = (- compareNames a b numeric)%Z /\ compareNames a a numeric = 0%Z /\
  ((compareNames a b numeric <= 0)%Z -> (compareNames b d numeric <= 0)%Z -> (compareNames a d numeric <= 0)%Z).
Proof.
  pose proof (ordering_names numeric) as O. split; [apply (ord_anti O); exact I|].
  split; [apply (ord_refl _ _ O); exact I|]. apply (ord_trans O); exact I.
Qed.

(** ** Numbers in names *)

Definition num (ds : u32string) : Z := foldl (fun v c => v * 10 + (c - 0x30))%Z 0%Z ds.

Lemma num_app (ds es : u32string) : num (ds ++ es) = (num ds * 10 ^ Z.of_nat (length es) + num es)%Z.
Proof.
  unfold num. rewrite foldl_app. generalize (foldl (fun v c => v * 10 + (c - 0x30))%Z 0%Z ds) as v.
  induction es as [|c es IH] using rev_ind; intros v; [cbn; lia|].
  rewrite !foldl_app. cbn [foldl]. rewrite IH, length_app. cbn [length].
  rewrite Nat2Z.inj_add, Z.pow_add_r by lia. lia.
Qed.

Lemma num_cons (c : Z) (ds : u32string) : num (c :: ds) = ((c - 0x30) * 10 ^ Z.of_nat (length ds) + num ds)%Z.
Proof. change (c :: ds) with ([c] ++ ds). rewrite num_app. reflexivity. Qed.

Lemma isDigit32_range (c : Z) : isDigit32 c = true <-> (0x30 <= c <= 0x39)%Z.
Proof. unfold isDigit32. rewrite andb_true_iff, !Z.leb_le. reflexivity. Qed.

Notation digits32 := (Forall (fun c => isDigit32 c = true)).

Lemma num_range (ds : u32string) : digits32 ds -> (0 <= num ds < 10 ^ Z.of_nat (length ds))%Z.
Proof.
  induction 1 as [|c ds Hc _ IH]; [cbn; lia|]. apply isDigit32_range in Hc.
  rewrite num_cons. cbn [length]. rewrite Nat2Z.inj_succ, Z.pow_succ_r by lia. nia.
Qed.

Lemma dropZeros_num (ds : u32string) : num (dropZeros ds) = num ds.
Proof.
  induction ds as [|c ds IH]; [reflexivity|]. cbn [dropZeros]. destruct ds as [|d ds]; [reflexivity|].
  destruct (Z.eqb_spec c 0x30) as [->|]; [|reflexivity]. rewrite IH, (num_cons 0x30). lia.
Qed.

Lemma dropZeros_digits (ds : u32string) : digits32 ds -> digits32 (dropZeros ds).
Proof.
  induction 1 as [|c ds Hc Hd IH]; [constructor|]. cbn [dropZeros]. destruct ds as [|d ds]; [auto|].
  destruct (c =? 0x30)%Z; [exact IH|auto].
Qed.

(** Without leading zeros the number has its length's size. *)
Lemma dropZeros_size (ds : u32string) : digits32 ds -> ds <> [] ->
  let es := dropZeros ds in
  es <> [] /\ (length es = 1 \/ (10 ^ Z.of_nat (length es - 1) <= num es)%Z).
Proof.
  induction 1 as [|c ds Hc Hd IH]; [congruence|]. intros _. cbn [dropZeros].
  destruct ds as [|d ds]; [split; [discriminate|left; reflexivity]|].
  destruct (Z.eqb_spec c 0x30) as [->|Nc]; [apply IH; discriminate|]. split; [discriminate|right].
  apply isDigit32_range in Hc. rewrite num_cons. pose proof (num_range (d :: ds) Hd).
  cbn [length] in *. replace (S (S (length ds)) - 1) with (S (length ds)) by lia. nia.
Qed.

Lemma lexList_num (ds : u32string) : forall es, digits32 ds -> digits32 es -> length ds = length es ->
  lexList cmp ds es = cmp (num ds) (num es).
Proof.
  induction ds as [|c ds IH]; intros [|d es] Hd He L; try discriminate; [reflexivity|].
  inversion_clear Hd as [|? ? Hc Hd']. inversion_clear He as [|? ? Hc' He']. injection L as L.
  cbn [lexList]. unfold lex. rewrite (IH es Hd' He' L), !num_cons, L, !cmp_sign.
  pose proof (num_range ds Hd'). pose proof (num_range es He'). rewrite L in *.
  set (p := (10 ^ Z.of_nat (length es))%Z) in *.
  destruct (Z.eqb_spec (Z.sgn (c - d)) 0%Z) as [E|E]; [replace c with d by lia; f_equal; ring|].
  destruct (Z.lt_trichotomy c d) as [C|[C|C]]; [|lia|].
  - rewrite !Z.sgn_neg by nia. reflexivity.
  - rewrite !Z.sgn_pos by nia. reflexivity.
Qed.

Lemma compare_numbers (ds es : u32string) : digits32 ds -> digits32 es -> ds <> [] -> es <> [] ->
  comparePrimary (numberElem ds) (numberElem es) = cmp (num ds) (num es).
Proof.
  intros Hd He Nd Ne. rewrite (comparePrimary_key true) by reflexivity.
  unfold primaryKey, numberElem. cbn [isNumber klass digits]. cbn [lexList]. unfold lex. change (cmp 1 1) with 0%Z. cbn [Z.eqb].
  rewrite <- (dropZeros_num ds), <- (dropZeros_num es).
  destruct (dropZeros_size ds Hd Nd) as [N1 S1], (dropZeros_size es He Ne) as [N2 S2].
  pose proof (num_range _ (dropZeros_digits ds Hd)) as R1. pose proof (num_range _ (dropZeros_digits es He)) as R2.
  pose proof (lexList_num _ (dropZeros es) (dropZeros_digits ds Hd) (dropZeros_digits es He)) as Eq.
  revert N1 S1 R1 N2 S2 R2 Eq. generalize (dropZeros ds) as a, (dropZeros es) as b. intros a b N1 S1 R1 N2 S2 R2 Eq.
  rewrite !cmp_sign in *. destruct (Z.eqb_spec (Z.sgn (Z.of_nat (length a) - Z.of_nat (length b))) 0%Z) as [E|E]; [apply Eq; lia|].
  assert (P : forall x y : u32string, x <> [] -> length x < length y -> (num x < 10 ^ Z.of_nat (length x))%Z ->
    length y = 1 \/ (10 ^ Z.of_nat (length y - 1) <= num y)%Z -> (num x < num y)%Z).
  { intros x y Nx L Rx [L1|S]; [destruct x; [congruence|cbn in L; lia]|].
    pose proof (Z.pow_le_mono_r 10 (Z.of_nat (length x)) (Z.of_nat (length y - 1)) ltac:(lia) ltac:(lia)). lia. }
  destruct (Nat.lt_trichotomy (length a) (length b)) as [L|[L|L]]; [|lia|].
  - pose proof (P a b N1 L (proj2 R1) S2). rewrite !Z.sgn_neg by lia. reflexivity.
  - pose proof (P b a N2 L (proj2 R2) S1). rewrite !Z.sgn_pos by lia. reflexivity.
Qed.

Lemma spanDigits_all (ds : u32string) : digits32 ds -> spanDigits ds = (ds, []).
Proof. induction 1 as [|c ds Hc _ IH]; [reflexivity|]. cbn [spanDigits]. rewrite Hc, IH. reflexivity. Qed.

Lemma collFrom_app (p ds : u32string) : forall fuel, Forall (fun c => isDigit32 c = false) p -> digits32 ds -> ds <> [] ->
  length (p ++ ds) <= fuel -> collFrom fuel (p ++ ds) true = (charElem <$> p) ++ [numberElem ds].
Proof.
  induction p as [|c p IH]; intros [|fuel] Hp Hd Nd L.
  - destruct ds; [congruence|cbn in L; lia].
  - cbn [app fmap list_fmap]. destruct ds as [|c ds]; [congruence|]. inversion_clear Hd as [|? ? Hc Hd'].
    cbn [collFrom]. rewrite Hc. cbn [andb]. rewrite spanDigits_all by (constructor; assumption).
    destruct fuel; reflexivity.
  - cbn in L. lia.
  - inversion_clear Hp as [|? ? Hc Hp']. cbn [app collFrom fmap list_fmap]. rewrite Hc. cbn [andb].
    f_equal. apply IH; try assumption. cbn in L. lia.
Qed.

Lemma lexList_app_same {A} (f : A -> A -> Z) (p s t : list A) : (forall a, a ∈ p -> f a a = 0%Z) ->
  lexList f (p ++ s) (p ++ t) = lexList f s t.
Proof.
  induction p as [|a p IH]; intros H; [reflexivity|]. cbn [app lexList]. unfold lex.
  rewrite (H a) by left. cbn [Z.eqb]. apply IH. intros b Hb. apply H. right. exact Hb.
Qed.

Lemma cmp_refl (a : Z) : cmp a a = 0%Z.
Proof. rewrite cmp_sign, Z.sub_diag. reflexivity. Qed.

(** Property (functional): names that differ in the number they end with are in
    the order of these numbers, whatever their length and leading zeros. *)
Theorem compareNames_numbers (p ds es : u32string)
  (Sp : Forall (fun c => scalar c = true) p) (Hp : Forall (fun c => isDigit32 c = false) p)
  (Hd : Forall (fun c => isDigit32 c = true) ds) (He : Forall (fun c => isDigit32 c = true) es)
  (Nd : ds <> []) (Ne : es <> []) :
  compareNames (encode (p ++ ds)) (encode (p ++ es)) true = cmp (num ds) (num es).
Proof.
  assert (Sd : forall u, digits32 u -> Forall (fun c => scalar c = true) u).
  { intros u. apply Forall_impl. intros c Hc%isDigit32_range. apply scalar_spec. lia. }
  assert (Ch : forall e, e ∈ charElem <$> p -> numbersAre true e).
  { intros e (c & -> & Hc)%list_elem_of_fmap. rewrite Forall_elem in Hp. unfold numbersAre, charElem.
    cbn [isNumber klass]. rewrite (Hp c Hc). destruct (isLetterOrNumber c); reflexivity. }
  rewrite compareNames_levels. unfold collElems.
  rewrite !decode_encode, !collFrom_app by (try (apply Forall_app; split); auto). unfold namesCmp.
  rewrite !lexList_app_same by (intros; first [apply cmp_refl
    |rewrite (comparePrimary_key true) by auto; apply lexList_cmp_zero; reflexivity]).
  cbn [lexList]. unfold lex. rewrite compare_numbers by assumption. cbn [numberElem secondary tertiary].
  rewrite !cmp_refl. cbn [Z.eqb]. destruct (Z.eqb_spec (cmp (num ds) (num es)) 0%Z) as [->|N]; [reflexivity|].
  rewrite (proj2 (Z.eqb_neq _ _) N). reflexivity.
Qed.

Lemma compareNames_numbers_witness :
  encode ([0x66; 0x32; 0x66] ++ [0x39])%Z = #"f2f9" /\ compareNames (#"f2f9") (#"f2f010") true = (-1)%Z /\
  compareNames (#"f9") (#"f010") true = (-1)%Z.
Proof.
  split; [reflexivity|]. split; [vm_compute; reflexivity|].
  refine (compareNames_numbers [0x66]%Z [0x39]%Z [0x30; 0x31; 0x30]%Z _ _ _ _ _ _); repeat constructor; discriminate.
Defined.

(** ** Sorting nodes *)

(** Nodes as [from_json] makes them, with times and sizes that are not negative. *)
Definition plain (n : CloudNode) : Prop :=
  (kind n = #"folder" \/ kind n = #"file") /\ (0 <= mtime n < 2 ^ 63)%Z /\ (0 <= size n < 2 ^ 63)%Z.

Definition kindRank (n : CloudNode) : Z := if bool_decide (kind n = #"folder") then 0 else 1.

Definition keyOf (k : SortKey) (n : CloudNode) : Z :=
  match k with ByDate => mtime n | BySize => size n | ByName => 0 end.

Definition contentCmp (k : SortKey) (a b : CloudNode) : Z :=
  lex (cmp (keyOf k a) (keyOf k b)) (compareNames (name a) (name b) true).

Definition nodeCmp (sort : Sort) (a b : CloudNode) : Z :=
  lex (cmp (kindRank a) (kindRank b))
    (if isDescending sort then - contentCmp (key sort) a b else contentCmp (key sort) a b).

Lemma ordering_nodes (sort : Sort) : ordering plain (nodeCmp sort).
Proof.
  unfold nodeCmp. apply ordering_lex; [apply ordering_map with (Q := fun _ => True); [auto|apply ordering_cmp]|].
  assert (O : ordering plain (contentCmp (key sort))).
  { apply ordering_lex.
    - apply (ordering_map plain (keyOf (key sort)) (fun _ => True) cmp); [auto|apply ordering_cmp].
    - apply (ordering_map plain name (fun _ => True) (fun a b => compareNames a b true)); [auto|apply ordering_names]. }
  destruct (isDescending sort); [apply ordering_opp|]; exact O.
Qed.

Lemma kind_decide (n : CloudNode) : plain n ->
  kindRank n = 0%Z /\ kind n = #"folder" \/ kindRank n = 1%Z /\ kind n = #"file".
Proof. unfold kindRank. intros [[E|E] _]; rewrite E; [left|right]; split; reflexivity. Qed.

Lemma nodeLess_cmp (sort : Sort) (a b : CloudNode) : plain a -> plain b -> nodeLess sort a b = (nodeCmp sort a b <? 0)%Z.
Proof.
  intros Pa Pb. unfold nodeLess, nodeCmp. destruct (kind_decide a Pa) as [[-> Ka]|[-> Ka]], (kind_decide b Pb) as [[-> Kb]|[-> Kb]];
    rewrite Ka, Kb; try reflexivity.
  all: rewrite (bool_decide_eq_true_2 (_ = _)) by reflexivity; cbn [negb]; rewrite cmp_refl; unfold lex at 1; cbn [Z.eqb].
  all: destruct Pa as (_ & Ma & Sa), Pb as (_ & Mb & Sb); unfold contentCmp, keyOf; rewrite cmp_sign.
  all: assert (Ed : i64 (mtime a - mtime b) = (mtime a - mtime b)%Z) by (apply i64_small; lia).
  all: assert (Es : i64 (size a - size b) = (size a - size b)%Z) by (apply i64_small; lia).
  all: rewrite Ed, Es; unfold lex; clear.
  all: destruct (key sort), (isDescending sort); rewrite ?Z.sub_diag; cbn [Z.sgn Z.eqb negb]; try lia.
  all: match goal with |- context [negb (?d =? 0)%Z] => generalize d; intros z end.
  all: destruct (Z.eqb_spec z 0), (Z.eqb_spec (Z.sgn z) 0), (Z.ltb_spec z 0); cbn [negb]; lia.
Qed.

(** Property (functional): sorting nodes gives the same nodes, in the order of
    the wanted key and direction, equal ones in the order they had, and the
    folders always before the files. *)
Theorem sortNodes_sorted (nodes : list CloudNode) (sort : Sort) (Pl : Forall plain nodes) :
  Permutation (sortNodes nodes sort) nodes /\
  StronglySorted (fun a b => nodeLess sort b a = false) (sortNodes nodes sort) /\
  (forall n, n ∈ nodes ->
     List.filter (fun a => negb (nodeLess sort n a) && negb (nodeLess sort a n)) (sortNodes nodes sort) =
     List.filter (fun a => negb (nodeLess sort n a) && negb (nodeLess sort a n)) nodes) /\
  exists folders files, sortNodes nodes sort = folders ++ files /\
    Forall (fun n => kind n = #"folder") folders /\ Forall (fun n => kind n = #"file") files.
Proof.
  pose proof (ordering_nodes sort) as O. pose proof (nodeLess_cmp sort) as L.
  assert (Pm : Permutation (sortNodes nodes sort) nodes) by apply stableSort_perm.
  assert (Po : Forall plain (sortNodes nodes sort)) by (rewrite Pm; exact Pl).
  pose proof (stableSort_sorted plain (nodeCmp sort) O (nodeLess sort) L nodes Pl) as S.
  fold (sortNodes nodes sort) in S. split; [exact Pm|]. split; [|split].
  - revert S Po. clear -O L. induction 1 as [|a l _ IH F]; intros Po; constructor; inversion_clear Po as [|? ? Pa Pl]; [auto|].
    rewrite Forall_forall in F, Pl |- *. intros b Hb. rewrite L by auto.
    pose proof (ord_anti O a b Pa (Pl b Hb)). specialize (F b Hb). cbn in F. lia.
  - intros n Hn. assert (Pn : plain n) by (rewrite Forall_elem in Pl; apply Pl; exact Hn).
    assert (E : forall l, Forall plain l -> List.filter (fun a => negb (nodeLess sort n a) && negb (nodeLess sort a n)) l =
      List.filter (fun a => (nodeCmp sort n a =? 0)%Z) l).
    { intros l Hl. apply filter_ext_in. intros a Ha. rewrite Forall_forall in Hl. specialize (Hl a Ha).
      rewrite !L by assumption. pose proof (ord_anti O n a Pn Hl). lia. }
    rewrite !E by assumption. apply (stableSort_stable plain (nodeCmp sort) O (nodeLess sort) L); assumption.
  - revert S Po. clear. induction 1 as [|a l _ IH F]; intros Po; [exists [], []; auto|]. inversion_clear Po as [|? ? Pa Pl].
    destruct (kind_decide a Pa) as [[_ Ka]|[Ra Ka]].
    + destruct (IH Pl) as (fs & gs & -> & Hf & Hg). exists (a :: fs), gs. auto.
    + exists [], (a :: l). split; [reflexivity|]. split; [constructor|]. constructor; [exact Ka|].
      rewrite Forall_forall in F, Pl |- *. intros b Hb. destruct (kind_decide b (Pl b Hb)) as [[Rb _]|[_ Kb]]; [|exact Kb].
      specialize (F b Hb). unfold nodeCmp in F. rewrite Ra, Rb in F. cbn in F. lia.
Qed.

Lemma plain_folderA : plain folderA.
Proof. split; [left; reflexivity|]. split; split; try reflexivity; discriminate. Defined.

Lemma plain_folderB : plain folderB.
Proof. split; [left; reflexivity|]. split; split; try reflexivity; discriminate. Defined.

Lemma sortNodes_sorted_witness :
  sortNodes [folderA; folderB] {| key := BySize; isDescending := true |} = [folderB; folderA] /\
  Permutation (sortNodes [folderA; folderB] {| key := BySize; isDescending := true |}) [folderA; folderB].
Proof.
  split; [vm_compute; reflexivity|].
  refine (proj1 (sortNodes_sorted [folderA; folderB] {| key := BySize; isDescending := true |} _)).
  constructor; [exact plain_folderA|]. constructor; [exact plain_folderB|constructor].
Defined.

Lemma ordering_trashedAt : ordering (fun _ : CloudNode => True) (fun a b => cmp (trashedAt b) (trashedAt a)).
Proof. split; intros *; rewrite !cmp_sign; lia. Qed.

(** Property (functional): the trash has the tops of what was thrown away, the
    latest first, those of the same time in the order they had. *)
Theorem trashOf_latest_first (nodes : list CloudNode) :
  Permutation (trashOf nodes) (List.filter trashTop nodes) /\
  StronglySorted (fun a b => (trashedAt b <= trashedAt a)%Z) (trashOf nodes) /\
  forall t, List.filter (fun n => (trashedAt n =? t)%Z) (trashOf nodes) =
            List.filter (fun n => (trashedAt n =? t)%Z) (List.filter trashTop nodes).
Proof.
  pose proof ordering_trashedAt as O.
  assert (L : forall a b : CloudNode, True -> True -> (trashedAt b <? trashedAt a)%Z = (cmp (trashedAt b) (trashedAt a) <? 0)%Z).
  { intros a b _ _. rewrite cmp_sign. lia. }
  assert (T : Forall (fun _ : CloudNode => True) (List.filter trashTop nodes)) by (apply Forall_true; auto).
  split; [apply stableSort_perm|]. split.
  - pose proof (stableSort_sorted _ _ O _ L _ T) as S. fold (trashOf nodes) in S. clear -S. induction S as [|a l _ IH F]; constructor; [exact IH|].
    revert F. apply Forall_impl. intros b. rewrite cmp_sign. lia.
  - intros t. pose proof (fun z => stableSort_stable _ _ O _ L z _ I T) as S.
    specialize (S {| id := []; kind := []; parent := None; name := []; size := 0; mime := []; mtime := 0;
      trashed := false; trashTop := false; trashedAt := t; blob := None; thumb := None |}). cbn [trashedAt] in S.
    assert (E : forall n : CloudNode, (trashedAt n =? t)%Z = (cmp (trashedAt n) t =? 0)%Z) by (intros n; rewrite cmp_sign; lia).
    rewrite !(filter_ext _ _ E). exact S.
Qed.

End CloudSort.
