(* ===== verification/CloudFiles.v ===== *)
(** * CloudFiles: files of the cloud section

    Module [Files] models the kinds of files, the names of files on disk and
    the preview of texts of [src/sections/cloud_model.cpp]. *)

From S2P Require Import Prelude Utf8 CloudModel.
Import Unicode Cloud.

Module Files.

Definition kLocalNameMaxBytes : nat := 200.
Definition kTypeLabelMaxLength : nat := 8.
Definition kPhotoExtensions : list bytes := [
    #"jpg"; #"jpeg"; #"png"; #"gif"; #"webp"; #"bmp"; #"avif" ].

Definition kVideoExtensions : list bytes := [
    #"mp4"; #"webm"; #"mov"; #"m4v"; #"ogv" ].

Definition kAudioExtensions : list bytes := [
    #"mp3"; #"ogg"; #"oga"; #"opus"; #"m4a"; #"wav"; #"flac"; #"aac" ].

Definition kTextExtensions : list bytes := [
    #"txt"; #"md"; #"markdown"; #"canvas"; #"log"; #"csv"; #"tsv"; #"json"; #"jsonl"; #"ndjson"; #"xml";
    #"svg"; #"yaml"; #"yml"; #"toml"; #"ini"; #"cfg"; #"conf"; #"env"; #"properties"; #"html"; #"htm";
    #"css"; #"scss"; #"less"; #"js"; #"mjs"; #"cjs"; #"jsx"; #"ts"; #"tsx"; #"py"; #"rs"; #"go"; #"java";
    #"kt"; #"kts"; #"c"; #"h"; #"cpp"; #"hpp"; #"cc"; #"cs"; #"rb"; #"php"; #"swift"; #"sh"; #"bash";
    #"zsh"; #"fish"; #"bat"; #"ps1"; #"sql"; #"lua"; #"pl"; #"r"; #"tex"; #"srt"; #"vtt"; #"gcode"; #"diff";
    #"patch"; #"lock"; #"gradle"; #"cmake"; #"proto"; #"graphql"; #"vue"; #"svelte"; #"dart" ].

Definition kTextMimes : list bytes := [
    #"application/json"; #"application/xml"; #"application/javascript"; #"application/x-javascript";
    #"application/typescript"; #"application/x-sh"; #"application/x-yaml"; #"application/yaml";
    #"application/toml"; #"application/sql"; #"application/x-ndjson"; #"image/svg+xml" ].

(** The part before the first place of a byte. *)
Fixpoint before (c : byte) (s : bytes) : bytes :=
  match s with
  | [] => []
  | d :: s' => if bool_decide (d = c) then [] else d :: before c s'
  end.

(** ** Files *)

Definition kindOfFile (mime name : bytes) : FileKind :=
  let extension := getExtension name in
  if bool_decide (mime = #"application/pdf") || bool_decide (extension = #"pdf") then Pdf
  else if (if startsWith mime #"image/" && negb (bool_decide (mime = #"image/svg+xml")) then true
           else isIn extension kPhotoExtensions) then Photo
  else if isIn extension kTextExtensions then Text
  else if startsWith mime #"video/" || isIn extension kVideoExtensions then Video
  else if startsWith mime #"audio/" || isIn extension kAudioExtensions then Audio
  else
    let bare := trim (before ";" mime) in
    if startsWith mime #"text/" || isIn bare kTextMimes then Text else Other.

Definition kindByName (extension : bytes) : FileKind :=
  if isIn extension kPhotoExtensions then Photo
  else if isIn extension kVideoExtensions then Video
  else if isIn extension kAudioExtensions then Audio
  else Other.

Definition kindByMime (bare : bytes) : FileKind :=
  if startsWith bare #"image/" && negb (bool_decide (bare = #"image/svg+xml")) then Photo
  else if startsWith bare #"video/" then Video
  else if startsWith bare #"audio/" then Audio
  else Other.

Definition safeToOpenExternally (mime name : bytes) : bool :=
  let byName := kindByName (getExtension name) in
  if bool_decide (byName = Other) then false
  else
    let bare := toLower (trim (before ";" mime)) in
    if bool_decide (bare = []) then true else bool_decide (kindByMime bare = byName).

Definition safeByte (c : byte) : byte :=
  if (b2z c <? 0x20)%Z || (b2z c =? 0x7F)%Z || bool_decide (c = "/"%byte) || bool_decide (c = "\"%byte)
  then "_"%byte else c.

Fixpoint hideDots (s : bytes) : bytes :=
  match s with
  | c :: s' => if bool_decide (c = "."%byte) then "_"%byte :: hideDots s' else s
  | [] => []
  end.

Definition isCont (c : byte) : bool := (Z.land (b2z c) 0xC0 =? 0x80)%Z.
Definition isHigh (c : byte) : bool := negb (Z.land (b2z c) 0x80 =? 0)%Z.

(** [pop_back] of the first byte of a character. *)
Definition popHigh (s : bytes) : bytes :=
  match reverse s with
  | c :: r => if isHigh c then reverse r else s
  | [] => s
  end.

(** The extension of a long name, up to 16 bytes. *)
Definition keptExtension (out : bytes) : bytes :=
  match rfind "." out with
  | Some dot => if length out - dot <=? 17 then drop dot out else []
  | None => []
  end.

Definition safeLocalName (name : bytes) : bytes :=
  let out := hideDots (safeByte <$> name) in
  if forallb (fun c => bool_decide (c = "_"%byte) || bool_decide (c = " "%byte)) out then #"file"
  else if length out <=? kLocalNameMaxBytes then out
  else
    let extension := keptExtension out in
    let stem := take (kLocalNameMaxBytes - length extension) out in
    popHigh (drop_while_end isCont stem) ++ extension.

Definition fileTypeLabel (name : bytes) : bytes :=
  let extension := getExtension name in
  let cps := decode extension in
  if (length cps =? 0) || (kTypeLabelMaxLength <? length cps) then []
  else if forallb (fun c => isLetterOrNumber c || (c =? 0x5F) || (c =? 0x2B) || (c =? 0x2D))%Z cps
       then toUpper extension else [].

(** ** The preview of texts *)

Definition kCp1251High : list Z := ([
    0x0402; 0x0403; 0x201A; 0x0453; 0x201E; 0x2026; 0x2020; 0x2021; 0x20AC; 0x2030; 0x0409; 0x2039; 0x040A; 0x040C;
    0x040B; 0x040F; 0x0452; 0x2018; 0x2019; 0x201C; 0x201D; 0x2022; 0x2013; 0x2014; 0x0098; 0x2122; 0x0459; 0x203A;
    0x045A; 0x045C; 0x045B; 0x045F; 0x00A0; 0x040E; 0x045E; 0x0408; 0x00A4; 0x0490; 0x00A6; 0x00A7; 0x0401; 0x00A9;
    0x0404; 0x00AB; 0x00AC; 0x00AD; 0x00AE; 0x0407; 0x00B0; 0x00B1; 0x0406; 0x0456; 0x0491; 0x00B5; 0x00B6; 0x00B7;
    0x0451; 0x2116; 0x0454; 0x00BB; 0x0458; 0x0405; 0x0455; 0x0457 ])%Z.

Definition unit_ (littleEndian : bool) (a b : byte) : Z :=
  if littleEndian then Z.lor (b2z a) (Z.shiftl (b2z b) 8) else Z.lor (Z.shiftl (b2z a) 8) (b2z b).

Definition isHighSurrogate (w : Z) : bool := ((0xD800 <=? w) && (w <=? 0xDBFF))%Z.
Definition isLowSurrogate (w : Z) : bool := ((0xDC00 <=? w) && (w <=? 0xDFFF))%Z.

(** The text after the byte order mark. *)
Fixpoint utf16From (littleEndian : bool) (s : bytes) : u32string :=
  match s with
  | a :: b :: s' =>
      let w := unit_ littleEndian a b in
      if isHighSurrogate w then
        match s' with
        | c :: d :: s'' =>
            let w2 := unit_ littleEndian c d in
            if isLowSurrogate w2
            then (0x10000 + Z.shiftl (w - 0xD800) 10 + (w2 - 0xDC00))%Z :: utf16From littleEndian s''
            else 0xFFFD%Z :: utf16From littleEndian s'
        | _ => 0xFFFD%Z :: utf16From littleEndian s'
        end
      else if isLowSurrogate w then 0xFFFD%Z :: utf16From littleEndian s'
      else w :: utf16From littleEndian s'
  | [_] => [0xFFFD%Z]
  | [] => []
  end.

Definition decodeUtf16 (s : bytes) (littleEndian : bool) : bytes := encode (utf16From littleEndian (drop 2 s)).

Definition cp1251 (c : byte) : bytes :=
  let b := b2z c in
  if (b <? 0x80)%Z then [c]
  else if (b <? 0xC0)%Z then enc1 (nth (Z.to_nat (b - 0x80)) kCp1251High 0%Z)
  else enc1 (0x0410 + (b - 0xC0)).

Definition decodeTextPreview (s : bytes) : option bytes :=
  let marked := match s with
                | a :: b :: _ =>
                    ((b2z a =? 0xFF) && (b2z b =? 0xFE) || (b2z a =? 0xFE) && (b2z b =? 0xFF))%Z
                | _ => false
                end in
  if marked then Some (decodeUtf16 s (b2z (nth 0 s x00) =? 0xFF)%Z)
  else if bool_decide (x00 ∈ s) then None
  else match strictUtf8 s with
       | Some text =>
           let text := match text with c :: rest => if (c =? 0xFEFF)%Z then rest else text | [] => [] end in
           Some (encode text)
       | None => Some (mjoin (cp1251 <$> s))
       end.

(** ** UTF-8 text byte by byte *)

Lemma isHigh_range (b : byte) : isHigh b = (128 <=? b2z b)%Z.
Proof.
  apply eqb_prop. revert b. apply (byte_forallb (fun b => Bool.eqb (isHigh b) (128 <=? b2z b)%Z)). vm_compute. reflexivity.
Qed.

Lemma isCont_range (b : byte) : isCont b = ((128 <=? b2z b) && (b2z b <? 192))%Z.
Proof.
  apply eqb_prop. revert b.
  apply (byte_forallb (fun b => Bool.eqb (isCont b) ((128 <=? b2z b) && (b2z b <? 192))%Z)). vm_compute. reflexivity.
Qed.

Notation scalars := (Forall (fun c => scalar c = true)).
Notation conts_ := (Forall (fun b => isCont b = true)).

(** A code point is one low byte, or a lead and one to three continuations. *)
Lemma enc1_shape (c : Z) : scalar c = true ->
  ((0 <= c < 0x80)%Z /\ enc1 c = [z2b c]) \/
  ((0x80 <= c)%Z /\ exists h cs, enc1 c = h :: cs /\ (192 <= b2z h < 0xF5)%Z /\ conts_ cs /\ 1 <= length cs <= 3).
Proof.
  intros H. destruct (enc1_bytes c H) as [?|(L & h & cs & E & Hh & Hc & Lc)]; [left; assumption|right].
  split; [exact L|]. exists h, cs. split; [exact E|]. split; [exact Hh|]. split; [|exact Lc].
  revert Hc. apply Forall_impl. intros b Hb. rewrite isCont_range. lia.
Qed.

Lemma popHigh_snoc (s : bytes) (b : byte) : popHigh (s ++ [b]) = if isHigh b then s else s ++ [b].
Proof. unfold popHigh. rewrite reverse_snoc. destruct (isHigh b); [apply reverse_involutive|reflexivity]. Qed.

(** What the shortening leaves of a text cut at any byte. *)
Definition trimCut (s : bytes) : bytes := popHigh (drop_while_end isCont s).

Lemma trimCut_lead (s : bytes) (h : byte) (cs : bytes) : (192 <= b2z h)%Z -> conts_ cs -> trimCut (s ++ h :: cs) = s.
Proof.
  intros Hh Hc. unfold trimCut. change (h :: cs) with ([h] ++ cs). rewrite app_assoc, dwe_app by exact Hc.
  rewrite dwe_stop by (rewrite isCont_range; lia). rewrite popHigh_snoc, isHigh_range.
  rewrite (proj2 (Z.leb_le _ _)) by lia. reflexivity.
Qed.

(** A cut text is whole code points and the beginning of one. *)
Lemma take_encode (cps : u32string) : forall k, scalars cps -> exists whole more p,
  cps = whole ++ more /\ take k (encode cps) = encode whole ++ p /\
  (p = [] \/ exists h cs, p = h :: cs /\ (192 <= b2z h)%Z /\ conts_ cs /\ length cs <= 3).
Proof.
  induction cps as [|c cps IH]; intros k H.
  { exists [], [], []. cbn [encode foldl]. rewrite take_nil. repeat split. left. reflexivity. }
  inversion_clear H as [|? ? Hc H']. rewrite encode_cons.
  destruct (le_lt_dec (length (enc1 c)) k) as [L|L].
  - destruct (IH (k - length (enc1 c)) H') as (whole & more & p & -> & E & Hp). exists (c :: whole), more, p.
    split; [reflexivity|]. split; [|exact Hp]. rewrite take_app_ge by exact L. rewrite E, encode_cons, app_assoc. reflexivity.
  - exists [], (c :: cps). rewrite take_app_le by lia. cbn [app encode foldl].
    destruct (enc1_shape c Hc) as [[_ E]|(_ & h & cs & E & Hh & Hcs & Lcs)]; rewrite E in L |- *.
    + cbn in L. replace k with 0 by lia. exists []. repeat split. left. reflexivity.
    + destruct k as [|k]; [exists []; repeat split; left; reflexivity|]. exists (h :: take k cs). repeat split. right.
      exists h, (take k cs). split; [reflexivity|]. split; [lia|]. split; [apply Forall_take; exact Hcs|rewrite length_take; lia].
Qed.

(** So the shortening ends at a boundary and takes at most four bytes. *)
Lemma trimCut_encode (cps : u32string) (k : nat) : scalars cps ->
  exists whole more, cps = whole ++ more /\ trimCut (take k (encode cps)) = encode whole /\
    length (take k (encode cps)) <= length (encode whole) + 4.
Proof.
  intros H. destruct (take_encode cps k H) as (whole & more & p & -> & -> & [->|(h & cs & -> & Hh & Hc & Lc)]).
  2: { exists whole, more. split; [reflexivity|]. split; [apply trimCut_lead; assumption|]. rewrite length_app. cbn. lia. }
  rewrite app_nil_r. apply Forall_app in H as [H _].
  destruct whole as [|c whole _] using rev_ind; [exists [], more; repeat split; cbn; lia|].
  apply Forall_app in H as [_ Hc]. inversion_clear Hc as [|? ? Hc' _]. rewrite encode_app.
  change (encode [c]) with (append [] c). unfold append. cbn [app].
  destruct (enc1_shape c Hc') as [[Lc E]|(_ & h & cs & E & Hh & Hcs & Lcs)]; rewrite E.
  - exists (whole ++ [c]), more. split; [reflexivity|]. rewrite encode_app. change (encode [c]) with (enc1 c). rewrite E.
    assert (B : b2z (z2b c) = c) by (apply b2z_z2b_small; lia). unfold trimCut.
    rewrite dwe_stop by (rewrite isCont_range, B; lia). rewrite popHigh_snoc, isHigh_range, B, (proj2 (Z.leb_gt _ _)) by lia.
    split; [reflexivity|lia].
  - exists whole, (c :: more). rewrite <- app_assoc. split; [reflexivity|]. split; [apply trimCut_lead; [lia|exact Hcs]|].
    rewrite length_app. cbn. lia.
Qed.

(** An ASCII byte in a text is a code point. *)
Lemma ascii_split (b : byte) (cps : u32string) : forall s t, scalars cps -> (b2z b < 0x80)%Z -> encode cps = s ++ b :: t ->
  exists x y, cps = x ++ b2z b :: y /\ s = encode x /\ t = encode y.
Proof.
  induction cps as [|c cps IH]; intros s t H Lb E; [destruct s; discriminate|].
  inversion_clear H as [|? ? Hc H']. rewrite encode_cons in E.
  assert (K : forall u, u <> [] -> enc1 c = u -> (exists v, s = u ++ v /\ encode cps = v ++ b :: t) \/ (exists v w, u = v ++ b :: w /\ s = v /\ t = w ++ encode cps)).
  { intros u _ Eu. rewrite Eu in E. apply app_eq_app in E as [v [[-> E]|[-> E]]].
    - destruct v as [|x v]; [left; exists []; rewrite !app_nil_r; split; [reflexivity|symmetry; exact E]|].
      injection E as <- ->. right. exists s, v. auto.
    - left. eauto. }
  destruct (enc1_shape c Hc) as [[Lc Ec]|(_ & h & cs & Ec & Hh & Hcs & _)].
  - destruct (K [z2b c] ltac:(discriminate) Ec) as [(v & -> & Ev)|(v & w & Ev & -> & ->)].
    + destruct (IH v t H' Lb Ev) as (x & y & -> & -> & ->). exists (c :: x), y. rewrite encode_cons, Ec. auto.
    + destruct v as [|? [|? v]]; [|discriminate..]. injection Ev as <- <-. exists [], cps.
      rewrite b2z_z2b_small by lia. auto.
  - destruct (K (h :: cs) ltac:(discriminate) Ec) as [(v & -> & Ev)|(v & w & Ev & _ & _)].
    + destruct (IH v t H' Lb Ev) as (x & y & -> & -> & ->). exists (c :: x), y. rewrite encode_cons, Ec. auto.
    + exfalso. assert (Hb : b ∈ h :: cs) by (rewrite Ev; apply elem_of_app; right; left).
      apply elem_of_cons in Hb as [->|Hb]; [lia|]. rewrite Forall_elem in Hcs. specialize (Hcs b Hb).
      rewrite isCont_range in Hcs. lia.
Qed.

(** ** Names on disk *)

Definition safeCp (c : Z) : Z := if ((c <? 0x20) || (c =? 0x7F) || (c =? 0x2F) || (c =? 0x5C))%Z then 0x5F%Z else c.

Lemma safeByte_cp (b : byte) : b2z (safeByte b) = safeCp (b2z b).
Proof.
  apply Z.eqb_eq. revert b. apply (byte_forallb (fun b => b2z (safeByte b) =? safeCp (b2z b))%Z). vm_compute. reflexivity.
Qed.

Lemma safeByte_idem (b : byte) : safeByte (safeByte b) = safeByte b.
Proof.
  apply b2z_inj. rewrite !safeByte_cp. unfold safeCp.
  destruct ((b2z b <? 0x20) || (b2z b =? 0x7F) || (b2z b =? 0x2F) || (b2z b =? 0x5C))%Z eqn:E; [reflexivity|]. rewrite E. reflexivity.
Qed.

Lemma safeByte_high (b : byte) : (0x80 <= b2z b)%Z -> safeByte b = b.
Proof. intros H. apply b2z_inj. rewrite safeByte_cp. unfold safeCp. destruct (_ || _) eqn:E; [lia|reflexivity]. Qed.

Lemma encode_safe (cps : u32string) : scalars cps ->
  safeByte <$> encode cps = encode (safeCp <$> cps) /\ scalars (safeCp <$> cps).
Proof.
  induction 1 as [|c cps Hc _ [IH IS]]; [split; [reflexivity|constructor]|].
  rewrite fmap_cons, !encode_cons, fmap_app, IH. split.
  - f_equal. destruct (enc1_shape c Hc) as [[Lc ->]|(Lc & h & cs & E & Hh & Hcs & _)].
    + cbn [fmap list_fmap]. assert (R : (0 <= safeCp c < 0x80)%Z) by (unfold safeCp; destruct (_ || _); lia).
      unfold enc1. rewrite (proj2 (Z.ltb_lt _ _)) by lia. f_equal. apply b2z_inj.
      rewrite safeByte_cp, !b2z_z2b_small by lia. reflexivity.
    + assert (safeCp c = c) as -> by (unfold safeCp; destruct (_ || _) eqn:?; [lia|reflexivity]). rewrite E. cbn [fmap list_fmap].
      rewrite safeByte_high by lia. f_equal. clear E. induction Hcs as [|b cs Hb _ IHc]; [reflexivity|].
      cbn [fmap list_fmap]. rewrite IHc, safeByte_high by (rewrite isCont_range in Hb; lia). reflexivity.
  - constructor; [|exact IS]. unfold safeCp. destruct (_ || _); [reflexivity|exact Hc].
Qed.

Lemma encode_hideDots (cps : u32string) : scalars cps -> exists cps', scalars cps' /\ hideDots (encode cps) = encode cps'.
Proof.
  induction 1 as [|c cps Hc H (cps' & S & IH)]; [exists []; split; [constructor|reflexivity]|]. rewrite encode_cons.
  destruct (Z.eq_dec c 0x2E%Z) as [->|N].
  - exists (0x5F%Z :: cps'). split; [constructor; [reflexivity|exact S]|]. rewrite encode_cons, <- IH. reflexivity.
  - exists (c :: cps). split; [constructor; assumption|]. rewrite encode_cons.
    destruct (enc1_shape c Hc) as [[Lc ->]|(_ & h & cs & -> & Hh & _ & _)]; cbn [app hideDots]; rewrite bool_decide_eq_false_2; try reflexivity.
    + intros E. apply (f_equal b2z) in E. rewrite b2z_z2b_small in E by lia. apply N. exact E.
    + intros ->. cbn in Hh. lia.
Qed.

Lemma hideDots_head (s : bytes) : head (hideDots s) <> Some "."%byte.
Proof. destruct s as [|c s]; [discriminate|]. cbn [hideDots]. case_bool_decide; cbn; congruence. Qed.

Lemma hideDots_safe (s : bytes) : Forall (fun b => safeByte b = b) s -> Forall (fun b => safeByte b = b) (hideDots s).
Proof.
  induction 1 as [|c s Hc Hs IH]; [constructor|]. cbn [hideDots]. case_bool_decide; constructor; auto.
Qed.

Lemma trimCut_prefix (s : bytes) : exists t, s = trimCut s ++ t.
Proof.
  assert (D : exists t, s = drop_while_end isCont s ++ t).
  { induction s as [|b s [t IH]] using rev_ind; [exists []; reflexivity|]. destruct (isCont b) eqn:E.
    - exists (t ++ [b]). rewrite dwe_app by (constructor; [exact E|constructor]). rewrite app_assoc, <- IH. reflexivity.
    - exists []. rewrite dwe_stop by exact E. rewrite app_nil_r. reflexivity. }
  destruct D as [t D]. unfold trimCut. revert D. generalize (drop_while_end isCont s). intros u ->.
  revert t. induction u as [|b u _] using rev_ind; intros t.
  - exists t. reflexivity.
  - rewrite popHigh_snoc. destruct (isHigh b); [exists ([b] ++ t); rewrite app_assoc|exists t]; reflexivity.
Qed.

Lemma head_app_ne {A} (s t : list A) : s <> [] -> head (s ++ t) = head s.
Proof. destruct s; [congruence|reflexivity]. Qed.

Lemma keptExtension_spec (out : bytes) : length (keptExtension out) <= 17 /\ exists d, keptExtension out = drop d out /\
  (keptExtension out = [] \/ exists a b, out = a ++ "."%byte :: b /\ keptExtension out = "."%byte :: b).
Proof.
  unfold keptExtension. destruct (rfind "." out) as [dot|] eqn:R.
  2: { split; [cbn; lia|]. exists (length out). rewrite drop_all. auto. }
  apply rfind_inv in R as (a & b & E & <- & _).
  destruct (Nat.leb_spec (length out - length a) 17).
  - split; [rewrite length_drop; lia|]. exists (length a). split; [reflexivity|right]. exists a, b.
    split; [exact E|]. rewrite E, drop_app_length. reflexivity.
  - split; [cbn; lia|]. exists (length out). rewrite drop_all. auto.
Qed.

(** Property (safety): a name on disk has no separators and control characters
    and at most 200 bytes, for any bytes as input; for text it is text again,
    cut between characters, not empty and not hidden. *)
Theorem safeLocalName_safe (name : bytes) :
  length (safeLocalName name) <= kLocalNameMaxBytes /\ Forall (fun b => safeByte b = b) (safeLocalName name) /\
  (forall cps, name = encode cps -> Forall (fun c => scalar c = true) cps ->
     (exists cps', Forall (fun c => scalar c = true) cps' /\ safeLocalName name = encode cps') /\
     safeLocalName name <> [] /\ head (safeLocalName name) <> Some "."%byte).
Proof.
  unfold safeLocalName, kLocalNameMaxBytes. set (out := hideDots (safeByte <$> name)).
  assert (So : Forall (fun b => safeByte b = b) out).
  { apply hideDots_safe, Forall_fmap, Forall_true. intros b. apply safeByte_idem. }
  assert (To : forall cps, name = encode cps -> scalars cps -> exists cps', scalars cps' /\ out = encode cps').
  { intros cps -> Hc. destruct (encode_safe cps Hc) as [E S]. subst out. rewrite E. apply encode_hideDots. exact S. }
  assert (Ho : head out <> Some "."%byte) by apply hideDots_head.
  destruct (forallb _ out) eqn:Blank.
  { split; [cbn; lia|]. split; [repeat constructor|]. intros cps _ _. split; [|split; discriminate].
    exists [0x66; 0x69; 0x6C; 0x65]%Z. split; [repeat constructor|reflexivity]. }
  destruct (Nat.leb_spec (length out) 200) as [L|L].
  { split; [exact L|]. split; [exact So|]. intros cps En Hc. split; [exact (To cps En Hc)|]. split; [|exact Ho].
    intros E. rewrite E in Blank. discriminate. }
  destruct (keptExtension_spec out) as (Lx & d & Ed & Ex). set (extension := keptExtension out) in *.
  fold (trimCut (take (200 - length extension) out)). clearbody extension.
  assert (Lt : length (trimCut (take (200 - length extension) out)) <= 200 - length extension).
  { destruct (trimCut_prefix (take (200 - length extension) out)) as [t E]. apply (f_equal length) in E.
    rewrite length_app, length_take in E. lia. }
  split; [rewrite length_app; lia|]. split.
  { apply Forall_app. split.
    { destruct (trimCut_prefix (take (200 - length extension) out)) as [t E].
      apply (Forall_take _ (200 - length extension)) in So. rewrite E in So. apply Forall_app in So. apply So. }
    rewrite Ed. apply Forall_drop. exact So. }
  intros cps En Hc. destruct (To cps En Hc) as (cps' & Sc & Eo). rewrite Eo.
  destruct (trimCut_encode cps' (200 - length extension) Sc) as (whole & more & Ec & -> & Lw).
  rewrite <- Eo, length_take in Lw.
  assert (Nw : encode whole <> []) by (intros E; rewrite E in Lw; cbn in Lw; lia).
  assert (Sw : scalars whole) by (rewrite Ec in Sc; apply Forall_app in Sc; apply Sc).
  split; [|split; [destruct (encode whole); [congruence|discriminate]|]].
  - destruct Ex as [->|(a & b & Eab & ->)]; [exists whole; rewrite app_nil_r; auto|].
    rewrite Eo in Eab. destruct (ascii_split "." cps' a b Sc ltac:(cbn; lia) Eab) as (x & y & -> & _ & ->).
    apply Forall_app in Sc as [_ Sy]. inversion_clear Sy as [|? ? _ Sy'].
    exists (whole ++ [0x2E]%Z ++ y). split; [repeat (apply Forall_app; split); auto|]. rewrite !encode_app. reflexivity.
  - rewrite head_app_ne by exact Nw. rewrite Eo, Ec, encode_app, head_app_ne in Ho by exact Nw. exact Ho.
Qed.

Lemma safeLocalName_safe_witness :
  safeLocalName (#"../x/y.sh") = #"___x_y.sh" /\ head (safeLocalName (#"../x/y.sh")) <> Some "."%byte.
Proof.
  split; [vm_compute; reflexivity|].
  refine (proj2 (proj2 (proj2 (proj2 (safeLocalName_safe (#"../x/y.sh"))) (decode (#"../x/y.sh")) _ _))).
  - vm_compute. reflexivity.
  - apply (bool_decide_unpack _). vm_compute. exact I.
Defined.

(** Bytes that are not text may leave nothing, or a hidden name. *)
Lemma safeLocalName_not_text :
  safeLocalName (replicate 300 x80) = [] /\ safeLocalName (replicate 300 x80 ++ #".sh") = #".sh".
Proof. split; vm_compute; reflexivity. Qed.

(** ** Kinds of files *)

Lemma startsWith_app (s p : bytes) : startsWith s p = true <-> exists t, s = p ++ t.
Proof.
  unfold startsWith. rewrite bool_decide_eq_true. split.
  - intros E. exists (drop (length p) s). rewrite <- E at 1. symmetry. apply take_drop.
  - intros [t ->]. apply take_app_length.
Qed.

Lemma before_app (c : byte) (p t : bytes) : c ∉ p -> before c (p ++ t) = p ++ before c t.
Proof.
  induction p as [|d p IH]; intros H; [reflexivity|]. apply not_elem_of_cons in H as [H1 H2].
  cbn [app before]. rewrite bool_decide_eq_false_2 by congruence. rewrite (IH H2). reflexivity.
Qed.

Lemma toLower_trim (s : bytes) : toLower (trim s) = encode (lower <$> trim32 (decode s)).
Proof.
  rewrite toLower_encode. unfold trim. rewrite decode_encode; [reflexivity|].
  assert (K : forall l, scalars l -> scalars (drop_while isJsSpace l)).
  { induction 1 as [|c l Hc Hl IH]; [constructor|]. cbn [drop_while]. destruct (isJsSpace c); [exact IH|constructor; assumption]. }
  unfold trim32, drop_while_end. apply Forall_reverse, K, Forall_reverse, K, decode_scalar.
Qed.

(** A class of types stays in front when its rest is trimmed and lowered. *)
Lemma bare_prefix (mime : bytes) (c : Z) (q : u32string) :
  let p := c :: q ++ [0x2F]%Z in
  scalars p -> ";"%byte ∉ encode p -> lower <$> p = p -> isJsSpace c = false ->
  startsWith mime (encode p) = true -> startsWith (toLower (trim (before ";" mime))) (encode p) = true.
Proof.
  intros p Sp Np Lp Hc [t ->]%startsWith_app. rewrite before_app by exact Np. rewrite toLower_trim.
  rewrite decode_encode_app by exact Sp. set (d := decode (before ";" t)).
  unfold trim32. subst p. cbn [app drop_while]. rewrite Hc. rewrite <- app_assoc. cbn [app].
  change (c :: q ++ 0x2F%Z :: d) with ((c :: q) ++ 0x2F%Z :: d).
  destruct (dwe_keep isJsSpace (c :: q) d 0x2F%Z eq_refl) as [u ->].
  apply startsWith_app. exists (encode (lower <$> u)).
  change ((c :: q) ++ 0x2F%Z :: u) with ((c :: q) ++ [0x2F]%Z ++ u). rewrite app_assoc, fmap_app, encode_app.
  change ((c :: q) ++ [0x2F]%Z) with (c :: q ++ [0x2F]%Z). rewrite Lp. reflexivity.
Qed.

Lemma bare_image (mime : bytes) : startsWith mime (#"image/") = true ->
  startsWith (toLower (trim (before ";" mime))) (#"image/") = true.
Proof.
  apply (bare_prefix mime 0x69 [0x6D; 0x61; 0x67; 0x65]%Z); [apply (bool_decide_unpack _); vm_compute; exact I| |reflexivity|reflexivity].
  apply (bool_decide_unpack _). vm_compute. exact I.
Qed.

Lemma bare_video (mime : bytes) : startsWith mime (#"video/") = true ->
  startsWith (toLower (trim (before ";" mime))) (#"video/") = true.
Proof.
  apply (bare_prefix mime 0x76 [0x69; 0x64; 0x65; 0x6F]%Z); [apply (bool_decide_unpack _); vm_compute; exact I| |reflexivity|reflexivity].
  apply (bool_decide_unpack _). vm_compute. exact I.
Qed.

(** The three sets of extensions have no common element, and none with the
    extensions of texts. *)
Definition kinds_of (e : bytes) : list bool :=
  [isIn e kPhotoExtensions; isIn e kVideoExtensions; isIn e kAudioExtensions; isIn e kTextExtensions; bool_decide (e = #"pdf")].

Lemma kinds_apart : forallb (fun e => (length (List.filter (fun b => b) (kinds_of e)) =? 1))
  (kPhotoExtensions ++ kVideoExtensions ++ kAudioExtensions) = true.
Proof. vm_compute. reflexivity. Qed.

Lemma isIn_spec (e : bytes) (l : list bytes) : isIn e l = true <-> e ∈ l.
Proof. apply bool_decide_eq_true. Qed.

Lemma before_none (c : byte) (s : bytes) : c ∉ s -> before c s = s.
Proof. intros H. rewrite <- (app_nil_r s) at 1. rewrite before_app by exact H. apply app_nil_r. Qed.

Lemma kindByMime_image (b : bytes) : startsWith b (#"image/") = true -> kindByMime b = Photo \/ kindByMime b = Other.
Proof.
  intros H. unfold kindByMime. rewrite H. cbn [andb]. case_bool_decide as E; [|left; reflexivity].
  subst b. right. vm_compute. reflexivity.
Qed.

Lemma kindByMime_video (b : bytes) : startsWith b (#"video/") = true -> kindByMime b = Video.
Proof.
  intros H. unfold kindByMime. rewrite H. apply startsWith_app in H as [t ->]. reflexivity.
Qed.

Lemma kinds_one (e : bytes) : e ∈ kPhotoExtensions ++ kVideoExtensions ++ kAudioExtensions ->
  length (List.filter (fun b => b) (kinds_of e)) = 1 /\ e <> [].
Proof.
  intros H. split.
  - apply Nat.eqb_eq. pose proof kinds_apart as K. rewrite forallb_forall in K. apply K, list_elem_of_In, H.
  - intros ->. revert H. apply (bool_decide_unpack (~ _)). vm_compute. exact I.
Qed.

(** A type that agrees with the kind of the extension does not change the kind
    the viewer sees. *)
Lemma kindOfFile_named (mime name : bytes) (k : FileKind) :
  let e := getExtension name in
  let bare := toLower (trim (before ";" mime)) in
  e ∈ kPhotoExtensions ++ kVideoExtensions ++ kAudioExtensions -> kindByName e = k -> k <> Other ->
  bare = [] \/ kindByMime bare = k -> kindOfFile mime name = k /\ e ∉ kTextExtensions.
Proof.
  intros e bare He Hk No Hb. destruct (kinds_one e He) as [One _]. unfold kinds_of in One.
  assert (Bi : startsWith mime (#"image/") = true -> k = Photo).
  { intros H. pose proof (bare_image mime H) as B. fold bare in B. destruct Hb as [E|E]; [rewrite E in B; discriminate|].
    destruct (kindByMime_image bare B); congruence. }
  assert (Bv : startsWith mime (#"video/") = true -> k = Video).
  { intros H. pose proof (bare_video mime H) as B. fold bare in B. destruct Hb as [E|E]; [rewrite E in B; discriminate|].
    rewrite <- E. apply kindByMime_video. exact B. }
  assert (M : mime <> #"application/pdf").
  { intros ->. destruct Hb as [E|E]; vm_compute in E; congruence. }
  unfold kindByName in Hk. unfold kindOfFile. cbv zeta. fold e. rewrite (bool_decide_eq_false_2 _ M). rewrite <- isIn_spec.
  destruct (isIn e kPhotoExtensions), (isIn e kVideoExtensions), (isIn e kAudioExtensions), (isIn e kTextExtensions),
    (bool_decide (e = #"pdf")); try discriminate One; try congruence; subst k; (split; [|discriminate]); cbn [orb].
  - destruct (startsWith mime (#"image/") && _); reflexivity.
  - destruct (startsWith mime (#"image/")); [discriminate (Bi eq_refl)|]. destruct (startsWith mime (#"video/")); reflexivity.
  - destruct (startsWith mime (#"image/")); [discriminate (Bi eq_refl)|].
    destruct (startsWith mime (#"video/")); [discriminate (Bv eq_refl)|]. destruct (startsWith mime (#"audio/")); reflexivity.
Qed.

(** Property (safety): what may be opened by the system has an extension of
    pictures, videos or sounds and none of texts and programs, is a file of
    that kind for the viewer as well, and its type, when there is one, is of
    the same kind. *)
Theorem safeToOpenExternally_kind (mime name : bytes) (S : safeToOpenExternally mime name = true) :
  let e := getExtension name in
  let bare := toLower (trim (before ";" mime)) in
  e ∈ kPhotoExtensions ++ kVideoExtensions ++ kAudioExtensions /\ e ∉ kTextExtensions /\
  kindOfFile mime name = kindByName e /\ (bare = [] \/ kindByMime bare = kindOfFile mime name) /\
  exists a x, name = a ++ "."%byte :: x /\ a <> [] /\ "."%byte ∉ x /\ toLower x = e.
Proof.
  intros e bare. revert S. unfold safeToOpenExternally. cbv zeta. fold e bare.
  case_bool_decide as No; [discriminate|]. intros S.
  assert (Hb : bare = [] \/ kindByMime bare = kindByName e).
  { destruct (bool_decide_reflect (bare = [])); [left; assumption|right]. apply bool_decide_eq_true in S. exact S. }
  assert (He : e ∈ kPhotoExtensions ++ kVideoExtensions ++ kAudioExtensions).
  { unfold kindByName in No. rewrite !elem_of_app, <- !isIn_spec.
    destruct (isIn e kPhotoExtensions), (isIn e kVideoExtensions), (isIn e kAudioExtensions); auto; congruence. }
  destruct (kindOfFile_named mime name _ He eq_refl No Hb) as [E T]. fold e in E. rewrite E.
  repeat split; [exact He|exact T|exact Hb|].
  destruct (nameParts_spec name) as (base & extension & _ & -> & Ex).
  destruct (Ex (proj2 (kinds_one e He))) as (a & b & -> & Ha & -> & Hb' & Nb).
  exists a, b. repeat split; try assumption. symmetry. apply getExtension_app; assumption.
Qed.

Lemma safeToOpenExternally_kind_witness :
  safeToOpenExternally (#"image/png; q=1") (#"x.PNG") = true /\ safeToOpenExternally (#"image/png") (#"x.desktop") = false /\
  kindOfFile (#"image/png; q=1") (#"x.PNG") = Photo.
Proof.
  split; [vm_compute; reflexivity|]. split; [vm_compute; reflexivity|].
  destruct (safeToOpenExternally_kind (#"image/png; q=1") (#"x.PNG")) as (_ & _ & E & _); [vm_compute; reflexivity|].
  rewrite E. vm_compute. reflexivity.
Defined.

(** ** Texts *)

(** UTF-16, for reference. *)
Definition units (c : Z) : list Z :=
  if (c <? 0x10000)%Z then [c]
  else [0xD800 + (c - 0x10000) `div` 0x400; 0xDC00 + (c - 0x10000) `mod` 0x400]%Z.

Definition unitBytes (littleEndian : bool) (w : Z) : bytes :=
  if littleEndian then [z2b w; z2b (w `div` 256)] else [z2b (w `div` 256); z2b w].

Definition utf16 (littleEndian : bool) (cps : u32string) : bytes :=
  mjoin ((fun c => mjoin (unitBytes littleEndian <$> units c)) <$> cps).

Lemma lor_byte (a b : Z) : (0 <= a < 256)%Z -> (0 <= b < 256)%Z -> Z.lor a (Z.shiftl b 8) = (b * 256 + a)%Z.
Proof. intros Ha Hb. rewrite Z.lor_comm, lor_shiftl_add by (zpow; lia). zpow. reflexivity. Qed.

Lemma unit_bytes (le : bool) (w : Z) (s : bytes) : (0 <= w < 0x10000)%Z ->
  exists a b, unitBytes le w ++ s = a :: b :: s /\ unit_ le a b = w.
Proof.
  intros H. unfold unitBytes, unit_. destruct le; eexists _, _; split; try reflexivity.
  all: rewrite !b2z_z2b.
  - rewrite lor_byte by zdiv. zdiv.
  - rewrite Z.lor_comm, lor_byte by zdiv. zdiv.
Qed.

Lemma utf16From_units (le : bool) (c : Z) (s : bytes) : scalar c = true ->
  utf16From le (mjoin (unitBytes le <$> units c) ++ s) = c :: utf16From le s.
Proof.
  intros H%scalar_spec. unfold units. destruct (Z.ltb_spec c 0x10000); cbn [fmap list_fmap mjoin list_join].
  - rewrite app_nil_r. destruct (unit_bytes le c s) as (a & b & -> & E); [lia|]. cbn [utf16From]. rewrite E.
    unfold isHighSurrogate, isLowSurrogate. destruct (_ && _) eqn:E1; [lia|]. destruct (_ && (c <=? 0xDFFF)%Z) eqn:E2; [lia|]. reflexivity.
  - rewrite app_nil_r, <- app_assoc.
    destruct (unit_bytes le (0xDC00 + (c - 0x10000) `mod` 0x400) s) as (a2 & b2 & -> & E2); [zdiv|].
    destruct (unit_bytes le (0xD800 + (c - 0x10000) `div` 0x400) (a2 :: b2 :: s)) as (a & b & -> & E); [zdiv|].
    cbn [utf16From]. rewrite E, E2. unfold isHighSurrogate, isLowSurrogate.
    rewrite !(proj2 (Z.leb_le _ _)) by zdiv. cbn [andb]. f_equal. rewrite Z.shiftl_mul_pow2 by lia. zdiv.
Qed.

Lemma utf16From_utf16 (le : bool) (cps : u32string) : scalars cps -> utf16From le (utf16 le cps) = cps.
Proof.
  induction 1 as [|c cps Hc _ IH]; [reflexivity|].
  change (utf16 le (c :: cps)) with (mjoin (unitBytes le <$> units c) ++ utf16 le cps).
  rewrite utf16From_units by exact Hc. rewrite IH. reflexivity.
Qed.

Lemma unit_range (le : bool) (a b : byte) : (0 <= unit_ le a b < 0x10000)%Z.
Proof.
  pose proof (b2z_range a). pose proof (b2z_range b). unfold unit_.
  destruct le; [|rewrite Z.lor_comm]; rewrite lor_byte by lia; lia.
Qed.

(** Any UTF-16, also with lone surrogates and a last odd byte, gives scalars. *)
Lemma utf16From_scalar (le : bool) : forall s, scalars (utf16From le s).
Proof.
  intros s. remember (length s) as n eqn:E. assert (L : length s <= n) by lia. clear E. revert s L.
  induction n as [|n IH]; intros [|a [|b s]] L; cbn [utf16From length] in *; try lia; try (repeat constructor).
  pose proof (unit_range le a b) as R. destruct (isHighSurrogate (unit_ le a b)) eqn:H.
  - destruct s as [|c [|d s]]; try (constructor; [reflexivity|apply IH; cbn [length] in *; lia]).
    pose proof (unit_range le c d). destruct (isLowSurrogate (unit_ le c d)) eqn:H2;
      (constructor; [|apply IH; cbn [length] in *; lia]); [|reflexivity].
    unfold isHighSurrogate, isLowSurrogate in *. apply scalar_spec. rewrite Z.shiftl_mul_pow2 by lia. zpow. lia.
  - destruct (isLowSurrogate (unit_ le a b)) eqn:H2; (constructor; [|apply IH; cbn [length] in *; lia]); [reflexivity|].
    unfold isHighSurrogate, isLowSurrogate in *. apply scalar_spec. lia.
Qed.

Lemma cp1251_text (c : byte) : exists p, scalar p = true /\ cp1251 c = enc1 p.
Proof.
  assert (K : forall b, match strictUtf8 (cp1251 b) with Some [p] => scalar p && bool_decide (cp1251 b = enc1 p) | _ => false end = true).
  { apply (byte_forallb (fun b => match strictUtf8 (cp1251 b) with Some [p] => scalar p && bool_decide (cp1251 b = enc1 p) | _ => false end)).
    vm_compute. reflexivity. }
  specialize (K c). destruct (strictUtf8 (cp1251 c)) as [[|p [|? ?]]|]; try discriminate.
  apply andb_true_iff in K as [S E%bool_decide_eq_true]. exists p. auto.
Qed.

Lemma cp1251_texts (s : bytes) : exists cps, scalars cps /\ mjoin (cp1251 <$> s) = encode cps.
Proof.
  induction s as [|c s (cps & S & IH)]; [exists []; split; [constructor|reflexivity]|].
  destruct (cp1251_text c) as (p & Sp & Ep). exists (p :: cps). split; [constructor; assumption|].
  cbn [fmap list_fmap mjoin list_join]. rewrite encode_cons, Ep. f_equal. exact IH.
Qed.

Lemma text_unmarked (cps : u32string) (b : byte) : scalars cps -> b ∈ encode cps -> (b2z b < 0xF5)%Z.
Proof.
  induction 1 as [|c cps Hc _ IH]; intros Hb; [inversion Hb|]. rewrite encode_cons in Hb.
  apply elem_of_app in Hb as [Hb|Hb]; [|auto].
  destruct (enc1_shape c Hc) as [[Lc E]|(_ & h & cs & E & Hh & Hcs & _)]; rewrite E in Hb.
  - apply list_elem_of_singleton in Hb as ->. rewrite b2z_z2b_small by lia. lia.
  - apply elem_of_cons in Hb as [->|Hb]; [lia|]. rewrite Forall_elem in Hcs. specialize (Hcs b Hb).
    rewrite isCont_range in Hcs. lia.
Qed.

Lemma text_nul (cps : u32string) : scalars cps -> x00 ∈ encode cps -> 0%Z ∈ cps.
Proof.
  intros S [s [t E]]%list_elem_of_split. destruct (ascii_split x00 cps s t S ltac:(cbn; lia) E) as (x & y & -> & _).
  apply elem_of_app. right. left.
Qed.

Definition bom (littleEndian : bool) : bytes := if littleEndian then [xff; xfe] else [xfe; xff].

(** A text in UTF-8 as it is, without its mark. *)
Definition unmark (cps : u32string) : u32string :=
  match cps with c :: rest => if (c =? 0xFEFF)%Z then rest else cps | [] => [] end.

(** Property (functional): the preview of a text in UTF-8 without a zero is the
    text, without its mark; that of a text in UTF-16 after a mark is the text,
    in either order of bytes. *)
Theorem decodeTextPreview_text (cps : u32string) (S : Forall (fun c => scalar c = true) cps) :
  (0%Z ∉ cps -> decodeTextPreview (encode cps) = Some (encode (unmark cps))) /\
  forall littleEndian, decodeTextPreview (bom littleEndian ++ utf16 littleEndian cps) = Some (encode cps).
Proof.
  split.
  - intros Z0. unfold decodeTextPreview. cbv zeta.
    assert (M : match encode cps with a :: b :: _ => (b2z a =? 0xFF) && (b2z b =? 0xFE) || (b2z a =? 0xFE) && (b2z b =? 0xFF) | _ => false end%Z = false).
    { pose proof (text_unmarked cps) as U. destruct (encode cps) as [|a [|b t]]; try reflexivity.
      pose proof (U a S ltac:(left)). lia. }
    rewrite M, bool_decide_eq_false_2 by (intros H; exact (Z0 (text_nul cps S H))).
    unfold strictUtf8. rewrite strict_loop_encode by (exact S || lia). reflexivity.
  - intros le. unfold decodeTextPreview, decodeUtf16.
    transitivity (Some (encode (utf16From le (utf16 le cps)))); [destruct le; reflexivity|].
    rewrite utf16From_utf16 by exact S. reflexivity.
Qed.

Lemma decodeTextPreview_text_witness :
  decodeTextPreview (#"a b") = Some (#"a b") /\ decodeTextPreview [xff; xfe; x16; x04] = Some [xd0; x96].
Proof.
  split.
  - refine (proj1 (decodeTextPreview_text [0x61; 0x20; 0x62]%Z _) _); [repeat constructor|].
    apply (bool_decide_unpack _). vm_compute. exact I.
  - refine (proj2 (decodeTextPreview_text [0x416]%Z _) true). repeat constructor.
Defined.

(** Property (type): for any bytes the preview is either refused, exactly when
    there is a zero byte and no UTF-16 mark, or it is well-formed UTF-8. *)
Theorem decodeTextPreview_valid (s : bytes) :
  match decodeTextPreview s with
  | Some text => exists cps, text = encode cps /\ strictUtf8 text = Some cps
  | None => x00 ∈ s /\ forall le t, s <> bom le ++ t
  end.
Proof.
  assert (V : forall cps, scalars cps -> exists cps', encode cps = encode cps' /\ strictUtf8 (encode cps) = Some cps').
  { intros cps H. exists cps. split; [reflexivity|]. apply strict_loop_encode; [exact H|lia]. }
  unfold decodeTextPreview. cbv zeta. destruct (match s with a :: b :: _ => _ | _ => false end) eqn:M.
  { apply V, utf16From_scalar. }
  case_bool_decide as Z0.
  { split; [exact Z0|]. intros [|] t ->; discriminate M. }
  destruct (strictUtf8 s) as [text|] eqn:E.
  - apply strict_loop_sound in E as [_ S]; [|lia]. apply (V (unmark text)).
    unfold unmark. destruct S as [|c rest Hc S]; [constructor|]. destruct (c =? 0xFEFF)%Z; [exact S|constructor; assumption].
  - destruct (cp1251_texts s) as (cps & S & ->). apply V, S.
Qed.

End Files.
