(* ===== verification/CloudJson.v ===== *)
(** * CloudJson: nodes of the cloud as JSON

    [from_json] and [to_json] of [src/sections/cloud_model.cpp] over the nodes
    of [CloudModel]. Numbers are read as doubles: an integer is first rounded to
    53 bits ([binary_normalize] of the Standard Library), then cut to
    [int64_t]. *)

From S2P Require Import Prelude Json Poll CloudModel.
Import Cloud.

Module CloudJson.

(** [get<double>()] of a number. *)
Definition toDouble (z : Z) : spec_float := binary_normalize 53 1024 z 0 false.

Definition strField (j : json) (key : bytes) : bytes :=
  match jfind key j with Some (JStr s) => s | _ => [] end.

(** The cast is undefined where the double is out of the range of [int64_t]. *)
Definition numField (j : json) (key : bytes) : result exn Z :=
  match jfind key j with
  | Some (JInt z) | Some (JUnsigned z) => Poll.truncate (toDouble z)
  | Some (JFloat f) => Poll.truncate f
  | _ => Ok 0%Z
  end.

Definition flagField (j : json) (key : bytes) : bool :=
  match jfind key j with Some (JBool b) => b | _ => false end.

Definition notNull (v : option json) : option json :=
  match v with Some JNull => None | _ => v end.

Definition newNode : CloudNode :=
  {| id := []; kind := #"file"; parent := None; name := []; size := 0; mime := []; mtime := 0; trashed := false;
     trashTop := false; trashedAt := 0; blob := None; thumb := None |}.

Definition from_json (j : json) : result exn CloudNode :=
  if negb (is_object j) then Ok newNode
  else
    let! sz := numField j (#"size") in
    let! mt := numField j (#"mtime") in
    let! at_ := numField j (#"trashedAt") in
    Ok {| id := strField j (#"id");
          kind := if bool_decide (strField j (#"kind") = #"folder") then #"folder" else #"file";
          parent := nonEmpty (Some (strField j (#"parent")));
          name := strField j (#"name"); size := sz; mime := strField j (#"mime"); mtime := mt;
          trashed := flagField j (#"trashed"); trashTop := flagField j (#"trashTop"); trashedAt := at_;
          blob := notNull (jfind (#"blob") j); thumb := notNull (jfind (#"thumb") j) |}.

Definition putJson (key : bytes) (v : option json) (j : json) : json :=
  match v with Some x => jset key x j | None => j end.

(** The members that are always there. *)
Definition plainJson (n : CloudNode) : json :=
  jobj [(#"id", JStr (id n)); (#"kind", JStr (kind n)); (#"name", JStr (name n)); (#"size", JInt (size n));
        (#"mime", JStr (mime n)); (#"mtime", JInt (mtime n)); (#"trashed", JBool (trashed n));
        (#"trashTop", JBool (trashTop n)); (#"trashedAt", JInt (trashedAt n))].

Definition to_json (n : CloudNode) : json :=
  putJson (#"thumb") (thumb n) (putJson (#"blob") (blob n) (putJson (#"parent") (JStr <$> parentOf n) (plainJson n))).

Definition fileKindName (k : FileKind) : bytes :=
  match k with
  | Photo => #"photo" | Video => #"video" | Audio => #"audio" | Pdf => #"pdf" | Text => #"text" | Other => #"other"
  end.

Definition nameErrorName (e : NameError) : bytes :=
  match e with Empty => #"empty" | TooLong => #"too-long" | BadChars => #"bad-chars" | Reserved => #"reserved" end.

(** ** A node is read as it was written *)

(** A number that a double has. *)
Definition exact (z : Z) : Prop := Poll.truncate (toDouble z) = Ok z.

Record wellFormed (n : CloudNode) : Prop := {
  wf_kind : kind n = #"file" \/ kind n = #"folder";
  wf_parent : parent n = parentOf n;
  wf_size : exact (size n);
  wf_mtime : exact (mtime n);
  wf_at : exact (trashedAt n);
  wf_blob : blob n <> Some JNull;
  wf_thumb : thumb n <> Some JNull
}.

Lemma jfind_putJson (key k : bytes) (v : option json) (j : json) : is_object j = true ->
  jfind key (putJson k v j) = if bool_decide (key = k) then (match v with Some x => Some x | None => jfind key j end) else jfind key j.
Proof. destruct j; try done. intros _. destruct v as [x|]; cbn [putJson jset jfind]; [by rewrite obj_get_set|by case_bool_decide]. Qed.

Lemma is_object_put (k : bytes) (v : option json) (j : json) : is_object j = true -> is_object (putJson k v j) = true.
Proof. by destruct v, j. Qed.

Lemma notNull_id (v : option json) : v <> Some JNull -> notNull v = v.
Proof. by destruct v as [[]|]. Qed.

(** A member of a written node, by its name. *)
Definition member (n : CloudNode) (key : bytes) : option json :=
  if bool_decide (key = #"thumb") then thumb n
  else if bool_decide (key = #"blob") then blob n
  else if bool_decide (key = #"parent") then JStr <$> parentOf n
  else jfind key (plainJson n).

Lemma to_json_member (n : CloudNode) (key : bytes) : jfind key (to_json n) = member n key.
Proof.
  unfold to_json, member. assert (O : is_object (plainJson n) = true) by done.
  rewrite !jfind_putJson by (repeat apply is_object_put; exact O).
  assert (jfind (#"thumb") (plainJson n) = None /\ jfind (#"blob") (plainJson n) = None /\ jfind (#"parent") (plainJson n) = None)
    as (N1 & N2 & N3) by done.
  repeat case_bool_decide; subst; try done; rewrite ?N1, ?N2, ?N3; try done; by case_match.
Qed.

(** Property (node_reads_back): a node whose numbers are numbers of doubles is
    read back from its JSON form. *)
Theorem node_reads_back (n : CloudNode) : wellFormed n -> from_json (to_json n) = Ok n.
Proof.
  intros [K P S M A B T]. unfold from_json, strField, numField, flagField.
  assert (O : is_object (to_json n) = true) by (unfold to_json; by repeat apply is_object_put).
  rewrite O, !to_json_member. cbn [negb].
  change (member n (#"size")) with (Some (JInt (size n))). change (member n (#"mtime")) with (Some (JInt (mtime n))).
  change (member n (#"trashedAt")) with (Some (JInt (trashedAt n))). change (member n (#"id")) with (Some (JStr (id n))).
  change (member n (#"kind")) with (Some (JStr (kind n))). change (member n (#"parent")) with (JStr <$> parentOf n).
  change (member n (#"name")) with (Some (JStr (name n))). change (member n (#"mime")) with (Some (JStr (mime n))).
  change (member n (#"trashed")) with (Some (JBool (trashed n))). change (member n (#"trashTop")) with (Some (JBool (trashTop n))).
  change (member n (#"blob")) with (blob n). change (member n (#"thumb")) with (thumb n).
  cbv beta iota. rewrite S, M, A, !notNull_id by done. cbn [rbind].
  assert (Ep : nonEmpty (Some (match JStr <$> parentOf n with Some (JStr s) => s | _ => [] end)) = parent n).
  { rewrite P. unfold parentOf. by destruct (parent n) as [[|]|]. }
  assert (Ek : (if bool_decide (kind n = #"folder") then #"folder" else #"file") = kind n) by (case_bool_decide; destruct K; congruence).
  rewrite Ek, Ep. by destruct n.
Qed.

Lemma node_reads_back_witness : from_json (to_json folderA) = Ok folderA.
Proof. apply node_reads_back. split; try (vm_compute; reflexivity); try discriminate. vm_compute. tauto. Defined.

(** Numbers that are not numbers of doubles are rounded when read. *)
Lemma node_rounds : numField (jobj [(#"mtime", JInt (2 ^ 53 + 1))]) (#"mtime") = Ok (2 ^ 53)%Z.
Proof. vm_compute. reflexivity. Qed.

End CloudJson.
