(* ===== verification/CloudOps.v ===== *)
(** * CloudOps: records and operations of the cloud

    The functions of [src/sections/cloud_sync.cpp] outside of its classes: the
    entries of the personal journal, the containers shown, the codes of errors
    for the screen, and the operations that the screen builds (new folder,
    renaming, moving, trash, restoring). *)

From S2P Require Import Prelude Json PlannerUtil DomainSync PlannerJson CloudModel CloudSort CloudJson Host.
Import Base64 Cloud CloudSort.

Module CloudOps.

(** ** Entries of the personal journal *)

Record CloudStateEntry := {
  se_id : bytes;
  se_domain : bytes;
  se_role : bytes;
  se_status : bytes;
  isRemoved : bool;
  se_owner : bytes
}.

#[export] Instance CloudStateEntry_eq_dec : EqDecision CloudStateEntry.
Proof. solve_decision. Defined.

(** The name of an enumerator, or its number as text. *)
Definition enumText (v : json) : result exn bytes :=
  match v with
  | JStr s => Ok s
  | JInt _ | JUnsigned _ | JFloat _ => let! z := PlannerJson.intOf v in Ok (Decimal.to_string z)
  | _ => Ok []
  end.

Definition roleFrom (v : json) : result exn bytes :=
  let! s := enumText v in
  Ok (if bool_decide (s = #"CLOUD_CONTAINER_ROLE_ROOT") || bool_decide (s = #"1") then #"root"
      else if bool_decide (s = #"CLOUD_CONTAINER_ROLE_OWNED") || bool_decide (s = #"2") then #"owned"
      else if bool_decide (s = #"CLOUD_CONTAINER_ROLE_SHARED") || bool_decide (s = #"3") then #"shared"
      else []).

Definition statusFrom (v : json) : result exn bytes :=
  let! s := enumText v in
  Ok (if bool_decide (s = #"CLOUD_SHARE_STATUS_ACCEPTED") || bool_decide (s = #"1") then #"accepted"
      else if bool_decide (s = #"CLOUD_SHARE_STATUS_DECLINED") || bool_decide (s = #"2") then #"declined"
      else []).

(** [j.value(key, json)]. *)
Definition value_json (j : json) (key : bytes) (d : json) : result exn json :=
  match j with
  | JObj m => Ok (match obj_get key m with Some v => v | None => d end)
  | _ => Err TypeError
  end.

Definition parseEntry (c : json) : result exn (option CloudStateEntry) :=
  if negb (is_object c) then Ok None
  else
    let! role := match jfind (#"role") c with Some v => roleFrom v | None => Ok [] end in
    let! ref := value_json c (#"ref") (JObj []) in
    let! i := if is_object ref then value_str ref (#"id") [] else Ok [] in
    match i, role with
    | [], _ | _, [] => Ok None
    | _, _ =>
        let! hex := b64ToHex i in
        let! dom := value_str ref (#"domain") [] in
        let! st := match jfind (#"status") c with Some v => statusFrom v | None => Ok [] end in
        let! removed := value_bool c (#"removed") false in
        let! own := value_str c (#"owner") [] in
        Ok (Some {| se_id := hex; se_domain := dom; se_role := role; se_status := st; isRemoved := removed; se_owner := own |})
    end.

Fixpoint parseEntries (l : list json) : result exn (list CloudStateEntry) :=
  match l with
  | [] => Ok []
  | c :: l => let! e := parseEntry c in
              let! es := parseEntries l in
              Ok (match e with Some e => e :: es | None => es end)
  end.

Definition parseCloudEntries (snapshot : json) : result exn (list CloudStateEntry) :=
  match jfind (#"cloud_containers") snapshot with
  | Some (JArr l) => parseEntries l
  | _ => Ok []
  end.

Definition roleName (role : bytes) : bytes :=
  if bool_decide (role = #"root") then #"CLOUD_CONTAINER_ROLE_ROOT"
  else if bool_decide (role = #"owned") then #"CLOUD_CONTAINER_ROLE_OWNED"
  else if bool_decide (role = #"shared") then #"CLOUD_CONTAINER_ROLE_SHARED"
  else role.

Definition cloudEntryToState (entry : CloudStateEntry) : json :=
  let out := jobj [(#"ref", jobj [(#"domain", JStr (se_domain entry)); (#"id", JStr (hexToB64 (se_id entry)))]);
                   (#"role", JStr (roleName (se_role entry))); (#"removed", JBool (isRemoved entry));
                   (#"owner", JStr (se_owner entry))] in
  if bool_decide (se_status entry = #"accepted") then jset (#"status") (JStr (#"CLOUD_SHARE_STATUS_ACCEPTED")) out
  else if bool_decide (se_status entry = #"declined") then jset (#"status") (JStr (#"CLOUD_SHARE_STATUS_DECLINED")) out
  else out.

(** ** Containers and errors for the screen *)

Record ContainerMember := { user : bytes; member_role : bytes }.
Record CloudContainerInfo := {
  info_id : bytes;
  info_kind : bytes;
  info_role : bytes;
  info_owner : bytes;
  info_name : bytes;
  info_hasKey : bool;
  info_members : list ContainerMember
}.

Definition toJson (info : CloudContainerInfo) : json :=
  let members := JArr ((fun m => jobj [(#"user", JStr (user m)); (#"role", JStr (member_role m))]) <$> info_members info) in
  let out := jobj [(#"id", JStr (info_id info)); (#"kind", JStr (info_kind info)); (#"owner", JStr (info_owner info));
                   (#"name", JStr (info_name info)); (#"hasKey", JBool (info_hasKey info)); (#"members", members)] in
  match info_role info with [] => out | r => jset (#"role") (JStr r) out end.

Definition errorOf (libraryText : exn -> bytes) (e : Thrown) : bytes :=
  let code := match errorCode e with Some c => c | None => errorText libraryText e end in
  let has s := contains s code in
  if bool_decide (code = #"LINK_TOO_MANY") then #"link-too-many"
  else if bool_decide (code = #"LINK_LIMIT") then #"link-limit"
  else if bool_decide (code = #"LINK_DISABLED") then #"link-disabled"
  else if has (#"FieldLimit") then #"too-many"
  else if has (#"LIMIT") then #"no-space"
  else if has (#"FORBIDDEN") || has (#"Forbidden") then #"forbidden"
  else if has (#"NOT_FOUND") || has (#"NotFound") then #"not-found"
  else if has (#"UNAVAILABLE") || has (#"RATE_LIMITED") then #"offline"
  else #"rejected".

Definition canEditContainer (container : option CloudContainerInfo) : bool :=
  match container with
  | None => true
  | Some c => bool_decide (info_role c = #"owner") || bool_decide (info_role c = #"editor")
  end.

Definition trashAcross (containers : list CloudContainerInfo) (trees : gmap bytes (list CloudNode)) : list (bytes * CloudNode) :=
  containers ≫= fun c =>
    if bool_decide (info_kind c = #"invite") || negb (canEditContainer (Some c)) then []
    else match trees !! info_id c with
         | None => []
         | Some tree => (fun n => (info_id c, n)) <$> trashOf tree
         end.

(** ** Operations of the screen *)

Definition putParent (op : json) (parent : option bytes) : json := CloudJson.putJson (#"parent") (JStr <$> parent) op.

Definition createFolderOps (nodes : list CloudNode) (parent : option bytes) (name newId : bytes) : option json :=
  free ← freeName (namesIn nodes parent None) name;
  Some (JArr [putParent (jobj [(#"op", JStr (#"create")); (#"id", JStr newId); (#"kind", JStr (#"folder"));
                               (#"name", JStr free)]) parent]).

Definition moveOp (node name : bytes) (parent : option bytes) : json :=
  putParent (jobj [(#"op", JStr (#"move")); (#"id", JStr node); (#"name", JStr name)]) parent.

Definition renameOps (nodes : list CloudNode) (node : CloudNode) (name : bytes) : option json :=
  if bool_decide (name = Cloud.name node) then Some (JArr [])
  else free ← freeName (namesIn nodes (parentOf node) (Some (id node))) name;
       Some (JArr [moveOp (id node) free (parentOf node)]).

Fixpoint moveLoop (taken : list bytes) (target : option bytes) (moved : list CloudNode) : option (list json) :=
  match moved with
  | [] => Some []
  | n :: moved =>
      if bool_decide (parentOf n = target) then moveLoop taken target moved
      else free ← freeName taken (Cloud.name n);
           ops ← moveLoop (taken ++ [free]) target moved;
           Some (moveOp (id n) free target :: ops)
  end.

Definition moveOps (all moved : list CloudNode) (target : option bytes) : option json :=
  JArr <$> moveLoop (namesIn all target None) target moved.

Definition trashOp (node : bytes) (trashed : bool) (at_ : Z) : json :=
  jobj [(#"op", JStr (#"trash")); (#"id", JStr node); (#"trashed", JBool trashed); (#"at", JInt at_)].

Definition trashOps (nodes : list CloudNode) (at_ : Z) : json := JArr ((fun n => trashOp (id n) true at_) <$> nodes).

(** The folder a node returns to: its own, when that is there and not in the
    trash; the root otherwise. *)
Definition restoredParent (all : list CloudNode) (n : CloudNode) : option bytes :=
  p ← parentOf n;
  x ← List.find (fun x => bool_decide (id x = p)) all;
  if trashed x then None else Some (id x).

Definition restoreOne (n : CloudNode) (parent : option bytes) (free : bytes) : list json :=
  (if bool_decide (free = Cloud.name n) && bool_decide (parent = parentOf n) then [] else [moveOp (id n) free parent])
    ++ [trashOp (id n) false 0].

Fixpoint restoreLoop (all : list CloudNode) (takenByParent : gmap bytes (list bytes)) (nodes : list CloudNode) : option (list json) :=
  match nodes with
  | [] => Some []
  | n :: nodes =>
      let parent := restoredParent all n in
      let key := default [] parent in
      let taken := default (namesIn all parent None) (takenByParent !! key) in
      free ← freeName taken (Cloud.name n);
      ops ← restoreLoop all (<[key := taken ++ [free]]> takenByParent) nodes;
      Some (restoreOne n parent free ++ ops)
  end.

Definition restoreOps (all nodes : list CloudNode) : option json := JArr <$> restoreLoop all ∅ nodes.

Definition purgeOps (nodes : list CloudNode) (at_ : Z) : json :=
  JArr ((fun n => jobj [(#"op", JStr (#"purge")); (#"id", JStr (id n)); (#"at", JInt at_)]) <$> nodes).

(** ** Entries are read as they were written *)

(** What [CloudSync] writes: an identifier of bytes in hex, one of the roles,
    one of the answers or none. *)
Record validEntry (e : CloudStateEntry) : Prop := {
  ve_id : exists bs, bs <> [] /\ se_id e = toHex bs;
  ve_role : se_role e ∈ [ #"root"; #"owned"; #"shared"];
  ve_status : se_status e ∈ [[]; #"accepted"; #"declined"]
}.

Lemma toBase64_nonempty (bs : bytes) : bs <> [] -> toBase64 bs <> [].
Proof. by destruct bs as [|a [|b [|c bs]]]. Qed.

Lemma roleFrom_name (role : bytes) : role ∈ [ #"root"; #"owned"; #"shared"] -> roleFrom (JStr (roleName role)) = Ok role /\ role <> [].
Proof.
  intros H. apply elem_of_cons in H as [->|H]; [by split|]. apply elem_of_cons in H as [->|H]; [by split|].
  apply list_elem_of_singleton in H as ->. by split.
Qed.

(** The members of a written entry. *)
Lemma entry_members (e : CloudStateEntry) : se_status e ∈ [[]; #"accepted"; #"declined"] ->
  let c := cloudEntryToState e in
  is_object c = true /\
  jfind (#"role") c = Some (JStr (roleName (se_role e))) /\
  value_json c (#"ref") (JObj []) = Ok (jobj [(#"domain", JStr (se_domain e)); (#"id", JStr (hexToB64 (se_id e)))]) /\
  match jfind (#"status") c with Some v => statusFrom v | None => Ok [] end = Ok (se_status e) /\
  value_bool c (#"removed") false = Ok (isRemoved e) /\ value_str c (#"owner") [] = Ok (se_owner e).
Proof.
  intros H. unfold cloudEntryToState. apply elem_of_cons in H as [->|H]; [by repeat split|].
  apply elem_of_cons in H as [->|H]; [by repeat split|]. apply list_elem_of_singleton in H as ->. by repeat split.
Qed.

Lemma parseEntry_state (e : CloudStateEntry) : validEntry e -> parseEntry (cloudEntryToState e) = Ok (Some e).
Proof.
  intros [(bs & Nb & I) R S]. destruct (entry_members e S) as (O & Er & Ef & Es & Em & Ew). unfold parseEntry.
  rewrite O, Er, Ef, Es, Em, Ew. cbn [negb]. destruct (roleFrom_name _ R) as [-> Nr]. cbn [rbind is_object jobj].
  change (value_str (jobj [(#"domain", JStr (se_domain e)); (#"id", JStr (hexToB64 (se_id e)))]) (#"id") []) with (Ok (E := exn) (hexToB64 (se_id e))).
  change (value_str (jobj [(#"domain", JStr (se_domain e)); (#"id", JStr (hexToB64 (se_id e)))]) (#"domain") []) with (Ok (E := exn) (se_domain e)).
  cbn [rbind]. pose proof (hex_base64_roundtrip bs) as [Eb Eh]. rewrite I, Eh.
  assert (N : hexToB64 (toHex bs) <> []) by (rewrite Eb; by apply toBase64_nonempty).
  destruct (hexToB64 (toHex bs)) eqn:E1; [done|]. destruct (se_role e) eqn:E2; [done|]. cbn [rbind]. rewrite <- E2, <- I. by destruct e.
Qed.

(** Property (entries_journal): the entries of the cloud in the personal journal
    are read as they were written, in their order. *)
Theorem entries_journal (es : list CloudStateEntry) : Forall validEntry es ->
  parseCloudEntries (jobj [(#"cloud_containers", JArr (cloudEntryToState <$> es))]) = Ok es.
Proof.
  intros V. change (parseEntries (cloudEntryToState <$> es) = Ok es).
  induction V as [|e es He _ IH]; [done|]. cbn [fmap list_fmap parseEntries]. rewrite parseEntry_state by done. cbn [rbind].
  change (list_fmap _ _ cloudEntryToState es) with (cloudEntryToState <$> es). by rewrite IH.
Qed.

Definition sampleEntry : CloudStateEntry :=
  {| se_id := #"00a1ff"; se_domain := #"a.example"; se_role := #"shared"; se_status := #"declined"; isRemoved := true; se_owner := #"x" |}.

Lemma entries_journal_witness : parseCloudEntries (jobj [(#"cloud_containers", JArr (cloudEntryToState <$> [sampleEntry; sampleEntry]))])
  = Ok [sampleEntry; sampleEntry].
Proof.
  apply entries_journal. assert (validEntry sampleEntry).
  { split; [exists (z2b 0 :: z2b 161 :: z2b 255 :: nil); split; [discriminate|vm_compute; reflexivity]|apply (bool_decide_unpack _); vm_compute; exact I..]. }
  apply list.Forall_cons; split; [done|]. apply list.Forall_cons; split; [done|]. by apply list.Forall_nil.
Defined.

(** ** Names stay apart *)

Lemma moveLoop_spec (target : option bytes) (moved : list CloudNode) : forall taken, exists names,
  moveLoop taken target moved =
    Some (zip_with (fun n free => moveOp (id n) free target) (List.filter (fun n => negb (bool_decide (parentOf n = target))) moved) names) /\
  length names = length (List.filter (fun n => negb (bool_decide (parentOf n = target))) moved) /\
  NoDup names /\ Forall (fun free => free ∉ taken) names /\
  forall i n free, List.filter (fun n => negb (bool_decide (parentOf n = target))) moved !! i = Some n -> names !! i = Some free ->
    Cloud.name n ∉ taken ++ take i names -> free = Cloud.name n.
Proof.
  induction moved as [|n moved IH]; intros taken; cbn [moveLoop List.filter].
  { exists []. split_and!; try done. constructor. }
  case_bool_decide as E; cbn [negb]; [apply IH|].
  destruct (freeName_free taken (Cloud.name n)) as (free & -> & Nf & Kf & _). cbn [mbind option_bind].
  destruct (IH (taken ++ [free])) as (names & -> & L & Nd & Fr & Keep). cbn [mbind option_bind].
  exists (free :: names). split; [done|]. split; [cbn; by rewrite L|]. split; [|split].
  - apply list.NoDup_cons. split; [|done]. intros H. rewrite Forall_forall in Fr. specialize (Fr _ (proj1 (list_elem_of_In _ _) H)). set_solver.
  - constructor; [done|]. eapply list.Forall_impl; [exact Fr|]. set_solver.
  - intros [|i] m f Hm Hf Hn; cbn in *.
    + injection Hm as <-. injection Hf as <-. rewrite app_nil_r in Hn. by apply Kf.
    + apply (Keep i m f Hm Hf). intros X. apply Hn. rewrite <- app_assoc in X. exact X.
Qed.

(** Property (moved_names): moving nodes into a folder makes an operation for
    each node that is not there yet, in their order; the new names are distinct
    and none is the name of a living node of the folder; a name that is free is
    kept. *)
Theorem moved_names (all moved : list CloudNode) (target : option bytes) :
  let going := List.filter (fun n => negb (bool_decide (parentOf n = target))) moved in
  exists names, moveOps all moved target = Some (JArr (zip_with (fun n free => moveOp (id n) free target) going names)) /\
    length names = length going /\ NoDup names /\ Forall (fun free => free ∉ namesIn all target None) names /\
    forall i n free, going !! i = Some n -> names !! i = Some free ->
      Cloud.name n ∉ namesIn all target None ++ take i names -> free = Cloud.name n.
Proof.
  cbv zeta. destruct (moveLoop_spec target moved (namesIn all target None)) as (names & E & R). exists names.
  split; [unfold moveOps; by rewrite E|exact R].
Qed.

Lemma restoredParent_nonempty (all : list CloudNode) (n : CloudNode) : restoredParent all n <> Some [].
Proof.
  unfold restoredParent. destruct (parentOf n) as [p|] eqn:P; cbn; [|done]. destruct (List.find _ all) as [x|] eqn:F; cbn; [|done].
  destruct (trashed x); [done|]. apply find_some in F as [_ F]. apply bool_decide_eq_true in F. intros [= E].
  unfold parentOf, nonEmpty in P. destruct (parent n) as [[|]|]; congruence.
Qed.

(** The names taken in a folder, when some nodes were placed. *)
Definition takenIn (all : list CloudNode) (placed : gmap bytes (list bytes)) (p : option bytes) : list bytes :=
  default (namesIn all p None) (placed !! default [] p).

Lemma takenIn_insert (all : list CloudNode) placed (p q : option bytes) (free : bytes) : p <> Some [] -> q <> Some [] ->
  takenIn all (<[default [] p := takenIn all placed p ++ [free]]> placed) q =
    takenIn all placed q ++ (if bool_decide (q = p) then [free] else []).
Proof.
  intros Np Nq. unfold takenIn at 1. case_bool_decide as E.
  - subst q. by rewrite lookup_insert_eq.
  - rewrite lookup_insert_ne, app_nil_r; [done|]. destruct p as [p|], q as [q|]; cbn; congruence.
Qed.

(** Nodes before the [j]th that come to its folder do not get its name. *)
Definition nameLeft (all nodes : list CloudNode) (names : list bytes) (j : nat) (n : CloudNode) : Prop :=
  forall i m, (i < j)%nat -> nodes !! i = Some m -> restoredParent all m = restoredParent all n -> names !! i <> Some (Cloud.name n).

Lemma restoreLoop_spec (all nodes : list CloudNode) : forall placed, exists names,
  restoreLoop all placed nodes = Some (concat (zip_with (fun n free => restoreOne n (restoredParent all n) free) nodes names)) /\
  Forall2 (fun n free => free ∉ takenIn all placed (restoredParent all n)) nodes names /\
  (forall i j n m, (i < j)%nat -> nodes !! i = Some n -> nodes !! j = Some m -> restoredParent all n = restoredParent all m ->
    names !! i <> names !! j) /\
  forall j n free, nodes !! j = Some n -> names !! j = Some free -> Cloud.name n ∉ takenIn all placed (restoredParent all n) ->
    nameLeft all nodes names j n -> free = Cloud.name n.
Proof.
  induction nodes as [|n nodes IH]; intros placed; cbn [restoreLoop]; [by exists []|].
  cbv zeta. set (p := restoredParent all n). assert (Np : p <> Some []) by apply restoredParent_nonempty.
  change (default (namesIn all p None) (placed !! default [] p)) with (takenIn all placed p).
  destruct (freeName_free (takenIn all placed p) (Cloud.name n)) as (free & -> & Nf & Same & _). cbn [mbind option_bind].
  destruct (IH (<[default [] p := takenIn all placed p ++ [free]]> placed)) as (names & -> & Fr & Apart & Kept). cbn [mbind option_bind].
  assert (In : forall m x, x ∈ takenIn all (<[default [] p := takenIn all placed p ++ [free]]> placed) (restoredParent all m) <->
    x ∈ takenIn all placed (restoredParent all m) \/ restoredParent all m = p /\ x = free).
  { intros m x. rewrite takenIn_insert by (done || apply restoredParent_nonempty). rewrite elem_of_app.
    case_bool_decide as E; [rewrite list_elem_of_singleton; tauto|]. rewrite elem_of_nil. tauto. }
  assert (Fr' : Forall2 (fun n0 free0 => free0 ∉ takenIn all placed (restoredParent all n0) /\ (restoredParent all n0 = p -> free0 <> free)) nodes names).
  { revert Fr. apply Forall2_impl. intros m f. rewrite In. tauto. }
  exists (free :: names). split; [done|]. split; [constructor; [done|revert Fr'; apply Forall2_impl; by intros ? ? []]|]. split.
  - intros [|i] [|j] a b L Ha Hb E; simpl in *; try lia.
    + injection Ha as <-. destruct (Forall2_lookup_l _ _ _ _ _ Fr' Hb) as (f & -> & _ & Nf'). intros [= X]. by apply Nf'.
    + apply (Apart i j a b); [lia|done..].
  - intros [|j] m f Hm Hf Nt Left; cbn in Hm, Hf.
    + injection Hm as <-. injection Hf as <-. by apply Same.
    + apply (Kept j m f Hm Hf).
      * rewrite In. intros [X|[E X]]; [by apply Nt|]. apply (Left 0%nat n); [lia|done|by rewrite E|]. cbn. by rewrite X.
      * intros i q L Hq E. apply (Left (S i) q); [lia|done|done].
Qed.

(** Claim C34 (restored_names): restoring takes each node out of the trash, in
    their order, to the folder it was in when that is there and not in the
    trash, and to the root otherwise; a node that is moved or renamed gets a
    move first. No restored name is that of a living node of the folder it
    comes to, and no two restored into one folder have the same name; a name that
    no living node of the folder has, and that was not given to one restored there
    before, is kept. *)
Theorem restored_names (all nodes : list CloudNode) : exists names,
  restoreOps all nodes = Some (JArr (concat (zip_with (fun n free => restoreOne n (restoredParent all n) free) nodes names))) /\
  Forall2 (fun n free => free ∉ namesIn all (restoredParent all n) None) nodes names /\
  (forall i j n m, (i < j)%nat -> nodes !! i = Some n -> nodes !! j = Some m -> restoredParent all n = restoredParent all m ->
    names !! i <> names !! j) /\
  forall j n free, nodes !! j = Some n -> names !! j = Some free -> Cloud.name n ∉ namesIn all (restoredParent all n) None ->
    nameLeft all nodes names j n -> free = Cloud.name n.
Proof.
  destruct (restoreLoop_spec all nodes ∅) as (names & E & R). exists names. split; [unfold restoreOps; by rewrite E|exact R].
Qed.

(** The trash of the containers shown is what may be restored there. *)
Lemma trashAcross_editable (containers : list CloudContainerInfo) trees (c : bytes) (n : CloudNode) :
  (c, n) ∈ trashAcross containers trees <->
  exists info tree, info ∈ containers /\ info_id info = c /\ info_kind info <> #"invite" /\ canEditContainer (Some info) = true /\
    trees !! c = Some tree /\ n ∈ trashOf tree.
Proof.
  unfold trashAcross. rewrite list_elem_of_bind. split.
  - intros (info & H & Hi). destruct (bool_decide_reflect (info_kind info = #"invite")) as [|K]; [by apply elem_of_nil in H|].
    destruct (canEditContainer (Some info)) eqn:C; [|by apply elem_of_nil in H]. cbn [negb orb] in H.
    destruct (trees !! info_id info) as [tree|] eqn:Tr; [|by apply elem_of_nil in H]. apply list_elem_of_fmap in H as (x & [= -> ->] & Hx).
    by exists info, tree.
  - intros (info & tree & Hi & <- & K & C & Tr & Hn). exists info. split; [|done]. rewrite bool_decide_false, C, Tr by done. cbn.
    apply list_elem_of_fmap. by exists n.
Qed.

End CloudOps.
