(* ===== verification/CloudSync.v ===== *)
(** * CloudSync: containers of the cloud, their queues and their upkeep

    Module [CloudSync] models the class of that name in
    [src/sections/cloud_sync.cpp]: the personal drive and shared folders, found
    on the servers and attached; for each a queue of operations, its journal,
    its snapshot, its trash and the blobs of what was erased. It runs over the
    classes of [Host] and its own hooks ([CloudHooks]). A reference to the queue
    of a container that the code holds is the entry of [outboxes_]. Log lines
    are left out; what is asked for them is asked. Arguments of a call are
    evaluated from left to right. The loop that sends a queue gets [turns]. *)

From S2P Require Import Prelude Json PlannerUtil DomainSync PlannerJson Poll CloudModel CloudJson CloudOps Host.
Import Base64 Sync CloudOps.

Module CloudSync.

#[local] Open Scope Z_scope.

Definition kCloudDomain : bytes := #"cloud.v1".
Definition kCloudOutboxRecord : bytes := #"cloud-outbox:".
Definition kCloudGcRecord : bytes := #"cloud-gc".
Definition kCloudRemoteDomainsRecord : bytes := #"cloud-remote-domains".
Definition kCloudOwnBlobsRecord : bytes := #"cloud-own-blobs".
Definition kGcKeep : nat := 2000.
Definition kSyncActiveMs : Z := 8000.
Definition kSyncIdleMs : Z := 60000.
Definition kRetryOfflineMs : Z := 15000.
Definition kSyncPages : nat := 50.
Definition kMaxOpsPerBatch : nat := 400.
Definition kTrashCheckMs : Z := 60 * 60 * 1000.

Record OutboxItem := { opId : bytes; op : bytes }.

#[export] Instance OutboxItem_eq_dec : EqDecision OutboxItem.
Proof. solve_decision. Defined.

Record EngineContainer := {
  ec_id : bytes;
  ec_owner : bytes;
  ec_role : bytes;
  ec_name : bytes;
  ec_hasKey : bool;
  ec_headSeq : Z;
  ec_epoch : Z;
  ec_grantVersion : Z;
  ec_members : list ContainerMember
}.

(** Hooks that are not set are [None]. *)
Class CloudHooks (Env : Type) := {
  h_stateEntries : option (Env -> result Thrown (list CloudStateEntry) * Env);
  h_recordEntry : option (CloudStateEntry -> Env -> result Thrown unit * Env);
  h_deleteBlob : option (bytes -> Env -> result Thrown unit * Env);
  h_refreshPeerLog : option (bytes -> Env -> result Thrown unit * Env);
  h_onChanged : option (Env -> result Thrown unit * Env)
}.

(** [outboxes_], [trashCheckedAt_] and the sets are only asked by key;
    [remoteDomains_] is gone through, in its order. *)
Record CloudSync := mkSync {
  status_ : bytes;
  outboxes_ : gmap bytes (list OutboxItem);
  snapshotTried_ : gset bytes;
  lost_ : gset bytes;
  gcDone_ : option (list bytes);
  ownBlobs_ : option (list bytes);
  gcChecked_ : gset bytes;
  trashCheckedAt_ : gmap bytes Z;
  remoteDomains_ : option (list bytes);
  syncTimer_ : Deadline;
  retryTimer_ : Deadline;
  syncSoon_ : Deadline;
  sendSoon_ : Deadline;
  eventSoon_ : Deadline;
  discoverSoon_ : bool;
  sendQueue_ : list bytes;
  eventQueue_ : list bytes;
  isWanted_ : bool;
  isActive_ : bool;
  isVisible_ : bool;
  isDiscovered_ : bool;
  isDirty_ : bool;
  revision_ : Z;
  ownOnServer_ : option Z;
  ownWithoutEntry_ : Z;
  lastError_ : option bytes
}.

Definition idle : Deadline := {| at_ := None |}.

Definition newSync : CloudSync := {| status_ := #"loading"; outboxes_ := ∅; snapshotTried_ := ∅; lost_ := ∅; gcDone_
  := None; ownBlobs_ := None; gcChecked_ := ∅; trashCheckedAt_ := ∅; remoteDomains_ := None; syncTimer_ := idle;
  retryTimer_ := idle; syncSoon_ := idle; sendSoon_ := idle; eventSoon_ := idle; discoverSoon_ := false; sendQueue_ :=
  []; eventQueue_ := []; isWanted_ := false; isActive_ := false; isVisible_ := true; isDiscovered_ := false; isDirty_
  := false; revision_ := 0; ownOnServer_ := None; ownWithoutEntry_ := 0; lastError_ := None |}.

(** One member changed. *)
Definition set_status_ (v : bytes) (s : CloudSync) : CloudSync := mkSync v (outboxes_ s) (snapshotTried_ s) (lost_ s)
  (gcDone_ s) (ownBlobs_ s) (gcChecked_ s) (trashCheckedAt_ s) (remoteDomains_ s) (syncTimer_ s) (retryTimer_ s)
  (syncSoon_ s) (sendSoon_ s) (eventSoon_ s) (discoverSoon_ s) (sendQueue_ s) (eventQueue_ s) (isWanted_ s) (isActive_
  s) (isVisible_ s) (isDiscovered_ s) (isDirty_ s) (revision_ s) (ownOnServer_ s) (ownWithoutEntry_ s) (lastError_ s).
Definition set_outboxes_ (v : gmap bytes (list OutboxItem)) (s : CloudSync) : CloudSync := mkSync (status_ s) v
  (snapshotTried_ s) (lost_ s) (gcDone_ s) (ownBlobs_ s) (gcChecked_ s) (trashCheckedAt_ s) (remoteDomains_ s)
  (syncTimer_ s) (retryTimer_ s) (syncSoon_ s) (sendSoon_ s) (eventSoon_ s) (discoverSoon_ s) (sendQueue_ s)
  (eventQueue_ s) (isWanted_ s) (isActive_ s) (isVisible_ s) (isDiscovered_ s) (isDirty_ s) (revision_ s)
  (ownOnServer_ s) (ownWithoutEntry_ s) (lastError_ s).
Definition set_snapshotTried_ (v : gset bytes) (s : CloudSync) : CloudSync := mkSync (status_ s) (outboxes_ s) v
  (lost_ s) (gcDone_ s) (ownBlobs_ s) (gcChecked_ s) (trashCheckedAt_ s) (remoteDomains_ s) (syncTimer_ s)
  (retryTimer_ s) (syncSoon_ s) (sendSoon_ s) (eventSoon_ s) (discoverSoon_ s) (sendQueue_ s) (eventQueue_ s)
  (isWanted_ s) (isActive_ s) (isVisible_ s) (isDiscovered_ s) (isDirty_ s) (revision_ s) (ownOnServer_ s)
  (ownWithoutEntry_ s) (lastError_ s).
Definition set_lost_ (v : gset bytes) (s : CloudSync) : CloudSync := mkSync (status_ s) (outboxes_ s) (snapshotTried_
  s) v (gcDone_ s) (ownBlobs_ s) (gcChecked_ s) (trashCheckedAt_ s) (remoteDomains_ s) (syncTimer_ s) (retryTimer_ s)
  (syncSoon_ s) (sendSoon_ s) (eventSoon_ s) (discoverSoon_ s) (sendQueue_ s) (eventQueue_ s) (isWanted_ s) (isActive_
  s) (isVisible_ s) (isDiscovered_ s) (isDirty_ s) (revision_ s) (ownOnServer_ s) (ownWithoutEntry_ s) (lastError_ s).
Definition set_gcDone_ (v : option (list bytes)) (s : CloudSync) : CloudSync := mkSync (status_ s) (outboxes_ s)
  (snapshotTried_ s) (lost_ s) v (ownBlobs_ s) (gcChecked_ s) (trashCheckedAt_ s) (remoteDomains_ s) (syncTimer_ s)
  (retryTimer_ s) (syncSoon_ s) (sendSoon_ s) (eventSoon_ s) (discoverSoon_ s) (sendQueue_ s) (eventQueue_ s)
  (isWanted_ s) (isActive_ s) (isVisible_ s) (isDiscovered_ s) (isDirty_ s) (revision_ s) (ownOnServer_ s)
  (ownWithoutEntry_ s) (lastError_ s).
Definition set_ownBlobs_ (v : option (list bytes)) (s : CloudSync) : CloudSync := mkSync (status_ s) (outboxes_ s)
  (snapshotTried_ s) (lost_ s) (gcDone_ s) v (gcChecked_ s) (trashCheckedAt_ s) (remoteDomains_ s) (syncTimer_ s)
  (retryTimer_ s) (syncSoon_ s) (sendSoon_ s) (eventSoon_ s) (discoverSoon_ s) (sendQueue_ s) (eventQueue_ s)
  (isWanted_ s) (isActive_ s) (isVisible_ s) (isDiscovered_ s) (isDirty_ s) (revision_ s) (ownOnServer_ s)
  (ownWithoutEntry_ s) (lastError_ s).
Definition set_gcChecked_ (v : gset bytes) (s : CloudSync) : CloudSync := mkSync (status_ s) (outboxes_ s)
  (snapshotTried_ s) (lost_ s) (gcDone_ s) (ownBlobs_ s) v (trashCheckedAt_ s) (remoteDomains_ s) (syncTimer_ s)
  (retryTimer_ s) (syncSoon_ s) (sendSoon_ s) (eventSoon_ s) (discoverSoon_ s) (sendQueue_ s) (eventQueue_ s)
  (isWanted_ s) (isActive_ s) (isVisible_ s) (isDiscovered_ s) (isDirty_ s) (revision_ s) (ownOnServer_ s)
  (ownWithoutEntry_ s) (lastError_ s).
Definition set_trashCheckedAt_ (v : gmap bytes Z) (s : CloudSync) : CloudSync := mkSync (status_ s) (outboxes_ s)
  (snapshotTried_ s) (lost_ s) (gcDone_ s) (ownBlobs_ s) (gcChecked_ s) v (remoteDomains_ s) (syncTimer_ s)
  (retryTimer_ s) (syncSoon_ s) (sendSoon_ s) (eventSoon_ s) (discoverSoon_ s) (sendQueue_ s) (eventQueue_ s)
  (isWanted_ s) (isActive_ s) (isVisible_ s) (isDiscovered_ s) (isDirty_ s) (revision_ s) (ownOnServer_ s)
  (ownWithoutEntry_ s) (lastError_ s).
Definition set_remoteDomains_ (v : option (list bytes)) (s : CloudSync) : CloudSync := mkSync (status_ s) (outboxes_
  s) (snapshotTried_ s) (lost_ s) (gcDone_ s) (ownBlobs_ s) (gcChecked_ s) (trashCheckedAt_ s) v (syncTimer_ s)
  (retryTimer_ s) (syncSoon_ s) (sendSoon_ s) (eventSoon_ s) (discoverSoon_ s) (sendQueue_ s) (eventQueue_ s)
  (isWanted_ s) (isActive_ s) (isVisible_ s) (isDiscovered_ s) (isDirty_ s) (revision_ s) (ownOnServer_ s)
  (ownWithoutEntry_ s) (lastError_ s).
Definition set_syncTimer_ (v : Deadline) (s : CloudSync) : CloudSync := mkSync (status_ s) (outboxes_ s)
  (snapshotTried_ s) (lost_ s) (gcDone_ s) (ownBlobs_ s) (gcChecked_ s) (trashCheckedAt_ s) (remoteDomains_ s) v
  (retryTimer_ s) (syncSoon_ s) (sendSoon_ s) (eventSoon_ s) (discoverSoon_ s) (sendQueue_ s) (eventQueue_ s)
  (isWanted_ s) (isActive_ s) (isVisible_ s) (isDiscovered_ s) (isDirty_ s) (revision_ s) (ownOnServer_ s)
  (ownWithoutEntry_ s) (lastError_ s).
Definition set_retryTimer_ (v : Deadline) (s : CloudSync) : CloudSync := mkSync (status_ s) (outboxes_ s)
  (snapshotTried_ s) (lost_ s) (gcDone_ s) (ownBlobs_ s) (gcChecked_ s) (trashCheckedAt_ s) (remoteDomains_ s)
  (syncTimer_ s) v (syncSoon_ s) (sendSoon_ s) (eventSoon_ s) (discoverSoon_ s) (sendQueue_ s) (eventQueue_ s)
  (isWanted_ s) (isActive_ s) (isVisible_ s) (isDiscovered_ s) (isDirty_ s) (revision_ s) (ownOnServer_ s)
  (ownWithoutEntry_ s) (lastError_ s).
Definition set_syncSoon_ (v : Deadline) (s : CloudSync) : CloudSync := mkSync (status_ s) (outboxes_ s)
  (snapshotTried_ s) (lost_ s) (gcDone_ s) (ownBlobs_ s) (gcChecked_ s) (trashCheckedAt_ s) (remoteDomains_ s)
  (syncTimer_ s) (retryTimer_ s) v (sendSoon_ s) (eventSoon_ s) (discoverSoon_ s) (sendQueue_ s) (eventQueue_ s)
  (isWanted_ s) (isActive_ s) (isVisible_ s) (isDiscovered_ s) (isDirty_ s) (revision_ s) (ownOnServer_ s)
  (ownWithoutEntry_ s) (lastError_ s).
Definition set_sendSoon_ (v : Deadline) (s : CloudSync) : CloudSync := mkSync (status_ s) (outboxes_ s)
  (snapshotTried_ s) (lost_ s) (gcDone_ s) (ownBlobs_ s) (gcChecked_ s) (trashCheckedAt_ s) (remoteDomains_ s)
  (syncTimer_ s) (retryTimer_ s) (syncSoon_ s) v (eventSoon_ s) (discoverSoon_ s) (sendQueue_ s) (eventQueue_ s)
  (isWanted_ s) (isActive_ s) (isVisible_ s) (isDiscovered_ s) (isDirty_ s) (revision_ s) (ownOnServer_ s)
  (ownWithoutEntry_ s) (lastError_ s).
Definition set_eventSoon_ (v : Deadline) (s : CloudSync) : CloudSync := mkSync (status_ s) (outboxes_ s)
  (snapshotTried_ s) (lost_ s) (gcDone_ s) (ownBlobs_ s) (gcChecked_ s) (trashCheckedAt_ s) (remoteDomains_ s)
  (syncTimer_ s) (retryTimer_ s) (syncSoon_ s) (sendSoon_ s) v (discoverSoon_ s) (sendQueue_ s) (eventQueue_ s)
  (isWanted_ s) (isActive_ s) (isVisible_ s) (isDiscovered_ s) (isDirty_ s) (revision_ s) (ownOnServer_ s)
  (ownWithoutEntry_ s) (lastError_ s).
Definition set_discoverSoon_ (v : bool) (s : CloudSync) : CloudSync := mkSync (status_ s) (outboxes_ s)
  (snapshotTried_ s) (lost_ s) (gcDone_ s) (ownBlobs_ s) (gcChecked_ s) (trashCheckedAt_ s) (remoteDomains_ s)
  (syncTimer_ s) (retryTimer_ s) (syncSoon_ s) (sendSoon_ s) (eventSoon_ s) v (sendQueue_ s) (eventQueue_ s)
  (isWanted_ s) (isActive_ s) (isVisible_ s) (isDiscovered_ s) (isDirty_ s) (revision_ s) (ownOnServer_ s)
  (ownWithoutEntry_ s) (lastError_ s).
Definition set_sendQueue_ (v : list bytes) (s : CloudSync) : CloudSync := mkSync (status_ s) (outboxes_ s)
  (snapshotTried_ s) (lost_ s) (gcDone_ s) (ownBlobs_ s) (gcChecked_ s) (trashCheckedAt_ s) (remoteDomains_ s)
  (syncTimer_ s) (retryTimer_ s) (syncSoon_ s) (sendSoon_ s) (eventSoon_ s) (discoverSoon_ s) v (eventQueue_ s)
  (isWanted_ s) (isActive_ s) (isVisible_ s) (isDiscovered_ s) (isDirty_ s) (revision_ s) (ownOnServer_ s)
  (ownWithoutEntry_ s) (lastError_ s).
Definition set_eventQueue_ (v : list bytes) (s : CloudSync) : CloudSync := mkSync (status_ s) (outboxes_ s)
  (snapshotTried_ s) (lost_ s) (gcDone_ s) (ownBlobs_ s) (gcChecked_ s) (trashCheckedAt_ s) (remoteDomains_ s)
  (syncTimer_ s) (retryTimer_ s) (syncSoon_ s) (sendSoon_ s) (eventSoon_ s) (discoverSoon_ s) (sendQueue_ s) v
  (isWanted_ s) (isActive_ s) (isVisible_ s) (isDiscovered_ s) (isDirty_ s) (revision_ s) (ownOnServer_ s)
  (ownWithoutEntry_ s) (lastError_ s).
Definition set_isWanted_ (v : bool) (s : CloudSync) : CloudSync := mkSync (status_ s) (outboxes_ s) (snapshotTried_ s)
  (lost_ s) (gcDone_ s) (ownBlobs_ s) (gcChecked_ s) (trashCheckedAt_ s) (remoteDomains_ s) (syncTimer_ s)
  (retryTimer_ s) (syncSoon_ s) (sendSoon_ s) (eventSoon_ s) (discoverSoon_ s) (sendQueue_ s) (eventQueue_ s) v
  (isActive_ s) (isVisible_ s) (isDiscovered_ s) (isDirty_ s) (revision_ s) (ownOnServer_ s) (ownWithoutEntry_ s)
  (lastError_ s).
Definition set_isActive_ (v : bool) (s : CloudSync) : CloudSync := mkSync (status_ s) (outboxes_ s) (snapshotTried_ s)
  (lost_ s) (gcDone_ s) (ownBlobs_ s) (gcChecked_ s) (trashCheckedAt_ s) (remoteDomains_ s) (syncTimer_ s)
  (retryTimer_ s) (syncSoon_ s) (sendSoon_ s) (eventSoon_ s) (discoverSoon_ s) (sendQueue_ s) (eventQueue_ s)
  (isWanted_ s) v (isVisible_ s) (isDiscovered_ s) (isDirty_ s) (revision_ s) (ownOnServer_ s) (ownWithoutEntry_ s)
  (lastError_ s).
Definition set_isVisible_ (v : bool) (s : CloudSync) : CloudSync := mkSync (status_ s) (outboxes_ s) (snapshotTried_
  s) (lost_ s) (gcDone_ s) (ownBlobs_ s) (gcChecked_ s) (trashCheckedAt_ s) (remoteDomains_ s) (syncTimer_ s)
  (retryTimer_ s) (syncSoon_ s) (sendSoon_ s) (eventSoon_ s) (discoverSoon_ s) (sendQueue_ s) (eventQueue_ s)
  (isWanted_ s) (isActive_ s) v (isDiscovered_ s) (isDirty_ s) (revision_ s) (ownOnServer_ s) (ownWithoutEntry_ s)
  (lastError_ s).
Definition set_isDiscovered_ (v : bool) (s : CloudSync) : CloudSync := mkSync (status_ s) (outboxes_ s)
  (snapshotTried_ s) (lost_ s) (gcDone_ s) (ownBlobs_ s) (gcChecked_ s) (trashCheckedAt_ s) (remoteDomains_ s)
  (syncTimer_ s) (retryTimer_ s) (syncSoon_ s) (sendSoon_ s) (eventSoon_ s) (discoverSoon_ s) (sendQueue_ s)
  (eventQueue_ s) (isWanted_ s) (isActive_ s) (isVisible_ s) v (isDirty_ s) (revision_ s) (ownOnServer_ s)
  (ownWithoutEntry_ s) (lastError_ s).
Definition set_isDirty_ (v : bool) (s : CloudSync) : CloudSync := mkSync (status_ s) (outboxes_ s) (snapshotTried_ s)
  (lost_ s) (gcDone_ s) (ownBlobs_ s) (gcChecked_ s) (trashCheckedAt_ s) (remoteDomains_ s) (syncTimer_ s)
  (retryTimer_ s) (syncSoon_ s) (sendSoon_ s) (eventSoon_ s) (discoverSoon_ s) (sendQueue_ s) (eventQueue_ s)
  (isWanted_ s) (isActive_ s) (isVisible_ s) (isDiscovered_ s) v (revision_ s) (ownOnServer_ s) (ownWithoutEntry_ s)
  (lastError_ s).
Definition set_revision_ (v : Z) (s : CloudSync) : CloudSync := mkSync (status_ s) (outboxes_ s) (snapshotTried_ s)
  (lost_ s) (gcDone_ s) (ownBlobs_ s) (gcChecked_ s) (trashCheckedAt_ s) (remoteDomains_ s) (syncTimer_ s)
  (retryTimer_ s) (syncSoon_ s) (sendSoon_ s) (eventSoon_ s) (discoverSoon_ s) (sendQueue_ s) (eventQueue_ s)
  (isWanted_ s) (isActive_ s) (isVisible_ s) (isDiscovered_ s) (isDirty_ s) v (ownOnServer_ s) (ownWithoutEntry_ s)
  (lastError_ s).
Definition set_ownOnServer_ (v : option Z) (s : CloudSync) : CloudSync := mkSync (status_ s) (outboxes_ s)
  (snapshotTried_ s) (lost_ s) (gcDone_ s) (ownBlobs_ s) (gcChecked_ s) (trashCheckedAt_ s) (remoteDomains_ s)
  (syncTimer_ s) (retryTimer_ s) (syncSoon_ s) (sendSoon_ s) (eventSoon_ s) (discoverSoon_ s) (sendQueue_ s)
  (eventQueue_ s) (isWanted_ s) (isActive_ s) (isVisible_ s) (isDiscovered_ s) (isDirty_ s) (revision_ s) v
  (ownWithoutEntry_ s) (lastError_ s).
Definition set_ownWithoutEntry_ (v : Z) (s : CloudSync) : CloudSync := mkSync (status_ s) (outboxes_ s)
  (snapshotTried_ s) (lost_ s) (gcDone_ s) (ownBlobs_ s) (gcChecked_ s) (trashCheckedAt_ s) (remoteDomains_ s)
  (syncTimer_ s) (retryTimer_ s) (syncSoon_ s) (sendSoon_ s) (eventSoon_ s) (discoverSoon_ s) (sendQueue_ s)
  (eventQueue_ s) (isWanted_ s) (isActive_ s) (isVisible_ s) (isDiscovered_ s) (isDirty_ s) (revision_ s)
  (ownOnServer_ s) v (lastError_ s).
Definition set_lastError_ (v : option bytes) (s : CloudSync) : CloudSync := mkSync (status_ s) (outboxes_ s)
  (snapshotTried_ s) (lost_ s) (gcDone_ s) (ownBlobs_ s) (gcChecked_ s) (trashCheckedAt_ s) (remoteDomains_ s)
  (syncTimer_ s) (retryTimer_ s) (syncSoon_ s) (sendSoon_ s) (eventSoon_ s) (discoverSoon_ s) (sendQueue_ s)
  (eventQueue_ s) (isWanted_ s) (isActive_ s) (isVisible_ s) (isDiscovered_ s) (isDirty_ s) (revision_ s)
  (ownOnServer_ s) (ownWithoutEntry_ s) v.

(** ** Values *)

(** [std::tolower] of each byte, in the "C" locale. *)
Definition lowerByte (c : byte) : byte := if (0x41 <=? b2z c) && (b2z c <=? 0x5A) then z2b (b2z c + 32) else c.
Definition lower (s : bytes) : bytes := lowerByte <$> s.

(** [std::set<std::string>::insert]. *)
Fixpoint setInsert (x : bytes) (l : list bytes) : list bytes :=
  match l with
  | [] => [x]
  | y :: l' => if bool_decide (x = y) then l else if blt x y then x :: l else y :: setInsert x l'
  end.

(** The smallest identifier. *)
Definition minOf (ids : list bytes) : option bytes :=
  match ids with
  | [] => None
  | x :: l => Some (foldl (fun best y => if blt y best then y else best) x l)
  end.

Definition is_number (j : json) : bool := match j with JInt _ | JUnsigned _ | JFloat _ => true | _ => false end.

(** [get<std::int64_t>()]. *)
Definition int64Of (j : json) : result exn Z :=
  match j with
  | JInt z => Ok z
  | JUnsigned z => Ok (i64 z)
  | JFloat f => Poll.truncate f
  | _ => Err TypeError
  end.

Definition value_int64 (j : json) (key : bytes) (d : Z) : result exn Z :=
  match j with
  | JObj m => match obj_get key m with Some v => int64Of v | None => Ok d end
  | _ => Err TypeError
  end.

(** [value(key, 0)]: an [int]. *)
Definition value_int (j : json) (key : bytes) (d : Z) : result exn Z :=
  match j with
  | JObj m => match obj_get key m with Some v => PlannerJson.intOf v | None => Ok d end
  | _ => Err TypeError
  end.

Definition memberOf (j : json) : result exn ContainerMember :=
  let! u := value_str j (#"user") [] in
  let! r := value_str j (#"role") [] in
  Ok {| user := u; member_role := r |}.

Definition engineContainer (c : json) : result exn EngineContainer :=
  let! i := value_str c (#"id") [] in
  let! owner := value_str c (#"owner") [] in
  let role := match jfind (#"role") c with Some (JStr s) => s | _ => [] end in
  let! name := value_str c (#"name") [] in
  let! key := value_bool c (#"hasKey") false in
  let! seq := value_int64 c (#"headSeq") 0 in
  let! epoch := value_int64 c (#"epoch") 0 in
  let! version := value_int64 c (#"grantVersion") 0 in
  let! members := match jfind (#"members") c with Some (JArr l) => readAll memberOf l | _ => Ok [] end in
  Ok {| ec_id := i; ec_owner := owner; ec_role := role; ec_name := name; ec_hasKey := key; ec_headSeq := seq;
        ec_epoch := epoch; ec_grantVersion := version; ec_members := members |}.

Definition itemOf (j : json) : result exn OutboxItem :=
  let! i := value_str j (#"opId") [] in
  let! o := value_str j (#"op") [] in
  Ok {| opId := i; op := o |}.
Definition itemJson (item : OutboxItem) : json := jobj [(#"opId", JStr (opId item)); (#"op", JStr (op item))].

(** The strings of an array. *)
Definition strings (l : list json) : list bytes := omap (fun j => match j with JStr s => Some s | _ => None end) l.

Definition nodesOf (tree : json) : result exn (list Cloud.CloudNode) :=
  match jfind (#"nodes") tree with
  | Some (JArr l) => readAll CloudJson.from_json l
  | _ => Ok []
  end.

Definition isUnavailable (e : Thrown) : bool :=
  match errorCode e with
  | Some c => bool_decide (c = #"ERROR_CODE_UNAVAILABLE") || bool_decide (c = #"ERROR_CODE_RATE_LIMITED")
  | None => false
  end.

Definition hasCode (e : Thrown) (code : bytes) : bool := bool_decide (errorCode e = Some code).

(** The last [kGcKeep] of a list. *)
Definition keepLast (l : list bytes) : list bytes := if (kGcKeep <? length l)%nat then drop (length l - kGcKeep) l else l.

Definition entryOf (entries : list CloudStateEntry) (id : bytes) : option CloudStateEntry :=
  List.find (fun e => bool_decide (se_id e = id)) entries.

(** The containers a server lists, with their owners: the last answer counts. *)
Fixpoint putServer (id owner : bytes) (l : list (bytes * bytes)) : list (bytes * bytes) :=
  match l with
  | [] => [(id, owner)]
  | (i, o) :: l' => if bool_decide (i = id) then (i, owner) :: l' else (i, o) :: putServer id owner l'
  end.

Fixpoint readListed (l : list json) (onServer : list (bytes * bytes)) : result exn (list (bytes * bytes)) :=
  match l with
  | [] => Ok onServer
  | c :: l =>
      let! ref := value_json c (#"ref") (JObj []) in
      let! i := if is_object ref then value_str ref (#"id") [] else Ok [] in
      match i with
      | [] => readListed l onServer
      | _ =>
          let! owner := value_json c (#"owner") (JObj []) in
          let! hex := b64ToHex i in
          let! address := if is_object owner then value_str owner (#"address") [] else Ok [] in
          readListed l (putServer hex address onServer)
      end
  end.

Definition addDomain (d : bytes) (l : list bytes) : list bytes := if bool_decide (d ∈ l) then l else l ++ [d].

Section Code.
Context {Env : Type} {T : DomainTransport Env} {Rec : RecordStore Env} {H : CloudHooks Env}.
Context (libraryText : exn -> bytes) (turns : nat).

Notation C := (M CloudSync Env).

(** ** Asking the host *)

Definition engine (name : bytes) (args : json) : C json := lift (t_engine name args).
Definition engineNeeds (name : bytes) (args : json) : C json := lift (t_engineWithNeeds name args).
Definition hasClient : C bool := lift t_hasClient.
Definition isReady : C bool := lift t_isReady.
Definition call (method body dest : bytes) : C bytes := lift (t_request false method body dest).
Definition encode (method : bytes) (value : json) : C bytes := lift (t_encodeMethod method value).
Definition run (reqs : json) : C unit := runRequests reqs.
Definition nowMs : C Z := lift t_nowMs.
Definition self : C bytes := lift t_self.
Definition serverDomain : C bytes := lift t_serverDomain.
Definition persist : C unit := lift t_persist.
Definition noArgs : json := JObj [].
Definition idArg (id : bytes) : json := jobj [(#"id", JStr id)].

(** [runRequest(t_, OutRequest::fromJson(req))]. *)
Definition runReq (req : json) : C bytes := let* r := ofResult (outRequest_fromJson req) in runRequest r.

Definition onChanged : C unit := match h_onChanged with Some f => lift f | None => ret tt end.
Definition recordEntry (entry : CloudStateEntry) : C unit :=
  match h_recordEntry with Some f => lift (f entry) | None => ret tt end.

(** An entry for a container of the own server: the domain is asked only when
    there is somebody to give the entry to. *)
Definition recordOwn (entry : bytes -> CloudStateEntry) : C unit :=
  match h_recordEntry with
  | Some f => let* d := serverDomain in lift (f (entry d))
  | None => ret tt
  end.

Definition deleteBlob (fileId : bytes) : C unit :=
  match h_deleteBlob with Some f => lift (f fileId) | None => ret tt end.

Definition setStatus (next : bytes) : C unit :=
  let* s := gets status_ in
  if bool_decide (s = next) then ret tt else modify (set_status_ next) ;;; onChanged.

Definition domainOf (id : bytes) : C bytes :=
  let* c := hasClient in
  let* fromEngine := if c then let* v := engine (#"cloudDomain") (idArg id) in ret (match v with JStr s => s | _ => [] end)
                     else ret [] in
  match fromEngine with [] => serverDomain | d => ret d end.

Definition refJson (id : bytes) : C json :=
  let* d := domainOf id in ret (jobj [(#"domain", JStr d); (#"id", JStr (hexToB64 id))]).

Definition engineContainers : C (list EngineContainer) :=
  let* c := hasClient in
  if c then
    let* list := engine (#"cloudContainers") noArgs in
    match list with JArr l => ofResult (readAll engineContainer l) | _ => ret [] end
  else ret [].

Definition findEngine (id : bytes) : C (option EngineContainer) :=
  let* l := engineContainers in ret (List.find (fun c => bool_decide (ec_id c = id)) l).

Definition stateEntries : C (list CloudStateEntry) :=
  match h_stateEntries with Some f => lift f | None => ret [] end.
Definition liveEntries : C (list CloudStateEntry) :=
  let* all := stateEntries in ret (List.filter (fun e => negb (isRemoved e)) all).

Definition engineBool (name id : bytes) : C bool :=
  let* c := hasClient in
  if c then let* v := engine name (idArg id) in match v with JBool b => ret b | _ => throw (Library TypeError) end else ret false.
Definition isAttached (id : bytes) : C bool := engineBool (#"cloudIsAttached") id.
Definition hasKey (id : bytes) : C bool := engineBool (#"cloudHasKey") id.

Definition engineNumber (name id : bytes) : C Z :=
  let* v := engine name (idArg id) in if is_number v then ofResult (int64Of v) else ret 0.
Definition headSeq (id : bytes) : C Z := engineNumber (#"cloudHeadSeq") id.
Definition grantVersion (id : bytes) : C Z := engineNumber (#"cloudGrantVersion") id.

Definition touch : C unit := modify (fun s => set_revision_ (u64 (revision_ s + 1)) (set_isDirty_ true s)).
Definition clean : C unit := modify (set_isDirty_ false).
Definition persistIfDirty : C unit := let* d := gets isDirty_ in if d then clean ;;; persist else ret tt.

Definition rootId : C (option bytes) :=
  let* entries := stateEntries in
  ret (minOf (se_id <$> List.filter (fun e => negb (isRemoved e) && bool_decide (se_role e = #"root")) entries)).

(** ** The queues *)

Definition outboxOf (id : bytes) (s : CloudSync) : list OutboxItem := default [] (outboxes_ s !! id).
Definition setOutbox (id : bytes) (l : list OutboxItem) : C unit := modify (fun s => set_outboxes_ (<[id := l]> (outboxes_ s)) s).
Definition eraseOutbox (id : bytes) : C unit := modify (fun s => set_outboxes_ (delete id (outboxes_ s)) s).
Definition addLost (id : bytes) : C unit := modify (fun s => set_lost_ ({[id]} ∪ lost_ s) s).
Definition outboxRecord (id : bytes) : bytes := kCloudOutboxRecord ++ id.
Definition forgetRecord (id : bytes) : C unit := let* _ := attempt (lift (r_remove (outboxRecord id))) in ret tt.

Definition reapply (id : bytes) (items : list OutboxItem) : C unit :=
  forEachM items (fun item =>
    let* _ := attempt (engine (#"cloudApplyLocal") (jobj [(#"id", JStr id); (#"op", JStr (op item))])) in ret tt).

Definition loadOutbox (id : bytes) : C unit :=
  let* known := gets (fun s => outboxes_ s !! id) in
  match known with
  | Some _ => ret tt
  | None =>
      let* r := attempt (lift (r_load (outboxRecord id))) in
      let saved := match r with inl (Some (JArr l)) => readSome itemOf l | _ => [] end in
      setOutbox id saved ;;;
      match saved with
      | [] => ret tt
      | _ => let* a := isAttached id in if a then reapply id saved ;;; touch else ret tt
      end
  end.

Definition saveOutbox (id : bytes) : C unit :=
  let* items := gets (outboxOf id) in
  match items with
  | [] => forgetRecord id
  | _ => lift (r_save (outboxRecord id) (JArr (itemJson <$> items)))
  end.

(** ** Containers *)

Definition dropEntry (id : bytes) : C unit :=
  let* entries := liveEntries in
  match List.find (fun e => bool_decide (se_id e = id) && bool_decide (se_role e = #"shared")) entries with
  | Some e => recordEntry {| se_id := se_id e; se_domain := se_domain e; se_role := se_role e; se_status := se_status e;
                             isRemoved := true; se_owner := se_owner e |}
  | None => ret tt
  end.

Definition forget (id : bytes) : C unit := let* c := hasClient in if c then engine (#"cloudForget") (idArg id) ;;; ret tt else ret tt.

Definition dropContainer (id : bytes) : C unit :=
  forget id ;;; touch ;;; eraseOutbox id ;;; forgetRecord id ;;; addLost id ;;; dropEntry id ;;; onChanged.

Definition containerArg (ref : json) : json := jobj [(#"container", ref)].
Definition afterVersion (ref : json) (version : bytes) : json := jobj [(#"container", ref); (#"after_version", JStr version)].

Definition attachSteps (id : bytes) : C unit :=
  let* dest := domainOf id in
  let* ref := refJson id in
  let* getBody := encode (#"domain.container.get") (containerArg ref) in
  let* got := call (#"domain.container.get") getBody dest in
  let* ref := refJson id in
  let* grantBody := encode (#"domain.grant.list") (afterVersion ref (#"0")) in
  let* grants := call (#"domain.grant.list") grantBody dest in
  engineNeeds (#"cloudAttach") (jobj [(#"getResponse", JStr (toBase64 got)); (#"grantsResponse", JStr (toBase64 grants))]) ;;; ret tt.

Definition attach (id : bytes) : C bool :=
  let* c := hasClient in
  if c then
    let* r := attempt (attachSteps id) in
    match r with
    | inr e => if hasCode e (#"ERROR_CODE_NOT_FOUND") then dropContainer id ;;; ret false else throw e
    | inl _ =>
        modify (fun s => set_snapshotTried_ (snapshotTried_ s ∖ {[id]}) s) ;;; touch ;;; loadOutbox id ;;; clean ;;; persist ;;;
        ret true
    end
  else ret false.

Definition loadRemoteDomains : C (list bytes) :=
  let* known := gets remoteDomains_ in
  match known with
  | Some l => ret l
  | None =>
      let* r := attempt (lift (r_load kCloudRemoteDomainsRecord)) in
      let l := match r with inl (Some (JArr a)) => foldl (fun l d => setInsert d l) [] (strings a) | _ => [] end in
      modify (set_remoteDomains_ (Some l)) ;;; ret l
  end.

Definition noteRemoteDomain (domainName : bytes) : C unit :=
  let d := lower domainName in
  match d with
  | [] => ret tt
  | _ =>
      let* own := serverDomain in
      if bool_decide (d = lower own) then ret tt
      else
        let* l := loadRemoteDomains in
        if bool_decide (d ∈ l) then ret tt
        else
          let l := setInsert d l in
          modify (set_remoteDomains_ (Some l)) ;;;
          (let* _ := attempt (lift (r_save kCloudRemoteDomainsRecord (JArr (JStr <$> l)))) in ret tt)
  end.

(** ** Finding containers *)

Fixpoint engineDomains (l : list EngineContainer) (domains : list bytes) : C (list bytes) :=
  match l with
  | [] => ret domains
  | c :: l => let* d := domainOf (ec_id c) in engineDomains l (addDomain (lower d) domains)
  end.

(** The servers to ask: the own one first. *)
Definition domainsToAsk (own : bytes) : C (list bytes) :=
  let* remote := loadRemoteDomains in
  let domains := foldl (fun l d => addDomain d l) [own] remote in
  let* containers := engineContainers in
  let* domains := engineDomains containers domains in
  let* live := liveEntries in
  ret (foldl (fun l e => match se_domain e with [] => l | d => addDomain (lower d) l end) domains live).

Fixpoint askDomains (own : bytes) (domains : list bytes) (onServer : list (bytes * bytes)) (listed : list bytes)
    : C (list (bytes * bytes) * list bytes) :=
  match domains with
  | [] => ret (onServer, listed)
  | d :: domains =>
      let* r := attempt (let* body := encode (#"domain.container.list") (jobj [(#"domain", JStr kCloudDomain)]) in
                         call (#"domain.container.list") body d) in
      match r with
      | inr e => if bool_decide (d = own) then throw e else askDomains own domains onServer listed
      | inl resp =>
          let* list := lift (t_decodeMethod (#"domain.container.list") resp) in
          let* onServer := match jfind (#"containers") list with
                           | Some (JArr l) => ofResult (readListed l onServer)
                           | _ => ret onServer
                           end in
          askDomains own domains onServer (d :: listed)
      end
  end.

Definition attachListed (me : bytes) (entries : list CloudStateEntry) (p : bytes * bytes) : C unit :=
  let (id, owner) := p in
  let entry := entryOf entries id in
  let unwanted := match entry with
                  | Some e => isRemoved e || bool_decide (se_status e = #"declined")
                  | None => bool_decide (owner = me)
                  end in
  if unwanted then ret tt
  else
    let* a := isAttached id in
    if a then ret tt
    else
      modify (fun s => set_lost_ (lost_ s ∖ {[id]}) s) ;;;
      (let* _ := attempt (attach id) in ret tt).

(** A container whose entry another device has removed. *)
Definition forgetRemoved (entries : list CloudStateEntry) (c : EngineContainer) : C unit :=
  let* lost := gets lost_ in
  match entryOf entries (ec_id c) with
  | Some e =>
      if negb (isRemoved e) || bool_decide (ec_id c ∈ lost) then ret tt
      else forget (ec_id c) ;;; touch ;;; eraseOutbox (ec_id c) ;;; addLost (ec_id c) ;;; onChanged
  | None => ret tt
  end.

(** A container of somebody else that its server does not list any more. *)
Definition dropRevoked (me : bytes) (onServer : list (bytes * bytes)) (listed : list bytes) (c : EngineContainer) : C unit :=
  if bool_decide (ec_owner c <> me) && negb (bool_decide (ec_id c ∈ onServer.*1)) then
    let* d := domainOf (ec_id c) in
    if bool_decide (lower d ∈ listed) then dropContainer (ec_id c) else ret tt
  else ret tt.

Definition discover : C unit :=
  let* c := hasClient in
  if c then
    let* own := serverDomain in
    let own := lower own in
    let* domains := domainsToAsk own in
    let* answers := askDomains own domains [] [] in
    let (onServer, listed) := answers in
    let* me := self in
    let* entries := stateEntries in
    forEachM onServer (attachListed me entries) ;;;
    (let* containers := engineContainers in
     forEachM containers (forgetRemoved entries) ;;;
     (let* containers := engineContainers in
      forEachM containers (dropRevoked me onServer listed) ;;;
      (let mine := List.filter (fun p => bool_decide (p.2 = me)) onServer in
       let unknown := List.filter (fun p => match entryOf entries p.1 with None => true | Some _ => false end) mine in
       modify (fun s => set_isDiscovered_ true (set_ownWithoutEntry_ (Z.of_nat (length unknown))
                          (set_ownOnServer_ (Some (Z.of_nat (length mine))) s))))))
  else ret tt.

(** ** Edits *)

(** The operations of the argument; an index into anything but an array throws. *)
Definition opsOf (ops : json) : result exn (list json) :=
  match ops with
  | JArr l => Ok l
  | JNull | JObj [] => Ok []
  | _ => Err TypeError
  end.

Fixpoint prepareOps (fuel : nat) (id : bytes) (ops : list json) : C unit :=
  match ops with
  | [] => ret tt
  | _ =>
      match fuel with
      | O => stuck
      | S fuel =>
          let* local := engine (#"cloudPrepareLocal")
                          (jobj [(#"id", JStr id); (#"opsJson", jobj [(#"ops", JArr (take kMaxOpsPerBatch ops))])]) in
          let* item := ofResult (itemOf local) in
          let* items := gets (outboxOf id) in
          setOutbox id (items ++ [item]) ;;; prepareOps fuel id (drop kMaxOpsPerBatch ops)
      end
  end.

Definition applyNow (id : bytes) (ops : json) : C unit :=
  let* c := hasClient in
  if c then
    loadOutbox id ;;;
    (let* l := ofResult (opsOf ops) in
     prepareOps (length l) id l ;;; touch ;;; saveOutbox id ;;; clean ;;; persist ;;; onChanged)
  else throw (BusError (#"ERROR_CODE_UNAVAILABLE")).

(** ** Creating *)

Definition shareWithOwnDevices (id : bytes) : C unit :=
  let* c := hasClient in
  if c then let* _ := attempt (let* reqs := engineNeeds (#"cloudShareWithOwnDevices") (idArg id) in run reqs) in ret tt
  else ret tt.

Definition newEntry (id role domain : bytes) : CloudStateEntry :=
  {| se_id := id; se_domain := domain; se_role := role; se_status := []; isRemoved := false; se_owner := [] |}.

Definition metaOps (name : bytes) : json := JArr [jobj [(#"op", JStr (#"meta")); (#"name", JStr name)]].

(** Indexing a missing member of a constant object is undefined. *)
Definition createContainer (role name : bytes) : C bytes :=
  let* c := hasClient in
  let* ready := if c then isReady else ret false in
  if negb ready then throw (BusError (#"ERROR_CODE_UNAVAILABLE"))
  else
    let* now := nowMs in
    let* made := engine (#"cloudCreate") (jobj [(#"tsMs", JInt now)]) in
    let* id := ofResult (value_str made (#"id") []) in
    let* r := attempt (match jfind (#"request") made with Some req => runReq req | None => throw (Library Undefined) end) in
    match r with
    | inr e => engine (#"cloudForget") (idArg id) ;;; throw e
    | inl _ =>
        touch ;;; setOutbox id [] ;;; recordOwn (newEntry id role) ;;; clean ;;; persist ;;; shareWithOwnDevices id ;;;
        (match name with [] => ret tt | _ => applyNow id (metaOps name) end) ;;; ret id
    end.

(** One level of [ensureRoot]: [again] is the call it makes of itself. *)
Definition ensureRootStep (again : C (option bytes)) (createIfMissing : bool) : C (option bytes) :=
  let* c := hasClient in
  let* ready := if c then isReady else ret false in
  if negb ready then ret None
  else
    let* known := rootId in
    match known with
    | Some id =>
        let* a := isAttached id in
        let* there := if a then ret true else attach id in
        ret (if there then Some id else None)
    | None =>
        if createIfMissing then
          discover ;;;
          (let* found := rootId in
           match found with
           | Some _ => again
           | None =>
               let* unknown := gets ownWithoutEntry_ in
               if 0 <? unknown then throw (BusError (#"ERROR_CODE_UNAVAILABLE"))
               else let* id := createContainer (#"root") [] in ret (Some id)
           end)
        else ret None
    end.

Definition ensureRoot (createIfMissing : bool) : C (option bytes) :=
  ensureRootStep (ensureRootStep (ret None) false) createIfMissing.

(** ** The journal and the snapshot *)

Definition pullGrants (id : bytes) : C unit :=
  let* ref := refJson id in
  let* version := grantVersion id in
  let* body := encode (#"domain.grant.list") (afterVersion ref (Decimal.to_string version)) in
  let* dest := domainOf id in
  let* resp := call (#"domain.grant.list") body dest in
  engineNeeds (#"cloudIngestGrants") (jobj [(#"id", JStr id); (#"grantsResponse", JStr (toBase64 resp))]) ;;; ret tt.

Definition refreshPeer (me user : bytes) : C unit :=
  match h_refreshPeerLog with
  | Some f => if bool_decide (user = me) then ret tt else let* _ := attempt (lift (f user)) in ret tt
  | None => ret tt
  end.

Definition refreshAuthors (id : bytes) : C unit :=
  let* found := findEngine id in
  match found with
  | None => ret tt
  | Some c => let* me := self in forEachM (ec_owner c :: (user <$> ec_members c)) (refreshPeer me)
  end.

(** A member has left by himself: fewer of them and the epoch as before. *)
Definition hasLeft (before after : option EngineContainer) : bool :=
  match before, after with
  | Some b, Some a => bool_decide (ec_role a = #"owner") && (length (ec_members a) <? length (ec_members b))%nat
                      && (ec_epoch a =? ec_epoch b)
  | _, _ => false
  end.

Definition rotateNow (id : bytes) : C unit :=
  let* now := nowMs in
  let* reqs := engineNeeds (#"cloudRotate") (jobj [(#"id", JStr id); (#"tsMs", JInt now)]) in run reqs.

Definition pullMembers (id : bytes) : C bool :=
  let* versionBefore := grantVersion id in
  let* before := findEngine id in
  pullGrants id ;;;
  (let* version := grantVersion id in
   if version =? versionBefore then ret false
   else
     touch ;;;
     (let* after := findEngine id in
      let* k := if hasLeft before after then hasKey id else ret false in
      (if k then let* _ := attempt (rotateNow id) in ret tt else ret tt) ;;; ret true)).

(** What happened before an exception counts. *)
Definition pullSnapshot (id : bytes) : C bool :=
  modify (fun s => set_snapshotTried_ ({[id]} ∪ snapshotTried_ s) s) ;;;
  (let* ref := refJson id in
   let* body := encode (#"domain.snapshot.get") (containerArg ref) in
   let* dest := domainOf id in
   let* resp := call (#"domain.snapshot.get") body dest in
   let* r := attempt
     (let* v := engine (#"cloudIngestSnapshot") (jobj [(#"id", JStr id); (#"snapshotResponse", JStr (toBase64 resp))]) in
      let* nothing := if is_number v then let* z := ofResult (int64Of v) in ret (z =? 0) else ret false in
      if nothing then ret false else touch ;;; (let* _ := attempt (headSeq id ;;; onChanged) in ret true)) in
   ret match r with inl changed => changed | inr _ => false end).

Definition syncArg (ref : json) (seq : Z) : json :=
  jobj [(#"container", ref); (#"after_seq", JStr (Decimal.to_string seq)); (#"max_bytes", JInt 0)].

Fixpoint pullPages (id : bytes) (pages : nat) (isStrict changed : bool) : C bool :=
  match pages with
  | O => ret changed
  | S pages =>
      let* ref := refJson id in
      let* seq := headSeq id in
      let* body := encode (#"domain.op.sync") (syncArg ref seq) in
      let* dest := domainOf id in
      let* resp := call (#"domain.op.sync") body dest in
      let* r := engine (#"cloudIngestSync")
                  (jobj [(#"id", JStr id); (#"syncResponse", JStr (toBase64 resp)); (#"strict", JBool isStrict)]) in
      let* applied := ofResult (value_int r (#"applied") 0) in
      let some := negb (applied =? 0) in
      when some (touch ;;; headSeq id ;;; ret tt) ;;;
      (let changed := changed || some in
       let* authorsBehind := ofResult (value_bool r (#"authorsBehind") false) in
       if authorsBehind then refreshAuthors id ;;; pullPages id pages false changed
       else
         let* grantsBehind := ofResult (value_bool r (#"grantsBehind") false) in
         if grantsBehind then pullGrants id ;;; pullPages id pages true changed
         else
           let* more := ofResult (value_bool r (#"more") false) in
           if more then pullPages id pages true changed else ret changed)
  end.

Definition pull (id : bytes) : C bool :=
  let* a := isAttached id in
  if a then
    let* members := pullMembers id in
    let* tried := gets snapshotTried_ in
    let* first := if bool_decide (id ∈ tried) then ret false
                  else let* seq := headSeq id in if seq =? 0 then hasKey id else ret false in
    let* snapshot := if first then pullSnapshot id else ret false in
    pullPages id kSyncPages true (members || snapshot)
  else ret false.

Definition tsArg (id : bytes) (now : Z) : json := jobj [(#"id", JStr id); (#"tsMs", JInt now)].

Definition maybeSnapshot (id : bytes) : C unit :=
  let* k := hasKey id in
  if k then
    let* _ := attempt
      (let* now := nowMs in
       let* req := engine (#"cloudSnapshotRequest") (tsArg id now) in
       match req with
       | JNull => ret tt
       | _ => runReq req ;;; modify (set_isDirty_ true) ;;; headSeq id ;;; ret tt
       end) in
    ret tt
  else ret tt.

(** ** Sending *)

Definition sealAndSend (id : bytes) (item : OutboxItem) : C bytes :=
  let* now := nowMs in
  let* req := engine (#"cloudSeal") (jobj [(#"id", JStr id); (#"op", JStr (op item)); (#"opIdHex", JStr (opId item)); (#"tsMs", JInt now)]) in
  runReq req.

(** Codes with which the server will not take an operation. *)
Definition isRefused (code : bytes) : bool :=
  bool_decide (code = #"ERROR_CODE_FORBIDDEN") || bool_decide (code = #"ERROR_CODE_NOT_FOUND")
  || bool_decide (code = #"ERROR_CODE_INVALID").

(** What the [catch] of the loop does: the operation leaves the queue (refused or
    not), is tried again, or the loop is left. *)
Inductive Turn := Sent (refused : bool) | Again | Leave.

Definition afterError (id : bytes) (e : Thrown) : C Turn :=
  match errorCode e with
  | Some code =>
      if bool_decide (code = #"ERROR_CODE_EXPIRED") then
        let* before := grantVersion id in
        pullGrants id ;;;
        (let* version := grantVersion id in
         if version =? before then ret Leave
         else let* k := hasKey id in ret (if k then Again else Leave))
      else if isRefused code then ret (Sent true)
      else if bool_decide (code = #"ERROR_CODE_DUPLICATE") then ret (Sent false)
      else throw e
  | None => throw e
  end.

Fixpoint sendLoop (fuel : nat) (id : bytes) (rejected : nat) : C nat :=
  let* items := gets (outboxOf id) in
  match items with
  | [] => ret rejected
  | item :: _ =>
      match fuel with
      | O => stuck
      | S fuel =>
          let* k := hasKey id in
          if negb k then ret rejected
          else
            let* r := attempt (sealAndSend id item) in
            let* turn := match r with inl _ => ret (Sent false) | inr e => afterError id e end in
            match turn with
            | Sent refused =>
                modify (fun s => set_outboxes_ (<[id := tail (outboxOf id s)]> (outboxes_ s)) s) ;;;
                saveOutbox id ;;; sendLoop fuel id (if refused then S rejected else rejected)
            | Again => sendLoop fuel id rejected
            | Leave => ret rejected
            end
      end
  end.

Definition sendOutbox (id : bytes) : C nat :=
  let* a := isAttached id in
  if a then loadOutbox id ;;; sendLoop turns id 0 else ret 0%nat.

(** ** Blobs of erased files *)

Definition readStrings (key : bytes) : C (list bytes) :=
  let* r := attempt (lift (r_load key)) in
  ret match r with inl (Some (JArr l)) => strings l | _ => [] end.

Definition loadOwnBlobs : C (list bytes) :=
  let* known := gets ownBlobs_ in
  match known with
  | Some l => ret l
  | None => let* l := readStrings kCloudOwnBlobsRecord in modify (set_ownBlobs_ (Some l)) ;;; ret l
  end.

Definition loadGcDone : C (list bytes) :=
  let* known := gets gcDone_ in
  match known with
  | Some l => ret l
  | None => let* l := readStrings kCloudGcRecord in modify (set_gcDone_ (Some l)) ;;; ret l
  end.

Definition noteOwnBlob (fileId : bytes) : C unit :=
  match fileId with
  | [] => ret tt
  | _ =>
      let* own := loadOwnBlobs in
      if bool_decide (fileId ∈ own) then ret tt
      else
        let own := keepLast (own ++ [fileId]) in
        modify (set_ownBlobs_ (Some own)) ;;;
        (let* _ := attempt (lift (r_save kCloudOwnBlobsRecord (JArr (JStr <$> own)))) in ret tt)
  end.

Definition markDone (fileId : bytes) : C unit :=
  modify (fun s => set_gcDone_ (Some (default [] (gcDone_ s) ++ [fileId])) s).

(** The set [done] of the code has the files of [gcDone_] at every moment. *)
Fixpoint eraseBlobs (me : bytes) (own : list bytes) (purged : list json) (hasChanges : bool) : C bool :=
  match purged with
  | [] => ret hasChanges
  | blob :: purged =>
      let* fileId := ofResult (value_str blob (#"fileId") []) in
      let* uploader := ofResult (value_str blob (#"uploader") []) in
      let* done := gets (fun s => default [] (gcDone_ s)) in
      if bool_decide (uploader <> me) || bool_decide (fileId ∈ done) || negb (bool_decide (fileId ∈ own)) then
        eraseBlobs me own purged hasChanges
      else
        let* r := attempt (deleteBlob fileId) in
        match r with
        | inr e => if hasCode e (#"ERROR_CODE_NOT_FOUND") then markDone fileId ;;; eraseBlobs me own purged true
                   else eraseBlobs me own purged hasChanges
        | inl _ => markDone fileId ;;; eraseBlobs me own purged true
        end
  end.

Definition recordDone : C unit :=
  modify (fun s => set_gcDone_ (keepLast <$> gcDone_ s) s) ;;;
  (let* done := gets (fun s => default [] (gcDone_ s)) in
   lift (r_save kCloudGcRecord (JArr (JStr <$> done)))) ;;; onChanged.

Definition collectGarbage (id : bytes) : C unit :=
  let* me := self in
  let* c := hasClient in
  if negb c || bool_decide (me = []) then ret tt
  else
    let* state := engine (#"cloudStateJson") (idArg id) in
    if negb (is_object state) then ret tt
    else
      let* purged := ofResult (value_json state (#"purgedBlobs") (JArr [])) in
      match purged with
      | JArr (b :: l) =>
          let* _ := loadGcDone in
          let* own := loadOwnBlobs in
          let* hasChanges := eraseBlobs me own (b :: l) false in
          when hasChanges recordDone
      | _ => ret tt
      end.

(** ** The trash *)

Definition purgeExpiredTrash (id : bytes) : C bool :=
  let* found := findEngine id in
  let* isOwner := match found with
                  | Some c => if bool_decide (ec_role c = #"owner") then ret true
                              else let* root := rootId in ret (bool_decide (root = Some id))
                  | None => let* root := rootId in ret (bool_decide (root = Some id))
                  end in
  let* c := hasClient in
  let* may := match found with Some _ => if c && isOwner then hasKey id else ret false | None => ret false end in
  if negb may then ret false
  else
    let* state := engine (#"cloudStateJson") (idArg id) in
    if negb (is_object state) then ret false
    else
      let* now := nowMs in
      let* nodes := ofResult (nodesOf state) in
      match Cloud.expiredTrashOf nodes now Cloud.kTrashLifetimeMs with
      | [] => ret false
      | expired =>
          let* r := attempt (applyNow id (purgeOps expired now)) in
          match r with
          | inr _ => ret false
          | inl _ => sendOutbox id ;;; ret true
          end
      end.

Definition markTrashChecked (id : bytes) (now : Z) : C unit :=
  modify (fun s => set_trashCheckedAt_ (<[id := now]> (trashCheckedAt_ s)) s).

Definition syncSteps (id : bytes) : C bool :=
  sendOutbox id ;;;
  (let* changed := pull id in
   let* now := nowMs in
   let* checked := gets (fun s => default 0 (trashCheckedAt_ s !! id)) in
   let isTrashDue := kTrashCheckMs <=? now - checked in
   when isTrashDue (markTrashChecked id now) ;;;
   (let* purged := if isTrashDue then purgeExpiredTrash id else ret false in
    maybeSnapshot id ;;;
    (let* before := gets gcChecked_ in
     when (changed || purged || negb (bool_decide (id ∈ before)))
       (modify (fun s => set_gcChecked_ ({[id]} ∪ gcChecked_ s) s) ;;; collectGarbage id) ;;;
     ret (changed || purged)))).

Definition syncContainer (id : bytes) : C bool :=
  let* r := attempt (syncSteps id) in
  match r with
  | inl changed => ret changed
  | inr e => if hasCode e (#"ERROR_CODE_NOT_FOUND") then dropContainer id ;;; ret true else throw e
  end.

(** ** Synchronising *)

Definition scheduleRetry : C unit :=
  let* t := gets retryTimer_ in
  if armed t then ret tt else let* now := nowMs in modify (set_retryTimer_ (dset t (now + kRetryOfflineMs))).

Definition scheduleSync : C unit :=
  modify (set_syncTimer_ idle) ;;;
  (let* wanted := gets isWanted_ in
   if wanted then
     let* now := nowMs in
     let* s := gets (fun s => s) in
     modify (set_syncTimer_ (dset idle (now + pollDelay kSyncActiveMs kSyncIdleMs (isActive_ s && isVisible_ s))))
   else ret tt).

(** In the background only the drive. *)
Definition syncAll : C bool :=
  let* root := rootId in
  let* containers := engineContainers in
  let* active := gets isActive_ in
  let ids := ec_id <$> List.filter (fun c => active || bool_decide (Some (ec_id c) = root)) containers in
  let fix each (ids : list bytes) (changed : bool) : C bool :=
    match ids with
    | [] => ret changed
    | id :: ids => let* now := syncContainer id in each ids (changed || now)
    end in
  each ids false.

(** The [try] of [syncNow]: whether it returned early. *)
Definition syncTry (shouldDiscover : bool) : C bool :=
  let* c := hasClient in
  let* ready := if c then isReady else ret false in
  if negb ready then
    let* linking := lift t_needsLinking in
    setStatus (if linking then #"needs-linking" else #"loading") ;;; scheduleSync ;;; ret true
  else
    let* s := gets (fun s => s) in
    when (shouldDiscover || negb (isDiscovered_ s) || isActive_ s) discover ;;;
    ensureRoot false ;;;
    (let* changed := syncAll in
     persistIfDirty ;;;
     (let* root := rootId in
      let* containers := engineContainers in
      let hasMissingKey := existsb (fun c => bool_decide (root = Some (ec_id c)) && negb (ec_hasKey c)) containers in
      setStatus (if hasMissingKey then #"no-key" else #"ready") ;;;
      modify (set_lastError_ None) ;;; when changed onChanged ;;; ret false)).

Definition goOffline (e : Thrown) : C unit :=
  modify (set_lastError_ (Some (errorText libraryText e))) ;;;
  when (isUnavailable e) (setStatus (#"offline") ;;; scheduleRetry).

Definition syncNow (shouldDiscover : bool) : C unit :=
  modify (set_syncSoon_ idle) ;;;
  (let* soon := gets discoverSoon_ in
   modify (set_discoverSoon_ false) ;;;
   (let* r := attempt (syncTry (shouldDiscover || soon)) in
    match r with
    | inl true => ret tt
    | inl false => scheduleSync
    | inr e => goOffline e ;;; scheduleSync
    end)).

(** ** What the host calls *)

Definition ensure (active : bool) : C unit :=
  modify (set_isWanted_ true) ;;;
  (let* a := gets isActive_ in
   when (negb (Bool.eqb active a)) (modify (set_isActive_ active) ;;; scheduleSync) ;;;
   syncNow true).

Definition setSyncSoon : C unit := let* now := nowMs in modify (set_syncSoon_ (dset idle now)).

Definition ensureSoon (active : bool) : C unit :=
  modify (fun s => set_discoverSoon_ true (set_isActive_ active (set_isWanted_ true s))) ;;; setSyncSoon.

Definition setActive (active : bool) : C unit :=
  when active (modify (set_isWanted_ true)) ;;;
  (let* s := gets (fun s => s) in
   if Bool.eqb (isActive_ s) active then ret tt
   else
     modify (set_isActive_ active) ;;;
     if active && isVisible_ s then modify (set_discoverSoon_ true) ;;; setSyncSoon else scheduleSync).

Definition setVisible (visible : bool) : C unit :=
  modify (set_isVisible_ visible) ;;;
  (let* s := gets (fun s => s) in
   if negb (isWanted_ s) then ret tt else if visible && isActive_ s then setSyncSoon else scheduleSync).

Definition apply (container : bytes) (ops : json) : C bytes :=
  let* found := if bool_decide (container = #"root") then ensureRoot true else ret (Some container) in
  match found with
  | None => throw (BusError (#"ERROR_CODE_UNAVAILABLE"))
  | Some id =>
      applyNow id ops ;;;
      modify (fun s => set_sendQueue_ (addDomain id (sendQueue_ s)) s) ;;;
      (let* now := nowMs in modify (set_sendSoon_ (dset idle now))) ;;; ret id
  end.

Definition sendQuietly (id : bytes) : C unit :=
  let* r := attempt (sendOutbox id) in
  match r with inl _ => ret tt | inr e => goOffline e end.

Definition sendSoonQueue : C unit :=
  let* ids := gets sendQueue_ in
  modify (set_sendQueue_ []) ;;; forEachM ids sendQuietly.

Definition hasPending (id : bytes) (s : CloudSync) : bool := negb (bool_decide (outboxOf id s = [])).

Definition flush (id : bytes) : C bool :=
  let* rejected := sendOutbox id in
  let* _ := attempt (collectGarbage id) in
  let* pending := gets (hasPending id) in
  ret ((rejected =? 0)%nat && negb pending).

Definition checkSteps : C bytes :=
  let* root := rootId in
  match root with
  | None =>
      discover ;;;
      (let* found := rootId in
       let* own := gets ownOnServer_ in
       ret (if bool_decide (found = None) && bool_decide (own = Some 0) then #"none" else #"unknown"))
  | Some id =>
      let* a := isAttached id in
      let* k := if a then hasKey id else ret false in
      if negb k then ret (#"unknown")
      else let* changed := pull id in when changed onChanged ;;; ret (#"synced")
  end.

Definition checkDrive : C bytes :=
  let* c := hasClient in
  let* ready := if c then isReady else ret false in
  let* linking := if ready then lift t_needsLinking else ret true in
  let* status := gets status_ in
  if linking || negb (bool_decide (status = #"ready")) then ret (#"unknown")
  else let* r := attempt checkSteps in ret match r with inl answer => answer | inr _ => #"unknown" end.

Definition infoOf (me : bytes) (entries : list CloudStateEntry) (root : option bytes) (lost : gset bytes) (c : EngineContainer)
    : option CloudContainerInfo :=
  let entry := entryOf entries (ec_id c) in
  if bool_decide (ec_id c ∈ lost) || bool_decide (ec_role c = []) then None
  else if match entry with Some e => isRemoved e | None => false end then None
  else
    let kind := if bool_decide (root = Some (ec_id c)) then #"root"
                else if bool_decide (ec_owner c <> me) then
                  match entry with
                  | Some e => if bool_decide (se_status e = #"accepted") then #"shared" else #"invite"
                  | None => #"invite"
                  end
                else #"owned" in
    Some {| info_id := ec_id c; info_kind := kind; info_role := ec_role c; info_owner := ec_owner c; info_name := ec_name c;
            info_hasKey := ec_hasKey c; info_members := ec_members c |}.

Definition containers : C (list CloudContainerInfo) :=
  let* me := self in
  let* entries := stateEntries in
  let* root := rootId in
  let* list := engineContainers in
  let* lost := gets lost_ in
  ret (omap (infoOf me entries root lost) list).

(** What is not [null], of an engine's answer. *)
Definition answer (name : bytes) (args : json) : C (option json) :=
  let* c := hasClient in
  if c then let* v := engine name args in ret (match v with JNull => None | _ => Some v end) else ret None.

Definition stateJson (id : bytes) : C (option json) := answer (#"cloudStateJson") (idArg id).

Definition status : C bytes :=
  let* c := hasClient in
  let* ready := if c then isReady else ret false in
  if negb ready then let* l := lift t_needsLinking in ret (if l then #"needs-linking" else #"loading")
  else
    let* s := gets status_ in
    ret (if bool_decide (s = #"loading") || bool_decide (s = #"needs-linking") then #"ready" else s).

Definition createFolder (name : bytes) : C bytes := createContainer (#"owned") name.

Definition finishGrant : C unit := clean ;;; persist ;;; onChanged.

Definition runGrantRequests (id : bytes) (reqs : json) : C unit :=
  touch ;;;
  (let* r := attempt (run reqs) in
   match r with
   | inr e => forget id ;;; (let* _ := attempt (attach id) in finishGrant ;;; throw e)
   | inl _ => finishGrant
   end).

Definition needClient : C unit :=
  let* c := hasClient in if c then ret tt else throw (BusError (#"ERROR_CODE_UNAVAILABLE")).

Definition share (id user role inviteText : bytes) : C unit :=
  needClient ;;;
  (let* now := nowMs in
   let* reqs := engineNeeds (#"cloudGrant") (jobj [(#"id", JStr id); (#"user", JStr user);
     (#"write", JBool (bool_decide (role = #"editor"))); (#"inviteText", JStr inviteText); (#"tsMs", JInt now)]) in
   runGrantRequests id reqs).

Definition revokeRequests (id user : bytes) : C json :=
  let* now := nowMs in
  engineNeeds (#"cloudRevoke") (jobj [(#"id", JStr id); (#"user", JStr user); (#"tsMs", JInt now)]).

Definition unshare (id user : bytes) : C unit :=
  needClient ;;; (let* reqs := revokeRequests id user in runGrantRequests id reqs).

Definition leaveNow (id : bytes) : C unit :=
  let* a := isAttached id in
  if a then
    let* now := nowMs in
    let* req := engine (#"cloudLeave") (tsArg id now) in
    touch ;;; eraseOutbox id ;;; addLost id ;;; forgetRecord id ;;;
    (let* r := attempt (runReq req) in
     match r with
     | inr e => if hasCode e (#"ERROR_CODE_NOT_FOUND") then ret tt else throw e
     | inl _ => ret tt
     end) ;;; clean ;;; persist
  else ret tt.

Definition sharedEntry (id status owner : bytes) (removed : bool) (domain : bytes) : CloudStateEntry :=
  {| se_id := id; se_domain := domain; se_role := #"shared"; se_status := status; isRemoved := removed; se_owner := owner |}.

Definition answerInvite (id : bytes) (accept : bool) : C unit :=
  let* found := findEngine id in
  let* domain := serverDomain in
  let entry := sharedEntry id (if accept then #"accepted" else #"declined")
                 (match found with Some c => ec_owner c | None => [] end) false domain in
  when (negb accept) (leaveNow id) ;;; recordEntry entry ;;; onChanged.

(** The last live entry of a container. *)
Definition lastEntry (id : bytes) (entries : list CloudStateEntry) : option CloudStateEntry :=
  foldl (fun best e => if bool_decide (se_id e = id) then Some e else best) None entries.

Definition leave (id : bytes) : C unit :=
  let* found := findEngine id in
  let* own := match found with Some c => let* me := self in ret (bool_decide (ec_owner c = me)) | None => ret false end in
  if own then throw (BusError (#"ERROR_CODE_INVALID"))
  else
    let* live := liveEntries in
    let entry := lastEntry id live in
    leaveNow id ;;;
    recordOwn (sharedEntry id (default [] (se_status <$> entry)) (default [] (se_owner <$> entry)) true) ;;; onChanged.

Definition removedEntry (id domain : bytes) : CloudStateEntry :=
  {| se_id := id; se_domain := domain; se_role := #"owned"; se_status := []; isRemoved := true; se_owner := [] |}.

Definition removeFolder (id : bytes) : C unit :=
  needClient ;;;
  (let* found := findEngine id in
   match found with
   | Some c => forEachM (ec_members c) (fun m => let* reqs := revokeRequests id (user m) in run reqs)
   | None => ret tt
   end ;;;
   (let* _ := attempt (sendOutbox id) in
    let* _ := attempt (collectGarbage id) in
    engine (#"cloudForget") (idArg id) ;;; touch ;;; eraseOutbox id ;;; addLost id ;;;
    recordOwn (removedEntry id) ;;; clean ;;; persist ;;; onChanged)).

Definition rotate (id : bytes) : C unit :=
  let* c := hasClient in
  if c then rotateNow id ;;; touch ;;; clean ;;; persist else ret tt.

Definition keysExport : C (option json) := answer (#"cloudKeysExport") noArgs.

Definition keysImport (value : json) : C unit :=
  let* c := hasClient in
  if c then let* _ := attempt (engine (#"cloudKeysImport") (jobj [(#"json", value)]) ;;; touch) in ret tt else ret tt.

Definition onEngineEvent (id : bytes) : C unit :=
  modify (fun s => set_eventQueue_ (addDomain id (eventQueue_ s)) (set_isWanted_ true (set_lost_ (lost_ s ∖ {[id]}) s))) ;;;
  (let* now := nowMs in modify (set_eventSoon_ (dset idle now))).

Definition runEngineEvent (id : bytes) : C unit :=
  let* c := hasClient in
  let* ready := if c then isReady else ret false in
  if negb ready then ret tt
  else
    let* _ := attempt
      (let* a := isAttached id in
       (if a then ret tt else attach id ;;; ret tt) ;;;
       (let* a := isAttached id in
        (if a then syncContainer id ;;; ret tt else ret tt) ;;; persistIfDirty)) in
    touch ;;; clean ;;; onChanged.

(** [fire] of a deadline of the object. *)
Definition fireAt (now : Z) (get : CloudSync -> Deadline) (put : Deadline -> CloudSync -> CloudSync) : C bool :=
  let* d := gets get in
  let (fired, d) := fire d now in
  modify (put d) ;;; ret fired.

Definition runEvents : C unit :=
  let* ids := gets eventQueue_ in
  modify (set_eventQueue_ []) ;;; forEachM ids runEngineEvent.

Definition tick : C unit :=
  let* now := nowMs in
  let* f1 := fireAt now eventSoon_ set_eventSoon_ in
  when f1 runEvents ;;;
  (let* f2 := fireAt now sendSoon_ set_sendSoon_ in
   when f2 sendSoonQueue ;;;
   (let* s1 := fireAt now syncSoon_ set_syncSoon_ in
    let* s2 := fireAt now syncTimer_ set_syncTimer_ in
    let* s3 := fireAt now retryTimer_ set_retryTimer_ in
    when (s1 || s2 || s3) (syncNow false))).

Definition nextWakeMs (s : CloudSync) : option Z :=
  earliest [Some (eventSoon_ s); Some (sendSoon_ s); Some (syncSoon_ s); Some (syncTimer_ s); Some (retryTimer_ s)].

(** All members but [isVisible_], [ownBlobs_], [remoteDomains_] and the revision,
    which grows. *)
Definition resetState (s : CloudSync) : CloudSync :=
  set_isVisible_ (isVisible_ s) (set_ownBlobs_ (ownBlobs_ s) (set_remoteDomains_ (remoteDomains_ s)
    (set_revision_ (u64 (revision_ s + 1)) newSync))).
Definition reset : C unit := modify resetState.
End Code.

End CloudSync.
