(* ===== verification/CloudPieces.v ===== *)
(** * CloudPieces: the scheme by which a property is one of all the cloud's code

    The calls to the host ([hostCall]), the changes of members ([besideBoth]),
    and, for any property of code in the sense of [Sound], that each method of
    the class has it when the pieces have; [operation] is what the host calls,
    and [method_sound] the scheme for all of that. *)

From S2P Require Import Prelude Json PlannerUtil DomainSync CloudOps Host CloudSync.
Import Base64 Sync CloudOps CloudSync.

Module CloudPieces.

#[local] Open Scope Z_scope.

Section Host.
Context {Env : Type} {T : DomainTransport Env} {Rec : RecordStore Env} {H : CloudHooks Env}.
Context (libraryText : exn -> bytes) (turns : nat).
Notation C := (M CloudSync Env).
Notation St := (CloudSync * Env)%type.

(** ** The pieces *)

(** The calls to the host, but for erasing a blob and the record of own blobs. *)
Inductive hostCall : forall A : Type, (Env -> result Thrown A * Env) -> Prop :=
| call_engine n j : hostCall _ (t_engine n j)
| call_engineWithNeeds n j : hostCall _ (t_engineWithNeeds n j)
| call_request a m b d : hostCall _ (t_request a m b d)
| call_encode m j : hostCall _ (t_encodeMethod m j)
| call_decode m b : hostCall _ (t_decodeMethod m b)
| call_hasClient : hostCall _ t_hasClient
| call_isReady : hostCall _ t_isReady
| call_needsLinking : hostCall _ t_needsLinking
| call_self : hostCall _ t_self
| call_serverDomain : hostCall _ t_serverDomain
| call_persist : hostCall _ t_persist
| call_nowMs : hostCall _ t_nowMs
| call_load k : hostCall _ (r_load k)
| call_save k j : k <> kCloudOwnBlobsRecord -> hostCall _ (r_save k j)
| call_remove k : k <> kCloudOwnBlobsRecord -> hostCall _ (r_remove k)
| call_stateEntries h : h_stateEntries = Some h -> hostCall _ h
| call_recordEntry h e : h_recordEntry = Some h -> hostCall _ (h e)
| call_refreshPeerLog h u : h_refreshPeerLog = Some h -> hostCall _ (h u)
| call_onChanged h : h_onChanged = Some h -> hostCall _ h.

(** Changes of other members than the queues and the own blobs. *)
Definition besideBoth (f : CloudSync -> CloudSync) : Prop :=
  forall s, outboxes_ (f s) = outboxes_ s /\ ownBlobs_ (f s) = ownBlobs_ s.

Lemma outboxRecord_ne (id : bytes) : outboxRecord id <> kCloudOwnBlobsRecord.
Proof. done. Qed.

Hint Constructors hostCall : sound.
Hint Resolve outboxRecord_ne : sound.
Hint Extern 5 (besideBoth _) => (intros ?; split; reflexivity) : sound.
Hint Extern 5 (_ <> kCloudOwnBlobsRecord) => discriminate : sound.

Section Beside.
Context (Phi : forall A, C A -> Prop) {Snd : Sound hostCall besideBoth Phi}.

Lemma b_engine n j : Phi _ (engine n j).
Proof using Snd. unfold engine. sound. Qed.
Lemma b_engineNeeds n j : Phi _ (engineNeeds n j).
Proof using Snd. unfold engineNeeds. sound. Qed.
Lemma b_hasClient : Phi _ hasClient.
Proof using Snd. unfold hasClient. sound. Qed.
Lemma b_isReady : Phi _ isReady.
Proof using Snd. unfold isReady. sound. Qed.
Lemma b_call m b d : Phi _ (call m b d).
Proof using Snd. unfold call. sound. Qed.
Lemma b_encode m j : Phi _ (encode m j).
Proof using Snd. unfold encode. sound. Qed.
Lemma b_run j : Phi _ (run j).
Proof using Snd. unfold run, runRequests, runRequest. sound. Qed.
Lemma b_nowMs : Phi _ nowMs.
Proof using Snd. unfold nowMs. sound. Qed.
Lemma b_self : Phi _ self.
Proof using Snd. unfold self. sound. Qed.
Lemma b_serverDomain : Phi _ serverDomain.
Proof using Snd. unfold serverDomain. sound. Qed.
Lemma b_persist : Phi _ persist.
Proof using Snd. unfold persist. sound. Qed.
Lemma b_onChanged : Phi _ onChanged.
Proof using Snd. unfold onChanged. destruct h_onChanged as [f|] eqn:E; sound. Qed.
Lemma b_recordEntry e : Phi _ (recordEntry e).
Proof using Snd. unfold recordEntry. destruct h_recordEntry as [f|] eqn:E; sound. Qed.
Lemma b_stateEntries : Phi _ stateEntries.
Proof using Snd. unfold stateEntries. destruct h_stateEntries as [f|] eqn:E; sound. Qed.
Hint Resolve b_engine b_engineNeeds b_hasClient b_isReady b_call b_encode b_run b_nowMs b_self b_serverDomain b_persist
  b_onChanged b_recordEntry b_stateEntries : sound.

Lemma b_runReq j : Phi _ (runReq j).
Proof using Snd. unfold runReq, runRequest. sound. Qed.
Lemma b_recordOwn e : Phi _ (recordOwn e).
Proof using Snd. unfold recordOwn. destruct h_recordEntry as [f|] eqn:E; sound. Qed.
Lemma b_setStatus b : Phi _ (setStatus b).
Proof using Snd. unfold setStatus. sound. Qed.
Lemma b_domainOf id : Phi _ (domainOf id).
Proof using Snd. unfold domainOf. sound. Qed.
Lemma b_liveEntries : Phi _ liveEntries.
Proof using Snd. unfold liveEntries. sound. Qed.
Lemma b_engineBool n id : Phi _ (engineBool n id).
Proof using Snd. unfold engineBool. sound. Qed.
Lemma b_engineNumber n id : Phi _ (engineNumber n id).
Proof using Snd. unfold engineNumber. sound. Qed.
Lemma b_engineContainers : Phi _ engineContainers.
Proof using Snd. unfold engineContainers. sound. Qed.
Lemma b_touch : Phi _ touch.
Proof using Snd. unfold touch. sound. Qed.
Lemma b_clean : Phi _ clean.
Proof using Snd. unfold clean. sound. Qed.
Lemma b_rootId : Phi _ rootId.
Proof using Snd. unfold rootId. sound. Qed.
Lemma b_forgetRecord id : Phi _ (forgetRecord id).
Proof using Snd. unfold forgetRecord. sound. Qed.
Lemma b_reapply id l : Phi _ (reapply id l).
Proof using Snd. unfold reapply. sound. Qed.
Lemma b_saveOutbox id : Phi _ (saveOutbox id).
Proof using Snd. unfold saveOutbox, forgetRecord. sound. Qed.
Lemma b_addLost id : Phi _ (addLost id).
Proof using Snd. unfold addLost. sound. Qed.
Lemma b_forget id : Phi _ (forget id).
Proof using Snd. unfold forget. sound. Qed.
Hint Resolve b_runReq b_recordOwn b_setStatus b_domainOf b_liveEntries b_engineBool b_engineNumber b_engineContainers b_touch
  b_clean b_rootId b_forgetRecord b_reapply b_saveOutbox b_addLost b_forget : sound.

Lemma b_refJson id : Phi _ (refJson id).
Proof using Snd. unfold refJson. sound. Qed.
Lemma b_findEngine id : Phi _ (findEngine id).
Proof using Snd. unfold findEngine. sound. Qed.
Lemma b_isAttached id : Phi _ (isAttached id).
Proof using Snd. apply b_engineBool. Qed.
Lemma b_hasKey id : Phi _ (hasKey id).
Proof using Snd. apply b_engineBool. Qed.
Lemma b_headSeq id : Phi _ (headSeq id).
Proof using Snd. apply b_engineNumber. Qed.
Lemma b_grantVersion id : Phi _ (grantVersion id).
Proof using Snd. apply b_engineNumber. Qed.
Lemma b_persistIfDirty : Phi _ persistIfDirty.
Proof using Snd. unfold persistIfDirty. sound. Qed.
Lemma b_dropEntry id : Phi _ (dropEntry id).
Proof using Snd. unfold dropEntry. sound. Qed.
Lemma b_loadRemoteDomains : Phi _ loadRemoteDomains.
Proof using Snd. unfold loadRemoteDomains. sound. Qed.
Hint Resolve b_refJson b_findEngine b_isAttached b_hasKey b_headSeq b_grantVersion b_persistIfDirty b_dropEntry
  b_loadRemoteDomains : sound.

Lemma b_attachSteps id : Phi _ (attachSteps id).
Proof using Snd. unfold attachSteps. sound. Qed.
Lemma b_noteRemoteDomain d : Phi _ (noteRemoteDomain d).
Proof using Snd. unfold noteRemoteDomain. sound. Qed.
Lemma b_engineDomains l : forall ds, Phi _ (engineDomains l ds).
Proof using Snd. induction l as [|c l IH]; intros ds; cbn [engineDomains]; sound. Qed.
Hint Resolve b_attachSteps b_noteRemoteDomain b_engineDomains : sound.
Lemma b_domainsToAsk own : Phi _ (domainsToAsk own).
Proof using Snd. unfold domainsToAsk. sound. Qed.
Lemma b_askDomains own ds : forall o l, Phi _ (askDomains own ds o l).
Proof using Snd. induction ds as [|d ds IH]; intros o l; cbn [askDomains]; sound; apply IH. Qed.
Lemma b_shareWithOwnDevices id : Phi _ (shareWithOwnDevices id).
Proof using Snd. unfold shareWithOwnDevices. sound. Qed.
Lemma b_pullGrants id : Phi _ (pullGrants id).
Proof using Snd. unfold pullGrants. sound. Qed.
Lemma b_refreshPeer me u : Phi _ (refreshPeer me u).
Proof using Snd. unfold refreshPeer. destruct h_refreshPeerLog as [f|] eqn:E; sound. Qed.
Lemma b_rotateNow id : Phi _ (rotateNow id).
Proof using Snd. unfold rotateNow. sound. Qed.
Hint Resolve b_domainsToAsk b_askDomains b_shareWithOwnDevices b_pullGrants b_refreshPeer b_rotateNow : sound.
Lemma b_refreshAuthors id : Phi _ (refreshAuthors id).
Proof using Snd. unfold refreshAuthors. sound. Qed.
Lemma b_pullMembers id : Phi _ (pullMembers id).
Proof using Snd. unfold pullMembers. sound. Qed.
Lemma b_pullSnapshot id : Phi _ (pullSnapshot id).
Proof using Snd. unfold pullSnapshot. sound. Qed.
Hint Resolve b_refreshAuthors b_pullMembers b_pullSnapshot : sound.
Lemma b_pullPages id n : forall s c, Phi _ (pullPages id n s c).
Proof using Snd. induction n as [|n IH]; intros s c; cbn [pullPages]; sound. Qed.
Hint Resolve b_pullPages : sound.
Lemma b_pull id : Phi _ (pull id).
Proof using Snd. unfold pull. sound. Qed.
Lemma b_maybeSnapshot id : Phi _ (maybeSnapshot id).
Proof using Snd. unfold maybeSnapshot. sound. Qed.
Lemma b_sealAndSend id i : Phi _ (sealAndSend id i).
Proof using Snd. unfold sealAndSend. sound. Qed.
Lemma b_afterError id e : Phi _ (afterError id e).
Proof using Snd. unfold afterError. sound. Qed.
Lemma b_readStrings k : Phi _ (readStrings k).
Proof using Snd. unfold readStrings. sound. Qed.
Hint Resolve b_pull b_maybeSnapshot b_sealAndSend b_afterError b_readStrings : sound.
Lemma b_loadGcDone : Phi _ loadGcDone.
Proof using Snd. unfold loadGcDone. sound. Qed.
Lemma b_markDone f : Phi _ (markDone f).
Proof using Snd. unfold markDone. sound. Qed.
Lemma b_recordDone : Phi _ recordDone.
Proof using Snd. unfold recordDone. sound. Qed.
Lemma b_scheduleRetry : Phi _ scheduleRetry.
Proof using Snd. unfold scheduleRetry. sound. Qed.
Lemma b_scheduleSync : Phi _ scheduleSync.
Proof using Snd. unfold scheduleSync. sound. Qed.
Lemma b_setSyncSoon : Phi _ setSyncSoon.
Proof using Snd. unfold setSyncSoon. sound. Qed.
Hint Resolve b_loadGcDone b_markDone b_recordDone b_scheduleRetry b_scheduleSync b_setSyncSoon : sound.
Lemma b_goOffline e : Phi _ (goOffline libraryText e).
Proof using Snd. unfold goOffline. sound. Qed.
Lemma b_finishGrant : Phi _ finishGrant.
Proof using Snd. unfold finishGrant. sound. Qed.
Lemma b_needClient : Phi _ needClient.
Proof using Snd. unfold needClient. sound. Qed.
Lemma b_revokeRequests id u : Phi _ (revokeRequests id u).
Proof using Snd. unfold revokeRequests. sound. Qed.
Lemma b_rotate id : Phi _ (rotate id).
Proof using Snd. unfold rotate. sound. Qed.
Hint Resolve b_goOffline b_finishGrant b_needClient b_revokeRequests b_rotate : sound.

(** ** All that the host calls, given what touches the queues and the blobs *)

Context (Load : forall id, Phi _ (loadOutbox id)) (Prepare : forall n id l, Phi _ (prepareOps n id l)).
Hint Resolve Load Prepare : sound.

Lemma a_applyNow id ops : Phi _ (applyNow id ops).
Proof using Snd Load Prepare. unfold applyNow. sound. Qed.
Hint Resolve a_applyNow : sound.

Context (Send : forall id, Phi _ (sendOutbox turns id)) (Drop : forall id, Phi _ (dropContainer id))
  (ForgetRemoved : forall es c, Phi _ (forgetRemoved es c)) (Gc : forall id, Phi _ (collectGarbage id))
  (Create : forall r n, Phi _ (createContainer r n)).
Hint Resolve Send Drop ForgetRemoved Gc Create : sound.

Lemma a_attach id : Phi _ (attach id).
Proof using Snd Load Drop. unfold attach. sound. Qed.
Hint Resolve a_attach : sound.
Lemma a_attachListed me es p : Phi _ (attachListed me es p).
Proof using Snd Load Drop. unfold attachListed. sound. Qed.
Lemma a_dropRevoked me o l c : Phi _ (dropRevoked me o l c).
Proof using Snd Drop. unfold dropRevoked. sound. Qed.
Hint Resolve a_attachListed a_dropRevoked : sound.
Lemma a_discover : Phi _ discover.
Proof using Snd Load Drop ForgetRemoved. unfold discover. sound. Qed.
Hint Resolve a_discover : sound.
Lemma a_ensureRoot b : Phi _ (ensureRoot b).
Proof using Snd Load Drop ForgetRemoved Create. unfold ensureRoot, ensureRootStep. sound. Qed.
Hint Resolve a_ensureRoot : sound.
Lemma a_purgeExpiredTrash id : Phi _ (purgeExpiredTrash turns id).
Proof using Snd Load Prepare Send. unfold purgeExpiredTrash. sound. Qed.
Hint Resolve a_purgeExpiredTrash : sound.
Lemma a_syncSteps id : Phi _ (syncSteps turns id).
Proof using Snd Load Prepare Send Gc. unfold syncSteps, markTrashChecked. sound. Qed.
Hint Resolve a_syncSteps : sound.
Lemma a_syncContainer id : Phi _ (syncContainer turns id).
Proof using Snd Load Prepare Send Gc Drop. unfold syncContainer. sound. Qed.
Hint Resolve a_syncContainer : sound.
Lemma a_syncAll : Phi _ (syncAll turns).
Proof using Snd Load Prepare Send Gc Drop.
  unfold syncAll. sound. generalize false. induction (ec_id <$> _) as [|id ids IH]; intros b; sound.
Qed.
Hint Resolve a_syncAll : sound.
Lemma a_syncTry b : Phi _ (syncTry turns b).
Proof using All. unfold syncTry. sound. Qed.
Hint Resolve a_syncTry : sound.
Lemma a_syncNow b : Phi _ (syncNow libraryText turns b).
Proof using All. unfold syncNow. sound. Qed.
Hint Resolve a_syncNow : sound.
Lemma a_sendSoonQueue : Phi _ (sendSoonQueue libraryText turns).
Proof using Snd Send. unfold sendSoonQueue, sendQuietly. sound. Qed.
Lemma a_runGrantRequests id j : Phi _ (runGrantRequests id j).
Proof using Snd Load Drop. unfold runGrantRequests. sound. Qed.
Lemma a_runEngineEvent id : Phi _ (runEngineEvent turns id).
Proof using Snd Load Prepare Send Gc Drop. unfold runEngineEvent. sound. Qed.
Hint Resolve a_sendSoonQueue a_runGrantRequests a_runEngineEvent : sound.
Lemma a_tick : Phi _ (tick libraryText turns).
Proof using All. unfold tick, runEvents, fireAt. sound. Qed.
Lemma a_apply c ops : Phi _ (apply c ops).
Proof using All. unfold apply. sound. Qed.

Context (LeaveNow : forall id, Phi _ (leaveNow id)) (Remove : forall id, Phi _ (removeFolder turns id)).
Hint Resolve LeaveNow Remove a_tick a_apply : sound.

(** What the host calls; a blob is noted only when it is of this device. [reset],
    by which an account is left, is apart ([DriveRuns.turn]). *)
Inductive operation (mine : bytes -> Prop) : forall A : Type, C A -> Prop :=
| op_ensure b : operation mine _ (ensure libraryText turns b)
| op_ensureSoon b : operation mine _ (ensureSoon b)
| op_setActive b : operation mine _ (setActive b)
| op_setVisible b : operation mine _ (setVisible b)
| op_apply c ops : operation mine _ (apply c ops)
| op_flush id : operation mine _ (flush turns id)
| op_noteOwnBlob f : mine f -> operation mine _ (noteOwnBlob f)
| op_syncNow b : operation mine _ (syncNow libraryText turns b)
| op_tick : operation mine _ (tick libraryText turns)
| op_checkDrive : operation mine _ checkDrive
| op_containers : operation mine _ containers
| op_stateJson id : operation mine _ (stateJson id)
| op_status : operation mine _ status
| op_rootId : operation mine _ rootId
| op_createFolder n : operation mine _ (createFolder n)
| op_share id u r t : operation mine _ (share id u r t)
| op_unshare id u : operation mine _ (unshare id u)
| op_answerInvite id b : operation mine _ (answerInvite id b)
| op_noteRemoteDomain d : operation mine _ (noteRemoteDomain d)
| op_leave id : operation mine _ (leave id)
| op_removeFolder id : operation mine _ (removeFolder turns id)
| op_rotate id : operation mine _ (rotate id)
| op_keysExport : operation mine _ keysExport
| op_keysImport j : operation mine _ (keysImport j)
| op_onEngineEvent id : operation mine _ (onEngineEvent id).

Lemma method_sound (mine : bytes -> Prop) A (m : C A) : (forall f, mine f -> Phi _ (noteOwnBlob f)) ->
  operation mine A m -> Phi _ m.
Proof using All.
  intros N O. destruct O; try (by auto with sound).
  - unfold ensure. sound.
  - unfold ensureSoon. sound.
  - unfold setActive. sound.
  - unfold setVisible. sound.
  - unfold flush. sound.
  - unfold checkDrive, checkSteps. sound.
  - unfold containers. sound.
  - unfold stateJson, answer. sound.
  - unfold status. sound.
  - unfold createFolder. sound.
  - unfold share. sound.
  - unfold unshare. sound.
  - unfold answerInvite. sound.
  - unfold leave. sound.
  - unfold keysExport, answer. sound.
  - unfold keysImport. sound.
  - unfold onEngineEvent. sound.
Qed.
End Beside.

(** A call of the host, and what it leaves. *)
Definition called (mine : bytes -> Prop) (s s' : St) : Prop := exists A (m : C A), operation mine A m /\ s' = (m s).2.
End Host.

#[export] Hint Constructors hostCall : sound.
#[export] Hint Resolve outboxRecord_ne : sound.
#[export] Hint Extern 5 (besideBoth _) => (intros ?; split; reflexivity) : sound.
#[export] Hint Extern 5 (_ <> kCloudOwnBlobsRecord) => discriminate : sound.

(** Takes a method apart, given that the pieces are sound. *)
Ltac beside :=
  first [apply b_engine | apply b_engineNeeds | apply b_hasClient | apply b_isAttached | apply b_hasKey | apply b_touch | apply b_reapply
        | apply b_forget | apply b_forgetRecord | apply b_addLost | apply b_dropEntry | apply b_onChanged | apply b_clean | apply b_persist
        | apply b_recordOwn | apply b_shareWithOwnDevices | apply b_saveOutbox | apply b_isReady | apply b_nowMs | apply b_runReq
        | apply b_sealAndSend | apply b_afterError | apply b_needClient | apply b_findEngine | apply b_revokeRequests | apply b_run
        | apply b_self | apply b_loadGcDone | apply b_readStrings | apply b_markDone | apply b_recordDone]; assumption.
Ltac pieces := repeat first [solve [eauto with sound nocore] | solve [beside] | sound_step].

End CloudPieces.
