(* ===== verification/CloudBench.v ===== *)
(** * CloudBench: a small host for the cloud's synchroniser

    A host with an engine, a server that answers with the errors it is given, a
    record of own blobs and the hook that erases a blob; the theorems about
    [CloudSync] are run on it. *)

From S2P Require Import Prelude Json PlannerUtil DomainSync CloudOps Host CloudSync CloudPieces.
Import Base64 Sync CloudOps CloudSync CloudPieces.

Module CloudBench.

#[local] Open Scope Z_scope.

(** What the server took or refused for good; the answers it will give (the code
    of an error, or none); the containers the engine was told to forget or leave;
    the blobs erased; the record of own blobs; how many grants are still to come. *)
Record Bench := mkBench {
  answered : list bytes;
  faults : list (option bytes);
  gone : list bytes;
  erased : list bytes;
  ownRecord : list bytes;
  grants : nat
}.

Definition answer (method : bytes) (rest : list (option bytes)) (e : Bench) : Bench :=
  mkBench (method :: answered e) rest (gone e) (erased e) (ownRecord e) (grants e).
Definition dropFault (rest : list (option bytes)) (e : Bench) : Bench :=
  mkBench (answered e) rest (gone e) (erased e) (ownRecord e) (grants e).
Definition goes (id : bytes) (e : Bench) : Bench :=
  mkBench (answered e) (faults e) (id :: gone e) (erased e) (ownRecord e) (grants e).
Definition erases (f : bytes) (e : Bench) : Bench :=
  mkBench (answered e) (faults e) (gone e) (f :: erased e) (ownRecord e) (grants e).
Definition notes (l : list bytes) (e : Bench) : Bench :=
  mkBench (answered e) (faults e) (gone e) (erased e) l (grants e).
Definition grantComes (e : Bench) : Bench :=
  mkBench (answered e) (faults e) (gone e) (erased e) (ownRecord e) (pred (grants e)).

(** A request of an operation carries its identifier as the method. *)
Definition requestOf (method : bytes) (e : Bench) : result Thrown bytes * Bench :=
  match faults e with
  | Some c :: l => (Err (BusError c), if bool_decide (c = #"ERROR_CODE_UNAVAILABLE") || bool_decide (c = #"ERROR_CODE_EXPIRED")
                                      then dropFault l e else answer method l e)
  | l => (Ok [], answer method (tail l) e)
  end.

Definition blob (f : bytes) : json := jobj [(#"fileId", JStr f); (#"uploader", JStr (#"me"))].
(** A file, and two that were erased. *)
Definition tree : json := jobj [(#"nodes", JArr [jobj [(#"id", JStr (#"n1")); (#"blob", jobj [(#"fileId", JStr (#"f9"))])]]);
                                (#"purgedBlobs", JArr [blob (#"f1"); blob (#"f2")])].

Definition argId (args : json) : bytes := match jfind (#"id") args with Some (JStr s) => s | _ => [] end.

(** A batch the engine refuses. *)
Definition isBad (args : json) : bool :=
  match jfind (#"opsJson") args with
  | Some batch => match jfind (#"ops") batch with Some (JArr (JStr _ :: _)) => true | _ => false end
  | None => false
  end.

Definition engineOf (name : bytes) (args : json) (e : Bench) : result Thrown json * Bench :=
  if bool_decide (name = #"cloudForget") || bool_decide (name = #"cloudLeave") then (Ok JNull, goes (argId args) e)
  else if bool_decide (name = #"cloudPrepareLocal") then
    if isBad args then (Err (OtherError (#"bad")), e) else (Ok (jobj [(#"opId", JStr (#"c3")); (#"op", JStr (#"three"))]), e)
  else if bool_decide (name = #"cloudSeal") then
    (Ok (jobj [(#"method", match jfind (#"opIdHex") args with Some j => j | None => JNull end)]), e)
  else if bool_decide (name = #"cloudIsAttached") || bool_decide (name = #"cloudHasKey") then (Ok (JBool true), e)
  else if bool_decide (name = #"cloudGrantVersion") then (Ok (JUnsigned (Z.max 0 (10 - Z.of_nat (grants e)))), e)
  else if bool_decide (name = #"cloudIngestGrants") then (Ok JNull, grantComes e)
  else if bool_decide (name = #"cloudCreate") then (Ok (jobj [(#"id", JStr (#"bb"))]), e)
  else if bool_decide (name = #"cloudStateJson") then (Ok tree, e)
  else (Ok JNull, e).

#[export] Instance bench_transport : DomainTransport Bench := {
  t_engine := engineOf;
  t_engineWithNeeds := engineOf;
  t_request _ m _ _ := requestOf m;
  t_encodeMethod _ _ e := (Ok [], e);
  t_decodeMethod _ _ e := (Ok (JObj []), e);
  t_hasClient e := (Ok true, e);
  t_isReady e := (Ok true, e);
  t_needsLinking e := (Ok false, e);
  t_self e := (Ok (#"me"), e);
  t_serverDomain e := (Ok (#"home"), e);
  t_persist e := (Ok tt, e);
  t_nowMs e := (Ok 1000, e)
}.

#[export] Instance bench_records : RecordStore Bench := {
  r_load k e := (Ok (if bool_decide (k = kCloudOwnBlobsRecord) then Some (JArr (JStr <$> ownRecord e)) else None), e);
  r_save k j e := (Ok tt, if bool_decide (k = kCloudOwnBlobsRecord) then notes (match j with JArr l => strings l | _ => [] end) e else e);
  r_remove k e := (Ok tt, if bool_decide (k = kCloudOwnBlobsRecord) then notes [] e else e)
}.

#[export] Instance bench_hooks : CloudHooks Bench := {
  h_stateEntries := None;
  h_recordEntry := None;
  h_deleteBlob := Some (fun f e => (Ok tt, erases f e));
  h_refreshPeerLog := None;
  h_onChanged := None
}.

Lemma strings_of (l : list bytes) : strings (JStr <$> l) = l.
Proof. induction l as [|x l IH]; [done|]. cbn. f_equal. exact IH. Qed.

(** A property of two environments that the three changes have is one of all
    calls. *)
Lemma bench_calls (R : Bench -> Bench -> Prop) : (forall e, R e e) -> (forall m l e, R e (answer m l e)) -> (forall l e, R e (dropFault l e)) ->
  (forall i e, R e (goes i e)) -> (forall e, R e (grantComes e)) -> forall A h, hostCall A h -> forall e, R e (h e).2.
Proof.
  intros R1 R2 R3 R4 R5 A h C e.
  assert (forall n j, R e (engineOf n j e).2) as En by (intros n j; unfold engineOf; repeat case_match; cbn; auto).
  destruct C; try discriminate; try apply En; try apply R1.
  - cbn. unfold requestOf. repeat case_match; cbn; auto.
  - cbn. by rewrite bool_decide_eq_false_2.
  - cbn. by rewrite bool_decide_eq_false_2.
Qed.

Definition anyText (e : exn) : bytes := #"error".
Definition twoItems : list OutboxItem := [{| opId := #"a1"; op := #"one" |}; {| opId := #"b2"; op := #"two" |}].

(** Two operations in the queue of a container. *)
Definition start (faults : list (option bytes)) (grants : nat) : CloudSync * Bench :=
  (set_outboxes_ {[ #"aa" := twoItems ]} newSync, mkBench [] faults [] [] [] grants).
End CloudBench.
