(* ===== verification/CloudQueue.v ===== *)
(** * CloudQueue: what the cloud's synchroniser does not lose

    Theorems about [CloudSync] for any host. Section [Queue]: an operation leaves
    the queue of a container at its front, when the server has taken or refused
    it, or the engine was told to forget the container. *)

From S2P Require Import Prelude Json PlannerUtil DomainSync CloudOps Host CloudSync CloudPieces CloudBench.
Import Base64 Sync CloudOps CloudSync CloudPieces CloudBench.

Module CloudQueue.

#[local] Open Scope Z_scope.

Section Host.
Context {Env : Type} {T : DomainTransport Env} {Rec : RecordStore Env} {H : CloudHooks Env}.
Context (libraryText : exn -> bytes) (turns : nat).
Notation C := (M CloudSync Env).
Notation St := (CloudSync * Env)%type.

(** The queues are as they were. *)
Definition sameQueues (s s' : St) : Prop := outboxes_ s'.1 = outboxes_ s.1.

#[local] Instance sameQueues_pre : PreOrder sameQueues.
Proof. split; [done|]. intros s s1 s2 E1 E2. unfold sameQueues in *. congruence. Qed.

Lemma sameQueues_sound : Sound hostCall besideBoth (keeps sameQueues).
Proof.
  apply keeps_sound; [apply _| |].
  - intros A h _ s. unfold sameQueues. by rewrite lift_state.
  - intros f B s. apply B.
Qed.

Lemma same_outboxOf (i : bytes) (s s' : St) : sameQueues s s' -> outboxOf i s'.1 = outboxOf i s.1.
Proof. intros E. unfold outboxOf. by rewrite E. Qed.

(** ** The queue of a container *)

Section Queue.
(** A container; the operations the server has taken or refused for good; whether
    the container was given up, which is when the engine was told to forget or
    leave it, or was found to be absent (a container is then dropped without it);
    whether the engine knows its identifier. *)
Context (id : bytes) (settled : Env -> bytes -> Prop) (released known : Env -> Prop).

(** What has happened stays so. *)
Definition later (env env' : Env) : Prop :=
  (forall i, settled env i -> settled env' i) /\ (released env -> released env') /\ (known env -> known env').

(** The server has what it answers, and what it refuses it will not take later;
    the engine does not create a container with an identifier it knows. *)
Class QueueLaws : Prop := {
  law_later A h : hostCall A h -> forall env, later env (h env).2;
  law_delete f h env : h_deleteBlob = Some h -> later env (h f env).2;
  law_own j env : later env (r_save kCloudOwnBlobsRecord j env).2;
  law_client env : (t_hasClient env).1 = Ok false -> released (t_hasClient env).2;
  law_forget env v : (t_engine (#"cloudForget") (idArg id) env).1 = Ok v -> released (t_engine (#"cloudForget") (idArg id) env).2;
  law_leave env now v : (t_engine (#"cloudLeave") (tsArg id now) env).1 = Ok v -> released (t_engine (#"cloudLeave") (tsArg id now) env).2;
  law_create env a made : known env -> (t_engine (#"cloudCreate") a env).1 = Ok made -> value_str made (#"id") [] <> Ok id;
  law_sent item s : let r := sealAndSend id item s in
    match r.1 with
    | Done _ => settled r.2.2 (opId item)
    | Threw (BusError c) => isRefused c = true \/ c = #"ERROR_CODE_DUPLICATE" -> settled r.2.2 (opId item)
    | _ => True
    end
}.
Context {Laws : QueueLaws}.

(** What all code keeps; and what it keeps of the queue. *)
Definition onward (s s' : St) : Prop := later s.2 s'.2.
Definition inOrder (s s' : St) : Prop := onward s s' /\
  (known s.2 -> released s'.2 \/ passed (fun item => settled s'.2 (opId item)) (outboxOf id s.1) (outboxOf id s'.1)).

#[local] Instance later_pre : PreOrder later.
Proof. split; [intros s; split_and!; auto|]. intros s s1 s2 (A1 & A2 & A3) (B1 & B2 & B3). split_and!; auto. Qed.
#[local] Instance onward_pre : PreOrder onward.
Proof. split; [intros s; unfold onward; reflexivity|]. intros s s1 s2 A B. unfold onward in *. by etrans. Qed.

#[local] Instance inOrder_pre : PreOrder inOrder.
Proof.
  split; [intros s; split; [reflexivity|intros _; right; apply passed_refl]|].
  intros s s1 s2 [L1 Q1] [L2 Q2]. split; [by etrans|]. intros K. destruct L1 as (_ & _ & K1). destruct (Q2 (K1 K)) as [R|P2]; [by left|].
  destruct (Q1 K) as [R|P1]; [left; by apply L2|right]. eapply passed_trans; [exact P1|intros i; apply L2|exact P2].
Qed.

Definition anyCall (A : Type) (h : Env -> result Thrown A * Env) : Prop := forall env, later env (h env).2.

Lemma onward_lift {A} (h : Env -> result Thrown A * Env) : anyCall A h -> keeps onward A (lift h).
Proof. intros C s. unfold onward. rewrite lift_env. apply C. Qed.

Lemma onward_sound : Sound anyCall (fun _ => True) (keeps onward).
Proof. apply keeps_sound; [apply _|intros A h; apply onward_lift|]. intros f _ s. unfold onward. cbn. reflexivity. Qed.

(** Where the queue is as before, or was empty, or was given up. *)
Lemma inOrder_same (s s' : St) : onward s s' -> outboxOf id s'.1 = outboxOf id s.1 -> inOrder s s'.
Proof. intros L E. split; [done|]. intros _. right. rewrite E. apply passed_refl. Qed.

Lemma inOrder_empty (s s' : St) : onward s s' -> outboxOf id s.1 = [] -> inOrder s s'.
Proof. intros L E. split; [done|]. intros _. right. rewrite E. apply passed_nil. Qed.

Lemma inOrder_released (s s' : St) : onward s s' -> released s.2 -> inOrder s s'.
Proof. intros L R. split; [done|]. intros _. left. by apply L. Qed.

Lemma inOrder_sound_all : Sound anyCall (fun f => forall s, outboxOf id (f s) = outboxOf id s) (keeps inOrder).
Proof.
  apply keeps_sound; [apply _| |].
  - intros A h C s. apply inOrder_same; [by apply onward_lift|by rewrite lift_state].
  - intros f F s. apply inOrder_same; [unfold onward; cbn; reflexivity|apply F].
Qed.

Lemma inOrder_sound : Sound hostCall besideBoth (keeps inOrder).
Proof.
  eapply sound_weaken; [| |exact inOrder_sound_all]; [intros A h C env; by apply (law_later A)|].
  intros f B s. unfold outboxOf. by rewrite (proj1 (B s)).
Qed.

Lemma onward_beside : Sound hostCall besideBoth (keeps onward).
Proof. eapply sound_weaken; [| |exact onward_sound]; [intros A h C env; by apply (law_later A)|done]. Qed.

#[local] Existing Instances onward_beside inOrder_sound sameQueues_sound.

(** *** Reading and writing a queue *)

Lemma outboxOf_other (id' : bytes) (l : list OutboxItem) (s : CloudSync) : id' <> id ->
  outboxOf id (set_outboxes_ (<[id' := l]> (outboxes_ s)) s) = outboxOf id s.
Proof. intros N. unfold outboxOf. cbn. by rewrite lookup_insert_ne. Qed.

Lemma outboxOf_erased (id' : bytes) (s : CloudSync) : id' <> id -> outboxOf id (set_outboxes_ (delete id' (outboxes_ s)) s) = outboxOf id s.
Proof. intros N. unfold outboxOf. cbn. by rewrite lookup_delete_ne. Qed.

Lemma outboxOf_put (l : list OutboxItem) (s : CloudSync) : outboxOf id (set_outboxes_ (<[id := l]> (outboxes_ s)) s) = l.
Proof. unfold outboxOf. cbn. by rewrite lookup_insert_eq. Qed.

Lemma onward_set (id' : bytes) l : keeps onward _ (setOutbox (Env := Env) id' l).
Proof. apply (@sound_modify _ _ _ _ _ onward_sound). done. Qed.
Lemma onward_erase (id' : bytes) : keeps onward _ (eraseOutbox (Env := Env) id').
Proof. apply (@sound_modify _ _ _ _ _ onward_sound). done. Qed.
Hint Resolve onward_set onward_erase : sound.

Lemma inOrder_set (id' : bytes) l : id' <> id -> keeps inOrder _ (setOutbox (Env := Env) id' l).
Proof. intros N. apply (@sound_modify _ _ _ _ _ inOrder_sound_all). intros s. by apply outboxOf_other. Qed.
Lemma inOrder_erase (id' : bytes) : id' <> id -> keeps inOrder _ (eraseOutbox (Env := Env) id').
Proof. intros N. apply (@sound_modify _ _ _ _ _ inOrder_sound_all). intros s. by apply outboxOf_erased. Qed.

Lemma onward_loadOutbox (id' : bytes) : keeps onward _ (loadOutbox id').
Proof. pose proof onward_beside as Q. unfold loadOutbox. pieces. Qed.

Lemma inOrder_loadOutbox (id' : bytes) : keeps inOrder _ (loadOutbox id').
Proof.
  destruct (decide (id' = id)) as [->|N].
  - intros s. destruct (outboxes_ s.1 !! id) as [l|] eqn:E.
    + assert ((loadOutbox id s).2 = s) as -> by (unfold loadOutbox, bind, gets; by rewrite E). reflexivity.
    + apply inOrder_empty; [apply onward_loadOutbox|]. unfold outboxOf. by rewrite E.
  - pose proof inOrder_sound as Q. pose proof (inOrder_set id') as I. unfold loadOutbox. pieces; by apply I.
Qed.

(** *** Blobs do not touch a queue *)

Lemma inOrder_deleteBlob f : keeps inOrder _ (deleteBlob f).
Proof.
  unfold deleteBlob. destruct h_deleteBlob as [h|] eqn:E; [|apply (@sound_ret _ _ _ _ _ inOrder_sound)].
  apply (@sound_lift _ _ _ _ _ inOrder_sound_all). intros env. by apply law_delete.
Qed.

Lemma inOrder_setOwn v : keeps inOrder _ (modify (Env := Env) (set_ownBlobs_ v)).
Proof. by apply (@sound_modify _ _ _ _ _ inOrder_sound_all). Qed.
Hint Resolve inOrder_deleteBlob inOrder_setOwn : sound.

Lemma inOrder_loadOwnBlobs : keeps inOrder _ loadOwnBlobs.
Proof. pose proof inOrder_sound as Q. unfold loadOwnBlobs. pieces. Qed.
Hint Resolve inOrder_loadOwnBlobs : sound.

Lemma inOrder_noteOwnBlob f : keeps inOrder _ (noteOwnBlob f).
Proof.
  pose proof inOrder_sound as Q. unfold noteOwnBlob. pieces. apply (@sound_lift _ _ _ _ _ inOrder_sound_all). intros env. apply law_own.
Qed.

Lemma inOrder_eraseBlobs me own l : forall b, keeps inOrder _ (eraseBlobs me own l b).
Proof. pose proof inOrder_sound as Q. induction l as [|x l IH]; intros b; cbn [eraseBlobs]; pieces. Qed.
Hint Resolve inOrder_eraseBlobs : sound.

Lemma inOrder_collectGarbage i : keeps inOrder _ (collectGarbage i).
Proof. pose proof inOrder_sound as Q. unfold collectGarbage. pieces. Qed.

(** *** Edits and sending *)

Lemma onward_prepareOps n i : forall l, keeps onward _ (prepareOps n i l).
Proof. pose proof onward_beside as Q. induction n as [|n IH]; intros [|c l]; cbn [prepareOps]; pieces. by intros s. Qed.

Lemma inOrder_push (i : bytes) (item : OutboxItem) {A} (k : C A) : keeps inOrder _ k ->
  keeps inOrder _ (let* items := gets (outboxOf i) in setOutbox i (items ++ [item]) ;;; k).
Proof.
  intros K s. unfold bind at 1, gets. cbn iota. apply (keeps_then inOrder); [|intros _ _; apply K].
  destruct (decide (i = id)) as [->|N]; [|by apply inOrder_set].
  split; [apply onward_set|]. intros _. right. cbn [setOutbox modify snd fst]. rewrite outboxOf_put. apply passed_push.
Qed.

Lemma inOrder_prepareOps n i : forall l, keeps inOrder _ (prepareOps n i l).
Proof.
  pose proof inOrder_sound as Q. induction n as [|n IH]; intros [|c l]; cbn [prepareOps];
    repeat first [apply inOrder_push; apply IH | solve [eauto with sound nocore] | solve [beside] | sound_step]. by intros s.
Qed.

(** The server has the operation or will not have it. *)
Lemma turn_settled (item : OutboxItem) (s : St) (res : bytes + Thrown) :
  (attempt (sealAndSend id item) s).1 = Done res ->
  let s1 := (attempt (sealAndSend id item) s).2 in
  forall b, (match res with inl _ => ret (Sent false) | inr e => afterError id e end s1).1 = Done (Sent b) -> settled s1.2 (opId item).
Proof.
  pose proof (law_sent item s) as L. cbv zeta in L. unfold attempt. destruct (sealAndSend id item s) as [[x|e|] s'] eqn:E; cbn [fst snd] in *; [intros _ b _; exact L| |done].
  intros [= <-] b D. destruct e as [c| |]; [|discriminate D..]. apply L. unfold afterError in D. cbn [errorCode] in D.
  case_bool_decide as Ex.
  - exfalso. apply bind_done in D as (v & s1 & _ & D). apply bind_done in D as (? & s2 & _ & D). apply bind_done in D as (v' & s3 & _ & D).
    destruct (v' =? v); [done|]. apply bind_done in D as (k & s4 & _ & D). by destruct k.
  - destruct (isRefused c); [by left|]. case_bool_decide; [by right|done].
Qed.


Lemma inOrder_sendLoop_other (fuel : nat) (i : bytes) : i <> id -> forall n, keeps inOrder _ (sendLoop fuel i n).
Proof.
  intros N. pose proof inOrder_sound as Q.
  assert (Tail : keeps inOrder _ (modify (Env := Env) (fun s => set_outboxes_ (<[i := tail (outboxOf i s)]> (outboxes_ s)) s))).
  { apply (@sound_modify _ _ _ _ _ inOrder_sound_all). intros s. by apply outboxOf_other. }
  induction fuel as [|fuel IH]; intros n; cbn [sendLoop]; pieces. by intros s.
Qed.

Lemma inOrder_sendLoop (fuel : nat) : forall n, keeps inOrder _ (sendLoop fuel id n).
Proof.
  pose proof inOrder_sound as Q. pose proof sameQueues_sound as Sq. induction fuel as [|fuel IH]; intros n s; cbn [sendLoop].
  all: apply (keeps_then inOrder); [by apply (@sound_gets _ _ _ _ _ Q)|]; intros items [= <-]; cbn [snd gets].
  { by destruct (outboxOf id s.1). }
  destruct (outboxOf id s.1) as [|item l] eqn:O; [reflexivity|].
  apply (keeps_then inOrder); [exact (b_hasKey (keeps inOrder) id s)|]. intros k _. set (s1 := (hasKey id s).2).
  assert (O1 : outboxOf id s1.1 = item :: l) by (rewrite <- O; apply same_outboxOf, (b_hasKey (keeps sameQueues))). clearbody s1.
  destruct k; cbn [negb]; [|reflexivity].
  apply (keeps_then inOrder); [exact (@sound_attempt _ _ _ _ _ Q _ _ (b_sealAndSend (keeps inOrder) id item) s1)|]. intros res Dr.
  pose proof (turn_settled item s1 res Dr) as A. set (s2 := (attempt (sealAndSend id item) s1).2) in *.
  assert (O2 : outboxOf id s2.1 = item :: l).
  { rewrite <- O1. apply same_outboxOf. exact (@sound_attempt _ _ _ _ _ Sq _ _ (b_sealAndSend (keeps sameQueues) id item) s1). }
  cbv zeta in A. clearbody s2. clear Dr.
  set (after := match res with inl _ => ret (Sent false) | inr e => afterError id e end) in *.
  assert (keeps inOrder _ after /\ keeps sameQueues _ after) as [K1 K2].
  { subst after. split; destruct res; try (by intros x); by apply b_afterError. }
  clearbody after. apply (keeps_then inOrder); [apply K1|]. intros turn Dt. destruct (K1 s2) as [(G3 & _) _].
  pose proof (same_outboxOf id s2 _ (K2 s2)) as O3. rewrite O2 in O3. set (s3 := (after s2).2) in *.
  destruct turn as [refused| |]; [|apply IH|reflexivity]. specialize (G3 _ (A _ Dt)). clear A Dt K1 K2. clearbody s3.
  apply (keeps_then inOrder); [|intros _ _; apply (keeps_then inOrder); [exact (b_saveOutbox (keeps inOrder) id _)|intros _ _; apply IH]].
  split; [unfold onward; reflexivity|]. intros _. right. cbn [modify snd fst]. rewrite outboxOf_put, O3. by apply passed_tail.
Qed.

Lemma inOrder_sendOutbox (i : bytes) : keeps inOrder _ (sendOutbox turns i).
Proof.
  pose proof inOrder_sound as Q. pose proof (inOrder_loadOutbox i) as L. unfold sendOutbox. pieces.
  destruct (decide (i = id)) as [->|N]; [apply inOrder_sendLoop|by apply inOrder_sendLoop_other].
Qed.

(** *** What gives a queue up *)

Lemma inOrder_then {A B} (m : C A) (k : A -> C B) : keeps inOrder _ m -> (forall s a, (m s).1 = Done a -> released (m s).2.2) ->
  (forall a, keeps onward _ (k a)) -> keeps inOrder _ (bind m k).
Proof.
  intros Hm R K s. apply (keeps_then inOrder); [apply Hm|]. intros a D. apply inOrder_released; [apply K|]. by apply (R _ a).
Qed.

Lemma forget_releases (s : St) u : (forget id s).1 = Done u -> released (forget id s).2.2.
Proof.
  pose proof (law_client s.2) as Lc. intros D.
  assert (forget id s = match t_hasClient s.2 with
    | (Ok true, env) => (engine (#"cloudForget") (idArg id) ;;; ret tt) (s.1, env)
    | (Ok false, env) => (Done tt, (s.1, env))
    | (Err x, env) => (Threw x, (s.1, env))
    end) as Ef.
  { unfold forget, hasClient. unfold bind at 1, lift. by destruct (t_hasClient s.2) as [[[|]|x] env]. }
  rewrite Ef in *. destruct (t_hasClient s.2) as [[[|]|x] env]; cbn [fst snd] in *; [|by apply Lc|done].
  apply bind_done in D as (v & s' & E & _). unfold bind. rewrite E. cbn [ret snd]. apply lift_ok in E as [E _].
  cbn [snd] in E. pose proof (law_forget env v) as F. rewrite E in F. by apply F.
Qed.

Lemma onward_dropped (i : bytes) : keeps onward _ (touch ;;; eraseOutbox (Env := Env) i ;;; forgetRecord i ;;; addLost i ;;; dropEntry i ;;; onChanged).
Proof. pose proof onward_beside as Q. pieces. Qed.

Lemma inOrder_dropContainer i : keeps inOrder _ (dropContainer i).
Proof.
  pose proof inOrder_sound as Q. unfold dropContainer. destruct (decide (i = id)) as [->|N].
  - apply inOrder_then; [apply b_forget; assumption|intros s a; apply forget_releases|]. intros _. apply onward_dropped.
  - pose proof (inOrder_erase i N). pieces.
Qed.

Lemma inOrder_forgetRemoved es c : keeps inOrder _ (forgetRemoved es c).
Proof.
  pose proof inOrder_sound as Q. unfold forgetRemoved. apply (@sound_bind _ _ _ _ _ Q); [pieces|intros l].
  destruct (entryOf es (ec_id c)) as [e|]; [|pieces]. destruct (_ || _); [pieces|]. destruct (decide (ec_id c = id)) as [->|N].
  - apply inOrder_then; [apply b_forget; assumption|intros s a; apply forget_releases|]. intros _. pose proof onward_beside as Q'. pieces.
  - pose proof (inOrder_erase _ N). pieces.
Qed.

Lemma inOrder_leaveNow i : keeps inOrder _ (leaveNow i).
Proof.
  pose proof inOrder_sound as Q. unfold leaveNow. destruct (decide (i = id)) as [->|N]; [|pose proof (inOrder_erase i N); pieces].
  apply (@sound_bind _ _ _ _ _ Q); [pieces|intros a]. destruct a; [|pieces]. apply (@sound_bind _ _ _ _ _ Q); [pieces|intros now].
  apply inOrder_then; [pieces| |intros req; pose proof onward_beside as Q'; pieces].
  intros s v D. unfold engine in *. rewrite lift_env. apply law_leave with (v := v). by apply lift_done in D.
Qed.

Lemma inOrder_removeFolder i : keeps inOrder _ (removeFolder turns i).
Proof.
  pose proof inOrder_sound as Q. pose proof (inOrder_sendOutbox i). pose proof (inOrder_collectGarbage i). unfold removeFolder.
  destruct (decide (i = id)) as [->|N]; [|pose proof (inOrder_erase i N); pieces].
  do 4 (apply (@sound_bind _ _ _ _ _ Q); [pieces|intros ?]).
  apply (@sound_bind _ _ _ _ _ Q); [pieces|intros ?].
  apply inOrder_then; [pieces| |intros ?; pose proof onward_beside as Q'; pieces].
  intros s v D. unfold engine in *. rewrite lift_env. apply law_forget with (v := v). by apply lift_done in D.
Qed.

(** *** A container made *)

Lemma onward_applyNow i ops : keeps onward _ (applyNow i ops).
Proof. apply (a_applyNow (keeps onward)); [apply onward_loadOutbox|apply onward_prepareOps]. Qed.
Lemma inOrder_applyNow i ops : keeps inOrder _ (applyNow i ops).
Proof. apply (a_applyNow (keeps inOrder)); [apply inOrder_loadOutbox|apply inOrder_prepareOps]. Qed.

(** What [createContainer] does with the container the engine has made. *)
Definition made_container (role name : bytes) (made : json) (i : bytes) : C bytes :=
  let* r := attempt (match jfind (#"request") made with Some req => runReq req | None => throw (Library Undefined) end) in
  match r with
  | inr e => engine (#"cloudForget") (idArg i) ;;; throw e
  | inl _ =>
      touch ;;; setOutbox i [] ;;; recordOwn (newEntry i role) ;;; clean ;;; persist ;;; shareWithOwnDevices i ;;;
      (match name with [] => ret tt | _ => applyNow i (metaOps name) end) ;;; ret i
  end.

Lemma onward_made role name made i : keeps onward _ (made_container role name made i).
Proof. pose proof onward_beside as Q. pose proof (onward_applyNow i). unfold made_container. pieces. Qed.
Hint Resolve onward_made : sound.

Lemma inOrder_made role name made i : i <> id -> keeps inOrder _ (made_container role name made i).
Proof. intros N. pose proof inOrder_sound as Q. pose proof (inOrder_set i [] N). pose proof (inOrder_applyNow i). unfold made_container. pieces. Qed.

Lemma onward_createContainer role name : keeps onward _ (createContainer role name).
Proof. pose proof onward_beside as Q. unfold createContainer. fold (made_container role name). pieces; apply onward_made. Qed.

(** A container known to the engine is not made again. *)
Lemma inOrder_createContainer role name : keeps inOrder _ (createContainer role name).
Proof.
  intros s. split; [apply onward_createContainer|]. intros K. cut (inOrder s (createContainer role name s).2); [by intros [_ G]; apply G|].
  pose proof inOrder_sound as Q. unfold createContainer.
  apply (keeps_then inOrder); [exact (b_hasClient (keeps inOrder) s)|]. intros c _.
  destruct (b_hasClient (keeps onward) s) as (_ & _ & K1). specialize (K1 K). set (s1 := (hasClient s).2) in *. clearbody s1.
  set (ready := if c then isReady else ret false).
  assert (forall Phi : forall A, C A -> Prop, Sound hostCall besideBoth Phi -> Phi _ ready) as Br by (intros Phi P; subst ready; destruct c; [by apply b_isReady|by apply (@sound_ret _ _ _ _ _ P)]).
  clearbody ready. apply (keeps_then inOrder); [exact (Br _ Q s1)|]. intros r _.
  destruct (Br (keeps onward) onward_beside s1) as (_ & _ & K2). specialize (K2 K1). set (s2 := (ready s1).2) in *. clearbody s2.
  destruct r; cbn [negb]; [|reflexivity].
  apply (keeps_then inOrder); [exact (b_nowMs (keeps inOrder) s2)|]. intros now _.
  destruct (b_nowMs (keeps onward) s2) as (_ & _ & K3). specialize (K3 K2). set (s3 := (nowMs s2).2) in *. clearbody s3.
  apply (keeps_then inOrder); [exact (b_engine (keeps inOrder) _ _ s3)|]. intros made D. apply lift_done in D. pose proof (law_create _ _ _ K3 D) as N.
  destruct (value_str made (#"id") []) as [i|e]; [|reflexivity]. cbn [ofResult]. unfold bind at 1, ret at 1.
  apply inOrder_made. congruence.
Qed.

(** *** All operations *)

Lemma operation_in_order {A} (m : C A) : operation libraryText turns (fun _ => True) A m -> keeps inOrder A m.
Proof.
  apply (method_sound libraryText turns _); intros.
  - apply inOrder_loadOutbox.
  - apply inOrder_prepareOps.
  - apply inOrder_sendOutbox.
  - apply inOrder_dropContainer.
  - apply inOrder_forgetRemoved.
  - apply inOrder_collectGarbage.
  - apply inOrder_createContainer.
  - apply inOrder_leaveNow.
  - apply inOrder_removeFolder.
  - apply inOrder_noteOwnBlob.
Qed.

Lemma calls_in_order (s s' : St) : rtc (called libraryText turns (fun _ => True)) s s' -> inOrder s s'.
Proof. induction 1 as [s|s s1 s2 (A & m & O & ->) _ IH]; [reflexivity|]. etrans; [exact (operation_in_order m O s)|exact IH]. Qed.

(** Property (cloud_queue_in_order): Whatever the host calls, in whatever order, and whichever of the
    calls to the engine, the server and the records fail: an operation leaves the
    queue of a container only at its front and only when the server has taken it
    or refused it for good, and what comes joins at the back; unless the container
    was given up. *)
Theorem cloud_queue_in_order (s s' : St) : rtc (called libraryText turns (fun _ => True)) s s' -> known s.2 ->
  released s'.2 \/
  exists k new, outboxOf id s'.1 = drop k (outboxOf id s.1) ++ new /\ Forall (fun item => settled s'.2 (opId item)) (take k (outboxOf id s.1)).
Proof. intros R K. by apply (proj2 (calls_in_order s s' R)). Qed.
End Queue.
End Host.

(** ** A run *)

Definition isAnswered (e : Bench) (i : bytes) : Prop := i ∈ answered e.
Definition isGone (e : Bench) : Prop := #"aa" ∈ gone e.

Lemma bench_later (e e' : Bench) : (forall i, isAnswered e i -> isAnswered e' i) -> (isGone e -> isGone e') ->
  later isAnswered isGone (fun _ => True) e e'.
Proof. intros A B. unfold later. split_and!; auto. Qed.

#[export] Instance bench_queue : QueueLaws (#"aa") isAnswered isGone (fun _ => True).
Proof.
  split.
  - apply bench_calls; intros; apply bench_later; unfold isAnswered, isGone; cbn; set_solver.
  - intros f h e [= <-]. by apply bench_later.
  - intros j e. apply bench_later; unfold isAnswered, isGone; cbn; by case_bool_decide.
  - done.
  - intros e v _. unfold isGone. cbn. set_solver.
  - intros e now v _. unfold isGone. cbn. set_solver.
  - intros e a m _ [= <-]. by vm_compute.
  - intros item s. assert (E : sealAndSend (#"aa") item s = lift (requestOf (opId item)) s) by (by destruct s).
    cbv zeta. rewrite E. unfold lift, requestOf, isAnswered. destruct (faults s.2) as [|[c|] l]; cbn; [set_solver| |set_solver].
    destruct (_ || _) eqn:B; cbn; [|set_solver]. intros D. exfalso. apply orb_true_iff in B.
    destruct B as [->%bool_decide_eq_true| ->%bool_decide_eq_true]; vm_compute in D; destruct D; discriminate.
Qed.

(** An edit, then a flush: the first operation of the queue is sent, the server
    has no time for the second, the edit is the third. *)
Definition before : CloudSync * Bench := start [None; Some (#"ERROR_CODE_UNAVAILABLE")] 0.
Definition edit : json := JArr [jobj [(#"op", JStr (#"meta"))]].
Definition edited : CloudSync * Bench := (apply (#"aa") edit before).2.
Definition after : CloudSync * Bench := (flush 5 (#"aa") edited).2.

Lemma cloud_called : rtc (called anyText 5 (fun _ => True)) before after.
Proof.
  eapply rtc_l; [exists _, (apply (#"aa") edit); split; [constructor|reflexivity]|].
  apply rtc_once. exists _, (flush 5 (#"aa")). split; [constructor|reflexivity].
Qed.

Lemma cloud_queue_in_order_witness :
  (rtc (called anyText 5 (fun _ => True)) before after /\ ~ isGone after.2 /\
   opId <$> outboxOf (#"aa") after.1 = (#"b2") :: (#"c3") :: nil /\ answered after.2 = (#"a1") :: nil) /\
  (isGone after.2 \/
   exists k new, outboxOf (#"aa") after.1 = drop k (outboxOf (#"aa") before.1) ++ new /\
     Forall (fun item => isAnswered after.2 (opId item)) (take k (outboxOf (#"aa") before.1))).
Proof.
  split; [split; [exact cloud_called|split; [|split; vm_compute; reflexivity]]|].
  - assert (gone after.2 = []) as E by (vm_compute; reflexivity). unfold isGone. rewrite E. apply not_elem_of_nil.
  - exact (cloud_queue_in_order anyText 5 (#"aa") isAnswered isGone (fun _ => True) before after cloud_called I).
Defined.

(** An edit of more operations than a batch takes, of which the engine refuses
    the second batch: the caller is told that it failed, and the first batch
    stays in the engine and in the queue, while the revision of the trees is as
    before and nothing is to be persisted. *)
Lemma half_edit_stays :
  let r := applyNow (#"aa") (JArr (replicate kMaxOpsPerBatch JNull ++ [JStr (#"bad")])) (start [] 0) in
  r.1 = Threw (OtherError (#"bad")) /\ opId <$> outboxOf (#"aa") r.2.1 = (#"a1") :: (#"b2") :: (#"c3") :: nil /\
  revision_ r.2.1 = 0 /\ isDirty_ r.2.1 = false.
Proof. by vm_compute. Qed.

End CloudQueue.
