(* ===== verification/CloudBlobs.v ===== *)
(** * CloudBlobs: what the cloud's synchroniser erases on the server

    Theorems about [CloudSync] for any host. Section [Blobs]: of the blobs of
    erased files only those are erased on the server that this device noted as
    its own. Section [Ends]: the loop that sends a queue ends. *)

From S2P Require Import Prelude Json PlannerUtil DomainSync CloudOps Host CloudSync CloudPieces CloudBench.
Import Base64 Sync CloudOps CloudSync CloudPieces CloudBench.

Module CloudBlobs.

#[local] Open Scope Z_scope.

Section Host.
Context {Env : Type} {T : DomainTransport Env} {Rec : RecordStore Env} {H : CloudHooks Env}.
Context (libraryText : exn -> bytes) (turns : nat).
Notation C := (M CloudSync Env).
Notation St := (CloudSync * Env)%type.

Section Blobs.
(** The blobs of this device; this user; what the engine reports as erased and
    uploaded by the user; what is erased on the server; what the record of own
    blobs holds. *)
Context (mine : bytes -> Prop) (me : bytes) (purged : bytes -> Prop) (erased recorded : Env -> bytes -> Prop).

(** Calls that erase nothing and note nothing. *)
Definition harmless (env env' : Env) : Prop :=
  (forall f, erased env' f -> erased env f) /\ (forall f, recorded env' f -> recorded env f).

Class BlobLaws : Prop := {
  law_harmless A h : hostCall A h -> forall env, harmless env (h env).2;
  law_erase f h env g : h_deleteBlob = Some h -> erased (h f env).2 g -> erased env g \/ g = f;
  law_erase_record f h env g : h_deleteBlob = Some h -> recorded (h f env).2 g -> recorded env g;
  law_note l env f : recorded (r_save kCloudOwnBlobsRecord (JArr (JStr <$> l)) env).2 f -> recorded env f \/ f ∈ l;
  law_note_erased l env f : erased (r_save kCloudOwnBlobsRecord (JArr (JStr <$> l)) env).2 f -> erased env f;
  law_noted env l f : (r_load kCloudOwnBlobsRecord env).1 = Ok (Some (JArr l)) -> f ∈ strings l -> recorded env f;
  law_self env v : (t_self env).1 = Ok v -> v = me;
  law_journal id env tree l b f : (t_engine (#"cloudStateJson") (idArg id) env).1 = Ok tree ->
    value_json tree (#"purgedBlobs") (JArr []) = Ok (JArr l) -> b ∈ l ->
    value_str b (#"fileId") [] = Ok f -> value_str b (#"uploader") [] = Ok me -> purged f
}.
Context {Laws : BlobLaws}.

(** What is noted is of this device. *)
Definition noted (s : St) : Prop :=
  (forall f, recorded s.2 f -> mine f) /\ (forall l, ownBlobs_ s.1 = Some l -> forall f, f ∈ l -> mine f).

(** So it stays, and only such blobs are erased. *)
Definition safe (s s' : St) : Prop := noted s ->
  noted s' /\ (forall f, erased s'.2 f -> erased s.2 f \/ mine f /\ purged f).

#[local] Instance safe_pre : PreOrder safe.
Proof.
  split; [intros s N; split; [done|]; by left|]. intros s s1 s2 A B N. destruct (A N) as [N1 E1], (B N1) as [N2 E2].
  split; [done|]. intros f F. destruct (E2 f F) as [?|?]; [by apply E1|by right].
Qed.

(** The own blobs in memory are as they were. *)
Definition besideOwn (f : CloudSync -> CloudSync) : Prop := forall s, ownBlobs_ (f s) = ownBlobs_ s.

Lemma safe_harmless (s s' : St) : harmless s.2 s'.2 -> ownBlobs_ s'.1 = ownBlobs_ s.1 -> safe s s'.
Proof.
  intros [E R] O [N1 N2]. split; [split|].
  - intros f F. by apply N1, R.
  - rewrite O. exact N2.
  - intros f F. left. by apply E.
Qed.

Lemma safe_sound : Sound hostCall besideOwn (keeps safe).
Proof.
  apply keeps_sound; [apply _| |].
  - intros A h Hh s. apply safe_harmless; [rewrite lift_env; by apply (law_harmless A)|by rewrite lift_state].
  - intros f F s. apply safe_harmless; [by split|apply F].
Qed.

#[local] Instance safe_beside : Sound hostCall besideBoth (keeps safe).
Proof. eapply sound_weaken; [| |exact safe_sound]; [done|]. intros f B s. by destruct (B s). Qed.

(** *** The blobs *)

Lemma strings_noted (s : St) l : noted s -> (readStrings kCloudOwnBlobsRecord s).1 = Done l -> forall f, f ∈ l -> mine f.
Proof.
  intros [N _]. unfold readStrings, attempt, lift, bind, ret. destruct (r_load kCloudOwnBlobsRecord s.2) as [[v|e] env] eqn:E; cbn.
  2: by intros [= <-] g ?%not_elem_of_nil.
  destruct v as [[| | | | | |a|]|]; intros [= <-] g F; try by apply not_elem_of_nil in F.
  apply N. eapply law_noted; [by rewrite E|done].
Qed.

Lemma safe_setOwn (s : St) l : (forall f, f ∈ l -> mine f) -> safe s (set_ownBlobs_ (Some l) s.1, s.2).
Proof. intros M [N1 N2]. split; [split; [done|]|by left]. cbn. by intros ? [= <-]. Qed.

Lemma loadOwnBlobs_noted (s : St) : noted s -> noted (loadOwnBlobs s).2 /\ safe s (loadOwnBlobs s).2 /\
  forall l, (loadOwnBlobs s).1 = Done l -> ownBlobs_ (loadOwnBlobs s).2.1 = Some l.
Proof.
  intros N. pose proof (b_readStrings (keeps safe) kCloudOwnBlobsRecord s) as A.
  assert (safe s (loadOwnBlobs s).2) as G.
  { unfold loadOwnBlobs. apply (keeps_then safe); [by apply (@sound_gets _ _ _ _ _ safe_sound)|]. intros known _. cbn [gets snd].
    destruct known as [l|]; [cbn; reflexivity|]. apply (keeps_then safe); [exact A|]. intros l D.
    cbn [modify ret bind snd fst]. apply (safe_setOwn _ l). exact (strings_noted s l N D). }
  split_and!; [by apply G|exact G|]. unfold loadOwnBlobs, bind, gets, modify, ret.
  destruct (ownBlobs_ s.1) as [l|] eqn:E; [by intros l' [= <-]|]. destruct (readStrings _ s) as [[l|e|] s1]; cbn; congruence.
Qed.

Lemma safe_loadOwnBlobs : keeps safe _ loadOwnBlobs.
Proof. intros s N. by apply (loadOwnBlobs_noted s N). Qed.

Lemma loadOwnBlobs_mine (s : St) l : noted s -> (loadOwnBlobs s).1 = Done l -> forall f, f ∈ l -> mine f.
Proof. intros N D. destruct (loadOwnBlobs_noted s N) as ([_ M] & _ & O). apply M. by apply O. Qed.

Lemma keepLast_subset (l : list bytes) f : f ∈ keepLast l -> f ∈ l.
Proof. unfold keepLast. destruct (_ <? _)%nat; [|done]. apply subseteq_drop. Qed.

Lemma safe_deleteBlob f : mine f -> purged f -> keeps safe _ (deleteBlob f).
Proof.
  intros M P. unfold deleteBlob. destruct h_deleteBlob as [h|] eqn:E; [|apply (@sound_ret _ _ _ _ _ safe_sound)].
  intros s [N1 N2]. unfold noted. rewrite lift_env, lift_state. split; [split|].
  - intros g G. apply N1. by eapply law_erase_record.
  - exact N2.
  - intros g G. destruct (law_erase _ _ _ _ E G) as [?| ->]; [by left|by right].
Qed.

(** What the journal says to be erased. *)
Definition fromJournal (b : json) : Prop :=
  forall f, value_str b (#"fileId") [] = Ok f -> value_str b (#"uploader") [] = Ok me -> purged f.

Lemma safe_eraseBlobs own : (forall f, f ∈ own -> mine f) -> forall l, Forall fromJournal l ->
  forall b, keeps safe _ (eraseBlobs me own l b).
Proof.
  intros O l P. pose proof safe_sound as Q. induction P as [|x l Px _ IH]; intros b; cbn [eraseBlobs]; [by apply (@sound_ret _ _ _ _ _ Q)|].
  unfold fromJournal in Px. destruct (value_str x (#"fileId") []) as [f|e]; [|by intros s].
  destruct (value_str x (#"uploader") []) as [u|e]; [|by intros s].
  intros s. unfold bind at 1 2 3, ofResult, ret, gets. cbn iota beta.
  case_bool_decide as Eu; [by apply IH|]. destruct (bool_decide (f ∈ default [] (gcDone_ s.1))); [by apply IH|].
  case_bool_decide as Ef; [|by apply IH]. cbn [negb orb]. subst u. revert s. refine (_ : keeps safe _ _).
  pose proof (safe_deleteBlob f (O f Ef) (Px f eq_refl eq_refl)) as D.
  assert (keeps safe _ (markDone (Env := Env) f)) as K by (apply (b_markDone (keeps safe))).
  repeat first [exact D | exact K | apply IH | sound_step].
Qed.

Lemma safe_collectGarbage i : keeps safe _ (collectGarbage i).
Proof.
  pose proof safe_sound as Q. intros s. unfold collectGarbage. apply (keeps_then safe); [exact (b_self (keeps safe) s)|]. intros v Dv.
  apply lift_done in Dv. apply law_self in Dv. subst v. set (s1 := (self s).2). clearbody s1. clear s.
  apply (keeps_then safe); [exact (b_hasClient (keeps safe) s1)|]. intros c _. set (s2 := (hasClient s1).2). clearbody s2. clear s1.
  destruct (_ || _); [reflexivity|]. apply (keeps_then safe); [exact (b_engine (keeps safe) _ _ s2)|]. intros tree Dt. apply lift_done in Dt.
  set (s3 := (engine _ _ s2).2). clearbody s3. destruct (negb _); [reflexivity|].
  destruct (value_json tree (#"purgedBlobs") (JArr [])) as [pj|e] eqn:Ep; [|reflexivity]. unfold ofResult, bind at 1, ret at 1. cbn iota beta.
  destruct pj as [| | | | | |[|b l]|]; try reflexivity.
  assert (Forall fromJournal (b :: l)) as J.
  { apply list.Forall_forall. intros x Hx f F U. by eapply law_journal. }
  apply (keeps_then safe); [exact (b_loadGcDone (keeps safe) s3)|]. intros ? _. set (s4 := (loadGcDone s3).2). clearbody s4.
  intros N. refine ((_ : safe s4 _) N). destruct (loadOwnBlobs_noted s4 N) as ([_ M] & G & O).
  apply (keeps_then safe); [exact G|]. intros own Do. specialize (M own (O own Do)).
  pose proof (safe_eraseBlobs own M (b :: l) J false) as E. revert E. generalize (loadOwnBlobs s4).2. intros s5 E.
  apply (keeps_then safe); [apply E|]. intros h _. generalize (eraseBlobs me own (b :: l) false s5).2. intros s6.
  destruct h; [exact (b_recordDone (keeps safe) s6)|reflexivity].
Qed.

Lemma safe_noteOwnBlob f : mine f -> keeps safe _ (noteOwnBlob f).
Proof.
  intros F s N. refine ((_ : safe s _) N). destruct f as [|x f]; [reflexivity|]. cbn [noteOwnBlob].
  destruct (loadOwnBlobs_noted s N) as (N1 & G & O). pose proof (loadOwnBlobs_mine s) as M.
  apply (keeps_then safe); [exact G|]. intros own Do. specialize (M own N Do). revert N1. generalize (loadOwnBlobs s).2. intros s1 N1.
  case_bool_decide; [reflexivity|]. set (own' := keepLast (own ++ [x :: f])).
  assert (forall g, g ∈ own' -> mine g) as M'.
  { intros g [Hg| ->%list_elem_of_singleton]%keepLast_subset%elem_of_app; [by apply M|done]. }
  apply (keeps_then safe); [apply safe_setOwn; exact M'|]. intros ? _. cbn [modify snd fst]. generalize (set_ownBlobs_ (Some own') s1.1, s1.2). intros s2.
  clear N N1 G O. unfold attempt, lift, bind. destruct (r_save _ _ s2.2) as [r env] eqn:E.
  assert (env = (r_save kCloudOwnBlobsRecord (JArr (JStr <$> own')) s2.2).2) as -> by (by rewrite E). clear E.
  assert (safe s2 (s2.1, (r_save kCloudOwnBlobsRecord (JArr (JStr <$> own')) s2.2).2)) as K; [|by destruct r].
  intros [N1 N2]. split; [split|].
  - intros g [Hg|Hg]%law_note; [by apply N1|by apply M'].
  - exact N2.
  - intros g Hg. left. by eapply law_note_erased.
Qed.

(** *** All operations *)

Lemma safe_setOutbox i l : keeps safe _ (setOutbox (Env := Env) i l).
Proof. by apply (@sound_modify _ _ _ _ _ safe_sound). Qed.
Lemma safe_eraseOutbox i : keeps safe _ (eraseOutbox (Env := Env) i).
Proof. by apply (@sound_modify _ _ _ _ _ safe_sound). Qed.
Hint Resolve safe_setOutbox safe_eraseOutbox safe_collectGarbage : sound.
Hint Extern 5 (besideOwn _) => (intros ?; reflexivity) : sound.

Lemma safe_loadOutbox i : keeps safe _ (loadOutbox i).
Proof. pose proof safe_sound as Q. pose proof safe_beside. unfold loadOutbox. pieces. Qed.
Lemma safe_prepareOps n i : forall l, keeps safe _ (prepareOps n i l).
Proof. pose proof safe_sound as Q. pose proof safe_beside. induction n as [|n IH]; intros [|c l]; cbn [prepareOps]; pieces. by intros s. Qed.
Lemma safe_sendLoop n i : forall k, keeps safe _ (sendLoop n i k).
Proof. pose proof safe_sound as Q. pose proof safe_beside. induction n as [|n IH]; intros k; cbn [sendLoop]; pieces. by intros s. Qed.
Hint Resolve safe_loadOutbox safe_prepareOps safe_sendLoop : sound.
Lemma safe_applyNow i ops : keeps safe _ (applyNow i ops).
Proof. apply (a_applyNow (keeps safe)); auto with sound. Qed.
Lemma safe_sendOutbox i : keeps safe _ (sendOutbox turns i).
Proof. pose proof safe_sound as Q. pose proof safe_beside. unfold sendOutbox. pieces. Qed.
Hint Resolve safe_applyNow safe_sendOutbox : sound.

Lemma operation_safe {A} (m : C A) : operation libraryText turns mine A m -> keeps safe A m.
Proof.
  pose proof safe_sound as Q. pose proof safe_beside as Q'.
  apply (method_sound libraryText turns _); auto with sound; try apply safe_noteOwnBlob; intros.
  - unfold dropContainer. pieces.
  - unfold forgetRemoved. pieces.
  - unfold createContainer. pieces.
  - unfold leaveNow. pieces.
  - unfold removeFolder. pieces.
Qed.

Lemma calls_safe (s s' : St) : rtc (called libraryText turns mine) s s' -> safe s s'.
Proof. induction 1 as [s|s s1 s2 (A & m & O & ->) _ IH]; [reflexivity|]. etrans; [exact (operation_safe m O s)|exact IH]. Qed.

(** Property (garbage_is_own): Whatever the host calls and whatever fails: a blob is erased on the
    server only if this device noted it as its own upload and the journal of a
    container says that a file of this user with that blob was erased. A device
    does not erase what others have, though it reads the same journal. *)
Theorem garbage_is_own (s s' : St) (f : bytes) : rtc (called libraryText turns mine) s s' -> noted s -> erased s'.2 f ->
  erased s.2 f \/ mine f /\ purged f.
Proof. intros R N E. by apply (calls_safe s s' R N). Qed.
End Blobs.

(** ** The loop that sends ends *)

Section Ends.
(** How many times the grants of a container may still change, and their version. *)
Context (id : bytes) (rank : Env -> nat) (version : Env -> Z).

(** Each change of the version is one of those; what the engine answers is read as
    the version, whether it is a number with a sign, without one, or no number. *)
Definition slower (env env' : Env) : Prop := (rank env' <= rank env)%nat /\ (version env' <> version env -> (rank env' < rank env)%nat).

Class GrantLaws : Prop := {
  law_slower A h : hostCall A h -> forall env, slower env (h env).2;
  law_version env v z : (t_engine (#"cloudGrantVersion") (idArg id) env).1 = Ok v ->
    (if is_number v then int64Of v else Ok 0) = Ok z -> z = version env
}.
Context {Laws : GrantLaws}.

Definition slows (s s' : St) : Prop := slower s.2 s'.2 /\ outboxes_ s'.1 = outboxes_ s.1.

#[local] Instance slows_pre : PreOrder slows.
Proof.
  split; [by intros s|]. intros s s1 s2 [[A1 A2] A3] [[B1 B2] B3]. split; [split; [lia|]|congruence].
  intros N. destruct (decide (version s1.2 = version s.2)) as [E|E].
  - rewrite <- E in N. specialize (B2 N). lia.
  - specialize (A2 E). lia.
Qed.

#[local] Instance slows_sound : Sound hostCall besideBoth (keeps slows).
Proof.
  apply keeps_sound; [apply _| |].
  - intros A h Hh s. split; [rewrite lift_env; by apply (law_slower A)|by rewrite lift_state].
  - intros f F s. split; [by split|apply F].
Qed.

(** A step that ends, then the rest from where it ends. *)
Lemma flows_then {A B} (m : C A) (k : A -> C B) (s : St) : (m s).1 <> Stuck -> slows s (m s).2 ->
  (forall a s1, m s = (Done a, s1) -> slows s s1 -> (k a s1).1 <> Stuck) -> (bind m k s).1 <> Stuck.
Proof. unfold bind. destruct (m s) as [[a|e|] s1]; cbn; intros F S K; [by apply K|done|done]. Qed.

Lemma grantVersion_version (s s1 : St) v : grantVersion id s = (Done v, s1) -> v = version s.2.
Proof.
  unfold grantVersion, engineNumber. intros (j & s2 & Ej & D)%bind_parts. apply lift_ok in Ej as [Ej _].
  apply (law_version s.2 j v); [by rewrite Ej|]. destruct (is_number j); [|by injection D as <-].
  unfold ofResult in D. destruct (int64Of j) as [z|e]; [by injection D as <-|done].
Qed.

Lemma slows_step {A} (m : C A) (s s1 : St) a : keeps slows A m -> m s = (Done a, s1) -> slows s s1.
Proof. intros K E. specialize (K s). by rewrite E in K. Qed.

(** Only after a change of the grants the same operation is sent again. *)
Lemma again_slower (e : Thrown) (s s1 : St) : afterError id e s = (Done Again, s1) -> (rank s1.2 < rank s.2)%nat.
Proof.
  unfold afterError. destruct (errorCode e) as [c|]; [|done]. case_bool_decide; [|by repeat case_match].
  intros (v & s2 & E1 & (u & s3 & E2 & (v' & s4 & E3 & D)%bind_parts)%bind_parts)%bind_parts.
  pose proof (grantVersion_version _ _ _ E1) as ->. pose proof (grantVersion_version _ _ _ E3) as ->.
  apply slows_step in E1 as [[A1 A2] _]; [|apply (b_grantVersion (keeps slows))]. apply slows_step in E2 as [[B1 B2] _]; [|apply (b_pullGrants (keeps slows))].
  apply slows_step in E3 as [[C1 _] _]; [|apply (b_grantVersion (keeps slows))].
  case_match eqn:V; [done|]. apply Z.eqb_neq in V. apply bind_parts in D as (k & s5 & E4 & D).
  apply slows_step in E4 as [[D1 _] _]; [|apply (b_hasKey (keeps slows))]. assert (s1 = s5) as -> by (by destruct k; injection D).
  assert (version s2.2 = version s.2 \/ version s2.2 <> version s.2) as [E|E] by lia.
  - rewrite <- E in V. specialize (B2 V). lia.
  - specialize (A2 E). lia.
Qed.

(** Turns that the loop may need: one for each operation, one for each change of
    the grants that may still come. *)
Definition turnsNeeded (s : St) : nat := (length (outboxOf id s.1) + rank s.2)%nat.

Lemma sendLoop_flows (fuel : nat) : forall rejected s, (length (outboxOf id s.1) + rank s.2 <= fuel)%nat ->
  (sendLoop fuel id rejected s).1 <> Stuck.
Proof.
  pose proof (flows_sound (S := CloudSync) (Env := Env) hostCall besideBoth) as Sf.
  induction fuel as [|fuel IH]; intros rejected s L; cbn [sendLoop]; unfold bind at 1, gets; cbn iota beta.
  - by destruct (outboxOf id s.1); [|cbn in L; lia].
  - destruct (outboxOf id s.1) as [|item l] eqn:O; [done|].
    assert (forall s1, slows s s1 -> outboxOf id s1.1 = item :: l) as Os.
    { intros s1 [_ E]. rewrite <- O. unfold outboxOf. by rewrite E. }
    apply flows_then; [apply (b_hasKey flows)|apply (b_hasKey (keeps slows))|]. intros k s1 _ S1. destruct k; [cbn [negb]|done].
    apply flows_then; [apply (@sound_attempt _ _ _ _ _ Sf), (b_sealAndSend flows)|apply (@sound_attempt _ _ _ _ _ slows_sound), (b_sealAndSend (keeps slows))|].
    intros r s2 _ S2. apply flows_then.
    + destruct r; [done|apply (b_afterError flows)].
    + destruct r; [by cbn|apply (b_afterError (keeps slows))].
    + intros turn s3 E S3. destruct turn as [refused| |]; [| |done].
      * assert (slows s s3) as S by (etrans; [exact S1|by etrans]). specialize (Os s3 S). destruct S as [[R _] _].
        unfold bind at 1, modify. cbn iota beta. rewrite Os. cbn [tail].
        set (s4 := (set_outboxes_ (<[id := l]> (outboxes_ s3.1)) s3.1, s3.2)).
        assert (outboxOf id s4.1 = l) as O4 by (unfold outboxOf; cbn; by rewrite lookup_insert_eq).
        apply flows_then; [apply (b_saveOutbox flows)|apply (b_saveOutbox (keeps slows))|]. intros u s5 _ [[R5 _] E5].
        apply IH. unfold outboxOf in *. rewrite E5, O4. cbn in L, R5. lia.
      * assert (slows s s3) as S by (etrans; [exact S1|by etrans]). apply IH. rewrite (Os s3 S).
        destruct r as [x|e]; [done|]. apply again_slower in E. destruct S1 as [[R1 _] _], S2 as [[R2 _] _]. cbn in L |- *. lia.
Qed.

(** Claim C33 (sending_ends): The loop that sends a queue ends, when the grants of the container
    change only so often: each turn an operation leaves the queue, or the server
    has published new grants, or the loop is left. So many turns are enough. *)
Theorem sending_ends (rejected : nat) (s : St) : (turnsNeeded s <= turns)%nat ->
  (sendLoop turns id rejected s).1 <> Stuck.
Proof. apply sendLoop_flows. Qed.
End Ends.
End Host.

(** ** Runs *)

Definition isMine (f : bytes) : Prop := f = #"f1".
Definition isPurged (f : bytes) : Prop := f = #"f1" \/ f = #"f2".
Definition isErased (e : Bench) (f : bytes) : Prop := f ∈ erased e.
Definition isRecorded (e : Bench) (f : bytes) : Prop := f ∈ ownRecord e.

#[export] Instance bench_blobs : BlobLaws (#"me") isPurged isErased isRecorded.
Proof.
  split; unfold isErased, isRecorded, harmless.
  - apply (bench_calls (fun e e' => (forall f, f ∈ erased e' -> f ∈ erased e) /\ (forall f, f ∈ ownRecord e' -> f ∈ ownRecord e))); done.
  - intros f h e g [= <-]. cbn. set_solver.
  - by intros f h e g [= <-].
  - intros l e f. cbn. rewrite strings_of. by right.
  - done.
  - intros e l f [= <-]. by rewrite strings_of.
  - by intros e v [= <-].
  - intros i e t l b f [= <-] [= <-] Hb Hf _. unfold isPurged.
    apply elem_of_cons in Hb as [->|Hb]; [left|apply list_elem_of_singleton in Hb as ->; right]; by injection Hf.
Qed.

(** One file is of this device; the journal says that two were erased. *)
Definition clear : CloudSync * Bench := (newSync, mkBench [] [] [] [] [] 0).
Definition collected : CloudSync * Bench := (flush 5 (#"aa") (noteOwnBlob (#"f1") clear).2).2.

Lemma garbage_is_own_witness : (rtc (called anyText 5 isMine) clear collected /\ erased collected.2 = (#"f1") :: nil) /\
  (isErased clear.2 (#"f1") \/ isMine (#"f1") /\ isPurged (#"f1")).
Proof.
  assert (R : rtc (called anyText 5 isMine) clear collected).
  { eapply rtc_l; [exists _, (noteOwnBlob (#"f1")); split; [by constructor|reflexivity]|].
    apply rtc_once. exists _, (flush 5 (#"aa")). split; [constructor|reflexivity]. }
  assert (E : erased collected.2 = (#"f1") :: nil) by (vm_compute; reflexivity).
  split; [done|]. apply (garbage_is_own anyText 5 isMine (#"me") isPurged isErased isRecorded clear collected (#"f1") R).
  - split; [intros f F; by apply not_elem_of_nil in F|discriminate].
  - unfold isErased. rewrite E. by apply list_elem_of_singleton.
Defined.

Definition versionRead (e : Bench) : Z := i64 (Z.max 0 (10 - Z.of_nat (grants e))).

#[export] Instance bench_grants : GrantLaws (#"aa") grants versionRead.
Proof.
  split.
  - assert (forall e e', (grants e' <= grants e)%nat -> slower grants versionRead e e') as Sl.
    { intros e e' L. split; [exact L|]. unfold versionRead. intros N. destruct (decide (grants e' = grants e)) as [E|]; [by rewrite E in N|lia]. }
    apply bench_calls; intros; apply Sl; cbn; lia.
  - by intros e v z [= <-] [= <-].
Qed.

(** The first operation is refused until the grants come; then both are sent. *)
Definition waiting : CloudSync * Bench := start [Some (#"ERROR_CODE_EXPIRED"); None; None] 1.

Lemma sending_ends_witness : (sendLoop 3 (#"aa") 0 waiting).1 = Done 0%nat /\ (sendLoop 3 (#"aa") 0 waiting).1 <> Stuck.
Proof.
  split; [vm_compute; reflexivity|].
  apply (sending_ends 3 (#"aa") grants versionRead 0 waiting). vm_compute. lia.
Defined.
End CloudBlobs.
