(* ===== verification/CloudDrive.v ===== *)
(** * CloudDrive: what the screen of the cloud asks

    Module [CloudDrive] models the class of that name in
    [src/sections/cloud_sync.cpp]: the state for the screen, the cache of trees,
    edits, texts of files and the space used, over [CloudSync] and the blobs of
    the session ([CloudBlobs]). The object of [CloudSync] that the code refers to
    is a member of the state; [onCloud] runs its methods. *)

From S2P Require Import Prelude Json PlannerUtil DomainSync PlannerJson Poll Reminders CloudModel CloudJson CloudOps Host CloudSync CloudBench.
Import Base64 Sync CloudOps CloudSync.

Module CloudDrive.

#[local] Open Scope Z_scope.

(** The blobs of the session, and where identifiers of nodes come from. *)
Class CloudBlobs (Env : Type) := {
  b_upload : bytes -> bytes -> Env -> result Thrown json * Env;
  b_download : json -> Env -> result Thrown (option bytes) * Env;
  b_usage : Env -> result Thrown json * Env;
  b_newNodeId : Env -> result Thrown bytes * Env
}.

(** [newCloudNodeId], given what the generator of the thread gives. *)
Definition newCloudNodeId (gen : nat -> Z) : bytes := (fun i => hexDigit (Z.land (gen i) 15)) <$> seq 0 32.

Record Drive := mkDrive {
  cloud_ : CloudSync;
  treeCache_ : gmap bytes (option json);
  treeCacheRevision_ : Z;
  isEnsureStarted_ : bool;
  usage_ : option (Z * json)
}.

Definition newDrive (cloud : CloudSync) : Drive :=
  {| cloud_ := cloud; treeCache_ := ∅; treeCacheRevision_ := 2 ^ 64 - 1; isEnsureStarted_ := false; usage_ := None |}.

Definition set_cloud_ (v : CloudSync) (s : Drive) : Drive := mkDrive v (treeCache_ s) (treeCacheRevision_ s) (isEnsureStarted_ s) (usage_ s).
Definition set_treeCache_ (v : gmap bytes (option json)) (s : Drive) : Drive :=
  mkDrive (cloud_ s) v (treeCacheRevision_ s) (isEnsureStarted_ s) (usage_ s).
Definition set_treeCacheRevision_ (v : Z) (s : Drive) : Drive := mkDrive (cloud_ s) (treeCache_ s) v (isEnsureStarted_ s) (usage_ s).
Definition set_isEnsureStarted_ (v : bool) (s : Drive) : Drive := mkDrive (cloud_ s) (treeCache_ s) (treeCacheRevision_ s) v (usage_ s).
Definition set_usage_ (v : option (Z * json)) (s : Drive) : Drive := mkDrive (cloud_ s) (treeCache_ s) (treeCacheRevision_ s) (isEnsureStarted_ s) v.

(** What a range loop over a value goes through. *)
Definition elements (j : json) : list json :=
  match j with JArr l => l | JObj m => m.*2 | JNull => [] | j => [j] end.

(** [j.contains(key) && j[key].is_object()]. *)
Definition objectAt (key : bytes) (j : json) : option json :=
  match jfind key j with Some (JObj m) => Some (JObj m) | _ => None end.

(** The nodes of a tree, when it has that key. *)
Definition treeNodes (tree : option json) : option (list json) :=
  match tree with Some t => elements <$> jfind (#"nodes") t | None => None end.

(** The first node of the identifier; a node that is no object throws. *)
Fixpoint nodeOf (nodes : list json) (node : bytes) : result exn (option json) :=
  match nodes with
  | [] => Ok None
  | n :: nodes => let! i := value_str n (#"id") [] in if bool_decide (i = node) then Ok (Some n) else nodeOf nodes node
  end.

Definition refused (error : bytes) : json := jobj [(#"ok", JBool false); (#"error", JStr error)].

Definition putParentJson (parent : json) (create : json) : json :=
  match parent with JNull => create | p => jset (#"parent") p create end.

(** The bucket of the drive, by name or number. *)
Definition isDriveBucket (b : json) : bool :=
  match jfind (#"bucket") b with
  | Some (JStr s) => bool_decide (s = #"BLOB_BUCKET_DRIVE")
  | Some (JInt z) | Some (JUnsigned z) => z =? 1
  | Some (JFloat f) => SFeqb f (CloudJson.toDouble 1)
  | _ => false
  end.

(** The lambda [num] of [usage]: the first of the keys that has a number, or a
    string that is not empty. *)
Fixpoint num (obj : json) (keys : list bytes) : result exn Z :=
  match keys with
  | [] => Ok 0
  | k :: keys =>
      match jfind k obj with
      | Some ((JInt _ | JUnsigned _ | JFloat _) as v) => int64Of v
      | Some (JStr (c :: s)) => match Reminders.stoll (c :: s) with Some z => Ok z | None => Err InvalidArgument end
      | _ => num obj keys
      end
  end.

Definition usageValue (got : json) : result exn json :=
  let drive := match jfind (#"buckets") got with
               | Some (JArr l) => default JNull (List.find isDriveBucket l)
               | _ => JNull
               end in
  let! used := num drive ((#"used") :: nil) in
  let! quota := num drive ((#"quota") :: nil) in
  let! maxFile := num drive ((#"maxFile") :: (#"max_file") :: nil) in
  let! links := num got ((#"linksBytes") :: (#"links_bytes") :: nil) in
  Ok (jobj [(#"used", JInt used); (#"quota", JInt quota); (#"maxFile", JInt maxFile); (#"linksBytes", JInt links)]).

(** The operations of [removeShared]: all nodes at the root. *)
Fixpoint purgeTop (at_ : Z) (nodes : list json) : result exn (list json) :=
  match nodes with
  | [] => Ok []
  | n :: nodes =>
      let isTop := match jfind (#"parent") n with
                   | None | Some JNull => true
                   | Some (JStr s) => bool_decide (s = [])
                   | _ => false
                   end in
      if isTop then
        let! i := value_str n (#"id") [] in
        let! rest := purgeTop at_ nodes in
        Ok (jobj [(#"op", JStr (#"purge")); (#"id", JStr i); (#"at", JInt at_)] :: rest)
      else purgeTop at_ nodes
  end.

(** The blob of an upload, for the operation; the uploader is added to it. *)
Definition blobOf (uploaded : json) (mime : bytes) : result exn json :=
  let! fileId := value_str uploaded (#"fileId") [] in
  let! key := value_str uploaded (#"key") [] in
  let! nonce := value_str uploaded (#"nonce") [] in
  let! capability := value_str uploaded (#"capability") [] in
  let! size := value_int uploaded (#"size") 0 in
  let! chunks := value_int uploaded (#"chunks") 1 in
  Ok (jobj [(#"fileId", JStr fileId); (#"key", JStr key); (#"nonce", JStr nonce); (#"capability", JStr capability);
            (#"size", JInt size); (#"chunks", JInt chunks); (#"mime", JStr mime)]).

(** The operations that put a new file, and its folder when one comes with it. *)
Definition createOps (args : json) (node : bytes) (mtime : Z) (blob : json) : result exn (list json) :=
  let parent := match jfind (#"parent") args with Some (JStr p) => JStr p | _ => JNull end in
  let! before :=
    match objectAt (#"newFolder") args with
    | Some folder =>
        let! i := value_str folder (#"id") [] in
        let! name := value_str folder (#"name") [] in
        Ok ([putParentJson parent (jobj [(#"op", JStr (#"create")); (#"id", JStr i); (#"kind", JStr (#"folder")); (#"name", JStr name)])], JStr i)
    | None => Ok ([], parent)
    end in
  let! name := value_str args (#"name") [] in
  Ok (before.1 ++ [putParentJson before.2 (jobj [(#"op", JStr (#"create")); (#"id", JStr node); (#"kind", JStr (#"file")); (#"name", JStr name);
                                                  (#"mtime", JInt mtime); (#"blob", blob)])]).

Section Code.
Context {Env : Type} {T : DomainTransport Env} {Rec : RecordStore Env} {H : CloudHooks Env} {B : CloudBlobs Env}.
Context (libraryText : exn -> bytes) (turns : nat).
Notation D := (M Drive Env).

(** A method of [cloud_]. *)
Definition onCloud {A} (m : M CloudSync Env A) : D A := fun s =>
  let r := m (cloud_ s.1, s.2) in (r.1, (set_cloud_ r.2.1 s.1, r.2.2)).

Definition upload (bs mime : bytes) : D json := lift (b_upload bs mime).
Definition download (blob : json) : D (option bytes) := lift (b_download blob).
Definition now : D Z := lift t_nowMs.
Definition failed (e : Thrown) : json := refused (errorOf libraryText e).

(** [catch (const std::exception &e)] with the error for the screen. *)
Definition orError (m : D json) : D json := let* r := attempt m in ret match r with inl j => j | inr e => failed e end.

(** The template [result]. *)
Definition result (f : D json) : D json := orError f.

Definition done (fields : list (bytes * json)) : json := jobj ((#"ok", JBool true) :: fields).

(** ** The trees *)

Definition readTree (container : bytes) : D (option json) :=
  let* revision := gets (fun s => revision_ (cloud_ s)) in
  let* known := gets treeCacheRevision_ in
  when (negb (revision =? known)) (modify (set_treeCache_ ∅) ;;; modify (set_treeCacheRevision_ revision)) ;;;
  (let* cached := gets (fun s => treeCache_ s !! container) in
   match cached with
   | Some tree => ret tree
   | None =>
       let* tree := onCloud (stateJson container) in
       modify (fun s => set_treeCache_ (<[container := tree]> (treeCache_ s)) s) ;;; ret tree
   end).

Definition findNode (container node : bytes) : D (option json) :=
  let* tree := readTree container in
  match treeNodes tree with Some nodes => ofResult (nodeOf nodes node) | None => ret None end.

(** The containers of the screen and their trees. *)
Fixpoint readTrees (l : list CloudContainerInfo) (trees : json) : D json :=
  match l with
  | [] => ret trees
  | c :: l =>
      let* tree := readTree (info_id c) in
      readTrees l (match tree with Some t => jset (info_id c) t trees | None => trees end)
  end.

Definition state : D json :=
  let* status := onCloud (CloudSync.status) in
  let* started := gets isEnsureStarted_ in
  when (negb (bool_decide (status = #"needs-linking")) && negb (bool_decide (status = #"loading")) && negb started)
    (modify (set_isEnsureStarted_ true) ;;; onCloud (ensureSoon false)) ;;;
  (let* list := onCloud (CloudSync.containers) in
   let* trees := readTrees list (JObj []) in
   let out := jobj [(#"status", JStr status); (#"containers", JArr (toJson <$> list)); (#"trees", trees)] in
   let* root := onCloud (CloudSync.rootId) in
   let out := match root with Some r => jset (#"rootId") (JStr r) out | None => out end in
   let* err := gets (fun s => lastError_ (cloud_ s)) in
   ret match err with Some e => jset (#"error") (JStr e) out | None => out end).

(** ** Edits *)

Definition apply (container : bytes) (ops : json) : D bytes := onCloud (CloudSync.apply container ops).

Definition applyOps (container : bytes) (ops : json) : D json :=
  orError (let* id := apply container ops in ret (done [(#"container", JStr id)])).

Definition forgetUsage : D unit := modify (set_usage_ None).

(** The blob of the file is not the one the edit began with: its text comes back. *)
Definition conflict (container node : bytes) (blob : json) : D json :=
  let* current := download blob in
  match current with
  | None => ret (refused (#"offline"))
  | Some text =>
      let* fileId := ofResult (value_str blob (#"fileId") []) in
      ret (done [(#"container", JStr container); (#"node", JStr node); (#"fileId", JStr fileId); (#"conflict", JStr text)])
  end.

(** The upload and the edit of the tree. *)
Definition store (args : json) (container nodeArg mimeArg : bytes) (existing : option json) : D json :=
  let mime := match mimeArg with [] => #"text/markdown" | m => m end in
  let* text := ofResult (value_str args (#"text") []) in
  let* uploaded := upload text mime in
  let* fileId := ofResult (value_str uploaded (#"fileId") []) in
  onCloud (noteOwnBlob fileId) ;;;
  (let* fields := ofResult (blobOf uploaded mime) in
   let* me := lift t_self in
   let blob := jset (#"uploader") (JStr me) fields in
   let* node := match nodeArg with [] => ofResult (value_str args (#"newNodeId") []) | n => ret n end in
   let* node := match node with [] => lift b_newNodeId | n => ret n end in
   let* mtime := now in
   let* ops := match existing with
               | Some _ => ret [jobj [(#"op", JStr (#"setBlob")); (#"id", JStr node); (#"blob", blob); (#"mtime", JInt mtime)]]
               | None => ofResult (createOps args node mtime blob)
               end in
   let* id := apply container (JArr ops) in
   forgetUsage ;;; ret (done [(#"container", JStr id); (#"node", JStr node); (#"fileId", JStr fileId)])).

Definition writeSteps (args : json) : D json :=
  let* container := ofResult (value_str args (#"container") []) in
  let* nodeArg := ofResult (value_str args (#"node") []) in
  let* existing := match nodeArg with [] => ret None | n => findNode container n end in
  if negb (bool_decide (nodeArg = [])) && bool_decide (existing = None) then ret (refused (#"not-found"))
  else
    let* expected := ofResult (value_str args (#"expectedFileId") []) in
    let* mimeArg := ofResult (value_str args (#"mime") []) in
    match (match existing with Some e => objectAt (#"blob") e | None => None end), expected with
    | Some blob, _ :: _ =>
        let* fileId := ofResult (value_str blob (#"fileId") []) in
        if bool_decide (fileId <> expected) then conflict container nodeArg blob
        else store args container nodeArg mimeArg existing
    | _, _ => store args container nodeArg mimeArg existing
    end.

Definition writeText (args : json) : D json := orError (writeSteps args).

(** ** Reading *)

(** The blob of a node of the tree; [JNull] where there is none. *)
Definition blobAt (container node : bytes) : D json :=
  let* found := findNode container node in
  ret match found with Some n => default JNull (jfind (#"blob") n) | None => JNull end.

Definition readText (container node : bytes) (given : json) : D (option json) :=
  let* blob := if is_object given then ret given else blobAt container node in
  if negb (is_object blob) then ret None
  else
    let* r := attempt (let* got := download blob in
                       match got with
                       | None => ret None
                       | Some text => let* fileId := ofResult (value_str blob (#"fileId") []) in
                                      ret (Some (jobj [(#"text", JStr text); (#"fileId", JStr fileId)]))
                       end) in
    ret match r with inl o => o | inr _ => None end.

Definition readOne (container : bytes) (n : json) : D json :=
  let* id := ofResult (value_str n (#"id") []) in
  let failure error := jobj [(#"id", JStr id); (#"error", JStr error)] in
  let* blob := match objectAt (#"blob") n with Some b => ret b | None => blobAt container id end in
  if negb (is_object blob) then ret (failure (#"not-found"))
  else
    let* r := attempt (let* got := download blob in
                       match got with
                       | None => ret (failure (#"not-found"))
                       | Some text => let* fileId := ofResult (value_str blob (#"fileId") []) in
                                      ret (jobj [(#"id", JStr id); (#"text", JStr text); (#"fileId", JStr fileId)])
                       end) in
    ret match r with inl o => o | inr e => failure (errorOf libraryText e) end.

Fixpoint readEach (container : bytes) (nodes : list json) : D (list json) :=
  match nodes with
  | [] => ret []
  | n :: nodes => let* j := readOne container n in let* rest := readEach container nodes in ret (j :: rest)
  end.

Definition readTexts (container : bytes) (nodes : json) : D json :=
  match nodes with
  | JArr l => let* out := readEach container l in ret (JArr out)
  | _ => ret (JArr [])
  end.

Definition askUsage (at_ : Z) : D (option json) :=
  let* r := attempt (let* got := lift b_usage in
                     let* value := ofResult (usageValue got) in
                     modify (set_usage_ (Some (at_, value))) ;;; ret value) in
  ret match r with inl value => Some value | inr _ => None end.

Definition usage (force : bool) : D (option json) :=
  let* at_ := now in
  let* known := gets usage_ in
  match (if force then None else known) with
  | Some (since, value) => if at_ - since <? 1500 then ret (Some value) else askUsage at_
  | None => askUsage at_
  end.

(** ** Shared folders *)

Definition createShared (name : bytes) : D json :=
  result (let* id := onCloud (createFolder name) in ret (done [(#"container", JStr id)])).

Definition removeShared (container : bytes) : D json :=
  result (
    let* at_ := now in
    let* tree := readTree container in
    let* top := match treeNodes tree with Some nodes => ofResult (purgeTop at_ nodes) | None => ret [] end in
    match top with [] => ret tt | _ => apply container (JArr top) ;;; ret tt end ;;;
    onCloud (removeFolder turns container) ;;; forgetUsage ;;; ret (done [])).

(** ** Methods by name *)

(** The lambda [s] of [handle]. *)
Definition textArg (args : json) (key : bytes) : D bytes :=
  if is_object args then ofResult (value_str args key []) else ret [].

Definition handle (method : bytes) (args : json) : D (option json) :=
  let s := textArg args in
  let named name := bool_decide (method = name) in
  let some (m : D json) := let* j := m in ret (Some j) in
  let quiet (m : D unit) := result (m ;;; ret (done [])) in
  if named (#"parvaneCloudState") then some state
  else if named (#"parvaneCloudSetActive") then
    let* active := ofResult (value_bool args (#"isActive") false) in onCloud (setActive active) ;;; ret (Some (JBool true))
  else if named (#"parvaneCloudSync") then onCloud (syncNow libraryText turns true) ;;; ret (Some (JBool true))
  else if named (#"parvaneCloudApply") then
    let* c := s (#"container") in let* ops := ofResult (value_json args (#"ops") (JArr [])) in some (applyOps c ops)
  else if named (#"parvaneCloudWriteText") then some (writeText args)
  else if named (#"parvaneCloudCheckDrive") then let* a := onCloud checkDrive in ret (Some (JStr a))
  else if named (#"parvaneCloudReadText") then
    let* c := s (#"container") in let* n := s (#"node") in let* given := ofResult (value_json args (#"blob") JNull) in
    let* r := readText c n given in ret (Some (default JNull r))
  else if named (#"parvaneCloudReadTexts") then
    let* c := s (#"container") in let* nodes := ofResult (value_json args (#"nodes") (JArr [])) in some (readTexts c nodes)
  else if named (#"parvaneCloudUsage") then usage false
  else if named (#"parvaneCloudCreateShared") then let* n := s (#"name") in some (createShared n)
  else if named (#"parvaneCloudShare") then
    let* user := s (#"user") in
    match user with
    | [] => ret (Some (refused (#"not-found")))
    | _ => some (quiet (let* c := s (#"container") in let* role := s (#"role") in let* text := s (#"inviteText") in
                        onCloud (share c user role text)))
    end
  else if named (#"parvaneCloudUnshare") then
    some (quiet (let* c := s (#"container") in let* user := s (#"user") in onCloud (unshare c user)))
  else if named (#"parvaneCloudAnswerInvite") then
    some (quiet (let* c := s (#"container") in let* yes := ofResult (value_bool args (#"isAccepted") false) in onCloud (answerInvite c yes)))
  else if named (#"parvaneCloudLeave") then some (quiet (let* c := s (#"container") in onCloud (leave c)))
  else if named (#"parvaneCloudRemoveShared") then let* c := s (#"container") in some (removeShared c)
  else ret None.
(** ** An edit of an old version *)

(** Property (conflict_keeps_file): A text that was edited from another version of the file than the
    one in the tree is not written: nothing is uploaded, no operation is made,
    and the screen gets the text that is there, or an error. *)
Theorem conflict_keeps_file (args : json) (container node expected mime : bytes) (file blob : json) (fileId : bytes) (s s1 : Drive * Env) :
  value_str args (#"container") [] = Ok container -> value_str args (#"node") [] = Ok node -> node <> [] ->
  value_str args (#"expectedFileId") [] = Ok expected -> expected <> [] -> value_str args (#"mime") [] = Ok mime ->
  findNode container node s = (Done (Some file), s1) -> objectAt (#"blob") file = Some blob ->
  value_str blob (#"fileId") [] = Ok fileId -> fileId <> expected ->
  writeText args s =
    (match (download blob s1).1 with
     | Done (Some text) => Done (done [(#"container", JStr container); (#"node", JStr node); (#"fileId", JStr fileId); (#"conflict", JStr text)])
     | Done None => Done (refused (#"offline"))
     | Threw e => Done (failed e)
     | Stuck => Stuck
     end, (download blob s1).2).
Proof.
  intros Ec En N Ee X Em F Eb Ef Ne. unfold writeText, orError, writeSteps. rewrite Ec, En, Ee, Em.
  destruct node as [|x node]; [done|]. destruct expected as [|y expected]; [done|].
  unfold bind at 1, attempt, bind at 1 2 3, ofResult, ret at 1 2. cbn iota beta. rewrite F. cbn iota beta.
  rewrite bool_decide_eq_false_2 by done. rewrite (bool_decide_eq_false_2 (Some file = None)) by done. cbn [negb andb].
  rewrite Eb. unfold bind at 1 2 3, ret at 1 2 3. cbn iota beta. rewrite Ef. rewrite bool_decide_eq_true_2 by done.
  unfold conflict, bind, ofResult, ret. rewrite Ef. destruct (download blob s1) as [[[t|]|e|] s2]; done.
Qed.
End Code.

(** ** Runs *)

Import CloudBench.

(** An upload gives the file [f1]; the screen edits what it has. *)
#[export] Instance bench_session : CloudBlobs Bench := {
  b_upload _ _ e := (Ok (jobj [(#"fileId", JStr (#"f1"))]), e);
  b_download _ e := (Ok (Some (#"text")), e);
  b_usage e := (Ok (JObj []), e);
  b_newNodeId e := (Ok (#"n2"), e)
}.

(** A drive that was just opened. *)
Definition shown : Drive * Bench := (newDrive newSync, mkBench [] [] [] [] [] 0).

(** The node has the file [f9]; the edit began with [f8]. *)
Definition rewrite_old : json :=
  jobj [(#"container", JStr (#"aa")); (#"node", JStr (#"n1")); (#"expectedFileId", JStr (#"f8")); (#"text", JStr (#"new"))].

Lemma conflict_keeps_file_witness : (writeText anyText rewrite_old shown).1 =
    Done (done [(#"container", JStr (#"aa")); (#"node", JStr (#"n1")); (#"fileId", JStr (#"f9")); (#"conflict", JStr (#"text"))]).
Proof.
  assert (exists file s1, findNode (#"aa") (#"n1") shown = (Done (Some file), s1) /\
    objectAt (#"blob") file = Some (jobj [(#"fileId", JStr (#"f9"))])) as (file & s1 & F & Eb).
  { eexists _, _. split; vm_compute; reflexivity. }
  rewrite (conflict_keeps_file anyText rewrite_old (#"aa") (#"n1") (#"f8") [] file (jobj [(#"fileId", JStr (#"f9"))]) (#"f9") shown s1);
    try done; vm_compute; reflexivity.
Defined.

End CloudDrive.
