(* ===== verification/DriveRuns.v ===== *)
(** * DriveRuns: the cloud's screen over its synchroniser

    What [CloudSync] promises holds of everything the screen asks of
    [CloudDrive], as the methods of the one are made of the operations of the
    other and of calls to the host. Section [Lifted]: the scheme. Then the two
    promises, of the queues and of the blobs, for all runs in which the screen
    and the host call in any order. *)

From S2P Require Import Prelude Json PlannerUtil DomainSync CloudOps Host CloudSync CloudPieces CloudBench CloudQueue CloudBlobs CloudDrive.
Import Base64 Sync CloudOps CloudSync CloudPieces CloudBench CloudQueue CloudBlobs CloudDrive.

Module DriveRuns.

#[local] Open Scope Z_scope.

Section Host.
Context {Env : Type} {T : DomainTransport Env} {Rec : RecordStore Env} {H : CloudHooks Env} {B : CloudBlobs Env}.
Context (libraryText : exn -> bytes) (turns : nat).
Notation D := (M Drive Env).
Notation St := (CloudSync * Env)%type.

(** The calls of the drive itself. *)
Inductive driveCall : forall A : Type, (Env -> Prelude.result Thrown A * Env) -> Prop :=
| call_now : driveCall _ t_nowMs
| call_me : driveCall _ t_self
| call_upload bs m : driveCall _ (b_upload bs m)
| call_download j : driveCall _ (b_download j)
| call_usage : driveCall _ b_usage
| call_newNodeId : driveCall _ b_newNodeId.

(** The synchroniser under a drive. *)
Definition under (s : Drive * Env) : St := (cloud_ s.1, s.2).

Definition besideCloud (f : Drive -> Drive) : Prop := forall s, cloud_ (f s) = cloud_ s.

(** ** The scheme *)

Section Lifted.
Context (mine : bytes -> Prop) (R : St -> St -> Prop) {Pre : PreOrder R}.

(** What is asked of a relation: the operations of the synchroniser and the calls
    of the drive keep it; an upload gives a blob of this device. *)
Class Lifts : Prop := {
  lift_operation A (m : M CloudSync Env A) : operation libraryText turns mine A m -> keeps R A m;
  lift_call A h : driveCall A h -> forall cloud env, R (cloud, env) (cloud, (h env).2);
  lift_upload bs m env j f : (b_upload bs m env).1 = Ok j -> value_str j (#"fileId") [] = Ok f -> mine f
}.
Context {L : Lifts}.

Definition lifted (s s' : Drive * Env) : Prop := R (under s) (under s').

#[local] Instance lifted_pre : PreOrder lifted.
Proof. split; [intros s; unfold lifted; reflexivity|]. intros s s1 s2 A1 A2. unfold lifted in *. by etrans. Qed.

#[local] Instance lifted_sound : Sound driveCall besideCloud (keeps lifted).
Proof.
  apply keeps_sound; [apply _| |].
  - intros A h C s. unfold lifted, under. rewrite lift_state, lift_env. by apply (lift_call A).
  - intros f F s. unfold lifted, under. cbn. rewrite (F s.1). reflexivity.
Qed.

Lemma onCloud_keeps {A} (m : M CloudSync Env A) : operation libraryText turns mine A m -> keeps lifted A (onCloud m).
Proof. intros O s. unfold lifted, under, onCloud. cbn. rewrite <- surjective_pairing. exact (lift_operation A m O (cloud_ s.1, s.2)). Qed.

Hint Constructors driveCall operation : sound.
Hint Extern 5 (besideCloud _) => (intros ?; reflexivity) : sound.
Hint Extern 2 (keeps lifted _ (onCloud _)) => (apply onCloud_keeps; solve [constructor]) : sound.

#[local] Ltac walk := let Q := fresh in pose proof lifted_sound as Q; sound.

Lemma k_readTree c : keeps lifted _ (readTree c).
Proof. unfold readTree. walk. Qed.
Hint Resolve k_readTree : sound.
Lemma k_findNode c n : keeps lifted _ (findNode c n).
Proof. unfold findNode. walk. Qed.
Hint Resolve k_findNode : sound.
Lemma k_readTrees l : forall t, keeps lifted _ (readTrees l t).
Proof. induction l as [|c l IH]; intros t; cbn [readTrees]; walk. Qed.
Hint Resolve k_readTrees : sound.
Lemma k_state : keeps lifted _ state.
Proof. unfold state. walk. Qed.
Lemma k_download b : keeps lifted _ (download b).
Proof. unfold download. walk. Qed.
Lemma k_now : keeps lifted _ now.
Proof. unfold now. walk. Qed.
Lemma k_forgetUsage : keeps lifted _ (forgetUsage (Env := Env)).
Proof. unfold forgetUsage. walk. Qed.
Lemma k_apply c ops : keeps lifted _ (CloudDrive.apply c ops).
Proof. unfold CloudDrive.apply. walk. Qed.
Lemma k_orError m : keeps lifted _ m -> keeps lifted _ (orError libraryText m).
Proof. intros K. unfold orError. walk. Qed.
Hint Resolve k_state k_download k_now k_forgetUsage k_apply k_orError : sound.
Lemma k_applyOps c ops : keeps lifted _ (applyOps libraryText c ops).
Proof. unfold applyOps. apply k_orError. walk. Qed.
Lemma k_conflict c n b : keeps lifted _ (conflict c n b).
Proof. unfold conflict. walk. Qed.
Hint Resolve k_applyOps k_conflict : sound.

(** An upload is noted as it is answered. *)
Lemma k_store args c n m e : keeps lifted _ (store args c n m e).
Proof.
  unfold store. apply (@sound_bind _ _ _ _ _ lifted_sound); [walk|intros text]. intros s. apply (keeps_then lifted); [unfold upload; apply (@sound_lift _ _ _ _ _ lifted_sound); constructor|].
  intros j U. apply lift_done in U. generalize (upload text match m with [] => #"text/markdown" | _ => m end s).2. intros s1.
  destruct (value_str j (#"fileId") []) as [f|x] eqn:F; [|reflexivity]. unfold bind at 1, ofResult, ret at 1. cbn iota beta. revert s1.
  apply (@sound_bind _ _ _ _ _ lifted_sound); [apply onCloud_keeps; constructor; by eapply lift_upload|intros ?]. walk.
Qed.
Hint Resolve k_store : sound.
Lemma k_writeText args : keeps lifted _ (writeText libraryText args).
Proof. unfold writeText. apply k_orError. unfold writeSteps. walk. Qed.
Lemma k_blobAt c n : keeps lifted _ (blobAt c n).
Proof. unfold blobAt. walk. Qed.
Hint Resolve k_writeText k_blobAt : sound.
Lemma k_readText c n g : keeps lifted _ (readText c n g).
Proof. unfold readText. walk. Qed.
Lemma k_readOne c n : keeps lifted _ (readOne libraryText c n).
Proof. unfold readOne. walk. Qed.
Hint Resolve k_readText k_readOne : sound.
Lemma k_readEach c l : keeps lifted _ (readEach libraryText c l).
Proof. induction l as [|n l IH]; cbn [readEach]; walk. Qed.
Hint Resolve k_readEach : sound.
Lemma k_readTexts c j : keeps lifted _ (readTexts libraryText c j).
Proof. unfold readTexts. walk. Qed.
Lemma k_usage b : keeps lifted _ (usage b).
Proof. unfold usage, askUsage. walk. Qed.
Lemma k_createShared n : keeps lifted _ (createShared libraryText n).
Proof. unfold createShared, result. apply k_orError. walk. Qed.
Lemma k_removeShared c : keeps lifted _ (removeShared libraryText turns c).
Proof. unfold removeShared, result. apply k_orError. walk. Qed.
Lemma k_textArg args k : keeps lifted _ (textArg (Env := Env) args k).
Proof. unfold textArg. walk. Qed.
Hint Resolve k_readTexts k_usage k_createShared k_removeShared k_textArg : sound.

Lemma handle_keeps (method : bytes) (args : json) : keeps lifted _ (handle libraryText turns method args).
Proof. pose proof lifted_sound as Q. unfold handle, result. repeat first [solve [eauto with sound nocore] | apply k_orError | sound_step]. Qed.
End Lifted.

#[local] Existing Instances inOrder_pre safe_pre.

(** ** Runs of the screen and the host *)

(** The screen asks for a method, or the host calls the synchroniser (its clock,
    the events of the engine, uploads of its own). *)
Inductive used (mine : bytes -> Prop) (s s' : Drive * Env) : Prop :=
| used_screen method args : s' = (handle libraryText turns method args s).2 -> used mine s s'
| used_host A (m : M CloudSync Env A) : operation libraryText turns mine A m -> s' = (onCloud m s).2 -> used mine s s'.

Lemma used_lifted (mine : bytes -> Prop) (R : St -> St -> Prop) `{!PreOrder R} `{!Lifts mine R} (s s' : Drive * Env) :
  rtc (used mine) s s' -> R (under s) (under s').
Proof.
  induction 1 as [s|s s1 s2 U _ IH]; [reflexivity|]. etrans; [|exact IH]. destruct U as [method args ->|A m O ->].
  - exact (handle_keeps mine R method args s).
  - exact (onCloud_keeps mine R m O s).
Qed.

Section Queue.
Context (id : bytes) (settled : Env -> bytes -> Prop) (released known : Env -> Prop) {Laws : QueueLaws id settled released known}.
Context (Blobs : forall A h, driveCall A h -> forall env, later settled released known env (h env).2).

#[local] Instance queue_lifts : Lifts (fun _ => True) (inOrder id settled released known).
Proof using All.
  split; [|intros A h C cloud env; by apply inOrder_same; [apply (Blobs A)|]|done].
  intros A m O. exact (operation_in_order libraryText turns id settled released known m O).
Qed.

(** What the screen or the host calls, or the reset of the synchroniser, by which
    an account is left. *)
Inductive turn (s : Drive * Env) : Drive * Env -> Prop :=
| turn_used s' : used (fun _ => True) s s' -> turn s s'
| turn_reset : turn s (onCloud reset s).2.

(** The state at the last reset, or at the beginning. *)
Definition lastReset (s s0 : Drive * Env) : Prop :=
  s0 = s \/ exists s1, rtc turn s s1 /\ s0 = (onCloud reset s1).2 /\ s0.2 = s1.2 /\ outboxes_ (cloud_ s0.1) = ∅.

Lemma turns_parts (s s' : Drive * Env) : rtc turn s s' -> known s.2 ->
  known s'.2 /\ exists s0, lastReset s s0 /\ known s0.2 /\ rtc (used (fun _ => True)) s0 s'.
Proof using All.
  intros R K. revert s' R. apply (rtc_ind_r (fun s' => known s'.2 /\ exists s0, lastReset s s0 /\ known s0.2 /\ rtc (used (fun _ => True)) s0 s')).
  - split; [done|]. exists s. split; [by left|]. by split.
  - intros s1 s2 R [s' U|] (K1 & s0 & L & K0 & I).
    + split; [by apply (proj1 (used_lifted _ (inOrder id settled released known) s1 s' (rtc_once _ _ U)))|].
      exists s0. split; [exact L|]. split; [exact K0|]. eapply rtc_r; [exact I|exact U].
    + split; [exact K1|]. exists (onCloud reset s1).2. split; [|by split]. right. by exists s1.
Qed.

(** Claim C15 (drive_queue_in_order): whatever the screen asks for (edits of the tree,
    texts, shared folders, invitations), whenever the host lets the synchroniser work
    and whichever calls fail: since the beginning or the last reset of the synchroniser
    an operation leaves the queue of a container at its front, when the server has
    taken or refused it for good, and new ones come behind, unless the container was
    given up: the engine was told to forget or leave it, or was found absent. A reset
    empties the queues in memory, and writes nothing. *)
Theorem drive_queue_in_order (s s' : Drive * Env) : rtc turn s s' -> known s.2 ->
  (exists s0, lastReset s s0 /\ rtc (used (fun _ => True)) s0 s') /\
  forall s0, lastReset s s0 -> rtc (used (fun _ => True)) s0 s' ->
  released s'.2 \/
  exists k new, outboxOf id (cloud_ s'.1) = drop k (outboxOf id (cloud_ s0.1)) ++ new /\
    Forall (fun item => settled s'.2 (opId item)) (take k (outboxOf id (cloud_ s0.1))).
Proof using All.
  intros R K. split; [destruct (turns_parts s s' R K) as (_ & s0 & L & _ & U); by exists s0|]. intros s0 L U.
  apply (proj2 (used_lifted _ (inOrder id settled released known) s0 s' U)).
  change (known s0.2). destruct L as [->|(s1 & R1 & _ & E & _)]; [exact K|]. rewrite E. by apply (turns_parts s s1).
Qed.
End Queue.

Section Erased.
Context (mine : bytes -> Prop) (me : bytes) (purged : bytes -> Prop) (erased recorded : Env -> bytes -> Prop).
Context {Laws : BlobLaws me purged erased recorded}.
Context (Blobs : forall A h, driveCall A h -> forall env, harmless erased recorded env (h env).2)
  (Upload : forall bs m env j f, (b_upload bs m env).1 = Ok j -> value_str j (#"fileId") [] = Ok f -> mine f).

#[local] Instance blob_lifts : Lifts mine (safe mine purged erased recorded).
Proof using All.
  split; [|intros A h C cloud env; by apply safe_harmless; [apply (Blobs A)|]|exact Upload].
  intros A m O. exact (operation_safe libraryText turns mine me purged erased recorded m O).
Qed.

(** Claim C16 (drive_erases_own): Whatever the screen asks for: a blob is erased on the server only
    if an upload of this device gave it and the journal says that a file of this
    user with it was erased. *)
Theorem drive_erases_own (s s' : Drive * Env) (f : bytes) : rtc (used mine) s s' -> noted mine recorded (under s) -> erased s'.2 f ->
  erased s.2 f \/ mine f /\ purged f.
Proof using All. intros U N E. by apply (proj2 (used_lifted _ (safe mine purged erased recorded) s s' U N)). Qed.
End Erased.

End Host.

(** ** Runs *)

Lemma bench_drive (R : Bench -> Bench -> Prop) : (forall e, R e e) -> forall A h, driveCall A h -> forall e, R e (h e).2.
Proof. intros Refl A h C e. destruct C; apply Refl. Qed.

Definition writeArgs : json := jobj [(#"container", JStr (#"aa")); (#"name", JStr (#"a.md")); (#"text", JStr (#"hello"))].
Definition opened : Drive * Bench := (newDrive before.1, before.2).
Definition written : Drive * Bench := (handle anyText 5 (#"parvaneCloudWriteText") writeArgs opened).2.
Definition flushed : Drive * Bench := (onCloud (flush 5 (#"aa")) written).2.

Lemma bench_used (mine : bytes -> Prop) : rtc (used anyText 5 mine) opened flushed.
Proof.
  eapply rtc_l; [by eapply (used_screen _ _ _ _ _ (#"parvaneCloudWriteText") writeArgs)|].
  apply rtc_once. eapply (used_host _ _ _ _ _ _ (flush 5 (#"aa"))); [constructor|reflexivity].
Qed.

(** Then the account is left and another file is written. *)
Definition leftDrive : Drive * Bench := (onCloud reset flushed).2.
Definition rewritten : Drive * Bench := (handle anyText 5 (#"parvaneCloudWriteText") writeArgs leftDrive).2.

Lemma bench_turns : rtc (turn anyText 5) opened flushed /\ rtc (turn anyText 5) opened rewritten.
Proof.
  assert (R : rtc (turn anyText 5) opened flushed) by (eapply rtc_subrel; [|apply bench_used]; intros s s'; by constructor).
  split; [exact R|]. eapply rtc_r; [eapply rtc_r; [exact R|apply turn_reset]|]. apply turn_used.
  by eapply (used_screen _ _ _ _ _ (#"parvaneCloudWriteText") writeArgs).
Qed.

Lemma drive_queue_in_order_witness :
  (~ isGone flushed.2 /\ opId <$> outboxOf (#"aa") (cloud_ flushed.1) = (#"b2") :: (#"c3") :: nil) /\
  (isGone flushed.2 \/
   exists k new, outboxOf (#"aa") (cloud_ flushed.1) = drop k (outboxOf (#"aa") (cloud_ opened.1)) ++ new /\
     Forall (fun item => isAnswered flushed.2 (opId item)) (take k (outboxOf (#"aa") (cloud_ opened.1)))) /\
  exists s0, lastReset anyText 5 opened s0 /\ rtc (used anyText 5 (fun _ => True)) s0 rewritten.
Proof.
  split; [split; [|vm_compute; reflexivity]|].
  - assert (gone flushed.2 = []) as E by (vm_compute; reflexivity). unfold isGone. rewrite E. apply not_elem_of_nil.
  - assert (B : forall A h, driveCall A h -> forall e, later isAnswered isGone (fun _ => True) e (h e).2).
    { apply (bench_drive (later isAnswered isGone (fun _ => True))). intros e. by apply bench_later. }
    pose proof (drive_queue_in_order anyText 5 (#"aa") isAnswered isGone (fun _ => True) B opened) as T. destruct bench_turns as [R1 R2]. split.
    + exact (proj2 (T flushed R1 I) opened (or_introl eq_refl) (bench_used _)).
    + exact (proj1 (T rewritten R2 I)).
Defined.

(** A file is written, then all is sent and the blobs of erased files are
    collected: of the two in the journal one was uploaded here. *)
Definition idleDrive : Drive * Bench := (newDrive newSync, mkBench [] [] [] [] [] 0).
Definition cleaned : Drive * Bench := (onCloud (flush 5 (#"aa")) (handle anyText 5 (#"parvaneCloudWriteText") writeArgs idleDrive).2).2.

Lemma drive_erases_own_witness : (rtc (used anyText 5 isMine) idleDrive cleaned /\ erased cleaned.2 = (#"f1") :: nil) /\
  (isErased idleDrive.2 (#"f1") \/ isMine (#"f1") /\ isPurged (#"f1")).
Proof.
  assert (R : rtc (used anyText 5 isMine) idleDrive cleaned).
  { eapply rtc_l; [by eapply (used_screen _ _ _ _ _ (#"parvaneCloudWriteText") writeArgs)|].
    apply rtc_once. eapply (used_host _ _ _ _ _ _ (flush 5 (#"aa"))); [constructor|reflexivity]. }
  assert (E : erased cleaned.2 = (#"f1") :: nil) by (vm_compute; reflexivity).
  split; [exact (conj R E)|]. refine (drive_erases_own anyText 5 isMine (#"me") isPurged isErased isRecorded _ _ idleDrive cleaned (#"f1") R _ _).
  - apply (bench_drive (harmless isErased isRecorded)). by split.
  - intros bs m e j f [= <-] [= <-]. reflexivity.
  - split; [intros f F; exact (False_ind _ (not_elem_of_nil f F))|intros l O; change (None = Some l) in O; discriminate O].
  - unfold isErased. rewrite E. by apply list_elem_of_singleton.
Defined.

End DriveRuns.
