(* ===== verification/NotesFolders.v ===== *)
(** * NotesFolders: folders of notes and the history of a canvas

    Module [Folders] models [src/sections/notes_folders.cpp] (and the order of
    UTF-16 strings of [src/sections/notes_canvas.cpp] that it sorts with) over
    the nodes of the cloud. Module [History] models
    [src/sections/notes_canvas_history.cpp]. *)

From S2P Require Import Prelude Utf8 Order NotesText CloudModel.
From Stdlib Require Import Sorted Permutation.
Import Cloud Text.

Module Folders.

(** ** The order of UTF-16 strings *)

(** The bytes [take] reads, after the check that they are all there. *)
Definition nextCodePoint (c : byte) (rest : bytes) : Z * nat :=
  let take_ (count : nat) (first : Z) : Z * nat :=
    if length rest <? count then (0xFFFD%Z, 1)
    else match Unicode.conts count rest first with Some cp => (cp, S count) | None => (0xFFFD%Z, 1) end in
  let b := b2z c in
  if (b <? 0x80)%Z then (b, 1)
  else if (Z.land b 0xE0 =? 0xC0)%Z then take_ 1 (Z.land b 0x1F)
  else if (Z.land b 0xF0 =? 0xE0)%Z then take_ 2 (Z.land b 0x0F)
  else if (Z.land b 0xF8 =? 0xF0)%Z then take_ 3 (Z.land b 0x07)
  else (0xFFFD%Z, 1).

Fixpoint toUtf16From (fuel : nat) (text : bytes) : list Z :=
  match fuel, text with
  | S f, c :: rest =>
      let '(cp, len) := nextCodePoint c rest in
      (if (0x10000 <=? cp)%Z then
         let v := (cp - 0x10000)%Z in [u16 (0xD800 + Z.shiftr v 10); u16 (0xDC00 + Z.land v 0x3FF)]
       else [cp]) ++ toUtf16From f (drop len text)
  | _, _ => []
  end.

Definition toUtf16 (text : bytes) : list Z := toUtf16From (length text) text.

Definition utf16Less (a b : bytes) : bool := (lexList cmp (toUtf16 a) (toUtf16 b) <? 0)%Z.

(** ** Data *)

Record NoteFolder := { folder_id : bytes; path : bytes; folder_name : bytes }.
Inductive FolderNameError := BadName | Taken.
Inductive FolderSubmitError := SubmitBadName | SubmitTaken | Failed.

Record GroupedNote := { note_id : bytes; title : bytes; folder : bytes; isDaily : bool }.
Record NoteGroup := {
  key : bytes; group_folder : bytes; folderId : option bytes; group_daily : bool; items : list GroupedNote; hidden : Z
}.
Record FolderContents := { notes : list CloudNode; others : list CloudNode }.
Record NoteGroupsInput := {
  input_notes : list GroupedNote; folders : list NoteFolder; dailyFolders : list bytes; isSearch : bool;
  dailyShown : option Z
}.

Definition kNoteExtension : bytes := #".md".
Definition kRootFolder : bytes := [].
Definition kDailyGroupKey : bytes := x00 :: #"daily".

Definition folderErrorKey (error : FolderSubmitError) : bytes :=
  match error with
  | SubmitBadName => #"KnowledgeFolderBadName"
  | SubmitTaken => #"KnowledgeFolderTaken"
  | Failed => #"KnowledgeFolderFailed"
  end.

(** ** The folders of a vault *)

Definition parentOf (node : CloudNode) : option bytes :=
  match parent node with Some (c :: s) => Some (c :: s) | _ => None end.

Definition isDayKey (title : bytes) : bool :=
  if negb (length title =? 10) then false
  else forallb (fun i => let c := nth i title x00 in
    if (i =? 4) || (i =? 7) then bool_decide (c = "-"%byte) else isAsciiDigit (b2z c)) (seq 0 10).

Definition pathLess (a b : bytes) : bool := utf16Less a b.

Definition isFolder (node : CloudNode) : bool := bool_decide (kind node = #"folder").

(** [byId.emplace] keeps the first node with an id. *)
Definition find (nodes : list CloudNode) (want : option bytes) : option CloudNode :=
  match want with
  | None => None
  | Some w => snd <$> list_find (fun n => id n = w) nodes
  end.

Fixpoint climbNames (fuel : nat) (nodes : list CloudNode) (vaultId : bytes) (parent : option CloudNode) (names : list bytes)
  : option CloudNode * list bytes :=
  match fuel, parent with
  | S f, Some p =>
      if bool_decide (id p = vaultId) then (parent, names)
      else climbNames f nodes vaultId (find nodes (parentOf p)) (name p :: names)
  | _, _ => (parent, names)
  end.

Definition folderOf (nodes : list CloudNode) (vaultId : bytes) (node : CloudNode) : list NoteFolder :=
  if negb (isFolder node) || trashed node || bool_decide (id node = vaultId) then []
  else
    let '(parent, names) := climbNames (S (length nodes)) nodes vaultId (find nodes (parentOf node)) [name node] in
    match parent with
    | Some _ => [{| folder_id := id node; path := join names (#"/"); folder_name := name node |}]
    | None => []
    end.

Definition listNoteFolders (nodes : list CloudNode) (vaultId : bytes) : list NoteFolder :=
  stableSort (fun a b => pathLess (path a) (path b)) (nodes ≫= folderOf nodes vaultId).

Definition folderCaption (path : bytes) : bytes := join (split path "/") (#" / ").

Definition isInFolder (noteFolder path : bytes) : bool :=
  bool_decide (noteFolder = path) || startsWith noteFolder (path ++ #"/").

Definition checkFolderName (name : bytes) (siblings : list bytes) : option FolderNameError :=
  if negb (bool_decide (name = trim name)) || (if validateName name then true else false) then Some BadName
  else if existsb (fun sibling => bool_decide (toLower sibling = toLower name)) siblings then Some Taken
  else None.

(** ** The content of a folder *)

(** One pass over the tree: the ids known, and if it added some. *)
Definition visit (st : list bytes * bool) (node : CloudNode) : list bytes * bool :=
  let '(inside, hasMore) := st in
  if negb (isFolder node) || trashed node || bool_decide (id node ∈ inside) then (inside, hasMore)
  else match parentOf node with
       | None => (inside, hasMore)
       | Some p => if bool_decide (p ∈ inside) then (id node :: inside, true) else (inside, hasMore)
       end.

Definition pass (nodes : list CloudNode) (inside : list bytes) : list bytes * bool := foldl visit (inside, false) nodes.

(** Passes until one adds nothing; see [folderContents_reached]. *)
Fixpoint passes (fuel : nat) (nodes : list CloudNode) (inside : list bytes) : option (list bytes) :=
  match fuel with
  | O => None
  | S f => let '(inside, hasMore) := pass nodes inside in if hasMore then passes f nodes inside else Some inside
  end.

Definition sortOut (inside : list bytes) (result : FolderContents) (node : CloudNode) : FolderContents :=
  match parentOf node with
  | None => result
  | Some p =>
      if negb (bool_decide (kind node = #"file")) || trashed node || negb (bool_decide (p ∈ inside)) then result
      else if endsWith (name node) kNoteExtension
      then {| notes := notes result ++ [node]; others := others result |}
      else {| notes := notes result; others := others result ++ [node] |}
  end.

Definition folderContents (nodes : list CloudNode) (folderId : bytes) : option FolderContents :=
  inside ← passes (S (length nodes)) nodes [folderId];
  Some (foldl (sortOut inside) {| notes := []; others := [] |} nodes).

(** ** Groups of notes *)

Definition pushNote (m : list (bytes * list GroupedNote)) (k : bytes) (new : list GroupedNote) : list (bytes * list GroupedNote) :=
  mset k (default [] (mget k m) ++ new) m.

Definition has (m : list (bytes * list GroupedNote)) (k : bytes) : bool := if mget k m then true else false.

Definition distribute (st : list (bytes * list GroupedNote) * list GroupedNote) (note : GroupedNote)
  : list (bytes * list GroupedNote) * list GroupedNote :=
  let '(byFolder, daily) := st in
  if isDaily note && isDayKey (title note) then (byFolder, daily ++ [note])
  else (pushNote byFolder (folder note) [note], daily).

(** The groups of folders without notes. *)
Definition addEmpty (input : NoteGroupsInput) (byFolder : list (bytes * list GroupedNote)) : list (bytes * list GroupedNote) :=
  if isSearch input then byFolder
  else
    let byFolder := foldl (fun m f =>
      if negb (has m (path f)) && negb (bool_decide (path f ∈ dailyFolders input)) then pushNote m (path f) [] else m)
      byFolder (folders input) in
    if negb (bool_decide (folders input = [])) && negb (has byFolder kRootFolder) then pushNote byFolder kRootFolder []
    else byFolder.

Definition idOf (input : NoteGroupsInput) (p : bytes) : option bytes :=
  (fun r => folder_id r.2) <$> list_find (fun f => path f = p) (folders input).

Definition i32 : Z -> Z := signed 32.

Definition dailyGroup (input : NoteGroupsInput) (daily : list GroupedNote) : list NoteGroup :=
  match stableSort (fun a b => pathLess (title b) (title a)) daily with
  | [] => []
  | d :: ds =>
      let total := length (d :: ds) in
      let kept := match dailyShown input with
                  | Some shown => if isSearch input then d :: ds
                                  else take (Nat.min total (Z.to_nat (Z.max 0 shown))) (d :: ds)
                  | None => d :: ds
                  end in
      [{| key := kDailyGroupKey; group_folder := folder d; folderId := idOf input (folder d); group_daily := true;
          items := kept; hidden := i32 (Z.of_nat (total - length kept)) |}]
  end.

Definition buildNoteGroups (input : NoteGroupsInput) : list NoteGroup :=
  let '(byFolder, daily) := foldl distribute ([], []) (input_notes input) in
  let entries := stableSort (fun a b => pathLess a.1 b.1) (addEmpty input byFolder) in
  ((fun e => {| key := e.1; group_folder := e.1; folderId := idOf input e.1; group_daily := false; items := e.2; hidden := 0 |})
     <$> entries) ++ dailyGroup input daily.


(** ** Paths *)

Definition nameOk (s : bytes) : Prop := "/"%byte ∉ s.
#[export] Instance nameOk_dec (s : bytes) : Decision (nameOk s) := _.

Lemma split_cat (sep : byte) (s t : bytes) : split (s ++ sep :: t) sep = split s sep ++ split t sep.
Proof.
  induction s as [|c s IH]; cbn [app split]; [rewrite bool_decide_eq_true_2 by reflexivity; reflexivity|].
  case_bool_decide; [rewrite IH; reflexivity|]. rewrite IH. destruct (split s sep) as [|p ps] eqn:E; [|reflexivity].
  destruct s; cbn in E; repeat case_match; discriminate.
Qed.

Lemma split_name (sep : byte) (s : bytes) : sep ∉ s -> split s sep = [s].
Proof.
  induction s as [|c s IH]; [reflexivity|]. rewrite not_elem_of_cons. intros [N1 N2]. cbn [split].
  rewrite bool_decide_eq_false_2 by congruence. rewrite IH by exact N2. reflexivity.
Qed.

Lemma join_cons (p q : bytes) (ps : list bytes) (sep : bytes) : join (p :: q :: ps) sep = p ++ sep ++ join (q :: ps) sep.
Proof.
  assert (G : forall l a b, foldl (fun out q => out ++ sep ++ q) (a ++ b) l = a ++ foldl (fun out q => out ++ sep ++ q) b l).
  { induction l as [|r l IH]; intros a b; [reflexivity|]. cbn [foldl]. rewrite <- app_assoc. apply IH. }
  unfold join. cbn [foldl]. rewrite (app_assoc p sep q), G, <- app_assoc. reflexivity.
Qed.

Lemma join_app (ps qs : list bytes) (sep : bytes) : ps <> [] -> qs <> [] -> join (ps ++ qs) sep = join ps sep ++ sep ++ join qs sep.
Proof.
  intros P Q. induction ps as [|p ps IH]; [congruence|]. destruct ps as [|p' ps].
  - destruct qs as [|q qs]; [congruence|]. apply (join_cons p q qs sep).
  - cbn [app] in *. rewrite !join_cons, IH by discriminate. rewrite <- !app_assoc. reflexivity.
Qed.

Lemma split_join (ps : list bytes) : ps <> [] -> Forall nameOk ps -> split (join ps (#"/")) "/" = ps.
Proof.
  intros P F. induction F as [|p ps Hp F IH]; [congruence|]. destruct ps as [|q ps]; [apply split_name; exact Hp|].
  rewrite join_cons. cbn [app]. change (p ++ #"/" ++ ?x) with (p ++ "/"%byte :: x). rewrite split_cat, split_name by exact Hp.
  cbn [app]. f_equal. apply IH. discriminate.
Qed.

Lemma startsWith_iff (s prefix : bytes) : startsWith s prefix = true <-> exists t, s = prefix ++ t.
Proof.
  unfold startsWith. rewrite andb_true_iff, bool_decide_eq_true, Nat.leb_le. split.
  - intros [_ E]. exists (drop (length prefix) s). rewrite <- E at 1. rewrite take_drop. reflexivity.
  - intros [t ->]. rewrite length_app, take_app_length. split; [lia|reflexivity].
Qed.

(** Property (functional): for names without a slash, a note's folder lies in a
    folder exactly when the names of the second are the first names of it; and
    the caption of a folder has the same names with spaces around the slash. *)
Theorem isInFolder_iff (ns ms : list bytes) (Nn : ns <> []) (Nm : ms <> []) (Fn : Forall nameOk ns) (Fm : Forall nameOk ms) :
  (isInFolder (join ns (#"/")) (join ms (#"/")) = true <-> ms `prefix_of` ns) /\
  folderCaption (join ns (#"/")) = join ns (#" / ").
Proof.
  split; [|unfold folderCaption; rewrite split_join by assumption; reflexivity].
  unfold isInFolder. rewrite orb_true_iff, bool_decide_eq_true, startsWith_iff. split.
  - intros [E|[t E]]; apply (f_equal (fun s => split s "/")) in E; rewrite split_join in E by assumption.
    + rewrite split_join in E by assumption. rewrite E. reflexivity.
    + rewrite <- app_assoc in E. cbn [app] in E. change (#"/" ++ t) with ("/"%byte :: t) in E.
      rewrite split_cat, split_join in E by assumption. exists (split t "/"). exact E.
  - intros [k ->]. destruct k as [|q k]; [left; rewrite app_nil_r; reflexivity|right].
    exists (join (q :: k) (#"/")). rewrite join_app by (exact Nm || discriminate). rewrite app_assoc. reflexivity.
Qed.

Lemma isInFolder_iff_witness :
  isInFolder (#"a/b") (#"a") = true /\ (isInFolder (#"a/b") (#"a") = true <-> [ #"a"] `prefix_of` [ #"a"; #"b"]).
Proof.
  split; [vm_compute; reflexivity|].
  refine (proj1 (isInFolder_iff [ #"a"; #"b"] [ #"a"] _ _ _ _)); try discriminate;
    apply (bool_decide_unpack _); vm_compute; exact I.
Defined.

(** ** The folders of a vault *)

(** [below n l]: [l] are the nodes from the one in the vault down to [n]. *)
Inductive below (nodes : list CloudNode) (vaultId : bytes) : CloudNode -> list CloudNode -> Prop :=
  | below_top n v : up nodes n v -> id v = vaultId -> below nodes vaultId n [n]
  | below_deep n p l : up nodes n p -> id p <> vaultId -> below nodes vaultId p l -> below nodes vaultId n (l ++ [n]).

Section Vault.
Context (nodes : list CloudNode) (vaultId : bytes) (Nd : base.NoDup (id <$> nodes)) (F : forest nodes).

Lemma parentOf_cloud (n : CloudNode) : parentOf n = Cloud.parentOf n.
Proof using. reflexivity. Qed.

Lemma find_up (n p : CloudNode) : find nodes (parentOf n) = Some p <-> up nodes n p.
Proof using Nd.
  unfold up, find. rewrite parentOf_cloud. destruct (Cloud.parentOf n) as [w|]; split.
  - destruct (list_find (fun m => id m = w) nodes) as [[i m]|] eqn:L; [|discriminate]. intros [= <-].
    exists w, i. split; [reflexivity|]. apply byId_find; assumption.
  - intros (w' & i & [= <-] & B). apply byId_find in B; [|exact Nd]. rewrite B. reflexivity.
  - discriminate.
  - intros (w & i & E & _). discriminate.
Qed.

Lemma up_fun (n p q : CloudNode) : up nodes n p -> up nodes n q -> p = q.
Proof using. intros (w & i & E1 & B1) (w' & j & E2 & B2). congruence. Qed.

(** [seen] are the nodes climbed through, [n] the last of them. *)
Lemma climbNames_spec (fuel : nat) : forall n seen names,
  n ∈ seen -> base.NoDup seen -> (forall m, m ∈ seen -> m ∈ nodes /\ rtc (up nodes) m n) ->
  length nodes < fuel + length seen ->
  match climbNames fuel nodes vaultId (find nodes (parentOf n)) names with
  | (Some v, out) => exists l, below nodes vaultId n (l ++ [n]) /\ out = (name <$> l) ++ names
  | (None, _) => forall l, ~ below nodes vaultId n l
  end.
Proof using Nd F.
  induction fuel as [|fuel IH]; intros n seen names Hn Ns Hs Lf.
  { assert (length seen <= length nodes); [|lia]. apply submseteq_length, NoDup_submseteq; [exact Ns|]. intros m Hm. apply Hs, Hm. }
  cbn [climbNames]. destruct (find nodes (parentOf n)) as [p|] eqn:Fp.
  2: { intros l B. assert (exists p, up nodes n p) as [p U] by (inversion B; eauto). apply find_up in U. congruence. }
  apply find_up in Fp. case_bool_decide as V.
  { exists []. split; [|reflexivity]. apply (below_top nodes vaultId n p Fp V). }
  assert (Hp : p ∈ nodes) by (destruct Fp as (w & i & _ & B); apply byId_elem in B; apply B).
  specialize (IH p (p :: seen) (name p :: names)).
  destruct (climbNames fuel nodes vaultId (find nodes (parentOf p)) (name p :: names)) as [[v|] out] eqn:E.
  - destruct IH as (l & B & ->).
    + left.
    + constructor; [|exact Ns]. intros K. apply (Acc_no_cycle nodes n p (F n (proj1 (Hs n Hn))) Fp (proj2 (Hs p K))).
    + intros m [->|K]%elem_of_cons; [split; [exact Hp|constructor]|]. split; [apply Hs, K|].
      apply rtc_r with n; [apply Hs, K|exact Fp].
    + cbn. lia.
    + exists (l ++ [p]). split; [apply below_deep with p; assumption|]. rewrite fmap_app, <- app_assoc. reflexivity.
  - assert (IH' : forall l, ~ below nodes vaultId p l).
    { apply IH.
      + left.
      + constructor; [|exact Ns]. intros K. apply (Acc_no_cycle nodes n p (F n (proj1 (Hs n Hn))) Fp (proj2 (Hs p K))).
      + intros m [->|K]%elem_of_cons; [split; [exact Hp|constructor]|]. split; [apply Hs, K|].
        apply rtc_r with n; [apply Hs, K|exact Fp].
      + cbn. lia. }
    intros l B. inversion B as [? v' U Ev|? p' l' U Np B']; subst.
    + pose proof (up_fun n p v' Fp U). congruence.
    + pose proof (up_fun n p p' Fp U) as <-. exact (IH' l' B').
Qed.

Lemma below_fun (n : CloudNode) (l : list CloudNode) : below nodes vaultId n l -> forall m, below nodes vaultId n m -> l = m.
Proof using.
  induction 1 as [n v U V|n p l U V B IH]; intros m B'; inversion B' as [? v' U' V'|? p' l' U' V' B'']; subst.
  - reflexivity.
  - pose proof (up_fun n v p' U U'). congruence.
  - pose proof (up_fun n p v' U U'). congruence.
  - pose proof (up_fun n p p' U U') as <-. f_equal. apply IH, B''.
Qed.

Lemma folderOf_spec (n : CloudNode) (f : NoteFolder) : n ∈ nodes ->
  f ∈ folderOf nodes vaultId n <->
  kind n = #"folder" /\ trashed n = false /\ id n <> vaultId /\
  exists l, below nodes vaultId n l /\ f = {| folder_id := id n; path := join (name <$> l) (#"/"); folder_name := name n |}.
Proof using Nd F.
  intros Hn. unfold folderOf, isFolder. case_bool_decide as K; cbn [negb orb]; [|split; [intros H; inversion H|tauto]].
  destruct (trashed n); cbn [orb]; [split; [intros H; inversion H|intros (_ & ? & _); discriminate]|].
  case_bool_decide as V; cbn [orb]; [split; [intros H; inversion H|tauto]|].
  pose proof (climbNames_spec (S (length nodes)) n [n] [name n]) as C.
  destruct (climbNames (S (length nodes)) nodes vaultId (find nodes (parentOf n)) [name n]) as [[v|] out].
  - destruct C as (l & B & ->); [left|apply NoDup_singleton|intros m ->%list_elem_of_singleton; split; [exact Hn|constructor]|cbn; lia|].
    rewrite list_elem_of_singleton. split.
    + intros ->. repeat split; try assumption. exists (l ++ [n]). split; [exact B|]. rewrite fmap_app. reflexivity.
    + intros (_ & _ & _ & l' & B' & ->). pose proof (below_fun n _ B l' B') as <-. rewrite fmap_app. reflexivity.
  - split; [intros H; inversion H|]. intros (_ & _ & _ & l & B & _). exfalso. revert B. apply C;
      [left|apply NoDup_singleton|intros m ->%list_elem_of_singleton; split; [exact Hn|constructor]|cbn; lia].
Qed.
End Vault.

Definition utf16Cmp (a b : bytes) : Z := lexList cmp (toUtf16 a) (toUtf16 b).

Lemma ordering_utf16 : ordering (fun _ => True) utf16Cmp.
Proof.
  eapply (ordering_map _ toUtf16 (Forall (fun _ => True))); [intros; apply List.Forall_forall; auto|].
  apply ordering_list, ordering_cmp.
Qed.

(** Property (functional): in a forest with distinct identifiers the folders
    listed are those that are not in the trash and lie below the vault, at any
    depth, each with the names from the vault down to it, in the order of their
    paths. *)
Theorem listNoteFolders_spec (nodes : list CloudNode) (vaultId : bytes) (Nd : base.NoDup (id <$> nodes)) (F : forest nodes) :
  (forall f, f ∈ listNoteFolders nodes vaultId <-> exists n l, n ∈ nodes /\ kind n = #"folder" /\ trashed n = false /\
     id n <> vaultId /\ below nodes vaultId n l /\
     f = {| folder_id := id n; path := join (name <$> l) (#"/"); folder_name := name n |}) /\
  StronglySorted (fun a b => utf16Less (path b) (path a) = false) (listNoteFolders nodes vaultId).
Proof.
  split.
  - intros f. unfold listNoteFolders. rewrite (stableSort_perm _ (nodes ≫= folderOf nodes vaultId)).
    rewrite list_elem_of_bind. split.
    + intros (n & Hf & Hn). apply (folderOf_spec nodes vaultId Nd F n f Hn) in Hf as (K & T & V & l & B & ->). exists n, l. auto 10.
    + intros (n & l & Hn & K & T & V & B & ->). exists n. split; [|exact Hn]. apply (folderOf_spec nodes vaultId Nd F n _ Hn). eauto 10.
  - apply (stableSort_less (fun a b : NoteFolder => utf16Cmp (path a) (path b))); [|reflexivity].
    apply (ordering_map _ path (fun _ => True)); [auto|apply ordering_utf16].
Qed.

Lemma listNoteFolders_spec_witness :
  listNoteFolders [folderA; folderB] (#"a") = [{| folder_id := #"b"; path := name folderB; folder_name := name folderB |}] /\
  StronglySorted (fun a b => utf16Less (path b) (path a) = false) (listNoteFolders [folderA; folderB] (#"a")).
Proof.
  split; [vm_compute; reflexivity|]. apply (listNoteFolders_spec [folderA; folderB] (#"a") nodup_AB forest_AB).
Defined.

(** Where the parents form a cycle the loop ends by its bound, with a parent
    that is not the vault, and the folder is listed. *)
Lemma listNoteFolders_cycle :
  let node i p := {| id := i; kind := #"folder"; parent := Some p; name := i; size := 0; mime := []; mtime := 0;
    trashed := false; trashTop := false; trashedAt := 0; blob := None; thumb := None |} in
  listNoteFolders [node (#"x") (#"y"); node (#"y") (#"x")] (#"vault") <> [].
Proof. vm_compute. discriminate. Qed.


(** ** The content of a folder *)

(** The ids of the folder and of the living folders below it. *)
Inductive reached (nodes : list CloudNode) (folderId : bytes) : bytes -> Prop :=
  | reached_self : reached nodes folderId folderId
  | reached_in n p : n ∈ nodes -> isFolder n = true -> trashed n = false -> parentOf n = Some p ->
      reached nodes folderId p -> reached nodes folderId (id n).

Section Content.
Context (nodes : list CloudNode) (top : bytes).

Record known (inside : list bytes) : Prop := {
  kn_nodup : base.NoDup inside;
  kn_top : top ∈ inside;
  kn_reached i : i ∈ inside -> reached nodes top i;
  kn_ids i : i ∈ inside -> i = top \/ i ∈ id <$> nodes
}.

(** What is to be added at a node. *)
Definition misses (inside : list bytes) (n : CloudNode) : Prop :=
  isFolder n = true /\ trashed n = false /\ id n ∉ inside /\ exists p, parentOf n = Some p /\ p ∈ inside.

Lemma visit_cases (inside : list bytes) (more : bool) (n : CloudNode) :
  (misses inside n /\ visit (inside, more) n = (id n :: inside, true)) \/
  (~ misses inside n /\ visit (inside, more) n = (inside, more)).
Proof using.
  unfold visit, misses. destruct (isFolder n); cbn [negb orb]; [|right; split; [intros [? _]; discriminate|reflexivity]].
  destruct (trashed n); cbn [orb]; [right; split; [intros (_ & ? & _); discriminate|reflexivity]|].
  case_bool_decide as D; [right; split; [tauto|reflexivity]|].
  destruct (parentOf n) as [p|]; [|right; split; [intros (_ & _ & _ & p & ? & _); discriminate|reflexivity]].
  case_bool_decide as Q; [left; eauto 10|right; split; [|reflexivity]]. intros (_ & _ & _ & p' & [= <-] & ?). tauto.
Qed.

Lemma visits (l : list CloudNode) : forall inside more, known inside -> (forall n, n ∈ l -> n ∈ nodes) ->
  let st := foldl visit (inside, more) l in
  known st.1 /\ (st.2 = true -> more = true \/ length inside < length st.1) /\ length inside <= length st.1 /\
  (st.2 = false -> more = false /\ st.1 = inside /\ forall n, n ∈ l -> ~ misses inside n).
Proof using.
  induction l as [|n l IH]; intros inside more K Hl; cbv zeta; cbn [foldl].
  - split; [exact K|]. cbn. split; [auto|]. split; [lia|]. intros E. split; [exact E|]. split; [reflexivity|intros n Hn; inversion Hn].
  - destruct (visit_cases inside more n) as [[M ->]|[M ->]].
    + destruct M as (M1 & M2 & M3 & p & M4 & M5). assert (Hn : n ∈ nodes) by (apply Hl; left).
      destruct (IH (id n :: inside) true) as (H1 & H2 & H3 & H4); [| |].
      * split; [constructor; [exact M3|apply (kn_nodup _ K)]|right; apply (kn_top _ K)| |].
        -- intros i [->|Hi]%elem_of_cons; [|apply (kn_reached _ K), Hi]. apply reached_in with p; try assumption. apply (kn_reached _ K), M5.
        -- intros i [->|Hi]%elem_of_cons; [right; apply list_elem_of_fmap; eauto|apply (kn_ids _ K), Hi].
      * intros m Hm. apply Hl. right. exact Hm.
      * cbn in H3. split; [exact H1|]. split; [intros _; right; lia|]. split; [lia|]. intros E. destruct (H4 E) as [? _]. discriminate.
    + destruct (IH inside more K) as (H1 & H2 & H3 & H4); [intros m Hm; apply Hl; right; exact Hm|].
      split; [exact H1|]. split; [exact H2|]. split; [exact H3|]. intros E. destruct (H4 E) as (E1 & E2 & E3).
      split; [exact E1|]. split; [exact E2|]. intros m [->|Hm]%elem_of_cons; [exact M|apply E3, Hm].
Qed.

Lemma known_fit (inside : list bytes) : known inside -> length inside <= S (length nodes).
Proof using.
  intros K. rewrite <- (length_fmap id nodes). change (S (length (id <$> nodes))) with (length (top :: (id <$> nodes))).
  apply submseteq_length, NoDup_submseteq; [apply (kn_nodup _ K)|]. intros i Hi. apply elem_of_cons. apply (kn_ids _ K), Hi.
Qed.

Lemma passes_known (fuel : nat) : forall inside, known inside -> S (length nodes) < fuel + length inside ->
  exists inside', passes fuel nodes inside = Some inside' /\ known inside' /\ forall n, n ∈ nodes -> ~ misses inside' n.
Proof using.
  induction fuel as [|fuel IH]; intros inside K L; [pose proof (known_fit inside K); lia|]. cbn [passes]. unfold pass.
  pose proof (visits nodes inside false K ltac:(auto)) as V. cbv zeta in V.
  destruct (foldl visit (inside, false) nodes) as [inside' more]. cbn in V. destruct V as (K' & H2 & _ & H4).
  destruct more.
  - destruct (H2 eq_refl) as [?|L']; [discriminate|]. apply IH; [exact K'|lia].
  - destruct (H4 eq_refl) as (_ & -> & M). exists inside. auto.
Qed.

Lemma known_all (inside : list bytes) : known inside -> (forall n, n ∈ nodes -> ~ misses inside n) ->
  forall i, i ∈ inside <-> reached nodes top i.
Proof using.
  intros K M i. split; [apply (kn_reached _ K)|]. induction 1 as [|n p Hn Fn Tn Pn _ IH]; [apply (kn_top _ K)|].
  destruct (decide (id n ∈ inside)) as [?|Ni]; [assumption|]. destruct (M n Hn). unfold misses. eauto 10.
Qed.
End Content.

(** A living file of the folder. *)
Definition fileIn (nodes : list CloudNode) (folderId : bytes) (n : CloudNode) : Prop :=
  n ∈ nodes /\ kind n = #"file" /\ trashed n = false /\ exists p, parentOf n = Some p /\ reached nodes folderId p.

Lemma grow_hit (P R : Prop) (n m : CloudNode) (K : CloudNode -> Prop) : K m ->
  ((P \/ n = m) \/ (R /\ K n) <-> P \/ ((n = m \/ R) /\ K n)).
Proof. intros H. split; [intros [[?| ->]|(?&?)]; auto|intros [?|([->|?]&?)]; auto]. Qed.

Lemma grow_miss (P R : Prop) (n m : CloudNode) (K : CloudNode -> Prop) : ~ K m ->
  (P \/ (R /\ K n) <-> P \/ ((n = m \/ R) /\ K n)).
Proof. intros H. split; [intros [?|(?&?)]; auto|intros [?|([->|?]&?)]; tauto]. Qed.

Definition filed (inside : list bytes) (n : CloudNode) : Prop :=
  kind n = #"file" /\ trashed n = false /\ exists p, parentOf n = Some p /\ p ∈ inside.

Lemma sortOut_all (inside : list bytes) (l : list CloudNode) : forall c n,
  (n ∈ notes (foldl (sortOut inside) c l) <-> n ∈ notes c \/ (n ∈ l /\ filed inside n /\ endsWith (name n) kNoteExtension = true)) /\
  (n ∈ others (foldl (sortOut inside) c l) <-> n ∈ others c \/ (n ∈ l /\ filed inside n /\ endsWith (name n) kNoteExtension = false)).
Proof.
  induction l as [|m l IH]; intros c n; cbn [foldl]; [split; (split; [auto|intros [?|[H _]]; [assumption|inversion H]])|].
  destruct (IH (sortOut inside c m) n) as [-> ->].
  assert (S : (filed inside m /\ sortOut inside c m = (if endsWith (name m) kNoteExtension
      then {| notes := notes c ++ [m]; others := others c |} else {| notes := notes c; others := others c ++ [m] |})) \/
    (~ filed inside m /\ sortOut inside c m = c)).
  { unfold sortOut, filed. destruct (parentOf m) as [p|]; [|right; split; [intros (_ & _ & p & ? & _); discriminate|reflexivity]].
    case_bool_decide as D1; cbn [negb orb]; [|right; split; [tauto|reflexivity]].
    destruct (trashed m); cbn [orb]; [right; split; [intros (_ & ? & _); discriminate|reflexivity]|].
    case_bool_decide as D2; cbn [negb]; [left; eauto 10|right; split; [|reflexivity]]. intros (_ & _ & p' & [= <-] & ?). tauto. }
  setoid_rewrite elem_of_cons. destruct S as [[O ->]|[O ->]].
  - destruct (endsWith (name m) kNoteExtension) eqn:E; cbn [notes others]; rewrite elem_of_app, list_elem_of_singleton; split.
    + apply (grow_hit _ _ n m (fun x => filed inside x /\ endsWith (name x) kNoteExtension = true)). auto.
    + apply (grow_miss _ _ n m (fun x => filed inside x /\ endsWith (name x) kNoteExtension = false)). intros [_ ?]. congruence.
    + apply (grow_miss _ _ n m (fun x => filed inside x /\ endsWith (name x) kNoteExtension = true)). intros [_ ?]. congruence.
    + apply (grow_hit _ _ n m (fun x => filed inside x /\ endsWith (name x) kNoteExtension = false)). auto.
  - split.
    + apply (grow_miss _ _ n m (fun x => filed inside x /\ endsWith (name x) kNoteExtension = true)). tauto.
    + apply (grow_miss _ _ n m (fun x => filed inside x /\ endsWith (name x) kNoteExtension = false)). tauto.
Qed.

(** Property (termination): whatever the tree, cycles and missing parents
    included, the passes come to an end within one more than there are nodes,
    and the result has exactly the living files of the folder at any depth
    through living folders: the notes are those whose name ends with [.md]. *)
Theorem folderContents_reached (nodes : list CloudNode) (folderId : bytes) :
  exists c, folderContents nodes folderId = Some c /\ forall n,
    (n ∈ notes c <-> fileIn nodes folderId n /\ endsWith (name n) kNoteExtension = true) /\
    (n ∈ others c <-> fileIn nodes folderId n /\ endsWith (name n) kNoteExtension = false).
Proof.
  destruct (passes_known nodes folderId (S (length nodes)) [folderId]) as (inside & E & K & M).
  { split; [apply NoDup_singleton|left| |]; intros i ->%list_elem_of_singleton; [constructor|left; reflexivity]. }
  { cbn. lia. }
  unfold folderContents. rewrite E. cbn [mbind option_bind]. eexists. split; [reflexivity|]. intros n.
  pose proof (known_all nodes folderId inside K M) as R.
  destruct (sortOut_all inside nodes {| notes := []; others := [] |} n) as [-> ->]. cbn [notes others].
  unfold fileIn, filed. setoid_rewrite R. pose proof (not_elem_of_nil n). tauto.
Qed.

(** ** Groups of notes *)

Definition allOf (m : list (bytes * list GroupedNote)) : list GroupedNote := concat (snd <$> m).

Lemma pushNote_all (k : bytes) (new : list GroupedNote) (m : list (bytes * list GroupedNote)) : msorted m ->
  Permutation (allOf (pushNote m k new)) (allOf m ++ new).
Proof.
  unfold pushNote, allOf. induction m as [|[k' v] m IH]; cbn [mset mget msorted]; intros S; [cbn; rewrite app_nil_r; reflexivity|].
  destruct S as [S1 S2]. case_bool_decide as D; cbn [default fmap list_fmap concat snd].
  - rewrite <- !app_assoc. apply Permutation_app_head, Permutation_app_comm.
  - destruct (blt k k') eqn:B.
    + rewrite (mget_None_lt k m). 2: { revert S1. apply Forall_impl. intros kv H. apply (blt_trans k k'); assumption. }
      cbn. rewrite (Permutation_app_comm new). reflexivity.
    + cbn [fmap list_fmap concat snd]. rewrite <- app_assoc. apply Permutation_app_head, IH, S2.
Qed.

(** What the map of folders holds while it is filled. *)
Record grouped (m : list (bytes * list GroupedNote)) : Prop := {
  gr_sorted : msorted m;
  gr_folder k v n : (k, v) ∈ m -> n ∈ v -> folder n = k
}.

Lemma grouped_push (k : bytes) (new : list GroupedNote) (m : list (bytes * list GroupedNote)) : grouped m ->
  Forall (fun n => folder n = k) new -> grouped (pushNote m k new).
Proof.
  intros [S H] N. split; [apply mset_sorted, S|]. intros k' v n I Hn. unfold pushNote in I.
  apply mset_elem in I as [[= -> ->]|I]; [|exact (H k' v n I Hn)].
  apply elem_of_app in Hn as [Hn|Hn]; [|rewrite Forall_elem in N; apply N, Hn].
  destruct (mget k m) as [w|] eqn:G; [|inversion Hn]. apply mget_Some_elem in G. exact (H k w n G Hn).
Qed.

Lemma distribute_all (l : list GroupedNote) : forall m daily, grouped m ->
  let st := foldl distribute (m, daily) l in
  grouped st.1 /\ Permutation (allOf st.1 ++ st.2) (allOf m ++ daily ++ l) /\
  (Forall (fun n => isDaily n = true) daily -> Forall (fun n => isDaily n = true) st.2).
Proof.
  induction l as [|n l IH]; intros m daily G; cbv zeta; cbn [foldl]; [rewrite app_nil_r; auto|].
  unfold distribute at 2 4 6 8. destruct (isDaily n && isDayKey (title n)) eqn:E.
  - destruct (IH m (daily ++ [n]) G) as (H1 & H2 & H3). split; [exact H1|]. split; [rewrite H2, <- app_assoc; reflexivity|].
    intros F. apply H3, Forall_app. split; [exact F|]. apply andb_true_iff in E as [E _]. repeat constructor. exact E.
  - destruct (IH (pushNote m (folder n) [n]) daily) as (H1 & H2 & H3); [apply grouped_push; [exact G|repeat constructor]|].
    split; [exact H1|]. split; [|exact H3]. rewrite H2, (pushNote_all _ _ _ (gr_sorted _ G)), <- !app_assoc.
    apply Permutation_app_head. rewrite (app_assoc [n]), (Permutation_app_comm [n] daily), <- app_assoc. reflexivity.
Qed.

Lemma addEmpty_all (input : NoteGroupsInput) (m : list (bytes * list GroupedNote)) : grouped m ->
  grouped (addEmpty input m) /\ Permutation (allOf (addEmpty input m)) (allOf m).
Proof.
  intros G. unfold addEmpty. destruct (isSearch input); [auto|].
  assert (P : forall k m', grouped m' -> grouped (pushNote m' k []) /\ Permutation (allOf (pushNote m' k [])) (allOf m')).
  { intros k m' G'. split; [apply grouped_push; [exact G'|constructor]|]. rewrite (pushNote_all _ _ _ (gr_sorted _ G')), app_nil_r. reflexivity. }
  assert (L : forall fs m', grouped m' -> let m'' := foldl (fun m f =>
      if negb (has m (path f)) && negb (bool_decide (path f ∈ dailyFolders input)) then pushNote m (path f) [] else m) m' fs in
      grouped m'' /\ Permutation (allOf m'') (allOf m')).
  { induction fs as [|f fs IH]; intros m' G'; cbv zeta; cbn [foldl]; [auto|]. case_match; [|apply IH, G'].
    destruct (P (path f) m' G') as [G2 P2]. destruct (IH _ G2) as [G3 P3]. split; [exact G3|]. cbv zeta in P3. rewrite P3. exact P2. }
  destruct (L (folders input) m G) as [G2 P2]. cbv zeta in G2, P2. destruct (_ && _); [|auto].
  destruct (P kRootFolder _ G2) as [G3 P3]. split; [exact G3|]. rewrite P3. exact P2.
Qed.


Lemma allOf_perm (m m' : list (bytes * list GroupedNote)) : Permutation m m' -> Permutation (allOf m) (allOf m').
Proof.
  unfold allOf. induction 1 as [|x m m' _ IH|x y m|m1 m2 m3 _ IH1 _ IH2]; cbn.
  - reflexivity.
  - apply Permutation_app_head, IH.
  - rewrite !app_assoc. apply Permutation_app_tail, Permutation_app_comm.
  - rewrite IH1. exact IH2.
Qed.

Lemma i32_small (z : Z) : (0 <= z < 2 ^ 31)%Z -> i32 z = z.
Proof. intros H. unfold i32, signed. rewrite Z.mod_small; zpow; lia. Qed.

(** The group of the notes of days, and what it does not show. *)
Lemma dailyGroup_split (input : NoteGroupsInput) (daily : list GroupedNote) : exists rest,
  Permutation (concat (items <$> dailyGroup input daily) ++ rest) daily /\
  (isSearch input = true \/ dailyShown input = None -> rest = []) /\
  ((Z.of_nat (length daily) < 2 ^ 31)%Z -> foldr (fun g s => hidden g + s)%Z 0%Z (dailyGroup input daily) = Z.of_nat (length rest)) /\
  length (dailyGroup input daily) <= 1 /\ Forall (fun g => group_daily g = true) (dailyGroup input daily).
Proof.
  unfold dailyGroup. pose proof (stableSort_perm (fun a b => pathLess (title b) (title a)) daily) as Pm.
  destruct (stableSort _ daily) as [|d ds]; [exists []; cbn; split; [exact Pm|auto]|].
  assert (L : length daily = length (d :: ds)) by (symmetry; apply Permutation_length, Pm).
  assert (K : exists n, (match dailyShown input with
      | Some shown => if isSearch input then d :: ds else take (Nat.min (length (d :: ds)) (Z.to_nat (Z.max 0 shown))) (d :: ds)
      | None => d :: ds end) = take n (d :: ds) /\ (isSearch input = true \/ dailyShown input = None -> length (d :: ds) <= n)).
  { destruct (dailyShown input) as [shown|]; [destruct (isSearch input)|].
    - exists (length (d :: ds)). rewrite firstn_all. auto.
    - eexists. split; [reflexivity|]. intros [|]; discriminate.
    - exists (length (d :: ds)). rewrite firstn_all. auto. }
  destruct K as (n & -> & A). exists (drop n (d :: ds)). cbn [items fmap list_fmap concat foldr hidden length]. rewrite app_nil_r, take_drop.
  split; [exact Pm|]. split; [intros H; apply drop_ge, A, H|]. split; [|split; [lia|repeat constructor]].
  intros B. rewrite Z.add_0_r, length_drop, length_take. cbn [length] in *. rewrite i32_small; lia.
Qed.

(** Property (functional): grouping loses no note and shows none twice: the
    groups have all notes but some notes of days, none when the search is on or
    no number is given, and as many as the groups say are hidden; a group of a
    folder has notes of this folder, and these groups are in the order of their
    paths, before the one of the days. *)
Theorem buildNoteGroups_partition (input : NoteGroupsInput) :
  exists rest byFolder days, buildNoteGroups input = byFolder ++ days /\
    Permutation (concat (items <$> (byFolder ++ days)) ++ rest) (input_notes input) /\
    Forall (fun n => isDaily n = true) rest /\
    (isSearch input = true \/ dailyShown input = None -> rest = []) /\
    ((Z.of_nat (length (input_notes input)) < 2 ^ 31)%Z ->
       foldr (fun g s => hidden g + s)%Z 0%Z (byFolder ++ days) = Z.of_nat (length rest)) /\
    Forall (fun g => group_daily g = false /\ Forall (fun n => folder n = key g) (items g)) byFolder /\
    StronglySorted (fun a b => utf16Less (key b) (key a) = false) byFolder /\
    length days <= 1 /\ Forall (fun g => group_daily g = true) days.
Proof.
  unfold buildNoteGroups. assert (G0 : grouped []) by (split; [exact I|intros k v n H; inversion H]).
  pose proof (distribute_all (input_notes input) [] [] G0) as D. cbv zeta in D.
  destruct (foldl distribute ([], []) (input_notes input)) as [m daily]. cbn [fst snd] in D. destruct D as (G & P & Fd).
  destruct (addEmpty_all input m G) as [Ge Pe]. set (entries := stableSort (fun a b : bytes * list GroupedNote => pathLess a.1 b.1) (addEmpty input m)).
  assert (Ps : Permutation entries (addEmpty input m)) by apply stableSort_perm.
  destruct (dailyGroup_split input daily) as (rest & R1 & R2 & R3 & R4 & R5).
  set (toGroup := fun e : bytes * list GroupedNote => {| key := e.1; group_folder := e.1; folderId := idOf input e.1;
    group_daily := false; items := e.2; hidden := 0 |}).
  assert (It : concat (items <$> (toGroup <$> entries)) = allOf entries) by (unfold allOf; rewrite <- list_fmap_compose; reflexivity).
  assert (Pall : Permutation (allOf entries ++ daily) (input_notes input)).
  { rewrite (allOf_perm _ _ Ps), Pe. exact P. }
  exists rest, (toGroup <$> entries), (dailyGroup input daily). split; [reflexivity|].
  rewrite fmap_app, concat_app, It, <- app_assoc, R1. split; [exact Pall|].
  split; [|split; [exact R2|split; [|split; [|split; [|split; [exact R4|exact R5]]]]]].
  - specialize (Fd ltac:(constructor)). rewrite <- R1 in Fd. apply Forall_app in Fd. apply Fd.
  - intros B. rewrite foldr_app, R3. 2: { apply Permutation_length in Pall. rewrite length_app in Pall. lia. }
    clear. induction entries as [|e es IH]; [reflexivity|]. cbn. rewrite IH. lia.
  - apply Forall_fmap, Forall_elem. intros [k v] He. split; [reflexivity|]. apply Forall_elem. intros n Hn.
    rewrite Ps in He. exact (gr_folder _ Ge k v n He Hn).
  - pose proof (stableSort_less (fun a b : bytes * list GroupedNote => utf16Cmp a.1 b.1) (fun a b => pathLess a.1 b.1) (addEmpty input m)) as S.
    specialize (S ltac:(apply (ordering_map _ fst (fun _ => True)); [auto|apply ordering_utf16]) ltac:(reflexivity)).
    fold entries in S. clear - S. induction S as [|e es _ IH F]; constructor; [exact IH|].
    apply Forall_fmap. revert F. apply Forall_impl. intros b H. exact H.
Qed.

Lemma buildNoteGroups_partition_witness :
  let day i := {| note_id := i; title := #"2024-05-0" ++ i; folder := #"Days"; isDaily := true |} in
  let input := {| input_notes := [day (#"1"); {| note_id := #"n"; title := #"N"; folder := #"A"; isDaily := false |}; day (#"2")];
    folders := []; dailyFolders := []; isSearch := false; dailyShown := Some 1%Z |} in
  (hidden <$> buildNoteGroups input) = [0; 1]%Z /\
  exists rest : list GroupedNote, foldr (fun g s => hidden g + s)%Z 0%Z (buildNoteGroups input) = Z.of_nat (length rest).
Proof.
  cbv zeta. split; [vm_compute; reflexivity|].
  match goal with |- context [buildNoteGroups ?i] => destruct (buildNoteGroups_partition i) as (rest & b & d & -> & _ & _ & _ & H & _) end.
  exists rest. apply H. vm_compute. reflexivity.
Defined.

End Folders.

Module History.

Section Documents.
(** A shared pointer to a document that never changes. *)
Context {CanvasDocPtr : Type} `{EqDecision CanvasDocPtr}.

Record CanvasHistory := { past : list CanvasDocPtr; future : list CanvasDocPtr }.
Record CanvasHistoryMove := { history : CanvasHistory; doc : CanvasDocPtr }.

Definition kCanvasHistoryLimit : nat := 100.

Definition createHistory : CanvasHistory := {| past := []; future := [] |}.

(** The limit 0 is no limit. *)
Definition recordStep (history : CanvasHistory) (before : CanvasDocPtr) (limit : nat) : CanvasHistory :=
  let next := past history ++ [before] in
  {| past := if negb (limit =? 0) && (limit <? length next) then drop (length next - limit) next else next; future := [] |}.

Definition undoStep (history : CanvasHistory) (current : CanvasDocPtr) : option CanvasHistoryMove :=
  match list.last (past history) with
  | None => None
  | Some d => Some {| history := {| past := take (length (past history) - 1) (past history); future := current :: future history |};
                      doc := d |}
  end.

Definition redoStep (history : CanvasHistory) (current : CanvasDocPtr) : option CanvasHistoryMove :=
  match future history with
  | [] => None
  | d :: rest => Some {| history := {| past := past history ++ [current]; future := rest |}; doc := d |}
  end.

Definition dropStep (history : CanvasHistory) : option CanvasHistoryMove :=
  match list.last (past history) with
  | None => None
  | Some d => Some {| history := {| past := take (length (past history) - 1) (past history); future := future history |}; doc := d |}
  end.

(** The new history, and [*changed]. *)
Definition mapHistory (history : CanvasHistory) (change : CanvasDocPtr -> CanvasDocPtr) : CanvasHistory * bool :=
  let next := {| past := change <$> past history; future := change <$> future history |} in
  let isSame := forallb (fun d => bool_decide (change d = d)) (past history ++ future history) in
  (if isSame then history else next, negb isSame).

End Documents.
Arguments CanvasHistory : clear implicits.
Arguments CanvasHistoryMove : clear implicits.


(** ** The history is a cursor on a line of documents *)

Section Line.
Context {Doc : Type} `{EqDecision Doc}.

Definition timeline (h : CanvasHistory Doc) (current : Doc) : list Doc := past h ++ current :: future h.

Definition steps (step : CanvasHistory Doc -> Doc -> option (CanvasHistoryMove Doc)) : nat -> CanvasHistory Doc -> Doc -> option (CanvasHistoryMove Doc) :=
  fix go n h d := match n with
                  | O => Some {| history := h; doc := d |}
                  | S n' => match step h d with None => None | Some m => go n' (history m) (doc m) end
                  end.

Lemma undo_snoc (p : list Doc) (d : Doc) (f : list Doc) (current : Doc) :
  undoStep {| past := p ++ [d]; future := f |} current = Some {| history := {| past := p; future := current :: f |}; doc := d |}.
Proof using.
  unfold undoStep. cbn [past future]. rewrite list.last_snoc, length_app. cbn [length].
  rewrite Nat.add_sub, take_app_length. reflexivity.
Qed.

Lemma steps_snoc (step : CanvasHistory Doc -> Doc -> option (CanvasHistoryMove Doc)) (n : nat) : forall h d m m',
  steps step n h d = Some m -> step (history m) (doc m) = Some m' -> steps step (S n) h d = Some m'.
Proof using.
  induction n as [|n IH]; intros h d m m' E S; cbn [steps] in *.
  - injection E as <-. cbn in S. rewrite S. destruct m'. reflexivity.
  - destruct (step h d) as [m1|]; [|discriminate]. exact (IH _ _ m m' E S).
Qed.

Lemma undos (k : nat) : forall (h : CanvasHistory Doc) (current : Doc), k <= length (past h) ->
  exists h' d, steps undoStep k h current = Some {| history := h'; doc := d |} /\
    timeline h' d = timeline h current /\ length (past h') + k = length (past h) /\
    steps redoStep k h' d = Some {| history := h; doc := current |}.
Proof using.
  induction k as [|k IH]; intros h current L; [exists h, current; cbn; auto|].
  destruct h as [p f]. cbn [past] in L. destruct p as [|d p _] using rev_ind; [cbn in L; lia|]. rewrite length_app in L. cbn in L.
  cbn [steps]. rewrite undo_snoc. cbn [history doc].
  destruct (IH {| past := p; future := current :: f |} d) as (h' & d' & E & T & Lp & R); [cbn; lia|].
  exists h', d'. split; [exact E|]. split; [rewrite T; unfold timeline; cbn; rewrite <- app_assoc; reflexivity|].
  cbn [past] in *. split; [rewrite length_app; cbn; lia|]. exact (steps_snoc _ _ _ _ _ _ R eq_refl).
Qed.
End Line.

(** Property (roundtrip): any number of undone steps can be redone, and undoing
    moves on the line of the documents without changing it; a recorded step
    gives the document back when it is undone, forgets what could be redone,
    and keeps the latest documents up to the limit. *)
Theorem undo_redo {Doc : Type} `{EqDecision Doc} (h : CanvasHistory Doc) (current before : Doc) (k limit : nat) (Lk : k <= length (past h)) :
  (exists h' d, steps undoStep k h current = Some {| history := h'; doc := d |} /\
     timeline h' d = timeline h current /\ length (past h') + k = length (past h) /\
     steps redoStep k h' d = Some {| history := h; doc := current |}) /\
  (exists h', undoStep (recordStep h before limit) current = Some {| history := h'; doc := before |} /\ future h' = [current]) /\
  (past (recordStep h before limit) `suffix_of` past h ++ [before] /\
   (limit <> 0 -> length (past (recordStep h before limit)) = Nat.min limit (S (length (past h))))).
Proof.
  split; [apply undos, Lk|]. unfold recordStep. cbn [past future].
  set (cut := negb (limit =? 0) && (limit <? length (past h ++ [before]))).
  assert (E : (if cut then drop (length (past h ++ [before]) - limit) (past h ++ [before]) else past h ++ [before]) =
    drop (if cut then length (past h ++ [before]) - limit else 0) (past h) ++ [before]).
  { unfold cut. destruct (Nat.eqb_spec limit 0), (Nat.ltb_spec limit (length (past h ++ [before]))); cbn [negb andb];
      rewrite ?drop_0; try reflexivity. rewrite length_app in *. cbn [length] in *. rewrite drop_app_le by lia. reflexivity. }
  rewrite E. split; [|split].
  - rewrite undo_snoc. eexists. split; reflexivity.
  - exists (take (if cut then length (past h ++ [before]) - limit else 0) (past h)). rewrite app_assoc, take_drop. reflexivity.
  - intros N. unfold cut. rewrite length_app, length_drop, length_app. cbn [length].
    destruct (Nat.eqb_spec limit 0); [congruence|]. destruct (Nat.ltb_spec limit (length (past h) + 1)); cbn [negb andb]; lia.
Qed.

Lemma undo_redo_witness :
  let h := recordStep (recordStep createHistory 1 kCanvasHistoryLimit) 2 kCanvasHistoryLimit in
  steps undoStep 2 h 3 = Some {| history := {| past := []; future := [2; 3] |}; doc := 1 |} /\
  exists h' d, steps undoStep 2 h 3 = Some {| history := h'; doc := d |} /\ steps redoStep 2 h' d = Some {| history := h; doc := 3 |}.
Proof.
  cbv zeta. split; [vm_compute; reflexivity|].
  match goal with |- context [steps undoStep 2 ?h 3] => destruct (undo_redo h 3 0 2 1) as [(h' & d & E & _ & _ & R) _]; [vm_compute; lia|] end.
  exists h', d. split; [exact E|exact R].
Defined.

(** A change of all documents is reported exactly when it changes one, and
    keeps the line otherwise. *)
Lemma mapHistory_changed {Doc : Type} `{EqDecision Doc} (h : CanvasHistory Doc) (change : Doc -> Doc) :
  mapHistory h change = ({| past := change <$> past h; future := change <$> future h |}, 
    bool_decide (change <$> (past h ++ future h) <> past h ++ future h)).
Proof.
  unfold mapHistory. destruct h as [p f]. cbn [past future].
  assert (G : forall l, forallb (fun d => bool_decide (change d = d)) l = true <-> change <$> l = l).
  { induction l as [|d l IH]; cbn; [tauto|]. rewrite andb_true_iff, bool_decide_eq_true, IH. split; [intros [-> ->]; reflexivity|intros [= E1 E2]; auto]. }
  specialize (G (p ++ f)). destruct (forallb _ (p ++ f)).
  - pose proof (proj1 G eq_refl) as E. rewrite bool_decide_eq_false_2 by tauto. rewrite fmap_app in E.
    apply app_inj_1 in E as [-> ->]; [reflexivity|apply length_fmap].
  - rewrite bool_decide_eq_true_2; [reflexivity|]. intros E. apply G in E. discriminate.
Qed.

End History.
