(* ===== verification/ExportZip.v ===== *)
(** * ExportZip: ZIP archives written as a stream

    Module [Zip] models [src/sections/export_zip.cpp]: CRC-32, the size estimate,
    the name of an archive and the writer. The writer is a state with
    exceptions; what its sink got is part of the state. The proofs are in
    [ZipFormat]. *)

From S2P Require Import Prelude Utf8.
Import Unicode.

Module Zip.

(** ** CRC-32 *)

Definition crcStep (c : Z) : Z :=
  if negb (Z.land c 1 =? 0)%Z then Z.lxor 0xEDB88320 (Z.shiftr c 1) else Z.shiftr c 1.

Definition crcEntry (n : Z) : Z := Nat.iter 8 crcStep n.

Definition crcTable : list Z := Eval vm_compute in (fun n => crcEntry (Z.of_nat n)) <$> seq 0 256.

Definition crcByte (c : Z) (ch : byte) : Z :=
  Z.lxor (nth (Z.to_nat (Z.land (Z.lxor c (b2z ch)) 0xFF)) crcTable 0%Z) (Z.shiftr c 8).

Definition crc32 (bs : bytes) (crc : Z) : Z :=
  Z.lxor (foldl crcByte (Z.lxor crc 0xFFFFFFFF) bs) 0xFFFFFFFF.

(** ** Constants and numbers *)

Definition kLocalSig : Z := 0x04034b50.
Definition kDescriptorSig : Z := 0x08074b50.
Definition kCentralSig : Z := 0x02014b50.
Definition kEndSig : Z := 0x06054b50.
Definition kVersion : Z := 20.
Definition kFlags : Z := 0x0808.
Definition kLocalBytes : Z := 30.
Definition kDescriptorBytes : Z := 16.
Definition kCentralBytes : Z := 46.
Definition kEndBytes : Z := 22.
Definition kMaxOffset : Z := 0xFFFFFFFF.
Definition kDirAttr : Z := 0x10.
Definition kZipMaxBytes : Z := 0xFFFFFFFF - 64 * 1024 * 1024.
Definition kZipMaxEntries : Z := 0xFFFF.

(** [le16], [le32]: what they append. *)
Definition le16 (v : Z) : bytes := [z2b (Z.land v 0xFF); z2b (Z.land (Z.shiftr v 8) 0xFF)].

Definition le32 (v : Z) : bytes := (fun i => z2b (Z.land (Z.shiftr v (8 * i)) 0xFF)) <$> [0; 1; 2; 3]%Z.

Record ZipTime := { year : Z; month : Z; day : Z; hour : Z; minute : Z; second : Z }.

(** The time and the date of an entry. *)
Definition dosDateTime (at_ : ZipTime) : Z * Z :=
  (u16 (Z.lor (Z.lor (Z.shiftl (hour at_) 11) (Z.shiftl (minute at_) 5)) (second at_ `quot` 2)),
   u16 (Z.lor (Z.lor (Z.shiftl (Z.max 0 (year at_ - 1980)) 9) (Z.shiftl (month at_) 5)) (day at_))).

(** ** Sizes and names *)

Record ZipSizedEntry := { sz_name : bytes; sz_size : Z }.

Fixpoint canZipFrom (total : Z) (entries : list ZipSizedEntry) : bool :=
  match entries with
  | [] => (total <=? kMaxOffset)%Z
  | e :: rest =>
      let total := u64 (total + (kLocalBytes + kDescriptorBytes + kCentralBytes
                                 + Z.of_nat (length (sz_name e)) * 2 + sz_size e)) in
      if (kMaxOffset <? total)%Z then false else canZipFrom total rest
  end.

Definition canZip (entries : list ZipSizedEntry) : bool :=
  if (kZipMaxEntries <=? Z.of_nat (length entries))%Z then false else canZipFrom kEndBytes entries.

Definition badInFile (c : Z) : bool :=
  ((c =? 0x5C) || (c =? 0x2F) || (c =? 0x3A) || (c =? 0x2A) || (c =? 0x3F) || (c =? 0x22) || (c =? 0x3C)
   || (c =? 0x3E) || (c =? 0x7C) || (c <? 0x20) || (c =? 0x7F))%Z.

(** Runs of bad signs and spaces become one space. *)
Fixpoint spaced (cps : u32string) (space : bool) : u32string :=
  match cps with
  | [] => if space then [0x20%Z] else []
  | c :: rest =>
      if badInFile c || isJsSpace c then spaced rest true
      else if space then 0x20%Z :: c :: spaced rest false else c :: spaced rest false
  end.

Definition dotOrSpace (c : Z) : bool := (c =? 0x2E)%Z || isJsSpace c.

Definition archiveFileName (title : bytes) : bytes :=
  let base := trim32 (spaced (decode title) false) in
  let base := if 4 <=? length base then
                if bool_decide (lower <$> drop (length base - 4) base = [0x2E; 0x7A; 0x69; 0x70]%Z)
                then take (length base - 4) base else base
              else base in
  let base := if 120 <? length base then take 120 base else base in
  let base := drop_while_end dotOrSpace (drop_while dotOrSpace base) in
  (if bool_decide (base = []) then #"parvane" else encode base) ++ #".zip".

(** ** The writer *)

Inductive ExportErrorCode := Canceled | TooLarge | Failed.

#[export] Instance ExportErrorCode_eq_dec : EqDecision ExportErrorCode.
Proof. solve_decision. Defined.

Record Entry := {
  name : bytes;
  crc : Z;
  size : Z;
  offset : Z;
  isDir : bool;
  time : Z;
  date : Z
}.

(** [out_] is what the sink got; [asked] counts the calls of [canceled_]. *)
Record ZipWriter := {
  out_ : bytes;
  at_ : ZipTime;
  asked : nat;
  entries_ : list Entry;
  paths_ : list bytes;
  offset_ : Z;
  isOpen_ : bool;
  finished_ : bool
}.

Definition newWriter (at_ : ZipTime) : ZipWriter :=
  {| out_ := []; at_ := at_; asked := 0; entries_ := []; paths_ := []; offset_ := 0; isOpen_ := false; finished_ := false |}.

(** A call either ends or throws; what it did to the writer before stays. *)
Definition M := ZipWriter -> ZipWriter * option ExportErrorCode.

Definition ret : M := fun w => (w, None).
Definition throw (e : ExportErrorCode) : M := fun w => (w, Some e).
Definition bind (a b : M) : M := fun w =>
  match a w with
  | (w', None) => b w'
  | (w', Some e) => (w', Some e)
  end.
Definition get (k : ZipWriter -> M) : M := fun w => k w w.
Definition modify (f : ZipWriter -> ZipWriter) : M := fun w => (f w, None).
Definition throwIf (c : bool) (e : ExportErrorCode) : M := if c then throw e else ret.

End Zip.

Declare Scope zip_scope.
Delimit Scope zip_scope with zip.
Notation "a ;; b" := (Zip.bind a b) (at level 100, b at level 200, right associativity) : zip_scope.

Module Writer.
Import Zip.
Local Open Scope zip_scope.

Section Calls.
(** The host's answer to the n-th question whether the export is canceled. *)
Context (canceled : nat -> bool).

Definition put (bs : bytes) : M := modify (fun w =>
  {| out_ := out_ w ++ bs; at_ := at_ w; asked := asked w; entries_ := entries_ w; paths_ := paths_ w;
     offset_ := u64 (offset_ w + Z.of_nat (length bs)); isOpen_ := isOpen_ w; finished_ := finished_ w |}).

Definition checkCanceled : M := get (fun w =>
  modify (fun w =>
    {| out_ := out_ w; at_ := at_ w; asked := S (asked w); entries_ := entries_ w; paths_ := paths_ w;
       offset_ := offset_ w; isOpen_ := isOpen_ w; finished_ := finished_ w |});;
  throwIf (canceled (asked w)) Canceled).

Definition setOpen (b : bool) : M := modify (fun w =>
  {| out_ := out_ w; at_ := at_ w; asked := asked w; entries_ := entries_ w; paths_ := paths_ w;
     offset_ := offset_ w; isOpen_ := b; finished_ := finished_ w |}).

Definition setFinished : M := modify (fun w =>
  {| out_ := out_ w; at_ := at_ w; asked := asked w; entries_ := entries_ w; paths_ := paths_ w;
     offset_ := offset_ w; isOpen_ := isOpen_ w; finished_ := true |}).

Definition addEntry (e : Entry) : M := modify (fun w =>
  {| out_ := out_ w; at_ := at_ w; asked := asked w; entries_ := entries_ w ++ [e]; paths_ := name e :: paths_ w;
     offset_ := offset_ w; isOpen_ := isOpen_ w; finished_ := finished_ w |}).

(** [auto &entry = entries_.back()] changed in place. *)
Definition changeLast (f : Entry -> Entry) : M := modify (fun w =>
  {| out_ := out_ w; at_ := at_ w; asked := asked w;
     entries_ := match list.last (entries_ w) with
                 | Some e => removelast (entries_ w) ++ [f e]
                 | None => entries_ w
                 end;
     paths_ := paths_ w; offset_ := offset_ w; isOpen_ := isOpen_ w; finished_ := finished_ w |}).

Definition localHead (e : Entry) : bytes :=
  le32 kLocalSig ++ le16 kVersion ++ le16 kFlags ++ le16 0 ++ le16 (time e) ++ le16 (date e)
  ++ le32 0 ++ le32 0 ++ le32 0 ++ le16 (u32 (Z.of_nat (length (name e)))) ++ le16 0 ++ name e.

Definition begin (path : bytes) (dir : bool) (mtime : option ZipTime) (size_ : Z) : M :=
  checkCanceled;;
  get (fun w =>
    throwIf (finished_ w) Failed;;
    throwIf (isOpen_ w) Failed;;
    let name := if dir then path ++ #"/" else path in
    throwIf (bool_decide (name ∈ paths_ w)) Failed;;
    throwIf (0xFFFF <? Z.of_nat (length name))%Z Failed;;
    throwIf (kZipMaxEntries <=? Z.of_nat (length (entries_ w)) + 1)%Z TooLarge;;
    throwIf (kZipMaxBytes <? u64 (offset_ w + size_))%Z TooLarge;;
    let (time, date) := dosDateTime (default (at_ w) mtime) in
    let entry := {| name := name; crc := 0; size := 0; offset := offset_ w; isDir := dir; time := time; date := date |} in
    addEntry entry;;
    put (localHead entry)).

Definition descriptor (e : Entry) : bytes := le32 kDescriptorSig ++ le32 (crc e) ++ le32 (size e) ++ le32 (size e).

Definition closeFile : M := get (fun w =>
  throwIf (negb (isOpen_ w)) Failed;;
  setOpen false;;
  match list.last (entries_ w) with
  | Some entry => put (descriptor entry)
  | None => ret
  end).

Definition addDir (path : bytes) (mtime : option ZipTime) : M :=
  begin path true mtime 0;;
  setOpen true;;
  closeFile.

Definition beginFile (path : bytes) (mtime : option ZipTime) : M :=
  begin path false mtime 0;;
  setOpen true.

Definition grow (bs : bytes) (e : Entry) : Entry :=
  {| name := name e; crc := crc32 bs (crc e); size := u64 (size e + Z.of_nat (length bs)); offset := offset e;
     isDir := isDir e; time := time e; date := date e |}.

Definition write (bs : bytes) : M :=
  get (fun w =>
    throwIf (negb (isOpen_ w)) Failed;;
    checkCanceled;;
    changeLast (grow bs);;
    put bs;;
    get (fun w =>
      throwIf ((kZipMaxBytes <? offset_ w)%Z
               || match list.last (entries_ w) with Some e => (kMaxOffset <? size e)%Z | None => false end) TooLarge)).

Definition addBytes (path bs : bytes) (mtime : option ZipTime) : M :=
  begin path false mtime (Z.of_nat (length bs));;
  setOpen true;;
  write bs;;
  closeFile.

(** The loop of [addChunks] over what its source gives before the end. *)
Fixpoint writeChunks (chunks : list bytes) : M :=
  match chunks with
  | [] => checkCanceled
  | chunk :: rest =>
      checkCanceled;;
      (if bool_decide (chunk = []) then ret else write chunk);;
      writeChunks rest
  end.

Definition addChunks (path : bytes) (chunks : list bytes) (mtime : option ZipTime) : M :=
  beginFile path mtime;;
  writeChunks chunks;;
  closeFile.

Definition centralHead (e : Entry) : bytes :=
  le32 kCentralSig ++ le16 kVersion ++ le16 kVersion ++ le16 kFlags ++ le16 0 ++ le16 (time e) ++ le16 (date e)
  ++ le32 (crc e) ++ le32 (size e) ++ le32 (size e) ++ le16 (u32 (Z.of_nat (length (name e)))) ++ le16 0 ++ le16 0
  ++ le16 0 ++ le16 0 ++ le32 (if isDir e then kDirAttr else 0) ++ le32 (offset e) ++ name e.

Fixpoint putAll (entries : list Entry) : M :=
  match entries with
  | [] => ret
  | e :: rest => put (centralHead e);; putAll rest
  end.

Definition endRecord (count size_ start : Z) : bytes :=
  le32 kEndSig ++ le16 0 ++ le16 0 ++ le16 (u32 count) ++ le16 (u32 count) ++ le32 size_ ++ le32 start ++ le16 0.

Definition finish : M :=
  checkCanceled;;
  get (fun w =>
    throwIf (isOpen_ w) Failed;;
    throwIf (finished_ w) Failed;;
    putAll (entries_ w);;
    get (fun w' =>
      throwIf (kMaxOffset <? offset_ w')%Z TooLarge;;
      put (endRecord (Z.of_nat (length (entries_ w'))) (u64 (offset_ w' - offset_ w)) (offset_ w));;
      setFinished)).

End Calls.

End Writer.
