(* ===== verification/ZipFormat.v ===== *)
(** * ZipFormat: finished archives read back

    The ZIP format from the reader's side, written from the format and not from
    the writer, CRC-32 as division bit by bit, and the proofs about the writer
    of [ExportZip]. *)

From S2P Require Import Prelude ExportZip.
Import Zip Writer.

Module Format.
Local Open Scope zip_scope.

(** ** CRC-32 bit by bit *)

(** One bit of the message enters the register. *)
Definition crcBit (c : Z) (bit : bool) : Z :=
  if xorb (Z.odd c) bit then Z.lxor 0xEDB88320 (Z.shiftr c 1) else Z.shiftr c 1.

Definition bits (b : byte) : list bool := (fun i => Z.testbit (b2z b) i) <$> [0; 1; 2; 3; 4; 5; 6; 7]%Z.

Definition crcReference (bs : bytes) : Z :=
  Z.lxor (foldl (fun c b => foldl crcBit c (bits b)) 0xFFFFFFFF%Z bs) 0xFFFFFFFF.

Lemma crcStep_odd (c : Z) : crcStep c = Z.lxor (if Z.odd c then 0xEDB88320 else 0) (Z.shiftr c 1).
Proof.
  unfold crcStep. change 1%Z with (Z.ones 1) at 1. rewrite Z.land_ones by lia. change (2 ^ 1)%Z with 2%Z.
  rewrite Zmod_odd. destruct (Z.odd c); [reflexivity|]. rewrite Z.lxor_0_l. reflexivity.
Qed.

Lemma crcStep_lxor (x y : Z) : crcStep (Z.lxor x y) = Z.lxor (crcStep x) (crcStep y).
Proof.
  rewrite !crcStep_odd, Z.shiftr_lxor. rewrite <- !Z.bit0_odd, Z.lxor_spec.
  set (p := 0xEDB88320%Z). set (a := Z.shiftr x 1). set (b := Z.shiftr y 1).
  destruct (Z.testbit x 0), (Z.testbit y 0); cbn [xorb]; apply Z.bits_inj'; intros n _; rewrite !Z.lxor_spec, ?Z.bits_0;
    destruct (Z.testbit p n), (Z.testbit a n), (Z.testbit b n); reflexivity.
Qed.

Lemma crcStep_double (y : Z) : crcStep (Z.shiftl y 1) = y.
Proof.
  rewrite crcStep_odd, Z.shiftl_mul_pow2 by lia. change (2 ^ 1)%Z with 2%Z. rewrite Z.odd_mul, andb_false_r.
  rewrite Z.lxor_0_l, Z.shiftr_div_pow2 by lia. change (2 ^ 1)%Z with 2%Z. apply Z.div_mul. lia.
Qed.

Lemma crcStep_iter_lxor (n : nat) (x y : Z) :
  Nat.iter n crcStep (Z.lxor x y) = Z.lxor (Nat.iter n crcStep x) (Nat.iter n crcStep y).
Proof. induction n as [|n IH]; [reflexivity|]. cbn [Nat.iter nat_rect] in *. unfold Nat.iter in *. rewrite IH. apply crcStep_lxor. Qed.

Lemma crcStep_iter_shift (n : nat) : forall y, Nat.iter n crcStep (Z.shiftl y (Z.of_nat n)) = y.
Proof.
  induction n as [|n IH]; intros y; [apply Z.shiftl_0_r|]. rewrite Nat.iter_succ_r.
  replace (Z.shiftl y (Z.of_nat (S n))) with (Z.shiftl (Z.shiftl y (Z.of_nat n)) 1)
    by (rewrite Z.shiftl_shiftl by lia; f_equal; lia).
  rewrite crcStep_double. apply IH.
Qed.

Lemma crcTable_entry (i : Z) : (0 <= i < 256)%Z -> nth (Z.to_nat i) crcTable 0%Z = crcEntry i.
Proof.
  intros H. apply Z.eqb_eq. revert i H. apply (z_forallb 256 (fun i => nth (Z.to_nat i) crcTable 0%Z =? crcEntry i)%Z).
  vm_compute. reflexivity.
Qed.

Lemma crcBit_step (c : Z) (bit : bool) : crcBit c bit = crcStep (Z.lxor c (Z.b2z bit)).
Proof.
  rewrite crcStep_odd, <- !Z.bit0_odd, Z.lxor_spec, Z.shiftr_lxor. unfold crcBit. rewrite <- Z.bit0_odd.
  replace (Z.shiftr (Z.b2z bit) 1) with 0%Z by (destruct bit; reflexivity). rewrite Z.lxor_0_r.
  replace (Z.testbit (Z.b2z bit) 0) with bit by (destruct bit; reflexivity).
  destruct (xorb _ _); [reflexivity|]. rewrite Z.lxor_0_l. reflexivity.
Qed.

(** The number that bits are, the lowest first. *)
Definition number (l : list bool) : Z := foldr (fun bit v => Z.lxor (Z.b2z bit) (Z.shiftl v 1)) 0%Z l.

Lemma crcBits_step (l : list bool) : forall c, foldl crcBit c l = Nat.iter (length l) crcStep (Z.lxor c (number l)).
Proof.
  induction l as [|bit l IH]; intros c; [cbn; symmetry; apply Z.lxor_0_r|].
  cbn [foldl length number foldr]. fold (number l). rewrite IH, Nat.iter_succ_r. f_equal.
  rewrite <- Z.lxor_assoc, crcStep_lxor, crcStep_double, crcBit_step. reflexivity.
Qed.

Lemma number_bits (b : byte) : number (bits b) = b2z b.
Proof. apply Z.eqb_eq. revert b. apply (byte_forallb (fun b => number (bits b) =? b2z b)%Z). vm_compute. reflexivity. Qed.

Lemma crcByte_bits (c : Z) (b : byte) : crcByte c b = foldl crcBit c (bits b).
Proof.
  rewrite crcBits_step, number_bits. change (length (bits b)) with 8. unfold crcByte. set (u := Z.lxor c (b2z b)).
  change 0xFF%Z with (2 ^ 8 - 1)%Z. rewrite land_ones_mod by lia. rewrite crcTable_entry by zdiv. unfold crcEntry.
  assert (E : Z.shiftr c 8 = Z.shiftr u 8).
  { subst u. rewrite Z.shiftr_lxor. rewrite (Z.shiftr_div_pow2 (b2z b)) by lia.
    rewrite (Z.div_small (b2z b)) by (pose proof (b2z_range b); zpow; lia). symmetry. apply Z.lxor_0_r. }
  rewrite E. rewrite <- (crcStep_iter_shift 8 (Z.shiftr u 8)), <- crcStep_iter_lxor. f_equal.
  apply Z.bits_inj'. intros n Hn. rewrite Z.lxor_spec. destruct (Z.lt_ge_cases n 8) as [L|L].
  - rewrite Z.mod_pow2_bits_low by lia. change (Z.of_nat 8) with 8%Z. rewrite Z.shiftl_spec_low by lia. apply xorb_false_r.
  - rewrite Z.mod_pow2_bits_high by lia. change (Z.of_nat 8) with 8%Z. rewrite Z.shiftl_spec, Z.shiftr_spec by lia.
    rewrite Z.sub_add. apply xorb_false_l.
Qed.

Lemma crc32_app (a b : bytes) (c : Z) : crc32 (a ++ b) c = crc32 b (crc32 a c).
Proof.
  unfold crc32. rewrite foldl_app, Z.lxor_assoc, Z.lxor_nilpotent, Z.lxor_0_r. reflexivity.
Qed.

Lemma crc32_reference (bs : bytes) : crc32 bs 0 = crcReference bs.
Proof.
  unfold crc32, crcReference. f_equal. change (Z.lxor 0 0xFFFFFFFF) with 0xFFFFFFFF%Z.
  generalize 0xFFFFFFFF%Z. induction bs as [|b bs IH]; intros c; [reflexivity|]. cbn [foldl].
  rewrite crcByte_bits. apply IH.
Qed.

(** Property (equivalence): the table of remainders computes the CRC-32 of the
    standard, bit by bit, and a checksum may be continued over pieces. *)
Theorem crc32_bitwise (bs : bytes) :
  crc32 bs 0 = crcReference bs /\ forall a b c, crc32 (a ++ b) c = crc32 b (crc32 a c).
Proof. split; [apply crc32_reference|apply crc32_app]. Qed.

Example crc32_check : crc32 (#"123456789") 0 = 0xCBF43926%Z.
Proof. vm_compute. reflexivity. Qed.

(** ** The format, read *)

Definition get16 (s : bytes) : option (Z * bytes) :=
  match s with a :: b :: r => Some (b2z a + 256 * b2z b, r)%Z | _ => None end.

Definition get32 (s : bytes) : option (Z * bytes) :=
  '(lo, s) ← get16 s; '(hi, s) ← get16 s; Some (lo + 65536 * hi, s)%Z.

Definition getN (n : Z) (s : bytes) : option (bytes * bytes) :=
  if (n <=? Z.of_nat (length s))%Z then Some (take (Z.to_nat n) s, drop (Z.to_nat n) s) else None.

Definition want (c : bool) : option unit := if c then Some tt else None.

Definition word16 (v : Z) (s : bytes) : option bytes := '(x, s) ← get16 s; _ ← want (x =? v)%Z; Some s.
Definition word32 (v : Z) (s : bytes) : option bytes := '(x, s) ← get32 s; _ ← want (x =? v)%Z; Some s.

(** A file of an archive: a folder's name ends with a slash. *)
Record file := { f_name : bytes; f_dir : bool; f_time : Z; f_date : Z; f_data : bytes }.

(** The directory's record of a file. *)
Definition readCentral (s : bytes) : option (Entry * bytes) :=
  s ← word32 0x02014b50 s; s ← word16 20 s; s ← word16 20 s; s ← word16 0x0808 s; s ← word16 0 s;
  '(time, s) ← get16 s; '(date, s) ← get16 s; '(crc, s) ← get32 s; '(packed, s) ← get32 s; '(size, s) ← get32 s;
  _ ← want (packed =? size)%Z;
  '(nameLen, s) ← get16 s; '(extraLen, s) ← get16 s; '(commentLen, s) ← get16 s; s ← word16 0 s; s ← word16 0 s;
  '(attr, s) ← get32 s; '(offset, s) ← get32 s;
  '(name, s) ← getN nameLen s; '(_, s) ← getN extraLen s; '(_, s) ← getN commentLen s;
  Some ({| name := name; crc := crc; size := size; offset := offset; isDir := negb (Z.land attr 0x10 =? 0)%Z;
           time := time; date := date |}, s).

(** The data at the place the record tells, with the header before it, the
    descriptor after it, and the checksum. *)
Definition readData (archive : bytes) (c : Entry) : option bytes :=
  '(_, s) ← getN (offset c) archive;
  s ← word32 0x04034b50 s; s ← word16 20 s; s ← word16 0x0808 s; s ← word16 0 s;
  s ← word16 (time c) s; s ← word16 (date c) s; s ← word32 0 s; s ← word32 0 s; s ← word32 0 s;
  '(nameLen, s) ← get16 s; '(extraLen, s) ← get16 s;
  '(nm, s) ← getN nameLen s; _ ← want (bool_decide (nm = name c)); '(_, s) ← getN extraLen s;
  '(data, s) ← getN (size c) s; _ ← want (crcReference data =? crc c)%Z;
  s ← word32 0x08074b50 s; s ← word32 (crc c) s; s ← word32 (size c) s; s ← word32 (size c) s; Some data.

Fixpoint readFiles (archive : bytes) (count : nat) (s : bytes) : option (list file * bytes) :=
  match count with
  | O => Some ([], s)
  | S n =>
      '(c, s) ← readCentral s; data ← readData archive c; '(files, s) ← readFiles archive n s;
      Some ({| f_name := name c; f_dir := isDir c; f_time := time c; f_date := date c; f_data := data |} :: files, s)
  end.

Definition readEnd (s : bytes) : option (Z * Z * Z) :=
  s ← word32 0x06054b50 s; s ← word16 0 s; s ← word16 0 s; '(count, s) ← get16 s; s ← word16 count s;
  '(size, s) ← get32 s; '(start, s) ← get32 s; s ← word16 0 s; _ ← want (bool_decide (s = [])); Some (count, size, start).

(** The end record is the last 22 bytes; the directory is right before it. *)
Definition readZip (archive : bytes) : option (list file) :=
  '(_, tail) ← getN (Z.of_nat (length archive) - 22) archive;
  '(count, size, start) ← readEnd tail;
  '(_, s) ← getN start archive; '(files, rest) ← readFiles archive (Z.to_nat count) s;
  _ ← want ((start + size + 22 =? Z.of_nat (length archive))%Z && bool_decide (rest = tail)); Some files.

(** ** What the writer writes, the reader reads *)

Lemma land_ff (v : Z) : Z.land v 0xFF = (v `mod` 256)%Z.
Proof. change 0xFF%Z with (2 ^ 8 - 1)%Z. rewrite land_ones_mod by lia. reflexivity. Qed.

Lemma get16_le16 (v : Z) (s : bytes) : (0 <= v < 65536)%Z -> get16 (le16 v ++ s) = Some (v, s).
Proof.
  intros H. unfold le16, get16. cbn [app]. rewrite !land_ff, shiftr_div, !b2z_z2b by lia. f_equal. f_equal. zdiv.
Qed.

Lemma get32_le32 (v : Z) (s : bytes) : (0 <= v < 2 ^ 32)%Z -> get32 (le32 v ++ s) = Some (v, s).
Proof.
  intros H. unfold le32, get32, get16. cbn [app fmap list_fmap mbind option_bind].
  rewrite !land_ff, !shiftr_div, !b2z_z2b by lia. f_equal. f_equal. zdiv.
Qed.

Lemma getN_app (n : Z) (a s : bytes) : n = Z.of_nat (length a) -> getN n (a ++ s) = Some (a, s).
Proof.
  intros ->. unfold getN. rewrite length_app, (proj2 (Z.leb_le _ _)) by lia. rewrite Nat2Z.id, take_app_length, drop_app_length.
  reflexivity.
Qed.

Lemma getN_0 (s : bytes) : getN 0 s = Some ([], s).
Proof. unfold getN. rewrite (proj2 (Z.leb_le _ _)) by lia. reflexivity. Qed.

Lemma word16_le16 (v : Z) (s : bytes) : (0 <= v < 65536)%Z -> word16 v (le16 v ++ s) = Some s.
Proof. intros H. unfold word16. rewrite get16_le16 by exact H. cbn. rewrite Z.eqb_refl. reflexivity. Qed.

Lemma word32_le32 (v : Z) (s : bytes) : (0 <= v < 2 ^ 32)%Z -> word32 v (le32 v ++ s) = Some s.
Proof. intros H. unfold word32. rewrite get32_le32 by exact H. cbn. rewrite Z.eqb_refl. reflexivity. Qed.

Ltac read_words := repeat (
  first [rewrite word32_le32 by (lia || assumption) | rewrite word16_le16 by (lia || assumption)
        |rewrite get32_le32 by (lia || assumption) | rewrite get16_le16 by (lia || assumption)
        |rewrite getN_0|rewrite getN_app by (lia || reflexivity)]; cbn [mbind option_bind]).

(** Entries whose numbers fit their fields. *)
Record fits (e : Entry) : Prop := {
  fit_name : (Z.of_nat (length (name e)) <= 65535)%Z;
  fit_crc : (0 <= crc e < 2 ^ 32)%Z;
  fit_size : (0 <= size e < 2 ^ 32)%Z;
  fit_offset : (0 <= offset e < 2 ^ 32)%Z;
  fit_time : (0 <= time e < 65536)%Z;
  fit_date : (0 <= date e < 65536)%Z
}.

Lemma readCentral_head (e : Entry) (s : bytes) : fits e -> readCentral (centralHead e ++ s) = Some (e, s).
Proof.
  intros [Fn Fc Fs Fo Ft Fd]. unfold centralHead, readCentral, u32, wrap. rewrite Z.mod_small by lia.
  unfold kCentralSig, kVersion, kFlags. rewrite <- !app_assoc.
  assert (A : (0 <= (if isDir e then kDirAttr else 0) < 2 ^ 32)%Z) by (destruct (isDir e); unfold kDirAttr; lia).
  read_words. rewrite Z.eqb_refl. cbn [want mbind option_bind]. read_words.
  destruct e as [nm c sz o d t da]; cbn [isDir]; destruct d; reflexivity.
Qed.

(** ** The bytes of a file in an archive *)

Definition fileEntry (off : Z) (f : file) : Entry :=
  {| name := f_name f; crc := crc32 (f_data f) 0; size := Z.of_nat (length (f_data f)); offset := off; isDir := f_dir f;
     time := f_time f; date := f_date f |}.

Definition headAndData (f : file) : bytes := localHead (fileEntry 0 f) ++ f_data f.
Definition localPart (f : file) : bytes := headAndData f ++ descriptor (fileEntry 0 f).
Definition locals (fs : list file) : bytes := mjoin (localPart <$> fs).

Fixpoint entriesFrom (off : Z) (fs : list file) : list Entry :=
  match fs with
  | [] => []
  | f :: rest => fileEntry off f :: entriesFrom (off + Z.of_nat (length (localPart f))) rest
  end.

Definition centrals (es : list Entry) : bytes := mjoin (centralHead <$> es).

Lemma length_le16 v : length (le16 v) = 2. Proof. reflexivity. Qed.
Lemma length_le32 v : length (le32 v) = 4. Proof. reflexivity. Qed.

Lemma length_localHead (e : Entry) : length (localHead e) = 30 + length (name e).
Proof. unfold localHead. rewrite !length_app, !length_le16, !length_le32. lia. Qed.

Lemma length_descriptor (e : Entry) : length (descriptor e) = 16.
Proof. reflexivity. Qed.

Lemma length_centralHead (e : Entry) : length (centralHead e) = 46 + length (name e).
Proof. unfold centralHead. rewrite !length_app, !length_le16, !length_le32. lia. Qed.

Lemma length_localPart (f : file) : length (localPart f) = 46 + length (f_name f) + length (f_data f).
Proof.
  unfold localPart, headAndData. rewrite !length_app, length_localHead, length_descriptor. cbn [fileEntry name]. lia.
Qed.

Lemma locals_app (fs gs : list file) : locals (fs ++ gs) = locals fs ++ locals gs.
Proof. unfold locals. rewrite fmap_app. apply join_app. Qed.

Lemma locals_one (f : file) : locals [f] = localPart f.
Proof. apply app_nil_r. Qed.

Lemma entriesFrom_app (fs gs : list file) : forall off,
  entriesFrom off (fs ++ gs) = entriesFrom off fs ++ entriesFrom (off + Z.of_nat (length (locals fs))) gs.
Proof.
  induction fs as [|f fs IH]; intros off; cbn [app entriesFrom]; [f_equal; cbn; lia|].
  rewrite IH. do 2 f_equal. change (locals (f :: fs)) with (localPart f ++ locals fs). rewrite length_app. f_equal; lia.
Qed.

Lemma length_entriesFrom (fs : list file) : forall off, length (entriesFrom off fs) = length fs.
Proof. induction fs as [|f fs IH]; intros off; [reflexivity|]. cbn. rewrite IH. reflexivity. Qed.

Lemma lxor_range (n a b : Z) : (0 <= n)%Z -> (0 <= a < 2 ^ n)%Z -> (0 <= b < 2 ^ n)%Z -> (0 <= Z.lxor a b < 2 ^ n)%Z.
Proof.
  intros Hn Ha Hb. assert (E : Z.lxor a b = (Z.lxor a b `mod` 2 ^ n)%Z).
  { apply Z.bits_inj'. intros i Hi. destruct (Z.lt_ge_cases i n) as [L|L]; [rewrite Z.mod_pow2_bits_low by lia; reflexivity|].
    rewrite Z.mod_pow2_bits_high by lia. rewrite Z.lxor_spec.
    rewrite <- (Z.mod_small a (2 ^ n)), <- (Z.mod_small b (2 ^ n)) by assumption.
    rewrite !Z.mod_pow2_bits_high by lia. reflexivity. }
  rewrite E. apply Z.mod_pos_bound. apply Z.pow_pos_nonneg; lia.
Qed.

Lemma crcRange (c : Z) (b : byte) : (0 <= c < 2 ^ 32)%Z -> (0 <= crcByte c b < 2 ^ 32)%Z.
Proof.
  intros H. unfold crcByte. change 0xFF%Z with (2 ^ 8 - 1)%Z. rewrite land_ones_mod by lia.
  set (t := nth _ crcTable 0%Z). assert (T : (0 <= t < 2 ^ 32)%Z).
  { subst t. set (i := (Z.lxor c (b2z b) `mod` 2 ^ 8)%Z). assert (I : (0 <= i < Z.of_nat 256)%Z) by (subst i; zdiv).
    enough (((0 <=? nth (Z.to_nat i) crcTable 0%Z) && (nth (Z.to_nat i) crcTable 0%Z <? 2 ^ 32))%Z = true) by lia.
    revert i I. apply (z_forallb 256 (fun i => (0 <=? nth (Z.to_nat i) crcTable 0) && (nth (Z.to_nat i) crcTable 0 <? 2 ^ 32))%Z).
    vm_compute. reflexivity. }
  rewrite shiftr_div by lia. assert (S : (0 <= c `div` 2 ^ 8 < 2 ^ 32)%Z) by zdiv. revert S. generalize (c `div` 2 ^ 8)%Z as s. intros s S.
  apply lxor_range; lia.
Qed.

Lemma crc32_range (bs : bytes) (c : Z) : (0 <= c < 2 ^ 32)%Z -> (0 <= crc32 bs c < 2 ^ 32)%Z.
Proof.
  intros H. unfold crc32. apply lxor_range; [lia| |lia].
  assert (H' : (0 <= Z.lxor c 0xFFFFFFFF < 2 ^ 32)%Z) by (apply lxor_range; lia).
  revert H'. generalize (Z.lxor c 0xFFFFFFFF). clear c H. induction bs as [|b bs IH]; intros c H; [exact H|].
  cbn [foldl]. apply IH. apply crcRange. exact H.
Qed.

(** ** An archive made of such parts reads back *)

Lemma readData_part (pre post : bytes) (f : file) : let e := fileEntry (Z.of_nat (length pre)) f in
  fits e -> readData (pre ++ localPart f ++ post) e = Some (f_data f).
Proof.
  intros e F. destruct F as [Fn Fc Fs Fo Ft Fd]. unfold readData. subst e. unfold fileEntry in *.
  cbn [name crc size offset isDir time date] in *.
  unfold localPart, headAndData, localHead, descriptor, u32, wrap.
  cbn [fileEntry name crc size offset isDir time date]. rewrite Z.mod_small by lia.
  unfold kLocalSig, kVersion, kFlags, kDescriptorSig. rewrite <- !app_assoc.
  read_words. rewrite bool_decide_eq_true_2 by reflexivity. cbn [want mbind option_bind]. read_words.
  rewrite <- crc32_reference, Z.eqb_refl. cbn [want mbind option_bind]. read_words. reflexivity.
Qed.

Lemma readFiles_parts (fs : list file) : forall pre post s,
  Forall fits (entriesFrom (Z.of_nat (length pre)) fs) ->
  readFiles (pre ++ locals fs ++ post) (length fs) (centrals (entriesFrom (Z.of_nat (length pre)) fs) ++ s) = Some (fs, s).
Proof.
  induction fs as [|f fs IH]; intros pre post s H; [reflexivity|]. cbn [entriesFrom] in H |- *. inversion_clear H as [|? ? Hf H'].
  change (locals (f :: fs)) with (localPart f ++ locals fs). cbn [length readFiles].
  change (centrals (?e :: ?es)) with (centralHead e ++ centrals es). rewrite <- (app_assoc (centralHead _)).
  rewrite readCentral_head by exact Hf. cbn [mbind option_bind].
  rewrite <- (app_assoc (localPart f)), readData_part by exact Hf. cbn [mbind option_bind].
  specialize (IH (pre ++ localPart f) post s). rewrite length_app, Nat2Z.inj_add in IH. rewrite <- app_assoc in IH.
  rewrite IH by exact H'. cbn [mbind option_bind]. destruct f. reflexivity.
Qed.

Definition archiveOf (fs : list file) : bytes :=
  let central := centrals (entriesFrom 0 fs) in
  locals fs ++ central ++ endRecord (Z.of_nat (length fs)) (Z.of_nat (length central)) (Z.of_nat (length (locals fs))).

Lemma readZip_archive (fs : list file) : Forall fits (entriesFrom 0 fs) -> (Z.of_nat (length fs) < 65536)%Z ->
  (Z.of_nat (length (locals fs) + length (centrals (entriesFrom 0 fs))) < 2 ^ 32)%Z ->
  readZip (archiveOf fs) = Some fs.
Proof.
  intros F L B. unfold readZip, archiveOf. set (c := centrals (entriesFrom 0 fs)) in *. set (a := locals fs) in *.
  set (tail := endRecord _ _ _). assert (Lt : length tail = 22) by reflexivity.
  rewrite app_assoc at 2. rewrite getN_app by (rewrite !length_app; lia). cbn [mbind option_bind].
  assert (E : readEnd tail = Some (Z.of_nat (length fs), Z.of_nat (length c), Z.of_nat (length a))).
  { subst tail. unfold endRecord, readEnd, kEndSig, u32, wrap. rewrite Z.mod_small by lia. read_words.
    rewrite <- (app_nil_r (le16 0)). read_words. reflexivity. }
  rewrite E. cbn [mbind option_bind]. rewrite getN_app by reflexivity. cbn [mbind option_bind].
  rewrite Nat2Z.id. pose proof (readFiles_parts fs [] (c ++ tail) tail F) as R. cbn [app] in R. fold c a in R.
  change (Z.of_nat (length [])) with 0%Z in R. fold c in R. rewrite R. cbn [mbind option_bind].
  rewrite bool_decide_eq_true_2 by reflexivity. rewrite !length_app, Lt, andb_true_r, (proj2 (Z.eqb_eq _ _)) by lia. reflexivity.
Qed.

(** ** The writer keeps its archive *)

Definition olist (cur : option file) : list file := match cur with Some f => [f] | None => [] end.

(** The writer has written the files [fs] and, when one is open, the head and
    the data so far of [cur]. *)
Record holds (w : ZipWriter) (fs : list file) (cur : option file) : Prop := {
  h_out : out_ w = locals fs ++ match cur with Some f => headAndData f | None => [] end;
  h_entries : entries_ w = entriesFrom 0 (fs ++ olist cur);
  h_offset : offset_ w = Z.of_nat (length (out_ w));
  h_open : isOpen_ w = match cur with Some _ => true | None => false end;
  h_finished : finished_ w = false;
  h_paths : forall p, p ∈ paths_ w <-> p ∈ f_name <$> fs ++ olist cur;
  h_distinct : base.NoDup (f_name <$> fs ++ olist cur);
  h_count : (Z.of_nat (length (fs ++ olist cur)) < 65535)%Z;
  h_room : (offset_ w <= kZipMaxBytes + 65581 - match cur with Some _ => 16 | None => 0 end)%Z;
  h_fields : Forall (fun f => (Z.of_nat (length (f_name f)) <= 65535)%Z /\ (0 <= f_time f < 65536)%Z /\ (0 <= f_date f < 65536)%Z) (fs ++ olist cur)
}.

Lemma bind_ok (a b : M) (w w' : ZipWriter) : (a;; b) w = (w', None) ->
  exists w1, a w = (w1, None) /\ b w1 = (w', None).
Proof. unfold bind. destruct (a w) as [w1 [e|]]; [discriminate|]. eauto. Qed.

Lemma throwIf_ok (c : bool) (e : ExportErrorCode) (w w' : ZipWriter) : throwIf c e w = (w', None) -> c = false /\ w' = w.
Proof. destruct c; cbn; [discriminate|]. intros [= <-]. auto. Qed.

Lemma u64_small (z : Z) : (0 <= z < 2 ^ 64)%Z -> u64 z = z.
Proof. intros H. unfold u64, wrap. apply Z.mod_small. exact H. Qed.

Lemma kZipMaxBytes_val : kZipMaxBytes = 4227858431%Z. Proof. reflexivity. Qed.

Lemma dosDateTime_range (t : ZipTime) : (0 <= (dosDateTime t).1 < 65536)%Z /\ (0 <= (dosDateTime t).2 < 65536)%Z.
Proof. unfold dosDateTime, u16, wrap. cbn [fst snd]. change (2 ^ 16)%Z with 65536%Z. split; apply Z.mod_pos_bound; lia. Qed.

Section Steps.
Context (canceled : nat -> bool).

Lemma checkCanceled_ok (w w' : ZipWriter) : checkCanceled canceled w = (w', None) ->
  w' = {| out_ := out_ w; at_ := at_ w; asked := S (asked w); entries_ := entries_ w; paths_ := paths_ w;
          offset_ := offset_ w; isOpen_ := isOpen_ w; finished_ := finished_ w |} /\ canceled (asked w) = false.
Proof.
  unfold checkCanceled, get. intros H. apply bind_ok in H as (w1 & E & H). injection E as <-.
  apply throwIf_ok in H as [C ->]. auto.
Qed.

Lemma checkCanceled_holds (w w' : ZipWriter) fs cur : checkCanceled canceled w = (w', None) -> holds w fs cur ->
  holds w' fs cur /\ at_ w' = at_ w.
Proof. intros [-> _]%checkCanceled_ok [H1 H2 H3 H4 H5 H6 H7 H8 H9 H10]. split; [split; assumption|reflexivity]. Qed.

(** A new file or folder, with nothing in it. *)
Definition emptyFile (at0 : ZipTime) (path : bytes) (dir : bool) (mtime : option ZipTime) : file :=
  let (t, d) := dosDateTime (default at0 mtime) in
  {| f_name := if dir then path ++ #"/" else path; f_dir := dir; f_time := t; f_date := d; f_data := [] |}.

Lemma begin_holds (path : bytes) (dir : bool) (mtime : option ZipTime) (n : Z) (w w' : ZipWriter) (fs : list file) :
  (0 <= n < 2 ^ 63)%Z -> (begin canceled path dir mtime n;; setOpen true) w = (w', None) -> holds w fs None ->
  holds w' fs (Some (emptyFile (at_ w) path dir mtime)) /\ at_ w' = at_ w.
Proof.
  intros Hn H Hw. apply bind_ok in H as (w1 & H & O). injection O as <-. unfold begin in H.
  apply bind_ok in H as (w2 & C & H). apply (checkCanceled_holds _ _ fs None) in C as [[H1 H2 H3 H4 H5 H6 H7 H8 H9 H10] A]; [|exact Hw].
  rewrite <- A. clear A Hw w. unfold get in H.
  apply bind_ok in H as (? & [_ ->]%throwIf_ok & H). apply bind_ok in H as (? & [_ ->]%throwIf_ok & H).
  apply bind_ok in H as (? & [Np ->]%throwIf_ok & H). apply bind_ok in H as (? & [Ln ->]%throwIf_ok & H).
  apply bind_ok in H as (? & [Lc ->]%throwIf_ok & H). apply bind_ok in H as (? & [Lr ->]%throwIf_ok & H).
  unfold emptyFile. pose proof (dosDateTime_range (default (at_ w2) mtime)) as [Rt Rd].
  destruct (dosDateTime (default (at_ w2) mtime)) as [t d]. cbn [fst snd] in Rt, Rd.
  set (nm := if dir then path ++ #"/" else path) in *. apply bind_ok in H as (w3 & E & P).
  injection E as <-. injection P as <-. cbn [at_]. rewrite app_nil_r in *.
  apply bool_decide_eq_false in Np. rewrite kZipMaxBytes_val in *. unfold kZipMaxEntries in Lc.
  pose proof (Zle_0_nat (length (out_ w2))) as Z0. rewrite u64_small in Lr by lia.
  assert (Lh : length (localHead {| name := nm; crc := 0; size := 0; offset := offset_ w2; isDir := dir; time := t; date := d |}) = 30 + length nm)
    by apply length_localHead.
  split; [|reflexivity]. split; cbn [out_ at_ entries_ paths_ offset_ isOpen_ finished_ olist].
  - rewrite H1. unfold headAndData. cbn [f_data]. rewrite app_nil_r. reflexivity.
  - rewrite H2, entriesFrom_app. f_equal. cbn [entriesFrom fileEntry f_name f_dir f_time f_date f_data]. f_equal.
    rewrite H3, H1. reflexivity.
  - rewrite length_app, Lh. cbn [name]. rewrite u64_small by lia. lia.
  - reflexivity.
  - exact H5.
  - intros p. rewrite elem_of_cons, H6, fmap_app, elem_of_app. cbn [fmap list_fmap f_name name].
    rewrite list_elem_of_singleton. tauto.
  - rewrite fmap_app. apply list.NoDup_app. split; [exact H7|]. split; [|apply NoDup_singleton].
    intros p Hp ->%list_elem_of_singleton. apply Np, H6, Hp.
  - rewrite H2, length_entriesFrom in Lc. rewrite length_app. cbn [length]. lia.
  - rewrite kZipMaxBytes_val, u64_small by lia. lia.
  - apply Forall_app. split; [exact H10|]. constructor; [|constructor]. cbn. split; [lia|]. split; assumption.
Qed.

Definition appended (bs : bytes) (f : file) : file :=
  {| f_name := f_name f; f_dir := f_dir f; f_time := f_time f; f_date := f_date f; f_data := f_data f ++ bs |}.

Lemma write_holds (bs : bytes) (w w' : ZipWriter) (fs : list file) (f : file) :
  (Z.of_nat (length bs) < 2 ^ 63)%Z -> write canceled bs w = (w', None) -> holds w fs (Some f) ->
  holds w' fs (Some (appended bs f)) /\ at_ w' = at_ w.
Proof.
  intros Hn H Hw. unfold write, get in H. apply bind_ok in H as (? & [_ ->]%throwIf_ok & H).
  apply bind_ok in H as (w2 & C & H). apply (checkCanceled_holds _ _ fs (Some f)) in C as [[H1 H2 H3 H4 H5 H6 H7 H8 H9 H10] A]; [|exact Hw].
  rewrite <- A. clear A Hw w. apply bind_ok in H as (w3 & E3 & H). injection E3 as <-.
  apply bind_ok in H as (w4 & E4 & H). injection E4 as <-. apply throwIf_ok in H as [R ->].
  cbn [out_ at_ entries_ paths_ offset_ isOpen_ finished_ olist] in *. rewrite kZipMaxBytes_val in *.
  apply orb_false_iff in R as [R _]. pose proof (Zle_0_nat (length (out_ w2))) as Z0.
  rewrite u64_small in R by lia. split; [|reflexivity].
  assert (Ls : (Z.of_nat (length (f_data f)) <= Z.of_nat (length (out_ w2)))%Z).
  { rewrite H1. unfold headAndData. rewrite !length_app. lia. }
  rewrite entriesFrom_app in H2. cbn [entriesFrom] in H2.
  split; cbn [out_ at_ entries_ paths_ offset_ isOpen_ finished_ olist].
  - rewrite H1, <- app_assoc. unfold headAndData. rewrite <- app_assoc. reflexivity.
  - rewrite H2, list.last_snoc, removelast_last, entriesFrom_app. cbn [entriesFrom]. do 2 f_equal.
    unfold grow, fileEntry, appended. cbn [name crc size offset isDir time date f_name f_dir f_time f_date f_data].
    rewrite crc32_app, length_app, u64_small by lia. rewrite Nat2Z.inj_add. reflexivity.
  - rewrite length_app, u64_small by lia. lia.
  - exact H4.
  - exact H5.
  - intros p. rewrite H6, !fmap_app. reflexivity.
  - rewrite fmap_app in H7 |- *. exact H7.
  - rewrite !length_app in *. exact H8.
  - rewrite kZipMaxBytes_val, u64_small by lia. lia.
  - apply Forall_app in H10 as [K1 K2]. apply Forall_app. split; [exact K1|]. inversion_clear K2 as [|? ? K3 _]. constructor; [exact K3|constructor].
Qed.

Lemma closeFile_holds (w w' : ZipWriter) (fs : list file) (f : file) :
  closeFile w = (w', None) -> holds w fs (Some f) -> holds w' (fs ++ [f]) None /\ at_ w' = at_ w.
Proof.
  intros H [H1 H2 H3 H4 H5 H6 H7 H8 H9 H10]. unfold closeFile, get in H. apply bind_ok in H as (? & [_ ->]%throwIf_ok & H).
  apply bind_ok in H as (w2 & E & H). injection E as <-. cbn [olist] in *.
  pose proof H2 as H2'. rewrite entriesFrom_app in H2'. cbn [entriesFrom] in H2'. rewrite H2', list.last_snoc in H.
  injection H as <-. pose proof (Zle_0_nat (length (out_ w))) as Z0. rewrite kZipMaxBytes_val in *. split; [|reflexivity].
  split; cbn [out_ at_ entries_ paths_ offset_ isOpen_ finished_ olist]; rewrite ?app_nil_r; try assumption.
  - rewrite H1, locals_app, locals_one, <- app_assoc. reflexivity.
  - rewrite <- H2'. exact H2.
  - rewrite length_app, length_descriptor, u64_small by lia. lia.
  - reflexivity.
  - rewrite kZipMaxBytes_val, u64_small by lia. lia.
Qed.

Lemma writeChunks_holds (chunks : list bytes) : forall (w w' : ZipWriter) (fs : list file) (f : file),
  Forall (fun c : bytes => (Z.of_nat (length c) < 2 ^ 63)%Z) chunks -> writeChunks canceled chunks w = (w', None) ->
  holds w fs (Some f) -> holds w' fs (Some (appended (mjoin chunks) f)) /\ at_ w' = at_ w.
Proof.
  induction chunks as [|c chunks IH]; intros w w' fs f B H Hw; cbn [writeChunks] in H.
  - unfold appended. cbn [mjoin list_join]. rewrite app_nil_r. destruct f. apply (checkCanceled_holds _ _ _ _ H Hw).
  - inversion_clear B as [|? ? Bc B']. apply bind_ok in H as (w1 & C & H).
    apply (checkCanceled_holds _ _ fs (Some f)) in C as [Hw1 A1]; [|exact Hw]. apply bind_ok in H as (w2 & W & H).
    assert (K : holds w2 fs (Some (appended c f)) /\ at_ w2 = at_ w1).
    { case_bool_decide as D; [|apply (write_holds c w1 w2 fs f Bc W Hw1)]. injection W as <-. subst c.
      unfold appended. rewrite app_nil_r. destruct f. auto. }
    destruct K as [Hw2 A2]. destruct (IH w2 w' fs _ B' H Hw2) as [K A]. split; [|congruence].
    unfold appended in K |- *. cbn [f_name f_dir f_time f_date f_data] in K. rewrite <- app_assoc in K. exact K.
Qed.
End Steps.

Lemma putAll_state (es : list Entry) : forall w w', putAll es w = (w', None) ->
  out_ w' = out_ w ++ centrals es /\ entries_ w' = entries_ w /\
  ((0 <= offset_ w)%Z -> (offset_ w + Z.of_nat (length (centrals es)) < 2 ^ 64)%Z ->
   offset_ w' = offset_ w + Z.of_nat (length (centrals es)))%Z.
Proof.
  induction es as [|e es IH]; intros w w' H; cbn [putAll] in H.
  { injection H as <-. cbn. rewrite app_nil_r. repeat split; lia. }
  apply bind_ok in H as (w1 & E & H). injection E as <-. apply IH in H as (H1 & H2 & H3).
  cbn [out_ entries_ offset_] in *. change (centrals (e :: es)) with (centralHead e ++ centrals es).
  rewrite H1, H2, app_assoc, length_app, length_centralHead. repeat split. intros L0 L. rewrite u64_small in H3 by lia. rewrite H3 by lia. lia.
Qed.

Lemma length_centrals (fs : list file) : forall off, Forall (fun f => (Z.of_nat (length (f_name f)) <= 65535)%Z) fs ->
  (Z.of_nat (length (centrals (entriesFrom off fs))) <= Z.of_nat (length fs) * 65581)%Z.
Proof.
  induction fs as [|f fs IH]; intros off H; [cbn; lia|]. inversion_clear H as [|? ? Hf H']. cbn [entriesFrom].
  change (centrals (?e :: ?es)) with (centralHead e ++ centrals es). rewrite length_app, length_centralHead.
  specialize (IH (off + Z.of_nat (length (localPart f)))%Z H'). cbn [fileEntry name length] in *. lia.
Qed.

Lemma fits_all (fs : list file) : forall off,
  Forall (fun f => (Z.of_nat (length (f_name f)) <= 65535)%Z /\ (0 <= f_time f < 65536)%Z /\ (0 <= f_date f < 65536)%Z) fs ->
  (0 <= off)%Z -> (off + Z.of_nat (length (locals fs)) < 2 ^ 32)%Z -> Forall fits (entriesFrom off fs).
Proof.
  induction fs as [|f fs IH]; intros off H Lo L; [constructor|]. inversion_clear H as [|? ? (Fn & Ft & Fd) H'].
  change (locals (f :: fs)) with (localPart f ++ locals fs) in L. rewrite length_app, length_localPart in L. cbn [entriesFrom].
  constructor; [|apply IH; [exact H'|lia|rewrite length_localPart; lia]].
  split; cbn [fileEntry name crc size offset time date]; try assumption; try lia. apply crc32_range. lia.
Qed.

Lemma finish_archive (canceled : nat -> bool) (w w' : ZipWriter) (fs : list file) :
  finish canceled w = (w', None) -> holds w fs None ->
  out_ w' = archiveOf fs /\ readZip (out_ w') = Some fs /\ offset_ w' = Z.of_nat (length (out_ w')).
Proof.
  intros H Hw. unfold finish in H. apply bind_ok in H as (w1 & C & H).
  apply (checkCanceled_holds _ _ _ fs None) in C as [[H1 H2 H3 H4 H5 H6 H7 H8 H9 H10] _]; [|exact Hw]. clear Hw w.
  unfold get in H. apply bind_ok in H as (? & [_ ->]%throwIf_ok & H). apply bind_ok in H as (? & [_ ->]%throwIf_ok & H).
  cbn [olist] in *. rewrite app_nil_r in *.
  apply bind_ok in H as (w2 & P & H). apply putAll_state in P as (P1 & P2 & P3).
  apply bind_ok in H as (? & [Lo ->]%throwIf_ok & H). apply bind_ok in H as (w3 & E & H). injection E as <-. injection H as <-.
  cbn [out_ offset_]. rewrite kZipMaxBytes_val in H9. unfold kMaxOffset in Lo. rewrite H2 in *.
  assert (Nm : Forall (fun f => (Z.of_nat (length (f_name f)) <= 65535)%Z) fs) by (revert H10; apply Forall_impl; tauto).
  pose proof (length_centrals fs 0 Nm) as Lc. specialize (P3 ltac:(lia) ltac:(lia)). rewrite H1 in *.
  set (c := centrals (entriesFrom 0 fs)) in *. set (a := locals fs) in *.
  assert (E : out_ w2 ++ endRecord (Z.of_nat (length (entries_ w2))) (u64 (offset_ w2 - offset_ w1)) (offset_ w1) = archiveOf fs).
  { rewrite P1, P2, length_entriesFrom, H3, P3, u64_small by lia. unfold archiveOf. fold c a. rewrite <- app_assoc.
    do 3 f_equal. lia. }
  rewrite E. split; [reflexivity|]. split.
  - apply readZip_archive; [apply fits_all; [exact H10|lia|fold a; lia]|lia|fold c a; lia].
  - change (length (endRecord _ _ _)) with 22. rewrite u64_small by lia. rewrite P3. unfold archiveOf. fold c a.
    rewrite !length_app. change (length (endRecord _ _ _)) with 22. lia.
Qed.

(** ** What is added is what is read *)

Inductive item :=
  | Dir (path : bytes) (mtime : option ZipTime)
  | Bytes (path data : bytes) (mtime : option ZipTime)
  | Chunks (path : bytes) (chunks : list bytes) (mtime : option ZipTime).

Definition addItem (canceled : nat -> bool) (i : item) : M :=
  match i with
  | Dir path mtime => addDir canceled path mtime
  | Bytes path data mtime => addBytes canceled path data mtime
  | Chunks path chunks mtime => addChunks canceled path chunks mtime
  end.

Fixpoint addAll (canceled : nat -> bool) (items : list item) : M :=
  match items with
  | [] => ret
  | i :: rest => addItem canceled i;; addAll canceled rest
  end.

Definition fileOf (at0 : ZipTime) (i : item) : file :=
  match i with
  | Dir path mtime => emptyFile at0 path true mtime
  | Bytes path data mtime => appended data (emptyFile at0 path false mtime)
  | Chunks path chunks mtime => appended (mjoin chunks) (emptyFile at0 path false mtime)
  end.

(** No piece is larger than what memory holds. *)
Definition possible (i : item) : Prop :=
  match i with
  | Dir _ _ => True
  | Bytes _ data _ => (Z.of_nat (length data) < 2 ^ 63)%Z
  | Chunks _ chunks _ => Forall (fun c : bytes => (Z.of_nat (length c) < 2 ^ 63)%Z) chunks
  end.

Lemma addItem_holds (canceled : nat -> bool) (i : item) (w w' : ZipWriter) (fs : list file) :
  possible i -> addItem canceled i w = (w', None) -> holds w fs None ->
  holds w' (fs ++ [fileOf (at_ w) i]) None /\ at_ w' = at_ w.
Proof.
  intros Po H Hw.
  assert (A : forall a b c : M, (a;; b;; c) w = (w', None) -> exists w1, (a;; b) w = (w1, None) /\ c w1 = (w', None)).
  { intros a b c K. apply bind_ok in K as (w1 & Ka & K). apply bind_ok in K as (w2 & Kb & K). exists w2. unfold bind. rewrite Ka. auto. }
  destruct i as [path mtime|path data mtime|path chunks mtime]; cbn [addItem fileOf possible] in *.
  - apply A in H as (w1 & O & H). apply (begin_holds canceled _ _ _ _ _ _ fs) in O as [O' A1]; [|lia|exact Hw].
    destruct (closeFile_holds _ _ _ _ H O') as [K A2]. split; [exact K|congruence].
  - apply A in H as (w1 & O & H). apply (begin_holds canceled _ _ _ _ _ _ fs) in O as [O' A1]; [|lia|exact Hw].
    apply bind_ok in H as (w2 & W & H). destruct (write_holds canceled _ _ _ fs _ Po W O') as [W' A2].
    destruct (closeFile_holds _ _ _ _ H W') as [K A3]. split; [exact K|congruence].
  - apply bind_ok in H as (w1 & O & H). apply (begin_holds canceled _ _ _ _ _ _ fs) in O as [O' A1]; [|lia|exact Hw].
    apply bind_ok in H as (w2 & W & H). destruct (writeChunks_holds canceled _ _ _ fs _ Po W O') as [W' A2].
    destruct (closeFile_holds _ _ _ _ H W') as [K A3]. split; [exact K|congruence].
Qed.

Lemma new_holds (at0 : ZipTime) : holds (newWriter at0) [] None.
Proof.
  split; cbn; try reflexivity; try lia; try constructor. intros H. inversion H.
Qed.

Lemma addAll_holds (canceled : nat -> bool) (items : list item) : forall (w w' : ZipWriter) (fs : list file),
  Forall possible items -> addAll canceled items w = (w', None) -> holds w fs None ->
  holds w' (fs ++ (fileOf (at_ w) <$> items)) None.
Proof.
  induction items as [|i items IH]; intros w w' fs Po H Hw; cbn [addAll] in H.
  - injection H as <-. cbn. rewrite app_nil_r. exact Hw.
  - inversion_clear Po as [|? ? Pi Po']. apply bind_ok in H as (w1 & A & H).
    apply (addItem_holds _ _ _ _ fs Pi) in A as [K A]; [|exact Hw]. apply (IH _ _ _ Po' H) in K.
    rewrite A, <- app_assoc in K. exact K.
Qed.

(** Claim C6 (roundtrip): whatever folders, files and pieces are added, in
    whatever order, if nothing throws then the finished archive reads back as
    exactly these, each with its name, time and data; no name is twice in it,
    and the writer's count of bytes is its length. *)
Theorem zip_roundtrip (canceled : nat -> bool) (at0 : ZipTime) (items : list item) (w : ZipWriter)
  (Po : Forall possible items) (H : (addAll canceled items;; finish canceled) (newWriter at0) = (w, None)) :
  readZip (out_ w) = Some (fileOf at0 <$> items) /\ base.NoDup (f_name <$> (fileOf at0 <$> items)) /\
  offset_ w = Z.of_nat (length (out_ w)).
Proof.
  apply bind_ok in H as (w1 & A & H). pose proof (addAll_holds canceled items _ _ [] Po A (new_holds at0)) as K.
  cbn [app] in K. change (at_ (newWriter at0)) with at0 in K.
  destruct (finish_archive canceled w1 w _ H K) as (_ & R & O). split; [exact R|]. split; [|exact O].
  pose proof (h_distinct _ _ _ K) as D. cbn [olist] in D. rewrite app_nil_r in D. exact D.
Qed.

Definition someItems : list item :=
  [Dir (#"d") None; Bytes (#"d/a") (#"hello") None;
   Chunks (#"b") [ #"x"; #""; #"yz"] (Some {| year := 2026; month := 10; day := 21; hour := 23; minute := 59; second := 58 |})].

Definition epoch1980 : ZipTime := {| year := 1980; month := 1; day := 1; hour := 0; minute := 0; second := 0 |}.

Lemma zip_roundtrip_witness :
  let r := (addAll (fun _ => false) someItems;; finish (fun _ => false)) (newWriter epoch1980) in
  r.2 = None /\ readZip (out_ r.1) = Some (fileOf epoch1980 <$> someItems).
Proof.
  split; [vm_compute; reflexivity|].
  refine (proj1 (zip_roundtrip (fun _ => false) epoch1980 someItems _ _ _)).
  - repeat constructor.
  - vm_compute. reflexivity.
Defined.

(** ** What fits is written *)

Definition sizeOf (f : file) : Z := Z.of_nat (length (localPart f)).

Lemma chunk_length (c : bytes) (chunks : list bytes) : In c chunks -> length c <= length (mjoin chunks).
Proof.
  induction chunks as [|x l IH]; [intros []|]. change (mjoin (x :: l)) with (x ++ mjoin l). rewrite length_app.
  intros [->|H]; [lia|]. specialize (IH H). lia.
Qed.

Section Runs.
Context (canceled : nat -> bool) (Never : forall n, canceled n = false).

Lemma bind_run (a b : M) (w w1 w2 : ZipWriter) : a w = (w1, None) -> b w1 = (w2, None) -> (a;; b) w = (w2, None).
Proof using. unfold bind. intros ->. auto. Qed.

Lemma throwIf_run (e : ExportErrorCode) (b : M) (w w' : ZipWriter) (c : bool) : c = false -> b w = (w', None) ->
  (throwIf c e;; b) w = (w', None).
Proof using. intros ->. auto. Qed.

Lemma checkCanceled_run (w : ZipWriter) : exists w', checkCanceled canceled w = (w', None).
Proof using Never. unfold checkCanceled, get, bind, modify. rewrite Never. eexists. reflexivity. Qed.

Lemma begin_run (path : bytes) (dir : bool) (mtime : option ZipTime) (n : Z) (w : ZipWriter) (fs : list file) :
  let nm := if dir then path ++ #"/" else path in
  holds w fs None -> nm ∉ f_name <$> fs -> (Z.of_nat (length nm) <= 65535)%Z -> (Z.of_nat (length fs) < 65534)%Z ->
  (0 <= n)%Z -> (offset_ w + n <= kZipMaxBytes)%Z -> exists w', (begin canceled path dir mtime n;; setOpen true) w = (w', None).
Proof using Never.
  intros nm Hw Np Ln Lc Hn Lo. destruct (checkCanceled_run w) as [w1 C]. rewrite kZipMaxBytes_val in Lo.
  destruct (checkCanceled_holds canceled _ _ fs None C Hw) as [[H1 H2 H3 H4 H5 H6 H7 H8 H9 H10] _].
  assert (Eo : offset_ w1 = offset_ w) by (apply checkCanceled_ok in C as [-> _]; reflexivity).
  cbn [olist] in *. rewrite app_nil_r in *.
  assert (B : exists w2, begin canceled path dir mtime n w = (w2, None)).
  2: { destruct B as [w2 B]. eexists. eapply bind_run; [exact B|reflexivity]. }
  unfold begin. destruct (dosDateTime (default (at_ w1) mtime)) as [t d] eqn:Dt. eexists.
  eapply bind_run; [exact C|]. unfold get.
  apply throwIf_run; [exact H5|]. apply throwIf_run; [exact H4|]. apply throwIf_run; [apply bool_decide_eq_false; rewrite H6; exact Np|].
  apply throwIf_run; [fold nm; lia|]. apply throwIf_run; [rewrite H2, length_entriesFrom; unfold kZipMaxEntries; lia|].
  apply throwIf_run; [rewrite Eo, u64_small, kZipMaxBytes_val by lia; lia|]. rewrite Dt. reflexivity.
Qed.

Lemma write_run (bs : bytes) (w : ZipWriter) (fs : list file) (f : file) :
  holds w fs (Some f) -> (offset_ w + Z.of_nat (length bs) <= kZipMaxBytes)%Z -> exists w', write canceled bs w = (w', None).
Proof using Never.
  intros Hw Lo. destruct (checkCanceled_run w) as [w1 C]. rewrite kZipMaxBytes_val in Lo.
  destruct (checkCanceled_holds canceled _ _ fs (Some f) C Hw) as [[H1 H2 H3 H4 H5 H6 H7 H8 H9 H10] _].
  assert (Eo : offset_ w1 = offset_ w) by (apply checkCanceled_ok in C as [-> _]; reflexivity).
  pose proof (h_open _ _ _ Hw) as O. cbn [olist] in *. rewrite entriesFrom_app in H2. cbn [entriesFrom] in H2.
  pose proof (Zle_0_nat (length (out_ w1))) as Z0. eexists. unfold write, get.
  apply throwIf_run; [rewrite O; reflexivity|]. eapply bind_run; [exact C|]. eapply bind_run; [reflexivity|]. eapply bind_run; [reflexivity|].
  cbn [offset_ entries_]. rewrite H2, list.last_snoc, removelast_last, list.last_snoc. cbn [grow size fileEntry].
  assert (Ls : (Z.of_nat (length (f_data f)) <= Z.of_nat (length (out_ w1)))%Z).
  { rewrite H1. unfold headAndData. rewrite !length_app. lia. }
  rewrite !u64_small by lia. rewrite kZipMaxBytes_val. unfold kMaxOffset.
  replace ((4227858431 <? offset_ w1 + Z.of_nat (length bs))%Z || _) with false by lia. reflexivity.
Qed.

Lemma closeFile_run (w : ZipWriter) (fs : list file) (f : file) : holds w fs (Some f) -> exists w', closeFile w = (w', None).
Proof using.
  intros Hw. unfold closeFile, get. eexists. apply throwIf_run; [rewrite (h_open _ _ _ Hw); reflexivity|].
  eapply bind_run; [reflexivity|]. rewrite (h_entries _ _ _ Hw), entriesFrom_app. cbn [olist entriesFrom].
  rewrite list.last_snoc. reflexivity.
Qed.

Lemma writeChunks_run (chunks : list bytes) : forall (w : ZipWriter) (fs : list file) (f : file),
  holds w fs (Some f) -> (offset_ w + Z.of_nat (length (mjoin chunks)) <= kZipMaxBytes)%Z ->
  exists w', writeChunks canceled chunks w = (w', None).
Proof using Never.
  induction chunks as [|c chunks IH]; intros w fs f Hw Lo; cbn [writeChunks]; [apply checkCanceled_run|].
  change (mjoin (c :: chunks)) with (c ++ mjoin chunks) in Lo. rewrite length_app in Lo.
  destruct (checkCanceled_run w) as [w1 C]. destruct (checkCanceled_holds canceled _ _ _ _ C Hw) as [Hw1 _].
  assert (Eo : offset_ w1 = offset_ w) by (apply checkCanceled_ok in C as [-> _]; reflexivity).
  pose proof (h_offset _ _ _ Hw1) as Ho. rewrite kZipMaxBytes_val in Lo.
  case_bool_decide as D.
  - subst c. destruct (IH w1 fs f Hw1) as [w' R]; [rewrite Eo, kZipMaxBytes_val; cbn in Lo; lia|].
    exists w'. eapply bind_run; [exact C|]. eapply bind_run; [reflexivity|exact R].
  - destruct (write_run c w1 fs f Hw1) as [w2 W]; [rewrite Eo, kZipMaxBytes_val; lia|].
    destruct (write_holds canceled c w1 w2 fs f ltac:(lia) W Hw1) as [Hw2 _].
    destruct (IH w2 fs _ Hw2) as [w' R].
    { rewrite (h_offset _ _ _ Hw2), (h_out _ _ _ Hw2), kZipMaxBytes_val. rewrite (h_out _ _ _ Hw1) in Ho.
      unfold headAndData in *. cbn [appended f_data]. rewrite !length_app in *. rewrite !length_localHead in *.
      cbn [fileEntry name appended f_name] in *. lia. }
    exists w'. eapply bind_run; [exact C|]. eapply bind_run; [exact W|exact R].
Qed.

Lemma open_run (path : bytes) (dir : bool) (mtime : option ZipTime) (n : Z) (w : ZipWriter) (fs : list file) :
  let f := emptyFile (at_ w) path dir mtime in
  holds w fs None -> f_name f ∉ f_name <$> fs -> (Z.of_nat (length (f_name f)) <= 65535)%Z -> (Z.of_nat (length fs) < 65534)%Z ->
  (0 <= n)%Z -> (Z.of_nat (length (locals fs)) + n <= kZipMaxBytes)%Z ->
  exists w', (begin canceled path dir mtime n;; setOpen true) w = (w', None) /\ holds w' fs (Some f) /\
    offset_ w' = (Z.of_nat (length (locals fs)) + 30 + Z.of_nat (length (f_name f)))%Z.
Proof using Never.
  intros f Hw. assert (En : f_name f = if dir then path ++ #"/" else path).
  { subst f. unfold emptyFile. destruct (dosDateTime _). reflexivity. }
  assert (Ed : f_data f = []) by (subst f; unfold emptyFile; destruct (dosDateTime _); reflexivity).
  rewrite En. intros Np Ln Lc Hn Lo. rewrite kZipMaxBytes_val in Lo.
  pose proof (h_offset _ _ _ Hw) as Ho. rewrite (h_out _ _ _ Hw), app_nil_r in Ho.
  destruct (begin_run path dir mtime n w fs Hw Np Ln Lc Hn) as [w1 O]; [rewrite kZipMaxBytes_val; lia|].
  destruct (begin_holds canceled path dir mtime n w w1 fs) as [H1 _]; [lia|exact O|exact Hw|]. fold f in H1.
  exists w1. split; [exact O|]. split; [exact H1|].
  rewrite (h_offset _ _ _ H1), (h_out _ _ _ H1). unfold headAndData. rewrite Ed, !length_app, length_localHead.
  cbn [fileEntry name length]. rewrite En. lia.
Qed.

Lemma addItem_run (i : item) (w : ZipWriter) (fs : list file) : let f := fileOf (at_ w) i in
  holds w fs None -> f_name f ∉ f_name <$> fs -> (Z.of_nat (length (f_name f)) <= 65535)%Z -> (Z.of_nat (length fs) < 65534)%Z ->
  (Z.of_nat (length (locals fs)) + sizeOf f <= kZipMaxBytes)%Z -> exists w', addItem canceled i w = (w', None).
Proof using Never.
  intros f Hw Np Ln Lc Lo. unfold sizeOf in Lo. rewrite length_localPart, kZipMaxBytes_val in Lo.
  assert (J : forall (a b c : M) w1 w2 w3, (a;; b) w1 = (w2, None) -> c w2 = (w3, None) -> (a;; b;; c) w1 = (w3, None)).
  { intros a b c w1 w2 w3 H Hc. apply bind_ok in H as (v & Ha & Hb). eapply bind_run; [exact Ha|]. eapply bind_run; eassumption. }
  subst f. destruct i as [path mtime|path data mtime|path chunks mtime]; cbn [addItem fileOf appended f_name f_data] in *.
  - destruct (open_run path true mtime 0 w fs Hw Np Ln Lc) as (w1 & O & H1 & _); [lia|rewrite kZipMaxBytes_val; lia|].
    destruct (closeFile_run w1 fs _ H1) as [w2 K]. exists w2. exact (J _ _ _ _ _ _ O K).
  - rewrite length_app in Lo.
    destruct (open_run path false mtime (Z.of_nat (length data)) w fs Hw Np Ln Lc) as (w1 & O & H1 & Eo); [lia|rewrite kZipMaxBytes_val; lia|].
    destruct (write_run data w1 fs _ H1) as [w2 W]; [rewrite Eo, kZipMaxBytes_val; lia|].
    destruct (write_holds canceled data w1 w2 fs _ ltac:(lia) W H1) as [H2 _].
    destruct (closeFile_run w2 fs _ H2) as [w3 K]. exists w3. refine (J _ _ _ _ _ _ O _). eapply bind_run; eassumption.
  - rewrite length_app in Lo.
    destruct (open_run path false mtime 0 w fs Hw Np Ln Lc) as (w1 & O & H1 & Eo); [lia|rewrite kZipMaxBytes_val; lia|].
    destruct (writeChunks_run chunks w1 fs _ H1) as [w2 W]; [rewrite Eo, kZipMaxBytes_val; lia|].
    assert (B : Forall (fun c : bytes => (Z.of_nat (length c) < 2 ^ 63)%Z) chunks).
    { apply Forall_forall. intros c Hc. pose proof (chunk_length c chunks Hc). lia. }
    destruct (writeChunks_holds canceled chunks w1 w2 fs _ B W H1) as [H2 _].
    destruct (closeFile_run w2 fs _ H2) as [w3 K]. exists w3. eapply bind_run; [exact O|]. eapply bind_run; eassumption.
Qed.

Lemma addAll_run (items : list item) : forall (w : ZipWriter) (fs : list file),
  holds w fs None -> base.NoDup (f_name <$> fs ++ (fileOf (at_ w) <$> items)) ->
  Forall (fun i => (Z.of_nat (length (f_name (fileOf (at_ w) i))) <= 65535)%Z) items ->
  (Z.of_nat (length fs + length items) < 65535)%Z ->
  (Z.of_nat (length (locals (fs ++ (fileOf (at_ w) <$> items)))) <= kZipMaxBytes)%Z ->
  exists w', addAll canceled items w = (w', None) /\ holds w' (fs ++ (fileOf (at_ w) <$> items)) None.
Proof using Never.
  induction items as [|i items IH]; intros w fs Hw Nd Ln Lc Lo; cbn [addAll fmap list_fmap] in *.
  - exists w. rewrite app_nil_r. split; [reflexivity|exact Hw].
  - inversion_clear Ln as [|? ? Li Ln']. set (f := fileOf (at_ w) i) in *.
    rewrite locals_app, length_app in Lo. change (locals (f :: ?l)) with (localPart f ++ locals l) in Lo. rewrite length_app in Lo.
    rewrite kZipMaxBytes_val in Lo.
    destruct (addItem_run i w fs Hw) as [w1 A].
    + fold f. rewrite fmap_app in Nd. apply list.NoDup_app in Nd as (_ & D & _). intros Hp. apply (D _ Hp). left.
    + exact Li.
    + cbn [length] in Lc. lia.
    + fold f. unfold sizeOf. rewrite kZipMaxBytes_val. lia.
    + assert (Po : possible i).
      { fold f in Lo. rewrite length_localPart in Lo. subst f. destruct i as [|? data ?|? chunks ?]; cbn [possible fileOf appended f_data] in *.
        - exact I.
        - rewrite length_app in Lo. lia.
        - rewrite length_app in Lo. apply Forall_forall. intros c Hc. pose proof (chunk_length c chunks Hc). lia. }
      destruct (addItem_holds canceled i w w1 fs Po A Hw) as [H1 E1]. fold f in H1. rewrite <- E1 in *.
      destruct (IH w1 (fs ++ [f]) H1) as (w' & R & H').
      * rewrite <- app_assoc. exact Nd.
      * exact Ln'.
      * rewrite length_app. cbn [length] in Lc |- *. lia.
      * rewrite <- app_assoc. cbn [app]. rewrite locals_app, length_app, kZipMaxBytes_val.
        change (locals (f :: ?l)) with (localPart f ++ locals l). rewrite length_app. lia.
      * exists w'. split; [eapply bind_run; eassumption|]. rewrite <- app_assoc in H'. exact H'.
Qed.
End Runs.

Lemma putAll_run (es : list Entry) : forall v, exists w, putAll es v = (w, None).
Proof.
  induction es as [|e es IH]; intros v; [eexists; reflexivity|]. cbn [putAll].
  destruct (IH (put (centralHead e) v).1) as [v' R]. exists v'. eapply bind_run; [reflexivity|exact R].
Qed.

(** Property (liveness): when the host does not cancel, the names are distinct
    and of a length the format has, there are less than 65535 of them and the
    files with their headers keep to the writer's limit, nothing throws and the
    archive is finished, if also the directory fits. *)
Theorem zip_written (canceled : nat -> bool) (at0 : ZipTime) (items : list item)
  (Never : forall n, canceled n = false)
  (Nd : base.NoDup (f_name <$> (fileOf at0 <$> items)))
  (Ln : Forall (fun i => (Z.of_nat (length (f_name (fileOf at0 i))) <= 65535)%Z) items)
  (Lc : (Z.of_nat (length items) < 65535)%Z)
  (Lo : (Z.of_nat (length (locals (fileOf at0 <$> items))) <= kZipMaxBytes)%Z)
  (La : (Z.of_nat (length (archiveOf (fileOf at0 <$> items))) <= 0xFFFFFFFF + 22)%Z) :
  exists w, (addAll canceled items;; finish canceled) (newWriter at0) = (w, None) /\
    out_ w = archiveOf (fileOf at0 <$> items).
Proof.
  destruct (addAll_run canceled Never items (newWriter at0) [] (new_holds at0) Nd Ln Lc Lo) as (w1 & A & H1).
  cbn [app] in H1. change (at_ (newWriter at0)) with at0 in H1. set (fs := fileOf at0 <$> items) in *.
  assert (F : exists w, finish canceled w1 = (w, None)).
  2: { destruct F as [w F]. exists w. split; [eapply bind_run; eassumption|]. apply (finish_archive canceled w1 w fs F H1). }
  destruct (checkCanceled_run canceled Never w1) as [w2 C].
  destruct (checkCanceled_holds canceled _ _ _ _ C H1) as [[K1 K2 K3 K4 K5 K6 K7 K8 K9 K10] _].
  cbn [olist] in *. rewrite app_nil_r in *.
  destruct (putAll_run (entries_ w2) w2) as [w3 P]. destruct (putAll_state _ _ _ P) as (_ & _ & P3). rewrite K2 in P3.
  assert (Nm : Forall (fun f => (Z.of_nat (length (f_name f)) <= 65535)%Z) fs) by (revert K10; apply Forall_impl; tauto).
  pose proof (length_centrals fs 0 Nm) as Lf. rewrite kZipMaxBytes_val in K9. specialize (P3 ltac:(lia) ltac:(lia)).
  rewrite K3, K1 in P3. unfold archiveOf in La. rewrite !length_app in La. change (length (endRecord _ _ _)) with 22 in La.
  unfold finish. eexists. eapply bind_run; [exact C|]. unfold get. apply throwIf_run; [exact K4|]. apply throwIf_run; [exact K5|].
  eapply bind_run; [exact P|]. apply throwIf_run; [unfold kMaxOffset; lia|]. reflexivity.
Qed.

Lemma zip_written_witness :
  exists w, (addAll (fun _ => false) someItems;; finish (fun _ => false)) (newWriter epoch1980) = (w, None) /\
    out_ w = archiveOf (fileOf epoch1980 <$> someItems).
Proof.
  refine (zip_written (fun _ => false) epoch1980 someItems (fun _ => eq_refl) _ _ _ _ _).
  - apply (bool_decide_unpack _). vm_compute. exact I.
  - repeat constructor; vm_compute; discriminate.
  - vm_compute. reflexivity.
  - vm_compute. discriminate.
  - vm_compute. discriminate.
Defined.

(** ** The estimate *)

Definition sized (f : file) : ZipSizedEntry := {| sz_name := f_name f; sz_size := Z.of_nat (length (f_data f)) |}.

Lemma length_archive (fs : list file) : forall off, Z.of_nat (length (locals fs) + length (centrals (entriesFrom off fs))) =
  foldr (fun f v => v + (92 + 2 * Z.of_nat (length (f_name f)) + Z.of_nat (length (f_data f))))%Z 0%Z fs.
Proof.
  induction fs as [|f fs IH]; intros off; [reflexivity|]. cbn [entriesFrom foldr].
  rewrite <- (IH (off + Z.of_nat (length (localPart f)))%Z).
  change (locals (f :: fs)) with (localPart f ++ locals fs). change (centrals (?e :: ?es)) with (centralHead e ++ centrals es).
  rewrite !length_app, length_localPart, length_centralHead. cbn [fileEntry name]. lia.
Qed.

Lemma canZipFrom_sum (fs : list file) : forall total, (0 <= total <= kMaxOffset)%Z ->
  Forall (fun f => (Z.of_nat (length (f_name f)) < 2 ^ 61)%Z /\ (Z.of_nat (length (f_data f)) < 2 ^ 62)%Z) fs ->
  canZipFrom total (sized <$> fs) = true <->
  (total + foldr (fun f v => v + (92 + 2 * Z.of_nat (length (f_name f)) + Z.of_nat (length (f_data f)))) 0 fs <= kMaxOffset)%Z.
Proof.
  unfold kMaxOffset. induction fs as [|f fs IH]; intros total Ht H; cbn [fmap list_fmap canZipFrom foldr].
  - unfold kMaxOffset. rewrite Z.leb_le. lia.
  - inversion_clear H as [|? ? [Hn Hd] H']. cbn [sized sz_name sz_size].
    unfold kLocalBytes, kDescriptorBytes, kCentralBytes. rewrite u64_small by lia.
    assert (N : forall l : list file, (0 <= foldr (fun f v => v + (92 + 2 * Z.of_nat (length (f_name f)) + Z.of_nat (length (f_data f)))) 0 l)%Z).
    { induction l as [|g l I]; cbn [foldr]; lia. }
    specialize (N fs). unfold kMaxOffset. destruct (Z.ltb_spec 0xFFFFFFFF (total + (30 + 16 + 46 + Z.of_nat (length (f_name f)) * 2 + Z.of_nat (length (f_data f)))))%Z.
    + split; [discriminate|lia].
    + rewrite IH by (try exact H'; lia). lia.
Qed.

Lemma canZip_sizes (fs : list file)
  (H : Forall (fun f => (Z.of_nat (length (f_name f)) < 2 ^ 61)%Z /\ (Z.of_nat (length (f_data f)) < 2 ^ 62)%Z) fs) :
  canZip (sized <$> fs) = true <->
  (Z.of_nat (length fs) < 65535)%Z /\ (Z.of_nat (length (archiveOf fs)) <= 0xFFFFFFFF)%Z.
Proof.
  unfold canZip, kZipMaxEntries, kEndBytes. rewrite length_fmap. unfold archiveOf. rewrite !length_app.
  change (length (endRecord _ _ _)) with 22. pose proof (length_archive fs 0) as E.
  destruct (Z.leb_spec 0xFFFF (Z.of_nat (length fs))) as [L|L]; [split; [discriminate|lia]|].
  rewrite canZipFrom_sum by (try exact H; unfold kMaxOffset; lia). unfold kMaxOffset. lia.
Qed.

Lemma locals_bound (fs : list file) :
  Forall (fun f => (Z.of_nat (length (f_name f)) + Z.of_nat (length (f_data f)) <= Z.of_nat (length (locals fs)))%Z) fs.
Proof.
  induction fs as [|f fs IH]; constructor; change (locals (f :: fs)) with (localPart f ++ locals fs); rewrite length_app, length_localPart; [lia|].
  eapply Forall_impl; [|exact IH]. cbn. intros g L. lia.
Qed.

(** What the writer has finished is the archive of the layout, within its limits. *)
Lemma finished_archive (canceled : nat -> bool) (at0 : ZipTime) (items : list item) (w : ZipWriter) (Po : Forall possible items)
  (H : (addAll canceled items;; finish canceled) (newWriter at0) = (w, None)) :
  let fs := fileOf at0 <$> items in
  out_ w = archiveOf fs /\ base.NoDup (f_name <$> fs) /\ Forall (fun f => (Z.of_nat (length (f_name f)) <= 65535)%Z) fs /\
  (Z.of_nat (length fs) < 65535)%Z /\ (Z.of_nat (length (locals fs)) <= kZipMaxBytes + 65581)%Z.
Proof.
  apply bind_ok in H as (w1 & A & H). pose proof (addAll_holds canceled items _ _ [] Po A (new_holds at0)) as K.
  cbn [app] in K. change (at_ (newWriter at0)) with at0 in K. intros fs. fold fs in K.
  destruct (finish_archive canceled w1 w _ H K) as (E & _). destruct K as [K1 K2 K3 K4 K5 K6 K7 K8 K9 K10]. cbn [olist] in *. rewrite app_nil_r in *.
  split; [exact E|]. split; [exact K7|]. split; [revert K10; apply Forall_impl; tauto|]. rewrite K3, K1 in K9. split; [exact K8|lia].
Qed.

(** Claim C37 (canZip_exact): what the estimate says is so of what the writer makes.
    Of an archive that was finished it says that the files fit exactly when the
    archive is at most 4 GiB - 1 long. Where it says so, the host does not cancel,
    and the names are distinct and of at most 65535 bytes, the writer finishes when
    the files with their heads keep to its limit, 64 MiB below; it never finishes one
    that exceeds this limit by more than a head, whatever the estimate says
    (canZip_not_writer). *)
Theorem canZip_exact (canceled : nat -> bool) (at0 : ZipTime) (items : list item) (Po : Forall possible items) :
  let fs := fileOf at0 <$> items in
  let run := (addAll canceled items;; finish canceled) (newWriter at0) in
  (forall w, run = (w, None) ->
     (canZip (sized <$> fs) = true <-> (Z.of_nat (length (out_ w)) <= 0xFFFFFFFF)%Z) /\
     (Z.of_nat (length (locals fs)) <= kZipMaxBytes + 65581)%Z) /\
  ((forall n, canceled n = false) -> canZip (sized <$> fs) = true ->
     base.NoDup (f_name <$> fs) -> Forall (fun f => (Z.of_nat (length (f_name f)) <= 65535)%Z) fs ->
     (Z.of_nat (length (locals fs)) <= kZipMaxBytes)%Z -> exists w, run = (w, None)).
Proof.
  intros fs run.
  assert (Sz : (Z.of_nat (length (locals fs)) <= kZipMaxBytes + 65581)%Z -> canZip (sized <$> fs) = true <->
    (Z.of_nat (length fs) < 65535)%Z /\ (Z.of_nat (length (archiveOf fs)) <= 0xFFFFFFFF)%Z).
  { intros Lo. apply canZip_sizes. rewrite kZipMaxBytes_val in Lo. eapply Forall_impl; [|apply locals_bound]. cbn. intros f L. lia. }
  split.
  - intros w R. destruct (finished_archive canceled at0 items w Po R) as (-> & _ & _ & Lc & Lo). fold fs in Lc, Lo |- *.
    split; [rewrite (Sz Lo); tauto|exact Lo].
  - intros Never Can Nd Ln Lo. apply Sz in Can as [Lc La]; [|lia]. unfold fs in Lc. rewrite length_fmap in Lc.
    destruct (zip_written canceled at0 items Never Nd) as (w & R & _); [|exact Lc|exact Lo|fold fs; lia|by exists w].
    unfold fs in Ln. rewrite list.Forall_fmap in Ln. exact Ln.
Qed.

Lemma canZip_exact_witness :
  let run := (addAll (fun _ => false) someItems;; finish (fun _ => false)) (newWriter epoch1980) in
  (Z.of_nat (length (out_ run.1)) <= 0xFFFFFFFF)%Z /\ exists w, run = (w, None).
Proof.
  assert (Po : Forall possible someItems) by (repeat constructor).
  destruct (canZip_exact (fun _ => false) epoch1980 someItems Po) as [A B].
  assert (Can : canZip (sized <$> (fileOf epoch1980 <$> someItems)) = true) by (vm_compute; reflexivity).
  split; [apply (proj1 (A _ ltac:(vm_compute; reflexivity))); exact Can|]. apply (B (fun _ => eq_refl) Can).
  - apply (bool_decide_unpack _). vm_compute. exact I.
  - repeat constructor; vm_compute; discriminate.
  - vm_compute. discriminate.
Defined.

(** The writer keeps 64 MiB in reserve that the estimate does not know of, and
    a size near 2^64 wraps around in the estimate. *)
Lemma canZip_not_writer :
  canZip [{| sz_name := #"a"; sz_size := 0xFFFFFFFF - 200 |}] = true /\
  (begin (fun _ => false) (#"a") false None (0xFFFFFFFF - 200) (newWriter epoch1980)).2 = Some TooLarge /\
  canZip [{| sz_name := #"a"; sz_size := 2 ^ 64 - 100 |}] = true.
Proof. repeat split; vm_compute; reflexivity. Qed.

(** Property (error): what [begin] refuses, it refuses before it writes: the
    archive is as it was, and the error tells the reason. *)
Theorem begin_refused (canceled : nat -> bool) (path : bytes) (dir : bool) (mtime : option ZipTime) (n : Z)
  (w w' : ZipWriter) (fs : list file) (e : ExportErrorCode) (Hn : (0 <= n < 2 ^ 62)%Z)
  (Hw : holds w fs None) (H : begin canceled path dir mtime n w = (w', Some e)) :
  let nm := if dir then path ++ #"/" else path in
  holds w' fs None /\ out_ w' = out_ w /\
  match e with
  | Canceled => canceled (asked w) = true
  | Failed => nm ∈ f_name <$> fs \/ (65535 < Z.of_nat (length nm))%Z
  | TooLarge => nm ∉ f_name <$> fs /\
      ((65534 <= Z.of_nat (length fs))%Z \/ (kZipMaxBytes < Z.of_nat (length (locals fs)) + n)%Z)
  end.
Proof.
  intros nm. unfold begin, bind at 1 in H. destruct (checkCanceled canceled w) as [w1 o] eqn:C.
  assert (W1 : holds w1 fs None /\ out_ w1 = out_ w /\ (o = None \/ o = Some Canceled /\ canceled (asked w) = true)).
  { unfold checkCanceled, get, bind, modify in C. destruct Hw. destruct (canceled (asked w)); injection C as <- <-;
      (split; [split; assumption|split; [reflexivity|auto]]). }
  destruct W1 as (H1 & Eo & [->|[-> Ec]]); [|injection H as <- <-; auto].
  pose proof H1 as [K1 K2 K3 K4 K5 K6 K7 K8 K9 K10]. cbn [olist] in *. rewrite app_nil_r in *. rewrite kZipMaxBytes_val in *.
  unfold get in H. rewrite K4, K5 in H. fold nm in H. unfold bind at 1 2 in H. cbn [throwIf ret] in H.
  unfold bind at 1 in H. case_bool_decide as Np; cbn [throwIf throw ret] in H.
  { injection H as <- <-. split; [exact H1|]. split; [exact Eo|]. left. apply K6. exact Np. }
  rewrite K6 in Np. unfold bind at 1 in H. destruct (Z.ltb_spec 0xFFFF (Z.of_nat (length nm))); cbn [throwIf throw ret] in H.
  { injection H as <- <-. split; [exact H1|]. split; [exact Eo|]. right. exact H0. }
  unfold bind at 1 in H. rewrite K2, length_entriesFrom in H. unfold kZipMaxEntries in H.
  destruct (Z.leb_spec 0xFFFF (Z.of_nat (length fs) + 1)); cbn [throwIf throw ret] in H.
  { injection H as <- <-. split; [exact H1|]. split; [exact Eo|]. split; [exact Np|left; lia]. }
  unfold bind at 1 in H. rewrite u64_small in H by lia.
  destruct (Z.ltb_spec 4227858431 (offset_ w1 + n)); cbn [throwIf throw ret] in H.
  { injection H as <- <-. split; [exact H1|]. split; [exact Eo|]. split; [exact Np|right]. rewrite <- K1, <- K3. lia. }
  destruct (dosDateTime _). discriminate H.
Qed.

Lemma begin_refused_witness :
  let r := addAll (fun _ => false) someItems (newWriter epoch1980) in
  (begin (fun _ => false) (#"b") false None 5 r.1).2 = Some Failed /\
  out_ (begin (fun _ => false) (#"b") false None 5 r.1).1 = out_ r.1.
Proof.
  split; [vm_compute; reflexivity|].
  refine (proj1 (proj2 (begin_refused (fun _ => false) (#"b") false None 5
    (addAll (fun _ => false) someItems (newWriter epoch1980)).1
    (begin (fun _ => false) (#"b") false None 5 (addAll (fun _ => false) someItems (newWriter epoch1980)).1).1
    (fileOf epoch1980 <$> someItems) Failed _ _ _))).
  - split; [discriminate|reflexivity].
  - refine (addAll_holds (fun _ => false) someItems (newWriter epoch1980) _ [] _ _ (new_holds epoch1980)).
    + repeat constructor.
    + vm_compute. reflexivity.
  - vm_compute. reflexivity.
Defined.

End Format.
