(* ===== verification/PackArchive.v ===== *)
(** * PackArchive: archives of sticker and emoji packs

    Module [Pack] models [src/pack_archive.cpp]: the PVPK1 container, the
    fingerprint of its content, names of packs and the identifiers made from
    names. The text form of JSON ([dump], [parse]) and SHA-256 belong to
    libraries: they are parameters. Character classes are those of the C
    locale. *)

From S2P Require Import Prelude Json Order Utf8 Crypto.
From stdpp Require Import sorting.
From Stdlib Require Import Permutation Sorted.

Module Pack.

Definition kMagic : bytes := #"PVPK1".
Definition kMaxFiles : nat := 200.
Definition kMaxBytes : Z := 20 * 1024 * 1024.
Definition kFnvOffsetBasis : Z := 1469598103934665603.
Definition kFnvPrime : Z := 1099511628211.

Record Entry := { name : bytes; content : bytes }.

(** ** Names of files *)

Definition tolower (c : byte) : byte := if (0x41 <=? b2z c)%Z && (b2z c <=? 0x5A)%Z then z2b (b2z c + 32) else c.

(** The part from the last byte that passes on, or [None]. *)
Fixpoint lastFrom (p : byte -> bool) (s : bytes) : option bytes :=
  match s with
  | [] => None
  | c :: s' => match lastFrom p s' with
               | Some r => Some r
               | None => if p c then Some s else None
               end
  end.

Definition lowerExt (name : bytes) : bytes :=
  match lastFrom (fun c => bool_decide (c = "."%byte)) name with
  | None => []
  | Some ext => tolower <$> ext
  end.

Definition isSlash (c : byte) : bool := bool_decide (c = "/"%byte) || bool_decide (c = "\"%byte).

Definition basename (name : bytes) : bytes :=
  match lastFrom isSlash name with None => name | Some r => drop 1 r end.

Definition isAllowedExtension (name : bytes) : bool :=
  let e := lowerExt name in
  bool_decide (e = #".webp") || bool_decide (e = #".png") || bool_decide (e = #".tgs") || bool_decide (e = #".webm").

Definition mimeForName (name : bytes) : bytes :=
  let e := lowerExt name in
  if bool_decide (e = #".webp") then #"image/webp"
  else if bool_decide (e = #".png") then #"image/png"
  else if bool_decide (e = #".tgs") then #"application/x-tgsticker"
  else if bool_decide (e = #".webm") then #"video/webm"
  else [].

(** ** The container *)

(** [memcpy] of a [uint32_t] on a little-endian machine. *)
Definition u32le (v : Z) : bytes := (fun k => z2b (Z.shiftr v (8 * k))) <$> [0; 1; 2; 3]%Z.

Definition indexEntry (e : Entry) : json :=
  jobj [(#"name", JStr (name e)); (#"size", JUnsigned (Z.of_nat (length (content e))))].

(** The loop of [build]: the files it takes, with their base names. *)
Fixpoint taken (entries : list Entry) (count : nat) (blob : Z) : list Entry :=
  match entries with
  | [] => []
  | e :: rest =>
      let nm := basename (name e) in
      if bool_decide (nm = []) || bool_decide (content e = []) || negb (isAllowedExtension nm) then taken rest count blob
      else if kMaxFiles <? count + 1 then []
      else if (kMaxBytes <? blob + Z.of_nat (length (content e)))%Z then []
      else {| name := nm; content := content e |} :: taken rest (count + 1) (blob + Z.of_nat (length (content e)))
  end.

Section Text.
(** [dump] is [None] where it throws (a string is not UTF-8); [parseJson] is
    [None] where the result is discarded. *)
Context (dump : json -> option bytes) (parseJson : bytes -> option json).

(** [None]: [dump] threw. *)
Definition build (entries : list Entry) : option bytes :=
  match taken entries 0 0 with
  | [] => Some []
  | files =>
      indexStr ← dump (JArr (indexEntry <$> files));
      Some (kMagic ++ u32le (u32 (Z.of_nat (length indexStr))) ++ indexStr ++ mjoin (content <$> files))
  end.

(** The loop of [parse] over the index; [None]: [return {}]. *)
Fixpoint parseLoop (bs : bytes) (index : list json) (offset : Z) (out : list Entry) : option (list Entry) :=
  match index with
  | [] => Some out
  | e :: rest =>
      if negb (is_object e) then None
      else match jfind (#"name") e with
           | Some (JStr full) =>
               match jfind (#"size") e with
               | Some (JUnsigned size) =>
                   let nm := basename full in
                   if bool_decide (nm = []) || (Z.of_nat (length bs) <? offset)%Z || (Z.of_nat (length bs) - offset <? size)%Z
                   then None
                   else
                     let out := if isAllowedExtension nm && (0 <? size)%Z
                                then out ++ [{| name := nm; content := take (Z.to_nat size) (drop (Z.to_nat offset) bs) |}]
                                else out in
                     parseLoop bs rest (offset + size) out
               | _ => None
               end
           | _ => None
           end
  end.

(** [memcpy] from the bytes at 5. *)
Definition lengthField (bs : bytes) : Z := foldr (fun b v => b2z b + 256 * v)%Z 0%Z (take 4 (drop 5 bs)).

Definition parse (bs : bytes) : list Entry :=
  if (length bs <? 9) || negb (bool_decide (take 5 bs = kMagic)) || (kMaxBytes + 2 ^ 20 <? Z.of_nat (length bs))%Z then []
  else
    let len := lengthField bs in
    if (Z.of_nat (length bs) <? 9 + len)%Z then []
    else match parseJson (take (Z.to_nat len) (drop 9 bs)) with
         | Some (JArr index) =>
             if kMaxFiles <? length index then []
             else default [] (parseLoop bs index (9 + len) [])
         | _ => []
         end.

(** ** The fingerprint *)

Context (sha256 : bytes -> bytes).

Definition hashEntry (e : Entry) : bytes :=
  name e ++ [x00] ++ ((fun k => z2b (Z.land (Z.shiftr (u32 (Z.of_nat (length (content e)))) (8 * k)) 0xFF)) <$> [0; 1; 2; 3]%Z)
  ++ sha256 (content e).

Definition contentHash (entries : list Entry) : bytes :=
  sha256 (mjoin (hashEntry <$> stableSort (fun a b => blt (name a) (name b)) entries)).

Definition archiveContentHashB64 (archive : bytes) : bytes :=
  match parse archive with [] => [] | entries => Crypto.b64encode (contentHash entries) end.

Definition archiveMatchesContentHash (archive hashB64 : bytes) : bool :=
  match parse archive with
  | [] => false
  | entries =>
      if bool_decide (hashB64 = []) then true
      else match Crypto.b64decode hashB64 with
           | Some expected => (length expected =? 32) && bool_decide (expected = contentHash entries)
           | None => false
           end
  end.
End Text.

(** ** Names of packs *)

(** The bits of the first byte and the number of bytes it stands for. *)
Definition leadOf (c : Z) : Z * nat :=
  if (0xF0 <=? c)%Z then (Z.land c 0x07, 4) else if (0xE0 <=? c)%Z then (Z.land c 0x0F, 3)
  else if (0xC0 <=? c)%Z then (Z.land c 0x1F, 2) else (c, 1).

Definition nextCodePoint (b : byte) (rest : bytes) : Z * nat :=
  let '(cp, len) := leadOf (b2z b) in
  if length rest + 1 <? len then (b2z b, 1)
  else (foldl (fun cp k => Z.lor (u32 (Z.shiftl cp 6)) (Z.land (b2z k) 0x3F)) cp (take (len - 1) rest), len).

Fixpoint codePoints (fuel : nat) (s : bytes) : list Z :=
  match fuel with
  | O => []
  | S f => match s with
           | [] => []
           | b :: rest => let '(cp, len) := nextCodePoint b rest in cp :: codePoints f (drop (len - 1) rest)
           end
  end.

Definition appendCodePoint (out : bytes) (cp : Z) : bytes := out ++ Unicode.enc1 cp.

Definition isLetterOrNumber (cp : Z) : bool :=
  if (cp <? 0x80)%Z then
    ((0x30 <=? cp) && (cp <=? 0x39) || (0x41 <=? cp) && (cp <=? 0x5A) || (0x61 <=? cp) && (cp <=? 0x7A))%Z
  else ((0xC0 <=? cp) && negb (cp =? 0xD7) && negb (cp =? 0xF7) && (cp <? 0x2000))%Z.

Definition keptInName (cp : Z) : bool := isLetterOrNumber cp || (cp =? 0x20)%Z || (cp =? 0x2D)%Z || (cp =? 0x5F)%Z.

Definition isBlank (cp : Z) : bool := (cp =? 0x20)%Z.

Definition sanitizeName (name : bytes) : bytes :=
  let cps := List.filter keptInName (codePoints (length name) name) in
  let cps := Unicode.drop_while_end isBlank (Unicode.drop_while isBlank cps) in
  let out := foldl appendCodePoint [] (take 32 cps) in
  let out := Unicode.drop_while_end (fun c => bool_decide (c = " "%byte)) out in
  if bool_decide (out = []) then #"Pack" else out.

(** ** Identifiers *)

Definition fnv1a64Signed (utf8 : bytes) : Z :=
  i64 (foldl (fun h c => u64 (Z.lxor h (b2z c) * kFnvPrime)) kFnvOffsetBasis utf8).

Definition emojiDocId (rawName file : bytes) : Z := fnv1a64Signed (#"pvemoji:" ++ rawName ++ #"|" ++ file).
Definition packSetId (sanitizedName : bytes) : Z := fnv1a64Signed (#"pack:" ++ sanitizedName).
Definition emojiSetId (rawName : bytes) : Z := fnv1a64Signed (#"pvemoji-set:" ++ rawName).

Definition canReuseRef (uploadedFor recipients : list bytes) : bool :=
  forallb (fun r => bool_decide (r ∈ uploadedFor)) recipients.

Definition hexDigit (c : byte) : option Z :=
  let b := b2z c in
  if (0x30 <=? b)%Z && (b <=? 0x39)%Z then Some (b - 0x30)%Z
  else if (0x61 <=? b)%Z && (b <=? 0x66)%Z || (0x41 <=? b)%Z && (b <=? 0x46)%Z then Some (b2z (tolower c) - 0x61 + 10)%Z
  else None.

(** The loop over the hexadecimal digits; [None]: [return fallback]. *)
Fixpoint hexFrom (hex : bytes) (cp : Z) : option Z :=
  match hex with
  | [] => Some cp
  | c :: rest => match hexDigit c with Some d => hexFrom rest (u32 (cp * 16 + d)) | None => None end
  end.

Fixpoint findByte (c : byte) (s : bytes) : option nat :=
  match s with
  | [] => None
  | d :: s' => if bool_decide (d = c) then Some 0 else S <$> findByte c s'
  end.

Definition altEmojiForFileName (name fallback : bytes) : bytes :=
  match findByte "-" name, lastFrom (fun c => bool_decide (c = "."%byte)) name with
  | Some dash, Some ext =>
      let dot := length name - length ext in
      if dot <=? dash + 1 then fallback
      else
        let hex := take (dot - dash - 1) (drop (dash + 1) name) in
        if bool_decide (hex = []) || (6 <? length hex) then fallback
        else match hexFrom hex 0 with
             | Some cp => if (cp =? 0)%Z || (0x10FFFF <? cp)%Z then fallback else appendCodePoint [] cp
             | None => fallback
             end
  | _, _ => fallback
  end.

(** ** Names *)

Lemma lastFrom_spec (p : byte -> bool) (s : bytes) :
  match lastFrom p s with
  | Some r => exists a c b, r = c :: b /\ s = a ++ c :: b /\ p c = true /\ Forall (fun d => p d = false) b
  | None => Forall (fun d => p d = false) s
  end.
Proof.
  induction s as [|c s IH]; cbn [lastFrom]; [constructor|]. destruct (lastFrom p s) as [r|].
  - destruct IH as (a & d & b & -> & -> & Hd & Hb). exists (c :: a), d, b. auto.
  - destruct (p c) eqn:E; [exists [], c, s; auto|constructor; assumption].
Qed.

Lemma lastFrom_none (p : byte -> bool) (s : bytes) : Forall (fun d => p d = false) s -> lastFrom p s = None.
Proof. induction 1 as [|c s Hc _ IH]; [reflexivity|]. cbn. rewrite IH, Hc. reflexivity. Qed.

Lemma basename_plain (n : bytes) : Forall (fun d => isSlash d = false) (basename n).
Proof.
  unfold basename. pose proof (lastFrom_spec isSlash n) as S. destruct (lastFrom isSlash n) as [r|]; [|exact S].
  destruct S as (a & c & b & -> & _ & _ & Hb). exact Hb.
Qed.

Lemma basename_same (n : bytes) : Forall (fun d => isSlash d = false) n -> basename n = n.
Proof. intros H. unfold basename. rewrite lastFrom_none by exact H. reflexivity. Qed.

(** What a file of a pack is: a plain allowed name and some bytes. *)
Definition packFile (e : Entry) : Prop :=
  name e <> [] /\ Forall (fun d => isSlash d = false) (name e) /\ isAllowedExtension (name e) = true /\ content e <> [].

Definition total (files : list Entry) : Z := Z.of_nat (length (mjoin (content <$> files))).

Lemma total_cons (e : Entry) (files : list Entry) : total (e :: files) = (Z.of_nat (length (content e)) + total files)%Z.
Proof. unfold total. change (mjoin (content <$> e :: files)) with (content e ++ mjoin (content <$> files)). rewrite length_app. lia. Qed.

(** The files that could be packed. *)
Definition based (e : Entry) : Entry := {| name := basename (name e); content := content e |}.
Definition packable (e : Entry) : bool :=
  negb (bool_decide (basename (name e) = []) || bool_decide (content e = []) || negb (isAllowedExtension (basename (name e)))).

Lemma taken_spec (entries : list Entry) : forall count blob, (0 <= blob <= kMaxBytes)%Z -> count <= kMaxFiles ->
  let files := taken entries count blob in
  Forall packFile files /\ count + length files <= kMaxFiles /\ (blob + total files <= kMaxBytes)%Z /\
  exists rest, based <$> List.filter packable entries = files ++ rest /\
    (count + length (List.filter packable entries) <= kMaxFiles ->
     (blob + total (List.filter packable entries) <= kMaxBytes)%Z -> rest = []).
Proof.
  induction entries as [|e entries IH]; intros count blob Hb Hc; cbn [taken List.filter].
  { cbn. unfold total. cbn. split; [constructor|]. split; [lia|]. split; [lia|]. exists []. auto. }
  destruct (packable e) eqn:Pe; unfold packable in Pe;
    (destruct (bool_decide (basename (name e) = []) || _ || _) eqn:Bad; try discriminate Pe); clear Pe; [|]; cycle 1.
  { apply IH; assumption. }
  apply orb_false_iff in Bad as [Bad Al%negb_false_iff]. apply orb_false_iff in Bad as [Nn%bool_decide_eq_false Nc%bool_decide_eq_false].
  rewrite fmap_cons. cbn [length]. rewrite total_cons.
  destruct (Nat.ltb_spec kMaxFiles (count + 1)) as [L|L].
  { cbn. unfold total at 1. cbn. split; [constructor|]. split; [lia|]. split; [lia|]. eexists. split; [reflexivity|lia]. }
  pose proof (Zle_0_nat (length (mjoin (content <$> List.filter packable entries)))) as T0. fold (total (List.filter packable entries)) in T0.
  destruct (Z.ltb_spec kMaxBytes (blob + Z.of_nat (length (content e)))) as [B|B].
  { cbn. unfold total at 1. cbn. split; [constructor|]. split; [lia|]. split; [lia|]. eexists. split; [reflexivity|lia]. }
  destruct (IH (count + 1) (blob + Z.of_nat (length (content e)))%Z) as (F & C & T & rest & E & R); [lia|lia|].
  rewrite total_cons. cbn [content length]. split.
  { constructor; [|exact F]. split; [exact Nn|]. split; [apply basename_plain|]. split; assumption. }
  split; [lia|]. split; [lia|]. exists rest. rewrite E. split; [reflexivity|]. intros K1 K2. apply R; lia.
Qed.

(** ** Reading what was built *)

Section Roundtrip.
Context (dump : json -> option bytes) (parseJson : bytes -> option json)
  (ParseDump : forall j s, dump j = Some s -> parseJson s = Some (reparse j)).

Lemma length_u32le v : length (u32le v) = 4. Proof. reflexivity. Qed.

Lemma lengthField_u32le (m v : bytes) (n : Z) : length m = 5 -> (0 <= n < 2 ^ 32)%Z -> lengthField (m ++ u32le n ++ v) = n.
Proof.
  intros Lm Hn. unfold lengthField. rewrite drop_app_length' by congruence. rewrite take_app_length' by reflexivity.
  unfold u32le. cbn [fmap list_fmap foldr].
  rewrite !shiftr_div, !b2z_z2b by lia. zdiv.
Qed.

Lemma reparse_index (files : list Entry) : reparse (JArr (indexEntry <$> files)) = JArr (indexEntry <$> files).
Proof. cbn [reparse]. f_equal. induction files as [|e files IH]; [reflexivity|]. cbn. f_equal. exact IH. Qed.

Lemma parseLoop_files (files : list Entry) : forall (pre post : bytes) (out : list Entry), Forall packFile files ->
  parseLoop (pre ++ mjoin (content <$> files) ++ post) (indexEntry <$> files) (Z.of_nat (length pre)) out = Some (out ++ files).
Proof.
  induction files as [|e files IH]; intros pre post out H; [cbn; rewrite app_nil_r; reflexivity|].
  inversion_clear H as [|? ? He H']. destruct He as (Nn & Pl & Al & Nc). change (mjoin (content <$> e :: files)) with (content e ++ mjoin (content <$> files)).
  cbn [fmap list_fmap parseLoop]. change (jfind (#"name") (indexEntry e)) with (Some (JStr (name e))).
  change (jfind (#"size") (indexEntry e)) with (Some (JUnsigned (Z.of_nat (length (content e))))). cbn [is_object indexEntry jobj negb].
  rewrite (basename_same _ Pl), bool_decide_eq_false_2, Al by exact Nn. rewrite !length_app.
  rewrite !(proj2 (Z.ltb_ge _ _)) by lia. cbn [orb andb]. rewrite (proj2 (Z.ltb_lt _ _)) by (destruct (content e); [congruence|cbn; lia]).
  rewrite !Nat2Z.id, drop_app_length, <- app_assoc, take_app_length.
  specialize (IH (pre ++ content e) post (out ++ [e]) H'). rewrite length_app, Nat2Z.inj_add, <- !app_assoc in IH. cbn [app] in IH.
  destruct e. exact IH.
Qed.

(** Property (roundtrip): an archive that was built, and whose index is below
    the limit of the reader, reads as the files it took: those that may be in a
    pack, with their base names, in their order, up to the limits; all of them
    when the limits allow. Given that the JSON library reads what it prints. *)
Theorem parse_build (entries : list Entry) (out index : bytes) (B : build dump entries = Some out) (Ne : out <> [])
  (I : dump (JArr (indexEntry <$> taken entries 0 0)) = Some index) (L : (Z.of_nat (length index) + 9 <= 2 ^ 20)%Z) :
  parse parseJson out = taken entries 0 0 /\ Forall packFile (parse parseJson out) /\
  exists rest, based <$> List.filter packable entries = parse parseJson out ++ rest /\
    (length (List.filter packable entries) <= kMaxFiles -> (total (List.filter packable entries) <= kMaxBytes)%Z -> rest = []).
Proof using ParseDump.
  destruct (taken_spec entries 0 0) as (F & C & T & rest & E & R); [unfold kMaxBytes; lia|lia|].
  assert (Eo : out = kMagic ++ u32le (u32 (Z.of_nat (length index))) ++ index ++ mjoin (content <$> taken entries 0 0)).
  { unfold build in B. destruct (taken entries 0 0) as [|e files]; [injection B as <-; congruence|].
    rewrite I in B. cbn [mbind option_bind] in B. injection B as <-. reflexivity. }
  rewrite Eo. clear B Eo Ne.
  assert (P : parse parseJson (kMagic ++ u32le (u32 (Z.of_nat (length index))) ++ index ++ mjoin (content <$> taken entries 0 0)) = taken entries 0 0).
  2: { rewrite P. split; [reflexivity|]. split; [exact F|]. exists rest. auto. }
  set (files' := taken entries 0 0) in *. clearbody files'. clear E R.
  assert (U : u32 (Z.of_nat (length index)) = Z.of_nat (length index)) by (unfold u32, wrap; apply Z.mod_small; lia).
  unfold parse. rewrite U, lengthField_u32le by (reflexivity || lia). unfold total in T. cbn [Z.add] in T.
  rewrite !length_app, length_u32le. change (length kMagic) with 5.
  rewrite (proj2 (Nat.ltb_ge _ _)), bool_decide_eq_true_2 by (reflexivity || lia). cbn [negb orb].
  rewrite !(proj2 (Z.ltb_ge _ _)) by lia. rewrite Nat2Z.id.
  assert (D : drop 9 (kMagic ++ u32le (Z.of_nat (length index)) ++ index ++ mjoin (content <$> files')) = index ++ mjoin (content <$> files')) by reflexivity.
  rewrite D, take_app_length, (ParseDump _ _ I), reparse_index. rewrite length_fmap, (proj2 (Nat.ltb_ge _ _)) by (unfold kMaxFiles in *; lia).
  pose proof (parseLoop_files files' (kMagic ++ u32le (Z.of_nat (length index)) ++ index) [] [] F) as Q.
  rewrite !length_app, length_u32le, app_nil_r, <- !app_assoc in Q. change (length kMagic) with 5 in Q.
  replace (9 + Z.of_nat (length index))%Z with (Z.of_nat (5 + (4 + length index))) by lia. rewrite Q. reflexivity.
Qed.
End Roundtrip.

Definition sampleText : bytes := str "[{'name':'a.PNG','size':3}]".
Definition sampleFiles : list Entry := [ {| name := #"dir/a.PNG"; content := #"xyz" |}; {| name := #"notes.txt"; content := #"q" |} ].

(** A printer and a parser of one index. *)
Definition sampleDump (j : json) : option bytes :=
  match j with
  | JArr [JObj [(k1, JStr n); (k2, JUnsigned z)]] =>
      if bool_decide (k1 = #"name") && bool_decide (n = #"a.PNG") && bool_decide (k2 = #"size") && bool_decide (z = 3%Z)
      then Some sampleText else None
  | _ => None
  end.
Definition sampleParse (s : bytes) : option json :=
  if bool_decide (s = sampleText) then Some (JArr [indexEntry {| name := #"a.PNG"; content := #"xyz" |}]) else None.

Lemma sample_law (j : json) (s : bytes) : sampleDump j = Some s -> sampleParse s = Some (reparse j).
Proof.
  unfold sampleDump. destruct j as [| | | | | |l|]; try discriminate.
  destruct l as [|x [|y l]]; try discriminate; (destruct x as [| | | | | | |m]; try discriminate);
    (destruct m as [|[k1 v1] m]; try discriminate); (destruct v1; try discriminate);
    (destruct m as [|[k2 v2] m]; try discriminate); (destruct v2; try discriminate); (destruct m; try discriminate).
  repeat (case_bool_decide; cbn [andb]; try discriminate). subst. intros [= <-]. reflexivity.
Defined.

Lemma parse_build_witness :
  exists out, build sampleDump sampleFiles = Some out /\ parse sampleParse out = [ {| name := #"a.PNG"; content := #"xyz" |} ].
Proof.
  eexists. split; [vm_compute; reflexivity|].
  refine (proj1 (parse_build sampleDump sampleParse sample_law sampleFiles _ sampleText _ _ _ _)).
  - vm_compute. reflexivity.
  - discriminate.
  - vm_compute. reflexivity.
  - vm_compute. discriminate.
Defined.

(** ** Archives of others *)

Lemma total_snoc (files : list Entry) (e : Entry) : total (files ++ [e]) = (total files + Z.of_nat (length (content e)))%Z.
Proof.
  unfold total. rewrite fmap_app, join_app, length_app. change (mjoin (content <$> [e])) with (content e ++ []).
  rewrite app_nil_r. lia.
Qed.

Lemma parseLoop_safe (bs : bytes) (index : list json) : forall offset out r,
  Forall (fun e => forall z, jfind (#"size") e = Some (JUnsigned z) -> (0 <= z)%Z) index ->
  (0 <= offset <= Z.of_nat (length bs))%Z -> (total out <= offset)%Z ->
  Forall (fun e => packFile e /\ exists a b, bs = a ++ content e ++ b) out ->
  parseLoop bs index offset out = Some r ->
  Forall (fun e => packFile e /\ exists a b, bs = a ++ content e ++ b) r /\ (total r <= Z.of_nat (length bs))%Z /\
  length r <= length out + length index.
Proof.
  induction index as [|e index IH]; intros offset out r U Ho To Fo H; cbn [parseLoop] in H.
  { injection H as <-. split; [exact Fo|]. split; [lia|cbn; lia]. }
  inversion_clear U as [|? ? Ue U']. destruct (is_object e); [|discriminate]. cbn [negb] in H.
  destruct (jfind (#"name") e) as [[| | | | |full| |]|]; try discriminate.
  destruct (jfind (#"size") e) as [[| | |size| | | |]|] eqn:Es; try discriminate. specialize (Ue size eq_refl).
  case_bool_decide as Nn; [discriminate|]. cbn [orb] in H.
  destruct (Z.ltb_spec (Z.of_nat (length bs)) offset); [lia|]. cbn [orb] in H.
  destruct (Z.ltb_spec (Z.of_nat (length bs) - offset) size); [discriminate|].
  set (slice := take (Z.to_nat size) (drop (Z.to_nat offset) bs)) in *.
  assert (Ls : Z.of_nat (length slice) = size) by (subst slice; rewrite length_take, length_drop; lia).
  destruct (isAllowedExtension (basename full)) eqn:Al; cbn [andb] in H.
  2: { destruct (IH (offset + size)%Z out r U' ltac:(lia) ltac:(lia) Fo H) as (R1 & R2 & R3). cbn [length]. split; [exact R1|]. split; [exact R2|lia]. }
  destruct (Z.ltb_spec 0 size).
  2: { destruct (IH (offset + size)%Z out r U' ltac:(lia) ltac:(lia) Fo H) as (R1 & R2 & R3). cbn [length]. split; [exact R1|]. split; [exact R2|lia]. }
  apply IH in H; [|exact U'|lia| |].
  - destruct H as (R1 & R2 & R3). rewrite length_app in R3. cbn [length] in *. split; [exact R1|]. split; [exact R2|lia].
  - rewrite total_snoc. cbn [content]. lia.
  - apply Forall_app. split; [exact Fo|]. constructor; [|constructor]. split.
    + split; [exact Nn|]. split; [apply basename_plain|]. split; [exact Al|]. cbn [content].
      intros E. rewrite E in Ls. cbn in Ls. lia.
    + exists (take (Z.to_nat offset) bs), (drop (Z.to_nat size) (drop (Z.to_nat offset) bs)). cbn [content]. subst slice.
      rewrite take_drop, take_drop. reflexivity.
Qed.

(** Claim C38 (error): whatever bytes come as an archive, the result has at most
    200 files, each a piece of the input under a plain name with an allowed
    extension, together not longer than the input; anything else is an empty
    result. Given that numbers of the JSON parser are not negative. *)
Theorem parse_safe (parseJson : bytes -> option json) (bs : bytes)
  (U : forall s index, parseJson s = Some (JArr index) ->
       Forall (fun e => forall z, jfind (#"size") e = Some (JUnsigned z) -> (0 <= z)%Z) index) :
  length (parse parseJson bs) <= kMaxFiles /\ (total (parse parseJson bs) <= Z.of_nat (length bs))%Z /\
  Forall (fun e => packFile e /\ exists a b, bs = a ++ content e ++ b) (parse parseJson bs).
Proof.
  assert (E : length ([] : list Entry) <= kMaxFiles /\ (total [] <= Z.of_nat (length bs))%Z /\
    Forall (fun e => packFile e /\ exists a b, bs = a ++ content e ++ b) []).
  { unfold total. cbn. repeat split; [lia|lia|constructor]. }
  unfold parse. destruct (_ || _ || _); [exact E|].
  assert (L0 : (0 <= lengthField bs)%Z).
  { unfold lengthField. induction (take 4 (drop 5 bs)) as [|b l IH]; cbn [foldr]; [lia|]. pose proof (b2z_range b). lia. }
  destruct (Z.ltb_spec (Z.of_nat (length bs)) (9 + lengthField bs)); [exact E|].
  destruct (parseJson _) as [[| | | | | |index|]|] eqn:P; try exact E.
  destruct (Nat.ltb_spec kMaxFiles (length index)); [exact E|].
  destruct (parseLoop bs index (9 + lengthField bs) []) as [r|] eqn:R; [|exact E].
  destruct (parseLoop_safe bs index (9 + lengthField bs) [] r (U _ _ P)) as (R1 & R2 & R3);
    [lia|unfold total; cbn; lia|constructor|exact R|]. change (default [] (Some r)) with r. cbn [length] in R3. split; [lia|]. split; assumption.
Qed.

Lemma parse_safe_witness : length (parse sampleParse (#"PVPK1")) <= kMaxFiles.
Proof.
  refine (proj1 (parse_safe sampleParse (#"PVPK1") _)).
  intros s index. unfold sampleParse. case_bool_decide; [|discriminate]. intros [= <-].
  constructor; [|constructor]. intros z [= <-]. lia.
Defined.

(** ** The fingerprint *)

Definition nameCmp (a b : Entry) : Z := if blt (name a) (name b) then -1 else if blt (name b) (name a) then 1 else 0.

Lemma ordering_entries : ordering (fun _ => True) nameCmp.
Proof.
  unfold nameCmp. split.
  - intros a b _ _. destruct (blt (name a) (name b)) eqn:E1; [rewrite (blt_asym _ _ E1); reflexivity|].
    destruct (blt (name b) (name a)); reflexivity.
  - intros a b d _ _ _. destruct (blt (name a) (name b)) eqn:E1, (blt (name b) (name a)) eqn:E2,
      (blt (name b) (name d)) eqn:E3, (blt (name d) (name b)) eqn:E4; try lia; intros _ _.
    all: try (rewrite (blt_asym _ _ E1) in E2; discriminate). all: try (rewrite (blt_asym _ _ E3) in E4; discriminate).
    + rewrite (blt_trans _ _ _ E1 E3). lia.
    + rewrite <- (blt_total _ _ E3 E4), E1. lia.
    + rewrite (blt_total _ _ E1 E2), E3. lia.
    + rewrite (blt_total _ _ E1 E2), E3, E4. lia.
Qed.

Lemma sort_entries_unique (l k : list Entry) : base.NoDup (name <$> l) -> Permutation l k ->
  stableSort (fun a b => blt (name a) (name b)) l = stableSort (fun a b => blt (name a) (name b)) k.
Proof.
  intros Nd Pm. set (less := fun a b => blt (name a) (name b)).
  assert (L : forall a b : Entry, True -> True -> less a b = (nameCmp a b <? 0)%Z).
  { intros a b _ _. unfold less, nameCmp. destruct (blt (name a) (name b)); [reflexivity|]. destruct (blt _ _); reflexivity. }
  assert (T : forall l : list Entry, Forall (fun _ => True) l) by (intros; apply Forall_true; auto).
  pose proof (stableSort_sorted _ _ ordering_entries less L l (T l)) as S1.
  pose proof (stableSort_sorted _ _ ordering_entries less L k (T k)) as S2.
  pose proof (stableSort_perm less l) as P1. pose proof (stableSort_perm less k) as P2.
  assert (Nd' : base.NoDup (name <$> stableSort less l)) by (rewrite P1; exact Nd).
  assert (Pk : Permutation (stableSort less l) (stableSort less k)) by (rewrite P1, P2; exact Pm).
  revert S1 S2 Nd' Pk. clear. generalize (stableSort less l) as s, (stableSort less k) as t. clear.
  intros s. induction s as [|a s IH]; intros t S1 S2 Nd Pk; [apply Permutation_nil in Pk; congruence|].
  destruct t as [|b t]; [apply Permutation_sym, Permutation_nil in Pk; discriminate|].
  apply StronglySorted_inv in S1 as [S1 F1]. apply StronglySorted_inv in S2 as [S2 F2].
  assert (a = b) as ->.
  2: { f_equal. apply IH; [exact S1|exact S2| |eapply Permutation_cons_inv; exact Pk]. cbn in Nd. apply list.NoDup_cons in Nd. apply Nd. }
  assert (Ha : a ∈ b :: t) by (rewrite <- Pk; left). assert (Hb : b ∈ a :: s) by (rewrite Pk; left).
  apply elem_of_cons in Ha as [|Ha]; [assumption|]. apply elem_of_cons in Hb as [|Hb]; [congruence|].
  rewrite Forall_forall in F1, F2. pose proof (F1 b Hb) as C1. pose proof (F2 a Ha) as C2. cbn in C1, C2.
  assert (E : name a = name b).
  { unfold nameCmp in C1, C2. destruct (blt (name a) (name b)) eqn:E1; [rewrite (blt_asym _ _ E1) in C2; lia|].
    destruct (blt (name b) (name a)) eqn:E2; [lia|]. apply blt_total; assumption. }
  exfalso. apply list.NoDup_cons in Nd as [N _]. apply N. rewrite E. apply list_elem_of_fmap. eauto.
Qed.

Lemma b64_nonempty (h : bytes) : h <> [] -> Crypto.b64encode h <> [].
Proof. intros Nh E. pose proof (Crypto.b64decode_b64encode h) as D. rewrite E in D. injection D as D. congruence. Qed.

(** Property (functional): the fingerprint does not depend on the order of the
    files, and an archive matches the fingerprint made of it and no other. *)
Theorem contentHash_order (parseJson : bytes -> option json) (sha256 : bytes -> bytes) (Len : forall s, length (sha256 s) = 32) :
  (forall l k, base.NoDup (name <$> l) -> Permutation l k -> contentHash sha256 l = contentHash sha256 k) /\
  forall archive, parse parseJson archive <> [] ->
    archiveMatchesContentHash parseJson sha256 archive (archiveContentHashB64 parseJson sha256 archive) = true /\
    forall h, h <> contentHash sha256 (parse parseJson archive) -> h <> [] ->
      archiveMatchesContentHash parseJson sha256 archive (Crypto.b64encode h) = false.
Proof.
  split.
  { intros l k Nd Pm. unfold contentHash. rewrite (sort_entries_unique l k Nd Pm). reflexivity. }
  intros archive Ne. unfold archiveMatchesContentHash, archiveContentHashB64. destruct (parse parseJson archive) as [|e l]; [congruence|].
  rewrite !bool_decide_eq_false_2 by (apply b64_nonempty; unfold contentHash; intros E; apply (f_equal length) in E; rewrite Len in E; discriminate).
  rewrite Crypto.b64decode_b64encode. split.
  - unfold contentHash at 1. rewrite Len, bool_decide_eq_true_2 by reflexivity. reflexivity.
  - intros h Hh Nh. rewrite bool_decide_eq_false_2 by (apply b64_nonempty; exact Nh). rewrite Crypto.b64decode_b64encode.
    rewrite (bool_decide_eq_false_2 (h = _)) by exact Hh. apply andb_false_r.
Qed.

(** ** Names of packs *)

(** The decoder on the bytes of a code point a name may have. *)
Definition keptBytes (n : nat) : bool :=
  let c := Z.of_nat n in
  implb (keptInName c)
    match Unicode.enc1 c with
    | b :: t => (snd (leadOf (b2z b)) =? length (Unicode.enc1 c)) && bool_decide (nextCodePoint b t = (c, length (Unicode.enc1 c)))
    | [] => false
    end.

Lemma keptBytes_all : forallb keptBytes (seq 0 (Z.to_nat 0x2000)) = true.
Proof. vm_compute. reflexivity. Qed.

Lemma kept_range (c : Z) : keptInName c = true -> (0x20 <= c < 0x2000)%Z.
Proof. unfold keptInName, isLetterOrNumber. destruct (Z.ltb_spec c 0x80); lia. Qed.

Lemma kept_scalar (c : Z) : keptInName c = true -> Unicode.scalar c = true.
Proof. intros H%kept_range. apply Unicode.scalar_spec. lia. Qed.

Lemma nextCodePoint_kept (c : Z) (rest : bytes) : keptInName c = true ->
  exists b t, Unicode.enc1 c = b :: t /\ nextCodePoint b (t ++ rest) = (c, S (length t)).
Proof.
  intros K. pose proof (kept_range c K) as R. pose proof keptBytes_all as A. rewrite forallb_forall in A.
  specialize (A (Z.to_nat c) ltac:(apply in_seq; lia)). unfold keptBytes in A. rewrite Z2Nat.id, K in A by lia. cbn [implb] in A.
  destruct (Unicode.enc1 c) as [|b t] eqn:E; [discriminate|]. exists b, t. split; [reflexivity|].
  apply andb_true_iff in A as [L%Nat.eqb_eq N%bool_decide_eq_true]. revert N. unfold nextCodePoint.
  destruct (leadOf (b2z b)) as [cp len]. cbn [snd length] in L. subst len.
  rewrite !(proj2 (Nat.ltb_ge _ _)) by (rewrite ?length_app; lia). cbn [Nat.sub]. rewrite Nat.sub_0_r.
  rewrite take_app_length, firstn_all. auto.
Qed.

Lemma codePoints_kept (cps : list Z) : forall fuel, Forall (fun c => keptInName c = true) cps ->
  length (Unicode.encode cps) <= fuel -> codePoints fuel (Unicode.encode cps) = cps.
Proof.
  induction cps as [|c cps IH]; intros fuel H L; [destruct fuel; reflexivity|]. inversion_clear H as [|? ? Hc H'].
  rewrite Unicode.encode_cons in *. destruct (nextCodePoint_kept c (Unicode.encode cps) Hc) as (b & t & E & N).
  rewrite E in *. cbn [app length] in *. rewrite length_app in L. destruct fuel as [|fuel]; [lia|]. cbn [codePoints]. rewrite N.
  cbn [Nat.sub]. rewrite Nat.sub_0_r, drop_app_length, IH by (assumption || lia). reflexivity.
Qed.

Lemma append_encode (cps : list Z) : foldl appendCodePoint [] cps = Unicode.encode cps.
Proof. reflexivity. Qed.

(** Trimming bytes is trimming code points. *)
Lemma trim_encode (cps : list Z) : Forall (fun c => keptInName c = true) cps ->
  Unicode.drop_while_end (fun c => bool_decide (c = " "%byte)) (Unicode.encode cps) =
  Unicode.encode (Unicode.drop_while_end isBlank cps).
Proof.
  induction cps as [|c cps IH] using rev_ind; intros H; [reflexivity|]. apply Forall_app in H as [H Hc]. inversion_clear Hc as [|? ? Kc _].
  rewrite Unicode.encode_app. change (Unicode.encode [c]) with (Unicode.enc1 c).
  unfold isBlank in *. destruct (Z.eqb_spec c 0x20) as [->|N].
  - change (Unicode.enc1 0x20) with [" "%byte]. rewrite !Unicode.dwe_app by (repeat constructor). apply IH, H.
  - rewrite (Unicode.dwe_stop _ cps) by (apply Z.eqb_neq; exact N). rewrite Unicode.encode_app. change (Unicode.encode [c]) with (Unicode.enc1 c).
    assert (Last : exists u b, Unicode.enc1 c = u ++ [b] /\ b <> " "%byte).
    { destruct (Unicode.enc1_bytes c (kept_scalar c Kc)) as [[Lc ->]|(_ & h & cs & -> & _ & Hcs & Lcs)].
      - exists [], (z2b c). split; [reflexivity|]. intros E. apply (f_equal b2z) in E. rewrite b2z_z2b_small in E by lia. apply N. exact E.
      - destruct cs as [|x cs _] using rev_ind; [cbn in Lcs; lia|]. exists (h :: cs), x. split; [reflexivity|].
        apply Forall_app in Hcs as [_ Hx]. inversion_clear Hx as [|? ? Hx' _]. intros ->. cbn in Hx'. lia. }
    destruct Last as (u & b & -> & Nb). rewrite app_assoc. apply Unicode.dwe_stop. apply bool_decide_eq_false. exact Nb.
Qed.

(** A name as it should be: letters, digits, spaces and two signs, no space at
    its ends, at most 32 of them. *)
Definition niceName (cps : list Z) : Prop :=
  cps <> [] /\ length cps <= 32 /\ Forall (fun c => keptInName c = true) cps /\
  (forall c, head cps = Some c -> isBlank c = false) /\ (forall c, list.last cps = Some c -> isBlank c = false).

Lemma dw_id {A} (p : A -> bool) (s : list A) : (forall c, head s = Some c -> p c = false) -> Unicode.drop_while p s = s.
Proof. destruct s as [|c s]; [reflexivity|]. intros H. cbn. rewrite (H c eq_refl). reflexivity. Qed.

Lemma dwe_id {A} (p : A -> bool) (s : list A) : (forall c, list.last s = Some c -> p c = false) -> Unicode.drop_while_end p s = s.
Proof.
  destruct s as [|c s _] using rev_ind; [reflexivity|]. intros H. apply Unicode.dwe_stop, H. apply list.last_snoc.
Qed.

Lemma filter_all {A} (p : A -> bool) (s : list A) : Forall (fun a => p a = true) s -> List.filter p s = s.
Proof. induction 1 as [|a s Ha _ IH]; [reflexivity|]. cbn. rewrite Ha, IH. reflexivity. Qed.

Lemma encode_nonempty (cps : list Z) : cps <> [] -> Unicode.encode cps <> [].
Proof.
  destruct cps as [|c cps]; [congruence|]. intros _ E. rewrite Unicode.encode_cons in E. pose proof (Unicode.enc1_length c) as L.
  destruct (Unicode.enc1 c); [cbn in L; lia|discriminate].
Qed.

Lemma sanitize_nice (cps : list Z) : niceName cps -> sanitizeName (Unicode.encode cps) = Unicode.encode cps.
Proof.
  intros (Ne & L & K & H & T). unfold sanitizeName. cbv zeta. rewrite codePoints_kept by (assumption || lia). rewrite (filter_all _ _ K).
  rewrite (dw_id _ _ H), (dwe_id _ _ T), append_encode, firstn_all2, trim_encode by assumption. rewrite (dwe_id _ _ T).
  rewrite bool_decide_eq_false_2 by (apply encode_nonempty; exact Ne). reflexivity.
Qed.

(** Property (safety): the name of a pack is, for any bytes, a directory name:
    one to 32 letters, digits, spaces, dashes and underscores with no space at
    the ends, so no separators, dots and control characters; and a name that is
    one already is kept. *)
Theorem sanitizeName_safe (name : bytes) :
  (exists cps, sanitizeName name = Unicode.encode cps /\ niceName cps) /\ sanitizeName (sanitizeName name) = sanitizeName name.
Proof.
  assert (E : exists cps, sanitizeName name = Unicode.encode cps /\ niceName cps).
  2: { split; [exact E|]. destruct E as (cps & -> & N). apply sanitize_nice. exact N. }
  unfold sanitizeName. cbv zeta. rewrite append_encode. set (kept := List.filter keptInName (codePoints (length name) name)).
  assert (K : Forall (fun c => keptInName c = true) kept) by (apply List.Forall_forall; intros c Hc; apply (filter_In keptInName) in Hc; apply Hc).
  clearbody kept. pose proof (Unicode.dw_head isBlank kept) as Hd.
  assert (K1 : Forall (fun c => keptInName c = true) (Unicode.drop_while isBlank kept)).
  { clear Hd. induction K as [|c l Hc Hl IH]; [constructor|]. cbn. destruct (isBlank c); [exact IH|constructor; assumption]. }
  set (s1 := Unicode.drop_while isBlank kept) in *. clearbody s1. clear K kept.
  destruct (Unicode.dwe_spec isBlank s1) as (t & Es & _ & _). set (s2 := Unicode.drop_while_end isBlank s1) in *. clearbody s2.
  assert (K2 : Forall (fun c => keptInName c = true) (take 32 s2)) by (apply Forall_take; rewrite Es in K1; apply Forall_app in K1; apply K1).
  rewrite trim_encode by exact K2. destruct (Unicode.dwe_spec isBlank (take 32 s2)) as (t' & Et & _ & Lt).
  set (s3 := Unicode.drop_while_end isBlank (take 32 s2)) in *. clearbody s3.
  destruct Lt as [->|(u & c & -> & Hc)].
  { exists [0x50; 0x61; 0x63; 0x6B]%Z. split; [reflexivity|]. split; [discriminate|]. split; [cbn; lia|]. split; [repeat constructor|].
    split; intros d [= <-]; reflexivity. }
  exists (u ++ [c]). rewrite bool_decide_eq_false_2 by (apply encode_nonempty; destruct u; discriminate). split; [reflexivity|].
  split; [destruct u; discriminate|]. split; [|split; [|split]].
  - apply (f_equal length) in Et. rewrite length_take, !length_app in Et. rewrite length_app. lia.
  - rewrite Et in K2. apply Forall_app in K2. apply K2.
  - intros d Hd'. rewrite Es in Hd. destruct s2 as [|x s2]; [destruct u; discriminate|]. cbn in Hd.
    assert (d = x) as ->; [|exact Hd]. destruct u; cbn in *; congruence.
  - intros d. rewrite list.last_snoc. intros [= <-]. exact Hc.
Qed.

Lemma canReuseRef_iff (uploadedFor recipients : list bytes) : canReuseRef uploadedFor recipients = true <-> recipients ⊆ uploadedFor.
Proof.
  unfold canReuseRef. rewrite forallb_forall. setoid_rewrite bool_decide_eq_true. setoid_rewrite <- list_elem_of_In. reflexivity.
Qed.

(** A surrogate in a file's name becomes bytes that are not UTF-8. *)
Lemma altEmoji_surrogate :
  altEmojiForFileName (#"01-1f600.webp") [] = Unicode.encode [0x1F600%Z] /\
  Unicode.strictUtf8 (altEmojiForFileName (#"01-d800.webp") []) = None.
Proof. split; vm_compute; reflexivity. Qed.

End Pack.
