(* ===== verification/SessionThreads.v ===== *)
(** * SessionThreads: the clocked sender of a session

    Module [Ticker] models [src/l2_ticker.cpp]: the queue that is sent one
    record a tick, as a transition system of the submitting threads, the tick
    thread and the owner. What a mutex protects is one step; the host's callbacks
    are parameters. *)

From S2P Require Import Prelude.

Module Ticker.

Definition kTickMs : Z := 5000.
Definition kJitterMs : Z := 2000.

Definition isTicked (method : bytes) : bool :=
  bool_decide (method = #"msg.deliver_sealed") || bool_decide (method = #"msg.deliver_group").

(** [jitter] is [d(rng_) * jitterMs] cut to an integer. *)
Definition nextDelay (tickMs jitter : Z) : Z := Z.max 1 (tickMs + jitter).

Record Request := { method : bytes; body : bytes; dest : bytes }.

(** What a call of [send] ends with. *)
Inductive Reply := Answer (s : bytes) | Thrown.

(** What went out: at once, from the queue, or as a cover. *)
Inductive Sent := AtOnce (r : Request) | Queued (h : nat) (r : Request) | Cover (r : Request).

(** An item is a place in [items], its reply is set when it is done. [taken]
    are the items out of the queue that are not sent yet; [thread_] tells that
    the tick thread is running. *)
Record L2Ticker := {
  items : list (Request * option Reply);
  queue_ : list nat;
  taken : list nat;
  covers_ : nat;
  stopping_ : bool;
  thread_ : bool;
  sent : list Sent
}.

Definition newTicker : L2Ticker :=
  {| items := []; queue_ := []; taken := []; covers_ := 0; stopping_ := false; thread_ := false; sent := [] |}.

Section Host.
(** The reply to the n-th call of [send]. *)
Context (send : nat -> Request -> Reply).

Definition sendNow (out : Sent) (s : L2Ticker) : L2Ticker :=
  {| items := items s; queue_ := queue_ s; taken := taken s; covers_ := covers_ s; stopping_ := stopping_ s;
     thread_ := thread_ s; sent := sent s ++ [out] |}.

(** [sendItem] of the first item that was taken. The send, which is made outside of
    the lock, and the setting of the answer under it are one step; only the tick
    thread and the owner send, calls of [tick] from other threads are no steps. *)
Definition sendItem (s : L2Ticker) : L2Ticker :=
  match taken s with
  | [] => s
  | h :: rest =>
      match items s !! h with
      | None => s
      | Some (r, _) =>
          {| items := <[h := (r, Some (send (length (sent s)) r))]> (items s); queue_ := queue_ s; taken := rest;
             covers_ := covers_ s; stopping_ := stopping_ s; thread_ := thread_ s; sent := sent s ++ [Queued h r] |}
      end
  end.

(** The queue's part of [submit]; the caller then waits for its item. *)
Definition enqueue (r : Request) (s : L2Ticker) : L2Ticker :=
  {| items := items s ++ [(r, None)]; queue_ := queue_ s ++ [length (items s)]; taken := taken s; covers_ := covers_ s;
     stopping_ := stopping_ s; thread_ := thread_ s; sent := sent s |}.

Definition submit (isActive : bool) (r : Request) (s : L2Ticker) : L2Ticker :=
  if negb (isTicked (method r)) || negb isActive then sendNow (AtOnce r) s else enqueue r s.

(** The queue's part of [tick]: everything when the mode is off, else the front. *)
Definition takeAll (s : L2Ticker) : L2Ticker :=
  {| items := items s; queue_ := []; taken := taken s ++ queue_ s; covers_ := covers_ s; stopping_ := stopping_ s;
     thread_ := thread_ s; sent := sent s |}.

Definition takeFront (s : L2Ticker) : L2Ticker :=
  match queue_ s with
  | [] => s
  | h :: rest =>
      {| items := items s; queue_ := rest; taken := taken s ++ [h]; covers_ := covers_ s; stopping_ := stopping_ s;
         thread_ := thread_ s; sent := sent s |}
  end.

Definition sendCover (cover : option (bytes * bytes)) (s : L2Ticker) : L2Ticker :=
  match cover with
  | None => s
  | Some (m, b) =>
      {| items := items s; queue_ := queue_ s; taken := taken s; covers_ := S (covers_ s); stopping_ := stopping_ s;
         thread_ := thread_ s; sent := sent s ++ [Cover {| method := m; body := b; dest := [] |}] |}
  end.

(** A whole tick with nothing in between. *)
Definition tick (isActive : bool) (cover : option (bytes * bytes)) (s : L2Ticker) : L2Ticker :=
  if negb isActive then let s := takeAll s in Nat.iter (length (taken s)) sendItem s
  else match queue_ s with
       | [] => sendCover cover s
       | _ :: _ => sendItem (takeFront s)
       end.

Definition setThread (stopping thread : bool) (s : L2Ticker) : L2Ticker :=
  {| items := items s; queue_ := queue_ s; taken := taken s; covers_ := covers_ s; stopping_ := stopping;
     thread_ := thread; sent := sent s |}.

(** [start] and the parts of [stop]: the flag, the join, the rest of the queue. *)
Definition start (s : L2Ticker) : L2Ticker := if thread_ s then s else setThread false true s.
Definition stopFlag (s : L2Ticker) : L2Ticker := setThread true (thread_ s) s.
Definition stop (s : L2Ticker) : L2Ticker :=
  let s := takeAll (setThread true false s) in Nat.iter (length (taken s)) sendItem s.

(** The steps of all threads: callers submit at any time; the tick thread takes
    when it has sent what it took, sends one by one, sends a cover when the
    queue was empty, and ends when it finds the flag; the owner starts and
    stops, and the rest of the queue goes out after the join. *)
Inductive step : L2Ticker -> L2Ticker -> Prop :=
  | step_submit isActive r s : step s (submit isActive r s)
  | step_take_all s : thread_ s = true -> taken s = [] -> step s (takeAll s)
  | step_take_front s : thread_ s = true -> taken s = [] -> step s (takeFront s)
  | step_cover cover s : thread_ s = true -> taken s = [] -> step s (sendCover cover s)
  | step_send s : taken s <> [] -> step s (sendItem s)
  | step_start s : taken s = [] -> step s (start s)
  | step_flag s : step s (stopFlag s)
  | step_end s : thread_ s = true -> stopping_ s = true -> taken s = [] -> step s (setThread true false s)
  | step_drain s : thread_ s = false -> stopping_ s = true -> taken s = [] -> step s (takeAll s).

(** ** Every record goes out once, in the order it came *)

Definition handleOf (o : Sent) : option nat := match o with Queued h _ => Some h | _ => None end.
Definition handles (s : L2Ticker) : list nat := omap handleOf (sent s).

(** What was sent from the queue, what is on its way and what waits are
    together all records, in their order; done are exactly those sent. *)
Record ordered (s : L2Ticker) : Prop := {
  ord_all : handles s ++ taken s ++ queue_ s = seq 0 (length (items s));
  ord_done h r d : items s !! h = Some (r, d) -> (d = None <-> length (handles s) <= h)
}.

Lemma ordered_same (s s' : L2Ticker) : items s' = items s -> handles s' = handles s -> taken s' ++ queue_ s' = taken s ++ queue_ s ->
  ordered s -> ordered s'.
Proof using. intros E1 E2 E3 [A D]. split; [rewrite E1, E2, E3; exact A|intros h r d; rewrite E1, E2; apply D]. Qed.

Lemma ordered_enqueue (r : Request) (s : L2Ticker) : ordered s -> ordered (enqueue r s).
Proof using.
  intros [A D]. pose proof (f_equal length A) as L. rewrite !length_app, length_seq in L. split.
  - cbn [enqueue items queue_ taken sent]. change (handles (enqueue r s)) with (handles s).
    rewrite length_app. cbn [length]. rewrite seq_app, <- A, <- !app_assoc. reflexivity.
  - intros h r' d. change (handles (enqueue r s)) with (handles s). cbn [enqueue items]. rewrite lookup_app_Some.
    intros [H|[Lh H]]; [apply (D h r' d H)|]. apply list_lookup_singleton_Some in H as [E [= <- <-]]. split; [intros _; lia|reflexivity].
Qed.

Lemma ordered_send (s : L2Ticker) : ordered s -> taken s <> [] ->
  ordered (sendItem s) /\ handles (sendItem s) = handles s ++ take 1 (taken s) /\ taken (sendItem s) = drop 1 (taken s) /\
  queue_ (sendItem s) = queue_ s /\ length (items (sendItem s)) = length (items s) /\
  exists r, sent (sendItem s) = sent s ++ [Queued (length (handles s)) r].
Proof using.
  intros [A D] Ne. unfold sendItem. destruct (taken s) as [|h rest] eqn:T; [congruence|].
  assert (Eh : h = length (handles s) /\ h < length (items s)).
  { pose proof (f_equal length A) as L. rewrite !length_app, length_seq in L. cbn [length] in L.
    assert (K : seq 0 (length (items s)) !! length (handles s) = Some h) by (rewrite <- A, lookup_app_r, Nat.sub_diag by lia; reflexivity).
    apply lookup_seq in K. lia. }
  destruct Eh as [Eh Lh]. destruct (lookup_lt_is_Some_2 _ _ Lh) as [[r d] I]. rewrite I.
  assert (Hs : handles {| items := <[h:=(r, Some (send (length (sent s)) r))]> (items s); queue_ := queue_ s; taken := rest;
      covers_ := covers_ s; stopping_ := stopping_ s; thread_ := thread_ s; sent := sent s ++ [Queued h r] |} = handles s ++ [h])
    by (unfold handles; cbn [sent]; rewrite omap_app; reflexivity).
  split; [|split; [exact Hs|split; [reflexivity|split; [reflexivity|split; [cbn [items]; apply length_insert|exists r; rewrite <- Eh; reflexivity]]]]].
  split; rewrite Hs; cbn [items queue_ taken].
  - rewrite length_insert, <- A, <- app_assoc. reflexivity.
  - intros k r' d'. rewrite length_app. cbn [length]. destruct (decide (k = h)) as [->|N].
    + rewrite list_lookup_insert_eq by exact Lh. intros [= <- <-]. split; [discriminate|lia].
    + rewrite list_lookup_insert_ne by congruence. intros K. rewrite (D k r' d' K). lia.
Qed.

Lemma ordered_submit (a : bool) (r : Request) (s : L2Ticker) : ordered s -> ordered (submit a r s).
Proof using.
  intros O. unfold submit. destruct (_ || _); [|apply ordered_enqueue; exact O].
  apply (ordered_same s); [reflexivity| |reflexivity|exact O]. unfold handles. cbn. rewrite omap_app. apply app_nil_r.
Qed.

Lemma ordered_takeAll (s : L2Ticker) : ordered s -> ordered (takeAll s).
Proof using. apply ordered_same; [reflexivity|reflexivity|]. cbn. apply app_nil_r. Qed.

Lemma ordered_takeFront (s : L2Ticker) : ordered s -> ordered (takeFront s).
Proof using.
  unfold takeFront. destruct (queue_ s) as [|h q] eqn:Q; [auto|]. apply ordered_same; [reflexivity|reflexivity|].
  cbn. rewrite Q, <- app_assoc. reflexivity.
Qed.

Lemma ordered_cover (c : option (bytes * bytes)) (s : L2Ticker) : ordered s -> ordered (sendCover c s).
Proof using.
  destruct c as [[m b]|]; [|auto]. apply ordered_same; [reflexivity| |reflexivity]. unfold handles. cbn. rewrite omap_app. apply app_nil_r.
Qed.

Lemma ordered_step (s s' : L2Ticker) : step s s' -> ordered s -> ordered s'.
Proof using.
  intros St O. destruct St.
  - apply ordered_submit, O.
  - apply ordered_takeAll, O.
  - apply ordered_takeFront, O.
  - apply ordered_cover, O.
  - apply ordered_send; assumption.
  - unfold start. destruct (thread_ s); [exact O|]. apply (ordered_same s); auto.
  - apply (ordered_same s); auto.
  - apply (ordered_same s); auto.
  - apply ordered_takeAll, O.
Qed.

Lemma ordered_new : ordered newTicker.
Proof using. split; [reflexivity|]. intros h r d. cbn. rewrite lookup_nil. discriminate. Qed.
End Host.

(** Claim C30 (invariant): in every interleaving of callers, ticks, starts and
    stops each record that was queued is sent at most once and in the order it
    came; a caller's record is done exactly when it was sent, and one that is
    not done is on its way or still in the queue. *)
Theorem ticker_fifo (send : nat -> Request -> Reply) (s : L2Ticker) (R : rtc (step send) newTicker s) :
  handles s ++ taken s ++ queue_ s = seq 0 (length (items s)) /\
  forall h r d, items s !! h = Some (r, d) ->
    (d <> None <-> h ∈ handles s) /\ (d = None <-> h ∈ taken s ++ queue_ s).
Proof.
  assert (O : ordered s).
  { assert (G : forall a b, rtc (step send) a b -> ordered a -> ordered b).
    { induction 1 as [|a b c S _ IH]; [auto|]. intros Oa. apply IH. exact (ordered_step send a b S Oa). }
    exact (G _ _ R ordered_new). }
  destruct O as [A D]. split; [exact A|]. intros h r d H. specialize (D h r d H).
  assert (Lh : h < length (items s)) by (apply lookup_lt_Some in H; exact H).
  assert (E : forall k, k ∈ handles s <-> k < length (handles s)).
  { intros k. replace (handles s) with (seq 0 (length (handles s))) at 1; [rewrite elem_of_seq; lia|].
    apply (f_equal (take (length (handles s)))) in A. rewrite take_app_length, take_seq in A. rewrite A at 2. f_equal.
    apply (f_equal length) in A. rewrite length_seq in A. lia. }
  assert (T : h ∈ handles s ++ taken s ++ queue_ s) by (rewrite A; apply elem_of_seq; lia).
  assert (N : h ∈ handles s -> h ∈ taken s ++ queue_ s -> False).
  { intros H1 H2. pose proof (NoDup_seq 0 (length (items s))) as Nd. rewrite <- A in Nd. apply list.NoDup_app in Nd as (_ & Nd & _). exact (Nd h H1 H2). }
  apply elem_of_app in T. rewrite E in *. destruct d as [d|].
  - assert (h < length (handles s)) by (destruct (le_lt_dec (length (handles s)) h) as [K|K]; [apply D in K; discriminate|exact K]).
    split; split; try auto; try discriminate. intros H2. exfalso. apply N; assumption.
  - assert (length (handles s) <= h) by (apply D; reflexivity).
    split; split; try congruence; try auto; [intros; lia|]. intros _. destruct T; [lia|assumption].
Qed.

(** ** Every record goes out in time *)

Section Progress.
Context (send : nat -> Request -> Reply).

Lemma send_all (n : nat) : forall s, ordered s -> length (taken s) = n ->
  let s' := Nat.iter n (sendItem send) s in
  ordered s' /\ handles s' = handles s ++ taken s /\ taken s' = [] /\ queue_ s' = queue_ s /\ length (items s') = length (items s).
Proof using.
  induction n as [|n IH]; intros s O L; cbv zeta.
  - destruct (taken s) eqn:T; [|discriminate]. cbn. rewrite app_nil_r. auto.
  - rewrite Nat.iter_succ_r. assert (Ne : taken s <> []) by (destruct (taken s); [discriminate|discriminate]).
    destruct (ordered_send send s O Ne) as (O' & H1 & H2 & H3 & H4 & _).
    destruct (IH (sendItem send s) O') as (P1 & P2 & P3 & P4 & P5); [rewrite H2, length_drop; lia|].
    split; [exact P1|]. split; [rewrite P2, H1, H2, <- app_assoc, take_drop; reflexivity|]. split; [exact P3|]. split; congruence.
Qed.

(** Between ticks nothing is on its way. *)
Definition idle (s : L2Ticker) : Prop := ordered s /\ taken s = [].

Lemma idle_lengths (s : L2Ticker) : idle s -> length (handles s) + length (queue_ s) = length (items s).
Proof using. intros [O T]. pose proof (f_equal length (ord_all _ O)) as L. rewrite T, !length_app, length_seq in L. exact L. Qed.

Lemma tick_idle (a : bool) (c : option (bytes * bytes)) (s : L2Ticker) : idle s ->
  idle (tick send a c s) /\ length (items (tick send a c s)) = length (items s) /\
  length (handles (tick send a c s)) = if a then Nat.min (length (items s)) (length (handles s) + 1) else length (items s).
Proof using.
  intros Hi. pose proof (idle_lengths s Hi) as L. destruct Hi as [O T]. unfold tick. destruct a; cbn [negb].
  - destruct (queue_ s) as [|h q] eqn:Q.
    + assert (H : handles (sendCover c s) = handles s) by (destruct c as [[m b]|]; [unfold handles; cbn; rewrite omap_app; apply app_nil_r|reflexivity]).
      rewrite H. split; [split; [apply ordered_cover; exact O|destruct c as [[m b]|]; exact T]|].
      split; [destruct c as [[m b]|]; reflexivity|]. cbn in L. lia.
    + pose proof (ordered_takeFront s O) as O1. assert (T1 : taken (takeFront s) = [h]) by (unfold takeFront; rewrite Q; cbn; rewrite T; reflexivity).
      destruct (ordered_send send (takeFront s) O1) as (O2 & H1 & H2 & _ & H4 & _); [rewrite T1; discriminate|].
      rewrite T1 in H1, H2. split; [split; assumption|].
      assert (Hf : handles (takeFront s) = handles s /\ length (items (takeFront s)) = length (items s)) by (unfold takeFront; rewrite Q; auto).
      destruct Hf as [Hf1 Hf2]. rewrite H4, Hf2, H1, Hf1, length_app. split; [reflexivity|]. cbn in L |- *. lia.
  - pose proof (ordered_takeAll s O) as O1. destruct (send_all _ (takeAll s) O1 eq_refl) as (P1 & P2 & P3 & P4 & P5).
    split; [split; assumption|]. split; [exact P5|]. rewrite P2. cbn [takeAll taken]. rewrite T. change (handles (takeAll s)) with (handles s).
    rewrite length_app. exact L.
Qed.

Fixpoint ticks (fs : list (bool * option (bytes * bytes))) (s : L2Ticker) : L2Ticker :=
  match fs with
  | [] => s
  | (a, c) :: rest => ticks rest (tick send a c s)
  end.

Lemma ticks_idle (fs : list (bool * option (bytes * bytes))) : forall s, idle s ->
  idle (ticks fs s) /\ length (items (ticks fs s)) = length (items s) /\
  Nat.min (length (items s)) (length (handles s) + length fs) <= length (handles (ticks fs s)).
Proof using.
  induction fs as [|[a c] fs IH]; intros s Hi; cbn [ticks length].
  - split; [exact Hi|]. split; [reflexivity|]. pose proof (idle_lengths s Hi). lia.
  - destruct (tick_idle a c s Hi) as (Hi' & L & H). destruct (IH _ Hi') as (P1 & P2 & P3). split; [exact P1|]. split; [congruence|].
    pose proof (idle_lengths s Hi). destruct a; lia.
Qed.
End Progress.

(** Claim C32 (liveness): a record that waits behind [n] others is sent, and its
    caller has an answer, after [n + 1] ticks, whatever the mode and the covers
    of these ticks; a tick of the mode sends one record or one cover and never
    more; and stopping sends all that wait. *)
Theorem ticker_progress (send : nat -> Request -> Reply) (s : L2Ticker) (Hi : idle s) :
  (forall fs h, h < length (items s) -> h + 1 - length (handles s) <= length fs ->
     exists r reply, items (ticks send fs s) !! h = Some (r, Some reply)) /\
  (forall c, length (sent (tick send true c s)) =
     length (sent s) + if bool_decide (queue_ s = []) && bool_decide (c = None) then 0 else 1) /\
  (queue_ (stop send s) = [] /\ forall h r d, items (stop send s) !! h = Some (r, d) -> d <> None).
Proof.
  assert (Done : forall s' h, ordered s' -> h < length (items s') -> h < length (handles s') -> exists r reply, items s' !! h = Some (r, Some reply)).
  { intros s' h O L Lh. destruct (lookup_lt_is_Some_2 _ _ L) as [[r [d|]] I]; [eauto|].
    apply (ord_done _ O) in I. assert (length (handles s') <= h) by (apply I; reflexivity). lia. }
  split; [|split].
  - intros fs h Lh Lf. destruct (ticks_idle send fs s Hi) as (P1 & P2 & P3). apply Done; [apply P1|lia|lia].
  - intros c. unfold tick. cbn [negb]. destruct Hi as [O T]. destruct (queue_ s) as [|h q] eqn:Q.
    + destruct c as [[m b]|]; cbn; [rewrite length_app; reflexivity|lia].
    + cbn. pose proof (ordered_takeFront s O) as O1. unfold takeFront in *. rewrite Q in *.
      destruct (ordered_send send _ O1) as (_ & _ & _ & _ & _ & r & E); [cbn; rewrite T; discriminate|].
      rewrite E, length_app. reflexivity.
  - destruct Hi as [O T]. unfold stop.
    assert (O1 : ordered (takeAll (setThread true false s))) by (apply ordered_takeAll, (ordered_same s); auto).
    destruct (send_all send _ _ O1 eq_refl) as (P1 & P2 & P3 & P4 & P5). split; [exact P4|]. intros h r d I E. subst d.
    pose proof (ord_all _ P1) as A. rewrite P3, P4 in A. cbn [takeAll queue_] in A. rewrite !app_nil_r in A.
    apply (f_equal length) in A. rewrite length_seq in A. pose proof (lookup_lt_Some _ _ _ I).
    apply (ord_done _ P1) in I. assert (K : length (handles (stop send s)) <= h) by (apply I; reflexivity). unfold stop in K. lia.
Qed.

Lemma ticker_fifo_witness :
  let r := {| method := #"msg.deliver_group"; body := #"x"; dest := [] |} in
  handles (sendItem (fun _ _ => Thrown) (takeAll (start (submit true r newTicker)))) = [0] /\
  handles (sendItem (fun _ _ => Thrown) (takeAll (start (submit true r newTicker)))) ++ [] = seq 0 1.
Proof.
  split; [vm_compute; reflexivity|].
  refine (proj1 (ticker_fifo (fun _ _ => Thrown) (sendItem (fun _ _ => Thrown) (takeAll (start (submit true
    {| method := #"msg.deliver_group"; body := #"x"; dest := [] |} newTicker)))) _)).
  eapply rtc_l; [apply (step_submit _ true {| method := #"msg.deliver_group"; body := #"x"; dest := [] |})|].
  eapply rtc_l; [apply step_start; reflexivity|]. eapply rtc_l; [apply step_take_all; reflexivity|].
  eapply rtc_l; [apply step_send; vm_compute; discriminate|]. apply rtc_refl.
Defined.

Lemma ticker_progress_witness :
  exists r reply, items (ticks (fun _ _ => Answer (#"ok")) [(true, None); (true, None)]
    (enqueue {| method := #"m"; body := #"2"; dest := [] |} (enqueue {| method := #"m"; body := #"1"; dest := [] |} newTicker))) !! 1 =
    Some (r, Some reply).
Proof.
  refine (proj1 (ticker_progress (fun _ _ => Answer (#"ok")) _ _) [(true, None); (true, None)] 1 _ _).
  - split; [|reflexivity]. apply ordered_enqueue, ordered_enqueue, ordered_new.
  - vm_compute. auto.
  - vm_compute. auto.
Defined.

End Ticker.
