(* ===== verification/QueueWatchdog.v ===== *)
(** * QueueWatchdog: the watchdog of a session's queue

    Module [Watchdog] models [src/queue_watchdog.cpp]: each operation takes the
    mutex and is one step, and so is one round of the loop; the clock's values
    come with the steps, and the call of [onStuck], made without the mutex, is
    an entry of a log. *)

From S2P Require Import Prelude.

Module Watchdog.

Definition kThresholdMs : Z := 20000.

(** The steady clock counts nanoseconds. *)
Definition nsPerMs : Z := 1000000.

(** [stuck] is what [onStuck] was called with, in order; [thread_] tells that
    the loop runs. *)
Record QueueWatchdog := {
  thread_ : bool;
  stopping_ : bool;
  running_ : bool;
  reported_ : bool;
  label_ : bytes;
  startedAt_ : Z;
  reports_ : Z;
  stuck : list (bytes * Z)
}.

Definition newWatchdog : QueueWatchdog :=
  {| thread_ := false; stopping_ := false; running_ := false; reported_ := false; label_ := []; startedAt_ := 0; reports_ := 0; stuck := [] |}.

Definition setStopping (stopping thread : bool) (s : QueueWatchdog) : QueueWatchdog :=
  {| thread_ := thread; stopping_ := stopping; running_ := running_ s; reported_ := reported_ s; label_ := label_ s;
     startedAt_ := startedAt_ s; reports_ := reports_ s; stuck := stuck s |}.

Definition start (s : QueueWatchdog) : QueueWatchdog := if thread_ s then s else setStopping false true s.
Definition stop (s : QueueWatchdog) : QueueWatchdog := setStopping true false s.

Definition begin (label : bytes) (now : Z) (s : QueueWatchdog) : QueueWatchdog :=
  {| thread_ := thread_ s; stopping_ := stopping_ s; running_ := true; reported_ := false; label_ := label;
     startedAt_ := now; reports_ := reports_ s; stuck := stuck s |}.

Definition finish (s : QueueWatchdog) : QueueWatchdog :=
  {| thread_ := thread_ s; stopping_ := stopping_ s; running_ := false; reported_ := false; label_ := label_ s;
     startedAt_ := startedAt_ s; reports_ := reports_ s; stuck := stuck s |}.

Section Deps.
(** [deps_.onStuck] is set, and [deps_.thresholdMs]. *)
Context (onStuck : bool) (thresholdMs : Z).

(** One round of [loop] that wakes at [now]. *)
Definition check (now : Z) (s : QueueWatchdog) : QueueWatchdog :=
  if negb (thread_ s) || stopping_ s then s
  else if negb (running_ s) || reported_ s then s
  else let elapsed := Z.quot (now - startedAt_ s) nsPerMs in
       if (elapsed <? thresholdMs)%Z then s
       else {| thread_ := thread_ s; stopping_ := stopping_ s; running_ := running_ s; reported_ := true; label_ := label_ s;
               startedAt_ := startedAt_ s; reports_ := ((reports_ s + 1) `mod` 2 ^ 64)%Z;
               stuck := if onStuck then stuck s ++ [(label_ s, elapsed)] else stuck s |}.

(** What the worker and the loop do to the watchdog, in the mutex's order. *)
Inductive Event := Begin (label : bytes) (now : Z) | Finish | Wake (now : Z).

Definition react (s : QueueWatchdog) (e : Event) : QueueWatchdog :=
  match e with
  | Begin label now => begin label now s
  | Finish => finish s
  | Wake now => check now s
  end.

Definition run (es : list Event) (s : QueueWatchdog) : QueueWatchdog := foldl react s es.

(** ** The reference: a task is reported by the first late wake before its end *)

Fixpoint firstLate (t : Z) (es : list Event) : option Z :=
  match es with
  | Wake now :: rest => let elapsed := Z.quot (now - t) nsPerMs in
                        if (thresholdMs <=? elapsed)%Z then Some elapsed else firstLate t rest
  | _ => None
  end.

Fixpoint lateTasks (es : list Event) : list (bytes * Z) :=
  match es with
  | [] => []
  | Begin label t :: rest =>
      match firstLate t rest with Some elapsed => (label, elapsed) :: lateTasks rest | None => lateTasks rest end
  | _ :: rest => lateTasks rest
  end.

(** What a watchdog in state [s] has still to report of the task it watches. *)
Definition pending (s : QueueWatchdog) (es : list Event) : list (bytes * Z) :=
  if running_ s && negb (reported_ s) then
    match firstLate (startedAt_ s) es with Some elapsed => [(label_ s, elapsed)] | None => [] end
  else [].

Lemma run_reports (es : list Event) : forall s, thread_ s = true -> stopping_ s = false ->
  let new := pending s es ++ lateTasks es in
  stuck (run es s) = stuck s ++ (if onStuck then new else []) /\
  (reports_ (run es s) `mod` 2 ^ 64 = (reports_ s + Z.of_nat (length new)) `mod` 2 ^ 64)%Z.
Proof using.
  induction es as [|e es IH]; intros s Ht Hs; cbv zeta.
  - unfold pending. cbn [firstLate lateTasks run foldl].
    replace (if running_ s && negb (reported_ s) then [] else []) with (@nil (bytes * Z)) by (destruct (_ && _); reflexivity).
    cbn. rewrite Z.add_0_r. destruct onStuck; rewrite app_nil_r; auto.
  - change (run (e :: es) s) with (run es (react s e)). destruct e as [label now| |now]; cbn [react lateTasks].
    + destruct (IH (begin label now s) Ht Hs) as [H1 H2]. rewrite H1, H2. unfold pending. cbn.
      replace (if running_ s && negb (reported_ s) then [] else []) with (@nil (bytes * Z)) by (destruct (_ && _); reflexivity).
      destruct (firstLate now es); auto.
    + destruct (IH (finish s) Ht Hs) as [H1 H2]. rewrite H1, H2. unfold pending. cbn.
      replace (if running_ s && negb (reported_ s) then [] else []) with (@nil (bytes * Z)) by (destruct (_ && _); reflexivity). auto.
    + unfold check. rewrite Ht, Hs. cbn [negb orb]. unfold pending. cbn [firstLate].
      destruct (running_ s) eqn:R, (reported_ s) eqn:P; cbn [negb orb andb];
        try (destruct (IH s Ht Hs) as [H1 H2]; rewrite H1, H2; unfold pending; rewrite R, P; auto).
      destruct (Z.ltb_spec (Z.quot (now - startedAt_ s) nsPerMs) thresholdMs) as [Lt|Ge].
      * destruct (IH s Ht Hs) as [H1 H2]; rewrite H1, H2. unfold pending. rewrite R, P. cbn [andb negb].
        destruct (Z.leb_spec thresholdMs (Z.quot (now - startedAt_ s) nsPerMs)); [lia|auto].
      * destruct (Z.leb_spec thresholdMs (Z.quot (now - startedAt_ s) nsPerMs)); [|lia].
        match goal with |- context [run es ?x] => destruct (IH x) as [H1 H2]; [first [reflexivity|exact Ht]|first [reflexivity|exact Hs]|] end.
        rewrite H1, H2. unfold pending. cbn [running_ reported_ negb andb app stuck reports_ length].
        rewrite Nat2Z.inj_succ. split; [destruct onStuck; [rewrite <- app_assoc; reflexivity|reflexivity]|].
        rewrite Zplus_mod_idemp_l. f_equal. lia.
Qed.
End Deps.

(** Property (refinement): whatever the order of tasks and wakes, the watchdog
    reports exactly the tasks that a wake finds over the threshold before they
    end, each once, with its label and the time of the first such wake; the
    counter counts them; and once stopped it reports nothing. *)
Theorem watchdog_once (onStuck : bool) (thresholdMs : Z) (es : list Event) :
  let s := run onStuck thresholdMs es (start newWatchdog) in
  stuck s = (if onStuck then lateTasks thresholdMs es else []) /\
  (reports_ s `mod` 2 ^ 64 = Z.of_nat (length (lateTasks thresholdMs es)) `mod` 2 ^ 64)%Z /\
  forall es', stuck (run onStuck thresholdMs es' (stop s)) = stuck s.
Proof.
  cbv zeta. destruct (run_reports onStuck thresholdMs es (start newWatchdog) eq_refl eq_refl) as [H1 H2].
  split; [exact H1|]. split; [exact H2|]. generalize (run onStuck thresholdMs es (start newWatchdog)) as s. clear.
  intros s es'. change (stuck s) with (stuck (stop s)). assert (T : thread_ (stop s) = false) by reflexivity.
  revert T. generalize (stop s) as d. clear s. induction es' as [|e es' IH]; intros d T; [reflexivity|].
  change (run onStuck thresholdMs (e :: es') d) with (run onStuck thresholdMs es' (react onStuck thresholdMs d e)).
  assert (K : thread_ (react onStuck thresholdMs d e) = false /\ stuck (react onStuck thresholdMs d e) = stuck d).
  { destruct e; cbn; [auto|auto|]. unfold check. rewrite T. auto. }
  destruct K as [K1 K2]. rewrite (IH _ K1). exact K2.
Qed.

End Watchdog.
