(* ===== verification/StoreCrypt.v ===== *)
(** * StoreCrypt: the encrypted files of the device

    Models [src/storecrypt.cpp]: sealing of whole files and of single lines,
    reading of both, the files of lines that older versions left, migration to
    sealed files, and the two guards against writing (no plain text when a key is
    required, nothing at all behind the fence). AES-256-GCM, the random bytes and
    the base64 of OpenSSL are parameters ([Cipher]); the wrappers of
    [src/linking.cpp] around base64 are modelled. A file that is written can fail
    to be opened, be cut short, or not be renamed ([Fault]); what a write meets
    is a part of the state. A mutex makes the key and the fence atomic. *)

From S2P Require Import Prelude DomainSync Crypto.

Module StoreCrypt.

(** What OpenSSL gives: 12 random bytes at each draw (none when it fails), the
    ciphertext with its tag, the plain text of body and tag, base64 of blocks. *)
Class Cipher := {
  rand : nat -> bytes;
  evp_seal : bytes -> bytes -> bytes -> option bytes;
  evp_open : bytes -> bytes -> bytes -> bytes -> option bytes;
  encodeBlock : bytes -> bytes;
  decodeBlock : bytes -> option bytes;
  evp_sha256 : bytes -> bytes
}.

(** What can happen to a write: the file is not opened, an error shows after some
    bytes, the rename fails, or bytes are lost when the file is closed, which the
    code does not see. *)
Inductive Fault := NoFault | NotOpened | Short (n : nat) | NotRenamed | LateShort (n : nat).

Record Disk := mkDisk {
  files : gmap bytes bytes;
  g_key : bytes;
  g_required : bool;
  g_blocked : bool;
  draws : nat;
  faults : list Fault
}.

Definition kMagic : bytes := #"PVSE1".
Definition kIvLen : nat := 12.
Definition kTagLen : nat := 16.
Definition kMagicLen : nat := length kMagic.
Definition kLinePrefix : bytes := kMagic ++ #":".

Definition set_files (f : gmap bytes bytes) (d : Disk) : Disk := mkDisk f (g_key d) (g_required d) (g_blocked d) (draws d) (faults d).

(** The next write meets this. *)
Definition nextFault (d : Disk) : Fault * Disk :=
  match faults d with
  | [] => (NoFault, d)
  | x :: l => (x, mkDisk (files d) (g_key d) (g_required d) (g_blocked d) (draws d) l)
  end.

(** The last byte. *)
Definition endByte (s : bytes) : option byte := s !! (length s - 1)%nat.

Definition startsWith (p s : bytes) : bool := bool_decide (take (length p) s = p).

Section Code.
Context {Ci : Cipher}.

(** ** Base64 of [linking.cpp] *)

Definition b64encode (raw : bytes) : bytes := match raw with [] => [] | _ => encodeBlock raw end.

(** [while (b64.size() % 4) b64.push_back('=')]. *)
Definition padded (b64 : bytes) : bytes := b64 ++ replicate ((4 - length b64 `mod` 4) `mod` 4) "="%byte.

Fixpoint trailing (c : byte) (rev_s : bytes) : nat :=
  match rev_s with x :: s => if bool_decide (x = c) then S (trailing c s) else 0 | [] => 0 end.

Definition b64decode (b64in : bytes) : option bytes :=
  match padded b64in with
  | [] => Some []
  | b64 => match decodeBlock b64 with
           | Some out => Some (take (length out - trailing "="%byte (reverse b64)) out)
           | None => None
           end
  end.

(** ** Sealing *)

Definition gcmSeal (key plain : bytes) (d : Disk) : option bytes * Disk :=
  let iv := rand (draws d) in
  let d' := mkDisk (files d) (g_key d) (g_required d) (g_blocked d) (S (draws d)) (faults d) in
  if negb (length iv =? kIvLen)%nat then (None, d')
  else (match evp_seal key iv plain with Some out => Some (iv ++ out) | None => None end, d').

Definition gcmOpen (key blob : bytes) : option bytes :=
  if (length blob <? kIvLen + kTagLen)%nat then None
  else evp_open key (take kIvLen blob) (take (length blob - kIvLen - kTagLen) (drop kIvLen blob)) (drop (length blob - kTagLen) blob).

Definition setKey (key32 : bytes) (d : Disk) : Disk :=
  mkDisk (files d) (if (length key32 =? 32)%nat then key32 else []) (g_required d) (g_blocked d) (draws d) (faults d).
Definition enabled (d : Disk) : bool := negb (bool_decide (g_key d = [])).
Definition setRequired (value : bool) (d : Disk) : Disk := mkDisk (files d) (g_key d) value (g_blocked d) (draws d) (faults d).
Definition blockWrites (d : Disk) : Disk := mkDisk (files d) (g_key d) (g_required d) true (draws d) (faults d).
Definition allowWrites (d : Disk) : Disk := mkDisk (files d) (g_key d) (g_required d) false (draws d) (faults d).

Definition sealForDisk (plain : bytes) (line : bool) (d : Disk) : option bytes * Disk :=
  match g_key d with
  | [] => (if g_required d then None else Some plain, d)
  | key =>
      let (sealed, d') := gcmSeal key plain d in
      (match sealed with
       | None => if g_required d then None else Some plain
       | Some s => Some (if line then kLinePrefix ++ b64encode s else kMagic ++ x00 :: s)
       end, d')
  end.

Definition deriveKey (secret : bytes) : bytes := evp_sha256 (#"parvane-store-v1" ++ secret).

Definition isSealed (blob : bytes) : bool :=
  (kMagicLen <? length blob)%nat && startsWith kMagic blob && negb (bool_decide (blob !! kMagicLen = Some ":"%byte)).
Definition hasBinarySeparator (blob : bytes) : bool := (kMagicLen <? length blob)%nat && bool_decide (blob !! kMagicLen = Some x00).

Definition seal (plain : bytes) (d : Disk) : bytes * Disk :=
  match g_key d with
  | [] => (plain, d)
  | key => let (sealed, d') := gcmSeal key plain d in (match sealed with Some s => kMagic ++ x00 :: s | None => plain end, d')
  end.

Definition open (key blob : bytes) : option bytes :=
  if negb (isSealed blob) then Some blob
  else match key with
       | [] => None
       | _ => gcmOpen key (drop (if hasBinarySeparator blob then S kMagicLen else kMagicLen) blob)
       end.

Definition sealLine (plain : bytes) (d : Disk) : bytes * Disk :=
  match g_key d with
  | [] => (plain, d)
  | key => let (sealed, d') := gcmSeal key plain d in (match sealed with Some s => kLinePrefix ++ b64encode s | None => plain end, d')
  end.

Definition openLine (key line : bytes) : option bytes :=
  if negb (startsWith kLinePrefix line) then Some line
  else match key with
       | [] => None
       | _ => match b64decode (drop (length kLinePrefix) line) with Some raw => gcmOpen key raw | None => None end
       end.

(** ** Files *)

Definition rawRead (path : bytes) (d : Disk) : bytes := default [] (files d !! path).

Definition tmpOf (path : bytes) : bytes := path ++ #".tmp".

Definition rawWriteUnfenced (path data : bytes) (d : Disk) : bool * Disk :=
  let (fault, d) := nextFault d in
  match fault with
  | NoFault => (true, set_files (<[path := data]> (delete (tmpOf path) (files d))) d)
  | NotOpened => (false, d)
  | Short n => (false, set_files (<[tmpOf path := take n data]> (files d)) d)
  | NotRenamed => (false, set_files (delete (tmpOf path) (files d)) d)
  | LateShort n => (true, set_files (<[path := take n data]> (delete (tmpOf path) (files d))) d)
  end.

Definition rawWrite (path data : bytes) (d : Disk) : bool * Disk := if g_blocked d then (false, d) else rawWriteUnfenced path data d.

Definition readFile (path : bytes) (d : Disk) : bytes :=
  match rawRead path d with [] => [] | blob => default [] (open (g_key d) blob) end.

Definition writeFile (path data : bytes) (d : Disk) : bool * Disk :=
  let (sealed, d) := sealForDisk data false d in
  match sealed with Some s => rawWrite path s d | None => (false, d) end.

Definition writeRawFile (path data : bytes) (d : Disk) : bool * Disk := rawWrite path data d.

(** [std::getline] until the end. *)
Fixpoint splitLines (text : bytes) : list bytes :=
  match text with
  | [] => []
  | c :: text =>
      if bool_decide (c = x0a) then [] :: splitLines text
      else match splitLines text with l :: ls => (c :: l) :: ls | [] => [[c]] end
  end.

Definition popCr (line : bytes) : bytes := if bool_decide (endByte line = Some x0d) then removelast line else line.

(** Lines that are empty or cannot be opened are left out. *)
Definition readLine (key line : bytes) : option bytes := match popCr line with [] => None | l => openLine key l end.

(** The places of the line prefix, from the first on. *)
Definition prefixAt (blob : bytes) (from : nat) : list nat :=
  List.filter (fun p => startsWith kLinePrefix (drop p blob)) (seq from (length blob - from)).

(** A head that was sealed as a whole, and where the lines after it begin. *)
Fixpoint sealedHead (key blob : bytes) (places : list nat) : option (bytes * nat) :=
  match places with
  | [] => None
  | p :: places => match open key (take p blob) with Some part => Some (part, p) | None => sealedHead key blob places end
  end.

Definition withNewline (text : bytes) : bytes :=
  match endByte text with Some c => if bool_decide (c = x0a) then text else text ++ [x0a] | None => text end.

Definition linesOf (key blob : bytes) : list bytes :=
  let text :=
    if isSealed blob then
      match (match open key blob with Some head => Some (head, length blob) | None => sealedHead key blob (prefixAt blob (S kMagicLen)) end) with
      | Some (head, tailAt) => withNewline head ++ drop tailAt blob
      | None => []
      end
    else blob in
  omap (readLine key) (splitLines text).

Definition readLines (path : bytes) (d : Disk) : list bytes := linesOf (g_key d) (rawRead path d).

Definition appendLine (path line : bytes) (d : Disk) : bool * Disk :=
  let (sealed, d) := sealForDisk line true d in
  match sealed with
  | None => (false, d)
  | Some s =>
      if g_blocked d then (false, d)
      else
        let (fault, d) := nextFault d in
        let put bs := set_files (<[path := rawRead path d ++ bs]> (files d)) d in
        match fault with
        | NoFault | NotRenamed => (true, put (s ++ [x0a]))
        | NotOpened => (false, d)
        | Short n => (false, put (take n (s ++ [x0a])))
        | LateShort n => (true, put (take n (s ++ [x0a])))
        end
  end.

Fixpoint sealLines (lines : list bytes) (d : Disk) : option bytes * Disk :=
  match lines with
  | [] => (Some [], d)
  | l :: lines =>
      let (sealed, d) := sealForDisk l true d in
      match sealed with
      | None => (None, d)
      | Some s => let (rest, d) := sealLines lines d in (match rest with Some r => Some (s ++ x0a :: r) | None => None end, d)
      end
  end.

Definition writeLines (path : bytes) (lines : list bytes) (d : Disk) : bool * Disk :=
  let (data, d) := sealLines lines d in
  match data with Some s => rawWrite path s d | None => (false, d) end.

(** ** Migration *)

(** A line in plain text. *)
Definition anyPlain (blob : bytes) : bool := existsb (fun l => negb (bool_decide (l = [])) && negb (startsWith kLinePrefix l)) (splitLines blob).

Definition isJsonl (path : bytes) : bool := (6 <? length path)%nat && bool_decide (drop (length path - 6) path = #".jsonl").

Definition counted (r : bool * Disk) : Z * Disk := ((if r.1 then 1 else 0)%Z, r.2).

Definition migrateFile (path : bytes) (d : Disk) : Z * Disk :=
  let blob := rawRead path d in
  if negb (enabled d) || bool_decide (blob = []) then (0%Z, d)
  else if isJsonl path then
    if negb (anyPlain blob) then (0%Z, d) else counted (writeLines path (readLines path d) d)
  else
    let hasLines := negb (bool_decide (prefixAt blob 0 = [])) in
    if isSealed blob then
      if negb hasLines || bool_decide (is_Some (open (g_key d) blob)) then (0%Z, d)
      else
        let lines := linesOf (g_key d) blob in
        if bool_decide (lines = []) then (0%Z, d) else counted (writeLines path lines d)
    else if hasLines then
      if anyPlain blob then counted (writeLines path (readLines path d) d) else (0%Z, d)
    else
      let (sealed, d) := sealForDisk blob false d in
      match sealed with Some s => counted (rawWrite path s d) | None => (0%Z, d) end.

(** What follows the last slash. *)
Fixpoint nameOf (path : bytes) : bytes :=
  match path with
  | [] => []
  | c :: rest => if bool_decide ("/"%byte ∈ rest) then nameOf rest else if bool_decide (c = "/"%byte) then rest else path
  end.

Definition isMigrated (skipPrefix path : bytes) : bool :=
  let name := nameOf path in
  negb (negb (bool_decide (skipPrefix = [])) && startsWith skipPrefix name)
  && negb ((4 <? length name)%nat && bool_decide (drop (length name - 4) name = #".tmp")).

(** [entries]: the regular files of the directory, in its order. *)
Definition migrateDir (entries : list bytes) (dir skipPrefix : bytes) (d : Disk) : Z * Disk :=
  if negb (enabled d) || bool_decide (dir = []) then (0%Z, d)
  else foldl (fun r path => let (n, d) := migrateFile path r.2 in ((r.1 + n)%Z, d)) (0%Z, d) (List.filter (isMigrated skipPrefix) entries).

(** [entries]: the names of the directory; [removes] tells whether an entry can
    be removed. An entry goes with all that is below it. *)
Definition removeEntry (path : bytes) (d : Disk) : Disk :=
  set_files (filter (fun kv => kv.1 <> path /\ startsWith (path ++ #"/") kv.1 = false) (files d)) d.

Definition removePrefixed (entries : list bytes) (removes : bytes -> bool) (dir prefix : bytes) (keep : list bytes) (d : Disk)
    : Z * list bytes * Disk :=
  if bool_decide (dir = []) || bool_decide (prefix = []) then (0%Z, [], d)
  else
    foldl (fun r name =>
      let '(n, failed, d) := r in
      if removes name then ((n + 1)%Z, failed, removeEntry (dir ++ #"/" ++ name) d) else (n, failed ++ [name], d))
      (0%Z, [], d) (List.filter (fun name => startsWith prefix name && negb (bool_decide (name ∈ keep))) entries).
End Code.

(** ** Laws of the cipher *)

Class CipherLaws {Ci : Cipher} : Prop := {
  law_open key iv plain out : evp_seal key iv plain = Some out ->
    (kTagLen <= length out)%nat /\ evp_open key iv (take (length out - kTagLen) out) (drop (length out - kTagLen) out) = Some plain;
  law_block raw : raw <> [] -> let b64 := encodeBlock raw in
    length b64 `mod` 4 = 0%nat /\ b64 <> [] /\ x0a ∉ b64 /\ x0d ∉ b64 /\
    decodeBlock b64 = Some (raw ++ replicate (trailing "="%byte (reverse b64)) x00)
}.

Section Lines.
Context {Ci : Cipher} {Laws : CipherLaws}.

Lemma b64_reads (raw : bytes) : raw <> [] -> b64decode (b64encode raw) = Some raw.
Proof.
  intros N. destruct (law_block raw N) as (M & N' & _ & _ & D). unfold b64encode. destruct raw as [|x raw]; [done|].
  set (b64 := encodeBlock (x :: raw)) in *. unfold b64decode, padded. rewrite M. cbn [Nat.sub Nat.modulo Nat.divmod fst snd replicate].
  change ((4 - 0) `mod` 4)%nat with 0%nat. cbn [replicate]. rewrite app_nil_r. destruct b64 as [|c b64]; [done|]. rewrite D.
  rewrite length_app, length_replicate. f_equal. set (n := trailing _ _). replace (length (x :: raw) + n - n)%nat with (length (x :: raw)) by lia.
  by rewrite take_app_length.
Qed.

(** The key, the guards and the files are as before. *)
Definition sameFiles (d d' : Disk) : Prop :=
  files d' = files d /\ g_key d' = g_key d /\ g_required d' = g_required d /\ g_blocked d' = g_blocked d /\ faults d' = faults d.

Lemma gcmSeal_same key plain d : sameFiles d (gcmSeal key plain d).2.
Proof. unfold gcmSeal. by destruct (negb _). Qed.

Lemma gcm_opens key plain d s : (gcmSeal key plain d).1 = Some s -> gcmOpen key s = Some plain /\ s <> [].
Proof.
  unfold gcmSeal. destruct (negb _) eqn:L; [done|]. apply negb_false_iff, Nat.eqb_eq in L. set (iv := rand (draws d)) in *.
  cbn [fst]. destruct (evp_seal key iv plain) as [out|] eqn:E; [|done]. intros [= <-]. destruct (law_open _ _ _ _ E) as [T O]. unfold gcmOpen.
  rewrite length_app, L. destruct (Nat.ltb_spec (kIvLen + length out) (kIvLen + kTagLen)); [unfold kIvLen, kTagLen in *; lia|].
  assert (take kIvLen (iv ++ out) = iv) as -> by (rewrite <- L; apply take_app_length).
  assert (drop kIvLen (iv ++ out) = out) as -> by (rewrite <- L; apply drop_app_length).
  split; [|destruct iv; [by cbn in L|done]].
  replace (kIvLen + length out - kIvLen - kTagLen)%nat with (length out - kTagLen)%nat by lia.
  rewrite drop_app, L. rewrite (drop_ge iv) by (rewrite L; unfold kTagLen in *; lia).
  by replace (kIvLen + length out - kTagLen - kIvLen)%nat with (length out - kTagLen)%nat by lia.
Qed.

(** *** Lines *)

(** A line that is not mistaken for something else when it is written as it is. *)
Definition plainLine (l : bytes) : Prop := l <> [] /\ x0a ∉ l /\ endByte l <> Some x0d /\ take kMagicLen l <> kMagic.

(** How a line is on the disk: as it is or sealed. *)
Inductive written (key : bytes) : bytes -> bytes -> Prop :=
| as_plain l : plainLine l -> written key l l
| as_sealed l s : plainLine l -> key <> [] -> s <> [] -> gcmOpen key s = Some l -> written key (kLinePrefix ++ b64encode s) l.

Definition fileOf (encs : list bytes) : bytes := encs ≫= fun e => e ++ [x0a].
Definition holds (key blob : bytes) (ls : list bytes) : Prop := exists encs, Forall2 (written key) encs ls /\ blob = fileOf encs.

Lemma b64encode_clean (s : bytes) : s <> [] -> x0a ∉ b64encode s /\ x0d ∉ b64encode s.
Proof. intros N. destruct (law_block s N) as (_ & _ & A & B & _). by destruct s. Qed.

Lemma written_clean key e l : written key e l -> e <> [] /\ x0a ∉ e /\ endByte e <> Some x0d.
Proof.
  intros [? (N & A & E & _)|? s _ _ N _]; [done|]. destruct (b64encode_clean s N) as [A B].
  assert (x0a ∉ kLinePrefix ++ b64encode s) as A' by (rewrite elem_of_app; intros [H|H]; [revert H; apply (bool_decide_unpack (_ ∉ _)); vm_compute; exact I|done]).
  assert (x0d ∉ kLinePrefix ++ b64encode s) as B' by (rewrite elem_of_app; intros [H|H]; [revert H; apply (bool_decide_unpack (_ ∉ _)); vm_compute; exact I|done]).
  split_and!; [done|done|]. intros E. apply B'. unfold endByte in E. by eapply list_elem_of_lookup_2.
Qed.

Lemma splitLines_line (l rest : bytes) : x0a ∉ l -> splitLines (l ++ x0a :: rest) = l :: splitLines rest.
Proof.
  induction l as [|c l IH]; intros N; cbn [app splitLines]; [by rewrite bool_decide_eq_true_2|].
  apply not_elem_of_cons in N as [Nc Nl]. rewrite bool_decide_eq_false_2 by congruence. by rewrite IH.
Qed.

Lemma splitLines_file (encs : list bytes) : Forall (fun e => x0a ∉ e) encs -> splitLines (fileOf encs) = encs.
Proof.
  induction 1 as [|e encs N _ IH]; [done|]. change (fileOf (e :: encs)) with ((e ++ [x0a]) ++ fileOf encs).
  rewrite <- app_assoc. cbn [app]. by rewrite splitLines_line, IH.
Qed.

Lemma startsWith_prefix (p s : bytes) : startsWith p (p ++ s) = true.
Proof. unfold startsWith. rewrite take_app_length. by apply bool_decide_eq_true. Qed.

Lemma plain_not_prefixed (l : bytes) : take kMagicLen l <> kMagic -> startsWith kLinePrefix l = false.
Proof.
  intros N. apply bool_decide_eq_false. intros E. apply N. change (length kLinePrefix) with 6%nat in E.
  assert (take 5 (take 6 l) = take 5 kLinePrefix) as F by (by rewrite E). rewrite take_take in F. exact F.
Qed.

Lemma readLine_written key e l : written key e l -> readLine key e = Some l.
Proof.
  intros W. pose proof (written_clean key e l W) as (N & _ & E). unfold readLine, popCr. rewrite bool_decide_eq_false_2 by done.
  destruct W as [l (_ & _ & _ & M)|l s _ K Ns O].
  - destruct l; [done|]. unfold openLine. by rewrite (plain_not_prefixed _ M).
  - destruct (kLinePrefix ++ b64encode s) eqn:X; [done|]. rewrite <- X. unfold openLine. rewrite startsWith_prefix. cbn [negb].
    destruct key; [done|]. by rewrite drop_app_length, b64_reads.
Qed.

(** The file of lines is not taken for a sealed one. *)
Lemma written_head key e l (rest : bytes) : written key e l -> isSealed (e ++ x0a :: rest) = false.
Proof.
  intros W. unfold isSealed. destruct W as [l (N & A & _ & M)|l s _ _ _ _].
  - assert (startsWith kMagic (l ++ x0a :: rest) = false) as ->; [|by rewrite andb_false_r].
    apply bool_decide_eq_false. intros E. change (length kMagic) with 5%nat in E. change kMagicLen with 5%nat in M.
    destruct (le_lt_dec 5 (length l)) as [L|L].
    + rewrite take_app_le in E by done. done.
    + assert (x0a ∈ take 5 (l ++ x0a :: rest)) as X.
      { apply list_elem_of_lookup. exists (length l). rewrite lookup_take_lt by lia. by rewrite list_lookup_middle. }
      rewrite E in X. revert X. apply (bool_decide_unpack (_ ∉ _)). vm_compute. exact I.
  - rewrite (bool_decide_eq_true_2 (_ !! kMagicLen = _)); [by rewrite andb_false_r|]. by rewrite <- app_assoc.
Qed.

Lemma linesOf_holds key blob ls : holds key blob ls -> linesOf key blob = ls.
Proof.
  intros (encs & W & ->). unfold linesOf.
  assert (isSealed (fileOf encs) = false) as ->.
  { destruct W as [|e l encs ls We W]; [done|]. change (fileOf (e :: encs)) with ((e ++ [x0a]) ++ fileOf encs).
    rewrite <- app_assoc. by eapply written_head. }
  rewrite splitLines_file.
  - induction W as [|e l encs ls We W IH]; [done|]. cbn. rewrite (readLine_written key e l We). f_equal. exact IH.
  - induction W as [|e l encs ls We W IH]; constructor; [by eapply written_clean|done].
Qed.

Lemma holds_nil key : holds key [] [].
Proof. by exists []. Qed.

Lemma holds_snoc key blob ls e l : holds key blob ls -> written key e l -> holds key (blob ++ e ++ [x0a]) (ls ++ [l]).
Proof.
  intros (encs & W & ->) We. exists (encs ++ [e]). split; [by apply Forall2_app; [|constructor]|].
  unfold fileOf. rewrite bind_app. cbn. by rewrite app_nil_r.
Qed.

Lemma holds_cons key blob ls e l : written key e l -> holds key blob ls -> holds key (e ++ x0a :: blob) (l :: ls).
Proof. intros We (encs & W & ->). exists (e :: encs). split; [by constructor|]. cbn. by rewrite <- app_assoc. Qed.

Lemma holds_plain key blob ls : holds key blob ls -> Forall plainLine ls.
Proof. intros (encs & W & _). induction W as [|e l encs ls We W IH]; constructor; [by destruct We|done]. Qed.

(** A key that comes to a device without one. *)
Lemma holds_key key blob ls : holds [] blob ls -> holds key blob ls.
Proof. intros (encs & W & E). exists encs. split; [|done]. eapply Forall2_impl; [|exact W]. intros e l []; [by constructor|done]. Qed.

Lemma sealForDisk_same plain line d : sameFiles d (sealForDisk plain line d).2.
Proof.
  unfold sealForDisk. destruct (g_key d) as [|x k] eqn:K; [by repeat split|]. pose proof (gcmSeal_same (x :: k) plain d) as S.
  destruct (gcmSeal (x :: k) plain d) as [s d']. exact S.
Qed.

Lemma sealForDisk_written plain d e : plainLine plain -> (sealForDisk plain true d).1 = Some e -> written (g_key d) e plain.
Proof.
  intros P. unfold sealForDisk. destruct (g_key d) as [|x k] eqn:K.
  - cbn. destruct (g_required d); [done|]. intros [= <-]. by constructor.
  - pose proof (gcm_opens (x :: k) plain d) as O. destruct (gcmSeal (x :: k) plain d) as [s d']. cbn in *. destruct s as [s|].
    + intros [= <-]. destruct (O s eq_refl) as [Op N]. apply (as_sealed (x :: k) plain s P); done.
    + destruct (g_required d); [done|]. intros [= <-]. by constructor.
Qed.

Lemma sameFiles_trans d1 d2 d3 : sameFiles d1 d2 -> sameFiles d2 d3 -> sameFiles d1 d3.
Proof. unfold sameFiles. intros (?&?&?&?&?) (?&?&?&?&?). split_and!; congruence. Qed.

Lemma sealLines_same ls : forall d, sameFiles d (sealLines ls d).2.
Proof.
  induction ls as [|l ls IH]; intros d; cbn [sealLines]; [by repeat split|]. pose proof (sealForDisk_same l true d) as S.
  destruct (sealForDisk l true d) as [[e|] d1]; [|exact S]. specialize (IH d1). destruct (sealLines ls d1) as [r d2]. by eapply sameFiles_trans.
Qed.

Lemma sealLines_holds ls : Forall plainLine ls -> forall d data, (sealLines ls d).1 = Some data -> holds (g_key d) data ls.
Proof.
  induction 1 as [|l ls P _ IH]; intros d data; cbn [sealLines]; [intros [= <-]; apply holds_nil|].
  pose proof (sealForDisk_same l true d) as (_ & K & _). pose proof (sealForDisk_written l d) as W. destruct (sealForDisk l true d) as [[e|] d1]; [|done].
  specialize (IH d1). destruct (sealLines ls d1) as [[r|] d2]; [|done]. intros [= <-]. apply holds_cons; [by apply W|]. cbn in K. rewrite <- K. by apply IH.
Qed.

(** *** Writing *)

(** What the next write will meet; bytes lost at its close, and a line cut short. *)
Definition nextMet (d : Disk) : Fault := default NoFault (head (faults d)).
Definition lostAtClose (f : Fault) : bool := match f with LateShort _ => true | _ => false end.
Definition cutShort (f : Fault) : bool := match f with Short _ | LateShort _ => true | _ => false end.

Lemma tmpOf_ne (path : bytes) : tmpOf path <> path.
Proof. intros E. apply (f_equal length) in E. unfold tmpOf in E. rewrite length_app in E. cbn in E. lia. Qed.

Lemma rawRead_put (path bs : bytes) (d : Disk) : rawRead path (set_files (<[path := bs]> (files d)) d) = bs.
Proof. unfold rawRead. cbn. by rewrite lookup_insert_eq. Qed.

(** The guards are as before. *)
Definition guarded (d d' : Disk) : Prop := g_key d' = g_key d /\ g_required d' = g_required d /\ g_blocked d' = g_blocked d.

Lemma nextFault_guarded d : files (nextFault d).2 = files d /\ guarded d (nextFault d).2 /\ (nextFault d).1 = nextMet d.
Proof. unfold nextFault, nextMet. by destruct (faults d). Qed.

(** A file is replaced as a whole or stays; another file stays, but for the
    temporary one. *)
Lemma rawWrite_spec (path data : bytes) (d : Disk) : lostAtClose (nextMet d) = false ->
  let r := rawWrite path data d in
  guarded d r.2 /\ rawRead path r.2 = (if r.1 then data else rawRead path d) /\
  forall p, p <> path -> p <> tmpOf path -> files r.2 !! p = files d !! p.
Proof.
  intros C. unfold rawWrite. destruct (g_blocked d); [by split_and!|]. unfold rawWriteUnfenced.
  destruct (nextFault_guarded d) as (Ef & G & Cl). rewrite <- Cl in C. destruct (nextFault d) as [f d']. cbn in *.
  destruct f; try done; cbn; unfold rawRead in *; cbn; rewrite ?Ef.
  - split_and!; [exact G|by rewrite lookup_insert_eq|]. intros p N1 N2. rewrite lookup_insert_ne, lookup_delete_ne; congruence.
  - by split_and!.
  - split_and!; [exact G|by rewrite lookup_insert_ne by apply tmpOf_ne|]. intros p N1 N2. by rewrite lookup_insert_ne.
  - split_and!; [exact G|by rewrite lookup_delete_ne by apply tmpOf_ne|]. intros p N1 N2. by rewrite lookup_delete_ne.
Qed.

(** ** A journal of lines *)

(** What is done with a file of lines, and with the guards. *)
Inductive Op := Append (line : bytes) | Rewrite (lines : list bytes) | Migrate | Key (key : bytes) | Require (b : bool) | Block | Allow.

Definition apply (path : bytes) (op : Op) (d : Disk) : bool * Disk :=
  match op with
  | Append l => appendLine path l d
  | Rewrite ls => writeLines path ls d
  | Migrate => let r := migrateFile path d in ((r.1 =? 1)%Z, r.2)
  | Key k => (true, setKey k d)
  | Require b => (true, setRequired b d)
  | Block => (true, blockWrites d)
  | Allow => (true, allowWrites d)
  end.

(** The same of a list of lines, given what the operation answered. *)
Definition specApply (op : Op) (ok : bool) (js : list bytes) : list bytes :=
  match op with
  | Append l => if ok then js ++ [l] else js
  | Rewrite ls => if ok then ls else js
  | _ => js
  end.

Fixpoint run (path : bytes) (ops : list Op) (d : Disk) : Disk :=
  match ops with [] => d | op :: ops => run path ops (apply path op d).2 end.
Fixpoint specRun (path : bytes) (ops : list Op) (d : Disk) (js : list bytes) : list bytes :=
  match ops with [] => js | op :: ops => specRun path ops (apply path op d).2 (specApply op (apply path op d).1 js) end.

(** Lines are plain; a key comes to a device without one; a line is not appended in
    part; a file that is rewritten loses nothing at its close; and only a file that
    is named as one of lines is migrated. *)
Definition okOp (path : bytes) (op : Op) (d : Disk) : Prop :=
  match op with
  | Append l => plainLine l /\ cutShort (nextMet d) = false
  | Rewrite ls => Forall plainLine ls /\ lostAtClose (nextMet d) = false
  | Migrate => isJsonl path = true /\ lostAtClose (nextMet d) = false
  | Key _ => g_key d = []
  | _ => True
  end.
Fixpoint okRun (path : bytes) (ops : list Op) (d : Disk) : Prop :=
  match ops with [] => True | op :: ops => okOp path op d /\ okRun path ops (apply path op d).2 end.

Definition journal (path : bytes) (d : Disk) (js : list bytes) : Prop := holds (g_key d) (rawRead path d) js.

Lemma nextMet_same (d d' : Disk) : sameFiles d d' -> nextMet d' = nextMet d.
Proof. intros (_ & _ & _ & _ & F). unfold nextMet. by rewrite F. Qed.

Lemma journal_writeLines path ls d js : Forall plainLine ls -> lostAtClose (nextMet d) = false -> journal path d js ->
  journal path (writeLines path ls d).2 (if (writeLines path ls d).1 then ls else js).
Proof.
  unfold journal. intros P C J. unfold writeLines. pose proof (sealLines_same ls d) as S. pose proof (sealLines_holds ls P d) as W.
  destruct (sealLines ls d) as [data d1]. cbn [fst snd] in *. rewrite <- (nextMet_same _ _ S) in C. destruct S as (Ef & Ek & _).
  destruct data as [s|]; [|unfold rawRead in *; cbn; by rewrite ?Ef, ?Ek].
  destruct (rawWrite_spec path s d1 C) as ((Gk & _) & R & _). rewrite R, Gk, Ek. destruct (rawWrite path s d1).1; [by apply W|].
  unfold rawRead in *. by rewrite Ef.
Qed.

Lemma journal_append path l d js : plainLine l -> cutShort (nextMet d) = false -> journal path d js ->
  journal path (appendLine path l d).2 (if (appendLine path l d).1 then js ++ [l] else js).
Proof.
  unfold journal. intros P C J. unfold appendLine. pose proof (sealForDisk_same l true d) as S. pose proof (sealForDisk_written l d) as W.
  destruct (sealForDisk l true d) as [e d1]; cbn [fst snd] in *. rewrite <- (nextMet_same _ _ S) in C. destruct S as (Ef & Ek & _).
  assert (holds (g_key d1) (rawRead path d1) js) as J1 by (unfold rawRead in *; by rewrite Ef, Ek). destruct e as [e|]; [|exact J1].
  destruct (g_blocked d1); [exact J1|]. destruct (nextFault_guarded d1) as (Nf & (Gk & _) & Cl). rewrite <- Cl in C.
  destruct (nextFault d1) as [f d2]. cbn [fst snd] in *. assert (rawRead path d2 = rawRead path d1) as R by (unfold rawRead; by rewrite Nf).
  assert (holds (g_key d2) (rawRead path d1 ++ e ++ [x0a]) (js ++ [l])) as G by (rewrite Gk; apply holds_snoc; [exact J1|]; rewrite Ek; by apply W).
  destruct f; try done; cbn [fst snd]; rewrite ?rawRead_put; cbn [g_key set_files]; rewrite R; first [exact G|rewrite Gk; exact J1].
Qed.

Lemma journal_apply path op d js : okOp path op d -> journal path d js ->
  journal path (apply path op d).2 (specApply op (apply path op d).1 js).
Proof.
  intros O J. destruct op as [l|ls| |k|b| |]; cbn [apply specApply okOp fst snd] in *; try exact J.
  - destruct O as [P C]. by apply journal_append.
  - destruct O as [P C]. by apply journal_writeLines.
  - destruct O as [Jl C]. unfold migrateFile. destruct (negb (enabled d) || _); [exact J|]. rewrite Jl. destruct (negb (anyPlain _)); [exact J|].
    assert (readLines path d = js) as -> by (by apply linesOf_holds). pose proof (journal_writeLines path js d js (holds_plain _ _ _ J) C J) as W.
    unfold counted. cbn [snd]. by destruct (writeLines path js d).1.
  - unfold journal in *. rewrite O in J. unfold rawRead. by apply holds_key.
Qed.

(** Claim C13 (journal_refines): a file that is a list of lines, each as it is or
    sealed, stays one. Whatever is appended, rewritten and migrated, also when the
    file is not opened or not renamed, when a rewriting is cut short, or when there
    is no key or the fence refuses the write, and a first key may come at any time:
    what is read from the file is what the operations, by what they answered, did
    to the list. Lines are not empty, have no end of line and do not begin as a
    sealed one; a file that is migrated is named as one of lines; no append is cut
    short and no bytes are lost at a close, which the code does not see
    (torn_line_spoils_next, cut_file_reported_written). *)
Theorem journal_refines (path : bytes) (ops : list Op) (d : Disk) (js : list bytes) :
  holds (g_key d) (rawRead path d) js -> okRun path ops d -> readLines path (run path ops d) = specRun path ops d js.
Proof.
  change (holds (g_key d) (rawRead path d) js) with (journal path d js).
  revert d js. induction ops as [|op ops IH]; intros d js J O; cbn [run specRun].
  - by apply linesOf_holds.
  - destruct O as [O1 O2]. apply IH; [|exact O2]. by apply journal_apply.
Qed.

(** ** Whole files *)

Lemma sealed_opens (d : Disk) (s data : bytes) : g_key d <> [] -> gcmOpen (g_key d) s = Some data -> open (g_key d) (kMagic ++ x00 :: s) = Some data.
Proof.
  intros K O. unfold open. assert (isSealed (kMagic ++ x00 :: s) = true) as ->.
  { unfold isSealed. rewrite startsWith_prefix. assert ((kMagicLen <? length (kMagic ++ x00 :: s))%nat = true) as -> by (by apply Nat.ltb_lt; rewrite length_app; cbn; lia). done. }
  cbn [negb]. destruct (g_key d) as [|x k]; [done|].
  assert (hasBinarySeparator (kMagic ++ x00 :: s) = true) as ->; [|exact O].
  unfold hasBinarySeparator. apply andb_true_iff. split; [apply Nat.ltb_lt; rewrite length_app; cbn; lia|done].
Qed.

Lemma sealForDisk_opens (plain : bytes) (d : Disk) e : isSealed plain = false -> (sealForDisk plain false d).1 = Some e -> open (g_key d) e = Some plain.
Proof.
  intros P. unfold sealForDisk. destruct (g_key d) as [|x k] eqn:K.
  - cbn. destruct (g_required d); [done|]. intros [= <-]. unfold open. by rewrite P.
  - pose proof (gcm_opens (x :: k) plain d) as O. destruct (gcmSeal (x :: k) plain d) as [s d']. cbn in *. destruct s as [s|].
    + intros [= <-]. rewrite <- K in *. apply sealed_opens; [by rewrite K|]. by apply (O s eq_refl).
    + destruct (g_required d); [done|]. intros [= <-]. unfold open. by rewrite P.
Qed.

Lemma readFile_open (path blob data : bytes) (d : Disk) : rawRead path d = blob -> open (g_key d) blob = Some data -> isSealed data = false ->
  readFile path d = data.
Proof.
  intros E O P. unfold readFile. rewrite E. destruct blob as [|c blob]; [by injection O|]. by rewrite O.
Qed.

(** Claim C24 (file_reads_back): after a write of a whole file its reader gets what
    was written when the write was reported as done, and what was there before
    when it was not: refused for want of a key or by the fence, not opened, cut
    short or not renamed, sealed or not. The data may not themselves begin as a
    sealed file does, and no bytes are lost when the file is closed, which the code
    does not see (cut_file_reported_written). *)
Theorem file_reads_back (path data : bytes) (d : Disk) : isSealed data = false -> lostAtClose (nextMet d) = false ->
  let r := writeFile path data d in readFile path r.2 = if r.1 then data else readFile path d.
Proof.
  intros P C. cbv zeta. unfold writeFile. pose proof (sealForDisk_same data false d) as S. pose proof (sealForDisk_opens data d) as O.
  destruct (sealForDisk data false d) as [e d1]; cbn [fst snd] in *. rewrite <- (nextMet_same _ _ S) in C. destruct S as (Ef & Ek & _).
  destruct e as [e|]; [|cbn [fst snd]; unfold readFile, rawRead; by rewrite Ef, Ek].
  destruct (rawWrite_spec path e d1 C) as ((Gk & _) & R & _). destruct (rawWrite path e d1) as [ok d2]. cbn [fst snd] in *. destruct ok.
  - eapply readFile_open; [exact R| |exact P]. rewrite Gk, Ek. by apply O.
  - unfold readFile. rewrite R, Gk, Ek. unfold rawRead. by rewrite Ef.
Qed.

(** Property (migrated_reads_same): a file that is migrated reads as before, also
    when it cannot be written. *)
Theorem migrated_reads_same (path : bytes) (d : Disk) : isJsonl path = false -> prefixAt (rawRead path d) 0 = [] ->
  lostAtClose (nextMet d) = false -> readFile path (migrateFile path d).2 = readFile path d.
Proof.
  intros Jl L C. unfold migrateFile. destruct (negb (enabled d) || _); [done|]. rewrite Jl, L.
  rewrite (bool_decide_eq_true_2 ([] = [])) by done. cbn [negb orb].
  destruct (isSealed (rawRead path d)) eqn:P; [done|].
  assert (readFile path d = rawRead path d) as F by (unfold readFile; destruct (rawRead path d) eqn:B; [done|]; unfold open; by rewrite P).
  pose proof (sealForDisk_same (rawRead path d) false d) as S. pose proof (sealForDisk_opens (rawRead path d) d) as O.
  destruct (sealForDisk (rawRead path d) false d) as [e d1]; cbn [fst snd] in *. rewrite <- (nextMet_same _ _ S) in C. destruct S as (Ef & Ek & _).
  destruct e as [e|]; [|cbn [fst snd]; unfold readFile, rawRead; by rewrite Ef, Ek].
  destruct (rawWrite_spec path e d1 C) as ((Gk & _) & R & _). unfold counted. cbn [snd]. destruct (rawWrite path e d1) as [ok d2]. cbn [fst snd] in *.
  destruct ok.
  - rewrite F. eapply readFile_open; [exact R| |exact P]. rewrite Gk, Ek. by apply O.
  - unfold readFile. rewrite R, Gk, Ek. unfold rawRead. by rewrite Ef.
Qed.
End Lines.

(** ** The guards *)

Section Guards.
Context {Ci : Cipher}.

(** The helpers that write. *)
Inductive Helper :=
| HFile (path data : bytes)
| HAppend (path line : bytes)
| HLines (path : bytes) (lines : list bytes)
| HMigrate (path : bytes)
| HDirectory (entries : list bytes) (dir skip : bytes)
| HRaw (path data : bytes).

Definition helper (h : Helper) (d : Disk) : Disk :=
  match h with
  | HFile p x => (writeFile p x d).2
  | HAppend p l => (appendLine p l d).2
  | HLines p ls => (writeLines p ls d).2
  | HMigrate p => (migrateFile p d).2
  | HDirectory es dir skip => (migrateDir es dir skip d).2
  | HRaw p x => (writeRawFile p x d).2
  end.

(** The fence is up; or a key is required and there is none, and the file is not
    one that is never sealed or one without lines, which is written. *)
Definition guardedBy (d : Disk) (h : Helper) : Prop :=
  g_blocked d = true \/ (g_required d = true /\ g_key d = [] /\ match h with HRaw _ _ | HLines _ [] => False | _ => True end).

(** Nothing but the draws of random bytes. *)
Definition untouched (d d' : Disk) : Prop := files d' = files d /\ g_key d' = g_key d /\ g_required d' = g_required d /\ g_blocked d' = g_blocked d.

Lemma untouched_refl d : untouched d d.
Proof. by repeat split. Qed.
Lemma untouched_trans d1 d2 d3 : untouched d1 d2 -> untouched d2 d3 -> untouched d1 d3.
Proof. intros (?&?&?&?) (?&?&?&?). split_and!; congruence. Qed.

Lemma sealForDisk_untouched plain line d : untouched d (sealForDisk plain line d).2 /\
  (g_required d = true -> g_key d = [] -> (sealForDisk plain line d).1 = None).
Proof.
  unfold sealForDisk. destruct (g_key d) as [|x k] eqn:K; [split; [by repeat split|by intros ->]|].
  assert (untouched d (gcmSeal (x :: k) plain d).2) as U by (unfold gcmSeal; by destruct (negb _)).
  destruct (gcmSeal (x :: k) plain d) as [s d']. by split.
Qed.

Lemma sealLines_untouched ls : forall d, untouched d (sealLines ls d).2 /\
  (g_required d = true -> g_key d = [] -> ls <> [] -> (sealLines ls d).1 = None).
Proof.
  induction ls as [|l ls IH]; intros d; cbn [sealLines]; [by split|]. destruct (sealForDisk_untouched l true d) as [U N].
  destruct (sealForDisk l true d) as [[e|] d1]; cbn [fst snd] in *; [|by split]. destruct (IH d1) as [U' _].
  destruct (sealLines ls d1) as [r d2]. split; [by eapply untouched_trans|]. intros R K. by specialize (N R K).
Qed.

Lemma rawWrite_untouched path data d : g_blocked d = true -> untouched d (rawWrite path data d).2.
Proof. intros B. unfold rawWrite. by rewrite B. Qed.

Lemma enabled_no_key d : g_key d = [] -> enabled d = false.
Proof. intros K. unfold enabled. rewrite K. done. Qed.

Lemma writeLines_untouched path ls d : g_blocked d = true -> untouched d (writeLines path ls d).2.
Proof.
  intros G. unfold writeLines. destruct (sealLines_untouched ls d) as [U _]. destruct (sealLines ls d) as [[e|] d1]; [|exact U].
  eapply untouched_trans; [exact U|]. apply rawWrite_untouched. destruct U as (_ & _ & _ & U). by rewrite <- G.
Qed.

Lemma migrateFile_untouched path d : g_blocked d = true \/ g_key d = [] -> untouched d (migrateFile path d).2.
Proof.
  intros G. unfold migrateFile. destruct (enabled d) eqn:En; [|apply untouched_refl]. cbn [negb orb].
  destruct G as [G|G]; [|by rewrite (enabled_no_key d G) in En].
  repeat (case_match; try apply untouched_refl; unfold counted; cbn [snd]; try by apply writeLines_untouched).
  all: match goal with H : sealForDisk ?b ?l ?e = _ |- _ => destruct (sealForDisk_untouched b l e) as [U _]; rewrite H in U; cbn in U end.
  all: try (eapply untouched_trans; [exact U|]; apply rawWrite_untouched; destruct U as (_ & _ & _ & U); by rewrite U). all: exact U.
Qed.

Lemma helper_untouched h d : guardedBy d h -> untouched d (helper h d).
Proof.
  intros G. destruct h as [p x|p l|p ls|p|es dir skip|p x]; cbn [helper].
  - unfold writeFile. destruct (sealForDisk_untouched x false d) as [U N]. destruct (sealForDisk x false d) as [[e|] d1]; [|exact U].
    eapply untouched_trans; [exact U|]. apply rawWrite_untouched. cbn [fst snd] in *. destruct U as (_ & _ & _ & U). rewrite U. destruct G as [G|(R & K & _)]; [done|]. by specialize (N R K).
  - unfold appendLine. destruct (sealForDisk_untouched l true d) as [U N]. destruct (sealForDisk l true d) as [[e|] d1]; [|exact U].
    destruct G as [G|(R & K & _)]; [|by specialize (N R K)]. cbn [fst snd] in *. pose proof U as (_ & _ & _ & B). rewrite G in B. rewrite B. exact U.
  - destruct G as [G|(R & K & L)]; [by apply writeLines_untouched|]. unfold writeLines. destruct (sealLines_untouched ls d) as [U N].
    specialize (N R K). destruct (sealLines ls d) as [[e|] d1]; [|exact U]. destruct ls; [done|]. by specialize (N ltac:(done)).
  - apply migrateFile_untouched. destruct G as [G|(_ & K & _)]; auto.
  - unfold migrateDir. destruct (_ || _); [apply untouched_refl|]. assert (g_blocked d = true \/ g_key d = []) as G' by (destruct G as [G|(_ & K & _)]; auto).
    clear G. assert (forall l n e, untouched d e -> untouched d (foldl (fun r path => let (n, d) := migrateFile path r.2 in ((r.1 + n)%Z, d)) (n, e) l).2) as F.
    { induction l as [|q l IH]; intros n e U; [exact U|]. cbn [foldl fst snd].
      pose proof (migrateFile_untouched q e) as M. destruct (migrateFile q e) as [m e']. cbn [fst snd] in *. apply IH.
      eapply untouched_trans; [exact U|]. apply M. destruct U as (_ & K & _ & B). by rewrite K, B. }
    apply F, untouched_refl.
  - destruct G as [G|(_ & _ & [])]. by apply rawWrite_untouched.
Qed.

(** Claim C23 (guards_hold): behind the fence the helpers that write (writeFile,
    appendLine, writeLines, migrateFile, migrateDir, writeRawFile) change no file,
    and where a key is required and there is none those of them that seal do not,
    but for writeLines of no lines (no_lines_not_refused); whatever of these is
    called, how often and in what order. removePrefixed, which deletes files, asks
    neither guard and is not among them. *)
Theorem guards_hold (hs : list Helper) (d : Disk) : Forall (guardedBy d) hs -> files (foldl (fun d h => helper h d) d hs) = files d.
Proof.
  intros G. cut (untouched d (foldl (fun d h => helper h d) d hs)); [by intros (E & _)|].
  assert (forall e, untouched d e -> untouched d (foldl (fun d h => helper h d) e hs)) as F; [|apply F, untouched_refl].
  induction G as [|h hs Gh _ IH]; intros e U; [exact U|]. cbn [foldl]. apply IH. eapply untouched_trans; [exact U|].
  apply helper_untouched. destruct U as (_ & K & R & B). unfold guardedBy in *. by rewrite K, R, B.
Qed.
End Guards.

(** ** A cipher to run with *)

Definition zeros (n : nat) : bytes := replicate n x00.
#[local] Instance toy : Cipher := {
  rand _ := zeros 12;
  evp_seal key iv plain := Some (plain ++ zeros 16);
  evp_open key iv body tag := if bool_decide (tag = zeros 16) then Some body else None;
  encodeBlock := Crypto.b64encode;
  decodeBlock b64 := (fun out => out ++ zeros (trailing "="%byte (reverse b64))) <$> Crypto.b64decode b64;
  evp_sha256 x := take 32 x
}.

Lemma b64encode_length (raw : bytes) : length (Crypto.b64encode raw) `mod` 4 = 0%nat /\ (raw <> [] -> Crypto.b64encode raw <> []).
Proof.
  induction raw as [|a|a b|a b c l [IH _]] using list_ind3; [done|done|done|]. split; [|done].
  cbn [Crypto.b64encode length]. set (n := length _) in *. clearbody n.
  replace (S (S (S (S n)))) with (n + 1 * 4)%nat by lia. by rewrite Nat.Div0.mod_add.
Qed.

Lemma b64encode_symbols (raw : bytes) : x0a ∉ Crypto.b64encode raw /\ x0d ∉ Crypto.b64encode raw.
Proof.
  rewrite Crypto.b64encode_toBase64. destruct (Crypto.toBase64_symbols raw) as (s & pad & -> & Hs & Hp).
  assert (forall c, Crypto.isSkipped c = true -> c <> "="%byte -> c ∉ (Base64.alpha <$> s) ++ pad) as N.
  { intros c Sk Ne. rewrite elem_of_app. intros [H|H].
    - apply list_elem_of_fmap in H as (i & -> & Hi). apply list_elem_of_In in Hi. rewrite List.Forall_forall in Hs. destruct (Crypto.symbol_plain i (Hs _ Hi)); congruence.
    - apply list_elem_of_In in H. rewrite List.Forall_forall in Hp. by apply Ne, Hp. }
  split; by apply N.
Qed.

#[local] Instance toy_laws : CipherLaws.
Proof.
  split.
  - intros key iv plain out [= <-]. rewrite length_app. unfold kTagLen. change (length (zeros 16)) with 16%nat. split; [lia|].
    replace (length plain + 16 - 16)%nat with (length plain) by lia. cbn. by rewrite take_app_length, drop_app_length.
  - intros raw N. cbv zeta. destruct (b64encode_length raw) as [M E], (b64encode_symbols raw) as [A D]. split_and!; try done; [by apply E|].
    change (decodeBlock (encodeBlock raw)) with ((fun out => out ++ zeros (trailing "="%byte (reverse (Crypto.b64encode raw)))) <$> Crypto.b64decode (Crypto.b64encode raw)).
    by rewrite Crypto.b64decode_b64encode.
Qed.

(** ** Runs *)

Definition aKey : bytes := replicate 32 "k"%byte.
Definition aPath : bytes := #"rows.jsonl".
Definition empty (faults : list Fault) : Disk := mkDisk ∅ [] false false 0 faults.

(** Upon a file of one line: a plain line, a write that fails, the key, a sealed
    line, a rewriting that is cut short, the migration of the plain ones, and a
    line behind the fence. *)
Definition someOps : list Op :=
  [Append (#"{1}"); Append (#"{2}"); Key aKey; Require true; Append (#"{3}"); Rewrite [ #"{5}" ]; Migrate; Block; Append (#"{4}")].
Definition someDisk : Disk := mkDisk {[ aPath := #"{0}" ++ [x0a] ]} [] false false 0 [NoFault; NotOpened; NoFault; Short 3].

Definition someLine (s : bytes) : bool :=
  bool_decide (s <> []) && bool_decide (x0a ∉ s) && bool_decide (endByte s <> Some x0d) && bool_decide (take kMagicLen s <> kMagic).
Lemma someLine_plain (s : bytes) : someLine s = true -> plainLine s.
Proof. unfold someLine. rewrite !andb_true_iff, !bool_decide_eq_true. by intros [[[? ?] ?] ?]. Qed.

Lemma journal_refines_witness : readLines aPath (run aPath someOps someDisk) = [ #"{0}"; #"{1}"; #"{3}" ].
Proof.
  rewrite (journal_refines aPath someOps someDisk [ #"{0}" ]); [vm_compute; reflexivity| |].
  - exists [ #"{0}" ]. split; [|reflexivity]. constructor; [|constructor]. constructor. apply someLine_plain. vm_compute. reflexivity.
  - repeat split; try (apply someLine_plain; vm_compute; reflexivity); try (constructor; [|constructor]; apply someLine_plain; vm_compute; reflexivity).
Defined.

Lemma file_reads_back_witness :
  readFile (#"a") (writeFile (#"a") (#"text") (setKey aKey (empty []))).2 = #"text" /\
  readFile (#"a") (writeFile (#"a") (#"text") (setKey aKey (empty [Short 3]))).2 = [].
Proof.
  split; [rewrite (file_reads_back (#"a") (#"text") (setKey aKey (empty [])))|rewrite (file_reads_back (#"a") (#"text") (setKey aKey (empty [Short 3])))];
    vm_compute; reflexivity.
Defined.

(** No key where one is required, then the fence. *)
Lemma guards_hold_witness :
  files (foldl (fun d h => helper h d) (setRequired true (empty [])) [HFile (#"a") (#"text"); HAppend aPath (#"{1}"); HMigrate aPath]) = ∅.
Proof.
  rewrite (guards_hold [HFile (#"a") (#"text"); HAppend aPath (#"{1}"); HMigrate aPath] (setRequired true (empty []))); [reflexivity|].
  repeat constructor; right; by repeat split.
Defined.

(** The stream is asked for errors before it is closed: what is lost at the close
    is not seen, and the short file takes the place of the whole one. *)
Lemma cut_file_reported_written :
  let d := (writeFile (#"a") (#"first") (empty [NoFault; LateShort 2])).2 in
  (writeFile (#"a") (#"second") d).1 = true /\ readFile (#"a") (writeFile (#"a") (#"second") d).2 = #"se".
Proof. by vm_compute. Qed.

(** A list without lines is written where a key is required and there is none. *)
Lemma no_lines_not_refused :
  let d := (appendLine (#"a") (#"{1}") (empty [])).2 in
  (writeLines (#"a") [] (setRequired true d)).1 = true /\ readLines (#"a") (writeLines (#"a") [] (setRequired true d)).2 = [].
Proof. by vm_compute. Qed.

(** A line that was cut short spoils the one that is appended next. *)
Lemma torn_line_spoils_next :
  let d := (appendLine (#"a") (#"{2}") (appendLine (#"a") (#"{1}") (empty [Short 2])).2).2 in
  readLines (#"a") d = (#"{1{2}") :: nil.
Proof. by vm_compute. Qed.

End StoreCrypt.
