(* ===== verification/HistoryOps.v ===== *)
(** * HistoryOps: rows, marks and operations of the journal of history

    The functions at the head of [src/history_sync.cpp] that need no engine: how
    fields of the engine's JSON are read, the order of messages, the key of a
    chat, the operations and what they are about. A double outside of the range
    of [int64_t] is undefined to cast; the model gives 0. *)

From S2P Require Import Prelude Json DomainSync PlannerUtil PlannerJson Poll Reminders CloudJson StoreCrypt.
Import Base64 StoreCrypt.

Module HistoryOps.

#[local] Open Scope Z_scope.

Definition kSeenCap : nat := Z.to_nat 50000.
Definition kSyncPages : nat := 1000.
Definition kRejectRetries : Z := 3.
Definition kGetBatch : nat := 64.
Definition kSegmentPartBytes : Z := 120 * 1024.
Definition kHorizonMs : Z := 180 * 24 * 3600 * 1000.

(** ** Reading *)

Definition i64 (v : json) : Z :=
  match v with
  | JInt z => z
  | JUnsigned z => Prelude.i64 z
  | JFloat f => match Poll.truncate f with Ok z => z | Err _ => 0 end
  | JStr s => default 0 (Reminders.stoll s)
  | _ => 0
  end.

Definition u64 (v : json) : Z := if 0 <? i64 v then i64 v else 0.

(** [str] and [field] of the code. *)
Definition strOf (o : json) (k : bytes) : bytes := match jfind k o with Some (JStr s) => s | _ => [] end.
Definition field (o : json) (k : bytes) : json := default JNull (jfind k o).

Definition hexOf (bs : bytes) : bytes := bs ≫= fun c => [hexDigit (Z.shiftr (b2z c) 4); hexDigit (Z.land (b2z c) 15)].

(** The kind of an operation and its body: the first key that is an object. *)
Fixpoint firstKind (ks : list bytes) (op : json) : option (bytes * json) :=
  match ks with
  | [] => None
  | k :: ks => match jfind k op with Some (JObj m) => Some (k, JObj m) | _ => firstKind ks op end
  end.
Definition kinds : list bytes :=
  [ #"row"; #"gone"; #"edit"; #"react"; #"pin"; #"read"; #"state"; #"summary"]%list.
Definition opKind (op : json) : option (bytes * json) := firstKind kinds op.

(** A message is later: by time, then by identifier. *)
Definition posAfter (ts : Z) (id : bytes) (mts : Z) (mid : bytes) : bool := (mts <? ts) || ((ts =? mts) && blt mid id).

Definition markPos (mark : json) : option (Z * bytes) :=
  if is_object mark then Some (i64 (field mark (#"up_to_ts_ms")), strOf mark (#"up_to_id")) else None.

Definition visibleState (s : json) : bool := is_object (field s (#"row")) && negb (is_object (field s (#"gone"))).

(** After the last bar, up to the first hash. *)
Fixpoint afterBar (key : bytes) : option bytes :=
  match key with
  | [] => None
  | c :: key => match afterBar key with
                | Some r => Some r
                | None => if bool_decide (c = "|"%byte) then Some key else None
                end
  end.
Fixpoint beforeHash (m : bytes) : bytes :=
  match m with [] => [] | c :: m => if bool_decide (c = "#"%byte) then [] else c :: beforeHash m end.
Definition monthOfKey (key : bytes) : bytes := beforeHash (default key (afterBar key)).

(** ** Chats, rows and operations *)

Section Code.
Context {Ci : Cipher}.

(** [fromBase64Safe] of [v2_content.cpp]. *)
Definition fromBase64Safe (s : bytes) : option bytes :=
  if bool_decide (s = []) || negb (length s `mod` 4 =? 0)%nat then None
  else match decodeBlock s with
       | Some out => let pad i := if bool_decide (s !! (length s - i)%nat = Some "="%byte) then 1%nat else 0%nat in
                     Some (take (length out - pad 1%nat - pad 2%nat) out)
       | None => None
       end.

Definition chatKeyOf (peer : json) : bytes :=
  match jfind (#"user") peer with
  | Some (JObj u) => match strOf (JObj u) (#"address") with [] => [] | a => #"u:" ++ a end
  | _ =>
      match jfind (#"group") peer with
      | Some (JObj g) => match fromBase64Safe (strOf (JObj g) (#"id")) with
                         | Some (c :: raw) => #"g:" ++ hexOf (c :: raw)
                         | _ => []
                         end
      | _ => []
      end
  end.

Definition chatKeyOfState (state : json) : bytes := chatKeyOf (field state (#"chat")).
End Code.

Definition rowPos (state : json) : option (Z * bytes) :=
  let row := field state (#"row") in
  if negb (is_object row) then None
  else Some (i64 (field row (#"ts_ms")), match strOf state (#"target") with [] => strOf row (#"id") | t => t end).

Definition markAt (state : json) : json :=
  match rowPos state with
  | Some (ts, c :: id) => jobj [(#"chat", field state (#"chat")); (#"up_to_ts_ms", JStr (Decimal.to_string ts)); (#"up_to_id", JStr (c :: id))]
  | _ => JNull
  end.

Definition withAuthor (by_ : bytes) (j : json) : json := match by_ with [] => j | b => jset (#"by") (JStr b) j end.

Definition goneOp (target : bytes) (chat stamp : json) (everyone : bool) (by_ : bytes) (byAdmin : bool) : json :=
  let g := withAuthor by_ (jobj [(#"target", JStr target); (#"chat", chat); (#"stamp", stamp);
             (#"scope", JStr (if everyone then #"GONE_SCOPE_EVERYONE" else #"GONE_SCOPE_ME"))]) in
  jobj [(#"gone", if byAdmin then jset (#"by_admin") (JBool true) g else g)].

(** The text of JSON: [dump] throws where a string is not UTF-8; what does not
    parse is [None]. *)
Class JsonText := {
  dump : json -> result exn bytes;
  parse : bytes -> option json
}.

(** [v2::toBase64]. *)
Definition toBase64 {Ci : Cipher} (raw : bytes) : bytes := match raw with [] => [] | _ => encodeBlock raw end.

Definition editOp {Ci : Cipher} {Tx : JsonText} (target : bytes) (chat stamp editFields : json) (by_ : bytes) : result exn json :=
  let! text := dump editFields in
  Ok (jobj [(#"edit", withAuthor by_ (jobj [(#"target", JStr target); (#"chat", chat); (#"stamp", stamp); (#"body", JStr (toBase64 text))]))]).

Definition reactOp (target : bytes) (chat : json) (user : bytes) (stamp : json) (emoji : bytes) : json :=
  jobj [(#"react", jobj [(#"target", JStr target); (#"chat", chat); (#"user", JStr user); (#"stamp", stamp); (#"emoji", JStr emoji)])].

Definition pinOp (target : bytes) (chat stamp : json) (pinned : bool) : json :=
  jobj [(#"pin", jobj [(#"target", JStr target); (#"chat", chat); (#"stamp", stamp); (#"pinned", JBool pinned)])].

Definition opTarget (op : json) : bytes :=
  match opKind op with
  | None => []
  | Some (kind, body) =>
      if bool_decide (kind = #"row") then strOf body (#"id")
      else if bool_decide (kind = #"read") || bool_decide (kind = #"summary") then []
      else strOf body (#"target")
  end.

Definition opChat (op : json) : json :=
  match opKind op with
  | None => JNull
  | Some (kind, body) => if bool_decide (kind = #"summary") then JNull else field body (#"chat")
  end.

(** [HistorySync::opKey]: what tells operations of the journal apart. *)
Definition opKey (op : json) : bytes :=
  match opKind op with
  | None => []
  | Some (kind, body) =>
      let stampId := strOf (field body (#"stamp")) (#"op_id") in
      let target := strOf body (#"target") in
      if bool_decide (kind = #"row") then #"r:" ++ strOf body (#"id")
      else if bool_decide (kind = #"gone") then #"g:" ++ stampId ++ #":" ++ target
      else if bool_decide (kind = #"edit") then #"e:" ++ stampId ++ #":" ++ target
      else if bool_decide (kind = #"react") then #"x:" ++ stampId ++ #":" ++ target ++ #":" ++ strOf body (#"user")
      else if bool_decide (kind = #"pin") then #"p:" ++ stampId ++ #":" ++ target
      else []
  end.

(** [operator==] of the JSON library: integers by their value, after a cast of an
    unsigned one; an integer as a double beside a double. *)
Section Equal.
#[local] Definition all2 {A} (f : A -> A -> bool) : list A -> list A -> bool :=
  fix go l l' := match l, l' with
                 | [], [] => true
                 | x :: l, y :: l' => f x y && go l l'
                 | _, _ => false
                 end.

Fixpoint jsonEq (a b : json) : bool :=
  match a, b with
  | JNull, JNull => true
  | JBool x, JBool y => Bool.eqb x y
  | JInt x, JInt y | JUnsigned x, JUnsigned y => x =? y
  | JInt x, JUnsigned y => x =? Prelude.i64 y
  | JUnsigned x, JInt y => Prelude.i64 x =? y
  | JFloat x, JFloat y => SFeqb x y
  | JInt x, JFloat y | JUnsigned x, JFloat y => SFeqb (CloudJson.toDouble x) y
  | JFloat x, JInt y | JFloat x, JUnsigned y => SFeqb x (CloudJson.toDouble y)
  | JStr x, JStr y => bool_decide (x = y)
  | JArr l, JArr l' => all2 jsonEq l l'
  | JObj m, JObj m' => all2 (fun kv kv' => bool_decide (kv.1 = kv'.1) && jsonEq kv.2 kv'.2) m m'
  | _, _ => false
  end.
End Equal.

(** ** Messages are in a total order *)

Definition after (p q : Z * bytes) : bool := posAfter p.1 p.2 q.1 q.2.

Lemma after_irrefl p : after p p = false.
Proof. unfold after, posAfter. by rewrite Z.ltb_irrefl, Z.eqb_refl, blt_irrefl. Qed.

Lemma after_trans p q r : after p q = true -> after q r = true -> after p r = true.
Proof.
  unfold after, posAfter. rewrite !orb_true_iff, !andb_true_iff, !Z.ltb_lt, !Z.eqb_eq. intros [A|[A A']] [B|[B B']]; [left; lia..|right].
  split; [lia|]. by eapply blt_trans.
Qed.

Lemma after_total p q : after p q = true \/ after q p = true \/ p = q.
Proof.
  unfold after, posAfter. rewrite !orb_true_iff, !andb_true_iff, !Z.ltb_lt, !Z.eqb_eq.
  destruct (Z.lt_total p.1 q.1) as [L|[E|L]]; [auto| |auto].
  destruct (blt q.2 p.2) eqn:B, (blt p.2 q.2) eqn:B'; [auto..|]. do 2 right.
  destruct p, q; simpl in *. f_equal; [done|]. by apply blt_total.
Qed.

End HistoryOps.
