(* ===== verification/RowStore.v ===== *)
(** * RowStore: the rows of history in files

    Module [RowStore] models [FileRowStore] of [src/history_sync.cpp]: the rows by
    identifier and their index by chat, the read marks, the documents of the
    journal, and the files they are kept in ([StoreCrypt]). Each operation runs
    under the lock of the store. The text of JSON is a parameter ([JsonText]). *)

From S2P Require Import Prelude Json DomainSync PlannerUtil PlannerJson Poll Reminders CloudJson StoreCrypt Host HistoryOps.
Import Base64 Sync StoreCrypt HistoryOps.

Module RowStore.

(** [byChat_] is only asked by key; a set of identifiers is in order. *)
Record FileRowStore := mkStore {
  rows_ : list (bytes * json);
  byChat_ : gmap bytes (list (bytes * unit));
  marks_ : list (bytes * json);
  aux_ : list (bytes * json);
  legacy_ : list json;
  appended_ : nat
}.

Definition noRows : FileRowStore := mkStore [] ∅ [] [] [] 0.

Definition set_rows_ v (r : FileRowStore) : FileRowStore := mkStore v (byChat_ r) (marks_ r) (aux_ r) (legacy_ r) (appended_ r).
Definition set_byChat_ v (r : FileRowStore) : FileRowStore := mkStore (rows_ r) v (marks_ r) (aux_ r) (legacy_ r) (appended_ r).
Definition set_marks_ v (r : FileRowStore) : FileRowStore := mkStore (rows_ r) (byChat_ r) v (aux_ r) (legacy_ r) (appended_ r).
Definition set_aux_ v (r : FileRowStore) : FileRowStore := mkStore (rows_ r) (byChat_ r) (marks_ r) v (legacy_ r) (appended_ r).
Definition set_legacy_ v (r : FileRowStore) : FileRowStore := mkStore (rows_ r) (byChat_ r) (marks_ r) (aux_ r) v (appended_ r).
Definition set_appended_ v (r : FileRowStore) : FileRowStore := mkStore (rows_ r) (byChat_ r) (marks_ r) (aux_ r) (legacy_ r) v.

Section Code.
Context {Ci : Cipher} {Tx : JsonText} (rowsPath marksPath auxPrefix : bytes).
Notation F := (M FileRowStore Disk).

(** ** The index *)

Definition idsOf (key : bytes) (r : FileRowStore) : list (bytes * unit) := default [] (byChat_ r !! key).
Definition eraseId (key id : bytes) (r : FileRowStore) : FileRowStore := set_byChat_ (<[key := mdel id (idsOf key r)]> (byChat_ r)) r.
Definition insertId (key id : bytes) (r : FileRowStore) : FileRowStore := set_byChat_ (<[key := mset id tt (idsOf key r)]> (byChat_ r)) r.

(** A state takes the place of the row of its target. *)
Definition place (target : bytes) (state : json) (r : FileRowStore) : FileRowStore :=
  let key := chatKeyOfState state in
  let r := match mget target (rows_ r) with
           | Some it => let old := chatKeyOfState it in if bool_decide (old = key) then r else eraseId old target r
           | None => r
           end in
  insertId key target (set_rows_ (mset target state (rows_ r)) r).

(** ** Files *)

(** What [storecrypt] answers is not looked at. *)
Definition onDisk {A} (f : Disk -> A * Disk) : F A := lift (fun d => let (a, d) := f d in (Ok a, d)).

Fixpoint dumpAll (l : list json) : result exn (list bytes) :=
  match l with [] => Ok [] | v :: l => let! s := dump v in let! ss := dumpAll l in Ok (s :: ss) end.

Definition compactLocked : F unit :=
  let* r := gets id in
  let* lines := ofResult (dumpAll (legacy_ r ++ (rows_ r).*2)) in
  onDisk (writeLines rowsPath lines) ;;; modify (set_appended_ 0).

Definition saveMarksLocked : F unit :=
  let* r := gets id in
  let* text := ofResult (dump (JObj (marks_ r))) in
  onDisk (writeFile marksPath text) ;;; ret tt.

(** One line of the file: how many objects there were, and the store. *)
Definition loadLine (x : nat * FileRowStore) (line : bytes) : nat * FileRowStore :=
  match parse line with
  | Some (JObj m) =>
      let v := JObj m in
      (S x.1, match strOf v (#"target") with
              | [] => if negb (bool_decide (strOf v (#"id") = [])) && bool_decide (is_Some (jfind (#"content") v))
                      then set_legacy_ (legacy_ x.2 ++ [v]) x.2 else x.2
              | target => place target v x.2
              end)
  | _ => x
  end.

Definition loadMarks (text : bytes) : list (bytes * json) :=
  match parse text with Some (JObj m) => foldl (fun acc kv => if is_object kv.2 then mset kv.1 kv.2 acc else acc) [] m | _ => [] end.

Definition loadLocked : F unit :=
  let* lines := onDisk (fun d => (readLines rowsPath d, d)) in
  let* r := gets id in
  let '(n, r) := foldl loadLine (0%nat, r) lines in
  modify (fun _ => set_appended_ (n - (length (rows_ r) + length (legacy_ r))) r) ;;;
  let* text := onDisk (fun d => (readFile marksPath d, d)) in
  modify (set_marks_ (loadMarks text)) ;;;
  let* r := gets id in
  when ((0 <? appended_ r)%nat && (length (rows_ r) <=? appended_ r)%nat) compactLocked.

(** The constructor: a new store, loaded. *)
Definition openStore (d : Disk) : outcome unit * (FileRowStore * Disk) := loadLocked (noRows, d).

(** ** Operations *)

Definition get (id : bytes) (r : FileRowStore) : option json := mget id (rows_ r).

Definition put (state : json) : F unit :=
  match strOf state (#"target") with
  | [] => ret tt
  | target =>
      let* r := gets id in
      if match mget target (rows_ r) with Some it => jsonEq it state | None => false end then ret tt
      else
        modify (place target state) ;;;
        (let* text := ofResult (dump state) in
         onDisk (appendLine rowsPath text) ;;;
         modify (fun r => set_appended_ (S (appended_ r)) r) ;;;
         let* r := gets id in
         when (Nat.max 2000 (length (rows_ r)) <? appended_ r)%nat compactLocked)
  end.

(** Whether any was there. *)
Fixpoint eraseRows (ids : list bytes) (any : bool) (r : FileRowStore) : bool * FileRowStore :=
  match ids with
  | [] => (any, r)
  | id :: ids =>
      match mget id (rows_ r) with
      | None => eraseRows ids any r
      | Some it => eraseRows ids true (set_rows_ (mdel id (rows_ r)) (eraseId (chatKeyOfState it) id r))
      end
  end.

Definition erase (ids : list bytes) : F unit :=
  let* r := gets id in
  let '(any, r) := eraseRows ids false r in
  modify (fun _ => r) ;;; when any compactLocked.

(** The states that [f] gets, in order. *)
Definition forEachInChat (chatKey : bytes) (r : FileRowStore) : list json := omap (fun iu => mget iu.1 (rows_ r)) (idsOf chatKey r).
Definition forEach (r : FileRowStore) : list json := (rows_ r).*2.
Definition size (r : FileRowStore) : nat := length (rows_ r).
Definition mark (chatKey : bytes) (r : FileRowStore) : option json := mget chatKey (marks_ r).
Definition setMark (chatKey : bytes) (m : json) : F unit := modify (fun r => set_marks_ (mset chatKey m (marks_ r)) r) ;;; saveMarksLocked.
Definition forEachMark (r : FileRowStore) : list (bytes * json) := marks_ r.

Definition clear : F unit :=
  modify (fun r => set_legacy_ [] (set_marks_ [] (set_byChat_ ∅ (set_rows_ [] r)))) ;;; compactLocked ;;; saveMarksLocked.

Definition auxPath (name : bytes) : bytes := auxPrefix ++ name ++ #".json".

Definition aux (name : bytes) : F json :=
  let* r := gets id in
  match mget name (aux_ r) with
  | Some v => ret v
  | None =>
      let* text := onDisk (fun d => (readFile (auxPath name) d, d)) in
      let v := default JNull (parse text) in
      modify (fun r => set_aux_ (mset name v (aux_ r)) r) ;;; ret v
  end.

Definition setAux (name : bytes) (value : json) : F unit :=
  modify (fun r => set_aux_ (mset name value (aux_ r)) r) ;;;
  let* text := ofResult (dump value) in
  onDisk (writeFile (auxPath name) text) ;;; ret tt.

Definition flush : F unit := let* r := gets id in when (0 <? appended_ r)%nat compactLocked.
Definition takeLegacyRows : F (list json) := let* r := gets id in modify (set_legacy_ []) ;;; ret (legacy_ r).
Definition compact : F unit := compactLocked.
Definition appendedSinceCompact (r : FileRowStore) : nat := appended_ r.

(** ** A host's calls *)

(** An operation that changes the store; what it throws, its caller catches. *)
Inductive Op := Put (state : json) | Erase (ids : list bytes) | SetMark (chatKey : bytes) (m : json) | Clear | Aux (name : bytes)
  | SetAux (name : bytes) (value : json) | Flush | TakeLegacy | Compact.

Definition perform (op : Op) : F unit :=
  match op with
  | Put state => put state
  | Erase ids => erase ids
  | SetMark key m => setMark key m
  | Clear => clear
  | Aux name => let* _ := aux name in ret tt
  | SetAux name value => setAux name value
  | Flush => flush
  | TakeLegacy => let* _ := takeLegacyRows in ret tt
  | Compact => compact
  end.

Fixpoint run (ops : list Op) (s : FileRowStore * Disk) : FileRowStore * Disk :=
  match ops with [] => s | op :: ops => run ops (perform op s).2 end.
End Code.

(** ** Maps *)

Lemma msorted_ext {A} (m m' : list (bytes * A)) : msorted m -> msorted m' -> (forall k, mget k m = mget k m') -> m = m'.
Proof.
  revert m'. induction m as [|[k v] m IH]; intros [|[k' v'] m'] S S' E; [done|..].
  - specialize (E k'). cbn in E. by rewrite bool_decide_true in E.
  - specialize (E k). cbn in E. by rewrite bool_decide_true in E.
  - destruct S as [F S], S' as [F' S']. assert (k = k') as ->.
    { pose proof (E k) as E1. pose proof (E k') as E2. cbn in E1, E2. rewrite bool_decide_true in E1 by done. rewrite (bool_decide_true (k' = k')) in E2 by done.
      destruct (decide (k = k')) as [|N]; [done|]. rewrite bool_decide_false in E1 by done. rewrite bool_decide_false in E2 by congruence.
      symmetry in E1. apply mget_Some_elem in E1. apply mget_Some_elem in E2. rewrite Forall_elem in F, F'. pose proof (F' _ E1) as B1. pose proof (F _ E2) as B2.
      cbn in B1, B2. apply blt_asym in B1. congruence. }
    pose proof (E k') as E1. cbn in E1. rewrite !bool_decide_true in E1 by done. injection E1 as ->. f_equal. apply IH; [done..|]. intros k.
    specialize (E k). cbn in E. case_bool_decide as D; [|done]. subst. by rewrite !mget_None_lt.
Qed.

Lemma mget_filter {A} (f : A -> bool) (k : bytes) (m : list (bytes * A)) : msorted m ->
  mget k (List.filter (fun kv => f kv.2) m) = match mget k m with Some v => if f v then Some v else None | None => None end.
Proof.
  induction m as [|[k1 v1] m IH]; [done|]. intros [F S]. specialize (IH S). cbn. destruct (f v1) eqn:E; cbn; case_bool_decide; subst; rewrite ?E; try done.
  rewrite IH. by rewrite (mget_None_lt k1 m F).
Qed.

Lemma filter_msorted {A} (f : bytes * A -> bool) (m : list (bytes * A)) : msorted m -> msorted (List.filter f m).
Proof.
  induction m as [|[k1 v1] m IH]; [done|]. intros [F S]. cbn. destruct (f (k1, v1)); [|by apply IH]. split; [|by apply IH].
  rewrite Forall_elem in *. intros x Hx. apply F. apply list_elem_of_In in Hx. apply filter_In in Hx as [Hx _]. by apply list_elem_of_In.
Qed.
#[local] Hint Resolve mset_sorted mdel_sorted filter_msorted : core.

(** ** The index *)

Section Index.
Context {Ci : Cipher} {Tx : JsonText} (rowsPath marksPath auxPrefix : bytes).

(** A row is under its target and in the set of its chat, and a set has no other
    identifiers. *)
Definition indexed (r : FileRowStore) : Prop :=
  msorted (rows_ r) /\ (forall id s, mget id (rows_ r) = Some s -> strOf s (#"target") = id /\ id <> []) /\
  forall key, msorted (idsOf key r) /\
    forall id, is_Some (mget id (idsOf key r)) <-> exists s, mget id (rows_ r) = Some s /\ chatKeyOfState s = key.

Lemma idsOf_erase key key' id r : idsOf key (eraseId key' id r) = if decide (key = key') then mdel id (idsOf key r) else idsOf key r.
Proof. unfold idsOf, eraseId. cbn. destruct (decide (key = key')) as [->|N]; [by rewrite lookup_insert_eq|by rewrite lookup_insert_ne]. Qed.

Lemma idsOf_insert key key' id r : idsOf key (insertId key' id r) = if decide (key = key') then mset id tt (idsOf key r) else idsOf key r.
Proof. unfold idsOf, insertId. cbn. destruct (decide (key = key')) as [->|N]; [by rewrite lookup_insert_eq|by rewrite lookup_insert_ne]. Qed.

Lemma place_rows target state r : rows_ (place target state r) = mset target state (rows_ r).
Proof. unfold place. destruct (mget target (rows_ r)) as [it|]; [|done]. by case_bool_decide. Qed.

Lemma place_ids target state r key : indexed r -> msorted (idsOf key (place target state r)) /\
  forall id, mget id (idsOf key (place target state r)) =
    if decide (id = target) then if decide (key = chatKeyOfState state) then Some tt else None else mget id (idsOf key r).
Proof.
  intros (Sr & T & I). pose proof (I key) as [Sk Ik]. set (key' := chatKeyOfState state).
  assert (forall id, key' <> key -> target = id -> (forall it, mget target (rows_ r) = Some it -> chatKeyOfState it <> key) -> mget id (idsOf key r) = None) as Out.
  { intros id _ <- H. destruct (mget target (idsOf key r)) eqn:X; [|done]. destruct (proj1 (Ik target)) as (s & Hs & Hk); [by eexists|]. by destruct (H s Hs). }
  assert (forall r', idsOf key r' = idsOf key r -> (forall it, key' <> key -> mget target (rows_ r) = Some it -> chatKeyOfState it <> key) ->
    msorted (idsOf key (insertId key' target r')) /\ forall id, mget id (idsOf key (insertId key' target r')) =
      if decide (id = target) then if decide (key = key') then Some tt else None else mget id (idsOf key r)) as In.
  { intros r' E H. rewrite idsOf_insert, E. destruct (decide (key = key')) as [K|K].
    - split; [by apply mset_sorted|]. intros id. rewrite mget_mset. destruct (decide (id = target)); [by rewrite bool_decide_true|by rewrite bool_decide_false].
    - split; [done|]. intros id. destruct (decide (id = target)); [|done]. apply Out; [congruence|done|]. intros it. apply H. congruence. }
  unfold place. fold key'. cbv zeta. destruct (mget target (rows_ r)) as [it|] eqn:G; [|by apply In].
  case_bool_decide as K; [apply In; [done|]; intros ? ? [= <-]; congruence|].
  destruct (decide (key = chatKeyOfState it)) as [Ek|Ek].
  - rewrite idsOf_insert. assert (idsOf key (set_rows_ (mset target state (rows_ (eraseId (chatKeyOfState it) target r))) (eraseId (chatKeyOfState it) target r)) =
      mdel target (idsOf key r)) as -> by (change (idsOf key (set_rows_ ?a ?b)) with (idsOf key b); rewrite idsOf_erase; by rewrite decide_True).
    rewrite decide_False by congruence. split; [by apply mdel_sorted|]. intros id. rewrite mget_mdel by done.
    destruct (decide (id = target)); [rewrite bool_decide_true by done; by rewrite decide_False by congruence|by rewrite bool_decide_false].
  - apply In; [|intros ? ? [= <-]; congruence]. change (idsOf key (set_rows_ ?a ?b)) with (idsOf key b). rewrite idsOf_erase. by rewrite decide_False.
Qed.

Lemma indexed_place target state r : target <> [] -> strOf state (#"target") = target -> indexed r -> indexed (place target state r).
Proof.
  intros N Et I. pose proof I as (Sr & T & _). split_and!.
  - rewrite place_rows. auto.
  - intros id s. rewrite place_rows, mget_mset. case_bool_decide; [|apply T]. subst. by intros [= <-].
  - intros key. destruct (place_ids target state r key I) as [S G]. split; [exact S|]. intros id. rewrite G, place_rows. destruct I as (_ & _ & I).
    destruct (I key) as [_ Ik]. destruct (decide (id = target)) as [->|D].
    + rewrite mget_mset_eq. destruct (decide _); split; [by eexists|by eexists|by intros []|intros (s & [= <-] & H); congruence].
    + rewrite mget_mset_ne by done. apply Ik.
Qed.

Lemma indexed_eraseRow id it r : mget id (rows_ r) = Some it -> indexed r -> indexed (set_rows_ (mdel id (rows_ r)) (eraseId (chatKeyOfState it) id r)).
Proof.
  intros G (Sr & T & I). split_and!; cbn; auto.
  - intros id' s. rewrite mget_mdel by done. case_bool_decide; [done|apply T].
  - intros key. destruct (I key) as [Sk Ik]. change (idsOf key (set_rows_ _ ?x)) with (idsOf key x). rewrite idsOf_erase.
    split; [destruct (decide _); auto|]. intros id'. cbn. rewrite mget_mdel by done. destruct (decide (key = chatKeyOfState it)) as [->|D].
    + rewrite mget_mdel by done. case_bool_decide; [|apply Ik]. split; [by intros []|by intros (? & ? & ?)].
    + rewrite Ik. case_bool_decide; [|done]. subst. split; [|by intros (? & ? & ?)]. intros (s & Hs & Hk). congruence.
Qed.

Lemma indexed_eraseRows ids : forall any r, indexed r -> indexed (eraseRows ids any r).2.
Proof.
  induction ids as [|id ids IH]; intros any r I; [done|]. cbn. destruct (mget id (rows_ r)) as [it|] eqn:G; [|by apply IH].
  apply IH. by apply indexed_eraseRow.
Qed.

Lemma indexed_noRows : indexed noRows.
Proof. split_and!; [done..|]. intros key. split; [done|]. intros id. unfold idsOf. cbn. rewrite lookup_empty. split; [by intros []|by intros (? & ? & ?)]. Qed.

Lemma indexed_loadLine x line : indexed x.2 -> indexed (loadLine x line).2.
Proof.
  intros I. unfold loadLine. destruct (parse line) as [[]|]; try done. cbn [snd]. destruct (strOf _ (#"target")) as [|c t] eqn:E.
  - by destruct (_ && _).
  - by apply indexed_place.
Qed.

Lemma indexed_load lines : forall x, indexed x.2 -> indexed (foldl loadLine x lines).2.
Proof. induction lines as [|l ls IH]; intros x I; [done|]. cbn. by apply IH, indexed_loadLine. Qed.

(** A chat's rows are those of all rows, in the same order. *)
Lemma indexed_forEach r key : indexed r -> forEachInChat key r = List.filter (fun s => bool_decide (chatKeyOfState s = key)) (forEach r).
Proof.
  intros (Sr & T & I). destruct (I key) as [Sk Ik].
  set (m := omap (fun iu => (iu.1,.) <$> mget iu.1 (rows_ r)) (idsOf key r)).
  assert (forall k, mget k m = match mget k (idsOf key r) with Some _ => mget k (rows_ r) | None => None end) as G.
  { unfold m. clear Ik m. intros k. induction (idsOf key r) as [|[k1 u] ids IH]; [done|]. destruct Sk as [Fk Sk]. specialize (IH Sk). csimpl.
    destruct (mget k1 (rows_ r)) as [s|] eqn:E; csimpl; rewrite IH;
      (destruct (decide (k = k1)) as [->|N]; [rewrite !bool_decide_true by done|by rewrite !bool_decide_false by done]).
    - by rewrite E.
    - by rewrite (mget_None_lt k1 ids), E. }
  assert (msorted m) as Sm.
  { unfold m. clear -Sk. induction (idsOf key r) as [|[k1 u] ids IH]; [done|]. destruct Sk as [Fk Sk]. csimpl. destruct (mget k1 (rows_ r)); [|by apply IH]. csimpl. split; [|by apply IH].
    pose proof (proj1 (Forall_elem _ _) Fk) as Fk'. apply Forall_elem. intros [k2 s] Hx. apply list_elem_of_omap in Hx as ([k3 []] & Hx & E). destruct (mget _ _); [|done]. cbn in E. injection E as <- <-. apply (Fk' _ Hx). }
  assert (m = List.filter (fun kv => bool_decide (chatKeyOfState kv.2 = key)) (rows_ r)) as E.
  { apply msorted_ext; [done|by apply filter_msorted|]. intros k. rewrite G. symmetry. etrans; [exact (mget_filter (fun s => bool_decide (chatKeyOfState s = key)) k (rows_ r) Sr)|].
    destruct (mget k (rows_ r)) as [s|] eqn:Es; [|by case_match]. case_bool_decide as K.
    - destruct (proj2 (Ik k)) as [u Hu]; [by exists s|]. by rewrite Hu.
    - destruct (mget k (idsOf key r)) eqn:Eu; [|done]. destruct (proj1 (Ik k)) as (s' & Hs & Hk); [by eexists|]. congruence. }
  transitivity (m.*2).
  - unfold forEachInChat, m. clear. induction (idsOf key r) as [|[k1 u] ids IH]; [done|]. csimpl. destruct (mget k1 (rows_ r)); csimpl; by rewrite IH.
  - rewrite E. unfold forEach. clear. induction (rows_ r) as [|[k v] l IH]; [done|]. cbn. destruct (bool_decide _); cbn; by rewrite IH.
Qed.

(** *** Each operation keeps the index *)

Definition keepsIndex (s s' : FileRowStore * Disk) : Prop := indexed s.1 -> indexed s'.1.
#[local] Instance keepsIndex_pre : PreOrder keepsIndex.
Proof. split; [by intros s I|]. intros s1 s2 s3 A B I. by apply B, A. Qed.

Definition anyCall (A : Type) (h : Disk -> result Thrown A * Disk) : Prop := True.
Definition keepIndexed (f : FileRowStore -> FileRowStore) : Prop := forall r, indexed r -> indexed (f r).

#[local] Instance index_sound : Sound anyCall keepIndexed (keeps keepsIndex).
Proof.
  apply keeps_sound; [typeclasses eauto| |].
  - intros A h _ s I. by rewrite lift_state.
  - intros f Hf s I. by apply Hf.
Qed.

Lemma same_index (f : FileRowStore -> FileRowStore) : (forall r, rows_ (f r) = rows_ r) -> (forall r, byChat_ (f r) = byChat_ r) -> keepIndexed f.
Proof. intros Er Eb r. unfold indexed, idsOf. rewrite Er, Eb. exact id. Qed.
#[local] Hint Extern 1 (anyCall _ _) => exact I : sound.
#[local] Hint Extern 1 (keepIndexed _) => by apply same_index : sound.

#[local] Ltac isound := pose proof index_sound as Q; sound.

Lemma index_compact : keeps keepsIndex _ (compactLocked rowsPath).
Proof. unfold compactLocked, onDisk. isound. Qed.
Lemma index_saveMarks : keeps keepsIndex _ (saveMarksLocked marksPath).
Proof. unfold saveMarksLocked, onDisk. isound. Qed.
#[local] Hint Resolve index_compact index_saveMarks : sound.

Lemma index_load : keeps keepsIndex _ (loadLocked rowsPath marksPath).
Proof.
  unfold loadLocked, onDisk. pose proof index_sound as Q. sound_step; [sound|]. intros s. unfold bind at 1. cbn [gets]. destruct (foldl loadLine (0%nat, id s.1) _) as [n r] eqn:E.
  intros I. assert (indexed r) as Ir by (pose proof (indexed_load a (0%nat, s.1) I) as L; unfold id in E; by rewrite E in L).
  match goal with |- indexed ((bind _ ?k) _).2.1 => assert (forall u, keeps keepsIndex _ (k u)) as K by (intros u; sound) end.
  unfold bind at 1. cbn [modify fst snd]. apply (K tt). cbn. by apply same_index.
Qed.

Lemma index_put state : keeps keepsIndex _ (put rowsPath state).
Proof.
  unfold put, onDisk. pose proof index_sound as Q. destruct (strOf state (#"target")) as [|c t] eqn:E; [sound|]. sound_step; [sound|]. destruct (match mget _ _ with Some _ => _ | None => _ end); [sound|].
  sound_step; [|sound]. apply (@sound_modify _ _ _ _ _ index_sound). intros r I. by apply indexed_place.
Qed.

Lemma index_erase ids : keeps keepsIndex _ (erase rowsPath ids).
Proof.
  unfold erase. intros s. unfold bind at 1. cbn [gets]. pose proof (indexed_eraseRows ids false (id s.1)) as L. destruct (eraseRows ids false (id s.1)) as [any r].
  intros I. specialize (L I). unfold bind at 1. cbn [modify fst snd]. assert (keeps keepsIndex _ (when any (compactLocked rowsPath))) as K by isound. by apply (K (r, s.2)).
Qed.

Lemma index_perform op : keeps keepsIndex _ (perform rowsPath marksPath auxPrefix op).
Proof.
  pose proof index_sound as Q. destruct op; cbn [perform]; [apply index_put|apply index_erase|..]; unfold setMark, clear, aux, setAux, flush, takeLegacyRows, compact, onDisk; sound.
  apply (@sound_modify _ _ _ _ _ index_sound). intros r _. apply indexed_noRows.
Qed.

(** Claim C19 (chat_rows_agree): the index of the store is true. Opened on any
    disk and after any operations, those that throw included, the rows it gives of
    a chat are the rows of that chat among all, in the order of their identifiers. *)
Theorem chat_rows_agree (ops : list Op) (d : Disk) (key : bytes) :
  let r := (run rowsPath marksPath auxPrefix ops (openStore rowsPath marksPath d).2).1 in
  forEachInChat key r = List.filter (fun s => bool_decide (chatKeyOfState s = key)) (forEach r).
Proof.
  apply indexed_forEach. assert (indexed (openStore rowsPath marksPath d).2.1) as I by (apply index_load, indexed_noRows).
  revert I. generalize (openStore rowsPath marksPath d).2. induction ops as [|op ops IH]; intros s I; [done|]. cbn [run]. by apply IH, index_perform.
Qed.
End Index.
End RowStore.
