(* ===== verification/RowFiles.v ===== *)
(** * RowFiles: what the store of rows leaves on the disk

    A store of rows ([RowStore]) that is opened on the files of another answers
    as the other did, but for how JSON text keeps numbers ([reparse]). *)

From S2P Require Import Prelude Json DomainSync PlannerUtil PlannerJson Poll Reminders CloudJson StoreCrypt Host HistoryOps RowStore.
Import Base64 Sync StoreCrypt HistoryOps RowStore.

Module RowFiles.

(** ** Writes that are done *)

Section Writes.
Context {Ci : Cipher} {Laws : CipherLaws}.

(** Nothing fails: no faults, no fence, and a key where one is required. *)
Definition writable (d : Disk) : Prop :=
  faults d = [] /\ g_blocked d = false /\
  (g_required d = false \/ g_key d <> [] /\ (forall n, length (rand n) = kIvLen) /\ forall key iv plain, is_Some (evp_seal key iv plain)).

(** A write that touches some files only. *)
Definition wrote (touched : list bytes) (d d' : Disk) : Prop :=
  (writable d -> writable d') /\ g_key d' = g_key d /\ forall p, p ∉ touched -> files d' !! p = files d !! p.

Lemma wrote_same touched d d' : sameFiles d d' -> wrote touched d d'.
Proof. intros (Ef & Ek & Er & Eb & Ec). split_and!; [|done|intros p _; by rewrite Ef]. unfold writable. by rewrite Ek, Er, Eb, Ec. Qed.

Lemma wrote_trans touched d d1 d2 : wrote touched d d1 -> wrote touched d1 d2 -> wrote touched d d2.
Proof. intros (W & K & F) (W' & K' & F'). split_and!; [auto|congruence|]. intros p N. rewrite F', F; done. Qed.

Lemma wrote_read touched d d' p : wrote touched d d' -> p ∉ touched -> rawRead p d' = rawRead p d /\ readFile p d' = readFile p d.
Proof. intros (_ & K & F) N. unfold readFile, rawRead. by rewrite F, K. Qed.

Lemma seal_done plain line d : writable d -> is_Some (sealForDisk plain line d).1.
Proof.
  intros (_ & _ & [R|(N & Hr & Hs)]); unfold sealForDisk; destruct (g_key d) as [|x k]; try done.
  - cbn. rewrite R. by eexists.
  - destruct (gcmSeal (x :: k) plain d) as [[s|] d']; cbn; rewrite ?R; by eexists.
  - unfold gcmSeal. rewrite Hr, Nat.eqb_refl. cbn [negb]. destruct (Hs (x :: k) (rand (draws d)) plain) as [out ->]. by eexists.
Qed.

Lemma sealLines_done ls : forall d, writable d -> is_Some (sealLines ls d).1.
Proof.
  induction ls as [|l ls IH]; intros d W; cbn [sealLines]; [by eexists|]. destruct (seal_done l true d W) as [e E]. pose proof (sealForDisk_same l true d) as S.
  destruct (sealForDisk l true d) as [s d1]. cbn [fst snd] in *. subst s. destruct (IH d1) as [r R]; [by apply (wrote_same [] d d1 S)|].
  destruct (sealLines ls d1) as [r' d2]. cbn in *. subst r'. by eexists.
Qed.

Lemma rawWrite_done path data d : writable d ->
  exists d', rawWrite path data d = (true, d') /\ wrote [path; tmpOf path] d d' /\ rawRead path d' = data.
Proof.
  intros W. pose proof W as (F & B & _). unfold rawWrite, rawWriteUnfenced, nextFault. rewrite B, F. eexists. split; [done|]. split; [|by unfold rawRead; cbn; rewrite lookup_insert_eq].
  split_and!; [done..|]. intros p N. cbn. rewrite !not_elem_of_cons in N. destruct N as (N1 & N2 & _). rewrite lookup_insert_ne, lookup_delete_ne; congruence.
Qed.

Lemma writeLines_done path ls d : writable d -> Forall plainLine ls ->
  exists d', writeLines path ls d = (true, d') /\ wrote [path; tmpOf path] d d' /\ holds (g_key d') (rawRead path d') ls.
Proof.
  intros W P. unfold writeLines. destruct (sealLines_done ls d W) as [data E]. pose proof (sealLines_same ls d) as S. pose proof (sealLines_holds ls P d data E) as H.
  destruct (sealLines ls d) as [r d1]. cbn [fst snd] in *. subst r. pose proof (wrote_same [path; tmpOf path] d d1 S) as W1.
  destruct (rawWrite_done path data d1) as (d2 & -> & W2 & R); [by apply W1|]. exists d2. split; [done|]. split; [by eapply wrote_trans|].
  rewrite R. destruct W1 as (_ & K1 & _), W2 as (_ & K2 & _). by rewrite K2, K1.
Qed.

Lemma appendLine_done path l d js : writable d -> plainLine l -> holds (g_key d) (rawRead path d) js ->
  exists d', appendLine path l d = (true, d') /\ wrote [path] d d' /\ holds (g_key d') (rawRead path d') (js ++ [l]).
Proof.
  intros W P H. unfold appendLine. destruct (seal_done l true d W) as [e E]. pose proof (sealForDisk_same l true d) as S. pose proof (sealForDisk_written l d e P E) as Wr.
  destruct (sealForDisk l true d) as [s d1]. cbn [fst snd] in *. subst s. pose proof (wrote_same [path] d d1 S) as W1. destruct S as (Ef & Ek & _ & Eb & Ec).
  destruct W as (F & B & _). rewrite Eb, B. unfold nextFault. rewrite Ec, F. eexists. split; [done|]. split.
  - eapply wrote_trans; [exact W1|]. split_and!; [done..|]. intros p N. cbn. rewrite lookup_insert_ne; [done|]. intros <-. apply N. by left.
  - rewrite rawRead_put. cbn. rewrite Ek. apply holds_snoc; [|done]. unfold rawRead in *. by rewrite Ef.
Qed.

Lemma writeFile_done path data d : writable d -> isSealed data = false ->
  exists d', writeFile path data d = (true, d') /\ wrote [path; tmpOf path] d d' /\ readFile path d' = data.
Proof.
  intros W P. unfold writeFile. destruct (seal_done data false d W) as [e E]. pose proof (sealForDisk_same data false d) as S. pose proof (sealForDisk_opens data d e P E) as O.
  destruct (sealForDisk data false d) as [s d1]. cbn [fst snd] in *. subst s. pose proof (wrote_same [path; tmpOf path] d d1 S) as W1.
  destruct (rawWrite_done path e d1) as (d2 & -> & W2 & R); [by apply W1|]. exists d2. split; [done|]. split; [by eapply wrote_trans|].
  eapply readFile_open; [exact R| |exact P]. destruct W1 as (_ & K1 & _), W2 as (_ & K2 & _). by rewrite K2, K1.
Qed.
End Writes.

(** ** Values as they are read again *)

Definition rmap (m : list (bytes * json)) : list (bytes * json) := (fun kv => (kv.1, reparse kv.2)) <$> m.

Lemma mget_rmap k m : mget k (rmap m) = reparse <$> mget k m.
Proof. induction m as [|[k1 v] m IH]; [done|]. cbn. by case_bool_decide. Qed.

Lemma rmap_mset k v m : rmap (mset k v m) = mset k (reparse v) (rmap m).
Proof. induction m as [|[k1 v1] m IH]; [done|]. cbn. case_bool_decide; [done|]. destruct (blt k k1); cbn; [done|]. f_equal. exact IH. Qed.

Lemma rmap_mdel k m : rmap (mdel k m) = mdel k (rmap m).
Proof. induction m as [|[k1 v1] m IH]; [done|]. cbn. case_bool_decide; [done|]. cbn. f_equal. exact IH. Qed.

Lemma msorted_rmap m : msorted m -> msorted (rmap m).
Proof.
  induction m as [|[k v] m IH]; [done|]. intros [F S]. split; [|by apply IH]. apply Forall_elem. intros x Hx.
  apply list_elem_of_fmap in Hx as (y & -> & Hy). cbn. by apply (proj1 (Forall_elem _ _) F).
Qed.

Lemma reparse_fixed m : reparse (JObj m) = JObj m -> rmap m = m.
Proof. cbn. by intros [= E]. Qed.

Lemma rmap_fixed m : (forall k v, mget k m = Some v -> reparse v = v) -> msorted m -> rmap m = m.
Proof.
  intros H S. apply msorted_ext; [by apply msorted_rmap|done|]. intros k. rewrite mget_rmap. destruct (mget k m) as [v|] eqn:E; [|done].
  cbn. f_equal. by apply (H k).
Qed.

Lemma strOf_reparse j k : strOf (reparse j) k = strOf j k.
Proof. unfold strOf. rewrite jfind_reparse. destruct (jfind k j) as [[]|]; cbn; try done. by destruct (0 <=? z)%Z. Qed.

Lemma jfind_field j k : field (reparse j) k = reparse (field j k).
Proof. unfold field. rewrite jfind_reparse. by destruct (jfind k j). Qed.

Lemma chatKey_reparse {Ci : Cipher} j : chatKeyOfState (reparse j) = chatKeyOfState j.
Proof.
  unfold chatKeyOfState. rewrite jfind_field. generalize (field j (#"chat")). clear j. intros j. unfold chatKeyOf. rewrite !jfind_reparse.
  assert (forall m k, strOf (JObj (map (fun kv => (kv.1, reparse kv.2)) m)) k = strOf (JObj m) k) as E by (intros m k; apply (strOf_reparse (JObj m))).
  destruct (jfind (#"user") j) as [[]|]; cbn [fmap option_fmap option_map reparse]; rewrite ?E; try done.
  all: try destruct (0 <=? z)%Z; destruct (jfind (#"group") j) as [[]|]; cbn [fmap option_fmap option_map reparse]; rewrite ?E; try done; by destruct (0 <=? z0)%Z || by destruct (0 <=? z)%Z.
Qed.

Lemma foldl_mset (m : list (bytes * json)) : forall acc, msorted (acc ++ m) -> foldl (fun acc kv => mset kv.1 kv.2 acc) acc m = acc ++ m.
Proof.
  induction m as [|[k v] m IH]; intros acc S; [by rewrite app_nil_r|]. cbn. assert (mset k v acc = acc ++ [(k, v)]) as ->.
  { clear IH. induction acc as [|[k1 v1] acc IH]; [done|]. destruct S as [F S]. cbn. specialize (IH S). rewrite list.Forall_app in F. destruct F as [_ F].
    inversion F as [|? ? B _]. subst. cbn in B. rewrite bool_decide_false by (intros <-; by rewrite blt_irrefl in B). by rewrite (blt_asym _ _ B), IH. }
  rewrite IH; by rewrite <- app_assoc.
Qed.
Lemma load_objects (m : list (bytes * json)) : (forall k v, (k, v) ∈ m -> is_object v = true) -> forall acc,
  foldl (fun acc kv => if is_object kv.2 then mset kv.1 kv.2 acc else acc) acc m = foldl (fun acc kv => mset kv.1 kv.2 acc) acc m.
Proof.
  induction m as [|[k v] m IH]; intros O acc; [done|]. cbn. rewrite (O k v) by (by left). apply IH. intros k' v' Hx. apply (O k'). by right.
Qed.

(** ** The store and its files *)

(** Of the text of JSON: what is [stored] has a text of one line, which is read
    back; what is read can be written, and reads the same. *)
Class TextLaws {Tx : JsonText} (stored : json -> Prop) : Prop := {
  law_text j : stored j -> exists s, dump j = Ok s /\ plainLine s /\ parse s = Some (reparse j);
  law_parsed s j : parse s = Some j -> reparse j = j /\ stored j
}.

Section Kept.
Context {Ci : Cipher} {Laws : CipherLaws} {Tx : JsonText} (stored : json -> Prop) {TL : TextLaws stored}.
Context (rowsPath marksPath auxPrefix : bytes).
Notation auxPath := (auxPath auxPrefix).

(** The files do not get in each other's way. *)
Definition apart : Prop := rowsPath <> marksPath /\ (forall p, tmpOf p <> rowsPath /\ tmpOf p <> marksPath) /\
  forall n, auxPath n <> rowsPath /\ auxPath n <> marksPath.

Lemma text_unsealed j s : stored j -> dump j = Ok s -> isSealed s = false /\ plainLine s /\ parse s = Some (reparse j).
Proof using TL.
  intros St E. destruct (law_text j St) as (s' & E' & P & R). assert (s' = s) as -> by congruence. split; [|done]. destruct P as (_ & _ & _ & N).
  unfold isSealed, startsWith. fold kMagicLen. by rewrite (bool_decide_false (take kMagicLen s = kMagic)), andb_false_r by done.
Qed.

Definition isRow (k : bytes) (v : json) : Prop := stored v /\ strOf v (#"target") = k /\ k <> [].
Definition isLegacy (v : json) : Prop := stored v /\ strOf v (#"target") = [].

Lemma load_row x line v k : parse line = Some (reparse v) -> strOf v (#"target") = k -> k <> [] ->
  rows_ (loadLine x line).2 = mset k (reparse v) (rows_ x.2).
Proof.
  intros P <- N. destruct v; try by destruct N. unfold loadLine. rewrite P. cbn [reparse]. rewrite (strOf_reparse (JObj m)).
  destruct (strOf (JObj m) (#"target")) as [|c t] eqn:E; [done|]. cbn [snd]. by rewrite place_rows.
Qed.

Lemma load_other x line v : parse line = Some (reparse v) -> strOf v (#"target") = [] -> rows_ (loadLine x line).2 = rows_ x.2.
Proof.
  intros P N. unfold loadLine. rewrite P. destruct v; try done; cbn [reparse]; [by destruct (0 <=? z)%Z|]. rewrite (strOf_reparse (JObj m)), N. cbn [snd]. by destruct (_ && _).
Qed.

Lemma dumpAll_lines l : (forall v, v ∈ l -> stored v) -> exists ss, dumpAll l = Ok ss /\ Forall2 (fun s v => plainLine s /\ parse s = Some (reparse v)) ss l.
Proof using TL.
  induction l as [|v l IH]; intros St; [by exists []|]. destruct (law_text v) as (s & E & P & R); [apply St; by left|].
  destruct IH as (ss & Es & F); [intros w Hw; apply St; by right|]. exists (s :: ss). cbn. rewrite E. cbn. rewrite Es. cbn. split; [done|]. by constructor.
Qed.

Lemma load_rows m : (forall k v, (k, v) ∈ m -> isRow k v) -> forall ss, Forall2 (fun s v => plainLine s /\ parse s = Some (reparse v)) ss m.*2 ->
  forall x, rows_ (foldl loadLine x ss).2 = foldl (fun acc kv => mset kv.1 kv.2 acc) (rows_ x.2) (rmap m).
Proof.
  induction m as [|[k v] m IH]; intros R ss F x; inversion F as [|s ? ss' ? [P E] F']; subst; [done|]. cbn. destruct (R k v) as (_ & T & N); [by left|].
  rewrite IH; [|by intros k' v' Hx; apply R; right|done]. f_equal. by apply load_row.
Qed.

Lemma load_legacy l : Forall isLegacy l -> forall ss, Forall2 (fun s v => plainLine s /\ parse s = Some (reparse v)) ss l ->
  forall x, rows_ (foldl loadLine x ss).2 = rows_ x.2.
Proof.
  induction 1 as [|v l [_ T] _ IH]; intros ss F x; inversion F as [|s ? ss' ? [P E] F']; subst; [done|]. cbn. rewrite IH by done. by eapply load_other.
Qed.

Definition replay (js : list bytes) : nat * FileRowStore := foldl loadLine (0%nat, noRows) js.

(** The disk has what is in memory. *)
Definition rowsKept (r : FileRowStore) (d : Disk) : Prop :=
  exists js, holds (g_key d) (rawRead rowsPath d) js /\ rows_ (replay js).2 = rmap (rows_ r).
Definition marksKept (r : FileRowStore) (d : Disk) : Prop := loadMarks (readFile marksPath d) = rmap (marks_ r).
Definition auxKept (r : FileRowStore) (d : Disk) : Prop :=
  forall n v, mget n (aux_ r) = Some v -> default JNull (parse (readFile (auxPath n) d)) = reparse v.
Definition fit (r : FileRowStore) : Prop :=
  msorted (rows_ r) /\ (forall k v, (k, v) ∈ rows_ r -> isRow k v) /\ Forall isLegacy (legacy_ r) /\ msorted (marks_ r) /\
  forall k v, (k, v) ∈ marks_ r -> is_object v = true.
Definition kept (s : FileRowStore * Disk) : Prop := fit s.1 /\ writable s.2 /\ rowsKept s.1 s.2 /\ marksKept s.1 s.2 /\ auxKept s.1 s.2.

Context (Ap : apart).

Lemma aux_no_tmp n p : auxPath n <> tmpOf p.
Proof.
  unfold RowStore.auxPath, tmpOf. change (#".json") with ((#".jso") ++ (#"n")). change (#".tmp") with ((#".tm") ++ (#"p")). rewrite !app_assoc. intros E.
  by apply app_inj_tail in E as [_ E].
Qed.

Lemma rows_elsewhere r d d' p : wrote [p; tmpOf p] d d' -> p <> rowsPath -> rowsKept r d -> rowsKept r d'.
Proof using Ap.
  intros W N (js & H & E). exists js. destruct Ap as (_ & T & _). destruct (wrote_read _ _ _ rowsPath W) as [R _].
  { rewrite !not_elem_of_cons. split_and!; [congruence|by apply not_eq_sym, T|apply not_elem_of_nil]. }
  rewrite R. destruct W as (_ & -> & _). done.
Qed.

Lemma marks_elsewhere r d d' p q : wrote [p; tmpOf q] d d' -> p <> marksPath -> marksKept r d -> marksKept r d'.
Proof using Ap.
  intros W N E. unfold marksKept. destruct Ap as (_ & T & _). destruct (wrote_read _ _ _ marksPath W) as [_ R]; [|by rewrite R].
  rewrite !not_elem_of_cons. split_and!; [congruence|by apply not_eq_sym, T|apply not_elem_of_nil].
Qed.

Lemma aux_elsewhere r d d' p q : wrote [p; tmpOf q] d d' -> p = rowsPath \/ p = marksPath -> auxKept r d -> auxKept r d'.
Proof using Ap.
  intros W N E n v G. destruct Ap as (_ & _ & T). destruct (wrote_read _ _ _ (auxPath n) W) as [_ R]; [|rewrite R; by apply E].
  rewrite !not_elem_of_cons. split_and!; [destruct N as [-> | ->]; apply T|apply aux_no_tmp|apply not_elem_of_nil].
Qed.

(** *** The file of rows, or of marks, is written anew *)

Lemma compact_rows r d : fit r -> writable d ->
  exists d', compactLocked rowsPath (r, d) = (Done tt, (set_appended_ 0 r, d')) /\ wrote [rowsPath; tmpOf rowsPath] d d' /\ rowsKept r d'.
Proof using Laws TL.
  intros Ft W. pose proof Ft as (Sr & R & L & _). destruct (dumpAll_lines (legacy_ r ++ (rows_ r).*2)) as (ss & E & F).
  { intros v. rewrite elem_of_app, list_elem_of_fmap. rewrite Forall_elem in L. intros [H|([k v'] & -> & H)]; [by apply L|by apply (R k)]. }
  destruct (writeLines_done rowsPath ss d W) as (d' & Ew & W' & H).
  { clear -F. induction F as [|s v ss l [P _] _ IH]; by constructor. }
  exists d'. unfold compactLocked, bind, gets, onDisk, lift, modify. cbn [fst snd]. unfold id. rewrite E. cbn. rewrite Ew. cbn. split; [done|]. split; [done|].
  exists ss. split; [done|]. apply Forall2_app_inv_r in F as (s1 & s2 & F1 & F2 & ->). unfold replay. rewrite foldl_app, (load_rows (rows_ r) R s2 F2), (load_legacy _ L s1 F1).
  cbn. rewrite foldl_mset; [done|]. by apply msorted_rmap.
Qed.

Lemma compact_kept r d : fit r -> writable d -> marksKept r d -> auxKept r d ->
  exists d', compactLocked rowsPath (r, d) = (Done tt, (set_appended_ 0 r, d')) /\ wrote [rowsPath; tmpOf rowsPath] d d' /\ kept (set_appended_ 0 r, d').
Proof using All.
  intros Ft W Mk Ax. destruct (compact_rows r d Ft W) as (d' & E & W' & Rk). exists d'. split; [exact E|]. split; [exact W'|].
  split_and!; [exact Ft|by apply W'|exact Rk| |].
  - refine (marks_elsewhere r d d' _ _ W' _ Mk). apply Ap.
  - refine (aux_elsewhere r d d' _ _ W' _ Ax). by left.
Qed.

Lemma saveMarks_kept r d : fit r -> writable d -> rowsKept r d -> auxKept r d -> stored (JObj (marks_ r)) ->
  exists d', saveMarksLocked marksPath (r, d) = (Done tt, (r, d')) /\ kept (r, d').
Proof using All.
  intros Ft W Rk Ax St. destruct (law_text _ St) as (s & E & _). destruct (text_unsealed _ _ St E) as (U & _ & P).
  destruct (writeFile_done marksPath s d W U) as (d' & Ew & W' & R). exists d'. unfold saveMarksLocked, bind, gets, onDisk, lift. cbn [fst snd]. unfold id. rewrite E. cbn. rewrite Ew. cbn.
  split; [done|]. split_and!; cbn; [exact Ft|by apply W'| | |].
  - refine (rows_elsewhere r d d' _ W' _ Rk). apply not_eq_sym, Ap.
  - unfold marksKept, loadMarks. rewrite R, P. cbn [reparse]. destruct Ft as (_ & _ & _ & Sm & Om). fold (rmap (marks_ r)).
    rewrite load_objects; [by rewrite foldl_mset by (by apply msorted_rmap)|]. intros k v Hx.
    apply list_elem_of_fmap in Hx as ([k' v'] & [= -> ->] & Hx). apply Om in Hx. by destruct v'.
  - refine (aux_elsewhere r d d' _ _ W' _ Ax). by right.
Qed.

(** *** Operations *)

Definition okOp (op : Op) (r : FileRowStore) : Prop :=
  match op with
  | Put state => strOf state (#"target") <> [] -> stored state
  | SetMark key m => is_object m = true /\ stored (JObj (mset key m (marks_ r)))
  | Clear => stored (JObj [])
  | SetAux _ value => stored value
  | _ => True
  end.
Fixpoint okRun (ops : list Op) (s : FileRowStore * Disk) : Prop :=
  match ops with [] => True | op :: ops => okOp op s.1 /\ okRun ops (perform rowsPath marksPath auxPrefix op s).2 end.

#[local] Arguments place {Ci} target state r : simpl never.

Lemma place_others target state r : legacy_ (place target state r) = legacy_ r /\ marks_ (place target state r) = marks_ r /\
  aux_ (place target state r) = aux_ r /\ appended_ (place target state r) = appended_ r.
Proof. unfold place. destruct (mget target (rows_ r)); [|done]. by case_bool_decide. Qed.

Lemma eraseRows_spec ids : forall any r, fit r -> let x := eraseRows ids any r in
  fit x.2 /\ marks_ x.2 = marks_ r /\ aux_ x.2 = aux_ r /\ (x.1 = false -> x.2 = r).
Proof.
  assert (forall ids r, (eraseRows ids true r).1 = true) as Tr by (induction ids0 as [|i is1 IH]; intros r; cbn; [done|]; by destruct (mget i (rows_ r))).
  induction ids as [|i ids IH]; intros any r Ft; cbn; [done|]. destruct (mget i (rows_ r)) as [it|] eqn:G; [|by apply IH].
  destruct (IH true (set_rows_ (mdel i (rows_ r)) (eraseId (chatKeyOfState it) i r))) as (F & M & A & _).
  - destruct Ft as (Sr & R & L & Rest). split_and!; try apply Rest; try done; cbn; [by apply mdel_sorted|]. intros k v Hx. apply R. by eapply mdel_elem.
  - split_and!; try done. intros E. by rewrite Tr in E.
Qed.

Lemma kept_put state s : (strOf state (#"target") <> [] -> stored state) -> kept s -> kept (put rowsPath state s).2.
Proof using All.
  destruct s as [r d]. intros St K. unfold put. destruct (strOf state (#"target")) as [|c t] eqn:T; [done|]. specialize (St ltac:(done)). remember (c :: t) as target eqn:Et.
  unfold bind at 1, gets. cbn [fst snd]. unfold id at 1. destruct (match mget target (rows_ r) with Some _ => _ | None => _ end); [done|].
  destruct (law_text state St) as (line & E & P & Q). destruct K as (Ft & W & (js & H & Er) & Mk & Ax). cbn [fst snd] in *.
  destruct (appendLine_done rowsPath line d js W P H) as (d' & Ea & W' & H').
  pose (r1 := set_appended_ (S (appended_ r)) (place target state r)). destruct (place_others target state r) as (El & Em & Ex & Ep).
  assert (kept (r1, d')) as K1.
  { destruct Ft as (Sr & R & L & Sm & Om). assert (wrote [rowsPath; tmpOf rowsPath] d d') as W2.
    { destruct W' as (A & B & C). split_and!; [done..|]. intros p N. apply C. rewrite !not_elem_of_cons in N. rewrite list_elem_of_singleton. tauto. }
    split_and!; unfold r1; cbn [fst snd set_appended_].
    - unfold fit; cbn; rewrite place_rows, El, Em. split_and!; [by apply mset_sorted| |done..]. intros k v Hx. apply mset_elem in Hx as [[= -> ->]|Hx]; [|by apply R]. split_and!; [done|congruence|by subst].
    - by apply W'.
    - exists (js ++ [line]). split; [exact H'|]. unfold replay. rewrite foldl_app. cbn. rewrite place_rows, rmap_mset.
      rewrite (load_row _ line state target Q) by (congruence || by subst). unfold replay in Er. by rewrite Er.
    - unfold marksKept. cbn. rewrite Em. refine (marks_elsewhere r d d' _ _ W2 _ Mk). apply Ap.
    - unfold auxKept. cbn. rewrite Ex. refine (aux_elsewhere r d d' _ _ W2 _ Ax). by left. }
  unfold bind at 1, modify at 1. cbn [fst snd]. rewrite E. unfold onDisk, bind, ofResult, lift, modify, ret, when. cbn [fst snd]. rewrite Ea. cbn [fst snd]. unfold gets, id. cbn [fst snd].
  rewrite Ep. fold r1. destruct (_ <? _)%nat; [|exact K1]. destruct K1 as (Ft1 & W1 & _ & Mk1 & Ax1). destruct (compact_kept r1 d' Ft1 W1 Mk1 Ax1) as (d2 & -> & _ & K2). exact K2.
Qed.

Lemma compacted r d : kept (r, d) -> kept (compactLocked rowsPath (r, d)).2.
Proof using All. intros (Ft & W & _ & Mk & Ax). destruct (compact_kept r d Ft W Mk Ax) as (d' & -> & _ & K). exact K. Qed.

Lemma kept_erase ids s : kept s -> kept (erase rowsPath ids s).2.
Proof using All.
  destruct s as [r d]. intros (Ft & W & Rk & Mk & Ax). unfold erase, bind at 1, gets. cbn [fst snd]. destruct (eraseRows_spec ids false r Ft) as (F & M & A & Same).
  unfold id. destruct (eraseRows ids false r) as [any r1]. cbn [fst snd] in *. unfold bind, modify. cbn [fst snd]. destruct any; cbn [when].
  - destruct (compact_kept r1 d F W) as (d' & -> & _ & K); [by unfold marksKept; rewrite M|by unfold auxKept; rewrite A|exact K].
  - by rewrite (Same eq_refl).
Qed.

Lemma kept_setMark key m s : is_object m = true -> stored (JObj (mset key m (marks_ s.1))) -> kept s -> kept (setMark marksPath key m s).2.
Proof using All.
  destruct s as [r d]. intros O St ((Sr & R & L & Sm & Om) & W & Rk & Mk & Ax). unfold setMark, bind, modify. cbn [fst snd] in *.
  destruct (saveMarks_kept (set_marks_ (mset key m (marks_ r)) r) d) as (d' & -> & K); [|done..]. split_and!; cbn; try done; [by apply mset_sorted|].
  intros k v Hx. apply mset_elem in Hx as [[= -> ->]|Hx]; [done|by apply (Om k)].
Qed.

Lemma kept_clear s : stored (JObj []) -> kept s -> kept (clear rowsPath marksPath s).2.
Proof using All.
  destruct s as [r d]. intros St (_ & W & _ & _ & Ax). unfold clear, bind, modify. cbn [fst snd] in *. set (r1 := set_legacy_ [] _).
  assert (fit r1) as F by (split_and!; try done; intros k v Hx; by apply elem_of_nil in Hx).
  destruct (compact_rows r1 d F W) as (d1 & -> & W1 & Rk). cbn [fst snd].
  destruct (saveMarks_kept (set_appended_ 0 r1) d1) as (d2 & -> & K); [exact F|by apply W1|exact Rk| |exact St|exact K].
  refine (aux_elsewhere _ _ _ _ _ W1 _ Ax). by left.
Qed.

Lemma parsed_fixed text : reparse (default JNull (parse text)) = default JNull (parse text).
Proof using TL. destruct (parse text) as [v|] eqn:E; [|done]. by apply law_parsed in E as [E _]. Qed.

Lemma kept_aux name s : kept s -> kept (aux auxPrefix name s).2.
Proof using All.
  destruct s as [r d]. intros K. unfold aux, bind at 1, gets. cbn [fst snd]. unfold id. destruct (mget name (aux_ r)) as [v|] eqn:G; [done|].
  unfold onDisk, bind, lift, modify. cbn [fst snd]. destruct K as (Ft & W & Rk & Mk & Ax). split_and!; try done. cbn. intros n v. cbn. rewrite mget_mset.
  case_bool_decide as D; [|apply Ax]. intros [= <-]. subst. by rewrite parsed_fixed.
Qed.

Lemma kept_setAux name value s : stored value -> kept s -> kept (setAux auxPrefix name value s).2.
Proof using All.
  destruct s as [r d]. intros St (Ft & W & Rk & Mk & Ax). destruct (law_text _ St) as (text & E & _). destruct (text_unsealed _ _ St E) as (U & _ & P).
  cbn [fst snd] in *. destruct (writeFile_done (auxPath name) text d W U) as (d' & Ew & W' & R).
  unfold setAux, onDisk, bind, lift, modify. cbn [fst snd]. rewrite E. cbn. rewrite Ew. cbn. split_and!; cbn [fst snd]; [exact Ft|by apply W'| | |].
  - refine (rows_elsewhere r d d' _ W' _ Rk). apply Ap.
  - refine (marks_elsewhere r d d' _ _ W' _ Mk). apply Ap.
  - intros n v. cbn. rewrite mget_mset. case_bool_decide as D; [intros [= <-]; by rewrite D, R, P|]. intros G. destruct (wrote_read _ _ _ (auxPath n) W') as [_ ->]; [|by apply Ax].
    rewrite !not_elem_of_cons. split_and!; [|apply aux_no_tmp|apply not_elem_of_nil]. unfold RowStore.auxPath. rewrite !app_assoc. intros Ea.
    apply app_inv_tail in Ea. apply app_inv_head in Ea. done.
Qed.

Lemma kept_perform op s : okOp op s.1 -> kept s -> kept (perform rowsPath marksPath auxPrefix op s).2.
Proof using All.
  destruct op; cbn [okOp perform].
  - apply kept_put.
  - intros _. apply kept_erase.
  - intros [O St]. by apply kept_setMark.
  - apply kept_clear.
  - intros _ K. apply (kept_aux name) in K. unfold bind. by destruct (aux auxPrefix name s) as [[] s'].
  - apply kept_setAux.
  - intros _ K. unfold flush, bind, gets. cbn [fst snd]. destruct (_ <? _)%nat; cbn [when]; [|done]. destruct s. by apply compacted.
  - intros _ (Ft & W & K). split_and!; try apply K; try done. destruct Ft as (Sr & R & _ & Rest). by split_and!; try apply Rest.
  - intros _ K. destruct s. by apply compacted.
Qed.

(** *** Opening *)

Definition loaded (r : FileRowStore) : Prop :=
  msorted (rows_ r) /\ (forall k v, (k, v) ∈ rows_ r -> isRow k v /\ reparse v = v) /\ Forall isLegacy (legacy_ r) /\ marks_ r = [] /\ aux_ r = [].

Lemma load_loaded js : forall x, loaded x.2 -> loaded (foldl loadLine x js).2.
Proof using TL.
  induction js as [|l js IH]; intros x Ld; [done|]. cbn. apply IH. unfold loadLine. destruct (parse l) as [v|] eqn:P; [|done]. apply law_parsed in P as [Fx St].
  destruct v as [| | | | | | |m]; try done. cbn [snd]. destruct Ld as (Sr & R & L & M & A). destruct (strOf (JObj m) (#"target")) as [|c t] eqn:T.
  - destruct (_ && _); [|done]. split_and!; try done. cbn. apply list.Forall_app. split; [done|]. by repeat constructor.
  - destruct (place_others (c :: t) (JObj m) x.2) as (El & Em & Ea & _). split_and!; rewrite ?El, ?Em, ?Ea, ?place_rows; try done; [by apply mset_sorted|].
    intros k v Hx. apply mset_elem in Hx as [[= -> ->]|Hx]; [|by apply R]. by split_and!.
Qed.

Lemma loadMarks_spec text : msorted (loadMarks text) /\ (forall k v, (k, v) ∈ loadMarks text -> is_object v = true) /\ rmap (loadMarks text) = loadMarks text.
Proof using TL.
  unfold loadMarks. destruct (parse text) as [v|] eqn:P; [|by split_and!; [|intros k v Hx; by apply elem_of_nil in Hx|]]. apply law_parsed in P as [Fx _].
  destruct v as [| | | | | | |m]; try by (split_and!; [|intros k v Hx; by apply elem_of_nil in Hx|]). cbn in Fx. injection Fx as Fx.
  assert (Forall (fun kv => reparse kv.2 = kv.2) m) as Fm.
  { induction m as [|[k v] m IH]; [done|]. cbn in Fx. injection Fx as E1 E2. constructor; [done|by apply IH]. }
  clear Fx. set (acc := @nil (bytes * json)).
  assert (msorted acc /\ (forall k v, (k, v) ∈ acc -> is_object v = true) /\ rmap acc = acc) as A by (split_and!; [done|intros k v Hx; by apply elem_of_nil in Hx|done]).
  clearbody acc. revert acc A. induction Fm as [|[k v] m E _ IH]; intros acc A; [done|]. cbn. apply IH. destruct (is_object v) eqn:O; [|done]. destruct A as (S & Ob & Fx).
  split_and!; [by apply mset_sorted| |by rewrite rmap_mset, Fx; f_equal]. intros k' v' Hx. apply mset_elem in Hx as [[= -> ->]|Hx]; [done|by apply (Ob k')].
Qed.

Lemma open_kept d js : writable d -> holds (g_key d) (rawRead rowsPath d) js ->
  exists r d', openStore rowsPath marksPath d = (Done tt, (r, d')) /\ rows_ r = rows_ (replay js).2 /\ marks_ r = loadMarks (readFile marksPath d) /\ aux_ r = [] /\
    wrote [rowsPath; tmpOf rowsPath] d d' /\ kept (r, d').
Proof using All.
  intros W H. unfold openStore, loadLocked, onDisk. unfold bind, lift, gets, modify. cbn [fst snd]. unfold id. assert (readLines rowsPath d = js) as -> by (by apply linesOf_holds).
  assert (loaded (replay js).2) as Ld by (by apply load_loaded; split_and!; [done|intros k v Hx; by apply elem_of_nil in Hx|done..]).
  change (foldl loadLine (0%nat, noRows) js) with (replay js). destruct (replay js) as [n r0] eqn:Er0. cbn [fst snd] in *.
  set (r1 := set_marks_ _ _). destruct Ld as (Sr & R & L & _ & Ax). destruct (loadMarks_spec (readFile marksPath d)) as (Sm & Om & Fx).
  assert (fit r1) as F by (split_and!; try done; cbn; intros k v Hx; by apply R).
  assert (marksKept r1 d) as Mk by (symmetry; exact Fx).
  assert (auxKept r1 d) as Ak by (intros k v; cbn; by rewrite Ax).
  destruct (_ && _); cbn [when].
  - destruct (compact_kept r1 d F W Mk Ak) as (d' & -> & W' & K). exists (set_appended_ 0 r1), d'. do 3 (split; [done|]). split; [exact Ax|]. by split.
  - exists r1, d. do 3 (split; [done|]). split; [exact Ax|]. split; [by apply wrote_same; split_and!|]. split; [exact F|]. split; [exact W|]. split; [|by split].
    exists js. rewrite Er0. split; [done|]. cbn. symmetry. apply rmap_fixed; [|done]. intros k v G. by apply mget_Some_elem, R in G as [_ G].
Qed.

(** Claim C14 (store_reopens): nothing is lost over a restart. A store is opened on
    a file of rows and used; its rows are put, erased and cleared, its marks and
    documents are set, and its files are rewritten as they grow. Where writes are
    done, a store opened on the same files then has the same rows under the same
    identifiers and in the same chats, the same marks and the same documents, up
    to how JSON text keeps numbers. *)
Theorem store_reopens (ops : list Op) (d : Disk) (js : list bytes) :
  writable d -> holds (g_key d) (rawRead rowsPath d) js -> okRun ops (openStore rowsPath marksPath d).2 ->
  let s := run rowsPath marksPath auxPrefix ops (openStore rowsPath marksPath d).2 in
  let s' := (openStore rowsPath marksPath s.2).2 in
  (forall id, get id s'.1 = reparse <$> get id s.1) /\ (forall key, mark key s'.1 = reparse <$> mark key s.1) /\
  (forall key, forEachInChat key s'.1 = reparse <$> List.filter (fun v => bool_decide (chatKeyOfState v = key)) (forEach s.1)) /\
  (forall name v, mget name (aux_ s.1) = Some v -> (aux auxPrefix name s').1 = Done (reparse v)).
Proof using All.
  intros W H O. cbv zeta. destruct (open_kept d js W H) as (r & d1 & Eo & _ & _ & _ & _ & K). rewrite Eo in *. cbn [snd] in *. clear Eo W H d js.
  assert (kept (run rowsPath marksPath auxPrefix ops (r, d1))) as K1.
  { revert O K. generalize (r, d1). induction ops as [|op ops IH]; intros s O K; [done|]. destruct O as [O1 O2]. cbn [run]. apply IH; [done|]. by apply kept_perform. }
  destruct (run rowsPath marksPath auxPrefix ops (r, d1)) as [r1 d2]. clear K O. destruct K1 as (Ft & W & (js & H & E) & Mk & Ax). cbn [fst snd] in *.
  pose proof (index_load rowsPath marksPath (noRows, d2) indexed_noRows) as Ix. destruct (open_kept d2 js W H) as (r2 & d3 & Eo & Er & Em & Ea & W' & K2).
  unfold openStore in Eo. unfold openStore. rewrite Eo in *. cbn [fst snd] in *. rewrite E in Er. split_and!.
  - intros k. unfold get. by rewrite Er, mget_rmap.
  - intros k. unfold mark. rewrite Em, <- mget_rmap. by rewrite <- Mk.
  - intros key. rewrite indexed_forEach by done. unfold forEach. rewrite Er. clear. induction (rows_ r1) as [|[k v] m IH]; [done|]. cbn. rewrite chatKey_reparse. case_bool_decide; cbn; by rewrite <- IH.
  - intros name v G. unfold aux, bind at 1, gets. cbn [fst snd]. unfold id. rewrite Ea. cbn [mget]. unfold onDisk, bind, lift, modify, ret. cbn [fst snd]. f_equal.
    rewrite <- (Ax name v G). destruct (wrote_read _ _ _ (auxPath name) W') as [_ ->]; [|done]. rewrite !not_elem_of_cons. split_and!; [apply Ap|apply aux_no_tmp|apply not_elem_of_nil].
Qed.
End Kept.

(** ** A run *)

#[local] Existing Instance toy.
#[local] Existing Instance toy_laws.

Definition bob : json := jobj [(#"user", jobj [(#"address", JStr (#"bob"))])].
Definition rowOf (id text : bytes) : json :=
  jobj [(#"target", JStr id); (#"chat", bob); (#"row", jobj [(#"id", JStr id); (#"ts_ms", JStr (#"5")); (#"text", JStr text)])].
Definition markOf (id : bytes) : json := jobj [(#"chat", bob); (#"up_to_ts_ms", JStr (#"5")); (#"up_to_id", JStr id)].
Definition meta : json := jobj [(#"cursor", JStr (#"7"))].

(** Values and their texts. *)
Definition texts : list (json * bytes) :=
  [(rowOf (#"m1") (#"hi"), #"{1}"); (rowOf (#"m2") (#"ho"), #"{2}"); (rowOf (#"m1") (#"hey"), #"{3}"); (JObj [(#"u:bob", markOf (#"m1"))], #"{4}"); (meta, #"{5}")].
#[local] Instance tableText : JsonText := {
  dump j := match List.find (fun e => jsonEq e.1 j) texts with Some e => Ok e.2 | None => Err TypeError end;
  parse s := fst <$> List.find (fun e => bool_decide (e.2 = s)) texts
}.

Definition inTable (j : json) : Prop := j ∈ texts.*1.

#[local] Instance table_laws : TextLaws inTable.
Proof.
  split.
  - intros j Hj. unfold inTable, texts in Hj. cbn [fmap list_fmap fst] in Hj. rewrite !elem_of_cons in Hj.
    destruct Hj as [->|[->|[->|[->|[->|Hj]]]]]; [..|by apply elem_of_nil in Hj].
    all: eexists; split; [vm_compute; reflexivity|]; split; [apply someLine_plain; vm_compute; reflexivity|vm_compute; reflexivity].
  - intros s j. unfold parse, tableText. destruct (List.find _ texts) as [e|] eqn:F; [|done]. intros [= <-]. apply find_some in F as [F _].
    split; [|apply list_elem_of_fmap; exists e; split; [done|by apply list_elem_of_In]].
    cbn [texts In] in F. destruct F as [<-|[<-|[<-|[<-|[<-|[]]]]]]; vm_compute; reflexivity.
Qed.

Definition rowsAt : bytes := #"rows.jsonl".
Definition marksAt : bytes := #"marks.json".
Definition auxAt : bytes := #"aux-".

Lemma files_apart : apart rowsAt marksAt auxAt.
Proof.
  assert (forall p q c, c <> "p"%byte -> tmpOf p <> q ++ [c]) as T.
  { intros p q c N. unfold tmpOf. change (#".tmp") with ((#".tm") ++ (#"p")). rewrite app_assoc. intros E. by apply app_inj_tail in E as [_ E]. }
  split; [done|]. split.
  - intros p. split; [by apply (T p (#"rows.json"))|by apply (T p (#"marks.jso"))].
  - intros n. by split.
Qed.

(** A row is put, changed and put beside another that is erased again; a mark and
    a document are set. *)
Definition someUse : list Op :=
  [Put (rowOf (#"m1") (#"hi")); Put (rowOf (#"m2") (#"ho")); Put (rowOf (#"m1") (#"hey")); SetMark (#"u:bob") (markOf (#"m1"));
   SetAux (#"meta") meta; Erase [ #"m2"]].

Lemma store_reopens_witness :
  let s := run rowsAt marksAt auxAt someUse (openStore rowsAt marksAt (empty [])).2 in
  let s' := (openStore rowsAt marksAt s.2).2 in
  get (#"m1") s'.1 = Some (rowOf (#"m1") (#"hey")) /\ get (#"m2") s'.1 = None /\ mark (#"u:bob") s'.1 = Some (markOf (#"m1")) /\
  (aux auxAt (#"meta") s').1 = Done meta.
Proof.
  destruct (store_reopens inTable rowsAt marksAt auxAt files_apart someUse (empty []) []) as (G & M & _ & A).
  - split; [done|]. split; [done|by left].
  - apply holds_nil.
  - vm_compute. repeat first [split; [first [exact I|intros _|split; [reflexivity|]]|]]; try exact I. all: repeat constructor.
  - cbv zeta in *. rewrite !G, M. rewrite (A (#"meta") meta); [vm_compute; done|vm_compute; reflexivity].
Defined.

(** The file could not be written anew when a row was erased: nothing is left to
    flush, and the row is there again after a restart. *)
Lemma erased_row_returns :
  let s := run rowsAt marksAt auxAt [Put (rowOf (#"m1") (#"hi")); Erase [ #"m1"]; Flush] (openStore rowsAt marksAt (empty [NoFault; NotOpened])).2 in
  get (#"m1") s.1 = None /\ appended_ s.1 = 0 /\ faults s.2 = [] /\ get (#"m1") (openStore rowsAt marksAt s.2).2.1 = Some (rowOf (#"m1") (#"hi")).
Proof. by vm_compute. Qed.
End RowFiles.
