(* ===== verification/HistorySync.v ===== *)
(** * HistorySync: the journal of the account's history on a device

    Module [HistorySync] models the class of that name in [src/history_sync.cpp]:
    its queues of own operations, marks and incoming operations, the cursor and
    the head it has seen, the window of operations it knows of, the mutations
    that wait for their row, and the network operations. The engine, the bus, the
    store of rows, the callbacks and the clock are the host's ([HistoryHost]); a
    store is given. The program runs beside other threads: at each lock that is
    taken and each call of the host, [others] may change the members and the
    host. Under a lock the code is not interrupted. Log lines are left out, and so
    is the arithmetic of times beyond 64 bits. Loops that wait for what other
    code does get [turns]. *)

From S2P Require Import Prelude Json DomainSync PlannerUtil PlannerJson Poll StoreCrypt Host HistoryOps.
Import Base64 Sync StoreCrypt HistoryOps.

Module HistorySync.

#[local] Open Scope Z_scope.

(** Callbacks that are not set are [None]. [e_call] is the engine without a
    session, [e_session] the engine of the open session. *)
Class HistoryHost (Env : Type) := {
  e_call : bytes -> json -> Env -> result Thrown json * Env;
  e_session : bytes -> json -> Env -> result Thrown json * Env;
  e_fromBase64 : bytes -> result bytes bytes;
  h_openEngine : option (Env -> result Thrown bool * Env);
  h_request : option (bytes -> bytes -> Env -> result Thrown bytes * Env);
  h_onRows : option (list json -> Env -> result Thrown unit * Env);
  h_onMark : option (bytes -> json -> Env -> result Thrown unit * Env);
  h_onReplaced : option (Env -> result Thrown unit * Env);
  h_legacyOps : option (Env -> result Thrown (list json) * Env);
  h_dropRow : option (json -> Env -> result Thrown bool * Env);
  h_nowMs : Env -> result Thrown Z * Env;
  h_random : Z -> Z -> Env -> result Thrown Z * Env;
  h_wait : Z -> Env -> result Thrown unit * Env;
  s_get : bytes -> Env -> result Thrown (option json) * Env;
  s_put : json -> Env -> result Thrown unit * Env;
  s_inChat : bytes -> Env -> result Thrown (list json) * Env;
  s_all : Env -> result Thrown (list json) * Env;
  s_mark : bytes -> Env -> result Thrown (option json) * Env;
  s_setMark : bytes -> json -> Env -> result Thrown unit * Env;
  s_marks : Env -> result Thrown (list (bytes * json)) * Env;
  s_clear : Env -> result Thrown unit * Env;
  s_aux : bytes -> Env -> result Thrown json * Env;
  s_setAux : bytes -> json -> Env -> result Thrown unit * Env;
  s_flush : Env -> result Thrown unit * Env
}.

Record Config := {
  self : bytes;
  ownDelayMs : Z;
  markDelayMs : Z;
  incomingMinMs : Z;
  incomingMaxMs : Z;
  pollMs : Z;
  retryMs : Z;
  checkpointRecords : Z;
  checkpointAgeMs : Z;
  checkpointJitterMs : Z
}.

Definition aConfig (me : bytes) : Config := {| self := me; ownDelayMs := 300; markDelayMs := 1000; incomingMinMs := 1000; incomingMaxMs := 5000;
  pollMs := 60000; retryMs := 5000; checkpointRecords := 5000; checkpointAgeMs := 24 * 3600 * 1000; checkpointJitterMs := 60000 |}.

Record Incoming := { i_op : json; i_key : bytes; i_due : Z }.
Record Parked := { p_op : json; p_own : bool; p_author : bytes }.

(** [meta_] is an object; [parked_] is only asked by key. *)
Record HistorySync := mkHistory {
  meta_ : list (bytes * json);
  pendingOwn_ : list json;
  pendingMarks_ : list (bytes * json);
  ownDue_ : Z;
  marksDue_ : Z;
  incoming_ : list Incoming;
  seen_ : gset bytes;
  seenOrder_ : list bytes;
  parked_ : gmap bytes (list Parked);
  parkedCount_ : nat;
  syncRequested_ : bool;
  reopenRequested_ : bool;
  rotated_ : bool;
  nextPoll_ : Z;
  nextCheckpoint_ : Z;
  retryAt_ : Z;
  engine_ : bool;
  selves_ : list bytes;
  kicked_ : bool;
  stop_ : bool;
  started_ : bool
}.

Definition newHistory : HistorySync := {| meta_ := []; pendingOwn_ := []; pendingMarks_ := []; ownDue_ := 0; marksDue_ := 0;
  incoming_ := []; seen_ := ∅; seenOrder_ := []; parked_ := ∅; parkedCount_ := 0%nat; syncRequested_ := false; reopenRequested_ :=
  false; rotated_ := false; nextPoll_ := 0; nextCheckpoint_ := 0; retryAt_ := 0; engine_ := false; selves_ := []; kicked_ :=
  false; stop_ := false; started_ := false |}.

(** One member changed. *)
Definition set_meta_ (v : list (bytes * json)) (s : HistorySync) : HistorySync := mkHistory v (pendingOwn_ s) (pendingMarks_ s) (ownDue_ s) (marksDue_
  s) (incoming_ s) (seen_ s) (seenOrder_ s) (parked_ s) (parkedCount_ s) (syncRequested_ s) (reopenRequested_ s) (rotated_ s) (nextPoll_ s)
  (nextCheckpoint_ s) (retryAt_ s) (engine_ s) (selves_ s) (kicked_ s) (stop_ s) (started_ s).
Definition set_pendingOwn_ (v : list json) (s : HistorySync) : HistorySync := mkHistory (meta_ s) v (pendingMarks_ s) (ownDue_ s) (marksDue_ s)
  (incoming_ s) (seen_ s) (seenOrder_ s) (parked_ s) (parkedCount_ s) (syncRequested_ s) (reopenRequested_ s) (rotated_ s) (nextPoll_ s)
  (nextCheckpoint_ s) (retryAt_ s) (engine_ s) (selves_ s) (kicked_ s) (stop_ s) (started_ s).
Definition set_pendingMarks_ (v : list (bytes * json)) (s : HistorySync) : HistorySync := mkHistory (meta_ s) (pendingOwn_ s) v (ownDue_ s) (marksDue_
  s) (incoming_ s) (seen_ s) (seenOrder_ s) (parked_ s) (parkedCount_ s) (syncRequested_ s) (reopenRequested_ s) (rotated_ s) (nextPoll_ s)
  (nextCheckpoint_ s) (retryAt_ s) (engine_ s) (selves_ s) (kicked_ s) (stop_ s) (started_ s).
Definition set_ownDue_ (v : Z) (s : HistorySync) : HistorySync := mkHistory (meta_ s) (pendingOwn_ s) (pendingMarks_ s) v (marksDue_ s) (incoming_ s)
  (seen_ s) (seenOrder_ s) (parked_ s) (parkedCount_ s) (syncRequested_ s) (reopenRequested_ s) (rotated_ s) (nextPoll_ s) (nextCheckpoint_ s)
  (retryAt_ s) (engine_ s) (selves_ s) (kicked_ s) (stop_ s) (started_ s).
Definition set_marksDue_ (v : Z) (s : HistorySync) : HistorySync := mkHistory (meta_ s) (pendingOwn_ s) (pendingMarks_ s) (ownDue_ s) v (incoming_ s)
  (seen_ s) (seenOrder_ s) (parked_ s) (parkedCount_ s) (syncRequested_ s) (reopenRequested_ s) (rotated_ s) (nextPoll_ s) (nextCheckpoint_ s)
  (retryAt_ s) (engine_ s) (selves_ s) (kicked_ s) (stop_ s) (started_ s).
Definition set_incoming_ (v : list Incoming) (s : HistorySync) : HistorySync := mkHistory (meta_ s) (pendingOwn_ s) (pendingMarks_ s) (ownDue_ s)
  (marksDue_ s) v (seen_ s) (seenOrder_ s) (parked_ s) (parkedCount_ s) (syncRequested_ s) (reopenRequested_ s) (rotated_ s) (nextPoll_ s)
  (nextCheckpoint_ s) (retryAt_ s) (engine_ s) (selves_ s) (kicked_ s) (stop_ s) (started_ s).
Definition set_seen_ (v : gset bytes) (s : HistorySync) : HistorySync := mkHistory (meta_ s) (pendingOwn_ s) (pendingMarks_ s) (ownDue_ s) (marksDue_
  s) (incoming_ s) v (seenOrder_ s) (parked_ s) (parkedCount_ s) (syncRequested_ s) (reopenRequested_ s) (rotated_ s) (nextPoll_ s) (nextCheckpoint_
  s) (retryAt_ s) (engine_ s) (selves_ s) (kicked_ s) (stop_ s) (started_ s).
Definition set_seenOrder_ (v : list bytes) (s : HistorySync) : HistorySync := mkHistory (meta_ s) (pendingOwn_ s) (pendingMarks_ s) (ownDue_ s)
  (marksDue_ s) (incoming_ s) (seen_ s) v (parked_ s) (parkedCount_ s) (syncRequested_ s) (reopenRequested_ s) (rotated_ s) (nextPoll_ s)
  (nextCheckpoint_ s) (retryAt_ s) (engine_ s) (selves_ s) (kicked_ s) (stop_ s) (started_ s).
Definition set_parked_ (v : gmap bytes (list Parked)) (s : HistorySync) : HistorySync := mkHistory (meta_ s) (pendingOwn_ s) (pendingMarks_ s)
  (ownDue_ s) (marksDue_ s) (incoming_ s) (seen_ s) (seenOrder_ s) v (parkedCount_ s) (syncRequested_ s) (reopenRequested_ s) (rotated_ s) (nextPoll_
  s) (nextCheckpoint_ s) (retryAt_ s) (engine_ s) (selves_ s) (kicked_ s) (stop_ s) (started_ s).
Definition set_parkedCount_ (v : nat) (s : HistorySync) : HistorySync := mkHistory (meta_ s) (pendingOwn_ s) (pendingMarks_ s) (ownDue_ s) (marksDue_
  s) (incoming_ s) (seen_ s) (seenOrder_ s) (parked_ s) v (syncRequested_ s) (reopenRequested_ s) (rotated_ s) (nextPoll_ s) (nextCheckpoint_ s)
  (retryAt_ s) (engine_ s) (selves_ s) (kicked_ s) (stop_ s) (started_ s).
Definition set_syncRequested_ (v : bool) (s : HistorySync) : HistorySync := mkHistory (meta_ s) (pendingOwn_ s) (pendingMarks_ s) (ownDue_ s)
  (marksDue_ s) (incoming_ s) (seen_ s) (seenOrder_ s) (parked_ s) (parkedCount_ s) v (reopenRequested_ s) (rotated_ s) (nextPoll_ s) (nextCheckpoint_
  s) (retryAt_ s) (engine_ s) (selves_ s) (kicked_ s) (stop_ s) (started_ s).
Definition set_reopenRequested_ (v : bool) (s : HistorySync) : HistorySync := mkHistory (meta_ s) (pendingOwn_ s) (pendingMarks_ s) (ownDue_ s)
  (marksDue_ s) (incoming_ s) (seen_ s) (seenOrder_ s) (parked_ s) (parkedCount_ s) (syncRequested_ s) v (rotated_ s) (nextPoll_ s) (nextCheckpoint_
  s) (retryAt_ s) (engine_ s) (selves_ s) (kicked_ s) (stop_ s) (started_ s).
Definition set_rotated_ (v : bool) (s : HistorySync) : HistorySync := mkHistory (meta_ s) (pendingOwn_ s) (pendingMarks_ s) (ownDue_ s) (marksDue_ s)
  (incoming_ s) (seen_ s) (seenOrder_ s) (parked_ s) (parkedCount_ s) (syncRequested_ s) (reopenRequested_ s) v (nextPoll_ s) (nextCheckpoint_ s)
  (retryAt_ s) (engine_ s) (selves_ s) (kicked_ s) (stop_ s) (started_ s).
Definition set_nextPoll_ (v : Z) (s : HistorySync) : HistorySync := mkHistory (meta_ s) (pendingOwn_ s) (pendingMarks_ s) (ownDue_ s) (marksDue_ s)
  (incoming_ s) (seen_ s) (seenOrder_ s) (parked_ s) (parkedCount_ s) (syncRequested_ s) (reopenRequested_ s) (rotated_ s) v (nextCheckpoint_ s)
  (retryAt_ s) (engine_ s) (selves_ s) (kicked_ s) (stop_ s) (started_ s).
Definition set_nextCheckpoint_ (v : Z) (s : HistorySync) : HistorySync := mkHistory (meta_ s) (pendingOwn_ s) (pendingMarks_ s) (ownDue_ s) (marksDue_
  s) (incoming_ s) (seen_ s) (seenOrder_ s) (parked_ s) (parkedCount_ s) (syncRequested_ s) (reopenRequested_ s) (rotated_ s) (nextPoll_ s) v
  (retryAt_ s) (engine_ s) (selves_ s) (kicked_ s) (stop_ s) (started_ s).
Definition set_retryAt_ (v : Z) (s : HistorySync) : HistorySync := mkHistory (meta_ s) (pendingOwn_ s) (pendingMarks_ s) (ownDue_ s) (marksDue_ s)
  (incoming_ s) (seen_ s) (seenOrder_ s) (parked_ s) (parkedCount_ s) (syncRequested_ s) (reopenRequested_ s) (rotated_ s) (nextPoll_ s)
  (nextCheckpoint_ s) v (engine_ s) (selves_ s) (kicked_ s) (stop_ s) (started_ s).
Definition set_engine_ (v : bool) (s : HistorySync) : HistorySync := mkHistory (meta_ s) (pendingOwn_ s) (pendingMarks_ s) (ownDue_ s) (marksDue_ s)
  (incoming_ s) (seen_ s) (seenOrder_ s) (parked_ s) (parkedCount_ s) (syncRequested_ s) (reopenRequested_ s) (rotated_ s) (nextPoll_ s)
  (nextCheckpoint_ s) (retryAt_ s) v (selves_ s) (kicked_ s) (stop_ s) (started_ s).
Definition set_selves_ (v : list bytes) (s : HistorySync) : HistorySync := mkHistory (meta_ s) (pendingOwn_ s) (pendingMarks_ s) (ownDue_ s)
  (marksDue_ s) (incoming_ s) (seen_ s) (seenOrder_ s) (parked_ s) (parkedCount_ s) (syncRequested_ s) (reopenRequested_ s) (rotated_ s) (nextPoll_ s)
  (nextCheckpoint_ s) (retryAt_ s) (engine_ s) v (kicked_ s) (stop_ s) (started_ s).
Definition set_kicked_ (v : bool) (s : HistorySync) : HistorySync := mkHistory (meta_ s) (pendingOwn_ s) (pendingMarks_ s) (ownDue_ s) (marksDue_ s)
  (incoming_ s) (seen_ s) (seenOrder_ s) (parked_ s) (parkedCount_ s) (syncRequested_ s) (reopenRequested_ s) (rotated_ s) (nextPoll_ s)
  (nextCheckpoint_ s) (retryAt_ s) (engine_ s) (selves_ s) v (stop_ s) (started_ s).
Definition set_stop_ (v : bool) (s : HistorySync) : HistorySync := mkHistory (meta_ s) (pendingOwn_ s) (pendingMarks_ s) (ownDue_ s) (marksDue_ s)
  (incoming_ s) (seen_ s) (seenOrder_ s) (parked_ s) (parkedCount_ s) (syncRequested_ s) (reopenRequested_ s) (rotated_ s) (nextPoll_ s)
  (nextCheckpoint_ s) (retryAt_ s) (engine_ s) (selves_ s) (kicked_ s) v (started_ s).
Definition set_started_ (v : bool) (s : HistorySync) : HistorySync := mkHistory (meta_ s) (pendingOwn_ s) (pendingMarks_ s) (ownDue_ s) (marksDue_ s)
  (incoming_ s) (seen_ s) (seenOrder_ s) (parked_ s) (parkedCount_ s) (syncRequested_ s) (reopenRequested_ s) (rotated_ s) (nextPoll_ s)
  (nextCheckpoint_ s) (retryAt_ s) (engine_ s) (selves_ s) (kicked_ s) (stop_ s) v.

(** ** Values of JSON *)

(** [get<std::uint64_t>()], [get<std::int64_t>()], [get<bool>()]. *)
Definition getU64 (v : json) : result exn Z :=
  match v with
  | JInt z => Ok (Prelude.u64 z)
  | JUnsigned z => Ok z
  | JFloat f => match PlannerJson.truncated f with
                | Some z => if (0 <=? z) && (z <? 2 ^ 64) then Ok z else Err Undefined
                | None => Err Undefined
                end
  | _ => Err TypeError
  end.
Definition getI64 (v : json) : result exn Z :=
  match v with JInt z | JUnsigned z => Ok (Prelude.i64 z) | JFloat f => Poll.truncate f | _ => Err TypeError end.
Definition getBool (v : json) : result exn bool := match v with JBool b => Ok b | _ => Err TypeError end.
Definition getStr (v : json) : result exn bytes := match v with JStr s => Ok s | _ => Err TypeError end.

(** [j.value(k, d)]. *)
Definition valueOr {A} (get : json -> result exn A) (j : json) (k : bytes) (d : A) : result exn A :=
  match j with
  | JObj m => match obj_get k m with Some v => get v | None => Ok d end
  | _ => Err TypeError
  end.

(** [j[k]] of a value that is not changed: without the key it is undefined. *)
Definition atKey (j : json) (k : bytes) : result exn json :=
  match j with JObj m => match obj_get k m with Some v => Ok v | None => Err Undefined end | _ => Err TypeError end.

(** What a loop over a value goes through. *)
Definition elements (j : json) : list json :=
  match j with JNull => [] | JArr l => l | JObj m => m.*2 | v => [v] end.

(** [l[i]] for [first <= i < last] and [i < l.size()]. *)
Definition slice (l : json) (first last : Z) : result exn (list json) :=
  let n := Z.of_nat (length (elements l)) in
  if (Z.min last n <=? first) then Ok []
  else match l with
       | JArr xs => Ok (take (Z.to_nat (Z.min last n - first)) (drop (Z.to_nat first) xs))
       | _ => Err TypeError
       end.

Definition contains (k : bytes) (j : json) : bool := bool_decide (is_Some (jfind k j)).
Definition objectAt (k : bytes) (j : json) : option json := match jfind k j with Some (JObj m) => Some (JObj m) | _ => None end.

(** ** The window of operations seen in the journal *)

(** [while (seenOrder_.size() > kSeenCap)]. *)
Fixpoint trim (order : list bytes) (seen : gset bytes) : list bytes * gset bytes :=
  match order with
  | [] => ([], seen)
  | k :: rest => if (kSeenCap <? length order)%nat then trim rest (seen ∖ {[k]}) else (order, seen)
  end.

Definition noteKey (key : bytes) (s : HistorySync) : HistorySync :=
  if bool_decide (key ∈ seen_ s) then s
  else let '(order, seen) := trim (seenOrder_ s ++ [key]) ({[key]} ∪ seen_ s) in set_seen_ seen (set_seenOrder_ order s).

Section Code.
Context {Env : Type} {Ci : Cipher} {Host : HistoryHost Env} (cfg : Config).
Context (others : HistorySync * Env -> HistorySync * Env) (turns : nat).
Notation H := (M HistorySync Env).

(** Other threads run. *)
Definition meanwhile : H unit := fun s => (Done tt, others s).
Definition host {A} (h : Env -> result Thrown A * Env) : H A := meanwhile ;;; lift h.
Definition reading {A} (f : HistorySync -> A) : H A := meanwhile ;;; gets f.

Definition now : H Z := lift h_nowMs.
Definition randomIn (lo hi : Z) : H Z := if hi <=? lo then ret lo else lift (h_random lo hi).
Definition call (name : bytes) (args : json) : H json := host (e_call name args).

Definition stampOf (tsMs : Z) (opId : bytes) : H json :=
  match opId with
  | [] => call (#"historyNewStamp") (if 0 <? tsMs then jobj [(#"tsMs", JInt tsMs)] else JObj [])
  | _ => ret (jobj [(#"ts_ms", JStr (Decimal.to_string tsMs)); (#"op_id", JStr opId)])
  end.
Definition rowOpFromWire (wireRow chat : json) : H json := call (#"historyRowFromWire") (jobj [(#"row", wireRow); (#"chat", chat)]).

Definition unavailable : Thrown := BusError (#"ERROR_CODE_UNAVAILABLE").
Definition isCode (e : Thrown) (code : bytes) : bool := bool_decide (errorCode e = Some code).

Definition wake : H unit := meanwhile ;;; modify (set_kicked_ true).

(** ** The engine's session *)

Definition ensureEngine : H bool :=
  let* isOpen := reading engine_ in
  if isOpen then ret true
  else match h_openEngine with
       | None => ret false
       | Some f =>
           let* r := attempt (host f) in
           match r with
           | inl true =>
               modify (set_engine_ true) ;;;
               (let* a := attempt (host (e_session (#"selfAddresses") (JObj []))) in
                match a with
                | inl (JArr l) => meanwhile ;;; modify (set_selves_ (omap (fun x => match x with JStr (c :: s) => Some (c :: s) | _ => None end) l))
                | inl _ => meanwhile ;;; modify (set_selves_ [])
                | inr _ => ret tt
                end) ;;; ret true
           | _ => ret false
           end
       end.

Definition engine (name : bytes) (args : json) : H json :=
  let* ok := ensureEngine in if negb ok then throw unavailable else host (e_session name args).

Definition req (method body : bytes) : H bytes := match h_request with Some f => host (f method body) | None => throw unavailable end.

Definition fromB64 (s : bytes) : H bytes := match e_fromBase64 s with Ok b => ret b | Err t => throw (OtherError t) end.

(** The body of a request as the engine makes it. *)
Definition bodyOf (name : bytes) (args : json) : H bytes :=
  let* body := engine name args in let* b64 := ofResult (getStr body) in fromB64 b64.
Definition ingest (name resp : bytes) : H json := engine name (jobj [(#"resp", JStr (toBase64 resp))]).

Definition addresses (selves : list bytes) : list bytes :=
  foldl (fun out a => if bool_decide (a ∈ out) then out else out ++ [a]) (match self cfg with [] => [] | a => [a] end) selves.
Definition selfAddresses : H (list bytes) := let* l := reading selves_ in ret (addresses l).
Definition isSelf (address : bytes) : H bool :=
  match address with [] => ret false | _ => let* all := selfAddresses in ret (bool_decide (address ∈ all)) end.
Definition selvesJson : H json := let* l := selfAddresses in ret (JArr (JStr <$> l)).

(** ** What is saved *)

Definition saveMetaLocked : H unit := let* s := gets id in lift (s_setAux (#"meta") (JObj (meta_ s))).

Definition pendingDoc (s : HistorySync) : json :=
  jobj [(#"ops", JArr (pendingOwn_ s)); (#"marks", JObj (pendingMarks_ s));
        (#"incoming", JArr ((fun x => jobj [(#"op", i_op x); (#"key", JStr (i_key x))]) <$> incoming_ s))].
Definition savePendingLocked : H unit := let* s := gets id in lift (s_setAux (#"pending") (pendingDoc s)).

Definition setMeta (k : bytes) (v : json) : H unit := modify (fun s => set_meta_ (obj_set k v (meta_ s)) s).
Definition meta {A} (get : json -> result exn A) (k : bytes) (d : A) : H A := let* m := gets meta_ in ofResult (valueOr get (JObj m) k d).
Definition metaCursor : H Z := meta getU64 (#"cursor") 0.
Definition metaHead : H Z := meta getU64 (#"headSeq") 0.

(** ** Operations and marks *)

(** The new state, and whether it differs. *)
Definition applyToStore (op : json) : H (json * bool) :=
  match opTarget op with
  | [] => throw (OtherError (#"InvalidField"))
  | target =>
      let* prev := host (s_get target) in
      let* next := call (#"historyApply") (jobj ((#"op", op) :: match prev with Some p => [(#"state", p)] | None => [] end)) in
      if match prev with Some p => jsonEq p next | None => false end then ret (next, false)
      else host (s_put next) ;;; ret (next, true)
  end.

(** Whether the mark moved, and its chat. *)
Definition mergeMark (mark : json) : H (bool * bytes) :=
  if negb (is_object mark) then ret (false, [])
  else match chatKeyOf (field mark (#"chat")) with
       | [] => ret (false, [])
       | key =>
           let* prev := host (s_mark key) in
           let* r := attempt (call (#"historyMarkMerge") (jobj ((#"b", mark) :: match prev with Some p => [(#"a", p)] | None => [] end))) in
           match r with
           | inr _ => ret (false, key)
           | inl merged =>
               if negb (is_object merged) || match prev with Some p => jsonEq p merged | None => false end then ret (false, key)
               else host (s_setMark key merged) ;;; ret (true, key)
           end
       end.

Definition noteSeen (op : json) : H unit := match opKey op with [] => ret tt | key => meanwhile ;;; modify (noteKey key) end.

Definition unreadArgs (state : json) (mark : option json) (selves : json) : json :=
  jobj ((#"state", state) :: (#"self", selves) :: match mark with Some m => [(#"mark", m)] | None => [] end).

(** [call("historyIsUnread", ...).get<bool>()]; an exception counts as read. *)
Definition isUnread (state : json) (mark : option json) (selves : json) : H bool :=
  let* r := attempt (let* v := call (#"historyIsUnread") (unreadArgs state mark selves) in ofResult (getBool v)) in
  ret (match r with inl b => b | inr _ => false end).

(** Those of a chat that the step of the mark made read. *)
Fixpoint madeRead (rows : list json) (prev : option json) (lo : option (Z * bytes)) (hi : Z * bytes) (selves : json) : H (list json) :=
  match rows with
  | [] => ret []
  | s :: rows =>
      let skips := match rowPos s with
                   | Some p => negb (visibleState s) || posAfter p.1 p.2 hi.1 hi.2
                               || match lo with Some l => negb (posAfter p.1 p.2 l.1 l.2) | None => false end
                   | None => true
                   end in
      if skips then madeRead rows prev lo hi selves
      else let* u := isUnread s prev selves in let* out := madeRead rows prev lo hi selves in ret (if u then s :: out else out)
  end.

(** An own mark goes to its queue. *)
Definition queueMark (key : bytes) (m : json) : H unit :=
  meanwhile ;;;
  modify (fun s => set_pendingMarks_ (mset key m (pendingMarks_ s)) s) ;;;
  (let* due := gets marksDue_ in when (due =? 0) (let* t := now in modify (set_marksDue_ (t + markDelayMs cfg)))) ;;;
  savePendingLocked.

Definition advanceMark (mark : json) (own : bool) : H (list json) :=
  if negb (is_object mark) then ret []
  else match chatKeyOf (field mark (#"chat")) with
       | [] => ret []
       | key =>
           let* prev := host (s_mark key) in
           let* moved := mergeMark mark in
           if negb moved.1 then ret []
           else
             let* merged := host (s_mark key) in
             (match merged with Some m => when own (queueMark key m) | None => ret tt end) ;;;
             match merged ≫= markPos with
             | None => ret []
             | Some hi =>
                 let* selves := selvesJson in
                 let* rows := host (s_inChat key) in
                 let* out := madeRead rows prev (prev ≫= markPos) hi selves in
                 when own wake ;;; ret out
             end
       end.

(** [releaseParked]: the mutations that waited for this row, without the wait. *)
Definition takeParked (target : bytes) : H (list Parked) :=
  meanwhile ;;;
  let* s := gets id in
  match parked_ s !! target with
  | None => ret []
  | Some ready => modify (fun s => set_parked_ (delete target (parked_ s)) (set_parkedCount_ (parkedCount_ s - length ready)%nat s)) ;;; ret ready
  end.

(** [rec]: [record] for an operation that needs no author. *)
Fixpoint release (rec : json -> bool -> H json) (author : bytes) (ready : list Parked) : H (list json) :=
  match ready with
  | [] => ret []
  | p :: ready =>
      if negb (bool_decide (p_author p = author)) then release rec author ready
      else
        let* st := rec (p_op p) (p_own p) in
        let* rest := release rec author ready in
        ret (if is_object st then st :: rest else rest)
  end.

Definition releaseParked (rec : json -> bool -> H json) (state : json) : H (list json) :=
  let row := field state (#"row") in
  if negb (is_object row) then ret []
  else let* ready := takeParked (strOf state (#"target")) in release rec (strOf row (#"from")) ready.

(** An operation goes to the queue of its kind. *)
Definition enqueue (op : json) (own : bool) : H unit :=
  meanwhile ;;;
  if own then
    modify (fun s => set_pendingOwn_ (pendingOwn_ s ++ [op]) s) ;;;
    (let* due := gets ownDue_ in when (due =? 0) (let* t := now in modify (set_ownDue_ (t + ownDelayMs cfg)))) ;;;
    savePendingLocked
  else
    let* s := gets id in
    if bool_decide (opKey op = []) || bool_decide (opKey op ∈ seen_ s) then ret tt
    else
      let* t := now in
      let* r := randomIn (incomingMinMs cfg) (incomingMaxMs cfg) in
      modify (fun s => set_incoming_ (incoming_ s ++ [{| i_op := op; i_key := opKey op; i_due := t + r |}]) s) ;;;
      savePendingLocked.

(** [record] after its check of the author. *)
Fixpoint recordNow (fuel : nat) (op : json) (own : bool) : H json :=
  match fuel with
  | O => stuck
  | S fuel =>
      let* r := attempt (applyToStore op) in
      match r with
      | inr _ => ret JNull
      | inl (st, _) =>
          let* st := if contains (#"row") op
                     then let* released := releaseParked (recordNow fuel) st in ret (List.last released st)
                     else ret st in
          enqueue op own ;;;
          (if contains (#"row") op then
             let* mine := isSelf (strOf (field op (#"row")) (#"from")) in
             if mine && is_object (markAt st) then let* _ := advanceMark (markAt st) own in ret tt else ret tt
           else ret tt) ;;;
          wake ;;; ret st
      end
  end.

Definition park (op : json) (own : bool) (author : bytes) (s : HistorySync) : HistorySync :=
  if (parkedCount_ s <? kSeenCap)%nat
  then set_parkedCount_ (S (parkedCount_ s))
         (set_parked_ (<[opTarget op := default [] (parked_ s !! opTarget op) ++ [{| p_op := op; p_own := own; p_author := author |}]]> (parked_ s)) s)
  else s.

Definition record (op : json) (own : bool) (requiredAuthor : bytes) : H json :=
  match requiredAuthor with
  | [] => recordNow turns op own
  | _ =>
      let* prev := match opTarget op with [] => ret None | target => host (s_get target) end in
      let row := match prev with Some p => field p (#"row") | None => JNull end in
      if is_object row then
        if bool_decide (strOf row (#"from") = requiredAuthor) then recordNow turns op own else ret JNull
      else meanwhile ;;; modify (park op own requiredAuthor) ;;; ret JNull
  end.

(** ** What is read of the store *)

Definition state (id : bytes) : H (option json) := host (s_get id).
Definition view (s : json) : H json :=
  let* r := attempt (call (#"historyView") (jobj [(#"state", s)])) in ret (match r with inl v => v | inr _ => JObj [] end).
Definition markOf (chatKey : bytes) : H json := let* m := host (s_mark chatKey) in ret (default JNull m).

Record ReadState := { unread : Z; lastReadId : bytes; r_mark : json }.

(** Rows up to the mark give the last read one, the others are counted. *)
Fixpoint readRows (rows : list json) (m : option json) (pos : option (Z * bytes)) (selves : json) (n : Z) (best : Z * bytes) : H (Z * bytes) :=
  match rows with
  | [] => ret (n, best.2)
  | s :: rows =>
      match (if visibleState s then rowPos s else None) with
      | None => readRows rows m pos selves n best
      | Some p =>
          if match pos with Some q => negb (posAfter p.1 p.2 q.1 q.2) | None => false end
          then readRows rows m pos selves n (if posAfter p.1 p.2 best.1 best.2 then p else best)
          else let* u := isUnread s (match pos with Some _ => m | None => None end) selves in
               readRows rows m pos selves (if u then n + 1 else n) best
      end
  end.

Definition readState (chatKey : bytes) : H ReadState :=
  let* m := host (s_mark chatKey) in
  let* selves := selvesJson in
  let* rows := host (s_inChat chatKey) in
  let* r := readRows rows m (m ≫= markPos) selves 0 (- 2 ^ 63, []) in
  ret {| unread := r.1; lastReadId := r.2; r_mark := default JNull m |}.
Definition unreadCount (chatKey : bytes) : H Z := let* r := readState chatKey in ret (unread r).

(** ** What comes from the journal *)

Definition dropRow (s : json) : H bool := match h_dropRow with Some f => host (f s) | None => ret false end.

(** A row of a chat that was cleared here. *)
Definition dropped (kind : bytes) (body op : json) : H bool :=
  match h_dropRow with
  | None => ret false
  | Some _ =>
      let target := opTarget op in
      let* prev := match target with [] => ret None | _ => host (s_get target) end in
      let* old := match prev with Some p => dropRow p | None => ret false end in
      if old then ret true
      else if bool_decide (kind = #"state") then dropRow body
      else if bool_decide (kind = #"row") then dropRow (jobj [(#"target", JStr target); (#"chat", field body (#"chat")); (#"row", body)])
      else ret false
  end.

Notation Rows := (list json).
Notation Marks := (list (bytes * json)).

(** [marks[key] = *cfg_.store->mark(key)]; a mark that is not there any more is
    undefined. *)
Definition noteMark (moved : bool * bytes) (marks : Marks) : H Marks :=
  if moved.1 then let* m := host (s_mark moved.2) in match m with Some m => ret (mset moved.2 m marks) | None => throw (Library Undefined) end
  else ret marks.

Definition absorbOne (op : json) (rows : Rows) (marks : Marks) : H (Rows * Marks) :=
  match opKind op with
  | None => ret (rows, marks)
  | Some (kind, body) =>
      if bool_decide (kind = #"summary") then ret (rows, marks)
      else if bool_decide (kind = #"read") then
        let* moved := mergeMark body in let* marks := noteMark moved marks in ret (rows, marks)
      else
        noteSeen op ;;;
        (let* drop := dropped kind body op in
         if drop then ret (rows, marks)
         else
           let* r := attempt (applyToStore op) in
           match r with
           | inr _ => ret (rows, marks)
           | inl (st, changed) =>
               let rows := if changed : bool then rows ++ [st] else rows in
               let* released := if bool_decide (kind = #"row") || bool_decide (kind = #"state") then releaseParked (recordNow turns) st else ret [] in
               let rows := rows ++ released in
               let* mine := if bool_decide (kind = #"row") then isSelf (strOf body (#"from")) else ret false in
               if mine && is_object (markAt st) then
                 let* moved := mergeMark (markAt st) in let* marks := noteMark moved marks in ret (rows, marks)
               else ret (rows, marks)
           end)
  end.

Fixpoint absorbAll (ops : list json) (rows : Rows) (marks : Marks) : H (Rows * Marks) :=
  match ops with
  | [] => ret (rows, marks)
  | op :: ops => let* x := absorbOne op rows marks in absorbAll ops x.1 x.2
  end.
Definition absorbOps (ops : json) (rows : Rows) (marks : Marks) : H (Rows * Marks) :=
  match ops with JArr l => absorbAll l rows marks | _ => ret (rows, marks) end.

Definition deliver (rows : Rows) (marks : Marks) : H unit :=
  (match rows, h_onRows with _ :: _, Some f => host (f rows) | _, _ => ret tt end) ;;;
  match h_onMark with Some f => forEachM marks (fun km => host (f km.1 km.2)) | None => ret tt end.

(** ** Records by their numbers *)

Definition seqOf (rec : json) : result exn Z := let! v := atKey rec (#"seq") in Ok (u64 v).

(** The numbers, operations and records of an answer. *)
Fixpoint collect (allOps : json) (recs : list json) : result exn (list Z * Rows) :=
  match recs with
  | [] => Ok ([], [])
  | rec :: recs =>
      let! seq := seqOf rec in
      let! first := valueOr getU64 rec (#"first") 0 in
      let! count := valueOr getU64 rec (#"count") 0 in
      let! ops := slice allOps first (Prelude.u64 (first + count)) in
      let! rest := collect allOps recs in
      Ok (seq :: rest.1, ops ++ rest.2)
  end.

Definition jseqs (l : list Z) : json := JArr (JUnsigned <$> l).
Definition isIn (l : list Z) (z : Z) : bool := bool_decide (z ∈ l).

Fixpoint getLoop (fuel : nat) (rest : list Z) (ops recs : Rows) : H (Rows * Rows) :=
  match fuel with
  | O => stuck
  | S fuel =>
      let* stopped := match rest with [] => ret true | _ => reading stop_ end in
      if stopped then ret (ops, recs)
      else
        let batch := take 256 rest in
        let* body := bodyOf (#"getRequest") (jobj [(#"seqs", jseqs batch)]) in
        let* resp := req (#"history.get") body in
        let* r := ingest (#"ingest") resp in
        let records := elements (field r (#"records")) in
        let* x := ofResult (collect (field r (#"ops")) records) in
        let ops := ops ++ x.2 in
        let recs := recs ++ records in
        let next := List.filter (fun s => negb (isIn x.1 s)) rest in
        let progressed := existsb (isIn x.1) rest in
        let* rejected := ofResult (valueOr PlannerJson.intOf r (#"rejected") 0) in
        if negb progressed && (rejected =? 0) then ret (ops, recs)
        else getLoop fuel (if progressed then next else drop (Nat.min (length next) (length batch)) next) ops recs
  end.

(** A number leaves the list each time. *)
Definition getRecordsLocked (seqs : list Z) : H (Rows * Rows) := getLoop (S (length seqs)) seqs [] [].

(** ** Records are appended *)

Fixpoint appendRecs (recs : list json) (chunk : bool) : H (list Z) :=
  match recs with
  | [] => ret []
  | rec :: recs =>
      let* r := attempt (let* body := fromB64 (strOf rec (#"body")) in
                         let* resp := req (#"history.append") body in
                         let* r := ingest (#"ingestAppend") resp in ofResult (seqOf r)) in
      match r with
      | inl seq => let* rest := appendRecs recs chunk in ret (seq :: rest)
      | inr e => if isCode e (#"ERROR_CODE_DUPLICATE") && negb chunk then appendRecs recs chunk else throw e
      end
  end.

Definition appendLocked (ops : list json) (chunk : bool) : H (list Z) :=
  match ops with
  | [] => ret []
  | _ =>
      let* t := now in
      let* sealed := engine (#"seal") (jobj [(#"ops", JArr ops); (#"chunk", JBool chunk); (#"tsMs", JInt t)]) in
      let* seqs := appendRecs (elements sealed) chunk in
      forEachM ops noteSeen ;;; ret seqs
  end.

(** ** What the host knew before the journal *)

Fixpoint migrateOps (ops : list json) (states marks : Marks) : H (Marks * Marks) :=
  match ops with
  | [] => ret (states, marks)
  | op :: ops =>
      match objectAt (#"read") op with
      | Some read =>
          let* moved := mergeMark read in
          let* marks := match moved.2 with
                        | [] => ret marks
                        | key => let* m := host (s_mark key) in ret (match m with Some m => mset key m marks | None => marks end)
                        end in
          migrateOps ops states marks
      | None =>
          let* r := attempt (applyToStore op) in
          migrateOps ops (match r with inl (st, _) => mset (strOf st (#"target")) st states | inr _ => states end) marks
      end
  end.

Definition setAll (l m : Marks) : Marks := foldl (fun m kv => mset kv.1 kv.2 m) m l.

Definition migrated (states marks : Marks) : H unit :=
  meanwhile ;;;
  modify (fun s => set_pendingMarks_ (setAll marks (pendingMarks_ s)) s) ;;;
  (match marks with [] => ret tt | _ => let* t := now in modify (set_marksDue_ t) end) ;;;
  modify (fun s => set_pendingOwn_ (pendingOwn_ s ++ ((fun st => jobj [(#"state", st)]) <$> states.*2)) s) ;;;
  (match states with [] => ret tt | _ => let* t := now in modify (set_ownDue_ t) end) ;;;
  setMeta (#"migrated") (JBool true) ;;;
  savePendingLocked ;;; saveMetaLocked.

Definition migrateLocked : H bool :=
  meanwhile ;;;
  let* already := meta getBool (#"migrated") false in
  if already then ret true
  else
    let* ops := match h_legacyOps with Some f => host f | None => ret [] end in
    let* x := migrateOps ops [] [] in
    migrated x.1 x.2 ;;; ret true.

(** ** A checkpoint is loaded *)

(** The last summary among operations. *)
Definition lastSummary (ops : list json) : json := foldl (fun acc op => match jfind (#"summary") op with Some s => s | None => acc end) JNull ops.

Definition summaryOps (summary : json) : list json :=
  elements (field summary (#"chats")) ≫= fun c =>
    match objectAt (#"last") c with Some l => [jobj [(#"state", l)]] | None => [] end ++
    match objectAt (#"mark") c with Some m => [jobj [(#"read", m)]] | None => [] end.

(** [std::stable_sort] by month, the latest first. *)
Definition laterMonth (a b : json) : bool := blt (monthOfKey (strOf b (#"key"))) (monthOfKey (strOf a (#"key"))).
Fixpoint insertRef (r : json) (l : list json) : list json :=
  match l with [] => [r] | x :: l' => if laterMonth x r || negb (laterMonth r x) then x :: insertRef r l' else r :: l end.
Definition sortRefs (l : list json) : list json := foldl (fun acc r => insertRef r acc) [] l.

Fixpoint mapR {A B} (f : A -> result exn B) (l : list A) : result exn (list B) :=
  match l with [] => Ok [] | x :: l => let! y := f x in let! ys := mapR f l in Ok (y :: ys) end.

(** Numbers of the segments, then those of the other chunks. *)
Definition addSeqs (seqs : list Z) (summarySeq : Z) (chunks : list json) : list Z :=
  foldl (fun acc s => let v := u64 s in if (v =? 0) || (v =? summarySeq) || isIn acc v then acc else acc ++ [v]) seqs chunks.

Definition arrayOf (j : json) : list json := match j with JArr l => l | _ => [] end.

Fixpoint staleOf (recs : list json) : result exn (list Z) :=
  match recs with
  | [] => Ok []
  | rec :: recs =>
      let! stale := valueOr getBool rec (#"stale") false in
      let! seqs := if stale : bool then let! s := seqOf rec in Ok [s] else Ok [] in
      let! rest := staleOf recs in Ok (seqs ++ rest)
  end.

Definition tell (replace : bool) (x : Rows * Marks) : H (Rows * Marks) := if replace then ret x else deliver x.1 x.2 ;;; ret ([], []).

(** [fuel]: batches of [kGetBatch]. *)
Fixpoint loadBatches (fuel : nat) (seqs : list Z) (replace : bool) (x : Rows * Marks) (stale : list Z) : H (list Z) :=
  match fuel with
  | O => stuck
  | S fuel =>
      let* stopped := match seqs with [] => ret true | _ => reading stop_ end in
      if stopped then ret stale
      else
        let* got := getRecordsLocked (take kGetBatch seqs) in
        let* marked := ofResult (staleOf got.2) in
        let* x := absorbAll got.1 x.1 x.2 in
        let* x := tell replace x in
        loadBatches fuel (drop kGetBatch seqs) replace x (stale ++ marked)
  end.

Fixpoint knownSegments (refs : list json) (summaryStale : bool) (stale : list Z) (acc : list (bytes * json)) : result exn (list (bytes * json)) :=
  match refs with
  | [] => Ok acc
  | r :: refs =>
      let! seq := seqOf r in
      knownSegments refs summaryStale stale
        (obj_set (strOf r (#"key")) (jobj [(#"digest", JStr (strOf r (#"digest"))); (#"seq", JUnsigned seq); (#"stale", JBool (summaryStale || isIn stale seq))]) acc)
  end.

Definition firstStale (recs : list json) : result exn bool :=
  match recs with [] => Ok false | r :: _ => valueOr getBool r (#"stale") false end.

(** The checkpoint is loaded: its segments are known, and the cursor is behind it. *)
Definition loaded (cp : json) (refs : list json) (summaryStale : bool) (stale : list Z) (upto cpId : Z) (joins : bool) : H unit :=
  meanwhile ;;;
  let* segments := ofResult (knownSegments refs summaryStale stale []) in
  setMeta (#"segments") (JObj segments) ;;;
  setMeta (#"segmentsOf") (JUnsigned cpId) ;;;
  setMeta (#"checkpoint") cp ;;;
  let* c := metaCursor in
  setMeta (#"cursor") (JUnsigned (Z.max c upto)) ;;;
  when joins (setMeta (#"joined") (JBool true)) ;;;
  saveMetaLocked.

Definition loadCheckpointLocked (cp : json) (isJoin : bool) : H bool :=
  let summarySeq := u64 (field cp (#"summarySeq")) in
  let upto := u64 (field cp (#"uptoSeq")) in
  let cpId := u64 (field cp (#"id")) in
  let* got := if summarySeq =? 0 then ret ([], []) else getRecordsLocked [summarySeq] in
  let summary := lastSummary got.1 in
  meanwhile ;;;
  let* lastFull := meta getI64 (#"lastFullSyncMs") 0 in
  let* cursor := metaCursor in
  let* r := attempt (let* v := call (#"historyNeedsReplace") (jobj [(#"lastFullSyncMs", JInt lastFull); (#"tombstonesSinceMs", JInt (HistoryOps.i64 (field summary (#"tombstones_since_ms"))));
                                                               (#"cursor", JUnsigned cursor); (#"uptoSeq", JUnsigned upto)]) in ofResult (getBool v)) in
  let replace := match r with inl b => b | inr _ => false end in
  when replace (host s_clear) ;;;
  let* x := if is_object summary then let* x := absorbAll (summaryOps summary) [] [] in tell replace x else ret ([], []) in
  let refs := sortRefs (arrayOf (field summary (#"segments"))) in
  let* seqs := ofResult (mapR seqOf refs) in
  let seqs := addSeqs seqs summarySeq (arrayOf (field cp (#"chunkSeqs"))) in
  let* stale := loadBatches (S (length seqs)) seqs replace x [] in
  let* stopped := reading stop_ in
  if stopped then ret false
  else
    let* summaryStale := ofResult (firstStale got.2) in
    loaded cp refs (summaryStale : bool) stale upto cpId (isJoin || replace) ;;;
    (match h_onReplaced with Some f => when replace (host f) | None => ret tt end) ;;;
    ret true.

(** ** The device joins, and follows the journal *)

Definition askHead : H json :=
  let* body := bodyOf (#"headRequest") (JObj []) in let* resp := req (#"history.head") body in ingest (#"ingestHead") resp.

(** A head that is behind the one seen is of a server that lost records. *)
Definition noteHead (head : Z) : H bool :=
  meanwhile ;;;
  let* known := metaHead in
  if head <? known then ret false else setMeta (#"headSeq") (JUnsigned head) ;;; ret true.

(** A page of the journal after the cursor. *)
Definition askPage (cursor : Z) : H json :=
  let* body := bodyOf (#"syncRequest") (jobj [(#"afterSeq", JUnsigned cursor); (#"skipChunks", JBool true)]) in
  let* resp := req (#"history.sync") body in
  ingest (#"ingest") resp.

Definition joinLocked : H bool :=
  meanwhile ;;;
  let* joined := meta getBool (#"joined") false in
  if joined then ret true
  else
    let* cursor := metaCursor in
    if 0 <? cursor then setMeta (#"joined") (JBool true) ;;; saveMetaLocked ;;; ret true
    else
      let* head := askHead in
      let* onward := noteHead (u64 (field head (#"headSeq"))) in
      if negb onward then ret false
      else
        let* ok := match objectAt (#"checkpoint") head with Some cp => loadCheckpointLocked cp true | None => ret true end in
        if negb ok then ret false
        else meanwhile ;;; setMeta (#"joined") (JBool true) ;;; saveMetaLocked ;;; ret true.

Fixpoint maxSeq (recs : list json) (m : Z) : result exn Z :=
  match recs with [] => Ok m | rec :: recs => let! s := seqOf rec in maxSeq recs (Z.max m s) end.

(** [r.value("rejected", 0) > 0]: the cursor waits for a key that may come. *)
Definition waitsForKey (r : json) : H bool :=
  let* rejected := ofResult (valueOr PlannerJson.intOf r (#"rejected") 0) in
  if negb (0 <? rejected) then ret false
  else
    meanwhile ;;;
    let* streak := meta PlannerJson.intOf (#"rejectStreak") 0 in
    setMeta (#"rejectStreak") (JInt (streak + 1)) ;;; saveMetaLocked ;;; ret (streak + 1 <=? kRejectRetries).

(** The cursor after a page, and whether it was the last one. *)
Definition turnPage (r : json) (head : Z) : H bool :=
  let* top := ofResult (maxSeq (elements (field r (#"records"))) 0) in
  meanwhile ;;;
  let* c := metaCursor in
  let* more := ofResult (valueOr getBool r (#"more") false) in
  when (negb more) (let* t := now in setMeta (#"lastFullSyncMs") (JInt t)) ;;;
  setMeta (#"cursor") (JUnsigned (if more then Z.max c top else Z.max (Z.max c top) head)) ;;;
  setMeta (#"rejectStreak") (JInt 0) ;;;
  saveMetaLocked ;;; ret (negb more).

Fixpoint pullPages (pages : nat) (rows : Rows) (marks : Marks) : H (bool * (Rows * Marks)) :=
  match pages with
  | O => ret (true, (rows, marks))
  | S pages =>
      let* stopped := reading stop_ in
      if stopped then ret (true, (rows, marks))
      else
        meanwhile ;;;
        let* cursor := metaCursor in
        let* r := askPage cursor in
        let head := u64 (field r (#"headSeq")) in
        let* onward := noteHead head in
        if negb onward then ret (false, (rows, marks))
        else
          let* cp := match objectAt (#"compacted") r with
                         | Some c =>
                             let* upto := ofResult (atKey c (#"uptoSeq")) in
                             if cursor <? u64 upto then deliver rows marks ;;; let* ok := loadCheckpointLocked c false in ret (Some ok) else ret None
                         | None => ret None
                         end in
          let '(rows, marks) := match cp with Some _ => ([], []) | None => (rows, marks) end in
          if bool_decide (cp = Some false) then ret (false, (rows, marks))
          else
            let* waits := waitsForKey r in
            if waits then ret (false, (rows, marks))
            else
              let* x := absorbOps (field r (#"ops")) rows marks in
              let* isLast := turnPage r head in
              if isLast then ret (true, x) else pullPages pages x.1 x.2
  end.

Definition pullLocked : H bool :=
  let* x := pullPages kSyncPages [] [] in deliver x.2.1 x.2.2 ;;; ret x.1.

(** ** The queues are sent *)

(** Incoming operations for this time, those that wait, and whether there are
    any of the first. *)
Definition isDue (dueOnly : bool) (t : Z) (x : Incoming) : bool := negb dueOnly || (i_due x <=? t).

Definition splitIncoming (dueOnly : bool) (t : Z) : H (list Incoming) :=
  meanwhile ;;;
  let* s := gets id in
  modify (set_incoming_ (List.filter (fun x => negb (isDue dueOnly t x)) (incoming_ s))) ;;;
  ret (List.filter (fun x => isDue dueOnly t x && negb (bool_decide (i_key x ∈ seen_ s))) (incoming_ s)).

Definition takeIncoming (dueOnly : bool) (t : Z) : H (list Incoming) :=
  let* l := reading incoming_ in
  if negb (existsb (isDue dueOnly t) l) then ret []
  else
    let* _ := attempt pullLocked in
    splitIncoming dueOnly t.

Definition dropSent (sent marks : Marks) : Marks :=
  foldl (fun m km => match mget km.1 m with Some v => if jsonEq v km.2 then mdel km.1 m else m | None => m end) marks sent.

Definition notSent (incoming : list Incoming) (ownCount : nat) (marksSent : Marks) (t : Z) (e : Thrown) : H unit :=
  meanwhile ;;;
  modify (fun s => set_incoming_ (incoming_ s ++ ((fun x => {| i_op := i_op x; i_key := i_key x; i_due := t + retryMs cfg |}) <$> incoming)) s) ;;;
  savePendingLocked ;;;
  when (0 <? ownCount)%nat (modify (set_ownDue_ (t + retryMs cfg))) ;;;
  when (negb (bool_decide (marksSent.*1 = []))) (modify (set_marksDue_ (t + retryMs cfg))) ;;;
  when (isCode e (#"ERROR_CODE_LIMIT")) (setMeta (#"forceCheckpoint") (JBool true) ;;; modify (set_nextCheckpoint_ t)).

Definition sent (ownCount : nat) (marksSent : Marks) (t : Z) : H unit :=
  meanwhile ;;;
  modify (fun s => set_pendingOwn_ (drop ownCount (pendingOwn_ s)) s) ;;;
  modify (fun s => set_pendingMarks_ (dropSent marksSent (pendingMarks_ s)) s) ;;;
  modify (fun s => set_ownDue_ (match pendingOwn_ s with [] => 0 | _ => t + ownDelayMs cfg end) s) ;;;
  modify (fun s => set_marksDue_ (match pendingMarks_ s with [] => 0 | _ => t + markDelayMs cfg end) s) ;;;
  savePendingLocked.

Definition flushLocked (includeIncoming dueOnly : bool) : H bool :=
  let* t := now in
  meanwhile ;;;
  let* s := gets id in
  let own := if negb dueOnly || (negb (ownDue_ s =? 0) && (ownDue_ s <=? t)) then pendingOwn_ s else [] in
  let marksSent := if negb dueOnly || (negb (marksDue_ s =? 0) && (marksDue_ s <=? t)) then pendingMarks_ s else [] in
  let* incoming := if includeIncoming then takeIncoming dueOnly t else ret [] in
  let ops := own ++ ((fun km => jobj [(#"read", km.2)]) <$> marksSent) ++ (i_op <$> incoming) in
  match ops with
  | [] =>
      meanwhile ;;;
      when includeIncoming savePendingLocked ;;;
      modify (fun s => set_ownDue_ (match pendingOwn_ s with [] => 0 | _ => ownDue_ s end) s) ;;;
      modify (fun s => set_marksDue_ (match pendingMarks_ s with [] => 0 | _ => marksDue_ s end) s) ;;;
      ret true
  | _ =>
      let* r := attempt (appendLocked ops false) in
      match r with
      | inr e => notSent incoming (length own) marksSent t e ;;; ret false
      | inl _ => sent (length own) marksSent t ;;; ret true
      end
  end.

(** ** A checkpoint is written *)

(** The parts of a segment, each of one record; [sz] is the length of a state's
    text. *)
Fixpoint splitParts (l : list (json * Z)) (part : list json) (size : Z) : list (list json) :=
  match l with
  | [] => [part]
  | (s, sz) :: l =>
      if negb (bool_decide (length part = 0%nat)) && (kSegmentPartBytes <? size + sz) then part :: splitParts l [s] sz
      else splitParts l (part ++ [s]) (size + sz)
  end.

Definition pushAt (k : bytes) (v : json) (m : list (bytes * list json)) : list (bytes * list json) := mset k (default [] (mget k m) ++ [v]) m.

Context {Tx : JsonText}.

Definition sized (s : json) : result exn (json * Z) := let! text := dump s in Ok (s, Z.of_nat (length text)).
Definition partsOf (l : list json) : result exn (list (list json)) := let! sizes := mapR sized l in Ok (splitParts sizes [] 0).

(** What a checkpoint is made of: references of segments, what is known of them,
    and their numbers. *)
Record Built := { b_segments : list json; b_known : list (bytes * json); b_seqs : list Z }.

Definition addSegment (key digest : bytes) (seq : Z) (stale : bool) (b : Built) : Built := {|
  b_segments := b_segments b ++ [jobj [(#"key", JStr key); (#"digest", JStr digest); (#"seq", JStr (Decimal.to_string seq))]];
  b_known := obj_set key (jobj [(#"digest", JStr digest); (#"seq", JUnsigned seq); (#"stale", JBool stale)]) (b_known b);
  b_seqs := b_seqs b ++ [seq] |}.

(** The number of a segment that is on the server as it is; [0]: none. *)
Definition reusable (known : list (bytes * json)) (live : list Z) (partKey digest : bytes) : result exn Z :=
  match obj_get partKey known with
  | None => Ok 0
  | Some k =>
      if negb (bool_decide (strOf k (#"digest") = digest)) then Ok 0
      else
        let! stale := valueOr getBool k (#"stale") false in
        if stale : bool then Ok 0 else let! s := seqOf k in Ok (if isIn live s then s else 0)
  end.

(** The engine may make several records of a part. *)
Fixpoint addExtra (partKey digest : bytes) (got : list Z) (j : nat) (b : Built) : Built :=
  match got with
  | [] => b
  | s :: got => addExtra partKey digest got (S j) (addSegment (partKey ++ #"." ++ Decimal.to_string (Z.of_nat (S j))) digest s true b)
  end.

(** [None]: the checkpoint is not to be written. *)
Fixpoint uploadParts (key : bytes) (parts : list (list json)) (i : nat) (known : list (bytes * json)) (live : list Z) (b : Built) : H (option Built) :=
  match parts with
  | [] => ret (Some b)
  | part :: parts =>
      let partKey := if (i =? 0)%nat then key else key ++ #"#" ++ Decimal.to_string (Z.of_nat (S i)) in
      let* d := call (#"historySegmentDigest") (jobj [(#"states", JArr part)]) in
      let* digest := ofResult (getStr d) in
      let* seq := ofResult (reusable known live partKey digest) in
      if negb (seq =? 0) then uploadParts key parts (S i) known live (addSegment partKey digest seq false b)
      else
        let* got := appendLocked ((fun s => jobj [(#"state", s)]) <$> part) true in
        match got with
        | [] => ret None
        | seq :: extra => uploadParts key parts (S i) known live (addSegment partKey digest seq false (addExtra partKey digest extra 1 b))
        end
  end.

Fixpoint uploadSegments (segments : list (bytes * list json)) (known : list (bytes * json)) (live : list Z) (b : Built) : H (option Built) :=
  match segments with
  | [] => ret (Some b)
  | (key, l) :: segments =>
      let* stopped := reading stop_ in
      if stopped then ret None
      else
        let* parts := ofResult (partsOf l) in
        let* r := uploadParts key parts 0 known live b in
        match r with Some b => uploadSegments segments known live b | None => ret None end
  end.

Fixpoint groupStates (states : list json) (bySegment byChat : list (bytes * list json)) : H (list (bytes * list json) * list (bytes * list json)) :=
  match states with
  | [] => ret (bySegment, byChat)
  | s :: states =>
      let* r := attempt (let* k := call (#"historySegmentKey") (jobj [(#"state", s)]) in ofResult (getStr k)) in
      match r with
      | inl k => groupStates states (pushAt k s bySegment) (pushAt (chatKeyOfState s) s byChat)
      | inr _ => groupStates states bySegment byChat
      end
  end.

(** The last visible row, and its place. *)
Definition lastVisible (l : list json) : option json :=
  (foldl (fun acc s =>
     match (if visibleState s then rowPos s else None) with
     | Some p => if posAfter p.1 p.2 acc.2.1 acc.2.2 then (Some s, p) else acc
     | None => acc
     end) (None, (- 2 ^ 63, [])) l).1.

Fixpoint chatSummaries (byChat : list (bytes * list json)) : H (list json) :=
  match byChat with
  | [] => ret []
  | (chatKey, l) :: byChat =>
      let* n := unreadCount chatKey in
      let* m := host (s_mark chatKey) in
      let c := jobj ([(#"chat", field (default JNull (head l)) (#"chat")); (#"unread", JInt n); (#"rows", JUnsigned (Z.of_nat (length l)))] ++
                     match lastVisible l with Some s => [(#"last", s)] | None => [] end ++ match m with Some m => [(#"mark", m)] | None => [] end) in
      let* rest := chatSummaries byChat in ret (c :: rest)
  end.

Definition markSummaries (marks : Marks) (byChat : list (bytes * list json)) : list json :=
  marks ≫= fun km => match mget km.1 byChat with
                      | Some _ => []
                      | None => [jobj [(#"chat", field km.2 (#"chat")); (#"mark", km.2); (#"unread", JInt 0); (#"rows", JInt 0)]]
                      end.

(** Segments of the checkpoint before, from its summary. *)
Fixpoint summarySegments (refs : list json) (stale : bool) (acc : list (bytes * json)) : result exn (list (bytes * json)) :=
  match refs with
  | [] => Ok acc
  | r :: refs =>
      let! seq := seqOf r in
      summarySegments refs stale (obj_set (strOf r (#"key")) (jobj [(#"digest", JStr (strOf r (#"digest"))); (#"seq", JUnsigned seq); (#"stale", JBool stale)]) acc)
  end.
Fixpoint knownOf (ops recs : list json) (known : json) : result exn json :=
  match ops with
  | [] => Ok known
  | op :: ops =>
      match jfind (#"summary") op with
      | None => knownOf ops recs known
      | Some summary =>
          let! stale := firstStale recs in
          let! m := summarySegments (elements (field summary (#"segments"))) stale [] in knownOf ops recs (JObj m)
      end
  end.

Fixpoint kept (states : list json) : H (list json) :=
  match states with
  | [] => ret []
  | s :: states => let* drop := dropRow s in let* rest := kept states in ret (if drop then rest else s :: rest)
  end.

(** [j[k]] of a value that may be changed: without the key it is null. *)
Definition indexed (j : json) (k : bytes) : result exn json :=
  match j with JObj m => Ok (default JNull (obj_get k m)) | JNull => Ok JNull | _ => Err TypeError end.

Fixpoint anyBefore (summarySeq : Z) (recs : list json) : result exn bool :=
  match recs with [] => Ok false | rec :: recs => let! seq := seqOf rec in if seq <? summarySeq then Ok true else anyBefore summarySeq recs end.

(** Whether a record came between the cursor and the summary, or did not open. *)
Definition raced (r : json) (summarySeq : Z) : result exn (bool * bool) :=
  let! before := anyBefore summarySeq (elements (field r (#"records"))) in
  if before then Ok (true, false) else let! rejected := valueOr PlannerJson.intOf r (#"rejected") 0 in Ok (false, 0 <? rejected).

Definition committed (id summarySeq t : Z) (b : Built) : H unit :=
  meanwhile ;;;
  setMeta (#"checkpoint") (jobj [(#"id", JUnsigned id); (#"uptoSeq", JUnsigned summarySeq); (#"summarySeq", JUnsigned summarySeq);
                                 (#"chunkSeqs", jseqs (b_seqs b)); (#"createdMs", JInt t)]) ;;;
  setMeta (#"segments") (JObj (b_known b)) ;;;
  setMeta (#"segmentsOf") (JUnsigned id) ;;;
  setMeta (#"forceCheckpoint") (JBool false) ;;;
  modify (fun s => set_meta_ (mdel (#"casFailedFor") (meta_ s)) s) ;;;
  let* c := metaCursor in
  setMeta (#"cursor") (JUnsigned (Z.max c summarySeq)) ;;;
  let* h := metaHead in
  setMeta (#"headSeq") (JUnsigned (Z.max h summarySeq)) ;;;
  saveMetaLocked.

Definition commit (expected summarySeq t : Z) (b : Built) : H bool :=
  let* r := attempt (
    let* body := bodyOf (#"commitRequest") (jobj [(#"expected", JUnsigned expected); (#"uptoSeq", JUnsigned summarySeq);
                                                 (#"summarySeq", JUnsigned summarySeq); (#"chunkSeqs", jseqs (b_seqs b))]) in
    let* resp := req (#"history.checkpoint.commit") body in
    let* r := ingest (#"ingestCommit") resp in ofResult (indexed r (#"checkpointId"))) in
  match r with
  | inl id => committed (u64 id) summarySeq t b ;;; ret true
  | inr e =>
      if isCode e (#"ERROR_CODE_DUPLICATE")
      then meanwhile ;;; setMeta (#"casFailedFor") (JUnsigned expected) ;;; saveMetaLocked ;;; ret false
      else throw e
  end.

(** The number of the checkpoint the server has, [0] without one. *)
Definition idOf (cp : option json) : result exn Z := match cp with Some cp => let! v := atKey cp (#"id") in Ok (u64 v) | None => Ok 0 end.

(** Segments known of the checkpoint before, and those that are on the server. *)
Definition knownSegmentsOf (cp : option json) (known : json) : H (json * list Z) :=
  match cp with
  | None => ret (known, [])
  | Some cp =>
      let live := u64 <$> elements (field cp (#"chunkSeqs")) in
      if is_object known then ret (known, live)
      else
        let* s := ofResult (atKey cp (#"summarySeq")) in
        if u64 s =? 0 then ret (known, live)
        else let* got := getRecordsLocked [u64 s] in let* known := ofResult (knownOf got.1 got.2 known) in ret (known, live)
  end.

Definition buildCheckpointLocked (head : json) : H bool :=
  let cp := objectAt (#"checkpoint") head in
  let* expected := ofResult (idOf cp) in
  let* t := now in
  meanwhile ;;;
  let* forced := meta getBool (#"forceCheckpoint") false in
  let* m := gets meta_ in
  let known := if u64 (field (JObj m) (#"segmentsOf")) =? expected then field (JObj m) (#"segments") else JNull in
  let* x := knownSegmentsOf cp known in
  let '(known, live) := x in
  let known := match known with JObj k => if forced then [] else k | _ => [] end in
  let* all := host s_all in
  let* states := kept all in
  let* states := call (#"historyCompact") (jobj [(#"states", JArr states); (#"nowMs", JInt t)]) in
  let* groups := groupStates (elements states) [] [] in
  let '(bySegment, byChat) := groups in
  let* built := uploadSegments bySegment known live {| b_segments := []; b_known := []; b_seqs := [] |} in
  match built with
  | None => ret false
  | Some b =>
      let* chats := chatSummaries byChat in
      let* marks := host s_marks in
      let chats := chats ++ markSummaries marks byChat in
      let* summaryOp := call (#"historySummary") (jobj [(#"chats", JArr chats); (#"segments", JArr (b_segments b)); (#"tombstonesSinceMs", JInt (t - kHorizonMs))]) in
      let* sseq := appendLocked [summaryOp] true in
      match list.last sseq with
      | None => ret false
      | Some summarySeq =>
          meanwhile ;;;
          let* cursor := metaCursor in
          let* r := askPage cursor in
          let* race := ofResult (raced r summarySeq) in
          if race.1 then let* _ := pullLocked in ret false
          else if race.2 then ret false
          else commit expected summarySeq t b
      end
  end.

(** Whether it is time for a checkpoint. *)
Definition isTime (cp : option json) (headSeq : Z) (forced : bool) (t : Z) : result exn bool :=
  match cp with
  | None => Ok (forced || (checkpointRecords cfg <? headSeq))
  | Some cp =>
      let! upto := atKey cp (#"uptoSeq") in
      let since := if u64 upto <? headSeq then headSeq - u64 upto else 0 in
      let! aged := if 0 <? since then let! created := atKey cp (#"createdMs") in Ok (checkpointAgeMs cfg <? t - HistoryOps.i64 created) else Ok false in
      Ok (if forced then 0 <? since else (checkpointRecords cfg <? since) || aged)
  end.

Definition maybeCheckpointLocked (force : bool) : H bool :=
  let* head := askHead in
  let headSeq := u64 (field head (#"headSeq")) in
  let cp := objectAt (#"checkpoint") head in
  let* cpId := ofResult (idOf cp) in
  meanwhile ;;;
  let* known := metaHead in
  if headSeq <? known then ret false
  else
    let* m := gets meta_ in
    when (match obj_get (#"casFailedFor") m with Some JNull | None => false | Some v => negb (u64 v =? cpId) end)
      (modify (fun s => set_meta_ (mdel (#"casFailedFor") (meta_ s)) s)) ;;;
    let* m := gets meta_ in
    let* skip := if force then ret false
                 else if contains (#"casFailedFor") (JObj m) then ret true
                 else let* t := now in
                      let* forced := meta getBool (#"forceCheckpoint") false in
                      let* due := ofResult (isTime cp headSeq forced t) in ret (negb due) in
    if skip then ret true
    else
      let* ok := pullLocked in
      if negb ok then ret false
      else
        meanwhile ;;;
        let* cursor := metaCursor in
        if cursor <? headSeq then ret false else buildCheckpointLocked head.

(** ** What the host calls *)

Definition guardedRun (m : H bool) : H bool := let* r := attempt m in ret (match r with inl b => b | inr _ => false end).

Definition syncNow : H bool :=
  guardedRun (let* a := migrateLocked in let* b := if a then joinLocked else ret false in if b then pullLocked else ret false).
Definition flushNow (includeIncoming : bool) : H bool := guardedRun (flushLocked includeIncoming false).
Definition checkpointNow (force : bool) : H bool := guardedRun (maybeCheckpointLocked force).

Definition start : H unit :=
  meanwhile ;;;
  let* already := gets started_ in
  modify (set_started_ true) ;;;
  when (negb already) (modify (set_stop_ false) ;;; meanwhile ;;; modify (set_syncRequested_ true)).

(** The worker is waited for: it is one of the [others]. *)
Definition stop : H unit := modify (set_stop_ true) ;;; wake ;;; meanwhile ;;; modify (set_started_ false) ;;; host s_flush.

Definition onSessionEvent (ev : json) : H unit :=
  let type := strOf ev (#"type") in
  if bool_decide (type = #"journal") then
    if bool_decide (strOf ev (#"journal") = #"history") then meanwhile ;;; modify (set_syncRequested_ true) ;;; wake else ret tt
  else if bool_decide (type = #"stateReady") then
    meanwhile ;;;
    modify (set_reopenRequested_ true) ;;;
    (let* r := ofResult (valueOr getBool ev (#"rotated") false) in when r (modify (set_rotated_ true))) ;;;
    modify (set_syncRequested_ true) ;;; wake
  else ret tt.

(** [owned]: whether the lock of the engine was free. *)
Definition status (owned : bool) : H json :=
  meanwhile ;;;
  let* cursor := metaCursor in
  let* head := metaHead in
  let* full := meta getI64 (#"lastFullSyncMs") 0 in
  let* migrated := meta getBool (#"migrated") false in
  let* joined := meta getBool (#"joined") false in
  let* s := gets id in
  let* id := ofResult (match objectAt (#"checkpoint") (JObj (meta_ s)) with Some cp => let! v := indexed cp (#"id") in Ok (u64 v) | None => Ok 0 end) in
  ret (jobj [(#"cursor", JUnsigned cursor); (#"headSeq", JUnsigned head); (#"lastFullSyncMs", JInt full); (#"migrated", JBool migrated);
             (#"joined", JBool joined); (#"checkpointId", JUnsigned id);
             (#"pendingOwn", JUnsigned (Z.of_nat (length (pendingOwn_ s) + length (pendingMarks_ s))));
             (#"pendingIncoming", JUnsigned (Z.of_nat (length (incoming_ s)))); (#"engine", JBool (negb owned || engine_ s))]).

(** The constructor: what was saved before the program ended. *)
Definition restored (t : Z) (saved pending : json) : HistorySync :=
  let s := set_meta_ (match saved with JObj m => m | _ => [] end) newHistory in
  let s := set_pendingOwn_ (arrayOf (field pending (#"ops"))) s in
  let s := set_pendingMarks_ (match field pending (#"marks") with JObj m => m | _ => [] end) s in
  let s := set_incoming_ (omap (fun x => match jfind (#"op") x, strOf x (#"key") with
                                         | Some op, c :: key => Some {| i_op := op; i_key := c :: key; i_due := t + incomingMinMs cfg |}
                                         | _, _ => None
                                         end) (arrayOf (field pending (#"incoming")))) s in
  let s := set_ownDue_ (match pendingOwn_ s with [] => 0 | _ => t end) s in
  set_marksDue_ (match pendingMarks_ s with [] => 0 | _ => t end) s.
Definition openHistory : H unit :=
  let* saved := lift (s_aux (#"meta")) in
  let* pending := lift (s_aux (#"pending")) in
  let* t := now in
  modify (fun _ => restored t saved pending).

(** ** The worker *)

Definition syncTurn (t : Z) : H bool :=
  let* r := attempt (
    meanwhile ;;;
    let* migrated := meta getBool (#"migrated") false in
    let* a := migrateLocked in
    when (a && negb migrated) (let* _ := flushLocked false false in ret tt) ;;;
    let* b := if a then joinLocked else ret false in
    let* ready := if b then pullLocked else ret false in
    meanwhile ;;;
    modify (set_nextPoll_ (t + pollMs cfg)) ;;;
    when (negb ready) (modify (set_retryAt_ (t + retryMs cfg))) ;;;
    let* s := gets id in
    when (ready && (nextCheckpoint_ s =? 0))
      (let* head := metaHead in
       let* due := ofResult (isTime (objectAt (#"checkpoint") (JObj (meta_ s))) head false t) in
       let* forced := if due then ret true else meta getBool (#"forceCheckpoint") false in
       when forced (let* r := randomIn 0 (checkpointJitterMs cfg) in modify (set_nextCheckpoint_ (t + r)))) ;;;
    ret ready) in
  match r with
  | inl ready => ret ready
  | inr _ => meanwhile ;;; modify (set_retryAt_ (t + retryMs cfg)) ;;; modify (set_nextPoll_ (t + pollMs cfg)) ;;; ret false
  end.

Definition flushTurn : H unit :=
  let* _ := attempt (flushLocked true true) in
  meanwhile ;;;
  let* next := gets nextCheckpoint_ in
  let* t := if next =? 0 then ret 0 else now in
  when (negb (next =? 0) && (next <=? t))
    (modify (set_nextCheckpoint_ 0) ;;; let* _ := attempt (maybeCheckpointLocked false) in ret tt).

(** When to wake: the earliest of the moments that are set. *)
Definition earliest (l : list Z) (w : Z) : Z := foldl (fun w x => if (0 <? x) && (x <? w) then x else w) w l.

Definition sleep (ready : bool) : H unit :=
  meanwhile ;;;
  let* s := gets id in
  if syncRequested_ s || reopenRequested_ s then ret tt
  else
    let* t := now in
    let w := earliest ((if ready then [] else [retryAt_ s]) ++
                       match pendingOwn_ s with [] => [] | _ => [if ownDue_ s =? 0 then t else ownDue_ s] end ++
                       match pendingMarks_ s with [] => [] | _ => [if marksDue_ s =? 0 then t else marksDue_ s] end ++
                       (i_due <$> incoming_ s) ++ [nextCheckpoint_ s]) (nextPoll_ s) in
    let* t := now in
    meanwhile ;;;
    let* s := gets id in
    when (negb (kicked_ s || stop_ s)) (host (h_wait (Z.min (Z.max 10 (w - t)) (pollMs cfg)))) ;;;
    modify (set_kicked_ false).

Definition turn (ready : bool) : H bool :=
  let* t := now in
  meanwhile ;;;
  let* s := gets id in
  modify (fun s => set_reopenRequested_ false (set_rotated_ false (set_syncRequested_ false s))) ;;;
  when (reopenRequested_ s) (meanwhile ;;; modify (set_engine_ false)) ;;;
  when (rotated_ s)
    (meanwhile ;;; setMeta (#"forceCheckpoint") (JBool true) ;;; setMeta (#"segments") (JObj []) ;;; saveMetaLocked ;;;
     let* r := randomIn 0 (checkpointJitterMs cfg) in modify (set_nextCheckpoint_ (t + r))) ;;;
  let* retry := reading retryAt_ in
  let* ready := if (retry <=? t) && (syncRequested_ s || (nextPoll_ s <=? t) || negb ready) then syncTurn t else ret ready in
  when ready flushTurn ;;; sleep ready ;;; ret ready.

(** The first turns of the loop. *)
Fixpoint loop (n : nat) (ready : bool) : H unit :=
  match n with
  | O => ret tt
  | S n => let* stopped := reading stop_ in if stopped then ret tt else let* ready := turn ready in loop n ready
  end.
End Code.
End HistorySync.
