(* ===== verification/HistoryWalk.v ===== *)
(** * HistoryWalk: the pieces of the journal's code

    A property of computations that the pieces of [HistorySync] have (values,
    exceptions, calls of the host, the sections under the lock) is one of every
    operation. Theorems about the journal give it for the pieces. *)

From S2P Require Import Prelude Json DomainSync PlannerUtil PlannerJson Poll StoreCrypt Host HistoryOps HistorySync.
Import Base64 Sync StoreCrypt HistoryOps HistorySync.

Module HistoryWalk.

#[local] Open Scope Z_scope.

Section Walk.
Context {Env : Type} {Ci : Cipher} {Host : HistoryHost Env} {Tx : JsonText} (cfg : Config).
Context (others : HistorySync * Env -> HistorySync * Env) (turns : nat).
Notation H := (M HistorySync Env).

(** What is asked of the host outside of the pieces. *)
Inductive hostCall : forall A : Type, (Env -> result Thrown A * Env) -> Prop :=
| c_call n a : hostCall json (e_call n a)
| c_session n a : hostCall json (e_session n a)
| c_open f : h_openEngine = Some f -> hostCall bool f
| c_request f m b : h_request = Some f -> hostCall bytes (f m b)
| c_onRows f l : h_onRows = Some f -> hostCall unit (f l)
| c_onMark f k m : h_onMark = Some f -> hostCall unit (f k m)
| c_onReplaced f : h_onReplaced = Some f -> hostCall unit f
| c_legacyOps f : h_legacyOps = Some f -> hostCall (list json) f
| c_dropRow f s : h_dropRow = Some f -> hostCall bool (f s)
| c_now : hostCall Z h_nowMs
| c_random lo hi : hostCall Z (h_random lo hi)
| c_wait ms : hostCall unit (h_wait ms)
| c_get i : hostCall (option json) (s_get i)
| c_put s : hostCall unit (s_put s)
| c_inChat k : hostCall (list json) (s_inChat k)
| c_all : hostCall (list json) s_all
| c_mark k : hostCall (option json) (s_mark k)
| c_setMark k m : hostCall unit (s_setMark k m)
| c_marks : hostCall (list (bytes * json)) s_marks
| c_clear : hostCall unit s_clear
| c_meta v : hostCall unit (s_setAux (#"meta") v)
| c_flush : hostCall unit s_flush.

(** The queues, the window, what waits, the cursor and the head stay. *)
Definition beside (f : HistorySync -> HistorySync) : Prop := forall s,
  pendingOwn_ (f s) = pendingOwn_ s /\ pendingMarks_ (f s) = pendingMarks_ s /\ incoming_ (f s) = incoming_ s /\ seen_ (f s) = seen_ s /\
  seenOrder_ (f s) = seenOrder_ s /\ parked_ (f s) = parked_ s /\ parkedCount_ (f s) = parkedCount_ s /\
  obj_get (#"cursor") (meta_ (f s)) = obj_get (#"cursor") (meta_ s) /\ obj_get (#"headSeq") (meta_ (f s)) = obj_get (#"headSeq") (meta_ s).

Context (Phi : forall A, H A -> Prop) (parks : json -> Prop).

(** The sections under the lock that change those, and the loops. *)
Class Pieces : Prop := {
  pc_sound :: Sound hostCall beside Phi;
  pc_meanwhile : Phi _ (meanwhile others);
  pc_save : Phi _ savePendingLocked;
  pc_note op : Phi _ (noteSeen others op);
  pc_take target : Phi _ (takeParked others target);
  pc_park op own author : parks op -> Phi _ (modify (park op own author));
  pc_queueMark key m : Phi _ (queueMark cfg others key m);
  pc_enqueue op own : Phi _ (enqueue cfg others op own);
  pc_split dueOnly t : Phi _ (splitIncoming others dueOnly t);
  pc_notSent l n m t e : Phi _ (notSent cfg others l n m t e);
  pc_migrated states marks : Phi _ (migrated others states marks);
  pc_head head : Phi _ (noteHead others head);
  pc_loaded cp refs b l upto i j : Phi _ (loaded others cp refs b l upto i j);
  pc_turn r head : Phi _ (turnPage others r head);
  pc_committed i s t b : Phi _ (committed others i s t b)
}.

Context `{!Pieces}.
#[local] Existing Instance pc_sound.

Lemma beside_meta k v : k <> #"cursor" -> k <> #"headSeq" -> beside (fun s => set_meta_ (obj_set k v (meta_ s)) s).
Proof. intros N N' s. split_and!; [done..| |]; by apply obj_get_set_ne, not_eq_sym. Qed.

Lemma obj_get_mdel k k' (m : list (bytes * json)) : k <> k' -> obj_get k (mdel k' m) = obj_get k m.
Proof.
  intros N. induction m as [|[k1 v] m IH]; [done|]. cbn. case_bool_decide as E; [subst; by rewrite bool_decide_false|]. cbn. by rewrite IH.
Qed.
Lemma beside_mdel k : k <> #"cursor" -> k <> #"headSeq" -> beside (fun s => set_meta_ (mdel k (meta_ s)) s).
Proof. intros N N' s. split_and!; [done..| |]; by apply obj_get_mdel, not_eq_sym. Qed.

#[local] Hint Extern 1 (beside _) => (intros ?; by split_and!) : sound.
#[local] Hint Extern 2 (beside _) => (apply beside_mdel; by intros ?) : sound.
#[local] Hint Extern 2 (beside _) => (apply beside_meta; by intros ?) : sound.
#[local] Hint Constructors hostCall : sound.
#[local] Hint Resolve pc_meanwhile pc_save pc_note pc_take pc_queueMark pc_enqueue pc_split pc_notSent pc_migrated pc_head pc_loaded pc_turn pc_committed : sound.
#[local] Ltac walk := pose proof pc_sound as Sound_; sound.

Lemma walk_host {A} h : hostCall A h -> Phi A (host others h).
Proof using All. intros C. unfold host. pose proof pc_sound as Q. sound_step; [auto with sound|]. by apply (@sound_lift _ _ _ _ _ Q). Qed.
Lemma walk_reading {A} (f : HistorySync -> A) : Phi A (reading others f).
Proof using All. unfold reading. walk. Qed.
Lemma walk_call n a : Phi _ (call others n a).
Proof using All. apply walk_host. constructor. Qed.
Lemma walk_now : Phi _ now.
Proof using All. unfold now. walk. Qed.
Lemma walk_random lo hi : Phi _ (randomIn lo hi).
Proof using All. unfold randomIn. walk. Qed.
Lemma walk_wake : Phi _ (wake others).
Proof using All. unfold wake. walk. Qed.
#[local] Hint Extern 1 (Phi _ (host _ _)) => (apply walk_host; solve [eauto with sound nocore]) : sound.
#[local] Hint Resolve @walk_reading walk_call walk_now walk_random walk_wake : sound.

Lemma walk_ensureEngine : Phi _ (ensureEngine others).
Proof using All. unfold ensureEngine. destruct h_openEngine as [f|] eqn:E; walk. Qed.
#[local] Hint Resolve walk_ensureEngine : sound.
Lemma walk_engine n a : Phi _ (engine others n a).
Proof using All. unfold engine. walk. Qed.
Lemma walk_req m b : Phi _ (req others m b).
Proof using All. unfold req. destruct h_request as [f|] eqn:E; walk. Qed.
Lemma walk_fromB64 s : Phi _ (fromB64 s).
Proof using All. unfold fromB64. walk. Qed.
#[local] Hint Resolve walk_engine walk_req walk_fromB64 : sound.
Lemma walk_bodyOf n a : Phi _ (bodyOf others n a).
Proof using All. unfold bodyOf. walk. Qed.
Lemma walk_ingest n r : Phi _ (ingest others n r).
Proof using All. unfold ingest. walk. Qed.
Lemma walk_addresses : Phi _ (selfAddresses cfg others).
Proof using All. unfold selfAddresses. walk. Qed.
#[local] Hint Resolve walk_bodyOf walk_ingest walk_addresses : sound.
Lemma walk_isSelf a : Phi _ (isSelf cfg others a).
Proof using All. unfold isSelf. walk. Qed.
Lemma walk_selves : Phi _ (selvesJson cfg others).
Proof using All. unfold selvesJson. walk. Qed.
Lemma walk_saveMeta : Phi _ saveMetaLocked.
Proof using All. unfold saveMetaLocked. walk. Qed.
Lemma walk_meta {A} (get : json -> result exn A) k d : Phi _ (meta get k d).
Proof using All. unfold meta. walk. Qed.
#[local] Hint Resolve walk_isSelf walk_selves walk_saveMeta @walk_meta : sound.
#[local] Hint Extern 2 (Phi _ metaCursor) => apply walk_meta : sound.
#[local] Hint Extern 2 (Phi _ metaHead) => apply walk_meta : sound.
Lemma walk_setMeta k v : k <> #"cursor" -> k <> #"headSeq" -> Phi _ (setMeta k v).
Proof using All. intros N N'. unfold setMeta. apply (@sound_modify _ _ _ _ _ pc_sound). by apply beside_meta. Qed.
#[local] Hint Extern 1 (Phi _ (setMeta _ _)) => (apply walk_setMeta; by intros ?) : sound.

(** ** Operations and marks *)

Lemma walk_apply op : Phi _ (applyToStore others op).
Proof using All. unfold applyToStore. walk. Qed.
Lemma walk_merge m : Phi _ (mergeMark others m).
Proof using All. unfold mergeMark. walk. Qed.
Lemma walk_unread s m l : Phi _ (isUnread others s m l).
Proof using All. unfold isUnread. walk. Qed.
#[local] Hint Resolve walk_apply walk_merge walk_unread : sound.
Lemma walk_madeRead rows prev lo hi l : Phi _ (madeRead others rows prev lo hi l).
Proof using All. induction rows as [|s rows IH]; cbn [madeRead]; walk. Qed.
#[local] Hint Resolve walk_madeRead : sound.
Lemma walk_advance m own : Phi _ (advanceMark cfg others m own).
Proof using All. unfold advanceMark. walk. Qed.
#[local] Hint Resolve walk_advance : sound.
Lemma walk_release rec : (forall op own, Phi _ (rec op own)) -> forall ready a, Phi _ (release rec a ready).
Proof using All. intros R. induction ready as [|p ready IH]; intros a; cbn [release]; walk. Qed.
Lemma walk_releaseParked rec s : (forall op own, Phi _ (rec op own)) -> Phi _ (releaseParked others rec s).
Proof using All. intros R. unfold releaseParked. pose proof (walk_release rec R). walk. Qed.

(** One step of [recordNow], if its nested ones are such. *)
Lemma walk_recordS fuel : (forall op own, Phi _ (recordNow cfg others fuel op own)) -> forall op own, Phi _ (recordNow cfg others (S fuel) op own).
Proof using All. intros R op own. cbn [recordNow]. pose proof (fun s => walk_releaseParked (recordNow cfg others fuel) s R). walk. Qed.

(** ** The journal *)

Lemma walk_dropRow s : Phi _ (dropRow others s).
Proof using All. unfold dropRow. destruct h_dropRow as [f|] eqn:E; walk. Qed.
#[local] Hint Resolve walk_dropRow : sound.
Lemma walk_dropped k b op : Phi _ (dropped others k b op).
Proof using All. unfold dropped. walk. Qed.
Lemma walk_noteMark m l : Phi _ (noteMark others m l).
Proof using All. unfold noteMark. walk. Qed.
Lemma walk_deliver rows marks : Phi _ (deliver others rows marks).
Proof using All. unfold deliver. destruct h_onRows as [f|] eqn:E, h_onMark as [g|] eqn:E'; walk. Qed.
Lemma walk_appendRecs recs chunk : Phi _ (appendRecs others recs chunk).
Proof using All. induction recs as [|r recs IH]; cbn [appendRecs]; walk. Qed.
#[local] Hint Resolve walk_dropped walk_noteMark walk_deliver walk_appendRecs : sound.
Lemma walk_append ops chunk : Phi _ (appendLocked others ops chunk).
Proof using All. unfold appendLocked. walk. Qed.
Lemma walk_migrateOps ops : forall states marks, Phi _ (migrateOps others ops states marks).
Proof using All. induction ops as [|op ops IH]; intros states marks; cbn [migrateOps]; walk. Qed.
#[local] Hint Resolve walk_append walk_migrateOps : sound.
Lemma walk_migrate : Phi _ (migrateLocked others).
Proof using All. unfold migrateLocked. destruct h_legacyOps as [f|] eqn:E; walk. Qed.
Lemma walk_askHead : Phi _ (askHead others).
Proof using All. unfold askHead. walk. Qed.
Lemma walk_askPage c : Phi _ (askPage others c).
Proof using All. unfold askPage. walk. Qed.
Lemma walk_waits r : Phi _ (waitsForKey others r).
Proof using All. unfold waitsForKey. walk. Qed.
#[local] Hint Resolve walk_migrate walk_askHead walk_askPage walk_waits : sound.

Lemma walk_start : Phi _ (start others).
Proof using All. unfold start. walk. Qed.
Lemma walk_stop : Phi _ (stop others).
Proof using All. unfold stop. walk. Qed.
Lemma walk_event ev : Phi _ (onSessionEvent others ev).
Proof using All. unfold onSessionEvent. walk. Qed.

(** One turn of the loops that get records, if the rest is such. *)
Lemma walk_getS fuel : (forall rest ops recs, Phi _ (getLoop others fuel rest ops recs)) -> forall rest ops recs, Phi _ (getLoop others (S fuel) rest ops recs).
Proof using All. intros R rest ops recs. cbn [getLoop]. walk. Qed.

Section Loops.
Context (records : forall op own, Phi _ (recordNow cfg others turns op own)) (gotten : forall seqs, Phi _ (getRecordsLocked others seqs)).
#[local] Hint Resolve records gotten : sound.

Lemma walk_record op own author : parks op -> Phi _ (record cfg others turns op own author).
Proof using All. intros P. unfold record. pose proof (pc_park op own author P). walk. Qed.
Lemma walk_absorbOne op rows marks : Phi _ (absorbOne cfg others turns op rows marks).
Proof using All. unfold absorbOne. pose proof (fun s => walk_releaseParked (recordNow cfg others turns) s records). walk. Qed.
Lemma walk_absorbAll ops : forall rows marks, Phi _ (absorbAll cfg others turns ops rows marks).
Proof using All. induction ops as [|op ops IH]; intros rows marks; cbn [absorbAll]; [walk|]. pose proof (walk_absorbOne op rows marks). walk. Qed.
#[local] Hint Resolve walk_absorbAll : sound.
Lemma walk_absorbOps ops rows marks : Phi _ (absorbOps cfg others turns ops rows marks).
Proof using All. unfold absorbOps. walk. Qed.
Lemma walk_tell b x : Phi _ (tell others b x).
Proof using All. unfold tell. walk. Qed.
#[local] Hint Resolve walk_absorbOps walk_tell : sound.
Lemma walk_batchS fuel : (forall seqs b x stale, Phi _ (loadBatches cfg others turns fuel seqs b x stale)) ->
  forall seqs b x stale, Phi _ (loadBatches cfg others turns (S fuel) seqs b x stale).
Proof using All. intros R seqs b x stale. cbn [loadBatches]. walk. Qed.

(** What threads call while the network is in use: nothing of it waits for the
    network. *)
Inductive localOp : H unit -> Prop :=
| l_record op own author : parks op -> localOp (let* _ := record cfg others turns op own author in ret tt)
| l_mark m own : localOp (let* _ := advanceMark cfg others m own in ret tt)
| l_event ev : localOp (onSessionEvent others ev)
| l_start : localOp (start others)
| l_stop : localOp (stop others).

Theorem walk_local m : localOp m -> Phi _ m.
Proof using All.
  destruct 1; [pose proof (walk_record op own author); walk|walk|apply walk_event|apply walk_start|apply walk_stop].
Qed.

Section Network.
Context (batches : forall seqs b x stale, Phi _ (loadBatches cfg others turns (S (length seqs)) seqs b x stale)).
#[local] Hint Resolve batches : sound.

Lemma walk_checkpoint cp b : Phi _ (loadCheckpointLocked cfg others turns cp b).
Proof using All. unfold loadCheckpointLocked. destruct h_onReplaced as [f|] eqn:E; walk. Qed.
#[local] Hint Resolve walk_checkpoint : sound.
Lemma walk_join : Phi _ (joinLocked cfg others turns).
Proof using All. unfold joinLocked. walk. Qed.
Lemma walk_pages n : forall rows marks, Phi _ (pullPages cfg others turns n rows marks).
Proof using All. induction n as [|n IH]; intros rows marks; cbn [pullPages]; walk. Qed.
#[local] Hint Resolve walk_join walk_pages : sound.
Lemma walk_pull : Phi _ (pullLocked cfg others turns).
Proof using All. unfold pullLocked. walk. Qed.
#[local] Hint Resolve walk_pull : sound.
Lemma walk_takeIncoming d t : Phi _ (takeIncoming cfg others turns d t).
Proof using All. unfold takeIncoming. walk. Qed.
#[local] Hint Resolve walk_takeIncoming : sound.

Lemma walk_flush i d : (forall n m t, Phi _ (sent cfg others n m t)) -> Phi _ (flushLocked cfg others turns i d).
Proof using All. intros Se. unfold flushLocked. walk. Qed.

(** ** Reading, and the checkpoint *)

Lemma walk_readRows rows : forall m pos l n best, Phi _ (readRows others rows m pos l n best).
Proof using All. induction rows as [|s rows IH]; intros m pos l n best; cbn [readRows]; walk. Qed.
#[local] Hint Resolve walk_readRows : sound.
Lemma walk_unreadCount k : Phi _ (unreadCount cfg others k).
Proof using All. unfold unreadCount, readState. walk. Qed.
Lemma walk_uploadParts key parts : forall i known live b, Phi _ (uploadParts others key parts i known live b).
Proof using All. induction parts as [|p parts IH]; intros i known live b; cbn [uploadParts]; walk. Qed.
#[local] Hint Resolve walk_unreadCount walk_uploadParts : sound.
Lemma walk_uploadSegments l : forall known live b, Phi _ (uploadSegments others l known live b).
Proof using All. induction l as [|[k p] l IH]; intros known live b; cbn [uploadSegments]; walk. Qed.
Lemma walk_groups states : forall a b, Phi _ (groupStates others states a b).
Proof using All. induction states as [|s states IH]; intros a b; cbn [groupStates]; walk. Qed.
Lemma walk_summaries l : Phi _ (chatSummaries cfg others l).
Proof using All. induction l as [|[k p] l IH]; cbn [chatSummaries]; walk. Qed.
Lemma walk_kept l : Phi _ (kept others l).
Proof using All. induction l as [|s l IH]; cbn [kept]; walk. Qed.
Lemma walk_known cp k : Phi _ (knownSegmentsOf others cp k).
Proof using All. unfold knownSegmentsOf. walk. Qed.
Lemma walk_commit e s t b : Phi _ (commit others e s t b).
Proof using All. pose proof (fun i s t b => pc_committed i s t b). unfold commit. walk. Qed.
#[local] Hint Resolve walk_uploadSegments walk_groups walk_summaries walk_kept walk_known walk_commit : sound.
Lemma walk_build h : Phi _ (buildCheckpointLocked cfg others turns h).
Proof using All. unfold buildCheckpointLocked. walk. Qed.
#[local] Hint Resolve walk_build : sound.
Lemma walk_maybe f : Phi _ (maybeCheckpointLocked cfg others turns f).
Proof using All. unfold maybeCheckpointLocked. walk. Qed.
#[local] Hint Resolve walk_maybe walk_migrate : sound.

(** ** What the host calls, and the worker *)

Context (flushes : forall i d, Phi _ (flushLocked cfg others turns i d)).
#[local] Hint Resolve flushes : sound.

Inductive operation : H bool -> Prop :=
| o_sync : operation (syncNow cfg others turns)
| o_flush i : operation (flushNow cfg others turns i)
| o_checkpoint f : operation (checkpointNow cfg others turns f)
| o_turn ready : operation (turn cfg others turns ready).

Theorem walk_operation m : operation m -> Phi _ m.
Proof using All.
  destruct 1; unfold syncNow, flushNow, checkpointNow, guardedRun; [walk..|].
  assert (forall t, Phi _ (syncTurn cfg others turns t)) by (intros t; unfold syncTurn; walk).
  assert (Phi _ (flushTurn cfg others turns)) by (unfold flushTurn; walk).
  assert (forall r, Phi _ (sleep cfg others r)) by (intros r; unfold sleep; walk).
  unfold turn. walk.
Qed.
End Network.
End Loops.
End Walk.
End HistoryWalk.
