(* ===== verification/HistoryBench.v ===== *)
(** * HistoryBench: a small host for the journal of history

    A host with an engine that keeps an operation as the state of its target, a
    server that answers appends with the errors it is given, a store in memory and
    a screen. The theorems about [HistorySync] are run on it. *)

From S2P Require Import Prelude Json DomainSync PlannerUtil PlannerJson Poll StoreCrypt Host HistoryOps HistorySync HistoryWalk.
Import Base64 Sync StoreCrypt HistoryOps HistorySync HistoryWalk.

Module HistoryBench.

#[local] Open Scope Z_scope.

(** The rows, the marks and the documents of the store; the answers [ingest] will
    give; the records that were made, and those the server has; the errors of the
    requests to come; the rows that were shown. *)
Record Bench := mkBench {
  b_rows : list (bytes * json);
  b_marks : list (bytes * json);
  b_aux : list (bytes * json);
  b_pages : list (result Thrown json);
  b_sealed : list (list json * list bytes);
  b_taken : list bytes;
  b_faults : list (option Thrown);
  b_shown : list json
}.

Definition withRow (k : bytes) (v : json) (e : Bench) : Bench :=
  mkBench (mset k v (b_rows e)) (b_marks e) (b_aux e) (b_pages e) (b_sealed e) (b_taken e) (b_faults e) (b_shown e).
Definition withMark (k : bytes) (v : json) (e : Bench) : Bench :=
  mkBench (b_rows e) (mset k v (b_marks e)) (b_aux e) (b_pages e) (b_sealed e) (b_taken e) (b_faults e) (b_shown e).
Definition withAux (k : bytes) (v : json) (e : Bench) : Bench :=
  mkBench (b_rows e) (b_marks e) (mset k v (b_aux e)) (b_pages e) (b_sealed e) (b_taken e) (b_faults e) (b_shown e).
Definition nextPage (e : Bench) : Bench :=
  mkBench (b_rows e) (b_marks e) (b_aux e) (tail (b_pages e)) (b_sealed e) (b_taken e) (b_faults e) (b_shown e).
Definition withSealed (ops : list json) (bs : list bytes) (e : Bench) : Bench :=
  mkBench (b_rows e) (b_marks e) (b_aux e) (b_pages e) ((ops, bs) :: b_sealed e) (b_taken e) (b_faults e) (b_shown e).
Definition takes (b : bytes) (e : Bench) : Bench :=
  mkBench (b_rows e) (b_marks e) (b_aux e) (b_pages e) (b_sealed e) (b :: b_taken e) (b_faults e) (b_shown e).
Definition nextFault (e : Bench) : Bench :=
  mkBench (b_rows e) (b_marks e) (b_aux e) (b_pages e) (b_sealed e) (b_taken e) (tail (b_faults e)) (b_shown e).
Definition shows (l : list json) (e : Bench) : Bench :=
  mkBench (b_rows e) (b_marks e) (b_aux e) (b_pages e) (b_sealed e) (b_taken e) (b_faults e) (b_shown e ++ l).
Definition empties (e : Bench) : Bench := mkBench [] [] (b_aux e) (b_pages e) (b_sealed e) (b_taken e) (b_faults e) (b_shown e).

(** The state an operation makes. *)
Definition applied (op : json) : json :=
  match opKind op with
  | Some (kind, body) => jobj [(#"target", JStr (opTarget op)); (#"chat", field body (#"chat")); (kind, body)]
  | None => JNull
  end.

Definition callOf (name : bytes) (args : json) : json :=
  if bool_decide (name = #"historyApply") then applied (field args (#"op"))
  else if bool_decide (name = #"historyMarkMerge") then field args (#"b")
  else if bool_decide (name = #"historyIsUnread") then JBool true
  else if bool_decide (name = #"historyNeedsReplace") then JBool false
  else JNull.

(** One record of all operations. *)
Definition bodyFor (e : Bench) : bytes := #"b" ++ Decimal.to_string (Z.of_nat (length (b_sealed e))).

Definition sessionOf (name : bytes) (args : json) (e : Bench) : result Thrown json * Bench :=
  if bool_decide (name = #"ingest") then (match b_pages e with p :: _ => p | [] => Ok (JObj []) end, nextPage e)
  else if bool_decide (name = #"seal") then (Ok (JArr [jobj [(#"body", JStr (bodyFor e))]]), withSealed (arrayOf (field args (#"ops"))) [bodyFor e] e)
  else if bool_decide (name = #"ingestAppend") then (Ok (jobj [(#"seq", JStr (#"1"))]), e)
  else if bool_decide (name = #"selfAddresses") then (Ok (JArr []), e)
  else (Ok (JStr (#"q")), e).

Definition requestOf (m b : bytes) (e : Bench) : result Thrown bytes * Bench :=
  let appends := bool_decide (m = #"history.append") in
  match b_faults e with
  | Some t :: _ => (Err t, nextFault (if appends && bool_decide (t = BusError (#"ERROR_CODE_DUPLICATE")) then takes b e else e))
  | _ => (Ok [], nextFault (if appends then takes b e else e))
  end.

#[export] Instance bench : HistoryHost Bench := {
  e_call name args e := (Ok (callOf name args), e);
  e_session := sessionOf;
  e_fromBase64 s := Ok s;
  h_openEngine := Some (fun e => (Ok true, e));
  h_request := Some requestOf;
  h_onRows := Some (fun l e => (Ok tt, shows l e));
  h_onMark := None;
  h_onReplaced := None;
  h_legacyOps := None;
  h_dropRow := None;
  h_nowMs e := (Ok 1000, e);
  h_random lo hi e := (Ok lo, e);
  h_wait _ e := (Ok tt, e);
  s_get k e := (Ok (mget k (b_rows e)), e);
  s_put s e := (Ok tt, withRow (strOf s (#"target")) s e);
  s_inChat k e := (Ok (List.filter (fun s => bool_decide (strOf s (#"chat") = k)) (b_rows e).*2), e);
  s_all e := (Ok (b_rows e).*2, e);
  s_mark k e := (Ok (mget k (b_marks e)), e);
  s_setMark k m e := (Ok tt, withMark k m e);
  s_marks e := (Ok (b_marks e), e);
  s_clear e := (Ok tt, empties e);
  s_aux k e := (Ok (default JNull (mget k (b_aux e))), e);
  s_setAux k v e := (Ok tt, withAux k v e);
  s_flush e := (Ok tt, e)
}.

#[export] Instance noCipher : Cipher := toy.
#[export] Instance noText : JsonText := { dump _ := Ok []; parse _ := None }.

Definition noBench : Bench := mkBench [] [] [] [] [] [] [] [].
Definition alone {S : Type} (s : S) : S := s.

(** A property of two hosts that these changes have is one of all calls. *)
Lemma hbench_calls (R : Bench -> Bench -> Prop) : (forall e, R e e) -> (forall k v e, R e (withRow k v e)) -> (forall k v e, R e (withMark k v e)) ->
  (forall v e, R e (withAux (#"meta") v e)) -> (forall e, R e (nextPage e)) -> (forall l bs e, R e (withSealed l bs e)) ->
  (forall b e, R e (nextFault (takes b e))) -> (forall e, R e (nextFault e)) -> (forall l e, R e (shows l e)) -> (forall e, R e (empties e)) ->
  forall A h, hostCall A h -> forall e, R e (h e).2.
Proof.
  intros R0 R1 R2 R3 R4 R5 R6 R7 R8 R9 A h C e.
  destruct C; try (match goal with E : _ = Some _ |- _ => cbn in E; try discriminate; injection E as <- end); cbn; unfold sessionOf, requestOf; auto;
    repeat case_match; cbn [snd]; auto.
Qed.

(** Messages and operations of a chat. *)
Definition chat : json := jobj [(#"user", jobj [(#"address", JStr (#"bob"))])].
Definition rowOp (id : bytes) : json := jobj [(#"row", jobj [(#"id", JStr id); (#"chat", chat); (#"from", JStr (#"bob")); (#"ts_ms", JStr (#"5"))])].
Definition stamp (op : bytes) : json := jobj [(#"ts_ms", JStr (#"7")); (#"op_id", JStr op)].
Definition goneOf (id : bytes) : json := goneOp id chat (stamp id) false [] false.
End HistoryBench.
