(* ===== verification/HistoryInv.v ===== *)
(** * HistoryInv: what every operation of the journal keeps

    The cursor and the head a device has seen only go forward, and what it keeps
    in memory of others is bounded, whatever other threads do that does the same. *)

From S2P Require Import Prelude Json DomainSync PlannerUtil PlannerJson Poll StoreCrypt Host HistoryOps HistorySync HistoryWalk HistoryBench.
Import Base64 Sync StoreCrypt HistoryOps HistorySync HistoryWalk HistoryBench.

Module HistoryInv.

#[local] Open Scope Z_scope.

Section Inv.
Context {Env : Type} {Ci : Cipher} {Host : HistoryHost Env} {Tx : JsonText} (cfg : Config).
Context (others : HistorySync * Env -> HistorySync * Env) (turns : nat).
Notation H := (M HistorySync Env).
Notation St := (HistorySync * Env)%type.

Definition anyCall (A : Type) (h : Env -> result Thrown A * Env) : Prop := True.
#[local] Hint Extern 1 (anyCall _ _) => exact I : sound.

(** A property of the states before and after that fuel does not harm is one of
    the loops with fuel. *)
Lemma walk_loops (R : St -> St -> Prop) (parks : json -> Prop) {Pc : Pieces cfg others (keeps R) parks} `{!PreOrder R} :
  (forall op own, keeps R _ (recordNow cfg others turns op own)) /\ (forall seqs, keeps R _ (getRecordsLocked others seqs)) /\
  (forall seqs b x stale, keeps R _ (loadBatches cfg others turns (S (length seqs)) seqs b x stale)).
Proof using All.
  assert (forall op own, keeps R _ (recordNow cfg others turns op own)) as Rec.
  { induction turns as [|n IH]; [by intros op own s|]. by apply walk_recordS with (parks := parks). }
  assert (forall seqs, keeps R _ (getRecordsLocked others seqs)) as Get.
  { intros seqs. unfold getRecordsLocked. cut (forall n rest ops recs, keeps R _ (getLoop others n rest ops recs)); [intros L; apply L|].
    induction n as [|n IH]; [by intros rest ops recs s|]. by apply walk_getS with (cfg := cfg) (parks := parks). }
  split; [done|]. split; [done|]. intros seqs. generalize (S (length seqs)). intros n. revert seqs.
  induction n as [|n IH]; [by intros seqs b x stale s|]. by apply walk_batchS with (parks := parks).
Qed.

(** ** The cursor and the head *)

Definition entryOf (k : bytes) (s : HistorySync) : result exn Z := valueOr getU64 (JObj (meta_ s)) k 0.
Definition seqAt (k : bytes) (s : HistorySync) : Z := match entryOf k s with Ok c => c | Err _ => 0 end.

Definition forward (s s' : St) : Prop := seqAt (#"cursor") s.1 <= seqAt (#"cursor") s'.1 /\ seqAt (#"headSeq") s.1 <= seqAt (#"headSeq") s'.1.
#[local] Instance forward_pre : PreOrder forward.
Proof. split; [intros s; by split|]. intros s1 s2 s3 [A B] [C D]. split; lia. Qed.

Definition sameEntries (f : HistorySync -> HistorySync) : Prop := forall s,
  obj_get (#"cursor") (meta_ (f s)) = obj_get (#"cursor") (meta_ s) /\ obj_get (#"headSeq") (meta_ (f s)) = obj_get (#"headSeq") (meta_ s).

Definition still (s s' : St) : Prop := entryOf (#"cursor") s'.1 = entryOf (#"cursor") s.1 /\ entryOf (#"headSeq") s'.1 = entryOf (#"headSeq") s.1.
#[local] Instance still_pre : PreOrder still.
Proof. split; [intros s; by split|]. intros s1 s2 s3 [A B] [C D]. split; congruence. Qed.
Lemma still_forward s s' : still s s' -> forward s s'.
Proof. intros [A B]. unfold forward, seqAt. rewrite A, B. by split. Qed.

#[local] Instance still_sound : Sound anyCall sameEntries (keeps still).
Proof.
  apply keeps_sound; [typeclasses eauto| |].
  - intros A h _ s. unfold still. by rewrite lift_state.
  - intros f Hf s. destruct (Hf s.1) as [A B]. unfold still, entryOf, valueOr. cbn [modify fst snd]. by rewrite A, B.
Qed.
#[local] Instance forward_sound : Sound anyCall sameEntries (keeps forward).
Proof.
  apply keeps_sound; [typeclasses eauto| |].
  - intros A h _ s. unfold forward. by rewrite lift_state.
  - intros f Hf s. apply still_forward. by apply (@sound_modify _ _ _ _ _ still_sound).
Qed.

Lemma same_meta f : (forall s, meta_ (f s) = meta_ s) -> sameEntries f.
Proof. intros E s. by rewrite E. Qed.
Lemma same_set k v : k <> #"cursor" -> k <> #"headSeq" -> sameEntries (fun s => set_meta_ (obj_set k v (meta_ s)) s).
Proof. intros N N' s. split; by apply obj_get_set_ne, not_eq_sym. Qed.
Lemma same_mdel k : k <> #"cursor" -> k <> #"headSeq" -> sameEntries (fun s => set_meta_ (mdel k (meta_ s)) s).
Proof. intros N N' s. split; by apply obj_get_mdel, not_eq_sym. Qed.
#[local] Hint Extern 1 (sameEntries _) => (apply same_meta; by intros ?) : sound.
#[local] Hint Extern 2 (sameEntries _) => (apply same_set; by intros ?) : sound.
#[local] Hint Extern 2 (sameEntries _) => (apply same_mdel; by intros ?) : sound.

Lemma entryOf_set k v s : entryOf k (set_meta_ (obj_set k (JUnsigned v) (meta_ s)) s) = Ok v.
Proof. unfold entryOf, valueOr. cbn [meta_ set_meta_]. by rewrite obj_get_set_eq. Qed.
Lemma entryOf_other k k' v s : k <> k' -> entryOf k (set_meta_ (obj_set k' v (meta_ s)) s) = entryOf k s.
Proof. intros N. unfold entryOf, valueOr. cbn [meta_ set_meta_]. by rewrite obj_get_set_ne. Qed.

Lemma forward_cursor c v s : entryOf (#"cursor") s.1 = Ok c -> c <= v -> forward s (setMeta (#"cursor") (JUnsigned v) s).2.
Proof. intros E L. unfold forward, seqAt, setMeta. cbn [modify fst snd]. rewrite entryOf_set, entryOf_other by done. rewrite E. split; [lia|done]. Qed.
Lemma forward_head c v s : entryOf (#"headSeq") s.1 = Ok c -> c <= v -> forward s (setMeta (#"headSeq") (JUnsigned v) s).2.
Proof. intros E L. unfold forward, seqAt, setMeta. cbn [modify fst snd]. rewrite entryOf_set, entryOf_other by done. rewrite E. split; [done|lia]. Qed.

(** What is done with an entry that was read. *)
Lemma forward_read {A} k (m : Z -> H A) : (forall c s, entryOf k s.1 = Ok c -> forward s (m c s).2) -> keeps forward _ (bind (meta getU64 k 0) m).
Proof.
  intros F s. unfold meta, bind, gets. cbn [fst snd]. unfold ofResult. specialize (F (seqAt k s.1) s). unfold seqAt, entryOf in F.
  destruct (valueOr getU64 (JObj (meta_ s.1)) k 0) as [c|e]; [|done]. by apply F.
Qed.

(** After code that leaves the entries. *)
Lemma forward_then {A B} (m : H A) (k : A -> H B) s : keeps still _ m ->
  (forall a s', still s s' -> forward s' (k a s').2) -> forward s (bind m k s).2.
Proof. intros St F. apply keeps_then; [typeclasses eauto|apply still_forward, St|]. intros a _. apply F, St. Qed.

(** ** Any operation, any number of them *)

Definition parksAny (op : json) : Prop := True.

(** A call of the host, or a turn of the worker. [parks]: the operations that may
    wait for their row. *)
Inductive step (parks : json -> Prop) (s : St) : St -> Prop :=
| step_network m : operation cfg others turns m -> step parks s (m s).2
| step_local m : localOp cfg others turns parks m -> step parks s (m s).2.

Lemma step_keeps (R : St -> St -> Prop) (parks : json -> Prop) {Pc : Pieces cfg others (keeps R) parks} `{!PreOrder R} :
  (forall i d, keeps R _ (flushLocked cfg others turns i d)) -> forall s s', rtc (step parks) s s' -> R s s'.
Proof using All.
  intros Fl. destruct (walk_loops R parks) as (Rec & Get & Bat). induction 1 as [|s1 s2 s3 St _ IH]; [done|]. etrans; [|exact IH].
  destruct St as [m O|m O]; [by apply (walk_operation cfg others turns (keeps R) parks Rec Get Bat Fl)|by apply (walk_local cfg others turns (keeps R) parks Rec)].
Qed.

Lemma step_keeps_sent (R : St -> St -> Prop) (parks : json -> Prop) {Pc : Pieces cfg others (keeps R) parks} `{!PreOrder R} :
  (forall n m t, keeps R _ (sent cfg others n m t)) -> forall s s', rtc (step parks) s s' -> R s s'.
Proof using All.
  intros Se. apply (step_keeps R parks). intros i d. destruct (walk_loops R parks) as (Rec & Get & Bat). by apply (walk_flush cfg others turns (keeps R) parks Rec Get Bat).
Qed.

Section Forward.
Hypothesis Ho : forall s, forward s (others s).

Lemma forward_pieces : Pieces cfg others (keeps forward) parksAny.
Proof using All.
  pose proof forward_sound as Q. pose proof still_sound as Q'.
  assert (keeps forward _ (meanwhile others)) as Mw by (intros s; apply Ho).
  assert (keeps forward _ savePendingLocked) as Sv by (unfold savePendingLocked; sound).
  assert (forall k v, k <> #"cursor" -> k <> #"headSeq" -> keeps forward _ (setMeta k v)) as Sm by (intros k v N N'; unfold setMeta; apply (@sound_modify _ _ _ _ _ Q); by apply same_set).
  split.
  - apply (sound_weaken anyCall _ sameEntries _ (keeps forward)); [done| |done]. intros f B s. by destruct (B s) as (_ & _ & _ & _ & _ & _ & _ & ? & ?).
  - done.
  - done.
  - intros op. unfold noteSeen. sound. apply (@sound_modify _ _ _ _ _ Q). apply same_meta. intros s. unfold noteKey. case_bool_decide; [done|]. by destruct (trim _ _).
  - intros t. unfold takeParked. sound.
  - intros op own a _. apply (@sound_modify _ _ _ _ _ Q). apply same_meta. intros s. unfold park. by destruct (_ <? _)%nat.
  - intros k m. unfold queueMark, now. sound.
  - intros op own. unfold enqueue, now, randomIn. sound.
  - intros d t. unfold splitIncoming. sound.
  - intros l n m t e. unfold notSent. assert (keeps forward _ (setMeta (#"forceCheckpoint") (JBool true))) by (by apply Sm). sound.
  - intros a b. unfold migrated, saveMetaLocked, now. assert (keeps forward _ (setMeta (#"migrated") (JBool true))) by (by apply Sm). sound.
  - intros h. unfold noteHead. sound_step; [done|]. apply forward_read. intros c s E. destruct (h <? c) eqn:L; [done|]. apply Z.ltb_ge in L.
    apply keeps_then; [typeclasses eauto|by eapply forward_head|]. intros u _. done.
  - intros cp refs b l upto i j. unfold loaded. assert (forall v, keeps forward _ (setMeta (#"segments") v)) by (intros v; by apply Sm).
    assert (forall v, keeps forward _ (setMeta (#"segmentsOf") v)) by (intros v; by apply Sm). assert (forall v, keeps forward _ (setMeta (#"checkpoint") v)) by (intros v; by apply Sm).
    assert (forall v, keeps forward _ (setMeta (#"joined") v)) by (intros v; by apply Sm). unfold saveMetaLocked.
    do 2 (sound_step; [sound|]). do 3 (sound_step; [done|]). apply forward_read. intros c s E. apply keeps_then; [typeclasses eauto|eapply forward_cursor; [exact E|lia]|].
    intros u _. match goal with |- forward ?s (?m ?s).2 => assert (keeps forward _ m) as K by sound end. apply K.
  - intros r h. unfold turnPage, saveMetaLocked. assert (forall v, keeps forward _ (setMeta (#"rejectStreak") v)) by (intros v; by apply Sm).
    do 2 (sound_step; [sound|]). apply forward_read. intros c s E. apply forward_then; [sound|]. intros more s1 [E1 _]. apply forward_then.
    { unfold setMeta, now. sound. }
    intros u s2 [E2 _]. rewrite E1, E in E2. apply keeps_then; [typeclasses eauto|eapply forward_cursor; [exact E2|destruct more; lia]|].
    intros u' _. match goal with |- forward ?s (?m ?s).2 => assert (keeps forward _ m) as K by sound end. apply K.
  - intros i ss t b. unfold committed, saveMetaLocked. assert (forall v, keeps forward _ (setMeta (#"checkpoint") v)) by (intros v; by apply Sm).
    assert (forall v, keeps forward _ (setMeta (#"segments") v)) by (intros v; by apply Sm). assert (forall v, keeps forward _ (setMeta (#"segmentsOf") v)) by (intros v; by apply Sm).
    assert (forall v, keeps forward _ (setMeta (#"forceCheckpoint") v)) by (intros v; by apply Sm).
    do 6 (sound_step; [sound|]). apply forward_read. intros c s E. apply keeps_then; [typeclasses eauto|eapply forward_cursor; [exact E|lia]|]. intros u _.
    match goal with |- forward ?s (?m ?s).2 => assert (keeps forward _ m) as K; [|apply K] end.
    apply forward_read. intros c' s' E'. apply keeps_then; [typeclasses eauto|eapply forward_head; [exact E'|lia]|]. intros u' _.
    match goal with |- forward ?s (?m ?s).2 => assert (keeps forward _ m) as K by sound end. apply K.
Qed.

(** Claim C17 (cursor_never_back): neither the cursor in the journal nor the head
    of the journal that was seen ever goes back: not in a sync, a join, a loaded
    or written checkpoint, a flush or a turn of the worker, however they end, and
    not in what other threads call meanwhile, as long as those threads do not turn
    them back themselves. *)
Theorem cursor_never_back (s s' : St) : rtc (step parksAny) s s' ->
  seqAt (#"cursor") s.1 <= seqAt (#"cursor") s'.1 /\ seqAt (#"headSeq") s.1 <= seqAt (#"headSeq") s'.1.
Proof using All.
  intros Rt. pose proof forward_pieces as Pc. pose proof forward_sound as Q. apply (step_keeps_sent forward parksAny); [|exact Rt]. intros n m t. unfold sent, savePendingLocked.
  assert (keeps forward _ (meanwhile others)) by (intros x; apply Ho). sound.
Qed.
End Forward.

(** ** What is kept in memory is bounded *)

Definition waiting (m : gmap bytes (list Parked)) : nat := map_fold (fun _ l n => length l + n)%nat 0%nat m.

Lemma waiting_delete m k l : m !! k = Some l -> waiting m = (length l + waiting (delete k m))%nat.
Proof. intros E. unfold waiting. apply (map_fold_delete_L (fun _ l n => length l + n)%nat 0%nat k l m); [|done]. intros. lia. Qed.

Lemma waiting_insert m k l : (waiting (<[k := l]> m) + length (default [] (m !! k)) = length l + waiting m)%nat.
Proof.
  rewrite (waiting_delete (<[k := l]> m) k l) by apply lookup_insert_eq. rewrite delete_insert_eq.
  destruct (m !! k) as [l'|] eqn:E; cbn; [rewrite (waiting_delete m k l' E); lia|]. rewrite delete_id by done. lia.
Qed.

Definition tidy (s : HistorySync) : Prop :=
  (NoDup (seenOrder_ s) /\ (forall k, k ∈ seen_ s <-> k ∈ seenOrder_ s) /\ length (seenOrder_ s) <= kSeenCap)%nat /\
  (parkedCount_ s = waiting (parked_ s) /\ parkedCount_ s <= kSeenCap)%nat.

Lemma trim_tidy order : forall seen, NoDup order -> (forall k, k ∈ seen <-> k ∈ order) ->
  let r := trim order seen in NoDup r.1 /\ (forall k, k ∈ r.2 <-> k ∈ r.1) /\ (length r.1 <= kSeenCap)%nat.
Proof.
  induction order as [|k order IH]; intros seen N E; [split_and!; [done|done|cbn; lia]|]. unfold trim; fold trim. destruct (_ <? _)%nat eqn:L.
  - apply list.NoDup_cons in N as [N1 N2]. apply IH; [done|]. intros x. rewrite elem_of_difference, elem_of_singleton, E, elem_of_cons.
    split; [by intros [[->|?] ?]|]. intros I. split; [by right|]. by intros ->.
  - apply Nat.ltb_ge in L. by split_and!.
Qed.

Definition keepsTidy (s s' : St) : Prop := tidy s.1 -> tidy s'.1.
#[local] Instance keepsTidy_pre : PreOrder keepsTidy.
Proof. split; [by intros s T|]. intros s1 s2 s3 A B T. by apply B, A. Qed.

Definition sameMemory (f : HistorySync -> HistorySync) : Prop := forall s,
  seen_ (f s) = seen_ s /\ seenOrder_ (f s) = seenOrder_ s /\ parked_ (f s) = parked_ s /\ parkedCount_ (f s) = parkedCount_ s.
#[local] Instance tidy_sound : Sound anyCall sameMemory (keeps keepsTidy).
Proof.
  apply keeps_sound; [typeclasses eauto| |].
  - intros A h _ s T. by rewrite lift_state.
  - intros f Hf s. destruct (Hf s.1) as (A & B & C & D). unfold keepsTidy, tidy. cbn [modify fst snd]. by rewrite A, B, C, D.
Qed.
#[local] Hint Extern 1 (sameMemory _) => (intros ?; by split_and!) : sound.

Section Tidy.
Hypothesis Ho : forall s, keepsTidy s (others s).

Lemma tidy_pieces : Pieces cfg others (keeps keepsTidy) parksAny.
Proof using All.
  pose proof tidy_sound as Q. assert (keeps keepsTidy _ (meanwhile others)) as Mw by (intros s; apply Ho).
  assert (keeps keepsTidy _ savePendingLocked) as Sv by (unfold savePendingLocked; sound).
  split.
  - apply (sound_weaken anyCall _ sameMemory _ (keeps keepsTidy)); [done| |done]. intros f B s. by destruct (B s) as (_ & _ & _ & ? & ? & ? & ? & _).
  - done.
  - done.
  - intros op. unfold noteSeen. sound. intros [s e] [(N & E & L) P]. unfold modify, noteKey. cbn [fst snd] in *. case_bool_decide as I; [by split|].
    destruct (trim_tidy (seenOrder_ s ++ [b :: l]) ({[b :: l]} ∪ seen_ s)) as (N' & E' & L').
    + apply list.NoDup_app. split_and!; [done| |apply list.NoDup_singleton]. intros x Hx. rewrite list_elem_of_singleton. intros ->. by apply I, E.
    + intros k. rewrite elem_of_union, elem_of_singleton, elem_of_app, list_elem_of_singleton, E. tauto.
    + destruct (trim _ _) as [order seen]. by split.
  - intros t. unfold takeParked. sound_step; [done|]. intros [s e] [T (C & L)]. unfold bind, gets, modify, ret. cbn [fst snd] in *. unfold id.
    destruct (parked_ s !! t) as [l|] eqn:E; [|by split]. split; [exact T|]. cbn. rewrite (waiting_delete _ _ _ E) in C. split; lia.
  - intros op own a _ [s e] [T (C & L)]. unfold modify, park. cbn [fst snd] in *. destruct (_ <? _)%nat eqn:B; [|by split]. apply Nat.ltb_lt in B. split; [exact T|]. cbn [parkedCount_ parked_ set_parkedCount_ set_parked_].
    pose proof (waiting_insert (parked_ s) (opTarget op) (default [] (parked_ s !! opTarget op) ++ [{| p_op := op; p_own := own; p_author := a |}])) as W.
    rewrite length_app in W. cbn [length] in W. split; lia.
  - intros k m. unfold queueMark, now. sound.
  - intros op own. unfold enqueue, now, randomIn. sound.
  - intros d t. unfold splitIncoming. sound.
  - intros l n m t e. unfold notSent, setMeta. sound.
  - intros a b. unfold migrated, saveMetaLocked, setMeta, now. sound.
  - intros h. unfold noteHead, metaHead, meta, setMeta. sound.
  - intros cp refs b l upto i j. unfold loaded, metaCursor, meta, setMeta, saveMetaLocked. sound.
  - intros r h. unfold turnPage, metaCursor, meta, setMeta, saveMetaLocked, now. sound.
  - intros i ss t b. unfold committed, metaCursor, metaHead, meta, setMeta, saveMetaLocked. sound.
Qed.

(** Claim C31 (memory_bounded): what the journal remembers of others stays bounded
    and whole: the window of operations seen is a set and the order it was filled
    in, without repetitions and of at most 50000; the count of the mutations that
    wait for their row is their number and never more than that. *)
Theorem memory_bounded (s s' : St) : rtc (step parksAny) s s' -> tidy s.1 -> tidy s'.1.
Proof using All.
  intros Rt. pose proof tidy_pieces as Pc. pose proof tidy_sound as Q. apply (step_keeps_sent keepsTidy parksAny); [|exact Rt]. intros n m t. unfold sent, savePendingLocked.
  assert (keeps keepsTidy _ (meanwhile others)) by (intros x; apply Ho). sound.
Qed.
End Tidy.
End Inv.

(** ** Runs *)

Definition me : Config := aConfig (#"me").

(** The journal with its first row is at 7; then a server that lost it answers. *)
Definition pages : list (result Thrown json) :=
  [Ok (jobj [(#"headSeq", JUnsigned 7); (#"ops", JArr [rowOp (#"m1")]); (#"records", JArr [jobj [(#"seq", JUnsigned 7)]])]);
   Ok (jobj [(#"headSeq", JUnsigned 3); (#"ops", JArr [rowOp (#"m2")])])].
Definition joined : HistorySync := set_meta_ [(#"joined", JBool true); (#"migrated", JBool true)] newHistory.
Definition started : HistorySync * Bench := (joined, mkBench [] [] [] pages [] [] [] []).

Definition synced : HistorySync * Bench := (syncNow me alone 5 started).2.
Definition again : HistorySync * Bench := (syncNow me alone 5 synced).2.

Lemma two_syncs : rtc (step me alone 5 parksAny) started again.
Proof.
  exact (rtc_l _ started synced again (step_network me alone 5 parksAny started _ (o_sync me alone 5))
    (rtc_once _ _ (step_network me alone 5 parksAny synced _ (o_sync me alone 5)))).
Qed.

Lemma cursor_never_back_witness : seqAt (#"cursor") started.1 = 0 /\ seqAt (#"cursor") synced.1 = 7 /\
  seqAt (#"cursor") started.1 <= seqAt (#"cursor") again.1 /\ seqAt (#"headSeq") started.1 <= seqAt (#"headSeq") again.1.
Proof.
  split; [vm_compute; reflexivity|]. split; [vm_compute; reflexivity|].
  refine (cursor_never_back me alone 5 _ started again two_syncs). intros s. split; reflexivity.
Defined.

Lemma memory_bounded_witness : tidy again.1.
Proof.
  refine (memory_bounded me alone 5 _ started again two_syncs _); [intros s T; exact T|].
  split; [split; [constructor|split; [intros k; split; [intros I; by apply elem_of_empty in I|intros I; by apply elem_of_nil in I]|cbn; lia]]|split; [reflexivity|cbn; lia]].
Defined.
End HistoryInv.
