(* ===== verification/HistoryQueue.v ===== *)
(** * HistoryQueue: own actions reach the journal

    An own operation leaves its queue when the server has every record the engine
    made of it, and not before; and the queue is on the disk, so that the next run
    of the program starts with it. *)

From S2P Require Import Prelude Json DomainSync PlannerUtil PlannerJson Poll StoreCrypt Host HistoryOps HistorySync HistoryWalk HistoryBench HistoryInv.
Import Base64 Sync StoreCrypt HistoryOps HistorySync HistoryWalk HistoryBench HistoryInv.

Module HistoryQueue.

#[local] Open Scope Z_scope.

Section Queue.
Context {Env : Type} {Ci : Cipher} {Host : HistoryHost Env} {Tx : JsonText} (cfg : Config).
Context (others : HistorySync * Env -> HistorySync * Env) (turns : nat).
Notation H := (M HistorySync Env).
Notation St := (HistorySync * Env)%type.
#[local] Hint Extern 1 (anyCall _ _) => exact I : sound.

(** ** Records and the server *)

Section Settled.
(** The server has a record of this body; the engine made records of these bodies
    of these operations. *)
Context (taken : Env -> bytes -> Prop) (sealed : Env -> list json -> list bytes -> Prop).

Definition later (e e' : Env) : Prop := (forall b, taken e b -> taken e' b) /\ forall ops bs, sealed e ops bs -> sealed e' ops bs.

Definition bodies (v : json) : list bytes := (fun rec => strOf rec (#"body")) <$> elements v.

(** What was said once stays; [seal] makes records, and an append that is answered,
    or refused as a repetition, is on the server. *)
Class JournalLaws : Prop := {
  law_later A h : hostCall A h -> forall e, later e (h e).2;
  law_aux k v e : later e (s_setAux k v e).2;
  law_seal args ops v e e' : jfind (#"ops") args = Some (JArr ops) -> e_session (#"seal") args e = (Ok v, e') -> sealed e' ops (bodies v);
  law_append f b raw r e e' : h_request = Some f -> e_fromBase64 b = Ok raw -> f (#"history.append") raw e = (r, e') ->
    (exists resp, r = Ok resp) \/ r = Err (BusError (#"ERROR_CODE_DUPLICATE")) -> taken e' b
}.

Definition settled (e : Env) (op : json) : Prop := exists ops bs, op ∈ ops /\ sealed e ops bs /\ Forall (taken e) bs.

Lemma later_refl e : later e e.
Proof. done. Qed.
Lemma later_trans e1 e2 e3 : later e1 e2 -> later e2 e3 -> later e1 e3.
Proof. intros [A B] [C D]. split; auto. Qed.
Lemma settled_later e e' op : later e e' -> settled e op -> settled e' op.
Proof. intros [A B] (ops & bs & I & S & F). exists ops, bs. split; [done|]. split; [auto|]. eapply list.Forall_impl; [exact F|auto]. Qed.

(** Own operations come behind; nothing leaves. *)
Definition grows (s s' : St) : Prop := later s.2 s'.2 /\ pendingOwn_ s.1 `prefix_of` pendingOwn_ s'.1.
#[local] Instance grows_pre : PreOrder grows.
Proof. split; [intros s; by split|]. intros s1 s2 s3 [A B] [C D]. split; [by eapply later_trans|by etrans]. Qed.

(** Those that left are settled. *)
Definition inOrder (s s' : St) : Prop := later s.2 s'.2 /\ passed (settled s'.2) (pendingOwn_ s.1) (pendingOwn_ s'.1).
#[local] Instance inOrder_pre : PreOrder inOrder.
Proof.
  split; [intros s; split; [done|apply passed_refl]|]. intros s1 s2 s3 [A B] [C D]. split; [by eapply later_trans|].
  eapply passed_trans; [exact B| |exact D]. intros op. by apply settled_later.
Qed.
Lemma grows_inOrder s s' : grows s s' -> inOrder s s'.
Proof. intros [L [new E]]. split; [done|]. rewrite E. apply passed_push. Qed.

Context {Laws : JournalLaws} (Ho : forall s, grows s (others s)).

Definition auxCall (A : Type) (h : Env -> result Thrown A * Env) : Prop := forall e, later e (h e).2.
Definition sameOwn (f : HistorySync -> HistorySync) : Prop := forall s, pendingOwn_ (f s) = pendingOwn_ s.

#[local] Instance grows_sound : Sound auxCall sameOwn (keeps grows).
Proof.
  apply keeps_sound; [typeclasses eauto| |].
  - intros A h C s. unfold grows. rewrite lift_state, lift_env. by split.
  - intros f Hf s. split; [done|]. cbn [modify fst snd]. by rewrite Hf.
Qed.
#[local] Instance inOrder_sound : Sound auxCall sameOwn (keeps inOrder).
Proof.
  apply keeps_sound; [typeclasses eauto| |].
  - intros A h C s. by apply grows_inOrder, (@sound_lift _ _ _ _ _ grows_sound).
  - intros f Hf s. by apply grows_inOrder, (@sound_modify _ _ _ _ _ grows_sound).
Qed.
#[local] Hint Extern 1 (sameOwn _) => (by intros ?) : sound.
#[local] Hint Extern 1 (auxCall _ (s_setAux _ _)) => (intros ?; apply law_aux) : sound.
#[local] Hint Extern 2 (auxCall _ _) => (intros ?; apply law_later; constructor; fail) : sound.
#[local] Hint Extern 2 (auxCall _ _) => (intros ?; apply law_later; solve [constructor]) : sound.

Lemma grows_pieces : Pieces cfg others (keeps grows) parksAny.
Proof using All.
  pose proof grows_sound as Q. assert (keeps grows _ (meanwhile others)) as Mw by (intros s; apply Ho).
  assert (keeps grows _ savePendingLocked) as Sv by (unfold savePendingLocked; sound).
  assert (forall f, keeps grows _ (modify (fun s => set_pendingOwn_ (pendingOwn_ s ++ f s) s))) as Push by (intros f s; split; [done|by eexists]).
  split.
  - apply (sound_weaken auxCall _ sameOwn _ (keeps grows)); [intros A h C e; by apply law_later| |done]. intros f B s. by destruct (B s) as (? & _).
  - done.
  - done.
  - intros op. unfold noteSeen. sound. apply (@sound_modify _ _ _ _ _ Q). intros s. unfold noteKey. case_bool_decide; [done|]. by destruct (trim _ _).
  - intros t. unfold takeParked. sound.
  - intros op own a _. apply (@sound_modify _ _ _ _ _ Q). intros s. unfold park. by destruct (_ <? _)%nat.
  - intros k m. unfold queueMark, now. sound.
  - intros op own. unfold enqueue, now, randomIn. pose proof (Push (fun _ => [op])). sound.
  - intros d t. unfold splitIncoming. sound.
  - intros l n m t e. unfold notSent, setMeta. sound.
  - intros a b. unfold migrated, saveMetaLocked, setMeta, now. pose proof (Push (fun _ => (fun st => jobj [(#"state", st)]) <$> a.*2)). sound.
  - intros h. unfold noteHead, metaHead, meta, setMeta. sound.
  - intros cp refs b l upto i j. unfold loaded, metaCursor, meta, setMeta, saveMetaLocked. sound.
  - intros r h. unfold turnPage, metaCursor, meta, setMeta, saveMetaLocked, now. sound.
  - intros i ss t b. unfold committed, metaCursor, metaHead, meta, setMeta, saveMetaLocked. sound.
Qed.

Lemma inOrder_pieces : Pieces cfg others (keeps inOrder) parksAny.
Proof using All.
  assert (forall A (m : H A), keeps grows A m -> keeps inOrder A m) as W by (intros A m G s; apply grows_inOrder, G).
  destruct grows_pieces as [Q P1 P2 P3 P4 P5 P6 P7 P8 P9 P10 P11 P12 P13 P14]. split.
  - apply (sound_weaken auxCall _ sameOwn _ (keeps inOrder)); [intros A h C e; by apply law_later| |apply inOrder_sound]. intros f B s. by destruct (B s) as (? & _).
  - exact (W _ _ P1).
  - exact (W _ _ P2).
  - intros op. exact (W _ _ (P3 op)).
  - intros t. exact (W _ _ (P4 t)).
  - intros op own a P. exact (W _ _ (P5 op own a P)).
  - intros k m. exact (W _ _ (P6 k m)).
  - intros op own. exact (W _ _ (P7 op own)).
  - intros d t. exact (W _ _ (P8 d t)).
  - intros l n m t e. exact (W _ _ (P9 l n m t e)).
  - intros x y. exact (W _ _ (P10 x y)).
  - intros h. exact (W _ _ (P11 h)).
  - intros cp refs b l upto i j. exact (W _ _ (P12 cp refs b l upto i j)).
  - intros r h. exact (W _ _ (P13 r h)).
  - intros i ss t b. exact (W _ _ (P14 i ss t b)).
Qed.

(** *** An append that is done *)

Lemma grows_appendRecs recs chunk : keeps grows _ (appendRecs others recs chunk).
Proof using All. pose proof grows_pieces as Pc. apply (walk_appendRecs cfg others turns (keeps grows) parksAny). Qed.

(** One record: answered, or refused as a repetition. *)
Definition sendRec (r : json) : H Z :=
  let* body := fromB64 (strOf r (#"body")) in
  let* resp := req others (#"history.append") body in
  let* r := ingest others (#"ingestAppend") resp in ofResult (seqOf r).

Lemma rec_taken r s : let x := sendRec r s in
  (exists seq, x.1 = Done seq) \/ x.1 = Threw (BusError (#"ERROR_CODE_DUPLICATE")) -> taken x.2.2 (strOf r (#"body")).
Proof using All.
  cbv zeta. unfold sendRec, fromB64, req. destruct (e_fromBase64 (strOf r (#"body"))) as [raw|err] eqn:B; [|by intros [[? D]|D]].
  destruct h_request as [f|] eqn:F; [|by intros [[? D]|D]]. unfold host, bind, meanwhile, lift, ret. cbn [fst snd].
  destruct (f (#"history.append") raw (others s).2) as [[resp|err] e1] eqn:A.
  - intros _. assert (taken e1 (strOf r (#"body"))) as T1 by (eapply law_append; [exact F|exact B|exact A|left; by eexists]).
    pose proof grows_pieces as Pc. pose proof (walk_ingest cfg others turns (keeps grows) parksAny (#"ingestAppend") resp ((others s).1, e1)) as [[L _] _].
    destruct (ingest others (#"ingestAppend") resp ((others s).1, e1)) as [[v|e|] s2]; cbn [fst snd] in *; [|by apply L..]. unfold ofResult. destruct (seqOf v); cbn; by apply L.
  - cbn [fst snd]. intros [[? D]|D]; [done|]. injection D as ->. eapply law_append; [exact F|exact B|exact A|by right].
Qed.

Lemma recs_taken recs : forall s l, (appendRecs others recs false s).1 = Done l ->
  Forall (taken (appendRecs others recs false s).2.2) ((fun rec => strOf rec (#"body")) <$> recs).
Proof using All.
  induction recs as [|r recs IH]; intros s l; [constructor|]. cbn [appendRecs]. fold (sendRec r). unfold bind, attempt. pose proof (rec_taken r s) as Tk. cbv zeta in Tk.
  destruct (sendRec r s) as [[seq|e|] s1]; cbn [fst snd] in *; [| |done].
  - specialize (Tk (or_introl (ex_intro _ seq eq_refl))). specialize (IH s1). pose proof (grows_appendRecs recs false s1) as [[L _] _].
    destruct (appendRecs others recs false s1) as [[l'|e|] s2]; [|done..]. intros _. cbn in *. constructor; [by apply L|]. by apply (IH l').
  - unfold isCode. case_bool_decide as C; cbn [andb negb]; [|done]. unfold errorCode in C. destruct e as [c| |]; try done. injection C as ->.
    specialize (Tk (or_intror eq_refl)). specialize (IH s1). pose proof (grows_appendRecs recs false s1) as [[L _] _]. intros D. cbn. constructor; [by apply L|]. by apply (IH l).
Qed.

Lemma append_settled op ops s l : op ∈ ops -> (appendLocked others ops false s).1 = Done l -> settled (appendLocked others ops false s).2.2 op.
Proof using All.
  intros I. unfold appendLocked. destruct ops as [|o ops]; [by apply elem_of_nil in I|]. remember (o :: ops) as all eqn:Ea. clear Ea o ops.
  pose proof grows_pieces as Pc. pose proof grows_sound as Q. intros D.
  apply bind_done in D as (t & s1 & E1 & D). unfold bind at 1. rewrite E1. apply bind_done in D as (v & s2 & E2 & D). unfold bind at 1. rewrite E2.
  apply bind_done in D as (seqs & s3 & E3 & D). unfold bind at 1. rewrite E3.
  assert (sealed s2.2 all (bodies v)) as Se.
  { unfold engine in E2. apply bind_parts in E2 as (ok & sa & Ea & E2). destruct ok; cbn [negb] in E2; [|done]. unfold host in E2. apply bind_parts in E2 as (u & sb & Eb & E2).
    apply lift_ok in E2 as [E2 _]. eapply law_seal; [|exact E2]. unfold jobj. cbn. done. }
  pose proof (recs_taken (elements v) s2 seqs) as Tk. rewrite E3 in Tk. specialize (Tk eq_refl). cbn [fst snd] in Tk.
  pose proof (grows_appendRecs (elements v) false s2) as [[_ L3] _]. rewrite E3 in L3. cbn [fst snd] in L3.
  match goal with |- settled (?m s3).2.2 _ => assert (keeps grows _ m) as G end.
  { assert (forall op, keeps grows _ (noteSeen others op)) by (intros o; eapply pc_note; exact Pc). sound. }
  destruct (G s3) as [[LT LS] _]. exists all, (bodies v). split; [done|]. split; [by apply LS, L3|]. eapply list.Forall_impl; [exact Tk|exact LT].
Qed.

(** *** A flush *)

Lemma sent_effect n m t s : let s' := (sent cfg others n m t s).2 in later (others s).2 s'.2 /\ pendingOwn_ s'.1 = drop n (pendingOwn_ (others s).1).
Proof using Laws.
  unfold sent, savePendingLocked, bind, modify, gets, lift, meanwhile. cbn [fst snd].
  match goal with |- context [s_setAux ?k ?v ?e] => pose proof (law_aux k v e) as La; destruct (s_setAux k v e) as [[]  e'] end; by split.
Qed.

Lemma flush_inOrder i d : keeps inOrder _ (flushLocked cfg others turns i d).
Proof using All.
  pose proof grows_pieces as Pc. pose proof grows_sound as Q. destruct (walk_loops cfg others turns grows parksAny) as (Rec & Get & Bat).
  assert (keeps grows _ (meanwhile others)) as Mw by (intros x; apply Ho). assert (keeps grows _ savePendingLocked) as Sv by (eapply pc_save; exact Pc).
  intros s. unfold flushLocked. unfold now. apply keeps_then; [typeclasses eauto|apply grows_inOrder; by apply (@sound_lift _ _ _ _ _ Q); intros e; apply law_later; constructor|]. intros t _. set (s0 := (lift h_nowMs s).2). clearbody s0. clear s.
  apply keeps_then; [typeclasses eauto|apply grows_inOrder, Mw|]. intros [] _. set (s1 := (meanwhile others s0).2). clearbody s1. clear s0.
  unfold bind at 1, gets. cbn [fst snd]. unfold id. set (own := if negb d || _ then pendingOwn_ s1.1 else []).
  assert (own = [] \/ own = pendingOwn_ s1.1) as Own by (subst own; destruct (_ || _); auto). clearbody own.
  set (marksSent := if negb d || _ then pendingMarks_ _ else []). clearbody marksSent.
  match goal with |- inOrder s1 ((bind ?m ?k) s1).2 => assert (keeps grows _ m) as G1; [|specialize (G1 s1); unfold bind at 1; destruct (m s1) as [[incoming|e|] s2]; cbn [fst snd] in *; [|by apply grows_inOrder..]] end.
  { pose proof (walk_takeIncoming cfg others turns (keeps grows) parksAny Rec Get Bat d t). sound. }
  match goal with |- context [match ?l with [] => _ | _ => _ end] => destruct l as [|o ops] eqn:El end.
  { match goal with |- inOrder s1 (?m s2).2 => assert (keeps grows _ m) as G by sound end. apply grows_inOrder. etrans; [exact G1|apply G]. }
  set (all := o :: ops) in *. unfold bind at 1, attempt. pose proof (walk_append cfg others turns (keeps grows) parksAny all false s2) as G2.
  pose proof (fun op l I => append_settled op all s2 l I) as Se. destruct (appendLocked others all false s2) as [[l|e|] s3]; cbn [fst snd] in *.
  - set (s4 := others s3). assert (grows s3 s4) as G3 by apply Mw. assert (grows s1 s4) as G by (etrans; [exact G1|]; etrans; [exact G2|exact G3]).
    destruct (sent_effect (length own) marksSent t s3) as [L E]. fold s4 in L, E.
    assert (forall r : outcome unit * St, (match r with (Done _, s') => ret true s' | (Threw e, s') => (Threw e, s') | (Stuck, s') => (Stuck, s') end).2 = r.2) as Er by (by intros [[] ?]).
    unfold bind. rewrite Er. set (s5 := (sent cfg others (length own) marksSent t s3).2) in *.
    destruct G as [Lg [new Eg]]. split; [by eapply later_trans|]. destruct Own as [->| ->].
    + cbn [length] in E. rewrite drop_0, Eg in E. rewrite E. apply passed_push.
    + exists (length (pendingOwn_ s1.1)), new. rewrite E, Eg, drop_app_length, drop_all. split; [done|]. rewrite firstn_all. apply Forall_elem. intros op I.
      apply (settled_later s3.2); [eapply later_trans; [apply G3|exact L]|]. apply (Se op l); [|done]. rewrite <- El. apply elem_of_app. by left.
  - match goal with |- inOrder s1 (?m s3).2 => assert (keeps grows _ m) as G end.
    { assert (keeps grows _ (notSent cfg others incoming (length own) marksSent t e)) by (eapply pc_notSent; exact Pc). sound. }
    apply grows_inOrder. etrans; [exact G1|]. etrans; [exact G2|apply G].
  - apply grows_inOrder. by etrans.
Qed.

(** Claim C10 (own_kept): an own operation (an edit, a reaction, a deletion the user
    made) leaves the queue only when it is settled: the engine made records of it
    and the server has each of them. So it is in every sync, join, checkpoint,
    flush and turn of the worker, whatever fails and whatever is recorded by other
    threads meanwhile; and the order of the queue stays. *)
Theorem own_kept (s s' : St) : rtc (step cfg others turns parksAny) s s' -> passed (settled s'.2) (pendingOwn_ s.1) (pendingOwn_ s'.1).
Proof using All.
  intros Rt. pose proof inOrder_pieces as Pc. destruct (step_keeps cfg others turns inOrder parksAny flush_inOrder s s' Rt) as [_ P]. exact P.
Qed.
End Settled.

(** ** The queue on the disk *)

Section Saved.
(** The document of the queues as the next run will read it; whether its last
    writing was not done, and how a value comes back from its text. *)
Context (saved : Env -> json) (failing : Env -> Prop) (kept : json -> json).

(** [setAux] may do nothing on the disk, or throw: then the store is failing
    until it writes this document again. *)
Class SavedLaws : Prop := {
  law_other A h : hostCall A h -> forall e, saved (h e).2 = saved e /\ (failing e -> failing (h e).2);
  law_pending v e : let e' := (s_setAux (#"pending") v e).2 in failing e' \/ (s_setAux (#"pending") v e).1 = Ok tt /\ saved e' = kept v;
  law_array l : kept (JArr l) = JArr (kept <$> l);
  law_object m : kept (JObj m) = JObj (prod_map id kept <$> m)
}.

Definition savedOwn (e : Env) : list json := arrayOf (field (saved e) (#"ops")).
Definition savedMarks (e : Env) : list (bytes * json) := match field (saved e) (#"marks") with JObj m => m | _ => [] end.
Definition onDisk (s : St) : Prop :=
  failing s.2 \/ savedOwn s.2 = kept <$> pendingOwn_ s.1 /\ savedMarks s.2 = prod_map id kept <$> pendingMarks_ s.1.

Definition keepsSaved (s s' : St) : Prop := onDisk s -> onDisk s'.
#[local] Instance keepsSaved_pre : PreOrder keepsSaved.
Proof. split; [by intros s T|]. intros s1 s2 s3 A B T. by apply B, A. Qed.

Context {Laws : SavedLaws} (Ho : forall s, keepsSaved s (others s)).

Definition otherCall (A : Type) (h : Env -> result Thrown A * Env) : Prop :=
  forall e, saved (h e).2 = saved e /\ (failing e -> failing (h e).2).
Definition sameQueues (f : HistorySync -> HistorySync) : Prop := forall s, pendingOwn_ (f s) = pendingOwn_ s /\ pendingMarks_ (f s) = pendingMarks_ s.
#[local] Instance saved_sound : Sound otherCall sameQueues (keeps keepsSaved).
Proof.
  apply keeps_sound; [typeclasses eauto| |].
  - intros A h C s. unfold keepsSaved, onDisk, savedOwn, savedMarks. rewrite lift_state, lift_env.
    destruct (C s.2) as [-> G]. intros [K|K]; [left; by apply G|by right].
  - intros f Hf s. destruct (Hf s.1) as [A B]. unfold keepsSaved, onDisk. cbn [modify fst snd]. by rewrite A, B.
Qed.
#[local] Hint Extern 1 (sameQueues _) => (by intros ?) : sound.
#[local] Hint Extern 2 (otherCall _ _) => (intros ?; apply law_other; solve [constructor]) : sound.

Lemma pendingDoc_kept (s : HistorySync) :
  arrayOf (field (kept (pendingDoc s)) (#"ops")) = kept <$> pendingOwn_ s /\
  match field (kept (pendingDoc s)) (#"marks") with JObj m => m | _ => [] end = prod_map id kept <$> pendingMarks_ s.
Proof using Laws.
  assert (exists i, pendingDoc s = JObj [(#"incoming", i); (#"marks", JObj (pendingMarks_ s)); (#"ops", JArr (pendingOwn_ s))]) as [i ->] by (by eexists).
  rewrite law_object. unfold field. cbn [fmap list_fmap prod_map fst snd id]. rewrite law_array, law_object. split; reflexivity.
Qed.

(** What is saved is the queues as they are, or the store is failing. *)
Lemma save_onDisk s : (savePendingLocked s).2.1 = s.1 /\ onDisk (savePendingLocked s).2.
Proof using Laws.
  unfold savePendingLocked, bind, gets, lift. cbn [fst snd]. unfold id. pose proof (law_pending (pendingDoc s.1) s.2) as L. cbv zeta in L.
  destruct (s_setAux _ _ s.2) as [[[]|x] e']; (split; [done|]); unfold onDisk, savedOwn, savedMarks; cbn [fst snd] in *; destruct L as [L|[D E]]; auto; [|done].
  right. rewrite E. apply pendingDoc_kept.
Qed.

(** After changes of the members they are saved. *)
Definition savesAfter {A} (m : H A) : Prop := forall s, onDisk (m s).2.
Lemma saves_save : savesAfter savePendingLocked.
Proof using Laws. intros s. apply save_onDisk. Qed.
Lemma saves_then {A} (k : unit -> H A) : keeps keepsSaved _ (k tt) -> savesAfter (bind savePendingLocked k).
Proof using Laws. intros K s. destruct (save_onDisk s) as (E & O). unfold bind. destruct (savePendingLocked s) as [[[]|e|] s']; [by apply K|done|done]. Qed.
Lemma saves_modify {A} f (k : unit -> H A) : savesAfter (k tt) -> savesAfter (bind (modify f) k).
Proof. intros K s. apply K. Qed.
Lemma saves_gets {A B} (f : HistorySync -> B) (k : B -> H A) : (forall b, savesAfter (k b)) -> savesAfter (bind (gets f) k).
Proof. intros K s. apply K. Qed.
Lemma saves_keeps {A} (m : H A) : savesAfter m -> keeps keepsSaved _ m.
Proof. intros Sv s _. apply Sv. Qed.

(** The clock, if it is asked: the members changed before stay changed, so it must
    answer. *)
Definition answers : Prop := forall e, exists t e', h_nowMs e = (Ok t, e').
Context (Clock : answers) (Dice : forall lo hi e, exists t e', h_random lo hi e = (Ok t, e')).

Lemma saves_now {A} (k : Z -> H A) : (forall t, savesAfter (k t)) -> savesAfter (bind now k).
Proof using Clock. intros K s. unfold now, lift, bind. destruct (Clock s.2) as (t & e' & ->). apply K. Qed.
Lemma saves_random {A} lo hi (k : Z -> H A) : (forall t, savesAfter (k t)) -> savesAfter (bind (randomIn lo hi) k).
Proof using Dice. intros K s. unfold randomIn, lift, bind, ret. destruct (hi <=? lo); [apply K|]. destruct (Dice lo hi s.2) as (t & e' & ->). apply K. Qed.
Lemma saves_assoc {A B C} (m : H A) (k : A -> H B) (l : B -> H C) : savesAfter (bind m (fun a => bind (k a) l)) -> savesAfter (bind (bind m k) l).
Proof. intros K s. specialize (K s). unfold bind in *. by destruct (m s) as [[a|e|] s']. Qed.
Lemma saves_when {A} b (m : H unit) (k : unit -> H A) : savesAfter (bind m k) -> savesAfter (k tt) -> savesAfter (bind (when b m) k).
Proof. intros K L. destruct b; [done|]. intros s. apply L. Qed.
#[local] Ltac saves := repeat first
  [ apply saves_save | apply saves_then | apply saves_modify | apply saves_gets; intros ? | apply saves_now; intros ? | apply saves_random; intros ?
  | apply saves_assoc | apply saves_when | match goal with |- savesAfter (bind (match ?x with _ => _ end) _) => destruct x end ].

Lemma saved_pieces : Pieces cfg others (keeps keepsSaved) parksAny.
Proof using All.
  pose proof saved_sound as Q. assert (keeps keepsSaved _ (meanwhile others)) as Mw by (intros s; apply Ho).
  assert (keeps keepsSaved _ savePendingLocked) as Sv by (apply saves_keeps, saves_save).
  assert (forall k v, keeps keepsSaved _ (setMeta k v)) as Sm by (intros k v; unfold setMeta; sound).
  assert (keeps keepsSaved _ saveMetaLocked) as SM by (unfold saveMetaLocked; sound).
  split.
  - apply (sound_weaken otherCall _ sameQueues _ (keeps keepsSaved)); [intros A h C e; by apply law_other| |done]. intros f B s. by destruct (B s) as (? & ? & _).
  - done.
  - done.
  - intros op. unfold noteSeen. sound. apply (@sound_modify _ _ _ _ _ Q). intros s. unfold noteKey. case_bool_decide; [done|]. by destruct (trim _ _).
  - intros t. unfold takeParked. sound.
  - intros op own a _. apply (@sound_modify _ _ _ _ _ Q). intros s. unfold park. by destruct (_ <? _)%nat.
  - intros k m. unfold queueMark. sound_step; [done|]. apply saves_keeps. saves.
  - intros op own. unfold enqueue. sound_step; [done|]. destruct own; [apply saves_keeps; saves|]. sound_step; [sound|]. destruct (_ || _); [sound|]. apply saves_keeps. saves.
  - intros d t. unfold splitIncoming. sound.
  - intros l n m t e. unfold notSent. sound_step; [done|]. apply saves_keeps. saves. sound.
  - intros a b. unfold migrated. sound_step; [done|]. apply saves_keeps. unfold setMeta. saves; sound.
  - intros h. unfold noteHead, metaHead, meta. sound.
  - intros cp refs b l upto i j. unfold loaded, metaCursor, meta. sound.
  - intros r h. unfold turnPage, metaCursor, meta, now. sound.
  - intros i ss t b. unfold committed, metaCursor, metaHead, meta. sound.
Qed.

Lemma saved_sent n m t : keeps keepsSaved _ (sent cfg others n m t).
Proof using All. pose proof saved_sound as Q. unfold sent. sound_step; [intros s; apply Ho|]. apply saves_keeps. saves. Qed.

(** Claim C11 (queue_survives): whenever the program ends, between two calls or turns
    of the worker, whatever they did and however they ended, the next run starts
    with the same own operations and the same own marks to send, as JSON text keeps
    them, if the store's last writing of the document of the queues was done: a
    writing that fails or throws is not reported to the queue, and leaves the disk
    behind it until the next that is done. *)
Theorem queue_survives (s s' : St) (t : Z) (doc : json) : onDisk s -> rtc (step cfg others turns parksAny) s s' ->
  failing s'.2 \/
  pendingOwn_ (restored cfg t doc (saved s'.2)) = kept <$> pendingOwn_ s'.1 /\
  pendingMarks_ (restored cfg t doc (saved s'.2)) = prod_map id kept <$> pendingMarks_ s'.1.
Proof using All.
  intros O Rt. pose proof saved_pieces as Pc. exact (step_keeps_sent cfg others turns keepsSaved parksAny saved_sent s s' Rt O).
Qed.
End Saved.
End Queue.

(** ** Runs *)

#[local] Existing Instance grows_pre.
#[local] Existing Instance keepsSaved_pre.

Definition onServer (e : Bench) (b : bytes) : Prop := b ∈ b_taken e.
Definition madeOf (e : Bench) (ops : list json) (bs : list bytes) : Prop := (ops, bs) ∈ b_sealed e.

Lemma hbench_later e e' : (forall b, b ∈ b_taken e -> b ∈ b_taken e') -> (forall x, x ∈ b_sealed e -> x ∈ b_sealed e') -> later onServer madeOf e e'.
Proof. intros A B. split; [exact A|]. intros ops bs. apply B. Qed.

#[local] Instance bench_journal : JournalLaws onServer madeOf.
Proof.
  split.
  - apply hbench_calls; intros; apply hbench_later; cbn; intros; rewrite ?elem_of_cons; auto.
  - intros k v e. by apply hbench_later.
  - intros args ops v e e' A. change (e_session (#"seal") args e) with (sessionOf (#"seal") args e). unfold sessionOf, field. rewrite A. intros [= <- <-]. by left.
  - intros f b raw r e e' [= <-] [= <-]. unfold requestOf. rewrite bool_decide_true by done. destruct (b_faults e) as [|[t|] l]; intros [= <- <-] D; cbn; try by left.
    destruct D as [[? D]|D]; [done|]. injection D as ->. rewrite bool_decide_true by done. cbn. by left.
Qed.

Definition pendingDocOf (e : Bench) : json := default JNull (mget (#"pending") (b_aux e)).
(** Its store is the memory: it never fails and keeps values as they are. *)
Definition neverFails (e : Bench) : Prop := False.
#[local] Instance bench_saved : SavedLaws pendingDocOf neverFails id.
Proof.
  split.
  - refine (hbench_calls (fun e e' => pendingDocOf e' = pendingDocOf e /\ (neverFails e -> neverFails e')) _ _ _ _ _ _ _ _ _ _); try done.
    intros v e. split; [|done]. unfold pendingDocOf. cbn [b_aux withAux]. by rewrite mget_mset_ne.
  - intros v e. right. split; [reflexivity|]. unfold pendingDocOf. cbn [b_aux withAux snd s_setAux bench]. by rewrite mget_mset_eq.
  - intros l. unfold id. by rewrite list_fmap_id.
  - intros m. unfold id at 1. f_equal. induction m as [|[k v] m IH]; [done|]. cbn. by rewrite <- IH.
Qed.

(** Two deletions are queued; while they are sent another thread records a third. *)
Definition queued : HistorySync * Bench :=
  (set_pendingOwn_ [goneOf (#"m1"); goneOf (#"m2")] joined,
   withAux (#"pending") (jobj [(#"ops", JArr [goneOf (#"m1"); goneOf (#"m2")])]) (mkBench [] [] [] [] [] [] [Some (BusError (#"ERROR_CODE_DUPLICATE"))] [])).
Definition recorded (s : HistorySync * Bench) : HistorySync * Bench := (recordNow me alone 5 (goneOf (#"m3")) true s).2.
Definition busy (s : HistorySync * Bench) : HistorySync * Bench := if ((length (pendingOwn_ s.1) =? 2) && (length (b_sealed s.2) =? 1))%nat then recorded s else s.
Definition flushed : HistorySync * Bench := (flushNow me busy 5 false queued).2.

Lemma one_flush : rtc (step me busy 5 parksAny) queued flushed.
Proof. exact (rtc_once _ _ (step_network me busy 5 parksAny queued _ (o_flush me busy 5 false))). Qed.

(** What another thread records is as the theorems ask. *)
Lemma busy_grows s : grows onServer madeOf s (busy s).
Proof.
  unfold busy. destruct (_ && _); [|by split]. unfold recorded. assert (forall s : HistorySync * Bench, grows onServer madeOf s (alone s)) as Ha by (intros x; by split).
  pose proof (grows_pieces me alone 5 onServer madeOf Ha) as Pc. destruct (walk_loops me alone 5 (grows onServer madeOf) parksAny) as (Rec & _). apply Rec.
Qed.

Lemma bench_clock : answers (Env := Bench).
Proof. intros e. by exists 1000, e. Qed.
Lemma bench_dice (lo hi : Z) (e : Bench) : exists t e', h_random lo hi e = (Ok t, e').
Proof. by exists lo, e. Qed.

Lemma busy_saved s : keepsSaved pendingDocOf neverFails id s (busy s).
Proof.
  unfold busy. destruct (_ && _); [|done]. unfold recorded. assert (forall s : HistorySync * Bench, keepsSaved pendingDocOf neverFails id s (alone s)) as Ha by (intros x; done).
  pose proof (saved_pieces me alone 5 pendingDocOf neverFails id Ha bench_clock bench_dice) as Pc. destruct (walk_loops me alone 5 (keepsSaved pendingDocOf neverFails id) parksAny) as (Rec & _). apply Rec.
Qed.

Lemma own_kept_witness : pendingOwn_ queued.1 = [goneOf (#"m1"); goneOf (#"m2")] /\ pendingOwn_ flushed.1 = [goneOf (#"m3")] /\
  passed (settled onServer madeOf flushed.2) (pendingOwn_ queued.1) (pendingOwn_ flushed.1).
Proof.
  split; [reflexivity|]. split; [vm_compute; reflexivity|]. exact (own_kept me busy 5 onServer madeOf busy_grows queued flushed one_flush).
Defined.

Lemma queue_survives_witness : pendingOwn_ (restored me 0 JNull (pendingDocOf flushed.2)) = [goneOf (#"m3")].
Proof.
  destruct (queue_survives me busy 5 pendingDocOf neverFails id busy_saved bench_clock bench_dice
    queued flushed 0 JNull) as [[]|[E _]]; [right; split; reflexivity|exact one_flush|]. rewrite E. vm_compute. reflexivity.
Defined.

(** An incoming operation that is due is taken out of the queue before it is sent.
    What another thread records then is saved without it: if the program ends
    before the append, the operation is neither on the disk nor in the journal. *)
Definition arrived : HistorySync * Bench := (recordNow me alone 5 (goneOf (#"m1")) false (joined, noBench)).2.
Definition midFlush : HistorySync * Bench := recorded (splitIncoming alone false 9000 arrived).2.
Lemma incoming_lost :
  length (incoming_ (restored me 0 JNull (pendingDocOf arrived.2))) = 1%nat /\
  incoming_ (restored me 0 JNull (pendingDocOf midFlush.2)) = [] /\ b_taken midFlush.2 = [] /\ b_sealed midFlush.2 = [].
Proof. by vm_compute. Qed.
End HistoryQueue.
