(* ===== verification/HistoryRead.v ===== *)
(** * HistoryRead: what the journal gives and how its work ends

    The count of unread messages and the last read one, a server that lost records,
    the parts of a segment, and that every operation ends. *)

From S2P Require Import Prelude Json DomainSync PlannerUtil PlannerJson Poll StoreCrypt Host HistoryOps HistorySync HistoryWalk HistoryBench HistoryInv.
Import Base64 Sync StoreCrypt HistoryOps HistorySync HistoryWalk HistoryBench HistoryInv.

Module HistoryRead.

#[local] Open Scope Z_scope.

(** ** Alone: no other thread runs *)

Section Alone.
Context {Env : Type} {Ci : Cipher} {Host : HistoryHost Env} {Tx : JsonText} (cfg : Config) (turns : nat).
Notation H := (M HistorySync Env).
Notation St := (HistorySync * Env)%type.

(** *** A server that lost records *)

Lemma deliver_nothing (others : St -> St) s : deliver others [] [] s = (Done tt, s).
Proof. unfold deliver, bind. by destruct h_onRows, h_onMark. Qed.

Lemma meta_read k c (s : St) : entryOf k s.1 = Ok c -> meta getU64 k 0 s = (Done c, s).
Proof. unfold entryOf, meta, bind, gets. cbn [fst snd]. by intros ->. Qed.

(** Property (rollback_applies_nothing): when the server's head is behind the head
    that was seen, the answer is thrown away as a whole: the sync fails, and the
    members, the store and the screen are as they were after the answer was
    asked for; nothing of it is applied, and the cursor does not move. *)
Theorem rollback_applies_nothing (s s' : St) (cursor known : Z) (r : json) :
  stop_ s.1 = false -> entryOf (#"cursor") s.1 = Ok cursor -> askPage alone cursor s = (Done r, s') ->
  entryOf (#"headSeq") s'.1 = Ok known -> u64 (field r (#"headSeq")) < known ->
  pullLocked cfg alone turns s = (Done false, s').
Proof.
  intros Sp C A K L. unfold pullLocked. assert (pullPages cfg alone turns kSyncPages [] [] s = (Done (false, ([], [])), s')) as E.
  { change kSyncPages with (S (pred kSyncPages)). cbn [pullPages]. unfold bind at 1. change (reading alone stop_ s) with (Done (stop_ s.1), s). rewrite Sp. cbn iota beta.
    unfold bind at 1. change (meanwhile alone s) with (Done tt, s). cbn iota beta. unfold bind at 1, metaCursor. rewrite (meta_read (#"cursor") cursor s C). unfold bind at 1. rewrite A.
    unfold noteHead, bind at 1 2. change (meanwhile alone s') with (Done tt, s'). cbn iota beta. unfold bind at 1, metaHead. rewrite (meta_read (#"headSeq") known s' K).
    assert (u64 (field r (#"headSeq")) <? known = true) as -> by (by apply Z.ltb_lt). done. }
  unfold bind at 1. rewrite E. cbn [fst snd]. unfold bind. by rewrite deliver_nothing.
Qed.

(** *** Unread *)

Section Unread.
(** The engine's answer, by its arguments. *)
Context (unread_ : json -> bool) (Pure : forall args e, e_call (#"historyIsUnread") args e = (Ok (JBool (unread_ args)), e)).
Context (Get : forall k e, exists l, s_inChat k e = (Ok l, e)) (Mark : forall k e, exists m, s_mark k e = (Ok m, e)).

(** Visible rows with their places. *)
Definition placed (rows : list json) : list (json * (Z * bytes)) :=
  omap (fun s => if visibleState s then (s,.) <$> rowPos s else None) rows.
Definition behind (pos : option (Z * bytes)) (p : Z * bytes) : bool := match pos with Some q => negb (after p q) | None => false end.

Definition first : Z * bytes := (- 2 ^ 63, []).
Definition latest (l : list (Z * bytes)) : Z * bytes := foldl (fun best p => if after p best then p else best) first l.

Lemma latest_from l : forall best, let p := foldl (fun best p => if after p best then p else best) best l in
  (p = best \/ p ∈ l) /\ after best p = false /\ forall q, q ∈ l -> after q p = false.
Proof.
  induction l as [|x l IH]; intros best; cbn [foldl]; [split_and!; [by left|apply after_irrefl|intros q Hq; by apply elem_of_nil in Hq]|].
  destruct (IH (if after x best then x else best)) as (A & B & C). set (p := foldl _ _ l) in *.
  assert (forall a b c : Z * bytes, after a b = false -> after c b = true -> after a c = false) as Tr.
  { intros a b c N T. destruct (after a c) eqn:E; [|done]. by rewrite (after_trans a c b E T) in N. }
  assert (forall a b c : Z * bytes, after a b = false -> after b c = false -> after a c = false) as Tr2.
  { intros a b c N N'. destruct (after a c) eqn:E; [|done]. destruct (after_total b a) as [T|[T|T]]; [|congruence|subst; congruence]. by rewrite (after_trans b a c T E) in N'. }
  destruct (after x best) eqn:E.
  - split_and!; [destruct A as [->|A]; right; [by left|by right]| |].
    + destruct (after best p) eqn:F; [|done]. rewrite (after_trans x best p E F) in B. done.
    + intros q Hq. apply elem_of_cons in Hq as [->|Hq]; [exact B|by apply C].
  - split_and!; [destruct A as [->|A]; [by left|right; by right]|exact B|]. intros q Hq. apply elem_of_cons in Hq as [->|Hq]; [by apply (Tr2 x best p)|by apply C].
Qed.

Lemma isUnread_pure s m l st : isUnread alone s m l st = (Done (unread_ (unreadArgs s m l)), st).
Proof using Pure. destruct st as [h e]. unfold isUnread, call, host, attempt, bind, meanwhile, alone, lift. cbn [fst snd]. by rewrite Pure. Qed.

Lemma readRows_spec rows m pos selves : forall n best st,
  readRows alone rows m pos selves n best st =
  (Done (n + Z.of_nat (length (List.filter (fun x => negb (behind pos x.2) && unread_ (unreadArgs x.1 (match pos with Some _ => m | None => None end) selves)) (placed rows))),
         (foldl (fun best p => if after p best then p else best) best (List.filter (behind pos) (placed rows).*2)).2), st).
Proof using Pure.
  induction rows as [|s rows IH]; intros n best st; cbn [readRows]; [cbn; by rewrite Z.add_0_r|]. unfold placed. csimpl. fold (placed rows).
  destruct (visibleState s); [|apply IH]. destruct (rowPos s) as [p|]; csimpl; [|apply IH].
  change (match pos with Some q => negb (posAfter p.1 p.2 q.1 q.2) | None => false end) with (behind pos p). destruct (behind pos p); cbn [negb andb].
  - rewrite IH. reflexivity.
  - unfold bind. rewrite isUnread_pure. destruct (unread_ _); rewrite IH; [|reflexivity]. cbn [length]. rewrite Nat2Z.inj_succ. do 3 f_equal. lia.
Qed.

(** Claim C40 (unread_counted): the number of unread messages of a chat is the number
    of its visible rows after the mark that the engine calls unread, and the last
    read one is the latest of the visible rows up to the mark. *)
Theorem unread_counted (chatKey : bytes) (s : St) :
  exists rows m, s_inChat chatKey s.2 = (Ok rows, s.2) /\ s_mark chatKey s.2 = (Ok m, s.2) /\
  let pos := m ≫= markPos in
  let isRead := behind pos in
  exists p, (p = first \/ p ∈ List.filter isRead (placed rows).*2) /\ (forall q, q ∈ List.filter isRead (placed rows).*2 -> after q p = false) /\
  readState cfg alone chatKey s = (Done {|
    unread := Z.of_nat (length (List.filter (fun x => negb (isRead x.2) &&
                unread_ (unreadArgs x.1 (match pos with Some _ => m | None => None end) (JArr (JStr <$> addresses cfg (selves_ s.1))))) (placed rows)));
    lastReadId := p.2; r_mark := default JNull m |}, s).
Proof using Pure Get Mark.
  destruct s as [h e]. destruct (Get chatKey e) as [rows Er], (Mark chatKey e) as [m Em]. exists rows, m. split; [done|]. split; [done|]. cbv zeta.
  exists (latest (List.filter (behind (m ≫= markPos)) (placed rows).*2)). destruct (latest_from (List.filter (behind (m ≫= markPos)) (placed rows).*2) first) as (A & _ & C).
  split; [exact A|]. split; [exact C|]. unfold readState, selvesJson, selfAddresses, reading, host, bind, meanwhile, alone, lift, gets, ret. cbn [fst snd]. rewrite Em. cbn [fst snd]. rewrite Er. cbn [fst snd].
  by rewrite readRows_spec.
Qed.
End Unread.
End Alone.

(** ** Parts of a segment *)

Section Parts.
Context (size : json -> Z).

Definition sizeOf (part : list json) : Z := foldr (fun s n => size s + n) 0 part.

Lemma sizeOf_app a b : sizeOf (a ++ b) = sizeOf a + sizeOf b.
Proof. induction a as [|x a IH]; cbn; [done|]. fold (sizeOf (a ++ b)) (sizeOf a). lia. Qed.

(** Each part fits in a record, or is one state; a part is closed when the next
    state does not fit. *)
Definition fits (part : list json) : Prop := part <> [] /\ (sizeOf part <= kSegmentPartBytes \/ length part = 1%nat).
Fixpoint full (parts : list (list json)) : Prop :=
  match parts with
  | part :: rest => match rest with (s :: _) :: _ => kSegmentPartBytes < sizeOf part + size s | _ => True end /\ full rest
  | [] => True
  end.

Definition sizes (l : list json) : list (json * Z) := (fun s => (s, size s)) <$> l.

Lemma splitParts_head l : forall part n, exists more rest, splitParts l part n = (part ++ more) :: rest.
Proof.
  induction l as [|[s z] l IH]; intros part n; cbn; [exists [], []; by rewrite app_nil_r|]. destruct (_ && _); [exists [], (splitParts l [s] z); by rewrite app_nil_r|].
  destruct (IH (part ++ [s]) (n + z)) as (more & rest & ->). exists (s :: more), rest. by rewrite <- app_assoc.
Qed.

Lemma splitParts_from l : forall part, part <> [] \/ l <> [] -> part = [] \/ fits part ->
  let parts := splitParts (sizes l) part (sizeOf part) in concat parts = part ++ l /\ Forall fits parts /\ full parts.
Proof.
  induction l as [|s l IH]; intros part N F; cbn [sizes fmap list_fmap splitParts].
  - destruct N as [N|N]; [|done]. destruct F as [F|F]; [done|]. cbn. rewrite !app_nil_r. split; [done|]. split; [by constructor|done].
  - fold (sizes l). destruct (negb (bool_decide (length part = 0%nat)) && (kSegmentPartBytes <? sizeOf part + size s)) eqn:C.
    + apply andb_true_iff in C as [C1 C2]. apply Z.ltb_lt in C2. assert (part <> []) as Np by (intros ->; done). destruct F as [F|F]; [done|].
      destruct (IH [s]) as (A & B & D); [by left|right; split; [done|by right]|]. replace (sizeOf [s]) with (size s) in A, B, D by (cbn; lia).
      destruct (splitParts_head (sizes l) [s] (size s)) as (more & rest & E). split; [cbn; by rewrite A|]. split; [by constructor|]. split; [by rewrite E|exact D].
    + destruct (IH (part ++ [s])) as (A & B & D); [left; by destruct part|right; split; [by destruct part|]|].
      * apply andb_false_iff in C as [C|C]; [|left; apply Z.ltb_ge in C; rewrite sizeOf_app; cbn; lia]. right. by destruct part.
      * rewrite sizeOf_app in A, B, D. cbn in A, B, D. rewrite Z.add_0_r in A, B, D. split; [|by split]. rewrite A. by rewrite <- app_assoc.
Qed.

(** Claim C39 (segments_whole): a segment of a checkpoint is cut into parts of which
    it is the whole, in order; each part fits in a record of 120 KiB, or is one
    state that does not, and no part could have taken the next state too. *)
Theorem segments_whole (l : list json) : l <> [] ->
  let parts := splitParts (sizes l) [] 0 in concat parts = l /\ Forall fits parts /\ full parts.
Proof. intros N. apply (splitParts_from l []); [by right|by left]. Qed.
End Parts.

(** ** Every operation ends *)

Section Ends.
Context {Env : Type} {Ci : Cipher} {Host : HistoryHost Env} {Tx : JsonText} (cfg : Config).
Context (others : HistorySync * Env -> HistorySync * Env).
Notation H := (M HistorySync Env).
Notation St := (HistorySync * Env)%type.
#[local] Hint Extern 1 (anyCall _ _) => exact I : sound.

(** What waits for its row is not itself a row: what [record] parks is an edit or
    a deletion. *)
Definition noRow (op : json) : Prop := contains (#"row") op = false.
Definition calm (s : HistorySync) : Prop := forall target l, parked_ s !! target = Some l -> Forall (fun p => noRow (p_op p)) l.

Definition ends (A : Type) (m : H A) : Prop := forall s, calm s.1 -> (m s).1 <> Stuck /\ calm (m s).2.1.

Definition sameParked (f : HistorySync -> HistorySync) : Prop := forall s, parked_ (f s) = parked_ s.

#[local] Instance ends_sound : Sound anyCall sameParked ends.
Proof.
  split; [by intros * s C..| | | |].
  - intros A B m k Hm Hk s C. destruct (Hm s C) as [N C']. unfold bind. destruct (m s) as [[a|e|] s']; [by apply Hk|done|done].
  - intros A m Hm s C. destruct (Hm s C) as [N C']. unfold attempt. by destruct (m s) as [[a|e|] s'].
  - intros f Hf s C. split; [done|]. unfold calm. cbn. by rewrite Hf.
  - intros A h _ s C. rewrite lift_state. split; [|done]. unfold lift. by destruct (h s.2) as [[a|e] env].
Qed.
#[local] Hint Extern 1 (sameParked _) => (by intros ?) : sound.

Context (Ho : forall s, calm s.1 -> calm (others s).1).

Lemma ends_pieces : Pieces cfg others ends noRow.
Proof using All.
  pose proof ends_sound as Q. assert (ends _ (meanwhile others)) as Mw by (intros s C; split; [done|by apply Ho]).
  assert (ends _ savePendingLocked) as Sv by (unfold savePendingLocked; sound).
  split.
  - apply (sound_weaken anyCall _ sameParked _ ends); [done| |done]. intros f B s. by destruct (B s) as (_ & _ & _ & _ & _ & ? & _).
  - done.
  - done.
  - intros op. unfold noteSeen. sound. apply (@sound_modify _ _ _ _ _ Q). intros s. unfold noteKey. case_bool_decide; [done|]. by destruct (trim _ _).
  - intros t. unfold takeParked. sound_step; [done|]. intros [s e] C. unfold bind, gets, modify, ret, id. cbn [fst snd] in *. destruct (parked_ s !! t) as [l|]; [|by split]. split; [done|].
    intros k l'. cbn. rewrite lookup_delete_Some. intros [_ E]. by eapply C.
  - intros op own a P [s e] C. split; [done|]. unfold park. cbn [modify fst snd] in *. destruct (_ <? _)%nat; [|done]. intros k l. cbn. rewrite lookup_insert_Some.
    intros [[<- <-]|[_ E]]; [|by eapply C]. apply list.Forall_app. split; [|by constructor]. destruct (parked_ s !! opTarget op) as [l'|] eqn:E; [by eapply C|constructor].
  - intros k m. unfold queueMark, now. sound.
  - intros op own. unfold enqueue, now, randomIn. sound.
  - intros d t. unfold splitIncoming. sound.
  - intros l n m t e. unfold notSent, setMeta. sound.
  - intros a b. unfold migrated, saveMetaLocked, setMeta, now. sound.
  - intros h. unfold noteHead, metaHead, meta, setMeta. sound.
  - intros cp refs b l upto i j. unfold loaded, metaCursor, meta, setMeta, saveMetaLocked. sound.
  - intros r h. unfold turnPage, metaCursor, meta, setMeta, saveMetaLocked, now. sound.
  - intros i ss t b. unfold committed, metaCursor, metaHead, meta, setMeta, saveMetaLocked. sound.
Qed.

(** *** Recording *)

(** An operation that is no row needs one level. *)
Lemma ends_plain n op own : noRow op -> ends _ (recordNow cfg others (S n) op own).
Proof using All.
  intros P. pose proof ends_pieces as Pc. pose proof ends_sound as Q. cbn [recordNow]. rewrite P.
  pose proof (walk_apply cfg others 0 ends noRow). pose proof (walk_wake cfg others 0 ends noRow). assert (forall op own, ends _ (enqueue cfg others op own)) by (intros o w; eapply pc_enqueue; exact Pc). sound.
Qed.

Lemma ends_release rec : (forall op own, noRow op -> ends _ (rec op own)) -> forall ready a, Forall (fun p => noRow (p_op p)) ready -> ends _ (release rec a ready).
Proof.
  pose proof ends_sound as Q. intros R. induction ready as [|p ready IH]; intros a F; cbn [release]; [sound|]. inversion F as [|? ? F1 F2]. subst. specialize (IH a F2). pose proof (R (p_op p) (p_own p) F1). sound.
Qed.

Lemma ends_releaseParked rec state : (forall op own, noRow op -> ends _ (rec op own)) -> ends _ (releaseParked others rec state).
Proof using All.
  intros R. pose proof ends_sound as Q. unfold releaseParked. destruct (negb _); [sound|]. intros s C. unfold takeParked.
  unfold bind, meanwhile, gets, modify, ret, id. cbn [fst snd]. pose proof (Ho s C) as C1. destruct (others s) as [h e]. cbn [fst snd] in *.
  destruct (parked_ h !! strOf state (#"target")) as [l|] eqn:E; [|by apply (ends_release rec R []); [constructor|]].
  apply (ends_release rec R l); [by eapply C1|]. intros k l'. cbn. rewrite lookup_delete_Some. intros [_ E']. by eapply C1.
Qed.

Lemma ends_record n op own : ends _ (recordNow cfg others (S (S n)) op own).
Proof using All.
  pose proof ends_pieces as Pc. pose proof ends_sound as Q. pose proof (fun st => ends_releaseParked (recordNow cfg others (S n)) st (ends_plain n)) as Rel. 
  revert Rel. generalize (S n) as k. intros k Rel. cbn [recordNow].
  pose proof (walk_apply cfg others 0 ends noRow). pose proof (walk_wake cfg others 0 ends noRow). pose proof (walk_isSelf cfg others 0 ends noRow).
  pose proof (walk_advance cfg others 0 ends noRow). assert (forall op own, ends _ (enqueue cfg others op own)) by (intros o w; eapply pc_enqueue; exact Pc). sound.
Qed.

(** *** Loops *)

Lemma next_shorter (got : list Z) (z : Z) (rest : list Z) (n : nat) : (0 < n)%nat ->
  let next := List.filter (fun s => negb (isIn got s)) (z :: rest) in
  (length (if existsb (isIn got) (z :: rest) then next else drop (Nat.min (length next) n) next) < length (z :: rest))%nat.
Proof.
  intros N. cbv zeta. assert (forall l, length (List.filter (fun s => negb (isIn got s)) l) <= length l)%nat as Le.
  { induction l as [|x l IH]; [done|]. cbn. destruct (negb _); cbn; lia. }
  destruct (existsb (isIn got) (z :: rest)) eqn:E.
  - revert E. generalize (z :: rest) as l. induction l as [|x l IH]; [done|]. cbn. destruct (isIn got x); cbn; [intros _; pose proof (Le l); lia|]. intros E. specialize (IH E). cbv zeta in *. apply -> Nat.succ_lt_mono. exact IH.
  - rewrite length_drop. pose proof (Le (z :: rest)) as L. generalize dependent (length (List.filter (fun s => negb (isIn got s)) (z :: rest))). intros k L. cbn [length] in *. lia.
Qed.

Lemma ends_get fuel : forall rest ops recs, (length rest < fuel)%nat -> ends _ (getLoop others fuel rest ops recs).
Proof using All.
  pose proof ends_pieces as Pc. pose proof ends_sound as Q. induction fuel as [|fuel IH]; intros rest ops recs L; [lia|]. cbn [getLoop].
  pose proof (walk_bodyOf cfg others 0 ends noRow). pose proof (walk_req cfg others 0 ends noRow). pose proof (walk_ingest cfg others 0 ends noRow).
  pose proof (walk_reading (A := bool) cfg others 0 ends noRow).
  destruct rest as [|z rest]; [exact (@sound_ret _ _ _ _ _ Q _ (ops, recs))|].
  sound.
  apply IH. match goal with |- context [isIn ?got] => pose proof (next_shorter got z rest (length (take 256 (z :: rest)))) as Sh end.
  cbv zeta in Sh. specialize (Sh ltac:(cbn; lia)). lia.
Qed.

Lemma ends_batches n (records : forall op own, ends _ (recordNow cfg others n op own)) fuel :
  forall seqs b x stale, (length seqs < fuel)%nat -> ends _ (loadBatches cfg others n fuel seqs b x stale).
Proof using All.
  pose proof ends_pieces as Pc. pose proof ends_sound as Q.
  assert (forall seqs, ends _ (getRecordsLocked others seqs)) as Get by (intros seqs; apply ends_get; lia).
  pose proof (walk_absorbAll cfg others n ends noRow records). pose proof (walk_tell cfg others n ends noRow).
  pose proof (walk_reading (A := bool) cfg others 0 ends noRow).
  induction fuel as [|fuel IH]; intros seqs b x stale L; [lia|]. cbn [loadBatches].
  destruct seqs as [|z seqs]; [exact (@sound_ret _ _ _ _ _ Q _ stale)|]. sound.
  apply IH. rewrite length_drop. cbn [length] in *. unfold kGetBatch. lia.
Qed.

(** What is put on the journal, and what threads call: a row is put by the thread
    that made or got it; an operation with an author it requires is no row. *)
Inductive work (n : nat) : forall A, H A -> Prop :=
| w_row op own : work n json (record cfg others n op own [])
| w_local m : localOp cfg others n noRow m -> work n unit m
| w_network m : operation cfg others n m -> work n bool m.

Lemma ends_work n A (m : H A) : work (S (S n)) A m -> ends A m.
Proof using All.
  pose proof ends_pieces as Pc. pose proof (ends_record n) as Rec. assert (forall seqs, ends _ (getRecordsLocked others seqs)) as Get by (intros seqs; apply ends_get; lia).
  assert (forall seqs b x stale, ends _ (loadBatches cfg others (S (S n)) (S (length seqs)) seqs b x stale)) as Bat by (intros seqs b x stale; apply (ends_batches _ Rec); lia).
  assert (forall i d, ends _ (flushLocked cfg others (S (S n)) i d)) as Fl.
  { intros i d. apply (walk_flush cfg others (S (S n)) ends noRow Rec Get Bat). intros k m' t. pose proof ends_sound as Q. pose proof (pc_meanwhile cfg others ends noRow). pose proof (pc_save cfg others ends noRow). unfold sent. sound. }
  destruct 1 as [op own|m O|m O]; [apply Rec|by apply (walk_local cfg others _ ends noRow Rec)|by apply (walk_operation cfg others _ ends noRow Rec Get Bat Fl)].
Qed.

(** Claim C18 (history_ends): whatever the server, the engine and the other threads
    answer, every operation of the journal ends, with a result or an exception:
    the records that are asked for get fewer each time, the batches of a
    checkpoint run out, and a released operation releases nothing more, because
    only operations that are no row wait for one, which stays so. *)
Theorem history_ends n A (m : H A) (s : St) : calm s.1 -> work (S (S n)) A m -> (m s).1 <> Stuck /\ calm (m s).2.1.
Proof using Ho. intros C W. by apply (ends_work n A m W). Qed.
End Ends.

(** ** Runs *)

(** After the first page the server answers that its head is 3. *)
Definition lost : HistorySync * Bench := (askPage alone 7 synced).2.

Lemma rollback_applies_nothing_witness : seqAt (#"headSeq") lost.1 = 7 /\ length (b_pages synced.2) = 1%nat /\ pullLocked me alone 5 synced = (Done false, lost).
Proof.
  split; [by vm_compute|]. split; [by vm_compute|].
  refine (rollback_applies_nothing me 5 synced lost 7 7 (jobj [(#"headSeq", JUnsigned 3); (#"ops", JArr [rowOp (#"m2")])]) _ _ _ _ _); by vm_compute.
Defined.

(** A chat with a row at 5 and another at 9; the mark is at the first. *)
Definition rowAt (id : bytes) (ts : Z) : json := jobj [(#"target", JStr id); (#"chat", JStr (#"k")); (#"row", jobj [(#"id", JStr id); (#"ts_ms", JUnsigned ts)])].
Definition reading2 : HistorySync * Bench :=
  (newHistory, mkBench [(#"a", rowAt (#"a") 5); (#"b", rowAt (#"b") 9)] [(#"k", jobj [(#"up_to_ts_ms", JUnsigned 5); (#"up_to_id", JStr (#"a"))])] [] [] [] [] [] []).
Lemma unread_counted_witness : exists r, readState me alone (#"k") reading2 = (Done r, reading2) /\ unread r = 1 /\ lastReadId r = #"a".
Proof.
  destruct (unread_counted (Env := Bench) (Host := bench) me (fun _ => true) (fun args e => eq_refl) (fun k e => ex_intro _ _ eq_refl) (fun k (e : Bench) => ex_intro _ _ eq_refl) (#"k") reading2)
    as (rows & m & Er & Em & p & _ & _ & E).
  eexists. split; [exact E|]. assert (readState me alone (#"k") reading2 = (Done {| unread := 1; lastReadId := #"a"; r_mark := default JNull (mget (#"k") (b_marks reading2.2)) |}, reading2)) as E'
    by (vm_compute; reflexivity). rewrite E in E'. injection E' as E1 E2 E3. split; [exact E1|exact E2].
Defined.

(** Three states of 50000 bytes are two parts. *)
Lemma segments_whole_witness : length (splitParts (sizes (fun _ => 50000) [JNull; JNull; JNull]) [] 0) = 2%nat /\
  concat (splitParts (sizes (fun _ => 50000) [JNull; JNull; JNull]) [] 0) = [JNull; JNull; JNull].
Proof. split; [by vm_compute|]. destruct (segments_whole (fun _ => 50000) [JNull; JNull; JNull]) as [E _]; [discriminate|exact E]. Defined.

Lemma history_ends_witness : (syncNow me alone 5 started).1 <> Stuck.
Proof.
  refine (proj1 (history_ends me alone _ 3 bool (syncNow me alone 5) started _ _)); [intros s C; exact C| |exact (w_network me alone 5 _ (o_sync me alone 5))].
  intros target l E. cbn in E. by rewrite lookup_empty in E.
Defined.

(** A page with a row and more to come; the next request fails. The row is in the
    store, and the screen is never told of it: the exception passes [deliver]. *)
Definition more : HistorySync * Bench :=
  (joined, mkBench [] [] [] [Ok (jobj [(#"headSeq", JUnsigned 9); (#"ops", JArr [rowOp (#"m1")]); (#"records", JArr [jobj [(#"seq", JUnsigned 7)]]); (#"more", JBool true)]);
    Ok (jobj [(#"headSeq", JUnsigned 9)])] [] []
    [None; Some (BusError (#"ERROR_CODE_UNAVAILABLE"))] []).
Lemma page_not_shown : let s := (syncNow me alone 5 more).2 in
  length (b_rows s.2) = 1%nat /\ seqAt (#"cursor") s.1 = 7 /\ b_shown s.2 = [] /\ (syncNow me alone 5 s).1 = Done true /\ b_shown (syncNow me alone 5 s).2.2 = [].
Proof. by vm_compute. Qed.
End HistoryRead.
